(* ===== verification/_CoqProject ===== *)
-Q . S2P
Prelude.v
Float64.v
FloatFacts.v
FloatOrder.v
Lww.v
Bytes.v
Wal.v
Federation.v
AlertTypes.v
Evaluator.v
Dependency.v
Inhibitor.v
Router.v
Calendar.v
Escalation.v
Chars.v
Strconv.v
Rotation.v
Tokens.v
Lexer.v
Ast.v
Parsing.v
Parser.v
Grammar.v
Format.v
Show.v
Planner.v
Grouping.v
Values.v
Demo.v
Executor.v
Keys.v
Cardinality.v
Regex.v
Miner.v
PromValue.v
PromFunctions.v
PromMetricsql.v
PromTypes.v
PromLexer.v
PromAst.v
PromParser.v
PromParsed.v
PromEval.v
PromDemo.v
PromSound.v
PromVectors.v
CustomMetrics.v
PromStore.v
PromEngine.v
PromCache.v
PromIndex.v
PromExamples.v
DataShaping.v
ShapingSpec.v
ShapingStore.v
ShapingExamples.v
Sampling.v
SamplingChain.v
SamplingFacts.v
SamplingSpec.v
SamplingRates.v
SamplingExamples.v
Rbac.v
RbacAuth.v
RbacWeb.v
RbacFacts.v
RbacSpec.v
RbacTenants.v
RbacSessions.v
RbacExamples.v
