(* ===== verification/Prelude.v ===== *)
(** * dogwatch: a verification library

    dogwatch is a monitoring server in Go: it ingests metrics, logs and traces, stores them,
    evaluates alert rules, routes and escalates notifications, shares state between the
    nodes of a cluster, and answers queries. This library models the parts that keep state
    or compute results, as the code is written, and proves what makes them correct.

    ** How the code is modelled

    - A Go function that can fail or panic is a function into [result] (this file); a
      method that changes its receiver takes the state and returns the new one. Locks are
      not modelled: a method that holds its lock is one step. Where a method releases it in
      between and a theorem is about calls that interleave, it is several: the checkpoint of
      the log and the sampler by rules. Other such methods are one step still, as the merge of
      an incident, which tests the tombstone under a lock of its own; of a round of
      escalations and of a login, lemmas show what comes of changes in between.
    - [int] and [int64] are [Z] with [wrap64] where the code can overflow, [float64] is
      the 53-bit specification float of the Standard Library (Float64.v), strings are
      Rocq strings of bytes, a map is a [gmap]. Where Go visits a map in random order the
      order is an argument, and the theorems hold for all of them.
    - [time.Time] is nanoseconds since 1970, the clock an argument. SQL, HTTP, JSON, the
      gossip transport, notification channels, the regular expressions of users, hash
      functions and the printing of floats are arguments or fields of a class; what is assumed of them is a named
      hypothesis, and each theorem with one has a witness.
    - Loops that are not structural take fuel, and a theorem says that the fuel given is
      enough: [Lexer.tokenize_total], [Parser.parse_total], [Dependency.blast_radius_exact],
      [Dependency.root_cause_sound_and_total], [PromParser.prom_parse_total] and
      [PromSound.evaluation_keeps_types]. The fuel is the length of the remaining
      input for the lexers and the parsers, the number of known services for the
      dependency graph, and one round more than the steps of a range for the loops over
      time.
    - What several parts share has a file of its own: Float64.v and FloatFacts.v (floats,
      their digits and rounding), Calendar.v (locations, days and weeks), Parsing.v (the
      monad of the two parsers, and why they end), Grouping.v (grouping by a key), Keys.v
      (texts that are cut in one way only), Demo.v (implementations of the classes, to
      evaluate examples with).

    ** The parts

    Cluster state (src/internal/federation). Lww.v is the abstract specification, a
    last-writer-wins map with tombstones; Federation.v is state.go, messages.go and the
    handlers of cluster.go. MergeFullState keeps the later of two versions by their
    timestamps, one exchange makes two replicas agree but for versions with one timestamp,
    delivery order and repetition do not matter, a tombstoned incident does not come back.
    Messages are delivered one after the other; a null in the JSON of a payload is not
    modelled.

    Write-ahead log (src/internal/storage/wal.go). Bytes.v has the little-endian fields,
    the CRC and the file names, Wal.v the log: records, buffering, segments, rotation,
    recovery, checkpoints and clean-up, over a file system that loses what was not synced.
    Records round trip; checkpoints, any number of them, run beside the writers in steps of
    their own ([Wal.wal_step]), and in every state that is reached so synced entries survive
    a restart, as long as fewer than MaxSegments segments are begun during a checkpoint; a
    crash loses only a suffix of the log, of records that were not whole; checkpoints one at
    a time apply each entry once.

    Alerting (src/internal/alerting). AlertTypes.v: rules, alerts, matchers (rule.go).
    Evaluator.v: evaluator.go, the life cycle of alerts, the for-duration, silences,
    composite rules, the invariant of the evaluator. Dependency.v: dependency.go, the
    blast radius and the root cause as graph searches against their specification.
    Inhibitor.v: inhibitor.go and silences. Router.v: router.go, routing, groups and
    their timers. The evaluator produces alerts, the inhibitor and the dependency analysis
    say which are suppressed, the router groups and sends the rest.

    On-call (src/internal/oncall). Escalation.v: escalation.go and the table of states of
    schedule.go: paging is bounded, on time and in order under policies with levels 1 to n,
    stops on acknowledgement and survives a restart. Rotation.v: calculator.go: shifts follow each other and every user
    of a layer gets one, overrides come before layers and layers by priority, and the
    calendar of a layer agrees with the shift at each of its moments.

    Queries (src/internal/query). Tokens.v and Chars.v (token types, UTF-8), Lexer.v
    (lexer.go: the tokens tile the input), Strconv.v (strconv and time.ParseDuration),
    Ast.v and Show.v (ast.go), Parser.v (parser.go, total on every text), Grammar.v (the
    expression grammar as an inductive relation, and the parser against it), Planner.v
    (planner.go), Values.v and Executor.v (executor.go, the in-memory sources of
    datasource.go): the optimisation of a plan loses exactly the filters it pushes into the
    scans, since no source of the code looks at its predicates; expressions are typed and
    panic on a zero remainder only; groups, joins, histograms and limits against their
    specifications. A query text goes
    through [Lexer.Tokenize], [Parser.Parse], [Planner.Planner_Plan] and
    [Executor.Execute] as in Executor.Execute of the code.

    PromQL (src/internal/promql). PromValue.v has the values, PromLexer.v, PromAst.v and
    PromParser.v are lexer.go, ast.go and parser.go, PromFunctions.v and PromMetricsql.v
    the functions of functions.go and metricsql.go with their registry, PromEval.v the
    evaluator of translate.go over any store of metrics (the class [MetricsStore]),
    PromEngine.v the engine with the cache of a range query (engine.go), a second instance
    of the class. PromParsed.v: every tree the parser returns is formed by the grammar.
    PromTypes.v and PromSound.v: every function has the type its entry says, and a query
    with a type evaluates to a value of it, without a panic. PromVectors.v: vector
    matching and aggregation against joins and partitions. PromCache.v: a range query
    computes through its cache what it would on the samples of the range, by a simulation
    between two stores. PromDemo.v and PromExamples.v evaluate queries and apply the
    theorems. A query text goes through [PromParser.Parse], [PromEval.eval] and
    [PromEngine.Engine_Query] or [PromEngine.Engine_QueryRange].

    Metrics in SQL (src/internal/custommetrics/store.go). CustomMetrics.v has the tables
    and the store that writes them, PromStore.v the store PromQL reads (translate.go), a
    third instance of [MetricsStore]; the statements of SQL are modelled by the rows they
    select and write. PromIndex.v: recording keeps the index of labels in step with the
    rows, and a scan through it finds what a full scan finds.

    Metrics (src/internal/metrics/cardinality.go). Cardinality.v: the controller that
    admits new series. Its limits hold for every sequence of calls, an open breaker admits
    nothing, each answer is described case by case, and the answers do not depend on the
    order in which Go visits its maps.

    Log reduction (src/internal/logreduce). Regex.v has regular expressions with a
    relational meaning and a matcher proved against it, Format.v the formatting and
    splitting of strings that several parts share, Miner.v is pattern.go and miner.go:
    mined patterns keep covering the messages they were made from, Match finds what is
    covered, and the two indices of the miner agree.

    Data shaping (src/internal/datashaping, its handlers in internal/web and its adapter in
    cmd/dogwatch). DataShaping.v is rules.go: rules with patterns, in order of priority, that
    drop, sample or rewrite what is recorded. ShapingSpec.v states the same as a table of
    rules and shows that the engine refines it, that the statistics tally the decisions and
    that sampling keeps its share. ShapingStore.v is store.go, the handlers and the path of a
    metric from the adapter to [CustomMetrics.Record_]: a restart restores the rules but for
    those updated without a row, and what is recorded is what the rules leave. ShapingExamples.v evaluates small rules.

    Sampling of traces (src/internal/sampling, and the loop of internal/otlp/traces.go that
    asks it). Sampling.v is types.go, head.go and tail.go: the hash, the sampler by rules and
    the sampler that buffers whole traces; SamplingChain.v is adaptive.go, manager.go,
    adapter.go and the receiver's loop. SamplingFacts.v: the sampler of traces accounts for
    every span. SamplingSpec.v: what dropped and kept traces are, and bounds on the buffers.
    SamplingRates.v: a trace is decided once by rules, the calls of the sampler interleaving,
    as long as its own spans do not race ([SamplingRates.head_step]); more is kept at a
    higher rate, the adapted rate stays in its range, the receiver stores and counts what is
    kept. FloatOrder.v has the
    order of floats and which results are numbers. SamplingExamples.v evaluates small traces.

    Access control (src/internal/rbac, and the requests and the middleware of internal/web).
    Rbac.v is models.go and store.go: roles and the tables; RbacAuth.v auth.go and
    middleware.go with its limiter; RbacWeb.v authmiddleware.go and rbac_handlers.go, so that
    [RbacWeb.serve] is what one HTTP request does to the tables and answers. RbacFacts.v: every
    request makes one of a few changes ([RbacFacts.Change]), each under its conditions; the
    rest is by cases on them. RbacSpec.v: roles are granted from above only. RbacTenants.v:
    organizations neither change nor see each other. RbacSessions.v: who has a session has
    logged in, and the limiter limits. RbacExamples.v evaluates two small organizations.
    These are the routes of rbac_handlers.go: the single sign-on of sso_handlers.go, which
    makes users behind the same middleware, with a default role nobody checks, and the
    handlers of users' services are not among them.

    ** What the theorems found

    Lemmas whose names say what goes wrong record the places where the code does not do
    what it means to; each evaluates the model on a small input. Among them: checkpointed
    entries are replayed after a restart (Wal.v), a group's second receiver is never notified
    (Router.v), WHERE conditions are lost by the push-down (Executor.v), text after a
    query is ignored (Grammar.v), a range query does not see the samples before its start
    (PromExamples.v), a rule that is refused stays in its table (ShapingExamples.v), every
    span whose sampling is deferred is stored at once (SamplingExamples.v), an API key may do
    all that its user may (RbacExamples.v).

    ** Not modelled

    The web server and its pages (internal/web, but for the handlers of data shaping and access control), the
    command (cmd/dogwatch, but for the adapter of data shaping), eBPF probes
    (internal/probe, bpf), the SQL of the stores, exporters and the ingestion of foreign
    formats are input and output around the parts above, and so are the histograms of the
    metrics store. Of sampling, the tables of rules and statistics, editing rules through the
    manager and intelligent.go are left out; of access control, single sign-on, the audit log and CORS. The
    remaining packages (quotas, service levels, synthetic checks and others) are further work;
    the manifest lists each with its reason. *)

From stdpp Require Import base option list gmap strings sorting.
From Stdlib Require Import ZArith Lia.

#[global] Open Scope Z_scope.

(** ** Notation scope and automation *)

Declare Scope go_scope.
Delimit Scope go_scope with go.

Create HintDb dogwatch.

(** ** Outcomes of fallible Go code

    A Go function that returns [(A, error)] and may also panic (slice bounds,
    index out of range) is a function into [result A]. *)
Inductive result (A : Type) : Type :=
| Ok (a : A)
| Err (msg : string)
| Panic (why : string).
Arguments Ok {A} a.
Arguments Err {A} msg.
Arguments Panic {A} why.

Definition res_bind {A B : Type} (r : result A) (k : A → result B) : result B :=
  match r with
  | Ok a => k a
  | Err e => Err e
  | Panic w => Panic w
  end.

Notation "'let!' x ':=' c 'in' k" := (res_bind c (λ x, k))
  (at level 10, x pattern, c at level 100, k at level 200) : go_scope.
#[global] Open Scope go_scope.

Definition is_ok {A : Type} (r : result A) : bool :=
  match r with Ok _ => true | _ => false end.

Definition is_panic {A : Type} (r : result A) : bool :=
  match r with Panic _ => true | _ => false end.

Lemma res_bind_ok {A B : Type} (r : result A) (k : A → result B) (b : B) :
  res_bind r k = Ok b ↔ ∃ a, r = Ok a ∧ k a = Ok b.
Proof. destruct r; simpl; split; [eauto | by intros (? & [= ->] & ?) | done | by intros (? & ? & ?) | done | by intros (? & ? & ?)]. Qed.

(** ** Machine integers *)

Definition int64_min : Z := -9223372036854775808.
Definition int64_max : Z := 9223372036854775807.

(** Go's [int] and [int64] arithmetic wraps around at 64 bits. *)
Definition wrap64 (z : Z) : Z := (z + 2 ^ 63) mod 2 ^ 64 - 2 ^ 63.
Definition uwrap64 (z : Z) : Z := z mod 2 ^ 64.
Definition uwrap32 (z : Z) : Z := z mod 2 ^ 32.
Definition uwrap16 (z : Z) : Z := z mod 2 ^ 16.
Definition uwrap8 (z : Z) : Z := z mod 2 ^ 8.

Definition in_int64 (z : Z) : Prop := int64_min ≤ z ≤ int64_max.

Lemma wrap64_id (z : Z) : in_int64 z → wrap64 z = z.
Proof.
  unfold in_int64, int64_min, int64_max, wrap64. intros H.
  rewrite Z.mod_small; lia.
Qed.

Lemma wrap64_range (z : Z) : in_int64 (wrap64 z).
Proof.
  unfold in_int64, int64_min, int64_max, wrap64.
  pose proof (Z.mod_pos_bound (z + 2 ^ 63) (2 ^ 64) ltac:(lia)). lia.
Qed.

Lemma wrap64_mod (x y : Z) : x mod 2 ^ 64 = y mod 2 ^ 64 → wrap64 x = wrap64 y.
Proof.
  intros H. unfold wrap64.
  rewrite Z.add_mod, H, <- Z.add_mod by lia. done.
Qed.

Lemma wrap64_uwrap64 (z : Z) : wrap64 (uwrap64 z) = wrap64 z.
Proof. apply wrap64_mod. unfold uwrap64. by rewrite Z.mod_mod by lia. Qed.

(** A sum of wrapping additions wraps once. *)
Lemma wrap64_add_l (x y : Z) : wrap64 (wrap64 x + y) = wrap64 (x + y).
Proof.
  apply wrap64_mod. unfold wrap64.
  replace ((x + 2 ^ 63) mod 2 ^ 64 - 2 ^ 63 + y)
    with ((x + 2 ^ 63) mod 2 ^ 64 + (y - 2 ^ 63)) by lia.
  rewrite Z.add_mod_idemp_l by lia. f_equal. lia.
Qed.

(** ** time.Time and time.Duration

    A [time.Time] is its number of nanoseconds since the Unix epoch, a
    [time.Duration] a signed 64-bit number of nanoseconds. *)
Abbreviation Time := Z (only parsing).
Abbreviation Duration := Z (only parsing).

Definition Nanosecond : Duration := 1.
Definition Microsecond : Duration := 1000 * Nanosecond.
Definition Millisecond : Duration := 1000 * Microsecond.
Definition Second : Duration := 1000 * Millisecond.
Definition Minute : Duration := 60 * Second.
Definition Hour : Duration := 60 * Minute.

(** The zero [time.Time], January 1 of year 1 UTC. *)
Definition zero_time : Time := -62135596800 * Second.
Definition IsZero (t : Time) : bool := t =? zero_time.
Definition After (t u : Time) : bool := u <? t.
Definition Before (t u : Time) : bool := t <? u.

(** [t.Sub(u)] saturates at the range of a Duration. *)
Definition time_Sub (t u : Time) : Duration :=
  Z.max int64_min (Z.min int64_max (t - u)).

(** [time.Since] against an explicit clock reading. *)
Definition Since (now t : Time) : Duration := time_Sub now t.

(** [t.Unix()] floors to seconds, [time.Unix(s, 0)] is its right inverse. *)
Definition time_Unix (t : Time) : Z := t / Second.
Definition from_Unix (s : Z) : Time := s * Second.

Lemma time_Sub_small (t u : Time) : in_int64 (t - u) → time_Sub t u = t - u.
Proof. unfold in_int64, time_Sub. lia. Qed.

(** Saturation does not change a comparison with a representable bound. *)
Lemma time_Sub_le (t u : Time) (d : Duration) :
  int64_min < d ≤ int64_max → d ≤ time_Sub t u ↔ d ≤ t - u.
Proof. unfold time_Sub, int64_min, int64_max. lia. Qed.

Lemma time_Sub_lt (t u : Time) (d : Duration) :
  int64_min < d ≤ int64_max → time_Sub t u < d ↔ t - u < d.
Proof. unfold time_Sub, int64_min, int64_max. lia. Qed.

(** ** Lists *)

(** The last [n] elements: what a bounded buffer that drops its oldest entry
    holds. *)
Definition lastn {A : Type} (n : nat) (l : list A) : list A := drop (length l - n) l.

Lemma lastn_length {A : Type} (n : nat) (l : list A) : (length (lastn n l) ≤ n)%nat.
Proof. unfold lastn. rewrite length_drop. lia. Qed.

Lemma lastn_short {A : Type} (n : nat) (l : list A) : (length l ≤ n)%nat → lastn n l = l.
Proof. intros H. unfold lastn. by replace (length l - n)%nat with 0%nat by lia. Qed.

(** Pushing onto a full window, dropping the head, is the window of the push. *)
Lemma lastn_push {A : Type} (n : nat) (l : list A) (x : A) :
  (0 < n)%nat →
  lastn n (l ++ [x]) =
  (if bool_decide (n ≤ length (lastn n l))%nat then drop 1 (lastn n l) else lastn n l) ++ [x].
Proof.
  intros Hn. unfold lastn. rewrite length_app, length_drop. simpl.
  case_bool_decide.
  - rewrite drop_drop, drop_app_le by lia. f_equal. f_equal. lia.
  - replace (length l - n)%nat with 0%nat by lia.
    replace (length l + 1 - n)%nat with 0%nat by lia. done.
Qed.

Lemma list_filter_all {A : Type} (P : A → Prop) `{∀ x, Decision (P x)} (l : list A) :
  (∀ x, x ∈ l → P x) → filter P l = l.
Proof.
  induction l as [|x l IH]; intros HP; [done|].
  rewrite filter_cons_True by (apply HP; set_solver). f_equal. apply IH. set_solver.
Qed.

(** Sums of integers. *)
Definition sum_Z {A : Type} (f : A → Z) (l : list A) : Z := foldr (λ x n, f x + n) 0 l.

Lemma sum_Z_perm {A : Type} (f : A → Z) (l l' : list A) : l ≡ₚ l' → sum_Z f l = sum_Z f l'.
Proof. induction 1; simpl; lia. Qed.
