(* ===== verification/Float64.v ===== *)
(** IEEE 754 binary64 arithmetic as Go's [float64] performs it: round to
    nearest even on 53-bit mantissas, through the specification floats of the
    Standard Library, so that every operation computes. *)

From Stdlib Require Import SpecFloat ZArith Lia.
From stdpp Require Import base decidable tactics numbers.
From S2P Require Import Prelude.

Abbreviation float64 := spec_float (only parsing).

#[global] Instance float64_eq_dec : EqDecision spec_float.
Proof. solve_decision. Defined.

Definition f64_zero : float64 := S754_zero false.
Definition f64_add (x y : float64) : float64 := SFadd 53 1024 x y.
Definition f64_sub (x y : float64) : float64 := SFsub 53 1024 x y.
Definition f64_mul (x y : float64) : float64 := SFmul 53 1024 x y.
Definition f64_div (x y : float64) : float64 := SFdiv 53 1024 x y.
Definition f64_neg (x : float64) : float64 := SFopp x.

(** Ordered comparisons: all false on NaN, as in Go. *)
Definition f64_lt (x y : float64) : bool := SFltb x y.
Definition f64_le (x y : float64) : bool := SFleb x y.
Definition f64_gt (x y : float64) : bool := SFltb y x.
Definition f64_ge (x y : float64) : bool := SFleb y x.
Definition f64_eq (x y : float64) : bool := SFeqb x y.
Definition f64_neq (x y : float64) : bool := negb (SFeqb x y).

(** Conversion [float64(n)] of an integer, and the decimal constants
    [m * 10^-k] of the source, correctly rounded. *)
Definition f64_of_Z (z : Z) : float64 := binary_normalize 53 1024 z 0 false.
Definition f64_of_decimal (m : Z) (k : nat) : float64 :=
  f64_div (binary_normalize 53 1024 m 0 false)
          (binary_normalize 53 1024 (10 ^ Z.of_nat k) 0 false).

Definition is_nan (x : float64) : bool :=
  match x with S754_nan => true | _ => false end.

Example f64_sum : f64_add (f64_of_Z 2) (f64_of_Z 3) = f64_of_Z 5.
Proof. vm_compute. reflexivity. Qed.

Lemma SFcompare_swap (x y : float64) :
  SFcompare y x = option_map CompOpp (SFcompare x y).
Proof.
  destruct x as [sx|sx| |sx mx ex], y as [sy|sy| |sy my ey]; simpl;
    try (destruct sx); try (destruct sy); try reflexivity.
  all: rewrite (Z.compare_antisym ex ey); destruct (ex ?= ey)%Z; simpl; try reflexivity.
  all: rewrite <- (Pos.compare_cont_antisym _ _ Eq); simpl.
  all: by destruct (Pos.compare_cont Eq _ _).
Qed.

(** [x > y] and [x <= y] exclude each other, and cover everything but NaN. *)
Lemma f64_gt_not_le (x y : float64) : f64_gt x y = true → f64_le x y = false.
Proof.
  unfold f64_gt, f64_le, SFltb, SFleb. rewrite (SFcompare_swap x y).
  by destruct (SFcompare x y) as [[]|].
Qed.

#[local] Open Scope Z_scope.

(** ** Exact conversions and quotients *)

Lemma digits2_pos_lower p : 2 ^ (Z.pos (digits2_pos p) - 1) ≤ Z.pos p.
Proof.
  induction p as [p IH|p IH|]; cbn [digits2_pos]; [..|done].
  all: replace (Z.pos (Pos.succ (digits2_pos p)) - 1) with (Z.succ (Z.pos (digits2_pos p) - 1)) by lia;
    rewrite Z.pow_succ_r by lia; lia.
Qed.

Lemma digits2_pos_iter p k : digits2_pos (Pos.iter xO p k) = (digits2_pos p + k)%positive.
Proof.
  revert p. induction k as [|k IH] using Pos.peano_ind; intros p; [cbn; lia|].
  rewrite Pos.iter_succ. cbn [digits2_pos]. rewrite IH. lia.
Qed.

Lemma round_exact m : Z.pos (digits2_pos m) = 53 → ∀ e, -1074 ≤ e ≤ 971 →
  binary_round_aux 53 1024 false (Z.pos m) e loc_Exact = S754_finite false m e.
Proof.
  intros Hd e He. assert (Hs : shr_fexp 53 1024 (Z.pos m) e loc_Exact = (Build_shr_record (Z.pos m) false false, e)).
  { unfold shr_fexp, fexp, emin. cbn [Zdigits2 shr_record_of_loc]. rewrite Hd.
    replace (Z.max (53 + e - 53) (3 - 1024 - 53) - e) with 0 by lia. done. }
  unfold binary_round_aux. rewrite Hs. cbn [shr_m loc_of_shr_record round_nearest_even]. rewrite Hs. cbn [shr_m].
  by replace (e <=? 1024 - 53) with true by lia.
Qed.

(** A positive integer below 2^53 converts to a finite number. *)
Lemma f64_of_Z_finite n : 0 < n < 2 ^ 53 → ∃ m e, f64_of_Z n = S754_finite false m e.
Proof.
  intros Hn. destruct n as [|p|p]; [lia| |lia]. pose proof (digits2_pos_lower p) as Hl.
  assert (Hd : Z.pos (digits2_pos p) ≤ 53).
  { destruct (Z.le_gt_cases (Z.pos (digits2_pos p)) 53) as [|Hgt]; [done|].
    assert (2 ^ 53 ≤ 2 ^ (Z.pos (digits2_pos p) - 1)) by (apply Z.pow_le_mono_r; lia). lia. }
  unfold f64_of_Z, binary_normalize, binary_round, shl_align, fexp, emin.
  replace (Z.max (Z.pos (digits2_pos p) + 0 - 53) (3 - 1024 - 53) - 0) with (Z.pos (digits2_pos p) - 53) by lia.
  replace (Z.max (Z.pos (digits2_pos p) + 0 - 53) (3 - 1024 - 53)) with (Z.pos (digits2_pos p) - 53) by lia.
  destruct (Z.pos (digits2_pos p) - 53) as [|k|k] eqn:E; [|lia|].
  - rewrite round_exact by lia. eauto.
  - rewrite round_exact; [eauto|rewrite digits2_pos_iter; lia|lia].
Qed.

Lemma f64_div_self n : 0 < n < 2 ^ 53 → f64_div (f64_of_Z n) (f64_of_Z n) = f64_of_Z 1.
Proof.
  intros Hn. destruct (f64_of_Z_finite n Hn) as (m & e & ->). unfold f64_div, SFdiv, SFdiv_core_binary, fexp, emin.
  cbn [Zdigits2 xorb]. set (d := Z.pos (digits2_pos m)).
  replace (Z.min (Z.max (d + e - (d + e) - 53) (3 - 1024 - 53)) (e - e)) with (-53) by lia.
  replace (e - e - -53) with 53 by lia. rewrite Z.shiftl_mul_pow2 by lia.
  rewrite (surjective_pairing (Z.div_eucl (Z.pos m * 2 ^ 53) (Z.pos m))).
  change (Z.div_eucl (Z.pos m * 2 ^ 53) (Z.pos m)).1 with (Z.pos m * 2 ^ 53 / Z.pos m).
  change (Z.div_eucl (Z.pos m * 2 ^ 53) (Z.pos m)).2 with ((Z.pos m * 2 ^ 53) mod Z.pos m).
  rewrite (Z.mul_comm (Z.pos m)), Z.div_mul, Z.mod_mul by lia.
  assert (Hloc : new_location (Z.pos m) 0 = loc_Exact) by (unfold new_location, new_location_even, new_location_odd; by case_match).
  rewrite Hloc. vm_compute. reflexivity.
Qed.
