(* ===== verification/FloatFacts.v ===== *)
(** Facts about binary64 arithmetic: small integers convert exactly, their products are
    exact, products and differences are canonical numbers, and how large they can be. *)

From Stdlib Require Import SpecFloat ZArith Lia.
From stdpp Require Import base decidable tactics numbers.
From S2P Require Import Prelude Float64.

#[local] Open Scope Z_scope.

(** ** Binary digits *)

Lemma digits2_pos_upper p : Z.pos p < 2 ^ Z.pos (digits2_pos p).
Proof.
  induction p as [p IH|p IH|]; cbn [digits2_pos]; [..|done].
  all: rewrite Pos2Z.inj_succ, Z.pow_succ_r by lia; lia.
Qed.

Lemma digits_nonneg m : 0 ≤ m → 0 ≤ Zdigits2 m.
Proof. destruct m; cbn; lia. Qed.

Lemma digits_upper m : 0 ≤ m → m < 2 ^ Zdigits2 m.
Proof. destruct m as [|p|p]; cbn [Zdigits2]; [done| |lia]. intros _. apply digits2_pos_upper. Qed.

Lemma digits_lower m : 0 < m → 2 ^ (Zdigits2 m - 1) ≤ m.
Proof. destruct m as [|p|p]; cbn [Zdigits2]; [done| |lia]. intros _. apply digits2_pos_lower. Qed.

Lemma digits_le m k : 0 ≤ m < 2 ^ k → Zdigits2 m ≤ k.
Proof.
  intros [Hm Hk]. destruct (Z.le_gt_cases (Zdigits2 m) k) as [|Hgt]; [done|exfalso].
  destruct (Z.eq_dec m 0) as [->|Hn]; [cbn in Hgt; by rewrite Z.pow_neg_r in Hk by lia|].
  pose proof (digits_lower m ltac:(lia)). assert (2 ^ k ≤ 2 ^ (Zdigits2 m - 1)); [|lia].
  apply Z.pow_le_mono_r; lia.
Qed.

Lemma digits_ge m k : 0 ≤ k → 2 ^ k ≤ m → k < Zdigits2 m.
Proof.
  intros Hk Hm. destruct (Z.le_gt_cases (Zdigits2 m) k) as [Hle|]; [exfalso|done].
  assert (0 < 2 ^ k) by (apply Z.pow_pos_nonneg; lia). pose proof (digits_upper m ltac:(lia)).
  assert (2 ^ Zdigits2 m ≤ 2 ^ k); [|lia]. apply Z.pow_le_mono_r; lia.
Qed.

Lemma digits_unique m d : 0 < d → 2 ^ (d - 1) ≤ m < 2 ^ d → Zdigits2 m = d.
Proof.
  intros Hd [H1 H2]. assert (0 < 2 ^ (d - 1)) by (apply Z.pow_pos_nonneg; lia).
  pose proof (digits_le m d ltac:(lia)). pose proof (digits_ge m (d - 1) ltac:(lia) H1). lia.
Qed.

Lemma digits2_pos_unique p d : 0 < d → 2 ^ (d - 1) ≤ Z.pos p < 2 ^ d → Z.pos (digits2_pos p) = d.
Proof. intros Hd H. exact (digits_unique (Z.pos p) d Hd H). Qed.

Lemma iter_xO p k : Z.pos (Pos.iter xO p k) = Z.pos p * 2 ^ Z.pos k.
Proof.
  induction k as [|k IH] using Pos.peano_ind; [cbn; lia|].
  rewrite Pos.iter_succ, Pos2Z.inj_xO, IH, Pos2Z.inj_succ, Z.pow_succ_r by lia. lia.
Qed.

(** ** Shifting to the right *)

Lemma shr_1_m r : 0 ≤ shr_m r → shr_m (shr_1 r) = shr_m r / 2.
Proof.
  destruct r as [m r s]. cbn [shr_m]. destruct m as [|p|p]; [done| |lia]. intros _.
  destruct p as [p|p|]; cbn [shr_1 shr_m]; [..|done].
  - rewrite Pos2Z.inj_xI. apply Z.div_unique with 1; lia.
  - rewrite Pos2Z.inj_xO. apply Z.div_unique with 0; lia.
Qed.

Lemma iter_shr_m p r : 0 ≤ shr_m r → shr_m (SpecFloat.iter_pos shr_1 p r) = shr_m r / 2 ^ Z.pos p.
Proof.
  revert r. induction p as [p IH|p IH|]; intros r Hr; cbn [SpecFloat.iter_pos].
  - assert (H1 : 0 ≤ shr_m (shr_1 r)) by (rewrite shr_1_m by done; apply Z.div_pos; lia).
    assert (H2 : 0 ≤ shr_m (SpecFloat.iter_pos shr_1 p (shr_1 r))) by (rewrite IH by done; apply Z.div_pos; lia).
    rewrite (IH _ H2), (IH _ H1), shr_1_m by done. rewrite !Zdiv_Zdiv by lia. f_equal.
    rewrite <- Z.pow_add_r by lia. rewrite <- (Z.pow_succ_r 2 (Z.pos p + Z.pos p)) by lia. f_equal. lia.
  - assert (H1 : 0 ≤ shr_m (SpecFloat.iter_pos shr_1 p r)) by (rewrite IH by done; apply Z.div_pos; lia).
    rewrite (IH _ H1), (IH _ Hr), Zdiv_Zdiv, <- Z.pow_add_r by lia. f_equal. f_equal. lia.
  - by rewrite shr_1_m.
Qed.

(** Shifting out zeros loses nothing. *)
Lemma shr_1_exact m : 0 ≤ m → shr_1 (Build_shr_record (2 * m) false false) = Build_shr_record m false false.
Proof. by destruct m. Qed.

Lemma iter_shr_exact (p : positive) : ∀ q, 0 ≤ q →
  SpecFloat.iter_pos shr_1 p (Build_shr_record (q * 2 ^ Z.pos p) false false) = Build_shr_record q false false.
Proof.
  induction p as [p IH|p IH|]; intros q Hq; cbn [SpecFloat.iter_pos].
  - replace (2 ^ Z.pos p~1) with (2 * (2 ^ Z.pos p * 2 ^ Z.pos p)) by
      (rewrite <- Z.pow_add_r, <- Z.pow_succ_r by lia; f_equal; lia).
    rewrite (Z.mul_comm q), <- Z.mul_assoc, shr_1_exact by (assert (0 < 2 ^ Z.pos p) by (apply Z.pow_pos_nonneg; lia); nia).
    rewrite (Z.mul_comm _ q), Z.mul_assoc, IH by (assert (0 < 2 ^ Z.pos p) by (apply Z.pow_pos_nonneg; lia); nia).
    by apply IH.
  - replace (2 ^ Z.pos p~0) with (2 ^ Z.pos p * 2 ^ Z.pos p) by (rewrite <- Z.pow_add_r by lia; f_equal; lia).
    rewrite Z.mul_assoc, IH by (assert (0 < 2 ^ Z.pos p) by (apply Z.pow_pos_nonneg; lia); nia). by apply IH.
  - change (2 ^ 1) with 2. rewrite Z.mul_comm. by apply shr_1_exact.
Qed.

(** ** Rounding *)

Abbreviation fexp64 := (fexp 53 1024).
Abbreviation shr64 := (shr_fexp 53 1024).

Lemma fexp64_eq d : fexp64 d = Z.max (d - 53) (-1074).
Proof. done. Qed.

(** What is shifted out by [shr_fexp], and by how many places. *)
Lemma shr64_m m e l : 0 ≤ m →
  let k := Z.max 0 (fexp64 (Zdigits2 m + e) - e) in
  shr_m (shr64 m e l).1 = m / 2 ^ k ∧ (shr64 m e l).2 = e + k.
Proof.
  intros Hm k. unfold shr_fexp, shr. set (j := fexp64 (Zdigits2 m + e) - e) in *.
  assert (Hr : shr_m (shr_record_of_loc m l) = m) by (by destruct l as [|[]]).
  destruct j as [|p|p]; cbn [fst snd]; subst k.
  - rewrite Hr, Z.div_1_r. split; lia.
  - rewrite iter_shr_m by (by rewrite Hr). rewrite Hr. split; [done|lia].
  - rewrite Hr, Z.div_1_r. split; lia.
Qed.

Lemma round_nearest_even_bounds m l : 0 ≤ m → m ≤ round_nearest_even m l ≤ m + 1.
Proof. intros Hm. destruct l as [|[]]; cbn; try lia. destruct (Z.even m); lia. Qed.

(** A number is canonical when its exponent is the one of its digits. *)
Definition f64_valid (x : float64) : Prop :=
  match x with S754_finite _ m e => fexp64 (Z.pos (digits2_pos m) + e) = e ∧ e ≤ 971 | _ => True end.
#[global] Instance f64_valid_dec x : Decision (f64_valid x).
Proof. unfold f64_valid. destruct x; apply _. Defined.

Lemma digits_div_pow m k : 0 ≤ k → 0 ≤ m → Zdigits2 (m / 2 ^ k) = Z.max 0 (Zdigits2 m - k).
Proof.
  intros Hk Hm. assert (Hp : 0 < 2 ^ k) by (apply Z.pow_pos_nonneg; lia).
  destruct (Z.eq_dec m 0) as [->|Hn]; [rewrite Z.div_0_l by lia; cbn; lia|].
  pose proof (digits_upper m Hm) as Hu. pose proof (digits_lower m ltac:(lia)) as Hl.
  destruct (Z.le_gt_cases (Zdigits2 m) k) as [Hle|Hgt].
  - rewrite Z.div_small; [cbn; lia|]. split; [done|]. assert (2 ^ Zdigits2 m ≤ 2 ^ k); [|lia].
    apply Z.pow_le_mono_r; lia.
  - rewrite Z.max_r by lia. apply digits_unique; [lia|]. split.
    + apply Z.div_le_lower_bound; [done|]. rewrite <- Z.pow_add_r by lia.
      by replace (k + (Zdigits2 m - k - 1)) with (Zdigits2 m - 1) by lia.
    + apply Z.div_lt_upper_bound; [done|]. rewrite <- Z.pow_add_r by lia.
      by replace (k + (Zdigits2 m - k)) with (Zdigits2 m) by lia.
Qed.

(** The digits before and after rounding: the exponent is that of the digits, and the
    number has at most one more place. *)
Lemma round_shape m e l : 0 ≤ m → e ≤ fexp64 (Zdigits2 m + e) →
  let r := shr64 m e l in
  let r' := shr64 (round_nearest_even (shr_m r.1) (loc_of_shr_record r.1)) r.2 loc_Exact in
  0 ≤ shr_m r'.1 ∧
  (0 < shr_m r'.1 → fexp64 (Zdigits2 (shr_m r'.1) + r'.2) = r'.2 ∧
     (Zdigits2 (shr_m r'.1) + r'.2 ≤ Zdigits2 m + e + 1 ∨ Zdigits2 (shr_m r'.1) + r'.2 ≤ -1021)).
Proof.
  intros Hm He r r'. destruct (shr64_m m e l Hm) as [H1 H2]. fold r in H1, H2.
  rewrite Z.max_r in H1, H2 by lia. set (k := fexp64 (Zdigits2 m + e) - e) in *.
  set (m1 := m / 2 ^ k) in *. assert (Hm1 : 0 ≤ m1) by (apply Z.div_pos; [done|apply Z.pow_pos_nonneg; lia]).
  pose proof (digits_div_pow m k ltac:(lia) Hm) as Hd1. fold m1 in Hd1.
  pose proof (round_nearest_even_bounds m1 (loc_of_shr_record r.1) Hm1) as Hr.
  subst r'. rewrite H1. set (m2 := round_nearest_even m1 _) in *. rewrite H2.
  assert (He1 : e + k = Z.max (Zdigits2 m + e - 53) (-1074)) by (unfold k; rewrite fexp64_eq; lia).
  destruct (shr64_m m2 (e + k) loc_Exact ltac:(lia)) as [-> ->].
  pose proof (digits_upper m1 Hm1) as Hu1. assert (Hd53 : Zdigits2 m1 ≤ 53) by lia.
  assert (Hp53 : 2 ^ Zdigits2 m1 ≤ 2 ^ 53) by (apply Z.pow_le_mono_r; lia).
  assert (Hd2 : Zdigits2 m2 ≤ Zdigits2 m1 + 1).
  { apply digits_le. rewrite Z.pow_add_r by (try apply digits_nonneg; lia).
    assert (1 ≤ 2 ^ Zdigits2 m1); [|lia]. change 1 with (2 ^ 0). apply Z.pow_le_mono_r; [lia|]. by apply digits_nonneg. }
  destruct (Z.eq_dec m2 (2 ^ 53)) as [E|E].
  - rewrite E. change (Zdigits2 (2 ^ 53)) with 54. rewrite fexp64_eq.
    assert (Hm53 : m1 = 2 ^ 53 - 1) by lia.
    assert (Hdm : Zdigits2 m1 = 53) by (by rewrite Hm53).
    replace (Z.max 0 (Z.max (54 + (e + k) - 53) (-1074) - (e + k))) with 1 by lia.
    change (2 ^ 53 / 2 ^ 1) with (2 ^ 52). change (Zdigits2 (2 ^ 52)) with 53. split; [lia|]. intros _.
    rewrite fexp64_eq. lia.
  - assert (Hd2' : Zdigits2 m2 ≤ 53) by (apply digits_le; lia). rewrite fexp64_eq.
    assert (Hle : Zdigits2 m1 ≤ Zdigits2 m2).
    { destruct (Z.eq_dec m1 0) as [->|]; [apply digits_nonneg; lia|].
      pose proof (digits_lower m1 ltac:(lia)). assert (0 < Zdigits2 m1) by (pose proof (digits_ge m1 0); lia).
      pose proof (digits_ge m2 (Zdigits2 m1 - 1) ltac:(lia) ltac:(lia)). lia. }
    replace (Z.max 0 (Z.max (Zdigits2 m2 + (e + k) - 53) (-1074) - (e + k))) with 0 by lia.
    rewrite Z.div_1_r, Z.add_0_r. split; [lia|]. intros H0. rewrite fexp64_eq. lia.
Qed.

(** The places of a number before its binary point; zero has as few as wanted. *)
Definition mag_le (x : float64) (b : Z) : Prop :=
  match x with S754_zero _ => True | S754_finite _ m e => Z.pos (digits2_pos m) + e ≤ b | _ => False end.

Lemma round_aux_valid s m e l : 0 ≤ m → e ≤ fexp64 (Zdigits2 m + e) → f64_valid (binary_round_aux 53 1024 s m e l).
Proof.
  intros Hm He. destruct (round_shape m e l Hm He) as [H0 H1]. unfold binary_round_aux.
  destruct (shr64 m e l) as [r e1]. cbn [fst snd] in *. destruct (shr64 _ e1 loc_Exact) as [r' e2]. cbn [fst snd] in *.
  destruct (shr_m r') as [|p|p]; [done| |lia]. destruct (Z.leb_spec e2 (1024 - 53)); [|done].
  destruct (H1 ltac:(lia)) as [H2 _]. split; [exact H2|lia].
Qed.

Lemma round_aux_mag s m e l b : 0 ≤ m → e ≤ fexp64 (Zdigits2 m + e) → Zdigits2 m + e + 1 ≤ b → -1021 ≤ b ≤ 1024 →
  mag_le (binary_round_aux 53 1024 s m e l) b ∧
  (∀ s' m' e', binary_round_aux 53 1024 s m e l = S754_finite s' m' e' → s' = s).
Proof.
  intros Hm He Hb Hb'. destruct (round_shape m e l Hm He) as [H0 H1]. unfold binary_round_aux.
  destruct (shr64 m e l) as [r e1]. cbn [fst snd] in *. destruct (shr64 _ e1 loc_Exact) as [r' e2]. cbn [fst snd] in *.
  destruct (shr_m r') as [|p|p]; [done| |lia]. destruct (H1 ltac:(lia)) as [H2 H3]. cbn [Zdigits2] in *.
  rewrite fexp64_eq in H2. destruct (Z.leb_spec e2 (1024 - 53)); [|lia].
  split; [cbn; lia|]. by intros ??? [= <- _ _].
Qed.

(** Aligning only adds zeros. *)
Lemma shl_align_digits m e e' :
  Z.pos (digits2_pos (shl_align m e e').1) + (shl_align m e e').2 = Z.pos (digits2_pos m) + e ∧
  (shl_align m e e').2 = Z.min e e'.
Proof.
  unfold shl_align. destruct (e' - e) as [|d|d] eqn:E; cbn [fst snd]; [lia..|].
  rewrite digits2_pos_iter. lia.
Qed.

Lemma binary_round_valid s m e : f64_valid (binary_round 53 1024 s m e).
Proof.
  unfold binary_round. destruct (shl_align_digits m e (fexp64 (Z.pos (digits2_pos m) + e))) as [H1 H2].
  destruct (shl_align _ _ _) as [m' e']. cbn [fst snd] in *. apply round_aux_valid; [lia|]. cbn [Zdigits2]. rewrite H1. lia.
Qed.

Lemma binary_normalize_valid m e s : f64_valid (binary_normalize 53 1024 m e s).
Proof. destruct m; cbn; [done|apply binary_round_valid..]. Qed.

Lemma binary_normalize_mag m e s b : 0 ≤ m → Zdigits2 m + e + 1 ≤ b → -1021 ≤ b ≤ 1024 →
  mag_le (binary_normalize 53 1024 m e s) b ∧
  (∀ s' m' e', binary_normalize 53 1024 m e s = S754_finite s' m' e' → s' = false).
Proof.
  intros Hm Hb Hb'. destruct m as [|p|p]; [done| |lia]. cbn [binary_normalize]. unfold binary_round.
  destruct (shl_align_digits p e (fexp64 (Z.pos (digits2_pos p) + e))) as [H1 H2].
  destruct (shl_align _ _ _) as [m' e']. cbn [fst snd Zdigits2] in *.
  apply round_aux_mag; cbn [Zdigits2]; rewrite ?H1; lia.
Qed.

(** ** Results are canonical *)

Lemma f64_valid_of_Z n : f64_valid (f64_of_Z n).
Proof. apply binary_normalize_valid. Qed.

Lemma f64_valid_sub x y : f64_valid x → f64_valid y → f64_valid (f64_sub x y).
Proof.
  intros Hx Hy. unfold f64_sub. destruct x as [[]|[]| |], y as [[]|[]| |]; try done.
  apply binary_normalize_valid.
Qed.

Lemma digits_mul a b : 0 < a → 0 < b →
  Zdigits2 a + Zdigits2 b - 1 ≤ Zdigits2 (a * b) ≤ Zdigits2 a + Zdigits2 b.
Proof.
  intros Ha Hb. pose proof (digits_lower a Ha). pose proof (digits_lower b Hb).
  pose proof (digits_upper a ltac:(lia)). pose proof (digits_upper b ltac:(lia)).
  assert (0 < Zdigits2 a) by (pose proof (digits_ge a 0); lia).
  assert (0 < Zdigits2 b) by (pose proof (digits_ge b 0); lia).
  assert (0 < 2 ^ (Zdigits2 a - 1)) by (apply Z.pow_pos_nonneg; lia).
  assert (0 < 2 ^ (Zdigits2 b - 1)) by (apply Z.pow_pos_nonneg; lia).
  split.
  - assert (Zdigits2 a - 1 + (Zdigits2 b - 1) < Zdigits2 (a * b)); [|lia].
    apply digits_ge; [lia|]. rewrite Z.pow_add_r by lia. nia.
  - apply digits_le. rewrite Z.pow_add_r by lia. nia.
Qed.

(** The product of canonical numbers has digits to shift out. *)
Lemma mul_exponent m1 e1 m2 e2 :
  f64_valid (S754_finite false m1 e1) → f64_valid (S754_finite false m2 e2) →
  e1 + e2 ≤ fexp64 (Zdigits2 (Z.pos (m1 * m2)) + (e1 + e2)).
Proof.
  intros [H1 B1] [H2 B2]. pose proof (digits_mul (Z.pos m1) (Z.pos m2) ltac:(lia) ltac:(lia)) as Hd.
  rewrite <- Pos2Z.inj_mul in Hd. cbn [Zdigits2] in *. rewrite !fexp64_eq in *. lia.
Qed.

Lemma f64_valid_mul x y : f64_valid x → f64_valid y → f64_valid (f64_mul x y).
Proof.
  intros Hx Hy. unfold f64_mul. destruct x as [[]|[]| |], y as [[]|[]| |]; try done.
  apply round_aux_valid; [lia|]. by apply mul_exponent.
Qed.

(** ** Small integers *)

(** A positive integer below 2^53 is a finite number, with all its digits. *)
Lemma f64_of_Z_shape n : 0 < n < 2 ^ 53 → ∃ m k, 0 ≤ k ≤ 52 ∧ Z.pos m = n * 2 ^ k ∧
  Z.pos (digits2_pos m) = 53 ∧ f64_of_Z n = S754_finite false m (- k).
Proof.
  intros Hn. destruct n as [|p|p]; [lia| |lia].
  assert (Hd : Z.pos (digits2_pos p) ≤ 53) by (apply (digits_le (Z.pos p)); lia).
  unfold f64_of_Z, binary_normalize, binary_round, shl_align. rewrite !fexp64_eq.
  replace (Z.max (Z.pos (digits2_pos p) + 0 - 53) (-1074) - 0) with (Z.pos (digits2_pos p) - 53) by lia.
  replace (Z.max (Z.pos (digits2_pos p) + 0 - 53) (-1074)) with (Z.pos (digits2_pos p) - 53) by lia.
  destruct (Z.pos (digits2_pos p) - 53) as [|k|k] eqn:E; [|lia|].
  - exists p, 0. rewrite round_exact by lia. split_and!; [lia..|done].
  - exists (Pos.iter xO p k), (Z.pos k). rewrite round_exact; [|rewrite digits2_pos_iter; lia|lia].
    split_and!; [lia|lia|apply iter_xO|rewrite digits2_pos_iter; lia|done].
Qed.

(** A product below 2^53 is exact. *)
Lemma f64_mul_exact a b : 0 < a → 0 < b → a * b < 2 ^ 53 →
  f64_mul (f64_of_Z a) (f64_of_Z b) = f64_of_Z (a * b).
Proof.
  intros Ha Hb Hab.
  destruct (f64_of_Z_shape a ltac:(nia)) as (m1 & k1 & Hk1 & Em1 & Hd1 & ->).
  destruct (f64_of_Z_shape b ltac:(nia)) as (m2 & k2 & Hk2 & Em2 & _ & ->).
  destruct (f64_of_Z_shape (a * b) ltac:(nia)) as (m3 & k3 & Hk3 & Em3 & Hd3 & ->).
  unfold f64_mul, SFmul. cbn [xorb].
  pose proof (digits2_pos_lower m3) as Hl3. pose proof (digits2_pos_upper m3) as Hu3.
  pose proof (digits2_pos_lower m1) as Hl1. rewrite Hd3 in Hl3, Hu3. rewrite Hd1 in Hl1.
  assert (Hk : k3 ≤ k1 + k2).
  { destruct (Z.le_gt_cases k3 k1) as [|Hgt]; [lia|].
    assert (2 ^ (k1 + 1) ≤ 2 ^ k3) by (apply Z.pow_le_mono_r; lia).
    rewrite Z.pow_add_r in * by lia. nia. }
  assert (Em : Z.pos (m1 * m2) = Z.pos m3 * 2 ^ (k1 + k2 - k3)).
  { rewrite Pos2Z.inj_mul, Em1, Em2, Em3, <- (Z.mul_assoc (a * b)), <- Z.pow_add_r by lia.
    replace (k3 + (k1 + k2 - k3)) with (k1 + k2) by lia. rewrite Z.pow_add_r by lia. ring. }
  assert (Hd : Z.pos (digits2_pos (m1 * m2)) = 53 + (k1 + k2 - k3)).
  { apply digits2_pos_unique; [lia|]. rewrite Em.
    replace (53 + (k1 + k2 - k3) - 1) with (52 + (k1 + k2 - k3)) by lia. rewrite !Z.pow_add_r by lia.
    assert (0 < 2 ^ (k1 + k2 - k3)) by (apply Z.pow_pos_nonneg; lia).
    change (2 ^ (53 - 1)) with (2 ^ 52) in Hl3. nia. }
  assert (Hs : shr64 (Z.pos (m1 * m2)) (- k1 + - k2) loc_Exact =
    (Build_shr_record (Z.pos m3) false false, - k3)).
  { unfold shr_fexp. rewrite fexp64_eq. cbn [Zdigits2 shr_record_of_loc]. rewrite Hd.
    replace (Z.max (53 + (k1 + k2 - k3) + (- k1 + - k2) - 53) (-1074) - (- k1 + - k2)) with (k1 + k2 - k3) by lia.
    unfold shr. destruct (k1 + k2 - k3) as [|q|q] eqn:E; [|rewrite Em, iter_shr_exact by lia; f_equal; lia|lia].
    rewrite Em, Z.mul_1_r. f_equal. lia. }
  assert (Hs3 : shr64 (Z.pos m3) (- k3) loc_Exact = (Build_shr_record (Z.pos m3) false false, - k3)).
  { unfold shr_fexp. rewrite fexp64_eq. cbn [Zdigits2 shr_record_of_loc]. rewrite Hd3.
    by replace (Z.max (53 + - k3 - 53) (-1074) - - k3) with 0 by lia. }
  unfold binary_round_aux. rewrite Hs. cbn [shr_m loc_of_shr_record round_nearest_even]. rewrite Hs3. cbn [shr_m].
  by replace (- k3 <=? 1024 - 53) with true by lia.
Qed.

(** ** The rank of a quantile *)

(** A canonical number below one has no digit before the point. *)
Lemma below_one m e : f64_valid (S754_finite false m e) →
  f64_lt (S754_finite false m e) (f64_of_Z 1) = true → Z.pos (digits2_pos m) + e ≤ 0.
Proof.
  intros [Hc He]. rewrite fexp64_eq in Hc. change (f64_of_Z 1) with (S754_finite false (2 ^ 52)%positive (-52)).
  remember (2 ^ 52)%positive as b eqn:Hb. unfold f64_lt, SFltb, SFcompare. destruct (Z.compare_spec e (-52)) as [->|?|?]; [|lia|done].
  intros H. destruct (Pos.compare_cont Eq m b) eqn:E; try done.
  change (Z.pos m < Z.pos b) in E.
  assert (Hm : Z.pos m < 2 ^ 52) by (change (2 ^ 52) with (Z.pos (2 ^ 52)); rewrite <- Hb; exact E).
  pose proof (digits_le (Z.pos m) 52 ltac:(lia)). cbn [Zdigits2] in *. lia.
Qed.

Lemma sub_one_mag n : 0 < n < 2 ^ 53 →
  let x := f64_sub (f64_of_Z n) (f64_of_Z 1) in
  f64_valid x ∧ mag_le x 54 ∧ (∀ s m e, x = S754_finite s m e → s = false).
Proof.
  intros Hn x. split; [apply f64_valid_sub; apply f64_valid_of_Z|]. subst x.
  destruct (f64_of_Z_shape n Hn) as (m & k & Hk & Em & Hd & ->).
  change (f64_of_Z 1) with (S754_finite false (2 ^ 52)%positive (-52)). unfold f64_sub, SFsub. cbn [cond_Zopp].
  rewrite Z.min_r by lia.
  assert (Hx : Z.pos (shl_align m (- k) (-52)).1 = n * 2 ^ 52).
  { unfold shl_align. destruct (-52 - - k) as [|p|p] eqn:E; cbn [fst]; [|lia|].
    - rewrite Em. by replace k with 52 by lia.
    - rewrite iter_xO, Em, <- Z.mul_assoc, <- Z.pow_add_r by lia. by replace (k + Z.pos p) with 52 by lia. }
  rewrite Hx. change (Z.pos (shl_align (2 ^ 52) (-52) (-52)).1) with (2 ^ 52).
  apply binary_normalize_mag; [lia| |lia].
  assert (Zdigits2 (n * 2 ^ 52 - 2 ^ 52) ≤ 105); [|lia]. apply digits_le. change (2 ^ 105) with (2 ^ 53 * 2 ^ 52). lia.
Qed.

(** A float without sign is a magnitude. *)
Definition f64_unsigned (x : float64) : Prop := ∀ s m e, x = S754_finite s m e → s = false.

Lemma rank_bounds q n : f64_valid q → f64_lt f64_zero q = true → f64_lt q (f64_of_Z 1) = true → 0 < n < 2 ^ 53 →
  let rank := f64_mul q (f64_sub (f64_of_Z n) (f64_of_Z 1)) in f64_valid rank ∧ mag_le rank 55 ∧ f64_unsigned rank.
Proof.
  intros Hq H0 H1 Hn rank. destruct (sub_one_mag n Hn) as (Hv & Hm & Hs).
  split; [by apply f64_valid_mul|]. subst rank. destruct q as [sq|sq| |sq mq eq]; [done|by destruct sq|done|].
  destruct sq; [done|]. pose proof (below_one mq eq Hq H1) as Hd.
  destruct (f64_sub (f64_of_Z n) (f64_of_Z 1)) as [sx|sx| |sx mx ex]; [done|done|done|].
  pose proof (Hs _ _ _ eq_refl) as ->. cbn [mag_le] in Hm.
  pose proof (digits_mul (Z.pos mq) (Z.pos mx) ltac:(lia) ltac:(lia)) as Hdm. rewrite <- Pos2Z.inj_mul in Hdm.
  apply round_aux_mag; [lia|by apply mul_exponent| |lia]. cbn [Zdigits2] in *. lia.
Qed.

#[export] Hint Resolve f64_valid_of_Z f64_valid_sub f64_valid_mul : dogwatch.
