(* ===== verification/FloatOrder.v ===== *)
(** The order of floats: comparisons that are not on NaN compare triples of integers, hence they
    are total, transitive and agree with each other; which operations have a number as result. *)

From Stdlib Require Import SpecFloat ZArith Lia.
From stdpp Require Import base decidable tactics numbers.
From S2P Require Import Prelude Float64 FloatFacts.
#[local] Open Scope Z_scope.

(** A float that is not NaN, as a triple that is ordered by its first component, then its
    second, then its third. *)
Definition f64_key (x : float64) : Z * Z * Z :=
  match x with
  | S754_zero _ | S754_nan => (0, 0, 0)
  | S754_infinity s => (if s then -2 else 2, 0, 0)
  | S754_finite s m e => if s then (-1, - e, - Z.pos m) else (1, e, Z.pos m)
  end.
Definition key_lt (a b : Z * Z * Z) : Prop :=
  a.1.1 < b.1.1 ∨ a.1.1 = b.1.1 ∧ (a.1.2 < b.1.2 ∨ a.1.2 = b.1.2 ∧ a.2 < b.2).

Lemma f64_compare_key x y : is_nan x = false → is_nan y = false →
  match SFcompare x y with
  | Some Lt => key_lt (f64_key x) (f64_key y)
  | Some Eq => f64_key x = f64_key y
  | Some Gt => key_lt (f64_key y) (f64_key x)
  | None => False
  end.
Proof.
  intros Hx Hy. destruct x as [sx|sx| |sx mx ex], y as [sy|sy| |sy my ey]; try done; unfold key_lt; cbn.
  all: try destruct sx; try destruct sy; cbn; try lia; try done.
  all: destruct (Z.compare_spec ex ey); cbn; try lia.
  all: change (Pos.compare_cont Eq mx my) with (Pos.compare mx my); destruct (Pos.compare_spec mx my); cbn; try lia.
  all: by subst.
Qed.
Lemma f64_nan_compare x y : SFcompare x y = None ↔ is_nan x = true ∨ is_nan y = true.
Proof. destruct x as [|[]| |[]], y as [|[]| |[]]; cbn; naive_solver. Qed.

(** Comparisons that hold are not on NaN. *)
Lemma f64_lt_key x y : f64_lt x y = true ↔
  is_nan x = false ∧ is_nan y = false ∧ key_lt (f64_key x) (f64_key y).
Proof.
  unfold f64_lt, SFltb. pose proof (f64_compare_key x y) as H. pose proof (f64_nan_compare x y) as Hn.
  destruct (is_nan x), (is_nan y); try (rewrite (proj2 Hn) by auto; naive_solver).
  specialize (H eq_refl eq_refl). unfold key_lt in *. destruct (SFcompare x y) as [[]|]; [rewrite H|..|done].
  all: split; [|by intros (_ & _ & ?); lia]; try done.
Qed.
Lemma f64_le_key x y : f64_le x y = true ↔
  is_nan x = false ∧ is_nan y = false ∧ ¬ key_lt (f64_key y) (f64_key x).
Proof.
  unfold f64_le, SFleb. pose proof (f64_compare_key x y) as H. pose proof (f64_nan_compare x y) as Hn.
  destruct (is_nan x), (is_nan y); try (rewrite (proj2 Hn) by auto; naive_solver).
  specialize (H eq_refl eq_refl). unfold key_lt in *. destruct (SFcompare x y) as [[]|]; [rewrite H|..|done].
  all: split; [intros|intros (_ & _ & ?)]; try done; try split_and!; try done; lia.
Qed.

Lemma f64_ge_le x y : f64_ge x y = f64_le y x.
Proof. done. Qed.
Lemma f64_gt_lt x y : f64_gt x y = f64_lt y x.
Proof. done. Qed.

Lemma f64_lt_false x y : f64_lt x y = false ↔ ¬ f64_lt x y = true.
Proof. by rewrite not_true_iff_false. Qed.
Lemma f64_le_false x y : f64_le x y = false ↔ ¬ f64_le x y = true.
Proof. by rewrite not_true_iff_false. Qed.

(** The arithmetic of comparisons, by [lia] on the keys. *)
Ltac float_order :=
  rewrite ?f64_ge_le, ?f64_gt_lt in *; rewrite ?f64_lt_false, ?f64_le_false in *;
  rewrite ?f64_le_key, ?f64_lt_key in *; unfold key_lt in *; intuition lia.

Lemma f64_le_trans x y z : f64_le x y = true → f64_le y z = true → f64_le x z = true.
Proof. float_order. Qed.
Lemma f64_lt_le_trans x y z : f64_lt x y = true → f64_le y z = true → f64_lt x z = true.
Proof. float_order. Qed.
Lemma f64_le_lt_trans x y z : f64_le x y = true → f64_lt y z = true → f64_lt x z = true.
Proof. float_order. Qed.
Lemma f64_lt_le x y : f64_lt x y = true → f64_le x y = true.
Proof. float_order. Qed.
Lemma f64_not_lt x y : is_nan x = false → is_nan y = false → f64_lt x y = false → f64_le y x = true.
Proof. float_order. Qed.
Lemma f64_le_refl x : is_nan x = false → f64_le x x = true.
Proof. float_order. Qed.
Lemma f64_le_number x y : f64_le x y = true → is_nan x = false ∧ is_nan y = false.
Proof. float_order. Qed.

(** ** Numbers *)

(** Finite: neither NaN nor infinite. *)
Definition is_finite (x : float64) : bool := match x with S754_zero _ | S754_finite _ _ _ => true | _ => false end.

Lemma round_aux_number s m e l : 0 ≤ m → is_nan (binary_round_aux 53 1024 s m e l) = false.
Proof.
  intros Hm. unfold binary_round_aux.
  assert (Hs : ∀ m e l, 0 ≤ m → 0 ≤ shr_m (shr64 m e l).1).
  { intros m' e' l' H. destruct (shr64_m m' e' l' H) as [-> _]. apply Z.div_pos; [done|]. apply Z.pow_pos_nonneg; lia. }
  pose proof (Hs m e l Hm) as H1. destruct (shr64 m e l) as [r e1]. cbn [fst] in *.
  pose proof (round_nearest_even_bounds (shr_m r) (loc_of_shr_record r) H1) as H2.
  pose proof (Hs (round_nearest_even (shr_m r) (loc_of_shr_record r)) e1 loc_Exact ltac:(lia)) as H3.
  destruct (shr64 _ e1 loc_Exact) as [r' e2]. cbn [fst] in *.
  destruct (shr_m r'); [done| |lia]. by destruct (_ <=? _).
Qed.
Lemma normalize_number m e s : is_nan (binary_normalize 53 1024 m e s) = false.
Proof.
  destruct m as [|p|p]; [done|..]; cbn [binary_normalize]; unfold binary_round; destruct (shl_align _ _ _); by apply round_aux_number.
Qed.
Lemma f64_of_Z_number n : is_nan (f64_of_Z n) = false.
Proof. apply normalize_number. Qed.

Lemma f64_add_number x y : is_finite x = true → is_nan y = false → is_nan (f64_add x y) = false.
Proof. destruct x as [[]|[]| |[]], y as [[]|[]| |[]]; try done; intros _ _; apply normalize_number. Qed.
Lemma f64_sub_number x y : is_finite x = true → is_finite y = true → is_nan (f64_sub x y) = false.
Proof. destruct x as [[]|[]| |[]], y as [[]|[]| |[]]; try done; intros _ _; apply normalize_number. Qed.

(** Not zero, nor NaN. *)
Definition is_signed (x : float64) : bool := match x with S754_infinity _ | S754_finite _ _ _ => true | _ => false end.
Lemma f64_mul_number x y : is_nan x = false → is_finite y = true → is_signed y = true → is_nan (f64_mul x y) = false.
Proof. destruct x, y; try done; intros _ _ _; by apply round_aux_number. Qed.
Lemma f64_div_number x y : is_finite x = true → is_signed y = true → is_nan (f64_div x y) = false.
Proof.
  destruct x as [| | |s m e], y as [| | |s' m' e']; try done; intros _ _. unfold f64_div, SFdiv, SFdiv_core_binary.
  set (e2 := Z.min _ _). set (k := e - e' - e2).
  assert (Hm : 0 ≤ match k with Zpos _ => Z.shiftl (Z.pos m) k | Z0 => Z.pos m | Zneg _ => 0 end).
  { destruct k; [done| |done]. by apply Z.shiftl_nonneg. }
  rewrite (surjective_pairing (Z.div_eucl _ _)). apply round_aux_number.
  apply (Z.div_pos _ (Z.pos m') Hm). lia.
Qed.

Lemma f64_lt_signed x : f64_lt f64_zero x = true → is_signed x = true.
Proof. by destruct x. Qed.
Lemma f64_between_finite lo hi x : is_finite lo = true → is_finite hi = true →
  f64_le lo x = true → f64_le x hi = true → is_finite x = true.
Proof. by destruct x as [|[]| |], lo as [|[]| |[]], hi as [|[]| |[]]. Qed.
