(* ===== verification/Lww.v ===== *)
(** Last-writer-wins maps: the merge discipline the federation layer uses for
    node states, incidents and on-call changes, with the algebra that makes
    replicas converge. *)

From stdpp Require Import base option list gmap.
From S2P Require Import Prelude.

(** What a merged value must offer: the timestamp it is ordered by. *)
Class Stamped (A : Type) := stamp : A → Time.

Section lww.
Context {A : Type} `{!Stamped A}.
Lemma elem_of_option_list (o : option A) x : x ∈ option_list o ↔ o = Some x.
Proof. destruct o; simpl; set_solver. Qed.

Implicit Types (o : option A) (x y v : A) (l : list A).

(** [existing == nil || new.Timestamp.After(existing.Timestamp)] *)
Definition newer (existing : option A) (new : A) : bool :=
  match existing with
  | None => true
  | Some old => After (stamp new) (stamp old)
  end.

Definition lww_join (o1 o2 : option A) : option A :=
  match o2 with
  | None => o1
  | Some new => if newer o1 new then Some new else o1
  end.

Definition lww_put {K : Type} `{Countable K} (k : K) (v : A) (m : gmap K A) : gmap K A :=
  if newer (m !! k) v then <[k:=v]> m else m.

Definition lww_puts {K : Type} `{Countable K} (kvs : list (K * A)) (m : gmap K A) : gmap K A :=
  foldl (λ m kv, lww_put kv.1 kv.2 m) m kvs.

(** The values written under one key, in order. *)
Definition writes {K : Type} `{EqDecision K} (k : K) (kvs : list (K * A)) : list A :=
  (filter (λ kv, kv.1 = k) kvs).*2.

Definition join_all (o : option A) (l : list A) : option A :=
  foldl (λ o v, lww_join o (Some v)) o l.

(** Distinct writes carry distinct timestamps. *)
Definition tie_free (l : list A) : Prop :=
  ∀ x y, x ∈ l → y ∈ l → stamp x = stamp y → x = y.

Definition is_latest (v : A) (l : list A) : Prop :=
  v ∈ l ∧ ∀ x, x ∈ l → stamp x ≤ stamp v.

Lemma lww_join_idemp o : lww_join o o = o.
Proof. destruct o as [x|]; simpl; [|done]. unfold After. by case_match. Qed.

Lemma lww_join_assoc o1 o2 o3 :
  lww_join o1 (lww_join o2 o3) = lww_join (lww_join o1 o2) o3.
Proof.
  destruct o1 as [x|], o2 as [y|], o3 as [z|]; simpl; try done;
    unfold After;
    repeat (case_match; simpl; unfold newer, After in *; simpl in *; simplify_eq; try done); lia.
Qed.

Lemma lww_join_comm o1 o2 :
  tie_free (option_list o1 ++ option_list o2) → lww_join o1 o2 = lww_join o2 o1.
Proof.
  intros T. destruct o1 as [x|], o2 as [y|]; simpl; try done.
  unfold After. repeat case_match; try done; try lia.
  f_equal. apply T; [set_solver..|lia].
Qed.

Lemma tie_free_pair o1 o2 :
  (∀ x y, o1 = Some x → o2 = Some y → stamp x = stamp y → x = y) →
  tie_free (option_list o1 ++ option_list o2).
Proof.
  intros T u v. rewrite !elem_of_app, !elem_of_option_list.
  intros [Hu|Hu] [Hv|Hv] E; simplify_eq; eauto. symmetry. eauto.
Qed.

Lemma lww_join_stamp o v w :
  lww_join o (Some v) = Some w →
  stamp v ≤ stamp w ∧ (∀ u, o = Some u → stamp u ≤ stamp w).
Proof.
  destruct o as [u|]; simpl; unfold After; [case_match|]; intros; simplify_eq;
    split; intros; simplify_eq; lia.
Qed.

Lemma lww_put_lookup {K : Type} `{Countable K} (k i : K) v (m : gmap K A) :
  lww_put k v m !! i = if decide (k = i) then lww_join (m !! i) (Some v) else m !! i.
Proof.
  unfold lww_put. destruct (decide (k = i)) as [->|Hne].
  - simpl. by case_match; simplify_map_eq.
  - by case_match; simplify_map_eq.
Qed.

Lemma join_all_latest o l v :
  join_all o l = Some v → is_latest v (option_list o ++ l).
Proof.
  revert o. induction l as [|x l IH]; intros o; simpl.
  - intros ->. simpl. split; [set_solver|].
    intros x. rewrite list_elem_of_singleton. by intros ->.
  - intros [Hin Hmax]%IH. destruct o as [u|]; simpl in *.
    + unfold After in *. destruct (Z.ltb_spec (stamp u) (stamp x)).
      * split; [set_solver|]. intros y Hy.
        assert (stamp x ≤ stamp v) by (apply Hmax; set_solver).
        apply elem_of_cons in Hy as [->|Hy]; [lia|]. apply Hmax. set_solver.
      * split; [set_solver|]. intros y Hy.
        assert (stamp u ≤ stamp v) by (apply Hmax; set_solver).
        apply elem_of_cons in Hy as [->|Hy]; [lia|].
        apply elem_of_cons in Hy as [->|Hy]; [lia|]. apply Hmax. set_solver.
    + done.
Qed.

Lemma join_all_None o l : join_all o l = None → o = None ∧ l = [].
Proof.
  revert o. induction l as [|x l IH]; intros o; simpl; [done|].
  intros [Hj _]%IH. destruct o; simpl in Hj; [by case_match|done].
Qed.

Lemma is_latest_unique l v w :
  tie_free l → is_latest v l → is_latest w l → v = w.
Proof.
  intros T [Hv Hvm] [Hw Hwm]. apply T; [done..|].
  apply Z.le_antisymm; auto.
Qed.

(** The winner depends only on which writes arrived: neither on their order
    nor on how often each of them was delivered. *)
Lemma join_all_set o l l' :
  (∀ x, x ∈ l ↔ x ∈ l') → tie_free (option_list o ++ l) → join_all o l = join_all o l'.
Proof.
  intros HP T. destruct (join_all o l) as [v|] eqn:E1, (join_all o l') as [w|] eqn:E2.
  - f_equal. apply join_all_latest in E1, E2.
    eapply is_latest_unique; [exact T|done|].
    destruct E2 as [? Hm]. split; [set_solver|]. intros x Hx. apply Hm. set_solver.
  - apply join_all_None in E2 as [-> ->].
    destruct l as [|x l]; [done|]. exfalso. set_solver.
  - apply join_all_None in E1 as [-> ->].
    destruct l' as [|x l']; [done|]. exfalso. set_solver.
  - done.
Qed.

Lemma lww_puts_lookup {K : Type} `{Countable K} (kvs : list (K * A)) (m : gmap K A) i :
  lww_puts kvs m !! i = join_all (m !! i) (writes i kvs).
Proof.
  revert m. induction kvs as [|[k v] kvs IH]; intros m; [done|].
  change (lww_puts kvs (lww_put k v m) !! i = join_all (m !! i) (writes i ((k, v) :: kvs))).
  rewrite IH, lww_put_lookup. unfold writes. rewrite filter_cons. simpl.
  by case_decide.
Qed.

Lemma writes_NoDup {K : Type} `{Countable K} (kvs : list (K * A)) i :
  NoDup kvs.*1 →
  writes i kvs = option_list ((list_to_map kvs : gmap K A) !! i).
Proof.
  unfold writes. induction kvs as [|[k v] kvs IH]; simpl; [done|].
  inversion_clear 1 as [|?? Hnin Hnd]. rewrite filter_cons. simpl. case_decide as E.
  - subst. simplify_map_eq. rewrite IH by done.
    assert (list_to_map kvs !! i = @None A) as -> by by apply not_elem_of_list_to_map_1.
    done.
  - simplify_map_eq. by apply IH.
Qed.

(** Merging a whole map entry by entry, in any order, is the pointwise join. *)
Lemma lww_puts_map {K : Type} `{Countable K} (kvs : list (K * A)) (m m' : gmap K A) i :
  kvs ≡ₚ map_to_list m' →
  lww_puts kvs m !! i = lww_join (m !! i) (m' !! i).
Proof.
  intros HP. rewrite lww_puts_lookup, writes_NoDup.
  - assert (list_to_map kvs = m') as ->.
    { rewrite <- (list_to_map_to_list m'). apply list_to_map_proper; [|done].
      rewrite HP. apply NoDup_fst_map_to_list. }
    by destruct (m' !! i).
  - rewrite HP. apply NoDup_fst_map_to_list.
Qed.

Lemma writes_perm {K : Type} `{EqDecision K} (k : K) (kvs kvs' : list (K * A)) :
  kvs ≡ₚ kvs' → writes k kvs ≡ₚ writes k kvs'.
Proof. intros HP. unfold writes. by rewrite HP. Qed.

Lemma elem_of_writes {K : Type} `{EqDecision K} (k : K) (kvs : list (K * A)) v :
  v ∈ writes k kvs ↔ (k, v) ∈ kvs.
Proof.
  unfold writes. rewrite list_elem_of_fmap. split.
  - intros [[k' v'] [-> [Hk Hin]%list_elem_of_filter]]. simpl in *. by subst.
  - intros Hin. exists (k, v). split; [done|]. by apply list_elem_of_filter.
Qed.
End lww.

#[export] Hint Resolve lww_join_idemp lww_join_assoc : dogwatch.
