(* ===== verification/Bytes.v ===== *)
(** Byte-level code: little-endian fields (Go's [encoding/binary]), the IEEE
    CRC-32 of [hash/crc32], and the file-name handling ([%0wd] formatting,
    [strconv.ParseInt], [strings.TrimPrefix]/[TrimSuffix]) the write-ahead log
    relies on. *)

From Stdlib Require Import String Ascii.
From coqutil Require Import Byte Word.LittleEndianList.
From stdpp Require Import base option list strings sorting.
From S2P Require Import Prelude.

Abbreviation bytes := (list Byte.byte) (only parsing).

(** ** Little-endian fields *)

Definition put_le (n : nat) (z : Z) : bytes := le_split n z.
Definition get_le (bs : bytes) : Z := le_combine bs.

Lemma length_put_le n z : length (put_le n z) = n.
Proof. apply length_le_split. Qed.

Lemma get_put_le n z : 0 ≤ z < 2 ^ (8 * Z.of_nat n) → get_le (put_le n z) = z.
Proof.
  intros H. unfold get_le, put_le. rewrite le_combine_split, Z.mul_comm.
  by apply Z.mod_small.
Qed.

(** ** CRC-32 (IEEE, reflected) *)

Definition crc_poly : Z := 0xEDB88320.

Definition crc_bit (c : Z) : Z :=
  if Z.odd c then Z.lxor (Z.shiftr c 1) crc_poly else Z.shiftr c 1.

Definition crc_byte (c : Z) (b : Byte.byte) : Z :=
  Nat.iter 8 crc_bit (Z.lxor c (byte.unsigned b)).

(** [crc32.Update(crc, IEEETable, p)] *)
Definition crc_update (c : Z) (p : bytes) : Z :=
  Z.lxor (foldl crc_byte (Z.lxor c 0xFFFFFFFF) p) 0xFFFFFFFF.

Definition ChecksumIEEE (p : bytes) : Z := crc_update 0 p.

Example crc_check_value :
  ChecksumIEEE (list_byte_of_string "123456789") = 0xCBF43926.
Proof. vm_compute. reflexivity. Qed.

(** Feeding a digest in pieces is feeding it the concatenation. *)
Lemma crc_update_app c p q : crc_update (crc_update c p) q = crc_update c (p ++ q).
Proof.
  unfold crc_update. rewrite foldl_app. f_equal. f_equal.
  rewrite Z.lxor_assoc, Z.lxor_nilpotent. apply Z.lxor_0_r.
Qed.

Definition is_u32 (z : Z) : Prop := 0 ≤ z < 2 ^ 32.

Lemma is_u32_bits z : 0 ≤ z → is_u32 z ↔ ∀ i, 32 ≤ i → Z.testbit z i = false.
Proof.
  intros H0. unfold is_u32. split.
  - intros [_ Hlt] i Hi.
    destruct (Z.eq_dec z 0) as [->|]; [apply Z.testbit_0_l|].
    apply Z.bits_above_log2; [lia|].
    pose proof (Z.log2_lt_pow2 z 32). lia.
  - intros Hb. split; [done|].
    destruct (Z.eq_dec z 0) as [->|]; [lia|].
    apply Z.log2_lt_pow2; [lia|]. apply Z.nle_gt. intros Hle.
    pose proof (Z.bit_log2 z ltac:(lia)) as Ht. by rewrite Hb in Ht.
Qed.

Lemma is_u32_lxor a b : is_u32 a → is_u32 b → is_u32 (Z.lxor a b).
Proof.
  intros Ha Hb. assert (0 ≤ Z.lxor a b).
  { apply Z.lxor_nonneg. destruct Ha, Hb. lia. }
  apply is_u32_bits; [done|]. intros i Hi. rewrite Z.lxor_spec.
  destruct (Ha), (Hb). rewrite (proj1 (is_u32_bits a ltac:(lia)) Ha i Hi).
  by rewrite (proj1 (is_u32_bits b ltac:(lia)) Hb i Hi).
Qed.

Lemma is_u32_shiftr a : is_u32 a → is_u32 (Z.shiftr a 1).
Proof.
  unfold is_u32. rewrite Z.shiftr_div_pow2 by lia. intros H.
  split; [apply Z.div_pos; lia|]. apply Z.div_lt_upper_bound; lia.
Qed.

Lemma crc_bit_u32 c : is_u32 c → is_u32 (crc_bit c).
Proof.
  intros H. unfold crc_bit. case_match; [|by apply is_u32_shiftr].
  apply is_u32_lxor; [by apply is_u32_shiftr|]. unfold is_u32, crc_poly. lia.
Qed.

Lemma crc_byte_u32 c b : is_u32 c → is_u32 (crc_byte c b).
Proof.
  intros H. unfold crc_byte. apply Nat.iter_invariant; [intros; by apply crc_bit_u32|].
  apply is_u32_lxor; [done|]. unfold is_u32. pose proof (byte.unsigned_range b). lia.
Qed.

Lemma crc_update_u32 c p : is_u32 c → is_u32 (crc_update c p).
Proof.
  intros H. unfold crc_update. assert (is_u32 0xFFFFFFFF) by (unfold is_u32; lia).
  apply is_u32_lxor; [|done].
  assert (is_u32 (Z.lxor c 0xFFFFFFFF)) as Hc by by apply is_u32_lxor.
  revert Hc. generalize (Z.lxor c 0xFFFFFFFF). induction p as [|b p IH]; intros d Hd; simpl; [done|].
  apply IH. by apply crc_byte_u32.
Qed.

Lemma ChecksumIEEE_u32 p : is_u32 (ChecksumIEEE p).
Proof. apply crc_update_u32. unfold is_u32. lia. Qed.

(** ** Strings *)

Lemma string_bytes_roundtrip s : string_of_list_byte (list_byte_of_string s) = s.
Proof. apply string_of_list_byte_of_string. Qed.

Fixpoint HasSuffix (s suffix : string) : bool :=
  String.eqb s suffix || match s with String _ s' => HasSuffix s' suffix | EmptyString => false end.

Fixpoint TrimSuffix (s suffix : string) : string :=
  if String.eqb s suffix then EmptyString
  else match s with String c s' => String c (TrimSuffix s' suffix) | EmptyString => EmptyString end.

Definition HasPrefix (s prefix : string) : bool := String.prefix prefix s.

Definition TrimPrefix (s prefix : string) : string :=
  if HasPrefix s prefix
  then String.substring (String.length prefix) (String.length s - String.length prefix) s
  else s.

#[local] Open Scope string_scope.
#[local] Open Scope Z_scope.
#[local] Arguments String.append !_ _ / : simpl nomatch.

Lemma string_app_assoc (a b c : string) : (a +:+ b) +:+ c = a +:+ (b +:+ c).
Proof. induction a as [|x a IH]; simpl; [done|]. by f_equal. Qed.

Lemma string_length_app (a b : string) :
  String.length (a +:+ b) = (String.length a + String.length b)%nat.
Proof. induction a; simpl; congruence. Qed.

Lemma TrimSuffix_app d suffix : TrimSuffix (d +:+ suffix) suffix = d.
Proof.
  induction d as [|c d IH]; cbn [TrimSuffix String.append].
  - destruct suffix; cbn [TrimSuffix]; by rewrite String.eqb_refl.
  - destruct (String.eqb_spec (String c (d +:+ suffix)) suffix) as [E|_]; [|by rewrite IH].
    apply (f_equal String.length) in E. simpl in E. rewrite string_length_app in E. lia.
Qed.

Lemma HasSuffix_app d suffix : HasSuffix (d +:+ suffix) suffix = true.
Proof.
  induction d as [|c d IH]; cbn [HasSuffix String.append].
  - destruct suffix; cbn [HasSuffix]; by rewrite String.eqb_refl.
  - rewrite IH. apply orb_true_r.
Qed.

Lemma substring_all s : String.substring 0 (String.length s) s = s.
Proof. induction s; simpl; congruence. Qed.

Lemma str_prefix_app p s : String.prefix p (p +:+ s) = true.
Proof. induction p as [|c p IH]; simpl; [by destruct s|]. by destruct (ascii_dec c c). Qed.

Lemma TrimPrefix_app p s : TrimPrefix (p +:+ s) p = s.
Proof.
  unfold TrimPrefix, HasPrefix. rewrite str_prefix_app.
  rewrite string_length_app, Nat.add_comm, Nat.add_sub.
  induction p as [|c p IH]; simpl; [apply substring_all|done].
Qed.

Lemma string_compare_refl s : String.compare s s = Eq.
Proof.
  induction s as [|c s IH]; [done|]. cbn [String.compare]. unfold Ascii.compare.
  by rewrite N.compare_refl.
Qed.

(** ** Decimal numbers *)

Definition digit_char (d : Z) : ascii := ascii_of_N (Z.to_N (48 + d)).

Definition digit_value (c : ascii) : option Z :=
  let v := Z.of_N (N_of_ascii c) - 48 in
  if (0 <=? v) && (v <? 10) then Some v else None.

(** The [k] low decimal digits of [n], most significant first. *)
Fixpoint digits (k : nat) (n : Z) : string :=
  match k with
  | O => EmptyString
  | S k' => String (digit_char (n / 10 ^ Z.of_nat k' mod 10)) (digits k' n)
  end.

Definition reaches (n : Z) (k : nat) : bool := 10 ^ Z.of_nat k <=? n.

Definition num_digits (n : Z) : nat := S (length (filter (reaches n) (seq 1 18))).

(** [fmt.Sprintf("%0wd", n)] for 64-bit [n]. *)
Definition fmt_0wd (w : nat) (n : Z) : string :=
  if n <? 0 then String "-" (digits (Nat.max (w - 1) (num_digits (- n))) (- n))
  else digits (Nat.max w (num_digits n)) n.

Fixpoint parse_digits (acc : Z) (s : string) : option Z :=
  match s with
  | EmptyString => Some acc
  | String c s' =>
      match digit_value c with
      | Some d => parse_digits (10 * acc + d) s'
      | None => None
      end
  end.

Definition parse_unsigned (s : string) : option Z :=
  match s with EmptyString => None | _ => parse_digits 0 s end.

Definition check_int64 (z : Z) : option Z :=
  if (int64_min <=? z) && (z <=? int64_max) then Some z else None.

(** [strconv.ParseInt(s, 10, 64)]; [None] is its error. *)
Definition ParseInt (s : string) : option Z :=
  match s with
  | String c s' =>
      if Ascii.eqb c "+" then parse_unsigned s' ≫= check_int64
      else if Ascii.eqb c "-" then parse_unsigned s' ≫= (λ z, check_int64 (- z))
      else parse_unsigned s ≫= check_int64
  | EmptyString => None
  end.

Lemma N_of_digit_char d : 0 ≤ d < 10 → N_of_ascii (digit_char d) = Z.to_N (48 + d).
Proof. intros H. apply N_ascii_embedding. lia. Qed.

Lemma digit_value_char d : 0 ≤ d < 10 → digit_value (digit_char d) = Some d.
Proof.
  intros H. unfold digit_value. rewrite N_of_digit_char by done.
  rewrite Z2N.id by lia. replace (48 + d - 48) with d by lia.
  by replace ((0 <=? d) && (d <? 10)) with true by lia.
Qed.

Lemma digit_char_compare a b :
  0 ≤ a < 10 → 0 ≤ b < 10 → Ascii.compare (digit_char a) (digit_char b) = (a ?= b).
Proof.
  intros Ha Hb. unfold Ascii.compare. rewrite !N_of_digit_char by done.
  rewrite <- N2Z.inj_compare, !Z2N.id by lia.
  destruct (Z.compare_spec a b); [apply Z.compare_eq_iff|apply Z.compare_lt_iff|apply Z.compare_gt_iff]; lia.
Qed.

Lemma digits_mod k n : digits k (n mod 10 ^ Z.of_nat k) = digits k n.
Proof.
  assert (H : ∀ j, (j ≤ k)%nat → digits j (n mod 10 ^ Z.of_nat k) = digits j n);
    [|by apply H].
  induction j as [|j IH]; intros Hj; simpl; [done|]. f_equal; [|apply IH; lia]. f_equal.
  replace (Z.of_nat k) with (Z.of_nat j + Z.of_nat (k - j)) by lia.
  rewrite Z.pow_add_r by lia.
  rewrite (Z.rem_mul_r n (10 ^ Z.of_nat j) (10 ^ Z.of_nat (k - j))) by lia.
  rewrite Z.mul_comm, Z.div_add by lia.
  rewrite (Z.div_small (n mod _)) by (apply Z.mod_pos_bound; lia). rewrite Z.add_0_l.
  replace (Z.of_nat (k - j)) with (1 + Z.of_nat (k - j - 1)) by lia.
  rewrite Z.pow_add_r, Z.pow_1_r by lia.
  rewrite Z.rem_mul_r by lia.
  rewrite Z.mul_comm, Z.mod_add by lia. by rewrite Z.mod_mod by lia.
Qed.

Lemma digit_bounds k n : 0 ≤ n / 10 ^ Z.of_nat k mod 10 < 10.
Proof. apply Z.mod_pos_bound. lia. Qed.

Lemma parse_digits_app acc k n :
  0 ≤ n → parse_digits acc (digits k n) = Some (acc * 10 ^ Z.of_nat k + n mod 10 ^ Z.of_nat k).
Proof.
  intros Hn. revert acc. induction k as [|k IH]; intros acc; simpl.
  - f_equal. rewrite Z.mod_1_r. lia.
  - rewrite digit_value_char by apply digit_bounds. rewrite IH. f_equal.
    rewrite Nat2Z.inj_succ, Z.pow_succ_r by lia.
    rewrite (Z.mul_comm 10 (10 ^ _)), Z.rem_mul_r by lia. lia.
Qed.

Lemma num_digits_bound n : 0 ≤ n ≤ int64_max → n < 10 ^ Z.of_nat (num_digits n).
Proof.
  unfold int64_max. intros H. unfold num_digits.
  set (L := length (filter (reaches n) (seq 1 18))).
  assert (Hcase : ∀ j, (j ≤ 18)%nat → 10 ^ Z.of_nat j ≤ n → (j ≤ L)%nat).
  { intros j Hj Hle. unfold L. replace 18%nat with (j + (18 - j))%nat by lia.
    rewrite seq_app, filter_app, length_app.
    assert (filter (reaches n) (seq 1 j) = seq 1 j) as ->.
    - apply list_filter_all. intros k Hk%elem_of_seq. unfold reaches.
      apply Is_true_true, Z.leb_le.
      etrans; [|exact Hle]. apply Z.pow_le_mono_r; lia.
    - rewrite length_seq. lia. }
  destruct (Z.lt_ge_cases n (10 ^ Z.of_nat (S L))) as [|Hge]; [done|].
  destruct (Nat.le_gt_cases (S L) 18) as [HL|HL].
  - specialize (Hcase _ HL Hge). lia.
  - assert (10 ^ 19 ≤ 10 ^ Z.of_nat (S L)) by (apply Z.pow_le_mono_r; lia). lia.
Qed.

Lemma ParseInt_fmt w n : 0 ≤ n ≤ int64_max → ParseInt (fmt_0wd w n) = Some n.
Proof.
  intros H. unfold fmt_0wd. replace (n <? 0) with false by lia.
  assert (Hb : n < 10 ^ Z.of_nat (Nat.max w (num_digits n))).
  { pose proof (num_digits_bound n H). eapply Z.lt_le_trans; [done|].
    apply Z.pow_le_mono_r; lia. }
  destruct (Nat.max w (num_digits n)) as [|k] eqn:Ek; [unfold num_digits in Ek; lia|].
  unfold ParseInt. cbn [digits].
  set (d := n / 10 ^ Z.of_nat k mod 10). pose proof (digit_bounds k n : 0 ≤ d < 10) as Hd.
  destruct (Ascii.eqb_spec (digit_char d) "+") as [E|_].
  { apply (f_equal N_of_ascii) in E. rewrite N_of_digit_char in E by done. cbn in E. lia. }
  destruct (Ascii.eqb_spec (digit_char d) "-") as [E|_].
  { apply (f_equal N_of_ascii) in E. rewrite N_of_digit_char in E by done. cbn in E. lia. }
  change (parse_digits 0 (digits (S k) n) ≫= check_int64 = Some n).
  rewrite parse_digits_app by lia. rewrite Z.mod_small by lia. cbn.
  unfold check_int64. rewrite Z.mul_0_l, Z.add_0_l. replace ((int64_min <=? n) && (n <=? int64_max)) with true; [done|].
  unfold int64_min. lia.
Qed.

(** Zero-padded numbers of one width sort as the numbers do, whatever
    follows them. *)
Lemma digits_compare k a b s t :
  0 ≤ a → a < b → b < 10 ^ Z.of_nat k →
  String.compare (digits k a +:+ s) (digits k b +:+ t) = Lt.
Proof.
  revert a b. induction k as [|k IH]; intros a b Ha Hab Hb; [simpl in *; lia|].
  cbn [digits String.append String.compare].
  rewrite digit_char_compare by apply digit_bounds.
  rewrite Nat2Z.inj_succ, Z.pow_succ_r in Hb by lia.
  assert (Hda : a / 10 ^ Z.of_nat k < 10) by (apply Z.div_lt_upper_bound; lia).
  assert (Hdb : b / 10 ^ Z.of_nat k < 10) by (apply Z.div_lt_upper_bound; lia).
  assert (Hd : a / 10 ^ Z.of_nat k ≤ b / 10 ^ Z.of_nat k) by (apply Z.div_le_mono; lia).
  assert (0 ≤ a / 10 ^ Z.of_nat k) by (apply Z.div_pos; lia).
  rewrite !Z.mod_small by lia.
  destruct (Z.compare_spec (a / 10 ^ Z.of_nat k) (b / 10 ^ Z.of_nat k)) as [E|?|?]; [|done|lia].
  rewrite <- (digits_mod k a), <- (digits_mod k b).
  pose proof (Z.div_mod a (10 ^ Z.of_nat k)). pose proof (Z.div_mod b (10 ^ Z.of_nat k)).
  pose proof (Z.mod_pos_bound a (10 ^ Z.of_nat k)). pose proof (Z.mod_pos_bound b (10 ^ Z.of_nat k)).
  apply IH; rewrite ?E in *; lia.
Qed.

(** ** Case and substrings *)

(** [strings.ToLower] on ASCII letters; the callers look for ASCII keywords in the
    result, which other letters cannot become. *)
Definition ascii_lower (c : ascii) : ascii :=
  let n := nat_of_ascii c in
  if (65 <=? n)%nat && (n <=? 90)%nat then ascii_of_nat (n + 32) else c.
Fixpoint ToLower (s : string) : string :=
  match s with
  | EmptyString => EmptyString
  | String c s => String (ascii_lower c) (ToLower s)
  end.

Definition Contains (s sub : string) : bool :=
  match String.index 0 sub s with Some _ => true | None => false end.
