(* ===== verification/Wal.v ===== *)
(** internal/storage/wal.go: the write-ahead log.

    The directory of segment files is a map from file names to the bytes the
    operating system has; the current segment has a [bufio.Writer] in front of
    it whose buffer is modelled byte for byte.  System calls on the log's own
    files succeed; everything else the code can get wrong (torn writes, corrupt
    records, out-of-range slices) is a value of [result]. *)

From Stdlib Require Import String.
From coqutil Require Import Byte.
From stdpp Require Import base option list gmap strings sorting.
From S2P Require Import Prelude Bytes.

#[local] Open Scope Z_scope.

(** ** Data *)

Record WALConfig := mkWALConfig {
  Dir : string;
  MaxSegmentSize : Z;
  SyncInterval : Duration;
  MaxSegments : Z;
  CheckpointInterval : Duration;
}.

Definition DefaultWALConfig : WALConfig :=
  mkWALConfig "/var/lib/dogwatch/wal" (64 * 1024 * 1024) (100 * Millisecond) 10 Minute.

(** WALOperation is a uint8 with these named values. *)
Definition WALOpInsert : Z := 1.
Definition WALOpUpdate : Z := 2.
Definition WALOpDelete : Z := 3.
Definition WALOpBatch : Z := 4.

Record WALEntry := mkWALEntry {
  Sequence : Z;
  Operation : Z;
  Table : string;
  Data : bytes;
  Timestamp : Time;
  Committed : bool;
}.

Record WALStats := mkWALStats {
  EntriesWritten : Z;
  BytesWritten : Z;
  Checkpoints : Z;
  SegmentsCreated : Z;
  SegmentsCleaned : Z;
  LastCheckpoint : Time;
  LastSync : Time;
  PendingEntries : Z;
  CurrentSegmentID : Z;
}.

(** The [bufio.Writer] of the current segment: its file and its buffer. *)
Record Writer := mkWriter { wr_file : string; wr_buf : bytes }.

Record WAL := mkWAL {
  config : WALConfig;
  dir : gmap string bytes;      (** file name to contents, in config.Dir *)
  writer : option Writer;       (** nil until a segment is opened *)
  segmentSeq : Z;
  entrySeq : Z;
  pending : list WALEntry;
  stats : WALStats;
}.

Definition set_io (d : gmap string bytes) (w : option Writer) (s : WAL) : WAL :=
  mkWAL (config s) d w (segmentSeq s) (entrySeq s) (pending s) (stats s).
Definition set_entrySeq (n : Z) (s : WAL) : WAL :=
  mkWAL (config s) (dir s) (writer s) (segmentSeq s) n (pending s) (stats s).
Definition set_segmentSeq (n : Z) (s : WAL) : WAL :=
  mkWAL (config s) (dir s) (writer s) n (entrySeq s) (pending s) (stats s).
Definition set_pending (p : list WALEntry) (s : WAL) : WAL :=
  mkWAL (config s) (dir s) (writer s) (segmentSeq s) (entrySeq s) p (stats s).
Definition set_stats (st : WALStats) (s : WAL) : WAL :=
  mkWAL (config s) (dir s) (writer s) (segmentSeq s) (entrySeq s) (pending s) st.

Definition count_entry (st : WALStats) : WALStats :=
  mkWALStats (uwrap64 (EntriesWritten st + 1)) (BytesWritten st) (Checkpoints st)
    (SegmentsCreated st) (SegmentsCleaned st) (LastCheckpoint st) (LastSync st)
    (PendingEntries st) (CurrentSegmentID st).
Definition count_bytes (n : Z) (st : WALStats) : WALStats :=
  mkWALStats (EntriesWritten st) (uwrap64 (BytesWritten st + n)) (Checkpoints st)
    (SegmentsCreated st) (SegmentsCleaned st) (LastCheckpoint st) (LastSync st)
    (PendingEntries st) (CurrentSegmentID st).
Definition count_checkpoint (now : Time) (st : WALStats) : WALStats :=
  mkWALStats (EntriesWritten st) (BytesWritten st) (uwrap64 (Checkpoints st + 1))
    (SegmentsCreated st) (SegmentsCleaned st) now (LastSync st)
    (PendingEntries st) (CurrentSegmentID st).
Definition count_segment (st : WALStats) : WALStats :=
  mkWALStats (EntriesWritten st) (BytesWritten st) (Checkpoints st)
    (uwrap64 (SegmentsCreated st + 1)) (SegmentsCleaned st) (LastCheckpoint st) (LastSync st)
    (PendingEntries st) (CurrentSegmentID st).
Definition count_cleaned (n : Z) (st : WALStats) : WALStats :=
  mkWALStats (EntriesWritten st) (BytesWritten st) (Checkpoints st)
    (SegmentsCreated st) (uwrap64 (SegmentsCleaned st + n)) (LastCheckpoint st) (LastSync st)
    (PendingEntries st) (CurrentSegmentID st).
Definition note_sync (now : Time) (st : WALStats) : WALStats :=
  mkWALStats (EntriesWritten st) (BytesWritten st) (Checkpoints st)
    (SegmentsCreated st) (SegmentsCleaned st) (LastCheckpoint st) now
    (PendingEntries st) (CurrentSegmentID st).
Definition note_segment (id : Z) (st : WALStats) : WALStats :=
  mkWALStats (EntriesWritten st) (BytesWritten st) (Checkpoints st)
    (SegmentsCreated st) (SegmentsCleaned st) (LastCheckpoint st) (LastSync st)
    (PendingEntries st) id.
Definition note_pending (n : Z) (st : WALStats) : WALStats :=
  mkWALStats (EntriesWritten st) (BytesWritten st) (Checkpoints st)
    (SegmentsCreated st) (SegmentsCleaned st) (LastCheckpoint st) (LastSync st)
    n (CurrentSegmentID st).

(** ** Buffered output *)

(** [bufio.NewWriterSize(f, 256*1024)] *)
Definition bufsize : Z := 256 * 1024.

Definition append_file (name : string) (p : bytes) (d : gmap string bytes) : gmap string bytes :=
  alter (λ f, f ++ p) name d.

Definition zlen {A : Type} (l : list A) : Z := Z.of_nat (length l).

(** [bufio.Writer.Write]: fill the buffer, flush it when full, and write a
    remainder larger than the buffer straight through. *)
Definition buf_write (p : bytes) (d : gmap string bytes) (w : Writer)
    : gmap string bytes * Writer :=
  let avail := bufsize - zlen (wr_buf w) in
  if zlen p <=? avail then (d, mkWriter (wr_file w) (wr_buf w ++ p))
  else match wr_buf w with
  | [] => (append_file (wr_file w) p d, w)
  | _ :: _ =>
      let n := Z.to_nat avail in
      let d1 := append_file (wr_file w) (wr_buf w ++ take n p) d in
      let rest := drop n p in
      if zlen rest <=? bufsize then (d1, mkWriter (wr_file w) rest)
      else (append_file (wr_file w) rest d1, mkWriter (wr_file w) [])
  end.

Definition buf_flush (d : gmap string bytes) (w : Writer) : gmap string bytes * Writer :=
  (append_file (wr_file w) (wr_buf w) d, mkWriter (wr_file w) []).

(** ** Writing entries *)

Definition entryLen (entry : WALEntry) : Z :=
  8 + 1 + 2 + zlen (list_byte_of_string (Table entry)) + 8 + 4 + zlen (Data entry) + 4.

(** The fields [writeEntry] sends through the checksumming MultiWriter. *)
Definition entry_fields (entry : WALEntry) : list bytes :=
  let tableBytes := list_byte_of_string (Table entry) in
  [ put_le 8 (Sequence entry);
    put_le 1 (Operation entry);
    put_le 2 (uwrap16 (zlen tableBytes));
    tableBytes;
    put_le 8 (uwrap64 (wrap64 (Timestamp entry)));
    put_le 4 (uwrap32 (zlen (Data entry)));
    Data entry ].

(** [mw.Write(p)]: the bytes go to the writer and into the digest. *)
Definition multi_write (st : gmap string bytes * Writer * Z) (p : bytes)
    : gmap string bytes * Writer * Z :=
  let '(d, w, crc) := st in
  let '(d', w') := buf_write p d w in (d', w', crc_update crc p).

Definition writeEntry (entry : WALEntry) (s : WAL) : result WAL :=
  match writer s with
  | None => Err "WAL not initialized"
  | Some w0 =>
      let '(d1, w1) := buf_write (put_le 4 (uwrap32 (entryLen entry))) (dir s) w0 in
      let '(d2, w2, crc) := foldl multi_write (d1, w1, 0) (entry_fields entry) in
      let '(d3, w3) := buf_write (put_le 4 crc) d2 w2 in
      Ok (set_stats (count_bytes (4 + entryLen entry) (stats s)) (set_io d3 (Some w3) s))
  end.

(** ** Segments *)

Definition segment_name (seq : Z) : string := "wal-" +:+ fmt_0wd 16 seq +:+ ".log".

Definition openNextSegment (s : WAL) : WAL :=
  let seq := wrap64 (segmentSeq s + 1) in
  let name := segment_name seq in
  let d := match dir s !! name with Some _ => dir s | None => <[name := []]> (dir s) end in
  set_stats (note_segment seq (count_segment (stats s)))
    (set_io d (Some (mkWriter name [])) (set_segmentSeq seq s)).

Definition rotateSegment (s : WAL) : WAL :=
  let s1 := match writer s with
            | Some w => let '(d, w') := buf_flush (dir s) w in set_io d (Some w') s
            | None => s
            end in
  openNextSegment s1.

Definition listSegments (d : gmap string bytes) : list string :=
  merge_sort String.le
    (filter (λ n, (HasPrefix n "wal-" && HasSuffix n ".log") = true) (map_to_list d).*1).

Definition cleanOldSegments (s : WAL) : WAL :=
  let segments := listSegments (dir s) in
  if zlen segments <=? MaxSegments (config s) then s
  else
    let toDelete := take (Z.to_nat (zlen segments - MaxSegments (config s))) segments in
    set_stats (count_cleaned (zlen toDelete) (stats s))
      (set_io (foldl (λ d n, delete n d) (dir s) toDelete) (writer s) s).

(** ** Operations *)

Definition file_size (d : gmap string bytes) (name : string) : Z :=
  zlen (default [] (d !! name)).

(** [Write]; the sequence number is consumed even when the entry fails. *)
Definition Write (now : Time) (op : Z) (table : string) (data : bytes) (s : WAL)
    : WAL * result Z :=
  let s1 := set_entrySeq (uwrap64 (entrySeq s + 1)) s in
  let entry := mkWALEntry (entrySeq s1) op table data now false in
  match writeEntry entry s1 with
  | Err e => (s1, Err e)
  | Panic w => (s1, Panic w)
  | Ok s2 =>
      let s3 := set_stats (count_entry (stats s2)) (set_pending (pending s2 ++ [entry]) s2) in
      let s4 := match writer s3 with
                | Some w => if MaxSegmentSize (config s3) <=? file_size (dir s3) (wr_file w)
                            then rotateSegment s3 else s3
                | None => s3
                end in
      (s4, Ok (Sequence entry))
  end.

(** The loop of [WriteBatch]; each entry comes with the clock reading of its
    iteration.  Returns the entries as updated so far. *)
Fixpoint batch_loop (entries : list (Time * WALEntry)) (s : WAL)
    : WAL * list WALEntry * result unit :=
  match entries with
  | [] => (s, [], Ok tt)
  | (now, e) :: rest =>
      let s1 := set_entrySeq (uwrap64 (entrySeq s + 1)) s in
      let e' := mkWALEntry (entrySeq s1) (Operation e) (Table e) (Data e) now (Committed e) in
      match writeEntry e' s1 with
      | Err m => (s1, [e'], Err m)
      | Panic m => (s1, [e'], Panic m)
      | Ok s2 =>
          let '(s3, es, r) := batch_loop rest (set_stats (count_entry (stats s2)) s2) in
          (s3, e' :: es, r)
      end
  end.

Definition WriteBatch (entries : list (Time * WALEntry)) (s : WAL) : WAL * result unit :=
  let '(s', es, r) := batch_loop entries s in
  match r with
  | Ok _ => (set_pending (pending s' ++ es) s', Ok tt)
  | _ => (s', r)
  end.

Definition sync (now : Time) (s : WAL) : WAL :=
  let s1 := match writer s with
            | Some w => let '(d, w') := buf_flush (dir s) w in set_io d (Some w') s
            | None => s
            end in
  set_stats (note_sync now (stats s1)) s1.

Definition Stop (s : WAL) : WAL :=
  match writer s with
  | Some w => let '(d, w') := buf_flush (dir s) w in set_io d (Some w') s
  | None => s
  end.

(** The parts of [checkpoint] after the callback succeeded on [entries]: dropping them, under the
    lock, and the clean-up. Other writers may have run since the copy was taken. *)
Definition checkpoint_drop (entries : list WALEntry) (s : WAL) : WAL :=
  match last entries with
  | None => s
  | Some l => set_pending (filter (λ e, Sequence l <? Sequence e = true) (pending s)) s
  end.
Definition checkpoint_clean (now : Time) (s : WAL) : WAL :=
  cleanOldSegments (set_stats (count_checkpoint now (stats s)) s).
Definition checkpoint_finish (now : Time) (entries : list WALEntry) (s : WAL) : WAL :=
  match entries with
  | [] => s
  | _ => checkpoint_clean now (checkpoint_drop entries s)
  end.

(** [checkpoint] run without interleaving; [apply] is the checkpoint callback,
    true when it returns no error, and trivially true when none is set. *)
Definition checkpoint (apply : list WALEntry → bool) (now : Time) (s : WAL) : WAL * result unit :=
  match pending s with
  | [] => (s, Ok tt)
  | _ :: _ =>
      if apply (pending s) then (checkpoint_finish now (pending s) s, Ok tt)
      else (s, Err "checkpoint callback")
  end.

Definition Stats (s : WAL) : WALStats := note_pending (zlen (pending s)) (stats s).
Definition PendingCount (s : WAL) : Z := zlen (pending s).
Definition ForceCheckpoint := checkpoint.
Definition ForceSync := sync.

(** ** Recovery *)

(** [data[lo:hi]], which panics when the bounds are out of range. *)
Definition slice (lo hi : Z) (data : bytes) : result bytes :=
  if (0 <=? lo) && (lo <=? hi) && (hi <=? zlen data)
  then Ok (take (Z.to_nat (hi - lo)) (drop (Z.to_nat lo) data))
  else Panic "slice bounds out of range".

(** [binary.LittleEndian.UintN(data[pos:])] *)
Definition uint_at (n : nat) (pos : Z) (data : bytes) : result Z :=
  let! tail := slice pos (zlen data) data in
  let! field := slice 0 (Z.of_nat n) tail in
  Ok (get_le field).

(** The parse after the checksum was verified. *)
Definition parse_entry (data : bytes) : result WALEntry :=
  let! sequence := uint_at 8 0 data in
  let! operation := uint_at 1 8 data in
  let! tableLen := uint_at 2 9 data in
  let! tbl := slice 11 (11 + tableLen) data in
  let! tsNano := uint_at 8 (11 + tableLen) data in
  let! dataLen := uint_at 4 (19 + tableLen) data in
  let! payload := slice (23 + tableLen) (23 + tableLen + dataLen) data in
  Ok (mkWALEntry sequence operation (string_of_list_byte tbl) payload
        (wrap64 tsNano) false).

(** [io.ReadFull] of [n] bytes. *)
Definition read_full (n : Z) (r : bytes) : result (bytes * bytes) :=
  if n <=? zlen r then Ok (take (Z.to_nat n) r, drop (Z.to_nat n) r)
  else Err (match r with [] => "EOF" | _ => "unexpected EOF" end).

Definition readEntry (r : bytes) : result (WALEntry * bytes) :=
  let! (lenb, r1) := read_full 4 r in
  let length := get_le lenb in
  let! (data, r2) := read_full length r1 in
  let! tail := slice (uwrap32 (length - 4)) (zlen data) data in
  let! crcb := slice 0 4 tail in
  let! body := slice 0 (uwrap32 (length - 4)) data in
  if negb (get_le crcb =? ChecksumIEEE body) then Err "CRC mismatch"
  else let! entry := parse_entry data in Ok (entry, r2).

(** The loop of [readSegment]; every record takes at least four bytes, so a
    file of [n] bytes is read with fuel [S n]. *)
Fixpoint read_entries (fuel : nat) (r : bytes) : result (list WALEntry) :=
  match fuel with
  | O => Err "out of fuel"
  | S fuel =>
      match readEntry r with
      | Ok (e, r') => let! es := read_entries fuel r' in Ok (e :: es)
      | Err _ => Ok []
      | Panic w => Panic w
      end
  end.

Definition max_sequence (es : list WALEntry) : Z := foldr (λ e m, Z.max (Sequence e) m) 0 es.

Definition readSegment (file : bytes) : result (list WALEntry * Z) :=
  let! es := read_entries (S (length file)) file in
  Ok (es, max_sequence es).

(** One iteration of the loop over segments in [recover]. *)
Definition recover_segment (name : string) (file : bytes) (s : WAL) : result WAL :=
  let! (entries, maxSeq) := readSegment file in
  let s1 := if entrySeq s <? maxSeq then set_entrySeq maxSeq s else s in
  let s2 := set_pending (pending s1 ++ filter (λ e, Committed e = false) entries) s1 in
  let seqStr := TrimPrefix (TrimSuffix name ".log") "wal-" in
  Ok (if String.eqb seqStr "" then s2
      else match ParseInt seqStr with
           | Some seq => if segmentSeq s2 <? seq then set_segmentSeq seq s2 else s2
           | None => s2
           end).

Fixpoint recover_loop (names : list string) (s : WAL) : result WAL :=
  match names with
  | [] => Ok s
  | n :: names' =>
      let! s1 := recover_segment n (default [] (dir s !! n)) s in
      recover_loop names' s1
  end.

Definition recover (s : WAL) : result WAL := recover_loop (listSegments (dir s)) s.

Definition or_default (x d : Z) : Z := if x =? 0 then d else x.

(** [NewWAL] on a directory with the given files. *)
Definition NewWAL (c : WALConfig) (files : gmap string bytes) : result WAL :=
  let d := DefaultWALConfig in
  let c' := mkWALConfig (if String.eqb (Dir c) "" then Dir d else Dir c)
              (or_default (MaxSegmentSize c) (MaxSegmentSize d))
              (or_default (SyncInterval c) (SyncInterval d))
              (or_default (MaxSegments c) (MaxSegments d))
              (or_default (CheckpointInterval c) (CheckpointInterval d)) in
  let s := mkWAL c' files None 0 0 [] (mkWALStats 0 0 0 0 0 zero_time zero_time 0 0) in
  let! s1 := recover s in
  Ok (openNextSegment s1).

(** *** Evaluation on small inputs *)

Definition demo_config : WALConfig := mkWALConfig "d" 0 0 0 0.

Definition demo : result (WAL * result Z) :=
  let! w := NewWAL demo_config ∅ in
  let '(w1, _) := Write 5 WALOpInsert "t" (list_byte_of_string "hello") w in
  Ok (Write 6 WALOpUpdate "users" [] w1).

Example demo_recovers :
  (let! (w, r) := demo in
   let! w' := NewWAL demo_config (dir (sync 7 w)) in
   Ok (r, pending w', entrySeq w', segmentSeq w')) =
  Ok (Ok 2, [mkWALEntry 1 1 "t" (list_byte_of_string "hello") 5 false;
             mkWALEntry 2 2 "users" [] 6 false], 2, 2).
Proof. vm_compute. reflexivity. Qed.

(** ** Lemmas: slices and fields *)

Lemma zlen_app {A : Type} (a b : list A) : zlen (a ++ b) = zlen a + zlen b.
Proof. unfold zlen. rewrite length_app. lia. Qed.

Lemma zlen_nonneg {A : Type} (a : list A) : 0 ≤ zlen a.
Proof. unfold zlen. lia. Qed.

Lemma zlen_put_le n z : zlen (put_le n z) = Z.of_nat n.
Proof. unfold zlen. by rewrite length_put_le. Qed.

#[export] Hint Rewrite @zlen_app zlen_put_le : dogwatch.

Lemma slice_app (a b c : bytes) lo hi :
  lo = zlen a → hi = zlen a + zlen b → slice lo hi (a ++ b ++ c) = Ok b.
Proof.
  intros -> ->. unfold slice. rewrite !zlen_app.
  pose proof (zlen_nonneg a). pose proof (zlen_nonneg b). pose proof (zlen_nonneg c).
  replace ((0 <=? zlen a) && (zlen a <=? zlen a + zlen b) &&
           (zlen a + zlen b <=? zlen a + (zlen b + zlen c))) with true by lia.
  f_equal. replace (zlen a + zlen b - zlen a) with (zlen b) by lia.
  unfold zlen. rewrite !Nat2Z.id. rewrite drop_app_length, take_app_length. done.
Qed.

Lemma slice_tail (a b : bytes) lo hi :
  lo = zlen a → hi = zlen (a ++ b) → slice lo hi (a ++ b) = Ok b.
Proof.
  intros -> ->. rewrite <- (app_nil_r b) at 2. apply slice_app; [done|]. apply zlen_app.
Qed.

Lemma slice_head (a b : bytes) hi : hi = zlen a → slice 0 hi (a ++ b) = Ok a.
Proof. intros ->. by apply (slice_app [] a b). Qed.

Lemma slice_out (lo hi : Z) (d : bytes) : zlen d < hi ∨ hi < lo → slice lo hi d = Panic "slice bounds out of range".
Proof. intros H. unfold slice. by replace (_ && _) with false by lia. Qed.

Lemma uint_at_app n (a c l : bytes) z pos :
  l = a ++ put_le n z ++ c → pos = zlen a → 0 ≤ z < 2 ^ (8 * Z.of_nat n) →
  uint_at n pos l = Ok z.
Proof.
  intros -> -> Hz. unfold uint_at. rewrite slice_tail by done. cbn.
  rewrite slice_head by by rewrite zlen_put_le. cbn. by rewrite get_put_le.
Qed.

Lemma slice_at (a b c l : bytes) lo hi :
  l = a ++ b ++ c → lo = zlen a → hi = zlen a + zlen b → slice lo hi l = Ok b.
Proof. intros ->. apply slice_app. Qed.

Lemma read_full_app (a b : bytes) n : n = zlen a → read_full n (a ++ b) = Ok (a, b).
Proof.
  intros ->. unfold read_full. rewrite zlen_app. pose proof (zlen_nonneg b).
  replace (zlen a <=? zlen a + zlen b) with true by lia.
  unfold zlen. by rewrite Nat2Z.id, take_app_length, drop_app_length.
Qed.

(** ** The record format *)

Definition entry_body (e : WALEntry) : bytes := concat (entry_fields e).

Definition encode (e : WALEntry) : bytes :=
  put_le 4 (uwrap32 (entryLen e)) ++ entry_body e ++ put_le 4 (ChecksumIEEE (entry_body e)).

(** What the fixed-width fields of the format can hold. *)
Record fits (e : WALEntry) : Prop := {
  fits_seq : 0 ≤ Sequence e < 2 ^ 64;
  fits_op : 0 ≤ Operation e < 2 ^ 8;
  fits_table : zlen (list_byte_of_string (Table e)) < 2 ^ 16;
  fits_time : in_int64 (Timestamp e);
  fits_len : entryLen e < 2 ^ 32;
}.

(** What a record carries of an entry. *)
Definition stored (e : WALEntry) : WALEntry :=
  mkWALEntry (Sequence e) (Operation e) (Table e) (Data e) (Timestamp e) false.

Lemma zlen_body e : zlen (entry_body e) = entryLen e - 4.
Proof.
  unfold entry_body, entry_fields, entryLen. cbn [concat].
  rewrite !zlen_app, !zlen_put_le. change (zlen (@nil Byte.byte)) with 0. lia.
Qed.

Lemma entryLen_ge e : 27 ≤ entryLen e.
Proof.
  unfold entryLen. pose proof (zlen_nonneg (Data e)).
  pose proof (zlen_nonneg (list_byte_of_string (Table e))). lia.
Qed.

Lemma zlen_encode e : zlen (encode e) = 4 + entryLen e.
Proof. unfold encode. autorewrite with dogwatch. rewrite zlen_body. lia. Qed.

(** Step through a parse of a concatenation of fields: the field (or slice)
    that follows the given prefix is read whole. *)
Ltac parse_side :=
  first [ rewrite <- ?app_assoc; reflexivity | autorewrite with dogwatch; cbn; lia | lia ].
Ltac parse_field n a z :=
  erewrite (uint_at_app n a _ _ z) by parse_side; cbn [res_bind].
Ltac parse_slice a b :=
  erewrite (slice_at a b) by parse_side; cbn [res_bind].

Lemma parse_entry_encoded e tail :
  fits e → parse_entry (entry_body e ++ tail) = Ok (stored e).
Proof.
  intros [Hs Ho Ht Hts Hl]. unfold parse_entry, entry_body, entry_fields.
  set (tb := list_byte_of_string (Table e)) in *.
  assert (Htb : 0 ≤ zlen tb < 2 ^ 16) by (pose proof (zlen_nonneg tb); lia).
  assert (Hdl : 0 ≤ zlen (Data e) < 2 ^ 32).
  { unfold entryLen in Hl. pose proof (zlen_nonneg (Data e)). fold tb in Hl. lia. }
  rewrite (wrap64_id (Timestamp e)) by done.
  assert (Hu16 : uwrap16 (zlen tb) = zlen tb) by (unfold uwrap16; apply Z.mod_small; lia).
  assert (Hu32 : uwrap32 (zlen (Data e)) = zlen (Data e)) by (unfold uwrap32; apply Z.mod_small; lia).
  rewrite Hu16, Hu32. cbn [concat]. rewrite app_nil_r, <- !app_assoc.
  set (f1 := put_le 8 (Sequence e)). set (f2 := put_le 1 (Operation e)).
  set (f3 := put_le 2 (zlen tb)). set (f5 := put_le 8 (uwrap64 (Timestamp e))).
  set (f6 := put_le 4 (zlen (Data e))).
  assert (Hts' : 0 ≤ uwrap64 (Timestamp e) < 2 ^ (8 * Z.of_nat 8))
    by (unfold uwrap64; apply Z.mod_pos_bound; lia).
  assert (Hlen : zlen f1 = 8 ∧ zlen f2 = 1 ∧ zlen f3 = 2 ∧ zlen f5 = 8 ∧ zlen f6 = 4)
    by (unfold f1, f2, f3, f5, f6; by rewrite !zlen_put_le).
  parse_field 8%nat (@nil Byte.byte) (Sequence e).
  parse_field 1%nat f1 (Operation e).
  parse_field 2%nat (f1 ++ f2) (zlen tb).
  parse_slice (f1 ++ f2 ++ f3) tb.
  parse_field 8%nat (f1 ++ f2 ++ f3 ++ tb) (uwrap64 (Timestamp e)).
  parse_field 4%nat (f1 ++ f2 ++ f3 ++ tb ++ f5) (zlen (Data e)).
  parse_slice (f1 ++ f2 ++ f3 ++ tb ++ f5 ++ f6) (Data e).
  unfold stored. rewrite wrap64_uwrap64, wrap64_id by done.
  unfold tb. by rewrite string_bytes_roundtrip.
Qed.

Lemma readEntry_encode e rest : fits e → readEntry (encode e ++ rest) = Ok (stored e, rest).
Proof.
  intros Hf. pose proof (fits_len e Hf) as Hl. pose proof (entryLen_ge e) as Hg.
  pose proof (zlen_body e) as Hb.
  assert (Hu : uwrap32 (entryLen e) = entryLen e) by (unfold uwrap32; apply Z.mod_small; lia).
  assert (Hu4 : uwrap32 (entryLen e - 4) = entryLen e - 4) by (unfold uwrap32; apply Z.mod_small; lia).
  unfold readEntry, encode. rewrite Hu, <- !app_assoc.
  rewrite read_full_app by by rewrite zlen_put_le. cbn [res_bind].
  rewrite get_put_le by lia.
  rewrite (app_assoc (entry_body e)), read_full_app
    by (autorewrite with dogwatch; lia).
  cbn [res_bind]. rewrite Hu4.
  rewrite slice_tail by (try lia; done). cbn [res_bind].
  pose proof (ChecksumIEEE_u32 (entry_body e)) as Hc.
  rewrite <- (app_nil_r (put_le 4 _)) at 1.
  rewrite slice_head by by rewrite zlen_put_le. cbn [res_bind].
  rewrite slice_head by lia. cbn [res_bind].
  rewrite get_put_le by exact Hc. rewrite Z.eqb_refl. cbn [negb].
  by rewrite parse_entry_encoded.
Qed.

(** ** Buffered output appends exactly the bytes written *)

Record wrote (p : bytes) (d : gmap string bytes) (w : Writer)
    (d' : gmap string bytes) (w' : Writer) : Prop := {
  wrote_file : wr_file w' = wr_file w;
  wrote_content f : d !! wr_file w = Some f →
    ∃ f', d' !! wr_file w = Some f' ∧ f' ++ wr_buf w' = f ++ wr_buf w ++ p ∧ f `prefix_of` f';
  wrote_frame n : n ≠ wr_file w → d' !! n = d !! n;
}.

Lemma wrote_trans p q d w d1 w1 d2 w2 :
  wrote p d w d1 w1 → wrote q d1 w1 d2 w2 → wrote (p ++ q) d w d2 w2.
Proof.
  intros [F1 C1 R1] [F2 C2 R2]. rewrite F1 in *. split; [congruence| |].
  - intros f Hf. destruct (C1 f Hf) as (f1 & Hf1 & E1 & P1).
    destruct (C2 f1 Hf1) as (f2 & Hf2 & E2 & P2). exists f2. split_and!; [done| |by etrans].
    rewrite E2, app_assoc, E1, <- !app_assoc. done.
  - intros n Hn. by rewrite R2, R1.
Qed.

Lemma append_wrote p d w :
  wrote p d w (append_file (wr_file w) (wr_buf w ++ p) d) (mkWriter (wr_file w) []).
Proof.
  unfold append_file. split; simpl; [done| |].
  - intros f Hf. eexists. rewrite lookup_alter_eq, Hf. split_and!; [done|by rewrite app_nil_r|].
    by apply prefix_app_r.
  - intros n Hn. by rewrite lookup_alter_ne.
Qed.

Lemma buffer_wrote p d w : wrote p d w d (mkWriter (wr_file w) (wr_buf w ++ p)).
Proof. split; simpl; [done| |done]. intros f Hf. by exists f. Qed.

Lemma buf_write_wrote p d w :
  let '(d', w') := buf_write p d w in wrote p d w d' w'.
Proof.
  unfold buf_write. destruct (zlen p <=? _); [apply buffer_wrote|].
  destruct w as [name [|b buf]]; simpl.
  - apply (append_wrote p d (mkWriter name [])).
  - set (n := Z.to_nat _).
    pose proof (append_wrote (take n p) d (mkWriter name (b :: buf))) as H1.
    destruct (zlen (drop n p) <=? bufsize);
      rewrite <- (take_drop n p) at 1; (eapply wrote_trans; [exact H1|]).
    + apply (buffer_wrote (drop n p) _ (mkWriter name [])).
    + apply (append_wrote (drop n p) _ (mkWriter name [])).
Qed.

Lemma buf_flush_wrote d w : let '(d', w') := buf_flush d w in wrote [] d w d' w' ∧ wr_buf w' = [].
Proof.
  unfold buf_flush. split; [|done].
  pose proof (append_wrote [] d w) as H. by rewrite app_nil_r in H.
Qed.

Lemma multi_write_wrote fields d w c :
  let '(d', w', c') := foldl multi_write (d, w, c) fields in
  wrote (concat fields) d w d' w' ∧
  (is_u32 c → c' = crc_update c (concat fields)).
Proof.
  revert d w c. induction fields as [|p fields IH]; intros d w c; simpl.
  - split; [|].
    + pose proof (buffer_wrote [] d w) as H. rewrite app_nil_r in H. by destruct w.
    + intros Hc. unfold crc_update. simpl.
      by rewrite Z.lxor_assoc, Z.lxor_nilpotent, Z.lxor_0_r.
  - pose proof (buf_write_wrote p d w) as Hp. destruct (buf_write p d w) as [d1 w1].
    specialize (IH d1 w1 (crc_update c p)).
    destruct (foldl multi_write _ fields) as [[d2 w2] c2]. destruct IH as [IH1 IH2].
    split; [by eapply wrote_trans|]. intros Hc.
    by rewrite IH2, crc_update_app by by apply crc_update_u32.
Qed.

(** [writeEntry] appends the encoding of the entry and counts its bytes. *)
Lemma writeEntry_wrote e s w :
  writer s = Some w →
  ∃ d' w', writeEntry e s =
    Ok (set_stats (count_bytes (4 + entryLen e) (stats s)) (set_io d' (Some w') s)) ∧
    wrote (encode e) (dir s) w d' w'.
Proof.
  intros Hw. unfold writeEntry. rewrite Hw.
  pose proof (buf_write_wrote (put_le 4 (uwrap32 (entryLen e))) (dir s) w) as H1.
  destruct (buf_write _ (dir s) w) as [d1 w1].
  pose proof (multi_write_wrote (entry_fields e) d1 w1 0) as H2.
  destruct (foldl multi_write _ _) as [[d2 w2] c2]. destruct H2 as [H2 Hc].
  rewrite Hc by (unfold is_u32; lia).
  pose proof (buf_write_wrote (put_le 4 (crc_update 0 (concat (entry_fields e)))) d2 w2) as H3.
  destruct (buf_write _ d2 w2) as [d3 w3].
  exists d3, w3. split; [done|]. unfold encode.
  eapply wrote_trans; [exact H1|]. eapply wrote_trans; [exact H2|exact H3].
Qed.

(** ** Reading back a segment *)

Definition log_bytes (es : list WALEntry) : bytes := concat (encode <$> es).

Lemma log_bytes_app es1 es2 : log_bytes (es1 ++ es2) = log_bytes es1 ++ log_bytes es2.
Proof. unfold log_bytes. by rewrite fmap_app, concat_app. Qed.

(** What a crash leaves of a record: nothing, or a strict prefix of it. *)
Definition incomplete (t : bytes) : Prop :=
  t = [] ∨ ∃ e n, fits e ∧ (n < length (encode e))%nat ∧ t = take n (encode e).

Lemma read_full_short n r : zlen r < n → ∃ m, read_full n r = Err m.
Proof. intros H. unfold read_full. replace (n <=? zlen r) with false by lia. eauto. Qed.

Lemma incomplete_err t : incomplete t → ∃ m, readEntry t = Err m.
Proof.
  intros [->|(e & n & Hf & Hn & ->)]; [by eexists|].
  pose proof (zlen_encode e) as Hz. pose proof (entryLen_ge e) as Hg.
  pose proof (fits_len e Hf) as Hl. unfold readEntry.
  destruct (Nat.lt_ge_cases n 4) as [H4|H4].
  - destruct (read_full_short 4 (take n (encode e))) as [m ->]; [|by exists m].
    unfold zlen. rewrite length_take. lia.
  - assert (E : take n (encode e) = put_le 4 (entryLen e) ++
      take (n - 4) (entry_body e ++ put_le 4 (ChecksumIEEE (entry_body e)))).
    { unfold encode. replace (uwrap32 (entryLen e)) with (entryLen e)
        by (unfold uwrap32; rewrite Z.mod_small; lia).
      rewrite take_app_ge by (rewrite length_put_le; lia). by rewrite length_put_le. }
    rewrite E, read_full_app by by rewrite zlen_put_le. cbn [res_bind].
    rewrite get_put_le by lia.
    destruct (read_full_short (entryLen e) (take (n - 4) (entry_body e ++
      put_le 4 (ChecksumIEEE (entry_body e))))) as [m ->]; [|by exists m].
    unfold zlen in *. rewrite length_take. lia.
Qed.

Lemma read_entries_log fuel es t :
  Forall fits es → incomplete t → (length es < fuel)%nat →
  read_entries fuel (log_bytes es ++ t) = Ok (stored <$> es).
Proof.
  intros Hes Ht. revert fuel. induction Hes as [|e es He Hes IH]; intros [|fuel] Hfuel;
    simpl in Hfuel; try lia.
  - simpl. destruct (incomplete_err t Ht) as [m ->]. done.
  - cbn [read_entries]. change (log_bytes (e :: es)) with (encode e ++ log_bytes es).
    rewrite <- app_assoc, readEntry_encode by done. cbn [res_bind].
    rewrite IH by lia. done.
Qed.

Lemma length_log_bytes es : (length es ≤ length (log_bytes es))%nat.
Proof.
  induction es as [|e es IH]; [simpl; lia|].
  change (log_bytes (e :: es)) with (encode e ++ log_bytes es). rewrite length_app. simpl.
  pose proof (zlen_encode e). pose proof (entryLen_ge e). unfold zlen in *. lia.
Qed.

Lemma max_sequence_stored es : max_sequence (stored <$> es) = max_sequence es.
Proof. induction es as [|e es IH]; [done|]. cbn. f_equal. exact IH. Qed.

Lemma readSegment_log es t :
  Forall fits es → incomplete t →
  readSegment (log_bytes es ++ t) = Ok (stored <$> es, max_sequence es).
Proof.
  intros Hes Ht. unfold readSegment.
  rewrite read_entries_log; [| done | done |].
  - simpl. by rewrite max_sequence_stored.
  - rewrite length_app. pose proof (length_log_bytes es). lia.
Qed.

(** Every prefix of a log is some whole records and an incomplete rest. *)
Lemma log_prefix es p :
  Forall fits es → p `prefix_of` log_bytes es →
  ∃ k t, (k ≤ length es)%nat ∧ p = log_bytes (take k es) ++ t ∧ incomplete t ∧
    ∀ j, (j ≤ length es)%nat → zlen (log_bytes (take j es)) ≤ zlen p → (j ≤ k)%nat.
Proof.
  intros Hes. revert p. induction Hes as [|e es He Hes IH]; intros p Hp.
  - apply prefix_nil_inv in Hp as ->. exists 0%nat, []. split_and!; simpl; [lia|done|by left|lia].
  - change (log_bytes (e :: es)) with (encode e ++ log_bytes es) in Hp.
    destruct (Nat.lt_ge_cases (length p) (length (encode e))) as [Hlt|Hge].
    + exists 0%nat, p. split_and!; [lia|done| |].
      * right. exists e, (length p). split_and!; [done|done|].
        destruct Hp as [q Hq]. apply (f_equal (take (length p))) in Hq.
        rewrite take_app_le, take_app_length in Hq by lia. done.
      * intros [|j] Hj; [lia|]. cbn [take].
        change (log_bytes (e :: take j es)) with (encode e ++ log_bytes (take j es)).
        rewrite zlen_app. pose proof (zlen_nonneg (log_bytes (take j es))). unfold zlen in *. lia.
    + destruct Hp as [q Hq].
      assert (Hpe : p = encode e ++ drop (length (encode e)) p).
      { rewrite <- (take_drop (length (encode e)) p) at 1. f_equal.
        apply (f_equal (take (length (encode e)))) in Hq.
        rewrite take_app_length, take_app_le in Hq by lia. done. }
      set (p' := drop (length (encode e)) p) in *.
      assert (p' `prefix_of` log_bytes es) as Hp'.
      { exists q. rewrite Hpe, <- app_assoc in Hq. by apply app_inv_head in Hq. }
      destruct (IH p' Hp') as (k & t & Hk & Ep & Ht & Hmax).
      exists (S k), t. split_and!; [simpl; lia| |done|].
      * cbn [take]. change (log_bytes (e :: take k es)) with (encode e ++ log_bytes (take k es)).
        by rewrite <- app_assoc, <- Ep.
      * intros [|j] Hj Hle; [lia|]. apply le_n_S, Hmax; [simpl in Hj; lia|].
        cbn [take] in Hle. change (log_bytes (e :: take j es)) with (encode e ++ log_bytes (take j es)) in Hle.
        rewrite Hpe in Hle. rewrite !zlen_app in Hle. lia.
Qed.

(** ** Segment names *)

Lemma prefix_zlen (a b : bytes) : a `prefix_of` b → zlen a ≤ zlen b.
Proof. intros [c ->]. rewrite zlen_app. pose proof (zlen_nonneg c). lia. Qed.

Lemma take_le_prefix {A : Type} (l : list A) j k : (j ≤ k)%nat → take j l `prefix_of` take k l.
Proof.
  intros H. exists (take (k - j) (drop j l)).
  rewrite <- (take_drop j (take k l)). rewrite take_take, skipn_firstn_comm.
  by replace (j `min` k)%nat with j by lia.
Qed.

(** Exactly the records that fit in the prefix are complete in it. *)
Lemma log_prefix_iff es p :
  Forall fits es → p `prefix_of` log_bytes es →
  ∃ k t, (k ≤ length es)%nat ∧ p = log_bytes (take k es) ++ t ∧ incomplete t ∧
    ∀ j, (j ≤ length es)%nat → zlen (log_bytes (take j es)) ≤ zlen p ↔ (j ≤ k)%nat.
Proof.
  intros Hf Hp. destruct (log_prefix es p Hf Hp) as (k & t & Hk & -> & Ht & Hmax).
  exists k, t. split_and!; [done..|]. intros j Hj. split; [by apply Hmax|]. intros Hjk.
  apply prefix_zlen. destruct (take_le_prefix es j k Hjk) as [c ->].
  rewrite log_bytes_app, <- app_assoc. by apply prefix_app_r.
Qed.

Definition is_segment (n : string) : bool := HasPrefix n "wal-" && HasSuffix n ".log".

Definition seg_range (i : Z) : Prop := 0 < i < 10 ^ 16.

Lemma fmt_16 i : 0 ≤ i < 10 ^ 16 → fmt_0wd 16 i = digits 16 i.
Proof.
  intros H. unfold fmt_0wd. replace (i <? 0) with false by lia. f_equal.
  enough (num_digits i ≤ 16)%nat by lia. unfold num_digits.
  change (seq 1 18) with (seq 1 15 ++ seq 16 3). rewrite filter_app, length_app.
  assert (filter (reaches i) (seq 16 3) = []) as ->.
  - apply elem_of_nil_inv. intros k [Hr Hk%elem_of_seq]%list_elem_of_filter.
    apply Is_true_true, Z.leb_le in Hr.
    assert (10 ^ 16 ≤ 10 ^ Z.of_nat k) by (apply Z.pow_le_mono_r; lia). lia.
  - pose proof (length_filter (reaches i) (seq 1 15)) as Hl. rewrite length_seq in Hl. cbn [length]. lia.
Qed.

Lemma segment_name_is_segment i : is_segment (segment_name i) = true.
Proof.
  unfold is_segment, segment_name, HasPrefix. rewrite str_prefix_app. simpl.
  rewrite <- string_app_assoc. apply HasSuffix_app.
Qed.

Lemma segment_name_number i :
  TrimPrefix (TrimSuffix (segment_name i) ".log") "wal-" = fmt_0wd 16 i.
Proof.
  unfold segment_name. rewrite <- string_app_assoc, TrimSuffix_app. apply TrimPrefix_app.
Qed.

Lemma segment_name_lt i j :
  seg_range i → seg_range j → i < j → String.compare (segment_name i) (segment_name j) = Lt.
Proof.
  unfold seg_range. intros Hi Hj Hlt. unfold segment_name. rewrite !fmt_16 by lia.
  assert (Hp : ∀ p a b, String.compare (p +:+ a) (p +:+ b) = String.compare a b).
  { induction p as [|c p IH]; intros a b; [done|]. change (String.compare (String c (p +:+ a)) (String c (p +:+ b)) = String.compare a b).
    cbn [String.compare]. unfold Ascii.compare. by rewrite N.compare_refl. }
  rewrite Hp. apply digits_compare; lia.
Qed.

Lemma segment_name_inj i j : seg_range i → seg_range j → segment_name i = segment_name j → i = j.
Proof.
  intros Hi Hj E. pose proof (string_compare_refl (segment_name j)) as Hc.
  destruct (Z.lt_trichotomy i j) as [H|[H|H]]; [|done|].
  - pose proof (segment_name_lt i j Hi Hj H). congruence.
  - pose proof (segment_name_lt j i Hj Hi H). congruence.
Qed.

Lemma segment_name_le i j :
  seg_range i → seg_range j → i < j → String.le (segment_name i) (segment_name j).
Proof.
  intros Hi Hj H. unfold String.le, String.leb. by rewrite segment_name_lt.
Qed.

Lemma sorted_names ids :
  StronglySorted Z.lt ids → Forall seg_range ids →
  StronglySorted String.le (segment_name <$> ids) ∧ NoDup (segment_name <$> ids).
Proof.
  induction 1 as [|i ids Hs IH Hi]; intros Hr; cbn.
  - split; constructor.
  - apply Forall_cons in Hr as [Hri Hr]. destruct (IH Hr) as [IH1 IH2].
    rewrite Forall_forall in Hi, Hr. split.
    + constructor; [done|]. apply Forall_fmap, Forall_forall. intros j Hj.
      apply segment_name_le; auto.
    + constructor; [|done]. intros (j & E & Hj)%list_elem_of_fmap.
      apply segment_name_inj in E; [|auto..]. specialize (Hi j Hj). lia.
Qed.

(** [sort.Strings] puts the segments in the order they were written. *)
Lemma listSegments_sorted d ids :
  StronglySorted Z.lt ids → Forall seg_range ids →
  (∀ n, is_Some (d !! n) ∧ is_segment n = true ↔ n ∈ segment_name <$> ids) →
  listSegments d = segment_name <$> ids.
Proof.
  intros Hs Hr Hd. destruct (sorted_names ids Hs Hr) as [Hss Hnd].
  apply (Sorted_unique String.le).
  - apply Sorted_merge_sort, _.
  - by apply StronglySorted_Sorted.
  - unfold listSegments. rewrite merge_sort_Permutation. apply NoDup_Permutation.
    + apply NoDup_filter, NoDup_fst_map_to_list.
    + done.
    + intros n. rewrite <- Hd, list_elem_of_filter, list_elem_of_fmap. unfold is_segment. split.
      * intros [? ([k v] & -> & Hv%elem_of_map_to_list)]. simpl. eauto.
      * intros [[v Hv] ?]. split; [done|]. exists (n, v). split; [done|].
        by apply elem_of_map_to_list.
Qed.

(** ** The abstract log a directory holds

    A log is a list of segments, each a number and the entries written to it. *)
Abbreviation seglog := (list (Z * list WALEntry)) (only parsing).

Definition log_entries (l : seglog) : list WALEntry := concat l.*2.

Definition segment_holds (d : gmap string bytes) (seg : Z * list WALEntry) : Prop :=
  Forall fits seg.2 ∧
  ∃ t, d !! segment_name seg.1 = Some (log_bytes seg.2 ++ t) ∧ incomplete t.

Record holds (d : gmap string bytes) (l : seglog) : Prop := {
  holds_sorted : StronglySorted Z.lt l.*1;
  holds_range : Forall seg_range l.*1;
  holds_dom n : is_Some (d !! n) ∧ is_segment n = true ↔ n ∈ segment_name <$> l.*1;
  holds_files : Forall (segment_holds d) l;
}.

(** *** Recovery reads the abstract log back *)

Definition max_id (l : seglog) : Z := foldr Z.max 0 l.*1.

Definition recovered (l : seglog) (s : WAL) : WAL :=
  mkWAL (config s) (dir s) (writer s)
    (Z.max (segmentSeq s) (max_id l))
    (Z.max (entrySeq s) (max_sequence (log_entries l)))
    (pending s ++ (stored <$> log_entries l)) (stats s).

Lemma max_sequence_nonneg es : 0 ≤ max_sequence es.
Proof. induction es; simpl; lia. Qed.

Lemma max_sequence_app es1 es2 :
  max_sequence (es1 ++ es2) = Z.max (max_sequence es1) (max_sequence es2).
Proof.
  pose proof (max_sequence_nonneg es2) as H. unfold max_sequence in *. rewrite foldr_app.
  revert H. generalize (foldr (λ e m, Z.max (Sequence e) m) 0 es2). intros m Hm.
  induction es1 as [|e es1 IH]; simpl; lia.
Qed.

Lemma recover_segment_holds i es s :
  segment_holds (dir s) (i, es) → seg_range i →
  recover_segment (segment_name i) (default [] (dir s !! segment_name i)) s =
  Ok (mkWAL (config s) (dir s) (writer s) (Z.max (segmentSeq s) i)
        (Z.max (entrySeq s) (max_sequence es)) (pending s ++ (stored <$> es)) (stats s)).
Proof.
  intros [Hes (t & Ht & Hi)] Hr. simpl in *. unfold recover_segment. rewrite Ht. cbn [default id].
  rewrite readSegment_log by done. cbn [res_bind].
  rewrite segment_name_number. unfold seg_range in Hr.
  assert (ParseInt (fmt_0wd 16 i) = Some i) as HP.
  { apply ParseInt_fmt. unfold int64_max. lia. }
  destruct (String.eqb_spec (fmt_0wd 16 i) "") as [E|_]; [by rewrite E in HP|].
  rewrite HP. rewrite list_filter_all.
  2: { intros e (e' & -> & _)%list_elem_of_fmap. done. }
  destruct s as [c d w sq eq pd st]. cbn -[Z.max max_sequence Z.ltb].
  destruct (Z.ltb_spec eq (max_sequence es)); cbn -[Z.max max_sequence Z.ltb];
    (destruct (Z.ltb_spec sq i); cbn -[Z.max max_sequence];
     unfold set_segmentSeq, set_pending; cbn -[Z.max max_sequence]; f_equal; f_equal; lia).
Qed.

Lemma recover_loop_holds l s :
  Forall (segment_holds (dir s)) l → Forall seg_range l.*1 →
  0 ≤ segmentSeq s → 0 ≤ entrySeq s →
  recover_loop (segment_name <$> l.*1) s = Ok (recovered l s).
Proof.
  revert s. induction l as [|[i es] l IH]; intros s Hl Hr Hss Hes.
  - cbn. unfold recovered. cbn. rewrite app_nil_r, !Z.max_l by done. by destruct s.
  - apply Forall_cons in Hl as [Hi Hl]. cbn in Hr. apply Forall_cons in Hr as [Hri Hr].
    cbn [fmap list_fmap recover_loop fst].
    rewrite (recover_segment_holds i es) by done. cbn [res_bind].
    rewrite IH by (simpl; done || lia).
    unfold recovered, log_entries. cbn [config dir writer segmentSeq entrySeq pending stats].
    cbn [fmap list_fmap concat snd]. rewrite fmap_app, <- app_assoc, max_sequence_app.
    unfold max_id. cbn. f_equal. f_equal; lia.
Qed.

Lemma recover_holds l s :
  holds (dir s) l → 0 ≤ segmentSeq s → 0 ≤ entrySeq s → recover s = Ok (recovered l s).
Proof.
  intros [Hs Hr Hd Hf] ??. unfold recover.
  rewrite (listSegments_sorted _ l.*1) by done. by apply recover_loop_holds.
Qed.

(** *** A running log *)

(** The directory as it would be once the buffer is flushed. *)
Definition flushed (s : WAL) : gmap string bytes :=
  match writer s with
  | Some w => append_file (wr_file w) (wr_buf w) (dir s)
  | None => dir s
  end.

(** The log a running WAL stands for: closed segments and the current one. *)
Record running (s : WAL) (closed : seglog) (cur : list WALEntry) : Prop := {
  run_holds : holds (flushed s) (closed ++ [(segmentSeq s, cur)]);
  run_exact : flushed s !! segment_name (segmentSeq s) = Some (log_bytes cur);
  run_writer : ∃ buf, writer s = Some (mkWriter (segment_name (segmentSeq s)) buf);
}.

Lemma wrote_flushed p d w d' w' :
  wrote p d w d' w' → is_Some (d !! wr_file w) →
  append_file (wr_file w') (wr_buf w') d' = append_file (wr_file w) p (append_file (wr_file w) (wr_buf w) d).
Proof.
  intros [F C R] [f Hf]. destruct (C f Hf) as (f' & Hf' & E & _). rewrite F.
  apply map_eq. intros n. unfold append_file.
  destruct (decide (wr_file w = n)) as [<-|Hn].
  - rewrite !lookup_alter_eq, Hf, Hf'. cbn. by rewrite E, <- app_assoc.
  - rewrite !lookup_alter_ne by done. by apply R.
Qed.

Lemma last_id_not_closed d (closed : seglog) i cur :
  holds d (closed ++ [(i, cur)]) → Forall (λ j, seg_range j ∧ j < i) closed.*1 ∧ seg_range i.
Proof.
  intros [Hs Hr _ _]. rewrite fmap_app in Hs, Hr. cbn in Hs, Hr.
  apply Forall_app in Hr as [Hr Hri]. apply Forall_cons in Hri as [Hri _]. split; [|done].
  apply Forall_forall. intros j Hj. split; [by eapply Forall_forall in Hr|].
  by eapply StronglySorted_app_1_elem_of; [exact Hs|done|apply list_elem_of_singleton].
Qed.

(** Changing the bytes of the current segment leaves the closed ones alone. *)
Lemma holds_update d d' (closed : seglog) i cur cur' t :
  holds d (closed ++ [(i, cur)]) →
  (∀ n, n ≠ segment_name i → d' !! n = d !! n) →
  d' !! segment_name i = Some (log_bytes cur' ++ t) → incomplete t → Forall fits cur' →
  holds d' (closed ++ [(i, cur')]).
Proof.
  intros H Hframe Hi Ht Hc. pose proof (last_id_not_closed _ _ _ _ H) as [Hlt Hri].
  destruct H as [Hs Hr Hd Hf].
  assert ((closed ++ [(i, cur')]).*1 = (closed ++ [(i, cur)]).*1) as Eids by by rewrite !fmap_app.
  split; rewrite ?Eids; [done|done| |].
  - intros n. rewrite <- Hd. destruct (decide (n = segment_name i)) as [->|Hn].
    + assert (Hin : segment_name i ∈ segment_name <$> (closed ++ [(i, cur)]).*1)
        by (rewrite !fmap_app; cbn; set_solver).
      apply Hd in Hin as [H1 H2]. rewrite Hi. split; intros _; split; done.
    + by rewrite Hframe.
  - apply Forall_app in Hf as [Hf _]. apply Forall_app. split.
    + rewrite Forall_forall in Hf. rewrite Forall_forall in Hlt.
      apply Forall_forall. intros [j es] Hj.
      destruct (Hf _ Hj) as [H1 (t' & H2 & H3)]. split; [done|]. exists t'. split; [|done].
      rewrite Hframe; [done|]. intros E. simpl in E.
      assert (Hj1 : j ∈ closed.*1) by (apply list_elem_of_fmap; by exists (j, es)).
      destruct (Hlt _ Hj1) as [Hrj Hji]. apply segment_name_inj in E; [lia|done|done].
    + apply Forall_cons. split; [|constructor]. split; [done|]. by exists t.
Qed.

Lemma running_append e s closed cur s' :
  running s closed cur → fits e → writeEntry e s = Ok s' →
  running s' closed (cur ++ [e]) ∧ pending s' = pending s ∧ entrySeq s' = entrySeq s ∧
  segmentSeq s' = segmentSeq s ∧ config s' = config s.
Proof.
  intros [Hh Hx [buf Hw]] He Hok.
  destruct (writeEntry_wrote e s _ Hw) as (d' & w' & Heq & Hwr).
  rewrite Heq in Hok. injection Hok as <-.
  assert (Hsome : is_Some (dir s !! segment_name (segmentSeq s))).
  { unfold flushed in Hx. rewrite Hw in Hx. cbn in Hx. unfold append_file in Hx.
    rewrite lookup_alter_eq in Hx. destruct (dir s !! _); [done|discriminate]. }
  pose proof (wrote_flushed _ _ _ _ _ Hwr Hsome) as Hfl. cbn in Hfl.
  assert (Hfl' : flushed (set_stats (count_bytes (4 + entryLen e) (stats s)) (set_io d' (Some w') s)) =
                 append_file (segment_name (segmentSeq s)) (encode e) (flushed s)).
  { unfold flushed. rewrite Hw. cbn. exact Hfl. }
  assert (Hcur : append_file (segment_name (segmentSeq s)) (encode e) (flushed s)
                 !! segment_name (segmentSeq s) = Some (log_bytes (cur ++ [e]))).
  { unfold append_file. rewrite lookup_alter_eq, Hx. cbn. f_equal.
    rewrite log_bytes_app. f_equal. cbn. by rewrite app_nil_r. }
  split_and!; [|done..]. split; cbn [segmentSeq set_stats set_io].
  - rewrite Hfl'. eapply (holds_update _ _ _ _ _ (cur ++ [e]) []); [exact Hh| | |by left|].
    + intros n Hn. unfold append_file. by rewrite lookup_alter_ne.
    + by rewrite app_nil_r.
    + destruct Hh as [_ _ _ Hf]. apply Forall_app in Hf as [_ Hf].
      apply Forall_cons in Hf as [[Hc _] _]. apply Forall_app. split; [done|]. by constructor.
  - by rewrite Hfl'.
  - cbn. pose proof (wrote_file _ _ _ _ _ Hwr) as E. cbn in E. exists (wr_buf w').
    rewrite <- E. by destruct w'.
Qed.

Lemma holds_open d l j :
  holds d l → Forall (λ i, i < j) l.*1 → seg_range j →
  d !! segment_name j = None ∧ holds (<[segment_name j := []]> d) (l ++ [(j, [])]).
Proof.
  intros [Hs Hr Hd Hf] Hlt Hj.
  assert (Hnin : segment_name j ∉ segment_name <$> l.*1).
  { intros (i & E & Hi)%list_elem_of_fmap. rewrite Forall_forall in Hlt. rewrite Forall_forall in Hr.
    apply segment_name_inj in E; [|done|by apply Hr]. specialize (Hlt i Hi). lia. }
  assert (Hnone : d !! segment_name j = None).
  { destruct (d !! segment_name j) as [f|] eqn:E; [|done]. exfalso. apply Hnin, Hd.
    split; [by rewrite E|apply segment_name_is_segment]. }
  split; [done|]. rewrite Forall_forall in Hlt. split; rewrite ?fmap_app; cbn.
  - apply StronglySorted_app. split_and!; [|done|repeat constructor].
    intros x y Hx ->%list_elem_of_singleton. by apply Hlt.
  - apply Forall_app. split; [done|]. by constructor.
  - intros n. destruct (decide (n = segment_name j)) as [->|Hn].
    + rewrite lookup_insert_eq, segment_name_is_segment. set_solver.
    + rewrite lookup_insert_ne by done. rewrite Hd. set_solver.
  - apply Forall_app. split.
    + eapply Forall_impl; [exact Hf|]. intros [i es] [H1 (t & H2 & H3)]. split; [done|].
      exists t. split; [|done]. rewrite lookup_insert_ne; [done|]. intros E. simpl in *. congruence.
    + constructor; [|constructor]. split; [constructor|]. exists []. cbn.
      rewrite lookup_insert_eq. split; [done|by left].
Qed.

Lemma append_nil name d : append_file name [] d = d.
Proof.
  unfold append_file. apply map_eq. intros n. destruct (decide (name = n)) as [<-|].
  - rewrite lookup_alter_eq. destruct (d !! name) as [f|]; cbn; by rewrite ?app_nil_r.
  - by rewrite lookup_alter_ne.
Qed.

Lemma running_open s l :
  holds (dir s) l → Forall (λ i, i ≤ segmentSeq s) l.*1 → 0 ≤ segmentSeq s →
  segmentSeq s + 1 < 10 ^ 16 →
  running (openNextSegment s) l [] ∧ segmentSeq (openNextSegment s) = segmentSeq s + 1.
Proof.
  intros Hh Hle H0 Hlt.
  assert (Hw : wrap64 (segmentSeq s + 1) = segmentSeq s + 1).
  { apply wrap64_id. unfold in_int64, int64_min, int64_max. lia. }
  assert (Hr : seg_range (segmentSeq s + 1)) by (unfold seg_range; lia).
  destruct (holds_open _ _ (segmentSeq s + 1) Hh) as [Hn Ho]; [|done|].
  { eapply Forall_impl; [exact Hle|]. intros i Hi. simpl in Hi. lia. }
  unfold openNextSegment. rewrite Hw, Hn. split; [|done].
  split; unfold flushed; cbn [writer set_stats set_io set_segmentSeq dir wr_file wr_buf segmentSeq];
    rewrite ?append_nil; [done| |by eexists].
  by rewrite lookup_insert_eq.
Qed.

Lemma flushed_flush s closed cur :
  running s closed cur →
  ∃ w, writer s = Some w ∧ buf_flush (dir s) w = (flushed s, mkWriter (segment_name (segmentSeq s)) []).
Proof.
  intros [_ _ [buf Hw]]. eexists. split; [exact Hw|]. unfold buf_flush, flushed. by rewrite Hw.
Qed.

Lemma running_ids s closed cur :
  running s closed cur →
  seg_range (segmentSeq s) ∧ Forall (λ i, i ≤ segmentSeq s) (closed ++ [(segmentSeq s, cur)]).*1.
Proof.
  intros [Hh _ _]. destruct (last_id_not_closed _ _ _ _ Hh) as [Hl Hr]. split; [done|].
  rewrite fmap_app. apply Forall_app. split; [|by repeat constructor].
  eapply Forall_impl; [exact Hl|]. simpl. lia.
Qed.

Lemma running_rotate s closed cur :
  running s closed cur → segmentSeq s + 1 < 10 ^ 16 →
  running (rotateSegment s) (closed ++ [(segmentSeq s, cur)]) [].
Proof.
  intros Hr Hlt. destruct (flushed_flush _ _ _ Hr) as (w & Hw & Hf).
  destruct (running_ids _ _ _ Hr) as [Hrg Hids]. unfold seg_range in Hrg.
  unfold rotateSegment. rewrite Hw, Hf.
  apply (running_open (set_io (flushed s) (Some (mkWriter (segment_name (segmentSeq s)) [])) s));
    [apply Hr|exact Hids|cbn; lia|done].
Qed.

Lemma running_sync s closed cur now :
  running s closed cur → running (sync now s) closed cur ∧ dir (sync now s) = flushed s.
Proof.
  intros Hr. destruct (flushed_flush _ _ _ Hr) as (w & Hw & Hf). destruct Hr as [Hh Hx Hwr].
  unfold sync. rewrite Hw, Hf. split; [|done].
  split; unfold flushed; cbn [writer set_stats set_io dir wr_file wr_buf segmentSeq];
    rewrite ?append_nil; [done|done|by eexists].
Qed.

Lemma lookup_foldl_delete (ns : list string) (d : gmap string bytes) k :
  foldl (λ d n, delete n d) d ns !! k = if decide (k ∈ ns) then None else d !! k.
Proof.
  revert d. induction ns as [|n ns IH]; intros d; cbn [foldl].
  - by rewrite decide_False by set_solver.
  - rewrite IH. destruct (decide (k = n)) as [->|Hk].
    + rewrite (decide_True (P := n ∈ n :: ns)) by set_solver.
      case_decide; [done|]. by rewrite lookup_delete_eq.
    + rewrite lookup_delete_ne by done. repeat case_decide; set_solver.
Qed.

(** Dropping the oldest closed segments. *)
Lemma holds_drop d l n :
  holds d l → holds (foldl (λ d n, delete n d) d (take n (segment_name <$> l.*1))) (drop n l).
Proof.
  intros [Hs Hr Hd Hf].
  pose proof (take_drop n (segment_name <$> l.*1)) as Etd.
  assert (Efd : segment_name <$> (drop n l).*1 = drop n (segment_name <$> l.*1))
    by by rewrite !fmap_drop.
  destruct (sorted_names l.*1 Hs Hr) as [_ Hnd]. rewrite <- Etd, NoDup_app in Hnd.
  destruct Hnd as (_ & Hdisj & _). split.
  - rewrite <- (take_drop n l), fmap_app in Hs. by eapply StronglySorted_app_1_r.
  - rewrite <- (take_drop n l), fmap_app in Hr. by apply Forall_app in Hr as [_ Hr].
  - intros k. rewrite lookup_foldl_delete, Efd.
    assert (Hk : k ∈ segment_name <$> l.*1 ↔
      k ∈ take n (segment_name <$> l.*1) ∨ k ∈ drop n (segment_name <$> l.*1))
      by (rewrite <- elem_of_app; by rewrite Etd).
    case_decide as Hin.
    + split; [intros [[??]?]; done|]. intros Hk'. by destruct (Hdisj _ Hin).
    + rewrite Hd, Hk. tauto.
  - rewrite <- (take_drop n l) in Hf. apply Forall_app in Hf as [_ Hf].
    rewrite Forall_forall in Hf. apply Forall_forall. intros [i es] Hi.
    destruct (Hf _ Hi) as [H1 (t & H2 & H3)]. split; [done|]. exists t. split; [|done].
    rewrite lookup_foldl_delete, decide_False; [done|]. intros Hin. apply (Hdisj _ Hin).
    rewrite <- Efd. apply list_elem_of_fmap. exists i. split; [done|].
    apply list_elem_of_fmap. by exists (i, es).
Qed.

Lemma flushed_dom s n : is_Some (flushed s !! n) ↔ is_Some (dir s !! n).
Proof.
  unfold flushed. destruct (writer s) as [w|]; [|done]. unfold append_file.
  destruct (decide (wr_file w = n)) as [<-|].
  - rewrite lookup_alter_eq. by destruct (dir s !! wr_file w).
  - by rewrite lookup_alter_ne.
Qed.

Lemma running_list s closed cur :
  running s closed cur →
  listSegments (dir s) = segment_name <$> (closed ++ [(segmentSeq s, cur)]).*1.
Proof.
  intros [[Hs Hr Hd _] _ _]. apply listSegments_sorted; [done|done|].
  intros n. by rewrite <- Hd, flushed_dom.
Qed.

(** Numbers that rise to the last one leave room for those between. *)
Lemma sorted_room (l1 l2 : list Z) x y :
  StronglySorted Z.lt (l1 ++ l2) → x ∈ l1 → last l2 = Some y → x + zlen l2 ≤ y.
Proof.
  intros Hs Hx. revert y. induction l2 as [|z l2 IH] using rev_ind; intros y Hy; [done|].
  rewrite last_snoc in Hy. injection Hy as ->. rewrite app_assoc in Hs.
  unfold zlen in *. rewrite length_app. cbn [length].
  destruct (last l2) as [w|] eqn:Ew.
  - specialize (IH (StronglySorted_app_1_l _ _ _ Hs) w eq_refl).
    assert (w < y); [|lia]. eapply (StronglySorted_app_1_elem_of _ (l1 ++ l2) [y]); [exact Hs| |by apply list_elem_of_singleton].
    apply elem_of_app. right. by apply last_Some_elem_of.
  - apply last_None in Ew as ->. cbn. assert (x < y); [|lia].
    eapply (StronglySorted_app_1_elem_of _ (l1 ++ []) [y]); [exact Hs| |by apply list_elem_of_singleton].
    apply elem_of_app. by left.
Qed.

Lemma running_clean s closed cur :
  running s closed cur → 1 ≤ MaxSegments (config s) →
  ∃ n, running (cleanOldSegments s) (drop n closed) cur ∧
    pending (cleanOldSegments s) = pending s ∧ entrySeq (cleanOldSegments s) = entrySeq s ∧
    segmentSeq (cleanOldSegments s) = segmentSeq s ∧
    config (cleanOldSegments s) = config s ∧
    Forall (λ seg, seg.1 + MaxSegments (config s) ≤ segmentSeq s) (take n closed).
Proof.
  intros Hrun Hmax. unfold cleanOldSegments. rewrite (running_list _ _ _ Hrun).
  case_match eqn:Hle; [exists 0%nat; split_and!; [done..|constructor]|].
  set (ids := (closed ++ [(segmentSeq s, cur)]).*1).
  set (n := Z.to_nat _). exists n.
  assert (Hn : (n ≤ length closed)%nat).
  { unfold n, zlen, ids. rewrite !length_fmap, length_app. cbn. lia. }
  destruct Hrun as [Hh Hx [buf Hw]].
  assert (Hroom : Forall (λ seg, seg.1 + MaxSegments (config s) ≤ segmentSeq s) (take n closed)).
  { apply Forall_forall. intros seg Hseg.
    assert (Hs : StronglySorted Z.lt ((take n closed).*1 ++ ((drop n closed).*1 ++ [segmentSeq s]))).
    { rewrite app_assoc, <- fmap_app, take_drop. pose proof (holds_sorted _ _ Hh) as Hs. by rewrite fmap_app in Hs. }
    pose proof (sorted_room _ _ seg.1 (segmentSeq s) Hs (list_elem_of_fmap_2 fst _ _ Hseg) (last_snoc _ _)) as Hr.
    assert (Hl : zlen (segment_name <$> ids) = Z.of_nat (length closed) + 1).
    { unfold ids, zlen. rewrite !length_fmap, length_app. cbn. lia. }
    assert (Hk : Z.of_nat n = zlen (segment_name <$> ids) - MaxSegments (config s)).
    { unfold n. apply Z.leb_gt in Hle. fold ids in Hle. lia. }
    unfold zlen in Hr. rewrite length_app, length_fmap, length_drop in Hr. cbn in Hr. lia. }
  split_and!; [|done..].
  assert (Hin : segment_name (segmentSeq s) ∉ take n (segment_name <$> ids)).
  { intros Hin. destruct (sorted_names ids (holds_sorted _ _ Hh) (holds_range _ _ Hh)) as [_ Hnd].
    rewrite <- (take_drop n (segment_name <$> ids)), NoDup_app in Hnd.
    destruct Hnd as (_ & Hdisj & _). apply (Hdisj _ Hin).
    unfold ids. rewrite !fmap_app, drop_app_le by (rewrite !length_fmap; lia).
    cbn. set_solver. }
  assert (Hfl : append_file (segment_name (segmentSeq s)) buf
      (foldl (λ d n, delete n d) (dir s) (take n (segment_name <$> ids))) =
    foldl (λ d n, delete n d) (flushed s) (take n (segment_name <$> ids))).
  { unfold flushed. rewrite Hw. unfold append_file. cbn [wr_file wr_buf]. apply map_eq. intros k.
    rewrite lookup_foldl_delete. destruct (decide (segment_name (segmentSeq s) = k)) as [<-|Hk].
    - rewrite !lookup_alter_eq, lookup_foldl_delete, !decide_False by done. done.
    - by rewrite !lookup_alter_ne, lookup_foldl_delete by done. }
  split; unfold flushed; cbn [writer set_stats set_io dir segmentSeq]; rewrite Hw; cbn [wr_file wr_buf];
    rewrite ?Hfl; [| |by eexists].
  - rewrite <- drop_app_le by done. by apply holds_drop.
  - by rewrite lookup_foldl_delete, decide_False.
Qed.

(** ** The invariant of a log in use *)

(** The log on disk and in the buffer is well formed. *)
Record log_ok (s : WAL) (closed : seglog) (cur : list WALEntry) : Prop := {
  ok_run : running s closed cur;
  ok_sorted : StronglySorted Z.lt (Sequence <$> log_entries closed ++ cur);
  ok_bound : Forall (λ e, Sequence e ≤ entrySeq s) (log_entries closed ++ cur);
  ok_nonneg : 0 ≤ entrySeq s;
}.

(** Besides, the pending entries are the last ones of the log. *)
Record wal_inv (s : WAL) (closed : seglog) (cur : list WALEntry) : Prop := {
  inv_ok : log_ok s closed cur;
  inv_pending : ∃ pre, stored <$> log_entries closed ++ cur = pre ++ (stored <$> pending s);
  inv_max : 1 ≤ MaxSegments (config s);
}.

(** The limits of the format, apart from the sequence number. *)
Definition payload_fits (now : Time) (op : Z) (table : string) (data : bytes) : Prop :=
  0 ≤ op < 2 ^ 8 ∧ zlen (list_byte_of_string table) < 2 ^ 16 ∧ in_int64 now ∧
  entryLen (mkWALEntry 0 op table data now false) < 2 ^ 32.

Lemma payload_fits_entry n now op table data c :
  payload_fits now op table data → 0 ≤ n < 2 ^ 64 → fits (mkWALEntry n op table data now c).
Proof. intros (H1 & H2 & H3 & H4) Hn. by split. Qed.

(** *** What the operations leave alone *)

Lemma uwrap64_small n : 0 ≤ n < 2 ^ 64 → uwrap64 n = n.
Proof. intros. unfold uwrap64. by apply Z.mod_small. Qed.

(** What an operation adds to the pending list. *)
Definition write_entry (now : Time) (op : Z) (table : string) (data : bytes) (s : WAL) : WALEntry :=
  mkWALEntry (uwrap64 (entrySeq s + 1)) op table data now false.

Lemma writeEntry_keeps e s s' :
  writeEntry e s = Ok s' → pending s' = pending s ∧ entrySeq s' = entrySeq s.
Proof.
  unfold writeEntry. destruct (writer s) as [w|]; [|done].
  destruct (buf_write _ _ _) as [d1 w1]. destruct (foldl _ _ _) as [[d2 w2] crc].
  destruct (buf_write _ _ _) as [d3 w3]. by intros [= <-].
Qed.

Lemma openNextSegment_keeps s :
  pending (openNextSegment s) = pending s ∧ entrySeq (openNextSegment s) = entrySeq s.
Proof. done. Qed.

Lemma rotateSegment_keeps s :
  pending (rotateSegment s) = pending s ∧ entrySeq (rotateSegment s) = entrySeq s.
Proof. unfold rotateSegment. destruct (writer s); [|done]. by destruct (buf_flush _ _). Qed.

Lemma Write_pending now op table data s :
  0 ≤ entrySeq s → entrySeq s + 1 < 2 ^ 64 → is_ok (Write now op table data s).2 = true →
  pending (Write now op table data s).1 = pending s ++ [write_entry now op table data s] ∧
  entrySeq (Write now op table data s).1 = entrySeq s + 1.
Proof.
  intros Hn Hlt. unfold Write, write_entry. rewrite uwrap64_small by lia.
  destruct (writeEntry _ _) as [s2|m|m] eqn:E; [|done..]. cbn [snd fst].
  apply writeEntry_keeps in E as [Ep Eq]. cbn in Ep, Eq. intros _.
  set (s3 := set_stats _ _).
  assert (pending s3 = pending s ++ [mkWALEntry (entrySeq s + 1) op table data now false] ∧
    entrySeq s3 = entrySeq s + 1) as [H1 H2] by (cbn; by rewrite Ep, Eq).
  destruct (writer s3) as [w|]; [|done]. case_match; [|done].
  destruct (rotateSegment_keeps s3) as [-> ->]. done.
Qed.

Lemma batch_loop_keeps entries s :
  0 ≤ entrySeq s → entrySeq s + zlen entries < 2 ^ 64 → is_ok (batch_loop entries s).2 = true →
  pending (batch_loop entries s).1.1 = pending s ∧
  entrySeq (batch_loop entries s).1.1 = entrySeq s + zlen entries ∧
  Sequence <$> (batch_loop entries s).1.2 = seqZ (entrySeq s + 1) (zlen entries).
Proof.
  revert s. induction entries as [|[now e] rest IH]; intros s Hn Hlt.
  - unfold zlen. cbn. intros _. split_and!; [done|lia|done].
  - unfold zlen in *. cbn [length] in *. cbn [batch_loop]. rewrite uwrap64_small by lia.
    destruct (writeEntry _ _) as [s2|m|m] eqn:E; [|done..].
    apply writeEntry_keeps in E as [Ep Eq]. cbn in Ep, Eq.
    set (s3 := set_stats _ s2).
    assert (pending s3 = pending s ∧ entrySeq s3 = entrySeq s + 1) as [Ep3 Eq3] by done.
    specialize (IH s3). destruct (batch_loop rest s3) as [[s4 es] r] eqn:E4. cbn in IH |- *. intros Hok.
    destruct IH as (H1 & H2 & H3); [lia|lia|done|].
    split_and!; [congruence|lia|].
    rewrite (seqZ_cons (entrySeq s + 1)) by lia. f_equal. change (entrySeq s3) with (entrySeq s2) in H3. rewrite H3, Eq. f_equal; lia.
Qed.

Lemma sync_keeps now s :
  pending (sync now s) = pending s ∧ entrySeq (sync now s) = entrySeq s.
Proof. unfold sync. destruct (writer s); [|done]. by destruct (buf_flush _ _). Qed.

Lemma cleanOldSegments_keeps s :
  pending (cleanOldSegments s) = pending s ∧ entrySeq (cleanOldSegments s) = entrySeq s.
Proof. unfold cleanOldSegments. by case_match. Qed.

Lemma Forall_seq_bound (l : list WALEntry) (P : Z → Prop) :
  Forall P (Sequence <$> l) → Forall (λ e, P (Sequence e)) l.
Proof. by rewrite Forall_fmap. Qed.

(** A checkpoint under way: the copy it took, the segment that was current then, and whether it
    has dropped the copy already. *)
Record copy := mkCopy { cp_entries : list WALEntry; cp_segment : Z; cp_dropped : bool }.

(** One step of a log and of the checkpoints under way, however many; the limits are those of the
    record format and of the sixteen-digit segment names. A checkpoint copies the pending entries,
    its callback runs while others go on, and fails, or the copy is dropped and then old segments
    are cleaned up: as long as fewer than [MaxSegments] segments were begun since the copy. *)
Inductive wal_step : WAL * list copy → WAL * list copy → Prop :=
| step_write now op table data s cs :
    payload_fits now op table data →
    entrySeq s + 1 < 2 ^ 64 → segmentSeq s + 1 < 10 ^ 16 →
    wal_step (s, cs) ((Write now op table data s).1, cs)
| step_batch entries s cs :
    Forall (λ te, payload_fits te.1 (Operation te.2) (Table te.2) (Data te.2)) entries →
    entrySeq s + zlen entries < 2 ^ 64 →
    wal_step (s, cs) ((WriteBatch entries s).1, cs)
| step_sync now s cs : wal_step (s, cs) (sync now s, cs)
| step_copy s cs : pending s ≠ [] → wal_step (s, cs) (s, mkCopy (pending s) (segmentSeq s) false :: cs)
| step_callback_fails c s cs1 cs2 : wal_step (s, cs1 ++ c :: cs2) (s, cs1 ++ cs2)
| step_drop es g s cs1 cs2 :
    wal_step (s, cs1 ++ mkCopy es g false :: cs2) (checkpoint_drop es s, cs1 ++ mkCopy es g true :: cs2)
| step_clean now es g s cs1 cs2 :
    segmentSeq s - g < MaxSegments (config s) →
    wal_step (s, cs1 ++ mkCopy es g true :: cs2) (checkpoint_clean now s, cs1 ++ cs2).

Lemma StronglySorted_snoc (l : list Z) x :
  StronglySorted Z.lt l → Forall (λ y, y < x) l → StronglySorted Z.lt (l ++ [x]).
Proof.
  intros Hs Hl. apply StronglySorted_app. split_and!; [|done|repeat constructor].
  rewrite Forall_forall in Hl. intros y z Hy ->%list_elem_of_singleton. by apply Hl.
Qed.

(** Appending one entry with the next sequence number. *)
Lemma log_ok_append e s s' closed cur :
  log_ok s closed cur → Sequence e = entrySeq s + 1 → fits e →
  writeEntry e (set_entrySeq (entrySeq s + 1) s) = Ok s' →
  log_ok s' closed (cur ++ [e]) ∧ pending s' = pending s ∧ entrySeq s' = entrySeq s + 1 ∧
  segmentSeq s' = segmentSeq s ∧ config s' = config s.
Proof.
  intros [Hr Hs Hb Hn] He Hf Hok.
  assert (Hr0 : running (set_entrySeq (entrySeq s + 1) s) closed cur) by by destruct Hr; split.
  destruct (running_append e _ _ _ _ Hr0 Hf Hok) as (Hr' & Hp' & Hq' & Hg' & Hc').
  cbn [entrySeq set_entrySeq] in Hq'.
  split_and!; [|done..]. split; [done| | |lia]; rewrite (app_assoc (log_entries closed)).
  - rewrite fmap_app. cbn. apply StronglySorted_snoc; [done|].
    apply Forall_fmap. eapply Forall_impl; [exact Hb|]. intros x Hx. cbn in *. lia.
  - rewrite Hq'. apply Forall_app. split; [|constructor; [lia|constructor]].
    eapply Forall_impl; [exact Hb|]. intros x Hx. cbn in *. lia.
Qed.

Lemma writeEntry_running e s closed cur : running s closed cur → ∃ s', writeEntry e s = Ok s'.
Proof.
  intros [_ _ [buf Hw]]. destruct (writeEntry_wrote e s _ Hw) as (d' & w' & -> & _). by eexists.
Qed.

Lemma log_entries_snoc closed i es : log_entries (closed ++ [(i, es)]) = log_entries closed ++ es.
Proof. unfold log_entries. rewrite fmap_app, concat_app. cbn. by rewrite app_nil_r. Qed.

Lemma pending_snoc s s' (l es : list WALEntry) :
  (∃ pre, stored <$> l = pre ++ (stored <$> pending s)) → pending s' = pending s ++ es →
  ∃ pre, stored <$> l ++ es = pre ++ (stored <$> pending s').
Proof.
  intros [pre Hpre] ->. exists pre. by rewrite !fmap_app, app_assoc, Hpre.
Qed.

Lemma rotateSegment_seq s :
  0 ≤ segmentSeq s → segmentSeq s + 1 < 10 ^ 16 → segmentSeq (rotateSegment s) = segmentSeq s + 1.
Proof.
  intros H0 Hlt. assert (wrap64 (segmentSeq s + 1) = segmentSeq s + 1).
  { apply wrap64_id. unfold in_int64, int64_min, int64_max. lia. }
  unfold rotateSegment. destruct (writer s); [|done]. by destruct (buf_flush _ _).
Qed.
(** [Write] appends its entry, with the next sequence number, to the log. *)
Lemma Write_inv now op table data s closed cur :
  wal_inv s closed cur → payload_fits now op table data →
  entrySeq s + 1 < 2 ^ 64 → segmentSeq s + 1 < 10 ^ 16 →
  let e := mkWALEntry (entrySeq s + 1) op table data now false in
  (Write now op table data s).2 = Ok (entrySeq s + 1) ∧
  ∃ closed' cur', wal_inv (Write now op table data s).1 closed' cur' ∧
    log_entries closed' ++ cur' = (log_entries closed ++ cur) ++ [e] ∧
    (closed' = closed ∧ segmentSeq (Write now op table data s).1 = segmentSeq s ∨
     (∃ es, closed' = closed ++ [(segmentSeq s, es)]) ∧ segmentSeq (Write now op table data s).1 = segmentSeq s + 1).
Proof.
  intros [Hok Hp Hm] Hpf Hq Hg e. pose proof (ok_nonneg _ _ _ Hok) as Hn.
  assert (He : fits e) by (apply payload_fits_entry; [done|lia]).
  unfold Write. rewrite uwrap64_small by lia. cbn [entrySeq set_entrySeq]. fold e.
  assert (Hr0 : running (set_entrySeq (entrySeq s + 1) s) closed cur)
    by by destruct Hok as [[] _ _ _]; split.
  destruct (writeEntry_running e _ _ _ Hr0) as [s2 Hs2]. rewrite Hs2.
  destruct (log_ok_append e s s2 closed cur Hok eq_refl He Hs2) as (Hok2 & Hp2 & Hq2 & Hg2 & Hc2).
  set (s3 := set_stats (count_entry (stats s2)) (set_pending (pending s2 ++ [e]) s2)).
  assert (Hok3 : log_ok s3 closed (cur ++ [e])).
  { destruct Hok2 as [[] ???]. split; [by split|done..]. }
  assert (Hp3 : ∃ pre, stored <$> (log_entries closed ++ cur) ++ [e] = pre ++ (stored <$> pending s3)).
  { apply (pending_snoc s); [done|]. cbn. by rewrite Hp2. }
  assert (Hm3 : 1 ≤ MaxSegments (config s3)) by (cbn; by rewrite Hc2).
  assert (Hstay : wal_inv s3 closed (cur ++ [e])) by (split; [done| |done]; by rewrite app_assoc).
  assert (Eg3 : segmentSeq s3 = segmentSeq s) by done.
  destruct (writer s3) as [w|]; [|split; [done|]; exists closed, (cur ++ [e]); rewrite app_assoc; auto].
  case_match; (split; [done|]); [|exists closed, (cur ++ [e]); rewrite app_assoc; auto].
  exists (closed ++ [(segmentSeq s3, cur ++ [e])]), [].
  assert (El : log_entries (closed ++ [(segmentSeq s3, cur ++ [e])]) ++ [] =
               (log_entries closed ++ cur) ++ [e])
    by by rewrite log_entries_snoc, app_nil_r, app_assoc.
  split; [|split; [done|right; split; [exists (cur ++ [e]); by rewrite Eg3|rewrite <- Eg3; apply rotateSegment_seq; rewrite Eg3; [|done]]]].
  2: { destruct (running_ids _ _ _ (ok_run _ _ _ Hok)) as [Hrg _]. unfold seg_range in Hrg. cbn. lia. }
  destruct (flushed_flush _ _ _ (ok_run _ _ _ Hok3)) as (w' & Hw' & Hf').
  split; [split| |]; rewrite ?El; unfold rotateSegment; rewrite ?Hw', ?Hf';
    try rewrite <- app_assoc; [|apply Hok3..|rewrite app_assoc; exact Hp3|exact Hm3].
  pose proof (running_rotate _ _ _ (ok_run _ _ _ Hok3)) as Hrot.
  unfold rotateSegment in Hrot. rewrite Hw', Hf' in Hrot. apply Hrot. cbn. lia.
Qed.

Lemma log_ok_same s s' closed cur :
  log_ok s closed cur → dir s' = dir s → writer s' = writer s → segmentSeq s' = segmentSeq s →
  entrySeq s' = entrySeq s → log_ok s' closed cur.
Proof.
  intros [[Hh Hx Hw] ???] Ed Ew Eg Eq.
  assert (Ef : flushed s' = flushed s) by (unfold flushed; by rewrite Ew, Ed).
  split; [split|..]; rewrite ?Ef, ?Ew, ?Eg, ?Eq; done.
Qed.

Lemma batch_loop_inv entries s closed cur :
  log_ok s closed cur →
  Forall (λ te, payload_fits te.1 (Operation te.2) (Table te.2) (Data te.2)) entries →
  entrySeq s + zlen entries < 2 ^ 64 →
  ∃ s' es, batch_loop entries s = (s', es, Ok tt) ∧ log_ok s' closed (cur ++ es) ∧
    pending s' = pending s ∧ config s' = config s ∧ length es = length entries ∧ segmentSeq s' = segmentSeq s.
Proof.
  revert s cur. induction entries as [|[now e] rest IH]; intros s cur Hok Hfit Hlt.
  - exists s, []. cbn. by rewrite app_nil_r.
  - apply Forall_cons in Hfit as [He Hrest]. pose proof (ok_nonneg _ _ _ Hok) as Hn.
    unfold zlen in Hlt. cbn [length] in Hlt. cbn [batch_loop].
    rewrite uwrap64_small by lia. cbn [entrySeq set_entrySeq].
    set (e' := mkWALEntry _ _ _ _ _ _).
    assert (He' : fits e') by (apply payload_fits_entry; [done|lia]).
    assert (Hr0 : running (set_entrySeq (entrySeq s + 1) s) closed cur)
      by by destruct Hok as [[] _ _ _]; split.
    destruct (writeEntry_running e' _ _ _ Hr0) as [s2 Hs2]. rewrite Hs2.
    destruct (log_ok_append e' s s2 closed cur Hok eq_refl He' Hs2) as (Hok2 & Hp2 & Hq2 & Hg2 & Hc2).
    set (s3 := set_stats _ s2).
    destruct (IH s3 (cur ++ [e'])) as (s' & es & -> & Hok' & Hp' & Hc' & Hl & Hg');
      [by apply (log_ok_same s2)|done|unfold zlen; cbn; lia|].
    exists s', (e' :: es). rewrite <- (app_assoc cur [e'] es) in Hok'. cbn in *.
    split_and!; [done|done|congruence|congruence|lia|congruence].
Qed.

Lemma WriteBatch_inv entries s closed cur :
  wal_inv s closed cur →
  Forall (λ te, payload_fits te.1 (Operation te.2) (Table te.2) (Data te.2)) entries →
  entrySeq s + zlen entries < 2 ^ 64 →
  ∃ es, (WriteBatch entries s).2 = Ok tt ∧ length es = length entries ∧
    pending (WriteBatch entries s).1 = pending s ++ es ∧
    wal_inv (WriteBatch entries s).1 closed (cur ++ es) ∧
    segmentSeq (WriteBatch entries s).1 = segmentSeq s.
Proof.
  intros [Hok Hp Hm] Hfit Hlt. unfold WriteBatch.
  destruct (batch_loop_inv entries s closed cur Hok Hfit Hlt) as (s' & es & -> & Hok' & Hp' & Hc' & Hl & Hg').
  exists es. cbn. rewrite Hp'. split_and!; [done..| |done]. split.
  - by apply (log_ok_same s').
  - rewrite app_assoc. by apply (pending_snoc s).
  - cbn. by rewrite Hc'.
Qed.

Lemma sync_inv now s closed cur : wal_inv s closed cur → wal_inv (sync now s) closed cur.
Proof.
  intros [[Hr Hs Hb Hn] Hp Hm]. destruct (running_sync _ _ _ now Hr) as [Hr' _].
  assert (E : entrySeq (sync now s) = entrySeq s ∧ pending (sync now s) = pending s ∧
    config (sync now s) = config s).
  { unfold sync. destruct (writer s) as [w|]; [|done]. by destruct (buf_flush _ _). }
  destruct E as (E1 & E2 & E3).
  split; [split|..]; rewrite ?E1, ?E2, ?E3; done.
Qed.

Lemma sequence_stored (l : list WALEntry) : Sequence <$> (stored <$> l) = Sequence <$> l.
Proof. induction l as [|e l IH]; [done|]. cbn. by rewrite IH. Qed.

Lemma stored_idem (l : list WALEntry) : stored <$> (stored <$> l) = stored <$> l.
Proof. induction l as [|e l IH]; [done|]. cbn. by rewrite IH. Qed.

(** The log read backwards: a suffix of the sequence-sorted log ends in its
    largest sequence number. *)
Lemma pending_le_last s closed cur l :
  wal_inv s closed cur → last (pending s) = Some l →
  Forall (λ e, Sequence e ≤ Sequence l) (pending s).
Proof.
  intros [[_ Hs _ _] [pre Hpre] _] Hl.
  assert (Hseq : Sequence <$> log_entries closed ++ cur =
    (Sequence <$> pre) ++ (Sequence <$> pending s)).
  { pose proof (f_equal (λ es : list WALEntry, Sequence <$> es) Hpre) as E.
    cbn beta in E. rewrite sequence_stored in E. rewrite E, fmap_app, sequence_stored. done. }
  rewrite Hseq in Hs. apply StronglySorted_app_1_r in Hs.
  apply last_Some in Hl as [p' Hp']. rewrite Hp' in Hs |- *. rewrite fmap_app in Hs. cbn in Hs.
  apply Forall_app. split; [|repeat constructor; lia].
  apply Forall_forall. intros e He.
  assert (Sequence e < Sequence l); [|lia].
  eapply (StronglySorted_app_1_elem_of _ _ [Sequence l]); [exact Hs| |by apply list_elem_of_singleton].
  apply list_elem_of_fmap. by exists e.
Qed.

Lemma log_entries_drop n closed : ∃ pre, log_entries closed = pre ++ log_entries (drop n closed).
Proof.
  exists (log_entries (take n closed)). unfold log_entries.
  by rewrite <- concat_app, <- fmap_app, take_drop.
Qed.

(** The part of a sorted list after a number is at its end. *)
Lemma filter_suffix n (l : list WALEntry) :
  StronglySorted Z.lt (Sequence <$> l) → ∃ pre, l = pre ++ filter (λ e, (n <? Sequence e) = true) l.
Proof.
  induction l as [|e l IH]; [by exists []|]. rewrite fmap_cons. intros Hs. apply StronglySorted_inv in Hs as [Hs Hlt].
  destruct (IH Hs) as [pre Hpre]. rewrite filter_cons. case_decide as Hn; [|exists (e :: pre); cbn; by f_equal].
  exists []. cbn. f_equal. symmetry. apply list_filter_all. intros x Hx. rewrite Forall_forall in Hlt.
  specialize (Hlt (Sequence x) (list_elem_of_fmap_2 _ _ _ Hx)). lia.
Qed.
Lemma pending_sorted s closed cur : wal_inv s closed cur → StronglySorted Z.lt (Sequence <$> pending s).
Proof.
  intros [[_ Hs _ _] [pre Hpre] _]. rewrite <- sequence_stored, Hpre, fmap_app, sequence_stored in Hs.
  by eapply StronglySorted_app_1_r.
Qed.
Lemma log_le_last s closed cur l :
  wal_inv s closed cur → last (pending s) = Some l → Forall (λ e, Sequence e ≤ Sequence l) (log_entries closed ++ cur).
Proof.
  intros [[_ Hs _ _] [pre Hpre] _] Hl. apply last_Some in Hl as [p' Hp']. rewrite Hp', (fmap_app stored p' [l]), app_assoc in Hpre.
  assert (E : Sequence <$> log_entries closed ++ cur = (Sequence <$> pre ++ (stored <$> p')) ++ [Sequence l]).
  { rewrite <- sequence_stored, Hpre. by rewrite fmap_app. }
  rewrite E in Hs. apply (Forall_seq_bound _ (λ n, n ≤ Sequence l)). rewrite E. apply Forall_app. split; [|by repeat constructor].
  apply Forall_forall. intros x Hx. apply Z.lt_le_incl.
  eapply (StronglySorted_app_1_elem_of _ _ [Sequence l]); [exact Hs|done|by apply list_elem_of_singleton].
Qed.

(** A checkpoint under way: the segments that were closed when it took its copy hold nothing after
    it; and once the copy is dropped, nothing of it is pending. *)
Record copy_ok (s : WAL) (closed : seglog) (c : copy) : Prop := {
  co_last : ∃ l, last (cp_entries c) = Some l ∧ Sequence l ≤ entrySeq s ∧
    (∀ seg, seg ∈ closed → seg.1 < cp_segment c → Forall (λ e, Sequence e ≤ Sequence l) seg.2) ∧
    (cp_dropped c = true → Forall (λ e, Sequence l < Sequence e) (pending s));
  co_segment : cp_segment c ≤ segmentSeq s;
}.
Definition run_inv (st : WAL * list copy) : Prop :=
  ∃ closed cur, wal_inv st.1 closed cur ∧ Forall (copy_ok st.1 closed) st.2.

(** What appending entries and opening a segment leave of it. *)
Lemma copy_ok_grow s s' closed closed' es c :
  copy_ok s closed c → pending s' = pending s ++ es → Forall (λ e, entrySeq s < Sequence e) es → entrySeq s ≤ entrySeq s' →
  (closed' = closed ∧ segmentSeq s' = segmentSeq s ∨
   (∃ ens, closed' = closed ++ [(segmentSeq s, ens)]) ∧ segmentSeq s' = segmentSeq s + 1) →
  copy_ok s' closed' c.
Proof.
  intros [(l & Hl & Hle & Hc & Hd) Hg] Hp Hes Hq Hcl. split; [|by destruct Hcl as [[_ ->]|[_ ->]]; lia].
  exists l. split_and!; [done|lia| |].
  - intros seg Hin Hlt. destruct Hcl as [[-> _]|[[ens ->] _]]; [by apply Hc|].
    apply elem_of_app in Hin as [Hin| ->%list_elem_of_singleton]; [by apply Hc|cbn in Hlt; lia].
  - intros Hdr. rewrite Hp. apply Forall_app. split; [by apply Hd|].
    eapply Forall_impl; [exact Hes|]. intros e He. cbn in *. lia.
Qed.
(** What fewer pending entries and fewer segments leave of it. *)
Lemma copy_ok_shrink s s' closed closed' c :
  copy_ok s closed c → (∀ e, e ∈ pending s' → e ∈ pending s) → (∀ seg, seg ∈ closed' → seg ∈ closed) →
  entrySeq s' = entrySeq s → segmentSeq s' = segmentSeq s → copy_ok s' closed' c.
Proof.
  intros [(l & Hl & Hle & Hc & Hd) Hg] Hp Hcl Hq Hs. split; [|by rewrite Hs]. exists l. split_and!; [done|by rewrite Hq|auto|].
  intros Hdr. apply Forall_forall. intros e He. specialize (Hd Hdr). rewrite Forall_forall in Hd. by apply Hd, Hp.
Qed.

Lemma drop_inv es s closed cur : wal_inv s closed cur → wal_inv (checkpoint_drop es s) closed cur.
Proof.
  intros Hinv. pose proof (pending_sorted _ _ _ Hinv) as Hs. destruct Hinv as [Hok [pre Hpre] Hm].
  unfold checkpoint_drop. destruct (last es) as [l|]; [|by split; [|exists pre|]].
  destruct (filter_suffix (Sequence l) (pending s) Hs) as [pre' Hpre'].
  split; [by apply (log_ok_same s)| |done]. exists (pre ++ (stored <$> pre')). cbn [pending set_pending].
  rewrite <- app_assoc, <- fmap_app, <- Hpre'. done.
Qed.

(** The clean-up of a checkpoint keeps what is pending: the segments that it deletes were closed
    when the copy was taken. *)
Lemma clean_inv now s closed cur es g :
  wal_inv s closed cur → copy_ok s closed (mkCopy es g true) → segmentSeq s - g < MaxSegments (config s) →
  ∃ n, wal_inv (checkpoint_clean now s) (drop n closed) cur ∧ pending (checkpoint_clean now s) = pending s ∧
    entrySeq (checkpoint_clean now s) = entrySeq s ∧ segmentSeq (checkpoint_clean now s) = segmentSeq s.
Proof.
  intros [[Hr Hs Hb Hn] [pre Hpre] Hm] [(l & Hl & Hle & Hc & Hd) Hg] Hlt. cbn in Hc, Hd, Hg.
  unfold checkpoint_clean. set (s1 := set_stats _ s).
  assert (Hr1 : running s1 closed cur) by by destruct Hr; split.
  destruct (running_clean s1 closed cur Hr1 Hm) as (n & Hr' & Hp' & Hq' & Hg' & Hc' & Hroom).
  exists n. rewrite Hp', Hq', Hg'. split_and!; [|done..].
  assert (Hdead : Forall (λ e, Sequence e ≤ Sequence l) (log_entries (take n closed))).
  { apply Forall_forall. intros e (ens & Hens & He)%list_elem_of_In%in_concat.
    apply list_elem_of_In, list_elem_of_fmap in Hens as (seg & -> & Hseg). rewrite Forall_forall in Hroom.
    specialize (Hroom seg Hseg). cbn in Hroom.
    assert (Hin : seg ∈ closed) by (rewrite <- (take_drop n closed); apply elem_of_app; by left).
    specialize (Hc seg Hin ltac:(lia)). rewrite Forall_forall in Hc. by apply Hc, list_elem_of_In. }
  assert (Hlog : log_entries closed = log_entries (take n closed) ++ log_entries (drop n closed)).
  { unfold log_entries. by rewrite <- concat_app, <- fmap_app, take_drop. }
  split; [split|..].
  - done.
  - rewrite Hlog, <- app_assoc, fmap_app in Hs. by eapply StronglySorted_app_1_r.
  - rewrite Hq'. rewrite Hlog, <- app_assoc in Hb. by apply Forall_app in Hb as [_ Hb].
  - by rewrite Hq'.
  - rewrite Hp'. rewrite Hlog, <- app_assoc, fmap_app in Hpre.
    apply app_eq_inv in Hpre as [(k & Hk1 & Hk2)|(k & Hk1 & Hk2)]; [|by exists k].
    destruct k as [|e k]; [exists []; symmetry; exact Hk2|]. exfalso.
    assert (He : e ∈ stored <$> log_entries (take n closed)) by (rewrite Hk1; set_solver).
    assert (He' : e ∈ stored <$> pending s) by (change (pending s1) with (pending s) in Hk2; rewrite Hk2; set_solver).
    apply list_elem_of_fmap in He as (e1 & -> & He). apply list_elem_of_fmap in He' as (e2 & E & He').
    rewrite Forall_forall in Hdead. specialize (Hdead e1 He). specialize (Hd eq_refl).
    rewrite Forall_forall in Hd. specialize (Hd e2 He').
    assert (Sequence e1 = Sequence e2) by (change (Sequence (stored e1) = Sequence (stored e2)); by rewrite E). lia.
  - by rewrite Hc'.
Qed.

(** Every step preserves the invariant. *)
Lemma wal_step_inv st st' : wal_step st st' → run_inv st → run_inv st'.
Proof.
  intros Hstep (closed & cur & Hinv & Hcs). pose proof (ok_nonneg _ _ _ (inv_ok _ _ _ Hinv)) as Hn0. unfold run_inv.
  destruct Hstep as [now op table data s cs Hf Hq Hg|entries s cs Hf Hq|now s cs|s cs Hne|c s cs1 cs2|es g s cs1 cs2|now es g s cs1 cs2 Hlt];
    cbn [fst snd] in *.
  - destruct (Write_inv now op table data s closed cur Hinv Hf Hq Hg) as (Hok & c' & u' & Hi' & _ & Hcl).
    destruct (Write_pending now op table data s Hn0 Hq) as [Hp Hqq]; [by rewrite Hok|].
    exists c', u'. split; [done|]. eapply Forall_impl; [exact Hcs|]. intros c Hc.
    eapply copy_ok_grow; [exact Hc|exact Hp| |rewrite Hqq; lia|exact Hcl].
    constructor; [|constructor]. unfold write_entry. cbn. rewrite uwrap64_small by lia. lia.
  - destruct (WriteBatch_inv entries s closed cur Hinv Hf Hq) as (es & Hok & Hl & Hp & Hi' & Hg').
    exists closed, (cur ++ es). split; [done|]. eapply Forall_impl; [exact Hcs|]. intros c Hc.
    assert (Hb : entrySeq (WriteBatch entries s).1 = entrySeq s + zlen entries ∧
      Sequence <$> es = seqZ (entrySeq s + 1) (zlen entries)).
    { revert Hok Hp. unfold WriteBatch. pose proof (batch_loop_keeps entries s Hn0 Hq) as Hk.
      destruct (batch_loop entries s) as [[s' es'] r]. cbn in Hk. destruct r as [[]|m|m]; [|done..]. cbn. intros _ Hp.
      destruct (Hk eq_refl) as (Ep & Eq & Es). rewrite Ep in Hp. apply app_inv_head in Hp as <-. done. }
    destruct Hb as [Hb1 Hb2]. pose proof (zlen_nonneg entries).
    eapply (copy_ok_grow s _ closed _ es); [exact Hc|done| |lia|by left].
    apply (Forall_seq_bound _ (λ n, entrySeq s < n)). rewrite Hb2. apply Forall_forall. intros n Hn%elem_of_seqZ. lia.
  - exists closed, cur. split; [by apply sync_inv|]. eapply Forall_impl; [exact Hcs|]. intros c Hc.
    destruct (sync_keeps now s) as [E1 E2].
    assert (E3 : segmentSeq (sync now s) = segmentSeq s) by (unfold sync; destruct (writer s); [by destruct (buf_flush _ _)|done]).
    eapply copy_ok_shrink; [exact Hc|by rewrite E1|done|done|done].
  - exists closed, cur. split; [done|]. constructor; [|done]. split; [|cbn; lia]. cbn [cp_entries cp_segment cp_dropped].
    destruct (last (pending s)) as [l|] eqn:El; [|by apply last_None in El]. exists l.
    pose proof (log_le_last _ _ _ _ Hinv El) as Hle. split_and!; [done| | |done].
    + destruct Hinv as [[_ _ Hb _] [pre Hpre] _]. apply last_Some in El as [p' Ep].
      assert (Hin : stored l ∈ stored <$> log_entries closed ++ cur) by (rewrite Hpre, Ep, (fmap_app stored p' [l]); cbn; set_solver).
      apply list_elem_of_fmap in Hin as (x & E & Hx). rewrite Forall_forall in Hb. specialize (Hb x Hx). cbn in Hb.
      assert (Sequence l = Sequence x) by (change (Sequence (stored l) = Sequence (stored x)); by rewrite E). lia.
    + intros seg Hseg _. apply Forall_forall. intros e He. apply Forall_app in Hle as [Hle _]. rewrite Forall_forall in Hle.
      apply Hle. unfold log_entries. apply list_elem_of_In, in_concat. exists seg.2.
      split; apply list_elem_of_In; [by apply list_elem_of_fmap_2|done].
  - exists closed, cur. split; [done|]. apply Forall_app in Hcs as [H1 [_ H2]%Forall_cons]. by apply Forall_app.
  - exists closed, cur. split; [by apply drop_inv|].
    assert (Hshrink : ∀ c, copy_ok s closed c → copy_ok (checkpoint_drop es s) closed c).
    { intros c Hc. unfold checkpoint_drop. destruct (last es); [|done]. eapply copy_ok_shrink; [exact Hc| |done..].
      cbn. intros e [_ He]%list_elem_of_filter. done. }
    apply Forall_app in Hcs as [H1 [Hc H2]%Forall_cons]. apply Forall_app. split; [by eapply Forall_impl|].
    constructor; [|by eapply Forall_impl]. apply Hshrink in Hc as [(l & Hl & Hle & Hcl & _) Hg]. split; [|done].
    exists l. cbn in *. split_and!; [done..|]. intros _. unfold checkpoint_drop. rewrite Hl. cbn.
    apply Forall_forall. intros e [He _]%list_elem_of_filter. lia.
  - apply Forall_app in Hcs as [H1 [Hc H2]%Forall_cons].
    destruct (clean_inv now s closed cur es g Hinv Hc Hlt) as (n & Hi & Hp & Hq & Hs).
    exists (drop n closed), cur. split; [done|].
    assert (Hshrink : ∀ c, copy_ok s closed c → copy_ok (checkpoint_clean now s) (drop n closed) c).
    { intros c' Hc'. eapply copy_ok_shrink; [exact Hc'|by rewrite Hp| |done|done].
      intros seg Hseg. rewrite <- (take_drop n closed). apply elem_of_app. by right. }
    apply Forall_app. split; by eapply Forall_impl.
Qed.

(** *** Opening a directory *)

Lemma max_id_cons x l : max_id (x :: l) = Z.max x.1 (max_id l).
Proof. done. Qed.

Lemma max_id_ge l : 0 ≤ max_id l ∧ Forall (λ i, i ≤ max_id l) l.*1.
Proof.
  induction l as [|x l [IH1 IH2]]; [split; [done|constructor]|].
  rewrite max_id_cons. split; [lia|]. cbn. constructor; [lia|].
  eapply Forall_impl; [exact IH2|]. intros i Hi. cbn in Hi. lia.
Qed.

Lemma max_id_le l b : 0 ≤ b → Forall (λ i, i ≤ b) l.*1 → max_id l ≤ b.
Proof.
  intros Hb. induction l as [|x l IH]; [done|]. rewrite max_id_cons. cbn.
  intros [H1 H2]%Forall_cons. specialize (IH H2). lia.
Qed.

Lemma max_sequence_cons e es : max_sequence (e :: es) = Z.max (Sequence e) (max_sequence es).
Proof. done. Qed.

Lemma max_sequence_ge es : Forall (λ e, Sequence e ≤ max_sequence es) es.
Proof.
  induction es as [|e es IH]; [constructor|]. rewrite max_sequence_cons. constructor; [lia|].
  eapply Forall_impl; [exact IH|]. intros x Hx. cbn in Hx. lia.
Qed.

(** [NewWAL] on a well-formed directory replays the whole log and continues
    after it in a fresh segment. *)
Lemma NewWAL_holds c d l :
  holds d l → StronglySorted Z.lt (Sequence <$> log_entries l) →
  max_id l + 1 < 10 ^ 16 → 0 ≤ MaxSegments c →
  ∃ s, NewWAL c d = Ok s ∧ wal_inv s l [] ∧ pending s = stored <$> log_entries l ∧
    segmentSeq s = max_id l + 1 ∧ entrySeq s = max_sequence (log_entries l).
Proof.
  intros Hh Hs Hm Hmax. unfold NewWAL. set (s0 := mkWAL _ d _ _ _ _ _).
  rewrite (recover_holds l s0) by done. cbn [res_bind].
  destruct (max_id_ge l) as [Hid Hids].
  destruct (running_open (recovered l s0) l) as [Hr Hseq].
  { exact Hh. }
  { eapply Forall_impl; [exact Hids|]. intros x Hx. cbn in *. lia. }
  { cbn. lia. }
  { cbn. lia. }
  pose proof (max_sequence_nonneg (log_entries l)) as Hn.
  eexists. split; [done|]. rewrite Hseq. cbn. split_and!; [|done|lia|lia].
  split; [split|..]; rewrite ?app_nil_r.
  - exact Hr.
  - done.
  - eapply Forall_impl; [apply max_sequence_ge|]. intros x Hx. cbn in *. lia.
  - cbn. lia.
  - exists []. cbn. by rewrite stored_idem.
  - cbn. unfold or_default. case_match; lia.
Qed.

(** *** Crashes *)

(** What a crash can leave: every file as the operating system has it, but of
    the current segment only a prefix of what was written to it, buffered or
    not. *)
Record crash_image (s : WAL) (d : gmap string bytes) : Prop := {
  crash_others n : (∀ w, writer s = Some w → n ≠ wr_file w) → d !! n = dir s !! n;
  crash_current w f : writer s = Some w → flushed s !! wr_file w = Some f →
    ∃ p, d !! wr_file w = Some p ∧ p `prefix_of` f;
}.

Lemma flushed_other s n :
  (∀ w, writer s = Some w → n ≠ wr_file w) → flushed s !! n = dir s !! n.
Proof.
  unfold flushed. destruct (writer s) as [w|]; [|done]. intros H. unfold append_file.
  rewrite lookup_alter_ne; [done|]. specialize (H w eq_refl). congruence.
Qed.

(** A crash image is the log cut after some record. *)
Lemma crash_holds s d closed cur :
  running s closed cur → Forall fits cur → crash_image s d →
  ∃ k p, d !! segment_name (segmentSeq s) = Some p ∧
    holds d (closed ++ [(segmentSeq s, take k cur)]) ∧
    p `prefix_of` log_bytes cur ∧ (k ≤ length cur)%nat ∧
    ∀ j, (j ≤ length cur)%nat → zlen (log_bytes (take j cur)) ≤ zlen p ↔ (j ≤ k)%nat.
Proof.
  intros [Hh Hx [buf Hw]] Hfit [Ho Hc].
  destruct (Hc _ _ Hw Hx) as (p & Hp & Hpre). cbn [wr_file] in Hp.
  destruct (log_prefix_iff cur p Hfit Hpre) as (k & t & Hk & -> & Hinc & Hmax).
  exists k. eexists. split; [exact Hp|]. split; [|by split_and!].
  apply (holds_update (flushed s) d closed _ cur (take k cur) t); [done| |done|done|by apply Forall_take].
  intros n Hn. assert (Hnw : ∀ w, writer s = Some w → n ≠ wr_file w).
  { intros w Hw'. rewrite Hw in Hw'. by injection Hw' as <-. }
  rewrite (flushed_other _ _ Hnw). by apply Ho.
Qed.

Lemma running_fits s closed cur : running s closed cur → Forall fits cur.
Proof.
  intros [[_ _ _ Hf] _ _]. apply Forall_app in Hf as [_ Hf]. apply Forall_cons in Hf as [[Hf _] _].
  exact Hf.
Qed.

(** The log a crash image is reopened with. *)
Lemma reopen_crash c s d closed cur :
  wal_inv s closed cur → crash_image s d → segmentSeq s + 1 < 10 ^ 16 → 0 ≤ MaxSegments c →
  ∃ s' k p, NewWAL c d = Ok s' ∧ d !! segment_name (segmentSeq s) = Some p ∧
    wal_inv s' (closed ++ [(segmentSeq s, take k cur)]) [] ∧
    pending s' = stored <$> log_entries closed ++ take k cur ∧
    p `prefix_of` log_bytes cur ∧ (k ≤ length cur)%nat ∧
    ∀ j, (j ≤ length cur)%nat → zlen (log_bytes (take j cur)) ≤ zlen p ↔ (j ≤ k)%nat.
Proof.
  intros [[Hr Hs _ _] _ _] Hci Hseg Hmax.
  destruct (crash_holds s d closed cur Hr (running_fits _ _ _ Hr) Hci) as (k & p & Hp & Hh & Hpre & Hk & Hj).
  destruct (NewWAL_holds c d (closed ++ [(segmentSeq s, take k cur)]) Hh) as (s' & Hs' & Hi' & Hp' & _).
  - rewrite log_entries_snoc. rewrite <- (take_drop k cur), app_assoc, fmap_app in Hs.
    by eapply StronglySorted_app_1_l.
  - destruct (running_ids _ _ _ Hr) as [Hrg Hids]. unfold seg_range in Hrg.
    apply Z.le_lt_trans with (segmentSeq s + 1); [|done].
    enough (max_id (closed ++ [(segmentSeq s, take k cur)]) ≤ segmentSeq s) by lia.
    apply max_id_le; [lia|]. by rewrite fmap_app in Hids |- *.
  - done.
  - exists s', k, p. rewrite log_entries_snoc in Hp'. split_and!; done.
Qed.

(** Everything reachable from an empty directory through operations, checkpoints, crashes and
    restarts; a restart loses the checkpoints that were under way. *)
Inductive run_reachable : WAL * list copy → Prop :=
| reach_new c s : 0 ≤ MaxSegments c → NewWAL c ∅ = Ok s → run_reachable (s, [])
| reach_step st st' : run_reachable st → wal_step st st' → run_reachable st'
| reach_restart s cs d c s' :
    run_reachable (s, cs) → crash_image s d → segmentSeq s + 1 < 10 ^ 16 → 0 ≤ MaxSegments c →
    NewWAL c d = Ok s' → run_reachable (s', []).
Definition wal_reachable (s : WAL) : Prop := ∃ cs, run_reachable (s, cs).

Lemma run_reachable_inv st : run_reachable st → run_inv st.
Proof.
  induction 1 as [c s Hm Hs|st st' _ IH Hst|s cs d c s' _ IH Hci Hseg Hm Hs'].
  - destruct (NewWAL_holds c ∅ []) as (s1 & H1 & Hi & _); [|constructor|done|done|].
    + split; cbn; [constructor|constructor| |constructor].
      intros n. rewrite lookup_empty. split; [intros [[? ?] _]; done|set_solver].
    + rewrite Hs in H1. injection H1 as ->. exists [], []. split; [done|constructor].
  - by eapply wal_step_inv.
  - destruct IH as (closed & cur & Hi & _).
    destruct (reopen_crash c s d closed cur Hi Hci Hseg Hm) as (s1 & k & p & H1 & _ & Hi' & _).
    rewrite Hs' in H1. injection H1 as ->. eexists _, _. split; [exact Hi'|constructor].
Qed.
Lemma reachable_inv s : wal_reachable s → ∃ closed cur, wal_inv s closed cur.
Proof. intros [cs (closed & cur & H & _)%run_reachable_inv]. by exists closed, cur. Qed.

Lemma sync_crash_image now s closed cur :
  running s closed cur → crash_image s (dir (sync now s)).
Proof.
  intros Hr. destruct (running_sync _ _ _ now Hr) as [_ ->]. split.
  - intros n. apply flushed_other.
  - intros w f _ Hf. by exists f.
Qed.

(** *** Checkpoints interleaved with writers

    [checkpoint] copies the pending entries under the lock, runs the callback
    without it, and takes the lock again to drop what it copied.  A session
    tracks, beside the log, the copy in flight, what the callback has applied
    and every entry the callers were told is written. *)
Record session := mkSession {
  wal : WAL;
  inflight : option (list WALEntry);
  applied : list WALEntry;
  history : list WALEntry;
}.

Definition start_session (s : WAL) : session := mkSession s None [] (pending s).

Inductive session_step : session → session → Prop :=
| ss_write now op table data s f a h :
    entrySeq s + 1 < 2 ^ 64 → is_ok (Write now op table data s).2 = true →
    session_step (mkSession s f a h)
      (mkSession (Write now op table data s).1 f a (h ++ [write_entry now op table data s]))
| ss_batch entries s f a h :
    entrySeq s + zlen entries < 2 ^ 64 → is_ok (WriteBatch entries s).2 = true →
    session_step (mkSession s f a h)
      (mkSession (WriteBatch entries s).1 f a (h ++ (batch_loop entries s).1.2))
| ss_sync now s f a h : session_step (mkSession s f a h) (mkSession (sync now s) f a h)
| ss_begin s a h :
    pending s ≠ [] →
    session_step (mkSession s None a h) (mkSession s (Some (pending s)) a h)
| ss_apply now es s a h :
    session_step (mkSession s (Some es) a h)
      (mkSession (checkpoint_finish now es s) None (a ++ es) h)
| ss_callback_fails es s a h :
    session_step (mkSession s (Some es) a h) (mkSession s None a h).

Record session_inv (t : session) : Prop := {
  si_history : applied t ++ pending (wal t) = history t;
  si_sorted : StronglySorted Z.lt (Sequence <$> pending (wal t));
  si_bound : Forall (λ e, Sequence e ≤ entrySeq (wal t)) (pending (wal t));
  si_nonneg : 0 ≤ entrySeq (wal t);
  si_inflight es : inflight t = Some es → ∃ tl, pending (wal t) = es ++ tl;
}.

(** Dropping what a checkpoint copied drops exactly that. *)
Lemma filter_after_last (es tl : list WALEntry) l :
  StronglySorted Z.lt (Sequence <$> es ++ tl) → last es = Some l →
  filter (λ e, (Sequence l <? Sequence e) = true) (es ++ tl) = tl.
Proof.
  intros Hs [es' ->]%last_Some. rewrite fmap_app in Hs.
  pose proof Hs as Hs2. rewrite fmap_app in Hs2. apply StronglySorted_app_1_l in Hs2.
  rewrite filter_app.
  assert (filter (λ e, (Sequence l <? Sequence e) = true) (es' ++ [l]) = []) as ->.
  { apply elem_of_nil_inv. intros e [Hlt [Hin| ->%list_elem_of_singleton]%elem_of_app]%list_elem_of_filter; [|lia].
    assert (Sequence e < Sequence l); [|lia].
    eapply (StronglySorted_app_1_elem_of _ _ [Sequence l]); [exact Hs2| |by apply list_elem_of_singleton].
    apply list_elem_of_fmap. by exists e. }
  apply list_filter_all. intros e He. apply Z.ltb_lt.
  eapply (StronglySorted_app_1_elem_of _ _ (Sequence <$> tl)); [exact Hs| |].
  - apply list_elem_of_fmap. exists l. split; [done|]. set_solver.
  - apply list_elem_of_fmap. by exists e.
Qed.

Lemma checkpoint_finish_pending now es tl s :
  es ≠ [] → pending s = es ++ tl → StronglySorted Z.lt (Sequence <$> pending s) →
  pending (checkpoint_finish now es s) = tl ∧ entrySeq (checkpoint_finish now es s) = entrySeq s.
Proof.
  intros Hne Hp Hs. destruct (last es) as [l|] eqn:El; [|by apply last_None in El].
  assert (checkpoint_finish now es s = checkpoint_clean now (checkpoint_drop es s)) as -> by by destruct es.
  unfold checkpoint_clean, checkpoint_drop. rewrite El, Hp. rewrite Hp in Hs. rewrite (filter_after_last es tl l) by done.
  destruct (cleanOldSegments_keeps (set_stats (count_checkpoint now (stats (set_pending tl s))) (set_pending tl s)))
    as [-> ->]. done.
Qed.

Lemma sorted_app_bound (l l' : list WALEntry) b :
  StronglySorted Z.lt (Sequence <$> l) → Forall (λ e, Sequence e ≤ b) l →
  Forall (λ n, b < n) (Sequence <$> l') → StronglySorted Z.lt (Sequence <$> l') →
  StronglySorted Z.lt (Sequence <$> l ++ l').
Proof.
  intros Hs Hb Hl Hs'. rewrite fmap_app. apply StronglySorted_app. split_and!; [|done..].
  intros x y Hx Hy. rewrite Forall_forall in Hl. rewrite Forall_forall in Hb. apply Hl in Hy.
  apply list_elem_of_fmap in Hx as (e & -> & He). apply Hb in He. lia.
Qed.

Lemma seqZ_sorted m n : StronglySorted Z.lt (seqZ m n) .
Proof.
  destruct (Z_lt_le_dec n 0) as [H|H]; [rewrite seqZ_nil by lia; constructor|].
  revert m. apply natlike_ind with (x := n); [intros; rewrite seqZ_nil by lia; constructor| |done].
  intros k Hk IH m. rewrite seqZ_cons by lia. replace (Z.pred (Z.succ k)) with k by lia.
  constructor; [apply IH|]. apply Forall_forall. intros x Hx%elem_of_seqZ. lia.
Qed.

(** Appending entries numbered from the next sequence number. *)
Lemma session_inv_append s s' f a h es :
  session_inv (mkSession s f a h) → pending s' = pending s ++ es →
  entrySeq s' = entrySeq s + zlen es → Sequence <$> es = seqZ (entrySeq s + 1) (zlen es) →
  session_inv (mkSession s' f a (h ++ es)).
Proof.
  intros [Hh Hs Hb Hn Hf] Hp Hq Hes. cbn in *. pose proof (zlen_nonneg es) as Hz.
  split; cbn; rewrite ?Hp, ?Hq.
  - by rewrite app_assoc, Hh.
  - apply (sorted_app_bound _ _ (entrySeq s)); [done..| |]; rewrite Hes; [|apply seqZ_sorted].
    apply Forall_forall. intros x Hx%elem_of_seqZ. lia.
  - apply Forall_app. split.
    + eapply Forall_impl; [exact Hb|]. intros x Hx. cbn in Hx. lia.
    + apply (Forall_seq_bound es (λ n, n ≤ entrySeq s + zlen es)). rewrite Hes.
      apply Forall_forall. intros x Hx%elem_of_seqZ. lia.
  - lia.
  - intros es' H. destruct (Hf es' H) as [tl ->]. exists (tl ++ es). by rewrite app_assoc.
Qed.

Lemma session_inv_same s s' f a h :
  session_inv (mkSession s f a h) → pending s' = pending s → entrySeq s' = entrySeq s →
  session_inv (mkSession s' f a h).
Proof. intros [????] Ep Eq. split; cbn in *; rewrite ?Ep, ?Eq; done. Qed.

Lemma session_step_inv t t' : session_step t t' → session_inv t → session_inv t'.
Proof.
  intros Hst Hinv. destruct Hst.
  - destruct (Write_pending now op table data s) as [Hp Hq]; [apply Hinv|done..|].
    apply (session_inv_append s); [done|done|done|].
    rewrite seqZ_cons, seqZ_nil by (unfold zlen; cbn; lia). unfold write_entry. cbn.
    rewrite uwrap64_small; [done|]. pose proof (si_nonneg _ Hinv). cbn in *. lia.
  - unfold WriteBatch in *. pose proof (batch_loop_keeps entries s (si_nonneg _ Hinv) H) as Hk.
    destruct (batch_loop entries s) as [[s' es] r]. cbn [fst snd] in *.
    destruct r as [[]|m|m]; [|done..]. destruct Hk as (Hp & Hq & Hes); [done|]. cbn [fst snd].
    assert (Hl : zlen es = zlen entries).
    { pose proof (f_equal length Hes) as Hl. rewrite length_fmap, length_seqZ in Hl.
      unfold zlen in *. lia. }
    apply (session_inv_append s); cbn; [done|by rewrite Hp|by rewrite Hl|by rewrite Hl].
  - destruct (sync_keeps now s). by apply (session_inv_same s).
  - destruct Hinv as [?????]. split; cbn in *; [done..|]. intros es [= <-]. exists []. by rewrite app_nil_r.
  - destruct Hinv as [Hh Hs Hb Hn Hf]. cbn in *. destruct (Hf es eq_refl) as [tl Hp].
    destruct es as [|e es]; [by split; cbn; rewrite ?app_nil_r|].
    destruct (checkpoint_finish_pending now (e :: es) tl s) as [Ep Eq]; [done..|].
    split; cbn [wal inflight applied history]; rewrite ?Ep, ?Eq; [|..|done].
    + by rewrite <- Hh, Hp, <- app_assoc.
    + rewrite Hp, fmap_app in Hs. by eapply StronglySorted_app_1_r.
    + rewrite Hp in Hb. by apply Forall_app in Hb as [_ Hb].
    + done.
  - destruct Hinv as [?????]. by split.
Qed.

Lemma reachable_session s : wal_reachable s → session_inv (start_session s).
Proof.
  intros (closed & cur & [[_ Hs Hb Hn] [pre Hpre] _])%reachable_inv.
  assert (Hseq : Sequence <$> log_entries closed ++ cur = (Sequence <$> pre) ++ (Sequence <$> pending s)).
  { rewrite <- (sequence_stored (_ ++ _)), Hpre, fmap_app, sequence_stored. done. }
  assert (Hb' : Forall (λ n, n ≤ entrySeq s) (Sequence <$> log_entries closed ++ cur))
    by by rewrite Forall_fmap.
  split; cbn; [done| | |done|done].
  - rewrite Hseq in Hs. by eapply StronglySorted_app_1_r.
  - rewrite Hseq in Hb'. apply Forall_app in Hb' as [_ Hb']. by apply Forall_seq_bound in Hb'.
Qed.

(** What reopening yields is well formed: numbered upwards, with the counter
    past every replayed entry. *)
Lemma wal_inv_numbering s closed cur :
  wal_inv s closed cur → pending s = stored <$> log_entries closed ++ cur →
  StronglySorted Z.lt (Sequence <$> pending s) ∧ Forall (λ e, Sequence e ≤ entrySeq s) (pending s).
Proof.
  intros [[_ Hs Hb _] _ _] ->. rewrite sequence_stored. split; [done|].
  apply (Forall_seq_bound _ (λ n, n ≤ entrySeq s)). rewrite sequence_stored. by rewrite Forall_fmap.
Qed.

(** ** Properties *)

(** C4: the record format round-trips through the buffered writer: whatever the
    state of the buffer, the bytes [writeEntry] adds to a segment are one
    record that [readEntry] decodes to the same entry, leaving the bytes that
    follow it untouched. *)
Theorem record_roundtrip e s w f s' rest :
  fits e → writer s = Some w → dir s !! wr_file w = Some f → writeEntry e s = Ok s' →
  ∃ record, flushed s' !! wr_file w = Some ((f ++ wr_buf w) ++ record) ∧
    readEntry (record ++ rest) = Ok (stored e, rest).
Proof.
  intros Hf Hw Hd Hs'. destruct (writeEntry_wrote e s w Hw) as (d' & w' & Heq & [HF HC _]).
  rewrite Heq in Hs'. injection Hs' as <-. destruct (HC f Hd) as (f' & Hf' & E & _).
  exists (encode e). split; [|by apply readEntry_encode].
  unfold flushed. cbn. unfold append_file. rewrite HF, lookup_alter_eq, Hf'. cbn.
  by rewrite E, app_assoc.
Qed.

(** C7: reading a segment torn at any byte (a prefix of the records written to
    it) succeeds and yields exactly the entries whose records are complete, with
    the largest of their sequence numbers; no error or panic. *)
Theorem torn_segment_reads_complete_records es p :
  Forall fits es → p `prefix_of` log_bytes es →
  ∃ k, readSegment p = Ok (stored <$> take k es, max_sequence (take k es)) ∧
    (k ≤ length es)%nat ∧
    ∀ j, (j ≤ length es)%nat → zlen (log_bytes (take j es)) ≤ zlen p ↔ (j ≤ k)%nat.
Proof.
  intros Hf Hp. destruct (log_prefix_iff es p Hf Hp) as (k & t & Hk & -> & Ht & Hmax).
  exists k. split_and!; [|done|exact Hmax]. apply readSegment_log; [by apply Forall_take|done].
Qed.

(** C5: durability.  From every state that a log in an empty directory reaches through writes,
    batches, syncs, rotations, crashes, restarts and checkpoints, a sync followed by a restart reopens the log with every pending entry
    pending again, in order and with its payload; replayed entries precede them, all are numbered
    upwards and the sequence counter is past them.  Checkpoints are not one step: each copies the
    pending entries, then its callback runs beside the writers and beside other checkpoints, and it
    fails, or the copy is dropped and, in a step of its own, old segments are deleted.  Provided:
    records fit the format (sequence numbers below 2^64, segments below 10^16), and fewer than
    MaxSegments segments are begun between a checkpoint's copy and its clean-up
    (cleanup_deletes_unapplied_segments shows entries lost when more are). *)
Theorem synced_entries_survive_restart s now c :
  wal_reachable s → segmentSeq s + 1 < 10 ^ 16 → 0 ≤ MaxSegments c →
  ∃ s' replayed, NewWAL c (dir (sync now s)) = Ok s' ∧
    pending s' = replayed ++ (stored <$> pending s) ∧
    StronglySorted Z.lt (Sequence <$> pending s') ∧
    Forall (λ e, Sequence e ≤ entrySeq s') (pending s').
Proof.
  intros (closed & cur & Hi)%reachable_inv Hseg Hmax.
  pose proof (ok_run _ _ _ (inv_ok _ _ _ Hi)) as Hr.
  pose proof (sync_crash_image now _ _ _ Hr) as Hci.
  destruct (reopen_crash c s _ closed cur Hi Hci Hseg Hmax)
    as (s' & k & p & Hs' & Hp & Hi' & Hpend & Hpre & Hk & Hj).
  assert (k = length cur) as ->.
  { apply Nat.le_antisymm; [done|]. apply Hj; [done|]. rewrite firstn_all.
    destruct (running_sync _ _ _ now Hr) as [_ Ed]. rewrite Ed, (run_exact _ _ _ Hr) in Hp.
    by injection Hp as ->. }
  rewrite firstn_all in Hpend. destruct (inv_pending _ _ _ Hi) as [pre Hpre'].
  exists s', pre. split_and!; [done|by rewrite Hpend, Hpre'|..];
    eapply (wal_inv_numbering s'); try exact Hi';
    rewrite log_entries_snoc, app_nil_r, firstn_all; done.
Qed.

(** C6: a crash in any reachable state ([wal_reachable]: from an empty directory, between two steps,
    checkpoints under way included), leaving any prefix of the bytes written to the current segment,
    is recovered without error, and what it loses is a suffix of the log.  What a restart after a
    sync finds pending (the entries pending at the crash, in order, after entries replayed) is what
    the restart after the crash finds, followed by the lost entries; and nothing is lost that the
    crash left whole: the records of the lost entries are the last bytes written, and the first of
    them is not complete in what was left.  The limits are those of the format: records that fit,
    segments below 10^16, fewer than MaxSegments of them begun during a checkpoint. *)
Theorem crash_loses_only_a_suffix s now c d :
  wal_reachable s → crash_image s d → segmentSeq s + 1 < 10 ^ 16 → 0 ≤ MaxSegments c →
  ∃ s1 s2 replayed lost,
    NewWAL c d = Ok s1 ∧ NewWAL c (dir (sync now s)) = Ok s2 ∧
    pending s2 = replayed ++ (stored <$> pending s) ∧
    pending s2 = pending s1 ++ (stored <$> lost) ∧
    ∀ w f p, writer s = Some w → flushed s !! wr_file w = Some f → d !! wr_file w = Some p →
      ∃ kept, f = kept ++ log_bytes lost ∧ zlen kept ≤ zlen p ∧
        match lost with [] => True | e :: _ => zlen p < zlen (kept ++ encode e) end.
Proof.
  intros (closed & cur & Hi)%reachable_inv Hd Hseg Hmax. pose proof (ok_run _ _ _ (inv_ok _ _ _ Hi)) as Hr.
  destruct (reopen_crash c s d closed cur Hi Hd Hseg Hmax)
    as (s1 & k & p & Hs1 & Hp1 & _ & Hpend1 & _ & Hk & Hj).
  destruct (reopen_crash c s _ closed cur Hi (sync_crash_image now _ _ _ Hr) Hseg Hmax)
    as (s2 & k2 & p2 & Hs2 & Hp2 & _ & Hpend2 & _ & Hk2 & Hj2).
  assert (k2 = length cur) as ->.
  { apply Nat.le_antisymm; [done|]. apply Hj2; [done|]. rewrite firstn_all.
    destruct (running_sync _ _ _ now Hr) as [_ Ed]. rewrite Ed, (run_exact _ _ _ Hr) in Hp2. by injection Hp2 as ->. }
  rewrite firstn_all in Hpend2. destruct (inv_pending _ _ _ Hi) as [pre Hpre].
  exists s1, s2, pre, (drop k cur). split_and!; [done|done|by rewrite Hpend2, Hpre| |].
  - rewrite Hpend1, Hpend2, <- fmap_app, <- app_assoc, take_drop. done.
  - intros w f p' Hw Hf Hp'. destruct (run_writer _ _ _ Hr) as [buf Hw']. rewrite Hw in Hw'. injection Hw' as ->.
    cbn [wr_file] in *. rewrite Hp1 in Hp'. injection Hp' as <-. rewrite (run_exact _ _ _ Hr) in Hf. injection Hf as <-.
    exists (log_bytes (take k cur)). split_and!; [by rewrite <- log_bytes_app, take_drop|by apply Hj|].
    destruct (drop k cur) as [|e rest] eqn:Ed; [done|].
    assert (Hlt : (k < length cur)%nat).
    { apply (f_equal length) in Ed. rewrite length_drop in Ed. cbn in Ed. lia. }
    assert (Et : take (S k) cur = take k cur ++ [e]).
    { apply take_S_r. pose proof (lookup_drop cur k 0) as E. rewrite Ed, Nat.add_0_r in E. by symmetry. }
    assert (Hn : ¬ zlen (log_bytes (take (S k) cur)) ≤ zlen p) by (intros H; apply Hj in H; lia).
    rewrite Et, log_bytes_app in Hn. unfold log_bytes at 2 in Hn. cbn in Hn. rewrite app_nil_r in Hn. lia.
Qed.

(** C8: checkpoints interleaved with writers neither lose nor duplicate nor
    reorder an entry: along every run in which one checkpoint at a time copies
    the pending entries, applies them and drops them while writes, batches and
    syncs go on, what the callback applied followed by what is still pending is
    exactly what was pending at the start followed by what was written. *)
Theorem checkpoints_apply_exactly_once s t :
  wal_reachable s → rtc session_step (start_session s) t → applied t ++ pending (wal t) = history t.
Proof.
  intros Hs%reachable_session Hsteps. enough (session_inv t) as H by apply H.
  induction Hsteps; eauto using session_step_inv.
Qed.

(** ** Concrete runs *)

Definition blank : WAL :=
  mkWAL demo_config ∅ None 0 0 [] (mkWALStats 0 0 0 0 0 zero_time zero_time 0 0).
Definition opened (c : WALConfig) (d : gmap string bytes) : WAL :=
  match NewWAL c d with Ok s => s | _ => blank end.

Definition hello : bytes := list_byte_of_string "hello".
Definition demo0 : WAL := opened demo_config ∅.
Definition demo1 : WAL := (Write 5 WALOpInsert "t" hello demo0).1.
Definition demo2 : WAL := (Write 6 WALOpUpdate "users" [] (sync 5 demo1)).1.

Lemma demo2_reachable : wal_reachable demo2.
Proof.
  exists []. apply (reach_step (sync 5 demo1, [])); [|apply step_write; [|vm_compute; reflexivity..]].
  - apply (reach_step (demo1, [])); [|apply step_sync].
    apply (reach_step (demo0, [])); [|apply step_write; [|vm_compute; reflexivity..]].
    + apply (reach_new demo_config); [by vm_compute|]. vm_compute. reflexivity.
    + repeat split; vm_compute; congruence.
  - repeat split; vm_compute; congruence.
Qed.

Definition demo_entry : WALEntry := mkWALEntry 7 2 "t" hello 5 true.

Lemma demo_entry_fits : fits demo_entry.
Proof. split; vm_compute; repeat split; congruence. Qed.

Lemma record_roundtrip_witness :
  ∃ s' record,
    writeEntry demo_entry demo1 = Ok s' ∧
    flushed s' !! segment_name 1 = Some (log_bytes [mkWALEntry 1 1 "t" hello 5 false] ++ record) ∧
    readEntry (record ++ hello) = Ok (stored demo_entry, hello).
Proof.
  destruct (record_roundtrip demo_entry demo1
    (mkWriter (segment_name 1) (log_bytes [mkWALEntry 1 1 "t" hello 5 false])) []
    (match writeEntry demo_entry demo1 with Ok s => s | _ => blank end) hello)
    as (record & H1 & H2); [exact demo_entry_fits|vm_compute; reflexivity..|].
  eexists _, record. split; [vm_compute; reflexivity|]. split; [exact H1|exact H2].
Defined.

Lemma torn_segment_reads_complete_records_witness :
  ∃ k, readSegment (take 60 (log_bytes [demo_entry; demo_entry; demo_entry])) =
    Ok (stored <$> take k [demo_entry; demo_entry; demo_entry],
        max_sequence (take k [demo_entry; demo_entry; demo_entry])).
Proof.
  destruct (torn_segment_reads_complete_records [demo_entry; demo_entry; demo_entry]
    (take 60 (log_bytes [demo_entry; demo_entry; demo_entry]))) as (k & H & _).
  - repeat constructor; apply demo_entry_fits.
  - exists (drop 60 (log_bytes [demo_entry; demo_entry; demo_entry])). by rewrite take_drop.
  - exists k. exact H.
Defined.

Lemma synced_entries_survive_restart_witness :
  length (pending demo2) = 2%nat ∧
  ∃ s' replayed, NewWAL demo_config (dir (sync 9 demo2)) = Ok s' ∧
    pending s' = replayed ++ (stored <$> pending demo2).
Proof.
  split; [vm_compute; reflexivity|].
  destruct (synced_entries_survive_restart demo2 9 demo_config demo2_reachable)
    as (s' & replayed & H1 & H2 & _); [vm_compute; reflexivity|vm_compute; congruence|].
  exists s', replayed. split; [exact H1|exact H2].
Defined.

(** The second record of [demo2] is torn after 10 bytes, or lost whole. *)
Definition demo_crash (n : nat) : gmap string bytes :=
  <[segment_name 1 := log_bytes [mkWALEntry 1 1 "t" hello 5 false] ++
      take n (log_bytes [mkWALEntry 2 2 "users" [] 6 false])]> (dir demo2).

Lemma demo2_writer :
  writer demo2 = Some (mkWriter (segment_name 1) (log_bytes [mkWALEntry 2 2 "users" [] 6 false])).
Proof. vm_compute. reflexivity. Qed.

Lemma demo2_flushed :
  flushed demo2 !! segment_name 1 =
  Some (log_bytes [mkWALEntry 1 1 "t" hello 5 false; mkWALEntry 2 2 "users" [] 6 false]).
Proof. vm_compute. reflexivity. Qed.

Lemma demo_crash_current n :
  demo_crash n !! segment_name 1 =
  Some (log_bytes [mkWALEntry 1 1 "t" hello 5 false] ++
        take n (log_bytes [mkWALEntry 2 2 "users" [] 6 false])).
Proof. unfold demo_crash. apply lookup_insert_eq. Qed.

Lemma demo_crash_image n : crash_image demo2 (demo_crash n).
Proof.
  split.
  - intros f Hf. specialize (Hf _ demo2_writer). unfold demo_crash.
    by rewrite lookup_insert_ne by (intros E; apply Hf; cbn; congruence).
  - intros w f Hw Hf. rewrite demo2_writer in Hw. injection Hw as <-. cbn [wr_file] in *.
    rewrite demo2_flushed in Hf. injection Hf as <-.
    eexists. split; [unfold demo_crash; apply lookup_insert_eq|].
    exists (drop n (log_bytes [mkWALEntry 2 2 "users" [] 6 false])).
    by rewrite <- app_assoc, take_drop, <- log_bytes_app.
Qed.

Lemma crash_loses_only_a_suffix_witness :
  (Sequence <$> pending (opened demo_config (demo_crash 10))) = [1] ∧ (Sequence <$> pending demo2) = [1; 2] ∧
  ∃ s1 s2 replayed lost, NewWAL demo_config (demo_crash 10) = Ok s1 ∧
    NewWAL demo_config (dir (sync 9 demo2)) = Ok s2 ∧
    pending s2 = replayed ++ (stored <$> pending demo2) ∧ pending s2 = pending s1 ++ (stored <$> lost).
Proof.
  split; [vm_compute; reflexivity|]. split; [vm_compute; reflexivity|].
  destruct (crash_loses_only_a_suffix demo2 9 demo_config (demo_crash 10) demo2_reachable (demo_crash_image 10))
    as (s1 & s2 & r & lost & H1 & H2 & H3 & H4 & _); [vm_compute; reflexivity|vm_compute; congruence|].
  exists s1, s2, r, lost. split; [exact H1|]. split; [exact H2|]. split; [exact H3|exact H4].
Defined.

(** A write between the copy and the drop of a checkpoint. *)
Definition demo3 : WAL := (Write 8 WALOpDelete "t" [] demo2).1.

Lemma checkpoints_apply_exactly_once_witness :
  ∃ t, rtc session_step (start_session demo2) t ∧
    length (applied t) = 2%nat ∧ length (pending (wal t)) = 1%nat ∧
    applied t ++ pending (wal t) = history t.
Proof.
  set (t := mkSession (checkpoint_finish 9 (pending demo2) demo3) None ([] ++ pending demo2)
    (pending demo2 ++ [write_entry 8 WALOpDelete "t" [] demo2])).
  assert (H : rtc session_step (start_session demo2) t).
  { eapply rtc_l; [apply ss_begin; vm_compute; congruence|].
    eapply rtc_l; [apply (ss_write 8 WALOpDelete "t" []); vm_compute; reflexivity|].
    eapply rtc_l; [apply (ss_apply 9)|].
    match goal with |- rtc _ ?s ?t => replace t with s by (vm_compute; reflexivity) end. apply rtc_refl. }
  exists t. split; [exact H|]. split; [vm_compute; reflexivity|]. split; [vm_compute; reflexivity|].
  exact (checkpoints_apply_exactly_once demo2 t demo2_reachable H).
Defined.

(** ** What the model shows beyond the properties *)

(** A record whose length field is below 4 (a zero-filled tail, as a file
    system may leave after a crash) makes recovery panic: [length-4] wraps
    around and slices past the end. *)
Lemma short_length_panics es n tail :
  Forall fits es → 0 ≤ n < 4 → n ≤ zlen tail →
  is_panic (readSegment (log_bytes es ++ put_le 4 n ++ tail)) = true.
Proof.
  intros Hes Hn Ht. unfold readSegment.
  assert (Hgo : ∀ fuel, (length es < fuel)%nat →
    is_panic (read_entries fuel (log_bytes es ++ put_le 4 n ++ tail)) = true).
  { induction Hes as [|e es He Hes IH]; intros [|fuel] Hf; simpl in Hf; try lia.
    - cbn [read_entries]. change (log_bytes [] ++ put_le 4 n ++ tail) with (put_le 4 n ++ tail).
      unfold readEntry. rewrite read_full_app by by rewrite zlen_put_le. cbn [res_bind].
      rewrite get_put_le by (cbn; lia). unfold read_full.
      replace (n <=? zlen tail) with true by lia. cbn [res_bind].
      rewrite slice_out; [done|]. right. unfold uwrap32.
      replace ((n - 4) mod 2 ^ 32) with (n - 4 + 2 ^ 32)
        by (rewrite <- (Z_mod_plus_full _ 1), Z.mod_small; lia).
      unfold zlen. rewrite length_take. lia.
    - cbn [read_entries]. change (log_bytes (e :: es)) with (encode e ++ log_bytes es).
      rewrite <- app_assoc, readEntry_encode by done.
      specialize (IH fuel ltac:(lia)). by destruct (read_entries _ _). }
  specialize (Hgo (S (length (log_bytes es ++ put_le 4 n ++ tail)))).
  destruct (read_entries _ _); cbn in *; [|..|done];
    (rewrite length_app in Hgo; pose proof (length_log_bytes es); apply Hgo; lia).
Qed.

(** Checkpointed entries stay in the segments and no record carries a
    committed mark, so a restart replays them. *)
Lemma checkpointed_entries_replayed :
  let s := (checkpoint (λ _, true) 9 demo2).1 in
  pending s = [] ∧ length (pending (opened demo_config (dir (sync 9 s)))) = 2%nat.
Proof. vm_compute. split; reflexivity. Qed.

(** A batch torn by a crash is recovered in part. *)
Lemma torn_batch_recovered_in_part :
  let e := mkWALEntry 0 1 "t" hello 0 false in
  let s := sync 9 (WriteBatch [(5, e); (5, e)] demo0).1 in
  length (pending s) = 2%nat ∧
  length (pending (opened demo_config (alter (λ f, take 60 f) (segment_name 1) (dir s)))) = 1%nat.
Proof. vm_compute. split; reflexivity. Qed.

(** The cleanup after a checkpoint counts segments, not sequence numbers: with
    writers active while the callback ran it deletes segments whose entries were
    never applied, and a restart no longer finds them. *)
Definition tiny_config : WALConfig := mkWALConfig "d" 1 0 1 0.
Definition write_synced (s : WAL) : WAL := sync 5 (Write 5 WALOpInsert "t" hello s).1.

Lemma cleanup_deletes_unapplied_segments :
  let s1 := write_synced (opened tiny_config ∅) in
  let s2 := write_synced (write_synced (write_synced s1)) in
  let s3 := checkpoint_finish 9 (pending s1) s2 in
  Sequence <$> pending s3 = [2; 3; 4] ∧
  Sequence <$> pending (opened tiny_config (dir (sync 9 s3))) = [].
Proof. vm_compute. split; reflexivity. Qed.

(** [ForceCheckpoint] can run while the periodic checkpoint is in its callback:
    both copy the same entries and apply them twice. *)
Lemma overlapping_checkpoints_apply_twice :
  let copy1 := pending demo2 in
  let copy2 := pending demo2 in
  let s := checkpoint_finish 9 copy2 (checkpoint_finish 9 copy1 demo2) in
  copy1 ≠ [] ∧ pending s = [] ∧ (copy1 ++ copy2) ++ pending s ≠ pending demo2.
Proof. split_and!; vm_compute; congruence. Qed.
