(* ===== verification/Federation.v ===== *)
(** internal/federation: the replicated state of a dogwatch cluster.

    [SharedState] (state.go) is a Record of stdpp maps; every method is a
    function on it.  The callbacks [onNodeChange] and [onIncidentChange] are
    modelled by the list of their invocations, which a method returns next to
    the new state.  Ranging over a Go map visits its entries in an unspecified
    order: the order is an argument, a permutation of the map's entries.
    [Cluster.handleMessage] (cluster.go) dispatches a gossip message; the JSON
    coding of payloads and the member list are parameters.  Each method is one
    step, also [AddIncident], which lets go of the lock of the tombstones
    before it takes that of the incidents; a payload with null for an entry,
    which would be a nil pointer, is not modelled. *)

From stdpp Require Import base option list gmap strings.
From S2P Require Import Prelude Float64 Lww.

(** ** Data (messages.go) *)

Inductive MessageType : Type :=
| MessageTypeNodeState
| MessageTypeIncident
| MessageTypeIncidentUpdate
| MessageTypeSyncRequest
| MessageTypeSyncResponse
| MessageTypeOnCallChange
| MessageTypeMetricsSummary.

#[export] Instance MessageType_eq_dec : EqDecision MessageType.
Proof. solve_decision. Defined.

Record NodeState := mkNodeState {
  ns_NodeID : string;
  ns_Timestamp : Time;
  ns_CPUPercent : float64;
  ns_MemPercent : float64;
  ns_DiskPercent : float64;
  ns_LoadAverage : float64;
  ns_ActiveIncidents : Z;
  ns_TotalRequests : Z;
  ns_ErrorRate : float64;
  ns_Uptime : Z;
  ns_Version : string;
}.

Record IncidentEvent := mkIncidentEvent {
  inc_ID : string;
  inc_Title : string;
  inc_Description : string;
  inc_Severity : string;
  inc_Status : string;
  inc_Service : string;
  inc_Source : string;
  inc_SourceID : string;
  inc_NodeID : string;
  inc_CreatedAt : Time;
  inc_UpdatedAt : Time;
  inc_AckedAt : option Time;
  inc_ResolvedAt : option Time;
  inc_AckedBy : string;
  inc_ResolvedBy : string;
  inc_Resolution : string;
  inc_Labels : gmap string string;
}.

Record IncidentUpdate := mkIncidentUpdate {
  upd_IncidentID : string;
  upd_Status : string;
  upd_User : string;
  upd_NodeID : string;
  upd_Timestamp : Time;
  upd_Resolution : string;
}.

Record OnCallChange := mkOnCallChange {
  oc_ScheduleID : string;
  oc_ScheduleName : string;
  oc_CurrentUser : string;
  oc_NextUser : string;
  oc_RotationTime : Time;
  oc_NodeID : string;
  oc_Timestamp : Time;
}.

Record MetricsSummary := mkMetricsSummary {
  ms_NodeID : string;
  ms_Timestamp : Time;
  ms_HTTPRequests : Z;
  ms_HTTPErrors : Z;
  ms_AvgLatencyMs : float64;
  ms_P95LatencyMs : float64;
  ms_P99LatencyMs : float64;
  ms_ActiveConnections : Z;
  ms_NewConnections : Z;
  ms_ContainerCount : Z;
  ms_ContainerCPU : float64;
  ms_ContainerMemory : Z;
}.

Record FullState := mkFullState {
  fs_NodeID : string;
  fs_Timestamp : Time;
  fs_NodeStates : gmap string NodeState;
  fs_Incidents : gmap string IncidentEvent;
  fs_OnCall : gmap string OnCallChange;
}.

#[export] Instance NodeState_stamped : Stamped NodeState := ns_Timestamp.
#[export] Instance IncidentEvent_stamped : Stamped IncidentEvent := inc_UpdatedAt.
#[export] Instance OnCallChange_stamped : Stamped OnCallChange := oc_Timestamp.

(** ** State (state.go) *)

Record SharedState := mkSharedState {
  localNodeID : string;
  nodeStates : gmap string NodeState;
  incidents : gmap string IncidentEvent;
  onCall : gmap string OnCallChange;
  metrics : gmap string (list MetricsSummary);
  onIncidentChange : bool;   (** is a callback installed? *)
  onNodeChange : bool;
  tombstones : gmap string Time;
}.

(** One invocation of an installed callback. *)
Inductive Callback : Type :=
| CbIncident (inc : IncidentEvent)
| CbNode (state : NodeState).

Definition set_nodeStates (m : gmap string NodeState) (s : SharedState) : SharedState :=
  mkSharedState (localNodeID s) m (incidents s) (onCall s) (metrics s)
    (onIncidentChange s) (onNodeChange s) (tombstones s).
Definition set_incidents (m : gmap string IncidentEvent) (s : SharedState) : SharedState :=
  mkSharedState (localNodeID s) (nodeStates s) m (onCall s) (metrics s)
    (onIncidentChange s) (onNodeChange s) (tombstones s).
Definition set_onCall (m : gmap string OnCallChange) (s : SharedState) : SharedState :=
  mkSharedState (localNodeID s) (nodeStates s) (incidents s) m (metrics s)
    (onIncidentChange s) (onNodeChange s) (tombstones s).
Definition set_metrics (m : gmap string (list MetricsSummary)) (s : SharedState) : SharedState :=
  mkSharedState (localNodeID s) (nodeStates s) (incidents s) (onCall s) m
    (onIncidentChange s) (onNodeChange s) (tombstones s).
Definition set_tombstones (m : gmap string Time) (s : SharedState) : SharedState :=
  mkSharedState (localNodeID s) (nodeStates s) (incidents s) (onCall s) (metrics s)
    (onIncidentChange s) (onNodeChange s) m.

Definition NewSharedState (local : string) : SharedState :=
  mkSharedState local ∅ ∅ ∅ ∅ false false ∅.

Definition SetOnIncidentChange (installed : bool) (s : SharedState) : SharedState :=
  mkSharedState (localNodeID s) (nodeStates s) (incidents s) (onCall s) (metrics s)
    installed (onNodeChange s) (tombstones s).

Definition SetOnNodeChange (installed : bool) (s : SharedState) : SharedState :=
  mkSharedState (localNodeID s) (nodeStates s) (incidents s) (onCall s) (metrics s)
    (onIncidentChange s) installed (tombstones s).

Definition UpdateLocalNode (now : Time) (cpu mem : float64) (incs requests : Z)
    (errorRate : float64) (s : SharedState) : SharedState :=
  let state := mkNodeState (localNodeID s) now cpu mem f64_zero f64_zero
                 incs requests errorRate 0 "" in
  set_nodeStates (<[localNodeID s := state]> (nodeStates s)) s.

Definition GetLocalState (s : SharedState) : option NodeState :=
  nodeStates s !! localNodeID s.

Definition GetNodeState (nodeID : string) (s : SharedState) : option NodeState :=
  nodeStates s !! nodeID.

Definition GetAllNodeStates (s : SharedState) : gmap string NodeState := nodeStates s.

Definition MergeNodeState (nodeID : string) (state : NodeState) (s : SharedState)
    : SharedState * list Callback :=
  if newer (nodeStates s !! nodeID) state then
    (set_nodeStates (<[nodeID := state]> (nodeStates s)) s,
     if onNodeChange s then [CbNode state] else [])
  else (s, []).

Definition RemoveNode (nodeID : string) (s : SharedState) : SharedState :=
  set_metrics (delete nodeID (metrics s))
    (set_nodeStates (delete nodeID (nodeStates s)) s).

Definition AddIncident (inc : IncidentEvent) (s : SharedState)
    : SharedState * list Callback :=
  match tombstones s !! inc_ID inc with
  | Some _ => (s, [])
  | None =>
      if newer (incidents s !! inc_ID inc) inc then
        (set_incidents (<[inc_ID inc := inc]> (incidents s)) s,
         if onIncidentChange s then [CbIncident inc] else [])
      else (s, [])
  end.

(** [inc.Status = update.Status; inc.UpdatedAt = update.Timestamp] *)
Definition with_status (inc : IncidentEvent) (status : string) (ts : Time) : IncidentEvent :=
  mkIncidentEvent (inc_ID inc) (inc_Title inc) (inc_Description inc) (inc_Severity inc)
    status (inc_Service inc) (inc_Source inc) (inc_SourceID inc) (inc_NodeID inc)
    (inc_CreatedAt inc) ts (inc_AckedAt inc) (inc_ResolvedAt inc) (inc_AckedBy inc)
    (inc_ResolvedBy inc) (inc_Resolution inc) (inc_Labels inc).

Definition with_ack (inc : IncidentEvent) (user : string) (ts : Time) : IncidentEvent :=
  mkIncidentEvent (inc_ID inc) (inc_Title inc) (inc_Description inc) (inc_Severity inc)
    (inc_Status inc) (inc_Service inc) (inc_Source inc) (inc_SourceID inc) (inc_NodeID inc)
    (inc_CreatedAt inc) (inc_UpdatedAt inc) (Some ts) (inc_ResolvedAt inc) user
    (inc_ResolvedBy inc) (inc_Resolution inc) (inc_Labels inc).

Definition with_resolution (inc : IncidentEvent) (user resolution : string) (ts : Time)
    : IncidentEvent :=
  mkIncidentEvent (inc_ID inc) (inc_Title inc) (inc_Description inc) (inc_Severity inc)
    (inc_Status inc) (inc_Service inc) (inc_Source inc) (inc_SourceID inc) (inc_NodeID inc)
    (inc_CreatedAt inc) (inc_UpdatedAt inc) (inc_AckedAt inc) (Some ts) (inc_AckedBy inc)
    user resolution (inc_Labels inc).

Definition UpdateIncident (update : IncidentUpdate) (s : SharedState)
    : SharedState * list Callback :=
  match incidents s !! upd_IncidentID update with
  | None => (s, [])
  | Some inc0 =>
      if After (upd_Timestamp update) (inc_UpdatedAt inc0) then
        let ts := upd_Timestamp update in
        let inc1 := with_status inc0 (upd_Status update) ts in
        let '(inc2, tombs) :=
          if String.eqb (upd_Status update) "acknowledged" then
            (with_ack inc1 (upd_User update) ts, tombstones s)
          else if String.eqb (upd_Status update) "resolved" then
            (with_resolution inc1 (upd_User update) (upd_Resolution update) ts,
             <[upd_IncidentID update := ts]> (tombstones s))
          else (inc1, tombstones s) in
        (set_tombstones tombs
           (set_incidents (<[upd_IncidentID update := inc2]> (incidents s)) s),
         if onIncidentChange s then [CbIncident inc2] else [])
      else (s, [])
  end.

Definition GetIncident (id : string) (s : SharedState) : option IncidentEvent :=
  incidents s !! id.

(** [inc.Status != "resolved" || recently resolved] *)
Definition listed (now : Time) (inc : IncidentEvent) : bool :=
  negb (String.eqb (inc_Status inc) "resolved") ||
  match inc_ResolvedAt inc with
  | Some r => Since now r <? 24 * Hour
  | None => false
  end.

Definition GetAllIncidents (now : Time) (order : list (string * IncidentEvent))
    : list IncidentEvent :=
  filter (λ inc, listed now inc = true) order.*2.

Definition is_active (inc : IncidentEvent) : bool :=
  String.eqb (inc_Status inc) "triggered" || String.eqb (inc_Status inc) "acknowledged".

Definition GetActiveIncidentCount (order : list (string * IncidentEvent)) : Z :=
  foldl (λ count kv, if is_active kv.2 then count + 1 else count) 0 order.

Definition UpdateOnCall (change : OnCallChange) (s : SharedState) : SharedState :=
  if newer (onCall s !! oc_ScheduleID change) change
  then set_onCall (<[oc_ScheduleID change := change]> (onCall s)) s
  else s.

Definition GetOnCall (s : SharedState) : gmap string OnCallChange := onCall s.

Definition AddMetricsSummary (summary : MetricsSummary) (s : SharedState) : SharedState :=
  let nodeMetrics := default [] (metrics s !! ms_NodeID summary) in
  let nodeMetrics :=
    if bool_decide (12 ≤ length nodeMetrics)%nat then drop 1 nodeMetrics else nodeMetrics in
  set_metrics (<[ms_NodeID summary := nodeMetrics ++ [summary]]> (metrics s)) s.

(** The loop body of [GetClusterMetrics]: the aggregate and [latencyCount]. *)
Definition add_latest (acc : MetricsSummary * Z) (nodeMetrics : list MetricsSummary)
    : MetricsSummary * Z :=
  match last nodeMetrics with
  | None => acc
  | Some l =>
      let '(a, latencyCount) := acc in
      let positive := f64_gt (ms_AvgLatencyMs l) f64_zero in
      (mkMetricsSummary (ms_NodeID a) (ms_Timestamp a)
         (wrap64 (ms_HTTPRequests a + ms_HTTPRequests l))
         (wrap64 (ms_HTTPErrors a + ms_HTTPErrors l))
         (if positive then f64_add (ms_AvgLatencyMs a) (ms_AvgLatencyMs l)
          else ms_AvgLatencyMs a)
         (if f64_gt (ms_P95LatencyMs l) (ms_P95LatencyMs a)
          then ms_P95LatencyMs l else ms_P95LatencyMs a)
         (if f64_gt (ms_P99LatencyMs l) (ms_P99LatencyMs a)
          then ms_P99LatencyMs l else ms_P99LatencyMs a)
         (wrap64 (ms_ActiveConnections a + ms_ActiveConnections l))
         (wrap64 (ms_NewConnections a + ms_NewConnections l))
         (wrap64 (ms_ContainerCount a + ms_ContainerCount l))
         (f64_add (ms_ContainerCPU a) (ms_ContainerCPU l))
         (wrap64 (ms_ContainerMemory a + ms_ContainerMemory l)),
       if positive then latencyCount + 1 else latencyCount)
  end.

Definition with_avg (avg : float64) (a : MetricsSummary) : MetricsSummary :=
  mkMetricsSummary (ms_NodeID a) (ms_Timestamp a) (ms_HTTPRequests a) (ms_HTTPErrors a)
    avg (ms_P95LatencyMs a) (ms_P99LatencyMs a) (ms_ActiveConnections a)
    (ms_NewConnections a) (ms_ContainerCount a) (ms_ContainerCPU a) (ms_ContainerMemory a).

Definition GetClusterMetrics (now : Time) (order : list (string * list MetricsSummary))
    : MetricsSummary :=
  let start := mkMetricsSummary "cluster" now 0 0 f64_zero f64_zero f64_zero
                 0 0 0 f64_zero 0 in
  let '(a, latencyCount) := foldl (λ acc kv, add_latest acc kv.2) (start, 0) order in
  if 0 <? latencyCount
  then with_avg (f64_div (ms_AvgLatencyMs a) (f64_of_Z latencyCount)) a
  else a.

Definition GetFullState (now : Time) (s : SharedState) : FullState :=
  mkFullState (localNodeID s) now (nodeStates s) (incidents s) (onCall s).

(** The three iteration orders of one [MergeFullState] call. *)
Record MergeOrder := mkMergeOrder {
  mo_nodes : list (string * NodeState);
  mo_incidents : list (string * IncidentEvent);
  mo_onCall : list (string * OnCallChange);
}.

Definition order_of (o : MergeOrder) (fs : FullState) : Prop :=
  mo_nodes o ≡ₚ map_to_list (fs_NodeStates fs) ∧
  mo_incidents o ≡ₚ map_to_list (fs_Incidents fs) ∧
  mo_onCall o ≡ₚ map_to_list (fs_OnCall fs).

(** Some order always exists; this one is used when evaluating. *)
Definition default_order (fs : FullState) : MergeOrder :=
  mkMergeOrder (map_to_list (fs_NodeStates fs)) (map_to_list (fs_Incidents fs))
    (map_to_list (fs_OnCall fs)).

(** A loop over calls that return the callbacks they made. *)
Definition for_each {X : Type} (body : X → SharedState → SharedState * list Callback)
    (xs : list X) (s : SharedState) : SharedState * list Callback :=
  foldl (λ acc x, let '(s', cbs) := body x acc.1 in (s', acc.2 ++ cbs)) (s, []) xs.

Definition MergeFullState (o : MergeOrder) (s : SharedState)
    : SharedState * list Callback :=
  let '(s1, cb1) := for_each (λ kv, MergeNodeState kv.1 kv.2) (mo_nodes o) s in
  let '(s2, cb2) := for_each (λ kv, AddIncident kv.2) (mo_incidents o) s1 in
  (foldl (λ s kv, UpdateOnCall kv.2 s) s2 (mo_onCall o), cb1 ++ cb2).

(** One tick of the hourly cleanup goroutine. *)
Definition cleanupTombstones (now : Time) (s : SharedState) : SharedState :=
  let cutoff := now - 24 * Hour in
  let s1 := set_tombstones (filter (λ kv, Before kv.2 cutoff = false) (tombstones s)) s in
  set_incidents
    (filter (λ kv,
       (String.eqb (inc_Status kv.2) "resolved" &&
        match inc_ResolvedAt kv.2 with
        | Some r => Before r cutoff
        | None => false
        end) = false) (incidents s1)) s1.

(** ** Gossip messages (cluster.go) *)

Section Cluster.
(** encoding/json: what a payload decodes to, [None] for an error. *)
Context {json : Type}.
Context (Unmarshal_NodeState : json → option NodeState).
Context (Unmarshal_IncidentEvent : json → option IncidentEvent).
Context (Unmarshal_IncidentUpdate : json → option IncidentUpdate).
Context (Unmarshal_FullState : json → option FullState).

Record Message := mkMessage {
  msg_Type : MessageType;
  msg_NodeID : string;
  msg_Timestamp : Time;
  msg_Payload : json;
}.

(** [handleMessage] returns the new state, the callbacks made, and the node
    a sync response is sent to, if any.  [pick fs] is the order in which the
    maps of a received full state are visited. *)
Definition handleMessage (pick : FullState → MergeOrder) (msg : Message) (s : SharedState)
    : SharedState * list Callback * option string :=
  match msg_Type msg with
  | MessageTypeNodeState =>
      match Unmarshal_NodeState (msg_Payload msg) with
      | Some state => (MergeNodeState (msg_NodeID msg) state s, None)
      | None => (s, [], None)
      end
  | MessageTypeIncident =>
      match Unmarshal_IncidentEvent (msg_Payload msg) with
      | Some inc => (AddIncident inc s, None)
      | None => (s, [], None)
      end
  | MessageTypeIncidentUpdate =>
      match Unmarshal_IncidentUpdate (msg_Payload msg) with
      | Some update => (UpdateIncident update s, None)
      | None => (s, [], None)
      end
  | MessageTypeSyncRequest => (s, [], Some (msg_NodeID msg))
  | MessageTypeSyncResponse =>
      match Unmarshal_FullState (msg_Payload msg) with
      | Some state => (MergeFullState (pick state) s, None)
      | None => (s, [], None)
      end
  | MessageTypeOnCallChange | MessageTypeMetricsSummary => (s, [], None)
  end.

(** The delegate's [MergeRemoteState] on push/pull. *)
Definition MergeRemoteState (pick : FullState → MergeOrder) (buf : json) (s : SharedState)
    : SharedState * list Callback :=
  match Unmarshal_FullState buf with
  | Some state => MergeFullState (pick state) s
  | None => (s, [])
  end.

Definition deliver (pick : FullState → MergeOrder) (msgs : list Message) (s : SharedState)
    : SharedState :=
  foldl (λ s m, (handleMessage pick m s).1.1) s msgs.
End Cluster.
Arguments Message json : clear implicits.

(** ** Lemmas: every merge is a pointwise last-writer-wins join *)

Lemma for_each_fst {X : Type} (body : X → SharedState → SharedState * list Callback) xs s :
  (for_each body xs s).1 = foldl (λ s x, (body x s).1) s xs.
Proof.
  unfold for_each. generalize (@nil Callback) as cbs.
  revert s. induction xs as [|x xs IH]; intros s cbs; simpl; [done|].
  destruct (body x s) as [s' cbs']. by apply IH.
Qed.

Lemma MergeNodeState_put nodeID st s :
  (MergeNodeState nodeID st s).1 =
  set_nodeStates (lww_put nodeID st (nodeStates s)) s.
Proof. unfold MergeNodeState, lww_put. case_match; [done|]. by destruct s. Qed.

Lemma UpdateOnCall_put c s :
  UpdateOnCall c s = set_onCall (lww_put (oc_ScheduleID c) c (onCall s)) s.
Proof. unfold UpdateOnCall, lww_put. case_match; [done|]. by destruct s. Qed.

Lemma AddIncident_put inc s :
  (AddIncident inc s).1 =
  match tombstones s !! inc_ID inc with
  | Some _ => s
  | None => set_incidents (lww_put (inc_ID inc) inc (incidents s)) s
  end.
Proof. unfold AddIncident, lww_put. repeat case_match; try done. by destruct s. Qed.

Lemma merge_nodes_puts kvs s :
  foldl (λ s kv, (MergeNodeState kv.1 kv.2 s).1) s kvs =
  set_nodeStates (lww_puts kvs (nodeStates s)) s.
Proof.
  revert s. induction kvs as [|[k v] kvs IH]; intros s; [by destruct s|].
  cbn [foldl fst snd]. by rewrite IH, MergeNodeState_put.
Qed.

Lemma merge_onCall_puts kvs s :
  foldl (λ s kv, UpdateOnCall kv.2 s) s kvs =
  set_onCall (lww_puts ((λ kv : string * OnCallChange, (oc_ScheduleID kv.2, kv.2)) <$> kvs)
                (onCall s)) s.
Proof.
  revert s. induction kvs as [|[k v] kvs IH]; intros s; [by destruct s|].
  cbn [foldl fst snd]. by rewrite IH, UpdateOnCall_put.
Qed.

(** The incident writes a replica accepts: those that are not tombstoned. *)
Definition accepted (tombs : gmap string Time) (kvs : list (string * IncidentEvent))
    : list (string * IncidentEvent) :=
  filter (λ kv, tombs !! kv.1 = None) ((λ kv, (inc_ID kv.2, kv.2)) <$> kvs).

Lemma merge_incidents_puts kvs s :
  foldl (λ s kv, (AddIncident kv.2 s).1) s kvs =
  set_incidents (lww_puts (accepted (tombstones s) kvs) (incidents s)) s.
Proof.
  revert s. induction kvs as [|[k v] kvs IH]; intros s; [by destruct s|].
  cbn [foldl fst snd]. rewrite IH, AddIncident_put.
  unfold accepted. cbn [fmap list_fmap]. rewrite filter_cons. simpl.
  case_match; case_decide; simplify_eq; done.
Qed.

(** The state a full merge produces, component by component. *)
Lemma MergeFullState_state o s :
  (MergeFullState o s).1 =
  mkSharedState (localNodeID s)
    (lww_puts (mo_nodes o) (nodeStates s))
    (lww_puts (accepted (tombstones s) (mo_incidents o)) (incidents s))
    (lww_puts ((λ kv, (oc_ScheduleID kv.2, kv.2)) <$> mo_onCall o) (onCall s))
    (metrics s) (onIncidentChange s) (onNodeChange s) (tombstones s).
Proof.
  unfold MergeFullState.
  destruct (for_each _ (mo_nodes o) s) as [s1 cb1] eqn:E1.
  destruct (for_each _ (mo_incidents o) s1) as [s2 cb2] eqn:E2. simpl.
  apply (f_equal fst) in E1, E2. rewrite for_each_fst in E1; rewrite for_each_fst in E2. simpl in *.
  rewrite merge_nodes_puts in E1. rewrite merge_incidents_puts in E2.
  rewrite merge_onCall_puts. subst. done.
Qed.

(** Incidents and on-call entries are stored under their own id. *)
Definition keyed (fs : FullState) : Prop :=
  (∀ k inc, fs_Incidents fs !! k = Some inc → inc_ID inc = k) ∧
  (∀ k c, fs_OnCall fs !! k = Some c → oc_ScheduleID c = k).

Definition well_keyed (s : SharedState) : Prop :=
  (∀ k inc, incidents s !! k = Some inc → inc_ID inc = k) ∧
  (∀ k c, onCall s !! k = Some c → oc_ScheduleID c = k).

Lemma GetFullState_keyed now s : well_keyed s → keyed (GetFullState now s).
Proof. done. Qed.

(** Re-keying a map whose entries know their key changes nothing. *)
Lemma rekey_perm {A : Type} (f : A → string) (kvs : list (string * A)) (m : gmap string A) :
  kvs ≡ₚ map_to_list m → (∀ k v, m !! k = Some v → f v = k) →
  (λ kv, (f kv.2, kv.2)) <$> kvs = kvs.
Proof.
  intros HP Hk. rewrite <- (list_fmap_id kvs) at 2. apply list_fmap_ext.
  intros i [k v] Hi%list_elem_of_lookup_2. simpl. f_equal. apply Hk.
  apply elem_of_map_to_list. by rewrite <- HP.
Qed.

Lemma writes_accepted tombs kvs k :
  writes k (accepted tombs kvs) =
  match tombs !! k with
  | Some _ => []
  | None => writes k ((λ kv, (inc_ID kv.2, kv.2)) <$> kvs)
  end.
Proof.
  unfold writes, accepted. generalize ((λ kv : string * IncidentEvent, (inc_ID kv.2, kv.2)) <$> kvs).
  intros l. induction l as [|[k' v] l IH]; simpl; [by case_match|].
  rewrite !filter_cons. simpl. destruct (decide (tombs !! k' = None)) as [Ht|Ht];
    destruct (decide (k' = k)) as [->|Hk]; rewrite ?filter_cons; simpl.
  - rewrite decide_True by done. rewrite Ht in *. cbn. by f_equal.
  - by rewrite decide_False.
  - rewrite IH. by destruct (tombs !! k).
  - exact IH.
Qed.

(** What [MergeFullState] promises, map by map. *)
Record merges (s : SharedState) (fs : FullState) (s' : SharedState) : Prop := {
  merged_nodes k : nodeStates s' !! k = lww_join (nodeStates s !! k) (fs_NodeStates fs !! k);
  merged_onCall k : onCall s' !! k = lww_join (onCall s !! k) (fs_OnCall fs !! k);
  merged_incidents k :
    incidents s' !! k =
    if decide (tombstones s !! k = None)
    then lww_join (incidents s !! k) (fs_Incidents fs !! k)
    else incidents s !! k;
  merged_local : localNodeID s' = localNodeID s;
  merged_metrics : metrics s' = metrics s;
  merged_tombstones : tombstones s' = tombstones s;
}.

Lemma MergeFullState_merges fs o s :
  keyed fs → order_of o fs → merges s fs (MergeFullState o s).1.
Proof.
  intros [Hki Hko] (Hn & Hi & Ho). rewrite MergeFullState_state. split; try done; intros k; simpl.
  - by apply lww_puts_map.
  - rewrite (rekey_perm oc_ScheduleID _ (fs_OnCall fs)) by done. by apply lww_puts_map.
  - rewrite lww_puts_lookup, writes_accepted.
    rewrite (rekey_perm inc_ID _ (fs_Incidents fs)) by done.
    case_match eqn:Ht; case_decide; simplify_eq; [done|].
    rewrite <- lww_puts_lookup. by apply lww_puts_map.
Qed.

(** *** Replicas only move forward *)

(** Entries of a last-writer-wins map are never dropped and never get older. *)
Definition map_advances {A : Type} `{Stamped A} (m m' : gmap string A) : Prop :=
  ∀ k v, m !! k = Some v → ∃ v', m' !! k = Some v' ∧ stamp v ≤ stamp v'.

#[export] Instance map_advances_preorder {A : Type} `{Stamped A} : PreOrder (@map_advances A _).
Proof.
  split.
  - intros m k v Hv. exists v. split; [done|lia].
  - intros m1 m2 m3 H12 H23 k v (v2 & H2 & ?)%H12.
    apply H23 in H2 as (v3 & H3 & ?). exists v3. split; [done|lia].
Qed.

Record advances (s s' : SharedState) : Prop := {
  adv_nodes : map_advances (nodeStates s) (nodeStates s');
  adv_incidents : map_advances (incidents s) (incidents s');
  adv_onCall : map_advances (onCall s) (onCall s');
  adv_tombstones : dom (tombstones s) ⊆ dom (tombstones s');
}.

#[export] Instance advances_preorder : PreOrder advances.
Proof.
  split.
  - intros s. split; reflexivity.
  - intros s1 s2 s3 [????] [????]. split; etrans; eauto.
Qed.

Lemma lww_put_advances {A : Type} `{Stamped A} k (v : A) m : map_advances m (lww_put k v m).
Proof.
  intros i x Hx. rewrite lww_put_lookup. case_decide; [|exists x; split; [done|lia]].
  rewrite Hx. destruct (lww_join (Some x) (Some v)) as [w|] eqn:E.
  - exists w. split; [done|]. apply lww_join_stamp in E as [_ ?]. auto.
  - simpl in E. by case_match.
Qed.

Lemma lww_puts_advances {A : Type} `{Stamped A} (kvs : list (string * A)) m :
  map_advances m (lww_puts kvs m).
Proof.
  revert m. induction kvs as [|[k v] kvs IH]; intros m; [reflexivity|].
  etrans; [apply lww_put_advances|apply IH].
Qed.

#[export] Hint Resolve lww_put_advances lww_puts_advances : dogwatch.

Lemma MergeFullState_advances o s : advances s (MergeFullState o s).1.
Proof. rewrite MergeFullState_state. split; simpl; auto with dogwatch; reflexivity. Qed.

Lemma MergeNodeState_advances k v s : advances s (MergeNodeState k v s).1.
Proof. rewrite MergeNodeState_put. split; simpl; auto with dogwatch; reflexivity. Qed.

Lemma AddIncident_advances inc s : advances s (AddIncident inc s).1.
Proof.
  rewrite AddIncident_put. case_match; [reflexivity|].
  split; simpl; auto with dogwatch; reflexivity.
Qed.

(** The branches of [UpdateIncident], as one equation on the maps. *)
Lemma UpdateIncident_cases u s :
  (UpdateIncident u s).1 = s ∨
  ∃ inc0 inc2 tombs,
    incidents s !! upd_IncidentID u = Some inc0 ∧
    inc_UpdatedAt inc0 < inc_UpdatedAt inc2 ∧
    inc_ID inc2 = inc_ID inc0 ∧ inc_Status inc2 = upd_Status u ∧
    inc_UpdatedAt inc2 = upd_Timestamp u ∧
    (tombs = tombstones s ∨ tombs = <[upd_IncidentID u := upd_Timestamp u]> (tombstones s)) ∧
    (upd_Status u = "resolved" → is_Some (tombs !! upd_IncidentID u)) ∧
    (UpdateIncident u s).1 =
      set_tombstones tombs (set_incidents (<[upd_IncidentID u := inc2]> (incidents s)) s).
Proof.
  unfold UpdateIncident. destruct (incidents s !! upd_IncidentID u) as [inc0|]; [|by left].
  destruct (After (upd_Timestamp u) (inc_UpdatedAt inc0)) eqn:HA; [|by left].
  unfold After in HA. apply Z.ltb_lt in HA. right.
  destruct (String.eqb_spec (upd_Status u) "acknowledged") as [E1|E1].
  - eexists _, _, _. split_and!; [..|reflexivity]; [done..|by left|by rewrite E1].
  - destruct (String.eqb_spec (upd_Status u) "resolved") as [E2|E2].
    + eexists _, _, _. split_and!; [..|reflexivity]; [done..|by right|by simplify_map_eq].
    + eexists _, _, _. split_and!; [..|reflexivity]; [done..|by left|done].
Qed.

Lemma UpdateIncident_advances u s : advances s (UpdateIncident u s).1.
Proof.
  destruct (UpdateIncident_cases u s) as [->|(i0 & i2 & t & H0 & Hlt & _ & _ & _ & Ht & _ & ->)];
    [reflexivity|].
  split; simpl; try reflexivity.
  - intros k v Hv. destruct (decide (upd_IncidentID u = k)) as [<-|]; simplify_map_eq.
    + exists i2. split; [done|]. unfold stamp, IncidentEvent_stamped. lia.
    + exists v. split; [done|lia].
  - destruct Ht as [->| ->]; set_solver.
Qed.

#[export] Hint Resolve MergeFullState_advances MergeNodeState_advances AddIncident_advances
  UpdateIncident_advances : dogwatch.

Section Gossip.
Context {json : Type}.
Context (uN : json → option NodeState) (uI : json → option IncidentEvent).
Context (uU : json → option IncidentUpdate) (uF : json → option FullState).
Implicit Types (m : Message json) (msgs : list (Message json)).

(** The node states a message carries, in the order they are merged. *)
Definition node_writes (pick : FullState → MergeOrder) (m : Message json)
    : list (string * NodeState) :=
  match msg_Type m with
  | MessageTypeNodeState => option_list ((λ st, (msg_NodeID m, st)) <$> uN (msg_Payload m))
  | MessageTypeSyncResponse => from_option (λ fs, mo_nodes (pick fs)) [] (uF (msg_Payload m))
  | _ => []
  end.

Lemma handleMessage_advances pick m s :
  advances s (handleMessage uN uI uU uF pick m s).1.1.
Proof.
  unfold handleMessage.
  repeat case_match; simpl; auto with dogwatch; reflexivity.
Qed.

Lemma deliver_advances pick msgs s : advances s (deliver uN uI uU uF pick msgs s).
Proof.
  revert s. induction msgs as [|m msgs IH]; intros s; [reflexivity|].
  etrans; [apply handleMessage_advances|apply IH].
Qed.

Lemma handleMessage_nodes pick m s :
  nodeStates (handleMessage uN uI uU uF pick m s).1.1 =
  lww_puts (node_writes pick m) (nodeStates s).
Proof.
  unfold handleMessage, node_writes. case_match; simpl; try done.
  - case_match; simpl; [|done]. by rewrite MergeNodeState_put.
  - case_match; simpl; [|done]. rewrite AddIncident_put. by case_match.
  - case_match; simpl; [|done].
    destruct (UpdateIncident_cases i s) as [->|(?&?&?&?&?&?&?&?&?&?&->)]; done.
  - case_match; simpl; [|done]. by rewrite MergeFullState_state.
Qed.

Lemma deliver_nodes pick msgs s :
  nodeStates (deliver uN uI uU uF pick msgs s) =
  lww_puts (msgs ≫= node_writes pick) (nodeStates s).
Proof.
  revert s. induction msgs as [|m msgs IH]; intros s; [done|].
  change (deliver uN uI uU uF pick (m :: msgs) s)
    with (deliver uN uI uU uF pick msgs (handleMessage uN uI uU uF pick m s).1.1).
  rewrite IH, handleMessage_nodes. unfold lww_puts. cbn. by rewrite foldl_app.
Qed.

(** Does the message carry a status update for this incident? *)
Definition updates (id : string) (m : Message json) : bool :=
  match msg_Type m with
  | MessageTypeIncidentUpdate =>
      from_option (λ u, String.eqb (upd_IncidentID u) id) false (uU (msg_Payload m))
  | _ => false
  end.

Lemma handleMessage_tombstoned pick m s id t :
  tombstones s !! id = Some t →
  updates id m = false ∨ incidents s !! id = None →
  incidents (handleMessage uN uI uU uF pick m s).1.1 !! id = incidents s !! id.
Proof.
  intros Ht Hupd. unfold handleMessage, updates in *. case_match; simpl; try done.
  - case_match; simpl; [|done]. by rewrite MergeNodeState_put.
  - case_match; simpl; [|done]. rewrite AddIncident_put. case_match; [done|].
    simpl. rewrite lww_put_lookup. case_decide; congruence.
  - case_match; simpl; [|done]. simpl in Hupd.
    destruct (UpdateIncident_cases i s) as [->|(i0&?&?&Hl&?&?&?&?&?&?&->)]; [done|].
    simpl. destruct (decide (upd_IncidentID i = id)) as [<-|]; [|by simplify_map_eq].
    destruct Hupd as [Hf|Hf]; [|congruence].
    by rewrite String.eqb_refl in Hf.
  - case_match; simpl; [|done]. rewrite MergeFullState_state. simpl.
    by rewrite lww_puts_lookup, writes_accepted, Ht.
Qed.

Lemma deliver_tombstoned pick msgs s id :
  is_Some (tombstones s !! id) →
  (∀ m, m ∈ msgs → updates id m = false) ∨ incidents s !! id = None →
  incidents (deliver uN uI uU uF pick msgs s) !! id = incidents s !! id.
Proof.
  revert s. induction msgs as [|m msgs IH]; intros s [t Ht] Hupd; [done|].
  change (deliver uN uI uU uF pick (m :: msgs) s)
    with (deliver uN uI uU uF pick msgs (handleMessage uN uI uU uF pick m s).1.1).
  assert (Hm : incidents (handleMessage uN uI uU uF pick m s).1.1 !! id = incidents s !! id).
  { eapply handleMessage_tombstoned; [done|]. destruct Hupd; [left; set_solver|by right]. }
  rewrite IH; [done| |].
  - apply elem_of_dom. eapply adv_tombstones; [apply handleMessage_advances|].
    apply elem_of_dom. eauto.
  - destruct Hupd as [Hupd|Hn]; [left; set_solver|right]. by rewrite Hm.
Qed.
End Gossip.

(** ** Properties *)

(** What a last-writer-wins store keeps of two entries under one key: the one with the later
    timestamp, the own one if neither is later. *)
Definition last_write {A : Type} `{Stamped A} (mine theirs merged : option A) : Prop :=
  match mine, theirs with
  | None, _ => merged = theirs
  | _, None => merged = mine
  | Some x, Some y => merged = if decide (stamp x < stamp y) then Some y else Some x
  end.
Lemma lww_join_last_write {A : Type} `{Stamped A} (mine theirs : option A) :
  last_write mine theirs (lww_join mine theirs).
Proof.
  destruct mine as [x|], theirs as [y|]; try done. simpl. unfold After.
  destruct (Z.ltb_spec (stamp x) (stamp y)); case_decide; (done || lia).
Qed.

(** A replica as the operations leave it. *)
Inductive reached : SharedState → Prop :=
| reached_new local : reached (NewSharedState local)
| reached_callbacks b b' s : reached s → reached (SetOnIncidentChange b (SetOnNodeChange b' s))
| reached_local now cpu mem incs requests rate s : reached s → reached (UpdateLocalNode now cpu mem incs requests rate s)
| reached_node id state s : reached s → reached (MergeNodeState id state s).1
| reached_remove id s : reached s → reached (RemoveNode id s)
| reached_incident inc s : reached s → reached (AddIncident inc s).1
| reached_update u s : reached s → reached (UpdateIncident u s).1
| reached_onCall c s : reached s → reached (UpdateOnCall c s)
| reached_metrics m s : reached s → reached (AddMetricsSummary m s)
| reached_merge o s : reached s → reached (MergeFullState o s).1
| reached_cleanup now s : reached s → reached (cleanupTombstones now s).

Lemma AddIncident_keyed inc s : well_keyed s → well_keyed (AddIncident inc s).1.
Proof.
  intros [Hi Ho]. unfold AddIncident. destruct (tombstones s !! _); [done|]. destruct (newer _ _); [|done].
  split; [|done]. intros k x. cbn. rewrite lookup_insert_Some. naive_solver.
Qed.
Lemma UpdateOnCall_keyed c s : well_keyed s → well_keyed (UpdateOnCall c s).
Proof.
  intros [Hi Ho]. unfold UpdateOnCall. destruct (newer _ _); [|done].
  split; [done|]. intros k x. cbn. rewrite lookup_insert_Some. naive_solver.
Qed.
Lemma MergeNodeState_keyed id state s : well_keyed s → well_keyed (MergeNodeState id state s).1.
Proof. intros [Hi Ho]. unfold MergeNodeState. by destruct (newer _ _). Qed.
Lemma for_each_keyed {X : Type} (body : X → SharedState → SharedState * list Callback) xs s :
  (∀ x s, well_keyed s → well_keyed (body x s).1) → well_keyed s → well_keyed (for_each body xs s).1.
Proof.
  intros Hb. unfold for_each. generalize (@nil Callback). revert s.
  induction xs as [|x xs IH]; intros s cbs Hs; [done|]. simpl. specialize (Hb x s Hs).
  destruct (body x s) as [s' cbs']. by apply IH.
Qed.
(** Every operation stores incidents and on-call entries under their own identifiers. *)
Lemma reached_well_keyed s : reached s → well_keyed s.
Proof.
  induction 1 as [local|b b' s Hs IH|now cpu mem incs requests rate s Hs IH|id state s Hs IH|id s Hs IH|inc s Hs IH
    |u s Hs IH|c s Hs IH|m s Hs IH|o s Hs IH|now s Hs IH]; try done.
  - by apply MergeNodeState_keyed.
  - by apply AddIncident_keyed.
  - destruct IH as [Hi Ho]. unfold UpdateIncident. destruct (incidents s !! upd_IncidentID u) as [inc|] eqn:E; [|done].
    destruct (After _ _); [|done]. apply Hi in E.
    destruct (String.eqb _ "acknowledged"); [|destruct (String.eqb _ "resolved")];
      (split; [|done]); intros k x; cbn; rewrite lookup_insert_Some; naive_solver.
  - by apply UpdateOnCall_keyed.
  - unfold MergeFullState. destruct (for_each _ (mo_nodes o) s) as [s1 cb1] eqn:E1.
    destruct (for_each _ (mo_incidents o) s1) as [s2 cb2] eqn:E2. cbn [fst].
    assert (H1 : well_keyed s1).
    { change s1 with (s1, cb1).1. rewrite <- E1. apply for_each_keyed; [|done]. intros; by apply MergeNodeState_keyed. }
    assert (H2 : well_keyed s2).
    { change s2 with (s2, cb2).1. rewrite <- E2. apply for_each_keyed; [|done]. intros; by apply AddIncident_keyed. }
    clear -H2. revert s2 H2. induction (mo_onCall o) as [|c l IH]; intros s2 H2; [done|]. by apply IH, UpdateOnCall_keyed.
  - destruct IH as [Hi Ho]. split; [|done]. intros k x. cbn. rewrite map_lookup_filter_Some. naive_solver.
Qed.

(** C2: merging the full state of another replica refines a last-writer-wins store with
    tombstones: whatever order the received maps are visited in, of each node state and each
    on-call entry the version with the later timestamp is kept, the own one if neither is later
    ([last_write]); so it is of each incident, unless its identifier has a tombstone here, and
    then the incident is left alone; nothing else changes. Both replicas are as the operations
    leave them: their entries are stored under their own identifiers ([reached_well_keyed]), and
    stay so. *)
Theorem full_sync_refines_lww (a b : SharedState) (now : Time) (o : MergeOrder) :
  reached b → order_of o (GetFullState now b) →
  let a' := (MergeFullState o a).1 in
  (∀ k, last_write (nodeStates a !! k) (nodeStates b !! k) (nodeStates a' !! k)) ∧
  (∀ k, last_write (onCall a !! k) (onCall b !! k) (onCall a' !! k)) ∧
  (∀ k, tombstones a !! k = None → last_write (incidents a !! k) (incidents b !! k) (incidents a' !! k)) ∧
  (∀ k, is_Some (tombstones a !! k) → incidents a' !! k = incidents a !! k) ∧
  localNodeID a' = localNodeID a ∧ metrics a' = metrics a ∧ tombstones a' = tombstones a ∧
  (reached a → well_keyed a').
Proof.
  intros Hb Ho a'. pose proof (MergeFullState_merges _ _ a (GetFullState_keyed now b (reached_well_keyed b Hb)) Ho) as Hm.
  split_and!; [intros k..|apply Hm|apply Hm|apply Hm|].
  - unfold a'. rewrite (merged_nodes _ _ _ Hm). apply lww_join_last_write.
  - unfold a'. rewrite (merged_onCall _ _ _ Hm). apply lww_join_last_write.
  - intros Ht. unfold a'. rewrite (merged_incidents _ _ _ Hm), decide_True by done. apply lww_join_last_write.
  - intros [t Ht]. unfold a'. rewrite (merged_incidents _ _ _ Hm), decide_False; [done|]. by rewrite Ht.
  - intros Ha. by apply reached_well_keyed, reached_merge.
Qed.

(** Two replicas that held [m] and [m'] agree at a key, or both held an entry for it under one
    timestamp, and each keeps its own. *)
Definition agree_or_tied {A : Type} `{Stamped A} (m m' n n' : gmap string A) (k : string) : Prop :=
  n !! k = n' !! k ∨
  ∃ x y, m !! k = Some x ∧ m' !! k = Some y ∧ stamp x = stamp y ∧ n !! k = Some x ∧ n' !! k = Some y.
Lemma joins_agree_or_tied {A : Type} `{Stamped A} (m m' n n' : gmap string A) k :
  n !! k = lww_join (m !! k) (m' !! k) → n' !! k = lww_join (m' !! k) (m !! k) → agree_or_tied m m' n n' k.
Proof.
  unfold agree_or_tied. intros -> ->. destruct (m !! k) as [x|], (m' !! k) as [y|]; try by left. simpl. unfold After.
  destruct (Z.ltb_spec (stamp x) (stamp y)), (Z.ltb_spec (stamp y) (stamp x)); [lia|by left..|].
  right. exists x, y. split_and!; [done..|lia|done|done].
Qed.

(** C1: one exchange of full states brings two replicas together. Whatever operations they come
    from and whatever order the maps are visited in, once each has merged what the other had
    they hold the same under every key, of node states, of on-call entries, and of incidents for
    which neither has a tombstone; except that where both had an entry with one and the same
    timestamp, each keeps its own. *)
Theorem exchange_converges (a b : SharedState) (now : Time) (oa ob : MergeOrder) :
  reached a → reached b →
  order_of oa (GetFullState now a) → order_of ob (GetFullState now b) →
  let a' := (MergeFullState ob a).1 in
  let b' := (MergeFullState oa b).1 in
  (∀ k, agree_or_tied (nodeStates a) (nodeStates b) (nodeStates a') (nodeStates b') k) ∧
  (∀ k, agree_or_tied (onCall a) (onCall b) (onCall a') (onCall b') k) ∧
  (∀ k, tombstones a !! k = None → tombstones b !! k = None →
    agree_or_tied (incidents a) (incidents b) (incidents a') (incidents b') k).
Proof.
  intros Ka%reached_well_keyed Kb%reached_well_keyed Oa Ob a' b'.
  pose proof (MergeFullState_merges _ _ a (GetFullState_keyed now b Kb) Ob) as Ma.
  pose proof (MergeFullState_merges _ _ b (GetFullState_keyed now a Ka) Oa) as Mb.
  split_and!; intros k.
  - apply joins_agree_or_tied; [apply Ma|apply Mb].
  - apply joins_agree_or_tied; [apply Ma|apply Mb].
  - intros Ha Hb. apply joins_agree_or_tied.
    + unfold a'. by rewrite (merged_incidents _ _ _ Ma), decide_True.
    + unfold b'. by rewrite (merged_incidents _ _ _ Mb), decide_True.
Qed.

(** The gossip transport may reorder and duplicate messages.  The node
    states a replica ends up with depend only on the set of messages it
    received: two deliveries of the same messages, in any order, with any
    repetitions and whatever order received maps are visited in, end with the
    same node states, provided distinct writes for a node have distinct
    timestamps. *)
Theorem gossip_delivery_insensitive {json : Type}
    (uN : json → option NodeState) (uI : json → option IncidentEvent)
    (uU : json → option IncidentUpdate) (uF : json → option FullState)
    (pick pick' : FullState → MergeOrder) (msgs msgs' : list (Message json))
    (s : SharedState) :
  (∀ fs, order_of (pick fs) fs) → (∀ fs, order_of (pick' fs) fs) →
  (∀ m, m ∈ msgs ↔ m ∈ msgs') →
  (∀ k, tie_free (option_list (nodeStates s !! k) ++
                  writes k (msgs ≫= node_writes uN uF pick))) →
  nodeStates (deliver uN uI uU uF pick msgs s) =
  nodeStates (deliver uN uI uU uF pick' msgs' s).
Proof.
  intros Hp Hp' Hm T. apply map_eq. intros k.
  rewrite !deliver_nodes, !lww_puts_lookup. apply join_all_set; [|apply T].
  intros v. rewrite !elem_of_writes, !list_elem_of_bind.
  assert (Hw : ∀ m, (k, v) ∈ node_writes uN uF pick m ↔ (k, v) ∈ node_writes uN uF pick' m).
  { intros m. unfold node_writes. case_match; try done.
    destruct (uF (msg_Payload m)) as [fs|]; simpl; [|done].
    by rewrite (proj1 (Hp fs)), (proj1 (Hp' fs)). }
  setoid_rewrite Hm. setoid_rewrite Hw. done.
Qed.

(** C3: once an incident id is tombstoned, no sequence of gossip messages
    changes what the replica stores for it, except a status update addressed
    to that id while it is still stored; in particular an incident that is
    gone never comes back while its tombstone lives, and the tombstone itself
    survives every message. *)
Theorem tombstoned_incident_not_resurrected {json : Type}
    (uN : json → option NodeState) (uI : json → option IncidentEvent)
    (uU : json → option IncidentUpdate) (uF : json → option FullState)
    (pick : FullState → MergeOrder) (msgs : list (Message json)) (s : SharedState) (id : string) :
  is_Some (tombstones s !! id) →
  let s' := deliver uN uI uU uF pick msgs s in
  is_Some (tombstones s' !! id) ∧
  (incidents s !! id = None → incidents s' !! id = None) ∧
  ((∀ m, m ∈ msgs → updates uU id m = false) → incidents s' !! id = incidents s !! id).
Proof.
  intros Ht s'. split_and!.
  - apply elem_of_dom. eapply adv_tombstones; [apply deliver_advances|]. by apply elem_of_dom.
  - intros Hn. unfold s'. rewrite deliver_tombstoned; [done|done|by right].
  - intros Hu. apply deliver_tombstoned; [done|by left].
Qed.

(** No gossip message makes a replica forget or go back: after any
    sequence of messages every node state, incident and on-call entry it held
    is still there with a timestamp at least as late, and every tombstone is
    kept. *)
Theorem gossip_monotone {json : Type}
    (uN : json → option NodeState) (uI : json → option IncidentEvent)
    (uU : json → option IncidentUpdate) (uF : json → option FullState)
    (pick : FullState → MergeOrder) (msgs : list (Message json)) (s : SharedState) :
  advances s (deliver uN uI uU uF pick msgs s).
Proof. apply deliver_advances. Qed.

Definition AddAll (xs : list MetricsSummary) (s : SharedState) : SharedState :=
  foldl (λ s x, AddMetricsSummary x s) s xs.

Lemma AddMetricsSummary_window x s n l :
  default [] (metrics s !! n) = lastn 12 l →
  default [] (metrics (AddMetricsSummary x s) !! n) =
  lastn 12 (if decide (ms_NodeID x = n) then l ++ [x] else l).
Proof.
  intros Hl. unfold AddMetricsSummary. simpl. case_decide as E.
  - subst n. rewrite lookup_insert_eq. simpl. by rewrite Hl, lastn_push by lia.
  - by rewrite lookup_insert_ne.
Qed.

(** The per-node metrics buffer is a window: after any sequence of
    [AddMetricsSummary] calls for any mix of nodes it holds exactly the last
    twelve summaries of that node, oldest first, and nothing of the others. *)
Theorem metrics_buffer_is_last_12 (s : SharedState) (xs : list MetricsSummary) (n : string) :
  (length (default [] (metrics s !! n)) ≤ 12)%nat →
  default [] (metrics (AddAll xs s) !! n) =
  lastn 12 (default [] (metrics s !! n) ++ filter (λ x, ms_NodeID x = n) xs).
Proof.
  intros Hlen.
  assert (Hs : default [] (metrics s !! n) = lastn 12 (default [] (metrics s !! n)))
    by by rewrite lastn_short.
  revert Hs. generalize (default [] (metrics s !! n)) at 2 3 as l. clear Hlen.
  revert s. induction xs as [|x xs IH]; intros s l Hl; [by rewrite app_nil_r|].
  rewrite filter_cons. simpl. rewrite (IH _ _ (AddMetricsSummary_window x s n l Hl)).
  case_decide; [by rewrite <- app_assoc|done].
Qed.

(** The latest summary of every node that has one. *)
Definition latest_summaries (m : list (string * list MetricsSummary)) : list MetricsSummary :=
  m ≫= (λ kv, option_list (last kv.2)).

Definition total (f : MetricsSummary → Z) (m : gmap string (list MetricsSummary)) : Z :=
  wrap64 (sum_Z f (latest_summaries (map_to_list m))).

Lemma add_latest_total (f : MetricsSummary → Z) order a c :
  (∀ l acc, f (add_latest acc l).1 =
            match last l with Some x => wrap64 (f acc.1 + f x) | None => f acc.1 end) →
  in_int64 (f a) →
  f (foldl (λ acc kv, add_latest acc kv.2) (a, c) order).1 =
  wrap64 (f a + sum_Z f (latest_summaries order)).
Proof.
  intros Hf. revert a c. induction order as [|[k l] order IH]; intros a c Ha; cbn.
  - by rewrite Z.add_0_r, wrap64_id.
  - specialize (Hf l (a, c)). simpl in Hf.
    destruct (add_latest (a, c) l) as [a' c'] eqn:E. rewrite IH.
    + simpl in Hf. rewrite Hf. destruct (last l) as [x|]; simpl.
      * rewrite wrap64_add_l. f_equal. unfold latest_summaries, sum_Z. lia.
      * done.
    + simpl in Hf. rewrite Hf. case_match; [apply wrap64_range|done].
Qed.

(** The cluster totals are determined by the stored summaries alone: in
    whatever order the metrics map is visited, each integer counter of the
    aggregate is the sum, modulo 2^64, of that counter over the latest summary
    of every node. *)
Theorem cluster_totals_order_insensitive (s : SharedState) (now : Time)
    (order : list (string * list MetricsSummary)) :
  order ≡ₚ map_to_list (metrics s) →
  let a := GetClusterMetrics now order in
  ms_HTTPRequests a = total ms_HTTPRequests (metrics s) ∧
  ms_HTTPErrors a = total ms_HTTPErrors (metrics s) ∧
  ms_ActiveConnections a = total ms_ActiveConnections (metrics s) ∧
  ms_NewConnections a = total ms_NewConnections (metrics s) ∧
  ms_ContainerCount a = total ms_ContainerCount (metrics s) ∧
  ms_ContainerMemory a = total ms_ContainerMemory (metrics s).
Proof.
  intros HP a.
  assert (Hg : ∀ f : MetricsSummary → Z,
    (∀ l acc, f (add_latest acc l).1 =
              match last l with Some x => wrap64 (f acc.1 + f x) | None => f acc.1 end) →
    f (mkMetricsSummary "cluster" now 0 0 f64_zero f64_zero f64_zero 0 0 0 f64_zero 0) = 0 →
    (∀ avg x, f (with_avg avg x) = f x) →
    f a = total f (metrics s)).
  { intros f Hstep H0 Havg. unfold a, GetClusterMetrics, total.
    assert (Hz : in_int64 (f (mkMetricsSummary "cluster" now 0 0 f64_zero f64_zero f64_zero
                                0 0 0 f64_zero 0))) by by rewrite H0.
    pose proof (add_latest_total f order _ 0 Hstep Hz) as Ht.
    rewrite H0, Z.add_0_l in Ht.
    replace (sum_Z f (latest_summaries (map_to_list (metrics s))))
      with (sum_Z f (latest_summaries order))
      by (apply sum_Z_perm; unfold latest_summaries; by rewrite HP).
    rewrite <- Ht. destruct (foldl _ _ order) as [acc c]. simpl.
    case_match; [apply Havg|done]. }
  assert (Hs : ∀ l (acc : MetricsSummary * Z), add_latest acc l =
    match last l with Some x => add_latest acc [x] | None => acc end).
  { intros l acc. unfold add_latest. by destruct (last l). }
  split_and!; apply Hg; try done;
    intros l [acc c]; rewrite Hs; by destruct (last l).
Qed.

(** ** What the replicas do not promise *)

(** Two replicas holding different states for one node under the same
    timestamp keep their own copy through any exchange. *)
Lemma exchange_keeps_ties (a b : SharedState) now oa ob k x y :
  well_keyed a → well_keyed b →
  order_of oa (GetFullState now a) → order_of ob (GetFullState now b) →
  nodeStates a !! k = Some x → nodeStates b !! k = Some y →
  ns_Timestamp x = ns_Timestamp y →
  nodeStates (MergeFullState ob a).1 !! k = Some x ∧
  nodeStates (MergeFullState oa b).1 !! k = Some y.
Proof.
  intros Ka Kb Oa Ob Hx Hy Ht.
  pose proof (MergeFullState_merges _ _ a (GetFullState_keyed now b Kb) Ob) as Ma.
  pose proof (MergeFullState_merges _ _ b (GetFullState_keyed now a Ka) Oa) as Mb.
  rewrite (merged_nodes _ _ _ Ma), (merged_nodes _ _ _ Mb). simpl. rewrite Hx, Hy. simpl.
  unfold After, stamp, NodeState_stamped. rewrite Ht, Z.ltb_irrefl. done.
Qed.

(** A status update newer than the resolution reopens a resolved incident:
    [UpdateIncident] does not look at the tombstone its own resolution set.
    From then on the replica refuses every full copy of the incident, however
    new, so a peer's later edits never reach it. *)
Lemma resolved_incident_reopens (s : SharedState) (inc newer_copy : IncidentEvent) (t1 t2 : Time) :
  incidents s !! inc_ID inc = Some inc → inc_UpdatedAt inc < t1 → t1 < t2 →
  inc_ID newer_copy = inc_ID inc →
  let s1 := (UpdateIncident (mkIncidentUpdate (inc_ID inc) "resolved" "u" "n" t1 "done") s).1 in
  let s2 := (UpdateIncident (mkIncidentUpdate (inc_ID inc) "acknowledged" "v" "n" t2 "") s1).1 in
  (∃ i, incidents s2 !! inc_ID inc = Some i ∧ inc_Status i = "acknowledged" ∧
        inc_ResolvedAt i = Some t1) ∧
  is_Some (tombstones s2 !! inc_ID inc) ∧
  (AddIncident newer_copy s2).1 = s2.
Proof.
  intros Hi H1 H2 Hid s1 s2. unfold s2, s1, UpdateIncident. cbn. rewrite Hi.
  unfold After. replace (inc_UpdatedAt inc <? t1) with true by lia. cbn.
  rewrite lookup_insert_eq. cbn. replace (t1 <? t2) with true by lia. cbn.
  rewrite lookup_insert_eq. split_and!.
  - eexists. done.
  - rewrite lookup_insert_eq. done.
  - unfold AddIncident. cbn. by rewrite Hid, lookup_insert_eq.
Qed.

(** On-call changes and metrics summaries received as messages are dropped. *)
Lemma oncall_messages_dropped {json : Type} (uN : json → option NodeState)
    (uI : json → option IncidentEvent) (uU : json → option IncidentUpdate)
    (uF : json → option FullState) pick m s :
  msg_Type m = MessageTypeOnCallChange ∨ msg_Type m = MessageTypeMetricsSummary →
  handleMessage uN uI uU uF pick m s = (s, [], None).
Proof. unfold handleMessage. by intros [-> | ->]. Qed.

(** ** Witnesses *)

Definition node_at (id : string) (t : Time) : NodeState :=
  mkNodeState id t f64_zero f64_zero f64_zero f64_zero 0 10 f64_zero 0 "1".
Definition incident_at (id status : string) (t : Time) : IncidentEvent :=
  mkIncidentEvent id "t" "" "critical" status "api" "manual" "" "n1" 0 t None None "" "" "" ∅.
Definition oncall_at (id : string) (t : Time) : OnCallChange :=
  mkOnCallChange id "primary" "alice" "" 0 "n1" t.
Definition metrics_at (id : string) (t : Time) : MetricsSummary :=
  mkMetricsSummary id t 5 1 f64_zero f64_zero f64_zero 1 1 1 f64_zero 1.

Definition replica_a : SharedState :=
  mkSharedState "a" {["a" := node_at "a" 10; "b" := node_at "b" 4]}
    {["i1" := incident_at "i1" "triggered" 3]} {["s" := oncall_at "s" 7]}
    {["a" := [metrics_at "a" 1; metrics_at "a" 2]; "b" := [metrics_at "b" 2]]}
    true true {["i2" := 5]}.
Definition replica_b : SharedState :=
  mkSharedState "b" {["b" := node_at "b" 9]}
    {["i1" := incident_at "i1" "acknowledged" 6]} {["s" := oncall_at "s" 5]} ∅ false false ∅.

Lemma default_order_of fs : order_of (default_order fs) fs.
Proof. done. Qed.

(** Two replicas that ran: each has seen the incident, in its own version. *)
Definition ran_a : SharedState :=
  (AddIncident (incident_at "i1" "triggered" 3)
     (UpdateOnCall (oncall_at "s" 7) (MergeNodeState "b" (node_at "b" 4) (NewSharedState "a")).1)).1.
Definition ran_b : SharedState :=
  (AddIncident (incident_at "i1" "acknowledged" 6)
     (UpdateOnCall (oncall_at "s" 5) (MergeNodeState "b" (node_at "b" 9) (NewSharedState "b")).1)).1.
Lemma ran_reached : reached ran_a ∧ reached ran_b.
Proof. split; repeat constructor. Qed.

Lemma full_sync_refines_lww_witness :
  let o := default_order (GetFullState 11 ran_b) in
  let a' := (MergeFullState o ran_a).1 in
  incidents a' !! "i1" = Some (incident_at "i1" "acknowledged" 6) ∧
  (∀ k, last_write (nodeStates ran_a !! k) (nodeStates ran_b !! k) (nodeStates a' !! k)) ∧
  (∀ k, last_write (onCall ran_a !! k) (onCall ran_b !! k) (onCall a' !! k)) ∧
  (∀ k, tombstones ran_a !! k = None → last_write (incidents ran_a !! k) (incidents ran_b !! k) (incidents a' !! k)) ∧
  (∀ k, is_Some (tombstones ran_a !! k) → incidents a' !! k = incidents ran_a !! k) ∧
  localNodeID a' = localNodeID ran_a ∧ metrics a' = metrics ran_a ∧ tombstones a' = tombstones ran_a ∧
  (reached ran_a → well_keyed a').
Proof.
  intros o a'. split; [reflexivity|].
  apply (full_sync_refines_lww ran_a ran_b 11 o); [apply ran_reached|apply default_order_of].
Defined.

Lemma exchange_converges_witness :
  let a' := (MergeFullState (default_order (GetFullState 11 ran_b)) ran_a).1 in
  let b' := (MergeFullState (default_order (GetFullState 11 ran_a)) ran_b).1 in
  (∀ k, agree_or_tied (nodeStates ran_a) (nodeStates ran_b) (nodeStates a') (nodeStates b') k) ∧
  (∀ k, agree_or_tied (onCall ran_a) (onCall ran_b) (onCall a') (onCall b') k) ∧
  (∀ k, tombstones ran_a !! k = None → tombstones ran_b !! k = None →
    agree_or_tied (incidents ran_a) (incidents ran_b) (incidents a') (incidents b') k).
Proof.
  apply (exchange_converges ran_a ran_b 11
           (default_order (GetFullState 11 ran_a)) (default_order (GetFullState 11 ran_b)));
    [apply ran_reached|apply ran_reached|apply default_order_of|apply default_order_of].
Defined.

Lemma gossip_delivery_insensitive_witness :
  let m1 := mkMessage MessageTypeNodeState "b" 0 (node_at "b" 20) in
  let m2 := mkMessage MessageTypeNodeState "b" 0 (node_at "b" 30) in
  nodeStates (deliver Some (λ _, None) (λ _, None) (λ _, None) default_order [m1; m2] replica_b) =
  nodeStates (deliver Some (λ _, None) (λ _, None) (λ _, None) default_order [m2; m1; m1] replica_b).
Proof.
  intros m1 m2. apply gossip_delivery_insensitive.
  - apply default_order_of.
  - apply default_order_of.
  - intros m. set_solver.
  - intros k. cbn. destruct (decide (k = "b")) as [->|Hk].
    + change (tie_free [node_at "b" 9; node_at "b" 20; node_at "b" 30]).
      intros x y. rewrite !elem_of_cons, !elem_of_nil.
      unfold stamp, NodeState_stamped. naive_solver.
    + rewrite lookup_singleton_ne by done. unfold writes. cbn.
      rewrite !decide_False by done. intros x y. cbn. set_solver.
Defined.

Lemma tombstoned_incident_not_resurrected_witness :
  let m := mkMessage MessageTypeIncident "b" 0 (incident_at "i2" "triggered" 99) in
  incidents (deliver (λ _, None) Some (λ _, None) (λ _, None) default_order [m] replica_a) !! "i2"
  = None.
Proof.
  intros m.
  pose proof (tombstoned_incident_not_resurrected (λ _, None) Some (λ _, None) (λ _, None)
           default_order [m] replica_a "i2") as H.
  destruct H as (_ & H & _); [by exists 5|]. apply H. reflexivity.
Defined.

Lemma metrics_buffer_is_last_12_witness :
  default [] (metrics (AddAll (metrics_at "a" <$> [1;2;3;4;5;6;7;8;9;10;11;12;13]) replica_b) !! "a")
  = metrics_at "a" <$> [2;3;4;5;6;7;8;9;10;11;12;13].
Proof.
  rewrite (metrics_buffer_is_last_12 replica_b _ "a"); [reflexivity|vm_compute; lia].
Defined.

Lemma cluster_totals_order_insensitive_witness :
  ms_HTTPRequests (GetClusterMetrics 0 (map_to_list (metrics replica_a))) = 10.
Proof.
  pose proof (cluster_totals_order_insensitive replica_a 0 (map_to_list (metrics replica_a))
    ltac:(reflexivity)) as [H _].
  etrans; [exact H|]. vm_compute. reflexivity.
Defined.
