(* ===== verification/AlertTypes.v ===== *)
(** internal/alerting/rule.go: rules, alerts, silences, inhibit rules and
    routes, and the label matching that silences (evaluator.go), inhibit rules
    (inhibitor.go) and routes (router.go) each implement.

    Go's string-typed enumerations are strings here too where the code stores
    what a user gave (rule types, severities); an alert's state is only ever one
    of its four constants.  [regexp.Compile] is an argument: [None] when the
    pattern does not compile, otherwise the [MatchString] of the pattern. *)

From Stdlib Require Import String.
From stdpp Require Import base option list gmap strings sorting.
From S2P Require Import Prelude Float64.

#[local] Open Scope Z_scope.

Abbreviation labels := (gmap string string) (only parsing).

(** ** rule.go *)

Definition RuleType : Type := string.
Definition RuleTypeThreshold : RuleType := "threshold".
Definition RuleTypeAnomaly : RuleType := "anomaly".
Definition RuleTypeComposite : RuleType := "composite".
Definition RuleTypeChange : RuleType := "change".
Definition RuleTypeAbsence : RuleType := "absence".

Definition Severity : Type := string.
Definition SeverityCritical : Severity := "critical".
Definition SeverityWarning : Severity := "warning".
Definition SeverityInfo : Severity := "info".

Inductive AlertState : Type := StateInactive | StatePending | StateFiring | StateResolved.

#[global] Instance AlertState_eq_dec : EqDecision AlertState.
Proof. solve_decision. Defined.

(** The fields of [Rule] the evaluator reads. *)
Record Rule := mkRule {
  rule_ID : string;
  rule_Name : string;
  rule_Type : RuleType;
  rule_Enabled : bool;
  rule_Labels : gmap string string;
  rule_Annotations : gmap string string;
  rule_Query : string;
  rule_Metric : string;
  rule_Condition : string;
  rule_Threshold : float64;
  rule_Sensitivity : float64;
  rule_Algorithm : string;
  rule_ChangeType : string;
  rule_ChangeThreshold : float64;
  rule_Expression : string;
  rule_SubRules : list string;
  rule_EvalInterval : Duration;
  rule_ForDuration : Duration;
  rule_KeepFiringFor : Duration;
}.

Record Alert := mkAlert {
  alert_ID : string;
  alert_RuleID : string;
  alert_RuleName : string;
  alert_State : AlertState;
  alert_Severity : Severity;
  alert_Labels : gmap string string;
  alert_Annotations : gmap string string;
  alert_Value : float64;
  alert_Threshold : float64;
  alert_StartsAt : Time;
  alert_EndsAt : option Time;
  alert_FiredAt : option Time;
  alert_ResolvedAt : option Time;
  alert_LastEvalAt : Time;
  alert_NotifiedAt : option Time;
  alert_AcknowledgedAt : option Time;
  alert_AcknowledgedBy : string;
  alert_Fingerprint : string;
}.

Record Matcher := mkMatcher {
  m_Name : string;
  m_Value : string;
  m_IsRegex : bool;
  m_IsEqual : bool;
}.

Record Silence := mkSilence {
  sil_ID : string;
  sil_Matchers : list Matcher;
  sil_StartsAt : Time;
  sil_EndsAt : Time;
}.

Record InhibitRule := mkInhibitRule {
  inh_ID : string;
  inh_SourceMatch : list Matcher;
  inh_TargetMatch : list Matcher;
  inh_EqualLabels : list string;
}.

Inductive Route : Type := mkRoute {
  rt_Name : string;
  rt_Matchers : list Matcher;
  rt_Receiver : string;
  rt_GroupBy : list string;
  rt_GroupWait : Duration;
  rt_GroupInterval : Duration;
  rt_RepeatInterval : Duration;
  rt_Continue : bool;
  rt_Children : list Route;
}.

(** ** Field updates of an alert *)

Definition set_State (st : AlertState) (a : Alert) : Alert :=
  mkAlert (alert_ID a) (alert_RuleID a) (alert_RuleName a) st (alert_Severity a)
    (alert_Labels a) (alert_Annotations a) (alert_Value a) (alert_Threshold a)
    (alert_StartsAt a) (alert_EndsAt a) (alert_FiredAt a) (alert_ResolvedAt a)
    (alert_LastEvalAt a) (alert_NotifiedAt a) (alert_AcknowledgedAt a)
    (alert_AcknowledgedBy a) (alert_Fingerprint a).

(** [alert.Value = v; alert.LastEvalAt = now] *)
Definition observe_value (v : float64) (now : Time) (a : Alert) : Alert :=
  mkAlert (alert_ID a) (alert_RuleID a) (alert_RuleName a) (alert_State a) (alert_Severity a)
    (alert_Labels a) (alert_Annotations a) v (alert_Threshold a)
    (alert_StartsAt a) (alert_EndsAt a) (alert_FiredAt a) (alert_ResolvedAt a)
    now (alert_NotifiedAt a) (alert_AcknowledgedAt a)
    (alert_AcknowledgedBy a) (alert_Fingerprint a).

(** [alert.State = StateFiring; alert.FiredAt = &firedAt] *)
Definition fire (now : Time) (a : Alert) : Alert :=
  mkAlert (alert_ID a) (alert_RuleID a) (alert_RuleName a) StateFiring (alert_Severity a)
    (alert_Labels a) (alert_Annotations a) (alert_Value a) (alert_Threshold a)
    (alert_StartsAt a) (alert_EndsAt a) (Some now) (alert_ResolvedAt a)
    (alert_LastEvalAt a) (alert_NotifiedAt a) (alert_AcknowledgedAt a)
    (alert_AcknowledgedBy a) (alert_Fingerprint a).

(** [alert.State = StateResolved] with [ResolvedAt] and [EndsAt] *)
Definition resolve (now : Time) (a : Alert) : Alert :=
  mkAlert (alert_ID a) (alert_RuleID a) (alert_RuleName a) StateResolved (alert_Severity a)
    (alert_Labels a) (alert_Annotations a) (alert_Value a) (alert_Threshold a)
    (alert_StartsAt a) (Some now) (alert_FiredAt a) (Some now)
    (alert_LastEvalAt a) (alert_NotifiedAt a) (alert_AcknowledgedAt a)
    (alert_AcknowledgedBy a) (alert_Fingerprint a).

Definition set_NotifiedAt (now : Time) (a : Alert) : Alert :=
  mkAlert (alert_ID a) (alert_RuleID a) (alert_RuleName a) (alert_State a) (alert_Severity a)
    (alert_Labels a) (alert_Annotations a) (alert_Value a) (alert_Threshold a)
    (alert_StartsAt a) (alert_EndsAt a) (alert_FiredAt a) (alert_ResolvedAt a)
    (alert_LastEvalAt a) (Some now) (alert_AcknowledgedAt a)
    (alert_AcknowledgedBy a) (alert_Fingerprint a).

Definition acknowledge (user : string) (now : Time) (a : Alert) : Alert :=
  mkAlert (alert_ID a) (alert_RuleID a) (alert_RuleName a) (alert_State a) (alert_Severity a)
    (alert_Labels a) (alert_Annotations a) (alert_Value a) (alert_Threshold a)
    (alert_StartsAt a) (alert_EndsAt a) (alert_FiredAt a) (alert_ResolvedAt a)
    (alert_LastEvalAt a) (alert_NotifiedAt a) (Some now) user (alert_Fingerprint a).

(** ** Label matching *)

(** [labels[name]], the zero value when the key is missing. *)
Definition label_of (ls : labels) (name : string) : string := default "" (ls !! name).

Section matching.
Context (Compile : string → option (string → bool)).

(** inhibitor.go *)
Fixpoint matchesAllMatchers (ls : labels) (matchers : list Matcher) : bool :=
  match matchers with
  | [] => true
  | matcher :: rest =>
      let labelValue := label_of ls (m_Name matcher) in
      let check (matched : bool) :=
        if m_IsEqual matcher && negb matched then false
        else if negb (m_IsEqual matcher) && matched then false
        else matchesAllMatchers ls rest in
      if m_IsRegex matcher then
        match Compile (m_Value matcher) with
        | None => matchesAllMatchers ls rest
        | Some re => check (re labelValue)
        end
      else check (String.eqb labelValue (m_Value matcher))
  end.

(** evaluator.go: the loop of [matchesSilence] *)
Fixpoint silence_loop (ls : labels) (matchers : list Matcher) : bool :=
  match matchers with
  | [] => true
  | matcher :: rest =>
      let labelValue := label_of ls (m_Name matcher) in
      let check (matched : bool) :=
        if m_IsEqual matcher && negb matched then false
        else if negb (m_IsEqual matcher) && matched then false
        else silence_loop ls rest in
      if m_IsRegex matcher then
        match Compile (m_Value matcher) with
        | None => silence_loop ls rest
        | Some re => check (re labelValue)
        end
      else check (String.eqb labelValue (m_Value matcher))
  end.

Definition matchesSilence (alert : Alert) (silence : Silence) : bool :=
  silence_loop (alert_Labels alert) (sil_Matchers silence).

(** router.go: the loop of [matchesRoute] *)
Fixpoint route_loop (ls : labels) (matchers : list Matcher) : bool :=
  match matchers with
  | [] => true
  | matcher :: rest =>
      let labelValue := label_of ls (m_Name matcher) in
      let check (matched : bool) :=
        if m_IsEqual matcher && negb matched then false
        else if negb (m_IsEqual matcher) && matched then false
        else route_loop ls rest in
      if m_IsRegex matcher then
        match Compile (m_Value matcher) with
        | None => route_loop ls rest
        | Some re => check (re labelValue)
        end
      else check (String.eqb labelValue (m_Value matcher))
  end.

Definition matchesRoute (alert : Alert) (route : Route) : bool :=
  match rt_Matchers route with
  | [] => true
  | _ => route_loop (alert_Labels alert) (rt_Matchers route)
  end.

(** *** What the three loops decide *)

(** One matcher: a pattern that does not compile is ignored. *)
Definition satisfies (ls : labels) (m : Matcher) : bool :=
  match (if m_IsRegex m then Compile (m_Value m) else Some (λ v, String.eqb v (m_Value m))) with
  | None => true
  | Some test => Bool.eqb (m_IsEqual m) (test (label_of ls (m_Name m)))
  end.

Lemma matchesAllMatchers_forallb ls ms :
  matchesAllMatchers ls ms = forallb (satisfies ls) ms.
Proof.
  induction ms as [|m ms IH]; [done|]. cbn [matchesAllMatchers forallb]. unfold satisfies at 1.
  rewrite IH. destruct (m_IsRegex m); [destruct (Compile _) as [re|]; [|done]|];
    [destruct (re _)|destruct (String.eqb _ _)]; by destruct (m_IsEqual m).
Qed.

Lemma silence_loop_forallb ls ms : silence_loop ls ms = forallb (satisfies ls) ms.
Proof. rewrite <- matchesAllMatchers_forallb. reflexivity. Qed.

Lemma route_loop_forallb ls ms : route_loop ls ms = forallb (satisfies ls) ms.
Proof. rewrite <- matchesAllMatchers_forallb. reflexivity. Qed.

(** Silences, inhibit rules and routes agree on what a list of matchers
    matches, although each has its own loop: exactly the label sets that satisfy
    every matcher, whatever their order, an invalid pattern being ignored. *)
Theorem matching_is_uniform alert silence route ms :
  sil_Matchers silence ≡ₚ ms → rt_Matchers route ≡ₚ ms →
  matchesSilence alert silence = matchesAllMatchers (alert_Labels alert) ms ∧
  matchesRoute alert route = matchesAllMatchers (alert_Labels alert) ms ∧
  (matchesAllMatchers (alert_Labels alert) ms = true ↔
   ∀ m, m ∈ ms → satisfies (alert_Labels alert) m = true).
Proof.
  assert (Hperm : ∀ l l', l ≡ₚ l' →
    forallb (satisfies (alert_Labels alert)) l = forallb (satisfies (alert_Labels alert)) l').
  { induction 1 as [|x l l' _ IH|x y l|l l' l'' _ IH1 _ IH2]; cbn; [done|by rewrite IH| |congruence].
    rewrite !andb_assoc. f_equal. apply andb_comm. }
  intros Hs Hr. unfold matchesSilence, matchesRoute.
  rewrite silence_loop_forallb, matchesAllMatchers_forallb, (Hperm _ _ Hs). split_and!; [done| |].
  - rewrite route_loop_forallb, <- (Hperm _ _ Hr). by destruct (rt_Matchers route).
  - rewrite forallb_forall. split; intros H m Hm; apply H; by apply list_elem_of_In.
Qed.

End matching.

Lemma matching_is_uniform_witness :
  let ms := [mkMatcher "env" "prod" false true; mkMatcher "team" "(" true false] in
  let a := mkAlert "1" "r" "n" StateFiring "warning" {["env" := "prod"]} ∅ f64_zero f64_zero
             0 None None None 0 None None "" "f" in
  matchesSilence (λ _, None) a (mkSilence "s" (reverse ms) 0 1) = true.
Proof.
  intros ms a.
  destruct (matching_is_uniform (λ _, None) a (mkSilence "s" (reverse ms) 0 1)
    (mkRoute "r" ms "x" [] 0 0 0 false []) ms) as (H & _ & _).
  - exact (reverse_Permutation ms).
  - reflexivity.
  - rewrite H. vm_compute. reflexivity.
Defined.
