(* ===== verification/Evaluator.v ===== *)
(** internal/alerting/evaluator.go: the alert evaluator.

    The evaluator's alerts and the evaluation state of each rule are maps; one
    evaluation reads the clock once.  Calls to the store and to the notification
    callback are the events an operation emits, in order.  The metrics provider
    is the record of its two methods, what [ListActiveSilences] returns is an
    argument, and so are the third-party uuid generator, [md5] in hexadecimal
    and [regexp.Compile].  Map iteration only decides the order of the save
    events of alerts resolved together. *)

From Stdlib Require Import String Ascii.
From stdpp Require Import base option list gmap strings sorting pretty.
From S2P Require Import Prelude Float64 Bytes AlertTypes.

#[local] Open Scope Z_scope.

(** ** Data *)

Record QueryResult := mkQueryResult {
  qr_Labels : gmap string string;
  qr_Value : float64;
  qr_Time : Time;
}.

Record MetricsProvider := mkMetricsProvider {
  Query : string → result (list QueryResult);
  GetMetric : string → gmap string string → result float64;
}.

Record RuleEvalState := mkRuleEvalState {
  LastEval : Time;
  ActiveSince : gmap string Time;
  FiringAlerts : gmap string bool;
  PendingAlerts : gmap string Time;
}.

Definition newRuleEvalState : RuleEvalState := mkRuleEvalState zero_time ∅ ∅ ∅.

Definition set_LastEval (t : Time) (st : RuleEvalState) : RuleEvalState :=
  mkRuleEvalState t (ActiveSince st) (FiringAlerts st) (PendingAlerts st).
Definition set_ActiveSince (m : gmap string Time) (st : RuleEvalState) : RuleEvalState :=
  mkRuleEvalState (LastEval st) m (FiringAlerts st) (PendingAlerts st).
Definition set_FiringAlerts (m : gmap string bool) (st : RuleEvalState) : RuleEvalState :=
  mkRuleEvalState (LastEval st) (ActiveSince st) m (PendingAlerts st).
Definition set_PendingAlerts (m : gmap string Time) (st : RuleEvalState) : RuleEvalState :=
  mkRuleEvalState (LastEval st) (ActiveSince st) (FiringAlerts st) m.

Record Evaluator := mkEvaluator {
  alerts : gmap string Alert;                (** fingerprint to alert *)
  evalState : gmap string RuleEvalState;     (** rule ID to state *)
  onNotify : bool;                           (** a callback is installed *)
  uuids : nat;                               (** alert IDs drawn so far *)
}.

Definition NewEvaluator : Evaluator := mkEvaluator ∅ ∅ false 0.
Definition SetNotifyFunc (e : Evaluator) : Evaluator :=
  mkEvaluator (alerts e) (evalState e) true (uuids e).

Definition set_alerts (m : gmap string Alert) (e : Evaluator) : Evaluator :=
  mkEvaluator m (evalState e) (onNotify e) (uuids e).
Definition set_evalState (m : gmap string RuleEvalState) (e : Evaluator) : Evaluator :=
  mkEvaluator (alerts e) m (onNotify e) (uuids e).
Definition draw_uuid (e : Evaluator) : Evaluator :=
  mkEvaluator (alerts e) (evalState e) (onNotify e) (S (uuids e)).

(** What an operation does to the store and the notification callback. *)
Inductive Event : Type :=
| EvSave (alert : Alert)
| EvNotify (alert : Alert) (rule : Rule).

Record EvalResult := mkEvalResult {
  er_Labels : gmap string string;
  er_Value : float64;
  er_Firing : bool;
  er_Timestamp : Time;
}.

(** ** Evaluating a rule's condition *)

Definition checkCondition (value : float64) (condition : string) (threshold : float64) : bool :=
  if bool_decide (condition = "gt" ∨ condition = ">") then f64_gt value threshold
  else if bool_decide (condition = "lt" ∨ condition = "<") then f64_lt value threshold
  else if bool_decide (condition = "gte" ∨ condition = ">=") then f64_ge value threshold
  else if bool_decide (condition = "lte" ∨ condition = "<=") then f64_le value threshold
  else if bool_decide (condition = "eq" ∨ condition = "==") then f64_eq value threshold
  else if bool_decide (condition = "neq" ∨ condition = "!=") then f64_neq value threshold
  else false.

(** The [EvalResult] of a query result with a verdict on its value. *)
Definition judge (firing : float64 → bool) (qr : QueryResult) : EvalResult :=
  mkEvalResult (qr_Labels qr) (qr_Value qr) (firing (qr_Value qr)) (qr_Time qr).

Definition evaluateThreshold (mp : MetricsProvider) (now : Time) (rule : Rule)
    : result (list EvalResult) :=
  let! queryResults :=
    if negb (String.eqb (rule_Query rule) "") then Query mp (rule_Query rule)
    else if negb (String.eqb (rule_Metric rule) "") then
      let! value := GetMetric mp (rule_Metric rule) (rule_Labels rule) in
      Ok [mkQueryResult (rule_Labels rule) value now]
    else Err "rule has no query or metric" in
  Ok (judge (λ v, checkCondition v (rule_Condition rule) (rule_Threshold rule)) <$> queryResults).

Definition zscore_firing (rule : Rule) (zThreshold value : float64) : bool :=
  if String.eqb (rule_Algorithm rule) "zscore" || String.eqb (rule_Algorithm rule) "" then
    if f64_gt (rule_Threshold rule) f64_zero then
      let zScore := f64_div (f64_sub value (rule_Threshold rule))
                            (f64_mul (rule_Threshold rule) (f64_of_decimal 1 1)) in
      f64_gt zScore zThreshold || f64_lt zScore (f64_neg zThreshold)
    else false
  else false.

Definition evaluateAnomaly (mp : MetricsProvider) (rule : Rule) : result (list EvalResult) :=
  if String.eqb (rule_Query rule) "" then Err "anomaly rule requires a query"
  else
    let! queryResults := Query mp (rule_Query rule) in
    let sensitivity := if f64_eq (rule_Sensitivity rule) f64_zero then f64_of_decimal 5 1
                       else rule_Sensitivity rule in
    let zThreshold := f64_add (f64_of_Z 1)
                        (f64_mul (f64_sub (f64_of_Z 1) sensitivity) (f64_of_Z 3)) in
    Ok (judge (zscore_firing rule zThreshold) <$> queryResults).

Definition change_of (rule : Rule) (value : float64) : float64 :=
  let baseline := rule_Threshold rule in
  if String.eqb (rule_ChangeType rule) "percent" && f64_neq baseline f64_zero
  then f64_mul (f64_div (f64_sub value baseline) baseline) (f64_of_Z 100)
  else f64_sub value baseline.

Definition evaluateChange (mp : MetricsProvider) (rule : Rule) : result (list EvalResult) :=
  if String.eqb (rule_Query rule) "" then Err "change rule requires a query"
  else
    let! currentResults := Query mp (rule_Query rule) in
    let changeThreshold := if f64_eq (rule_ChangeThreshold rule) f64_zero then f64_of_Z 10
                           else rule_ChangeThreshold rule in
    Ok (judge (λ v, f64_gt (change_of rule v) changeThreshold ||
                    f64_lt (change_of rule v) (f64_neg changeThreshold)) <$> currentResults).

Definition evaluateAbsence (mp : MetricsProvider) (now : Time) (rule : Rule)
    : result (list EvalResult) :=
  let present v := Ok [mkEvalResult (rule_Labels rule) v false now] in
  let absent := Ok [mkEvalResult (rule_Labels rule) f64_zero true now] in
  if String.eqb (rule_Query rule) "" && String.eqb (rule_Metric rule) ""
  then Err "absence rule requires a query or metric"
  else if negb (String.eqb (rule_Query rule) "") then
    match Query mp (rule_Query rule) with
    | Ok (qr :: _) => present (qr_Value qr)
    | Ok [] => absent
    | Err _ => absent
    | Panic w => Panic w
    end
  else
    match GetMetric mp (rule_Metric rule) (rule_Labels rule) with
    | Ok _ => present f64_zero
    | Err _ => absent
    | Panic w => Panic w
    end.

(** Whether a sub-rule has a firing alert. *)
Definition sub_firing (e : Evaluator) (subRuleID : string) : bool :=
  match evalState e !! subRuleID with
  | Some state => bool_decide (FiringAlerts state ≠ ∅)
  | None => false
  end.

Definition evaluateComposite (e : Evaluator) (now : Time) (rule : Rule)
    : result (list EvalResult) :=
  match rule_SubRules rule with
  | [] => Err "composite rule has no sub-rules"
  | _ =>
      let subRuleFiring : gmap string bool :=
        foldl (λ m id, <[id := sub_firing e id]> m) ∅ (rule_SubRules rule) in
      let verdicts := (map_to_list subRuleFiring).*2 in
      let expr := ToLower (rule_Expression rule) in
      let firing := if Contains expr " and " then forallb id verdicts
                    else if Contains expr " or " then existsb id verdicts
                    else existsb id verdicts in
      Ok [mkEvalResult (rule_Labels rule) f64_zero firing now]
  end.

(** ** Alert life cycle *)

Definition getSeverity (rule : Rule) : Severity :=
  match rule_Labels rule !! "severity" with
  | Some sev =>
      if String.eqb sev "critical" then SeverityCritical
      else if String.eqb sev "warning" then SeverityWarning
      else if String.eqb sev "info" then SeverityInfo
      else SeverityWarning
  | None => SeverityWarning
  end.

(** The second loop overwrites the entries of the first. *)
Definition mergeLabels (base overlay : gmap string string) : gmap string string := overlay ∪ base.

Section evaluator.
Context (Compile : string → option (string → bool)).
Context (md5_hex : string → string).
Context (uuid : nat → string).

(** The text that is hashed. *)
Definition fingerprint_text (ruleID : string) (ls : gmap string string) : string :=
  let keys := merge_sort String.le (map_to_list ls).*1 in
  String.concat "|" (ruleID :: ((λ k, k +:+ "=" +:+ label_of ls k) <$> keys)).

Definition generateFingerprint (ruleID : string) (ls : gmap string string) : string :=
  md5_hex (fingerprint_text ruleID ls).

(** [silences] is what [ListActiveSilences] returns, [None] on an error. *)
Definition isSilenced (silences : option (list Silence)) (alert : Alert) : bool :=
  match silences with
  | None => false
  | Some l => existsb (matchesSilence Compile alert) l
  end.

Definition new_alert (id : string) (rule : Rule) (fingerprint : string) (res : EvalResult)
    (activeSince now : Time) : Alert :=
  mkAlert id (rule_ID rule) (rule_Name rule) StatePending (getSeverity rule)
    (mergeLabels (rule_Labels rule) (er_Labels res)) (rule_Annotations rule)
    (er_Value res) (rule_Threshold rule) activeSince None None None now None None "" fingerprint.

Definition handleFiringResult (silences : option (list Silence)) (rule : Rule)
    (fingerprint : string) (res : EvalResult) (now : Time) (e : Evaluator) (state : RuleEvalState)
    : Evaluator * RuleEvalState * list Event :=
  let state1 := match ActiveSince state !! fingerprint with
                | Some _ => state
                | None => set_ActiveSince (<[fingerprint := now]> (ActiveSince state)) state
                end in
  let activeSince := default zero_time (ActiveSince state1 !! fingerprint) in
  let '(alert0, e1) :=
    match alerts e !! fingerprint with
    | Some alert => (alert, e)
    | None => (new_alert (uuid (uuids e)) rule fingerprint res activeSince now, draw_uuid e)
    end in
  let alert1 := observe_value (er_Value res) now alert0 in
  let shouldFire := rule_ForDuration rule <=? time_Sub now activeSince in
  if shouldFire && bool_decide (alert_State alert1 ≠ StateFiring) then
    let alert2 := fire now alert1 in
    let state2 := set_PendingAlerts (delete fingerprint (PendingAlerts state1))
                    (set_FiringAlerts (<[fingerprint := true]> (FiringAlerts state1)) state1) in
    if isSilenced silences alert2 then
      (set_alerts (<[fingerprint := alert2]> (alerts e1)) e1, state2, [EvSave alert2])
    else
      let alert3 := set_NotifiedAt now alert2 in
      (set_alerts (<[fingerprint := alert3]> (alerts e1)) e1, state2,
       (if onNotify e1 then [EvNotify alert2 rule] else []) ++ [EvSave alert3])
  else if negb shouldFire && bool_decide (alert_State alert1 = StateInactive) then
    let alert2 := set_State StatePending alert1 in
    let state2 := set_PendingAlerts (<[fingerprint := activeSince]> (PendingAlerts state1)) state1 in
    (set_alerts (<[fingerprint := alert2]> (alerts e1)) e1, state2, [EvSave alert2])
  else
    (set_alerts (<[fingerprint := alert1]> (alerts e1)) e1, state1, [EvSave alert1]).

(** The keep-firing window has not run out. *)
Definition keeps_firing (rule : Rule) (now : Time) (alert : Alert) : bool :=
  bool_decide (alert_State alert = StateFiring) && (0 <? rule_KeepFiringFor rule) &&
  match alert_FiredAt alert with
  | Some t => time_Sub now t <? rule_KeepFiringFor rule
  | None => false
  end.

Definition open_alert (alert : Alert) : bool :=
  bool_decide (alert_State alert = StateFiring ∨ alert_State alert = StatePending).

Definition handleResolvedResult (rule : Rule) (fingerprint : string) (now : Time)
    (e : Evaluator) (state : RuleEvalState) : Evaluator * RuleEvalState * list Event :=
  let wasActive := default zero_time (ActiveSince state !! fingerprint) in
  let state1 := set_PendingAlerts (delete fingerprint (PendingAlerts state))
                  (set_ActiveSince (delete fingerprint (ActiveSince state)) state) in
  if IsZero wasActive then (e, state1, [])
  else
    match alerts e !! fingerprint with
    | None => (e, state1, [])
    | Some alert =>
        if keeps_firing rule now alert then (e, state1, [])
        else
          let state2 := set_FiringAlerts (delete fingerprint (FiringAlerts state1)) state1 in
          if open_alert alert then
            let alert1 := resolve now alert in
            (set_alerts (<[fingerprint := alert1]> (alerts e)) e, state2, [EvSave alert1])
          else (e, state2, [])
    end.

(** One iteration of the first loop of [processResults]. *)
Definition handle_result (silences : option (list Silence)) (rule : Rule) (now : Time)
    (res : EvalResult) (e : Evaluator) (state : RuleEvalState)
    : Evaluator * RuleEvalState * list Event :=
  let fingerprint := generateFingerprint (rule_ID rule) (er_Labels res) in
  if er_Firing res then handleFiringResult silences rule fingerprint res now e state
  else handleResolvedResult rule fingerprint now e state.

Fixpoint handle_results (silences : option (list Silence)) (rule : Rule) (now : Time)
    (results : list EvalResult) (e : Evaluator) (state : RuleEvalState)
    : Evaluator * RuleEvalState * list Event :=
  match results with
  | [] => (e, state, [])
  | res :: rest =>
      let '(e1, state1, evs1) := handle_result silences rule now res e state in
      let '(e2, state2, evs2) := handle_results silences rule now rest e1 state1 in
      (e2, state2, evs1 ++ evs2)
  end.

(** One iteration of the loop over firing alerts that were not seen. *)
Definition resolve_unseen (now : Time) (fingerprint : string) (e : Evaluator)
    (state : RuleEvalState) : Evaluator * RuleEvalState * list Event :=
  let state1 := mkRuleEvalState (LastEval state) (delete fingerprint (ActiveSince state))
                  (delete fingerprint (FiringAlerts state))
                  (delete fingerprint (PendingAlerts state)) in
  match alerts e !! fingerprint with
  | Some alert =>
      if open_alert alert then
        let alert1 := resolve now alert in
        (set_alerts (<[fingerprint := alert1]> (alerts e)) e, state1, [EvSave alert1])
      else (e, state1, [])
  | None => (e, state1, [])
  end.

Fixpoint resolve_all_unseen (now : Time) (seen : list string) (fingerprints : list string)
    (e : Evaluator) (state : RuleEvalState) : Evaluator * RuleEvalState * list Event :=
  match fingerprints with
  | [] => (e, state, [])
  | fp :: rest =>
      if bool_decide (fp ∈ seen) then resolve_all_unseen now seen rest e state
      else
        let '(e1, state1, evs1) := resolve_unseen now fp e state in
        let '(e2, state2, evs2) := resolve_all_unseen now seen rest e1 state1 in
        (e2, state2, evs1 ++ evs2)
  end.

Definition seenFingerprints (rule : Rule) (results : list EvalResult) : list string :=
  (λ res, generateFingerprint (rule_ID rule) (er_Labels res)) <$> results.

Definition processResults (silences : option (list Silence)) (now : Time) (rule : Rule)
    (results : list EvalResult) (e : Evaluator) (state : RuleEvalState)
    : Evaluator * RuleEvalState * list Event :=
  let '(e1, state1, evs1) := handle_results silences rule now results e state in
  let '(e2, state2, evs2) :=
    resolve_all_unseen now (seenFingerprints rule results)
      (map_to_list (FiringAlerts state1)).*1 e1 state1 in
  (e2, state2, evs1 ++ evs2).

(** The switch on the rule type. *)
Definition evaluate_by_type (mp : MetricsProvider) (now : Time) (rule : Rule) (e : Evaluator)
    : result (list EvalResult) :=
  if String.eqb (rule_Type rule) RuleTypeThreshold then evaluateThreshold mp now rule
  else if String.eqb (rule_Type rule) RuleTypeAnomaly then evaluateAnomaly mp rule
  else if String.eqb (rule_Type rule) RuleTypeChange then evaluateChange mp rule
  else if String.eqb (rule_Type rule) RuleTypeAbsence then evaluateAbsence mp now rule
  else if String.eqb (rule_Type rule) RuleTypeComposite then evaluateComposite e now rule
  else Err "Unknown rule type".

Definition eval_interval (rule : Rule) : Duration :=
  if rule_EvalInterval rule =? 0 then Minute else rule_EvalInterval rule.

(** The state of the rule, created on first use; the pointer [state] the code
    holds is the entry of [evalState] for the rule. *)
Definition evaluateRule (mp : MetricsProvider) (silences : option (list Silence)) (now : Time)
    (rule : Rule) (e : Evaluator) : Evaluator * list Event :=
  let state := default newRuleEvalState (evalState e !! rule_ID rule) in
  let e1 := set_evalState (<[rule_ID rule := state]> (evalState e)) e in
  if Since now (LastEval state) <? eval_interval rule then (e1, [])
  else
    let state1 := set_LastEval now state in
    let e2 := set_evalState (<[rule_ID rule := state1]> (evalState e1)) e1 in
    match evaluate_by_type mp now rule e2 with
    | Ok results =>
        let '(e3, state2, evs) := processResults silences now rule results e2 state1 in
        (set_evalState (<[rule_ID rule := state2]> (evalState e3)) e3, evs)
    | _ => (e2, [])
    end.

Definition expired (now : Time) (alert : Alert) : bool :=
  bool_decide (alert_State alert = StateResolved) &&
  match alert_ResolvedAt alert with
  | Some t => Before t (now - Hour)
  | None => false
  end.

Definition cleanupResolvedAlerts (now : Time) (e : Evaluator) : Evaluator :=
  set_alerts (filter (λ kv, expired now kv.2 = false) (alerts e)) e.

Fixpoint evaluate_rules (mp : MetricsProvider) (silences : option (list Silence)) (now : Time)
    (rules : list Rule) (e : Evaluator) : Evaluator * list Event :=
  match rules with
  | [] => (e, [])
  | rule :: rest =>
      let '(e1, evs1) := evaluateRule mp silences now rule e in
      let '(e2, evs2) := evaluate_rules mp silences now rest e1 in
      (e2, evs1 ++ evs2)
  end.

(** [rules] is what [ListEnabledRules] returns, [None] on an error. *)
Definition evaluateAll (mp : MetricsProvider) (silences : option (list Silence)) (now : Time)
    (rules : option (list Rule)) (e : Evaluator) : Evaluator * list Event :=
  match rules with
  | None => (e, [])
  | Some rs =>
      let '(e1, evs) := evaluate_rules mp silences now rs e in
      (cleanupResolvedAlerts now e1, evs)
  end.

(** ** Queries and acknowledgement *)

Definition alerts_in (st : AlertState) (e : Evaluator) : list Alert :=
  filter (λ a, alert_State a = st) (map_to_list (alerts e)).*2.
Definition GetFiringAlerts (e : Evaluator) : list Alert := alerts_in StateFiring e.
Definition GetPendingAlerts (e : Evaluator) : list Alert := alerts_in StatePending e.
Definition GetAlert (fingerprint : string) (e : Evaluator) : option Alert :=
  alerts e !! fingerprint.

(** The first alert with the ID in the iteration order. *)
Definition AcknowledgeAlert (alertID userID : string) (now : Time) (e : Evaluator)
    : Evaluator * result (list Event) :=
  match filter (λ kv, alert_ID kv.2 = alertID) (map_to_list (alerts e)) with
  | [] => (e, Err ("alert not found: " +:+ alertID))
  | (fp, alert) :: _ =>
      let alert1 := acknowledge userID now alert in
      (set_alerts (<[fp := alert1]> (alerts e)) e, Ok [EvSave alert1])
  end.

(** ** Elementary changes

    Every operation is a sequence of changes to one alert each; [notes] are the
    notifications they send. *)

Definition view (e : Evaluator) : gmap string Alert * nat := (alerts e, uuids e).

Section changes.
Context (silences : option (list Silence)) (rule : Rule) (now : Time) (installed : bool).

Inductive change : gmap string Alert * nat → gmap string Alert * nat → list (Alert * Rule) → Prop :=
| ch_new m n fp res since :
    m !! fp = None → change (m, n) (<[fp := new_alert (uuid n) rule fp res since now]> m, S n) []
| ch_observe m n fp a v :
    m !! fp = Some a → change (m, n) (<[fp := observe_value v now a]> m, n) []
| ch_pending m n fp a :
    m !! fp = Some a → alert_State a = StateInactive →
    change (m, n) (<[fp := set_State StatePending a]> m, n) []
| ch_fire_silenced m n fp a :
    m !! fp = Some a → alert_State a ≠ StateFiring → isSilenced silences (fire now a) = true →
    change (m, n) (<[fp := fire now a]> m, n) []
| ch_fire m n fp a :
    m !! fp = Some a → alert_State a ≠ StateFiring → isSilenced silences (fire now a) = false →
    change (m, n) (<[fp := set_NotifiedAt now (fire now a)]> m, n)
      (if installed then [(fire now a, rule)] else [])
| ch_resolve m n fp a :
    m !! fp = Some a → open_alert a = true →
    change (m, n) (<[fp := resolve now a]> m, n) [].

Inductive changes : gmap string Alert * nat → gmap string Alert * nat → list (Alert * Rule) → Prop :=
| chs_nil v : changes v v []
| chs_cons v1 v2 v3 n1 n2 : change v1 v2 n1 → changes v2 v3 n2 → changes v1 v3 (n1 ++ n2).

Lemma changes_app v1 v2 v3 n1 n2 : changes v1 v2 n1 → changes v2 v3 n2 → changes v1 v3 (n1 ++ n2).
Proof. induction 1; [done|]. intros. rewrite <- app_assoc. econstructor; eauto. Qed.

Lemma changes_one v1 v2 n : change v1 v2 n → changes v1 v2 n.
Proof. intros. rewrite <- (app_nil_r n). econstructor; [done|constructor]. Qed.

End changes.

(** The notifications among the events. *)
Definition notes (evs : list Event) : list (Alert * Rule) :=
  omap (λ ev, match ev with EvNotify a r => Some (a, r) | EvSave _ => None end) evs.

Lemma notes_app evs1 evs2 : notes (evs1 ++ evs2) = notes evs1 ++ notes evs2.
Proof. apply omap_app. Qed.

(** What one operation may do: change alerts elementarily, and nothing else. *)
Definition evolves (silences : option (list Silence)) (rule : Rule) (now : Time)
    (e : Evaluator) (out : Evaluator * RuleEvalState * list Event) : Prop :=
  changes silences rule now (onNotify e) (view e) (view out.1.1) (notes out.2) ∧
  onNotify out.1.1 = onNotify e ∧ evalState out.1.1 = evalState e.

Lemma evolves_nil silences rule now e st : evolves silences rule now e (e, st, []).
Proof. repeat split. constructor. Qed.

Lemma handleFiringResult_evolves silences rule fp res now e st :
  evolves silences rule now e (handleFiringResult silences rule fp res now e st).
Proof.
  unfold handleFiringResult.
  set (st1 := match ActiveSince st !! fp with Some _ => _ | None => _ end).
  set (since := default zero_time (ActiveSince st1 !! fp)).
  set (p := match alerts e !! fp with Some _ => _ | None => _ end).
  assert (Hp : ∃ a0 e1, p = (a0, e1) ∧ onNotify e1 = onNotify e ∧ evalState e1 = evalState e ∧
    changes silences rule now (onNotify e) (view e)
      (<[fp := observe_value (er_Value res) now a0]> (alerts e1), uuids e1) []).
  { subst p. destruct (alerts e !! fp) as [a|] eqn:Ea.
    - exists a, e. split_and!; [done..|]. by apply changes_one, ch_observe.
    - eexists _, _. split_and!; [done..|]. cbn.
      set (na := new_alert (uuid (uuids e)) rule fp res since now).
      pose proof (ch_observe silences rule now (onNotify e) (<[fp := na]> (alerts e)) (S (uuids e))
        fp na (er_Value res) (lookup_insert_eq _ _ _)) as Ho.
      rewrite insert_insert_eq in Ho.
      eapply (changes_app _ _ _ _ _ _ _ [] []); [|by apply changes_one].
      by apply changes_one, ch_new. }
  destruct Hp as (a0 & e1 & -> & Hn & Hs & Hch).
  set (a1 := observe_value (er_Value res) now a0) in *.
  assert (Hlast : ∀ a' ns, change silences rule now (onNotify e) (<[fp := a1]> (alerts e1), uuids e1)
      (<[fp := a']> (<[fp := a1]> (alerts e1)), uuids e1) ns →
    changes silences rule now (onNotify e) (view e) (<[fp := a']> (alerts e1), uuids e1) ns).
  { intros a' ns Hc. rewrite insert_insert_eq in Hc.
    eapply (changes_app _ _ _ _ _ _ _ []); [exact Hch|]. by apply changes_one. }
  case_match eqn:Hb; [|case_match eqn:Hb2].
  - apply andb_true_iff in Hb as [_ Hb%bool_decide_eq_true].
    destruct (isSilenced silences (fire now a1)) eqn:Hsil; (split; [|done]); cbn.
    + apply Hlast. apply ch_fire_silenced; [by rewrite lookup_insert_eq|done|done].
    + rewrite notes_app. cbn. rewrite app_nil_r, Hn.
      replace (notes _) with (if onNotify e then [(fire now a1, rule)] else []) by by destruct (onNotify e).
      apply Hlast. apply ch_fire; [by rewrite lookup_insert_eq|done|done].
  - apply andb_true_iff in Hb2 as [_ Hb2%bool_decide_eq_true]. split; [|done]. cbn.
    apply Hlast, ch_pending; [by rewrite lookup_insert_eq|done].
  - split; [|done]. exact Hch.
Qed.

Lemma handleResolvedResult_evolves silences rule fp now e st :
  evolves silences rule now e (handleResolvedResult rule fp now e st).
Proof.
  unfold handleResolvedResult. case_match; [apply evolves_nil|].
  destruct (alerts e !! fp) as [a|] eqn:Ea; [|apply evolves_nil].
  case_match; [apply evolves_nil|]. case_match eqn:Ho; [|apply evolves_nil].
  split; [|done]. by apply changes_one, ch_resolve.
Qed.

Lemma resolve_unseen_evolves silences rule fp now e st :
  evolves silences rule now e (resolve_unseen now fp e st).
Proof.
  unfold resolve_unseen. destruct (alerts e !! fp) as [a|] eqn:Ea; [|apply evolves_nil].
  case_match eqn:Ho; [|apply evolves_nil]. split; [|done]. by apply changes_one, ch_resolve.
Qed.

Lemma evolves_trans silences rule now e e1 st1 evs1 e2 st2 evs2 :
  evolves silences rule now e (e1, st1, evs1) → evolves silences rule now e1 (e2, st2, evs2) →
  evolves silences rule now e (e2, st2, evs1 ++ evs2).
Proof.
  intros (H1 & H2 & H3) (H4 & H5 & H6). cbn in *. split_and!; cbn; [|congruence..].
  rewrite notes_app. eapply changes_app; [exact H1|]. by rewrite <- H2.
Qed.

Lemma handle_results_evolves silences rule now results e st :
  evolves silences rule now e (handle_results silences rule now results e st).
Proof.
  revert e st. induction results as [|res rest IH]; intros e st; [apply evolves_nil|].
  cbn [handle_results].
  assert (H1 : evolves silences rule now e (handle_result silences rule now res e st)).
  { unfold handle_result. case_match;
      [apply handleFiringResult_evolves|apply handleResolvedResult_evolves]. }
  destruct (handle_result _ _ _ _ _ _) as [[e1 st1] evs1].
  specialize (IH e1 st1). destruct (handle_results _ _ _ _ _ _) as [[e2 st2] evs2].
  by eapply evolves_trans.
Qed.

Lemma resolve_all_unseen_evolves silences rule now seen fps e st :
  evolves silences rule now e (resolve_all_unseen now seen fps e st).
Proof.
  revert e st. induction fps as [|fp fps IH]; intros e st; [apply evolves_nil|].
  cbn [resolve_all_unseen]. case_match; [done|].
  pose proof (resolve_unseen_evolves silences rule fp now e st) as H1.
  destruct (resolve_unseen _ _ _ _) as [[e1 st1] evs1].
  specialize (IH e1 st1). destruct (resolve_all_unseen _ _ _ _ _) as [[e2 st2] evs2].
  by eapply evolves_trans.
Qed.

Lemma processResults_evolves silences now rule results e st :
  evolves silences rule now e (processResults silences now rule results e st).
Proof.
  unfold processResults. pose proof (handle_results_evolves silences rule now results e st) as H1.
  destruct (handle_results _ _ _ _ _ _) as [[e1 st1] evs1].
  pose proof (resolve_all_unseen_evolves silences rule now (seenFingerprints rule results)
    (map_to_list (FiringAlerts st1)).*1 e1 st1) as H2.
  destruct (resolve_all_unseen _ _ _ _ _) as [[e2 st2] evs2]. by eapply evolves_trans.
Qed.

Lemma evaluateRule_changes mp silences now rule e :
  let out := evaluateRule mp silences now rule e in
  changes silences rule now (onNotify e) (view e) (view out.1) (notes out.2) ∧
  onNotify out.1 = onNotify e.
Proof.
  unfold evaluateRule. case_match; [split; [constructor|done]|].
  case_match; [|split; [constructor|done]..].
  match goal with |- context [processResults ?s ?n ?r ?rs ?e2 ?st] =>
    pose proof (processResults_evolves s n r rs e2 st) as (H1 & H2 & _);
    destruct (processResults s n r rs e2 st) as [[e3 st3] evs] end.
  by split.
Qed.

(** ** The life cycle of an alert *)

Inductive transition : option AlertState → option AlertState → Prop :=
| tr_new : transition None (Some StatePending)
| tr_wake : transition (Some StateInactive) (Some StatePending)
| tr_fire st : st ≠ StateFiring → transition (Some st) (Some StateFiring)
| tr_resolve st : st = StateFiring ∨ st = StatePending → transition (Some st) (Some StateResolved).

Definition state_at (fp : string) (m : gmap string Alert) : option AlertState :=
  alert_State <$> m !! fp.

Lemma state_insert fp fp' a m :
  state_at fp' (<[fp := a]> m) = if decide (fp = fp') then Some (alert_State a) else state_at fp' m.
Proof.
  unfold state_at. case_decide as H; [subst; by rewrite lookup_insert_eq|by rewrite lookup_insert_ne].
Qed.

Lemma change_transition silences rule now inst v v' ns fp :
  change silences rule now inst v v' ns → rtc transition (state_at fp v.1) (state_at fp v'.1).
Proof.
  intros H. destruct H as [m n fp' res since Hm|m n fp' a v Hm|m n fp' a Hm Hst|m n fp' a Hm Hst _|m n fp' a Hm Hst _|m n fp' a Hm Ho];
    cbn; rewrite state_insert; case_decide as Hfp; try apply rtc_refl; subst fp';
    unfold state_at; rewrite Hm; cbn.
  - apply rtc_once, tr_new.
  - apply rtc_refl.
  - rewrite Hst. apply rtc_once, tr_wake.
  - by apply rtc_once, tr_fire.
  - by apply rtc_once, tr_fire.
  - apply rtc_once, tr_resolve. by apply bool_decide_eq_true in Ho.
Qed.

Lemma changes_transition silences rule now inst v v' ns fp :
  changes silences rule now inst v v' ns → rtc transition (state_at fp v.1) (state_at fp v'.1).
Proof.
  induction 1; [apply rtc_refl|]. etrans; [by eapply change_transition|done].
Qed.

Lemma evaluate_rules_transition mp silences now rules e fp :
  rtc transition (state_at fp (alerts e))
    (state_at fp (alerts (evaluate_rules mp silences now rules e).1)).
Proof.
  revert e. induction rules as [|rule rest IH]; intros e; [apply rtc_refl|]. cbn [evaluate_rules].
  destruct (evaluateRule_changes mp silences now rule e) as [H1 _].
  destruct (evaluateRule mp silences now rule e) as [e1 evs1]. specialize (IH e1).
  destruct (evaluate_rules mp silences now rest e1) as [e2 evs2].
  etrans; [exact (changes_transition _ _ _ _ _ _ _ fp H1)|exact IH].
Qed.

Lemma transition_fired st st' :
  rtc transition st st' → st = Some StateFiring ∨ st = Some StateResolved →
  st' = Some StateFiring ∨ st' = Some StateResolved.
Proof.
  induction 1 as [|x y z Hxy _ IH]; [done|]. intros Hx. apply IH.
  inversion Hxy; subst; destruct Hx; simplify_eq; auto.
Qed.

Lemma cleanup_lookup now e fp :
  alerts (cleanupResolvedAlerts now e) !! fp =
  match alerts e !! fp with
  | Some a => if expired now a then None else Some a
  | None => None
  end.
Proof.
  unfold cleanupResolvedAlerts. cbn. rewrite map_lookup_filter.
  destruct (alerts e !! fp) as [a|]; [|done]. cbn.
  destruct (expired now a); [by rewrite option_guard_False|by rewrite option_guard_True].
Qed.

(** A resolved alert was resolved just now, or was resolved at its time before. *)
Definition resolved_then (now : Time) (m0 m : gmap string Alert) (fp : string) : Prop :=
  ∀ a t, m !! fp = Some a → alert_State a = StateResolved → alert_ResolvedAt a = Some t →
    t = now ∨ ∃ a0, m0 !! fp = Some a0 ∧ alert_State a0 = StateResolved ∧ alert_ResolvedAt a0 = Some t.

Lemma change_resolved silences rule now inst v v' ns m0 fp :
  change silences rule now inst v v' ns → resolved_then now m0 v.1 fp → resolved_then now m0 v'.1 fp.
Proof.
  intros H Hm0. destruct H as [m n fp' res since Hm|m n fp' a v Hm|m n fp' a Hm Hst|m n fp' a Hm Hst _|m n fp' a Hm Hst _|m n fp' a Hm Ho];
    intros a' t; cbn in *; (destruct (decide (fp' = fp)) as [->|Hfp]; [|by rewrite lookup_insert_ne by done; apply Hm0]);
    rewrite lookup_insert_eq; intros [= <-]; cbn; try done.
  - by apply Hm0.
  - intros _ [= <-]. by left.
Qed.

Lemma changes_resolved silences rule now inst v v' ns m0 fp :
  changes silences rule now inst v v' ns → resolved_then now m0 v.1 fp → resolved_then now m0 v'.1 fp.
Proof. induction 1; eauto using change_resolved. Qed.

Lemma evaluate_rules_resolved mp silences now rules e m0 fp :
  resolved_then now m0 (alerts e) fp → resolved_then now m0 (alerts (evaluate_rules mp silences now rules e).1) fp.
Proof.
  revert e. induction rules as [|rule rest IH]; intros e He; [done|]. cbn [evaluate_rules].
  destruct (evaluateRule_changes mp silences now rule e) as [H1 _].
  destruct (evaluateRule mp silences now rule e) as [e1 evs1]. specialize (IH e1).
  destruct (evaluate_rules mp silences now rest e1) as [e2 evs2].
  apply IH. exact (changes_resolved _ _ _ _ _ _ _ _ _ H1 He).
Qed.

(** ** The invariant *)

(** What holds of an alert kept under a fingerprint, when [n] IDs were drawn. *)
Record alert_ok (n : nat) (fp : string) (a : Alert) : Prop := {
  ok_fingerprint : alert_Fingerprint a = fp;
  ok_active : alert_State a ≠ StateInactive;
  ok_fired : alert_State a = StateFiring → is_Some (alert_FiredAt a);
  ok_resolved : alert_State a = StateResolved → is_Some (alert_ResolvedAt a);
  ok_id : ∃ k, (k < n)%nat ∧ alert_ID a = uuid k;
}.

Record alerts_ok (v : gmap string Alert * nat) : Prop := {
  all_ok fp a : v.1 !! fp = Some a → alert_ok v.2 fp a;
  ids_distinct fp1 fp2 a1 a2 :
    v.1 !! fp1 = Some a1 → v.1 !! fp2 = Some a2 → alert_ID a1 = alert_ID a2 → fp1 = fp2;
}.

Lemma alert_ok_mono n n' fp a : (n ≤ n')%nat → alert_ok n fp a → alert_ok n' fp a.
Proof. intros Hn [??? ? (k & ? & ?)]. split; try done. exists k. split; [lia|done]. Qed.

(** Replacing an alert by one with the same ID. *)
Lemma alerts_ok_update m n fp a a' :
  alerts_ok (m, n) → m !! fp = Some a → alert_ID a' = alert_ID a → alert_ok n fp a' →
  alerts_ok (<[fp := a']> m, n).
Proof.
  intros [Hall Hids] Hm Hid Hok. split; cbn in *.
  - intros fp1 a1 [[<- <-]|[Hne H]]%lookup_insert_Some; [done|by apply Hall].
  - intros fp1 fp2 a1 a2 [[<- <-]|[Hne1 H1]]%lookup_insert_Some
      [[<- <-]|[Hne2 H2]]%lookup_insert_Some E; [done|..].
    + rewrite Hid in E. by apply (Hids _ _ _ _ Hm H2).
    + rewrite Hid in E. by apply (Hids _ _ _ _ H1 Hm).
    + by apply (Hids _ _ _ _ H1 H2).
Qed.

Lemma change_ok `{!Inj (=) (=) uuid} silences rule now inst v v' ns :
  change silences rule now inst v v' ns → alerts_ok v → alerts_ok v'.
Proof.
  intros H Hok. destruct H as [m n fp res since Hm|m n fp a v Hm|m n fp a Hm Hst|m n fp a Hm Hst _|m n fp a Hm Hst _|m n fp a Hm Ho].
  2-6: eapply alerts_ok_update; [exact Hok|exact Hm|done|];
       destruct (all_ok _ Hok fp a Hm) as [H1 H2 H3 H4 H5]; split; cbn; eauto; done.
  destruct Hok as [Hall Hids]. cbn in *.
  assert (Hfresh : ∀ fp1 a1, m !! fp1 = Some a1 → alert_ID a1 ≠ uuid n).
  { intros fp1 a1 H1 E. destruct (ok_id _ _ _ (Hall fp1 a1 H1)) as (k & Hk & Ek).
    rewrite Ek in E. apply (inj uuid) in E. lia. }
  split; cbn.
  - intros fp1 a1 [[<- <-]|[Hne H]]%lookup_insert_Some.
    + split; cbn; try done. exists n. split; [lia|done].
    + eapply alert_ok_mono; [|by apply Hall]. lia.
  - intros fp1 fp2 a1 a2 [[<- <-]|[Hne1 H1]]%lookup_insert_Some
      [[<- <-]|[Hne2 H2]]%lookup_insert_Some E; [done|..].
    + by destruct (Hfresh _ _ H2).
    + by destruct (Hfresh _ _ H1).
    + by apply (Hids _ _ _ _ H1 H2).
Qed.

Lemma changes_ok `{!Inj (=) (=) uuid} silences rule now inst v v' ns :
  changes silences rule now inst v v' ns → alerts_ok v → alerts_ok v'.
Proof. induction 1; eauto using change_ok. Qed.

Lemma evaluate_rules_ok `{!Inj (=) (=) uuid} mp silences now rules e :
  alerts_ok (view e) → alerts_ok (view (evaluate_rules mp silences now rules e).1).
Proof.
  revert e. induction rules as [|rule rest IH]; intros e He; [done|]. cbn [evaluate_rules].
  destruct (evaluateRule_changes mp silences now rule e) as [H1 _].
  apply changes_ok in H1; [|done..].
  destruct (evaluateRule mp silences now rule e) as [e1 evs1]. specialize (IH e1 H1).
  by destruct (evaluate_rules mp silences now rest e1) as [e2 evs2].
Qed.

Lemma cleanup_ok now e : alerts_ok (view e) → alerts_ok (view (cleanupResolvedAlerts now e)).
Proof.
  intros [Hall Hids]. cbn in *.
  assert (Hsub : ∀ fp a, alerts (cleanupResolvedAlerts now e) !! fp = Some a → alerts e !! fp = Some a).
  { intros fp a. rewrite cleanup_lookup. destruct (alerts e !! fp); [|done]. by case_match. }
  split; cbn; eauto.
Qed.

(** Everything an evaluator goes through. *)
Inductive evaluator_reachable : Evaluator → Prop :=
| er_new : evaluator_reachable NewEvaluator
| er_notify e : evaluator_reachable e → evaluator_reachable (SetNotifyFunc e)
| er_evaluate mp silences now rules e :
    evaluator_reachable e → evaluator_reachable (evaluateAll mp silences now rules e).1
| er_acknowledge alertID user now e :
    evaluator_reachable e → evaluator_reachable (AcknowledgeAlert alertID user now e).1.

Lemma acknowledge_cases alertID user now e :
  (∃ fp a, alerts e !! fp = Some a ∧ alert_ID a = alertID ∧
     AcknowledgeAlert alertID user now e =
     (set_alerts (<[fp := acknowledge user now a]> (alerts e)) e, Ok [EvSave (acknowledge user now a)])) ∨
  ((∀ fp a, alerts e !! fp = Some a → alert_ID a ≠ alertID) ∧
   AcknowledgeAlert alertID user now e = (e, Err ("alert not found: " +:+ alertID))).
Proof.
  unfold AcknowledgeAlert. destruct (filter _ _) as [|[fp a] l] eqn:E.
  - right. split; [|done]. intros fp a Ha Hid.
    assert ((fp, a) ∈ filter (λ kv : string * Alert, alert_ID kv.2 = alertID) (map_to_list (alerts e))) as Hin.
    { apply list_elem_of_filter. split; [done|]. by apply elem_of_map_to_list. }
    rewrite E in Hin. by apply not_elem_of_nil in Hin.
  - left. exists fp, a.
    assert ((fp, a) ∈ filter (λ kv : string * Alert, alert_ID kv.2 = alertID) (map_to_list (alerts e))) as Hin
      by (rewrite E; set_solver).
    apply list_elem_of_filter in Hin as [Hid Hin%elem_of_map_to_list]. done.
Qed.

Lemma reachable_ok `{!Inj (=) (=) uuid} e : evaluator_reachable e → alerts_ok (view e).
Proof.
  induction 1 as [|e _ IH|mp silences now rules e _ IH|alertID user now e _ IH]; [done|done| |].
  - unfold evaluateAll. destruct rules as [rs|]; [|done].
    pose proof (evaluate_rules_ok mp silences now rs e IH) as H.
    destruct (evaluate_rules mp silences now rs e) as [e1 evs]. by apply cleanup_ok.
  - destruct (acknowledge_cases alertID user now e) as [(fp & a & Ha & _ & ->)|[_ ->]]; [|done].
    cbn. eapply alerts_ok_update; [exact IH|exact Ha|done|].
    destruct (all_ok _ IH fp a Ha) as [H1 H2 H3 H4 H5]. by split.
Qed.

(** C9: the life cycle of an alert over a full evaluation round: the state under any fingerprint
    moves along created-pending-firing-resolved(-firing), and an alert that fired is never pending
    again. The only alerts forgotten are those that were resolved before the round, more than an
    hour before it, and did not fire again in it; and a round that could read its rules leaves no
    alert that has been resolved for more than an hour. *)
Theorem alert_lifecycle mp silences now rules e fp :
  let e' := (evaluateAll mp silences now rules e).1 in
  ∃ st, rtc transition (state_at fp (alerts e)) st ∧
    (state_at fp (alerts e') = st ∨
     st = Some StateResolved ∧ alerts e' !! fp = None ∧
     ∃ a t, alerts e !! fp = Some a ∧ alert_State a = StateResolved ∧ alert_ResolvedAt a = Some t ∧
       Hour < now - t) ∧
    (state_at fp (alerts e) = Some StateFiring → st = Some StateFiring ∨ st = Some StateResolved) ∧
    (is_Some rules → ∀ a t, alerts e' !! fp = Some a → alert_State a = StateResolved →
       alert_ResolvedAt a = Some t → now - t ≤ Hour).
Proof.
  cbn. unfold evaluateAll. destruct rules as [rs|].
  2: { eexists. split; [apply rtc_refl|]. split; [by left|]. split; [auto|by intros [? ?]]. }
  pose proof (evaluate_rules_transition mp silences now rs e fp) as Ht.
  assert (Hr : resolved_then now (alerts e) (alerts (evaluate_rules mp silences now rs e).1) fp).
  { apply evaluate_rules_resolved. intros a t Ha Hst Hat. right. by exists a. }
  destruct (evaluate_rules mp silences now rs e) as [e1 evs]. cbn [fst] in Ht, Hr |- *.
  exists (state_at fp (alerts e1)). split_and!; [done| | |].
  - unfold state_at. rewrite cleanup_lookup.
    destruct (alerts e1 !! fp) as [a|] eqn:Ea; [|by left]. destruct (expired now a) eqn:Ex; [|by left].
    right. unfold expired in Ex. apply andb_true_iff in Ex as [Ex%bool_decide_eq_true Et].
    split; [cbn; by rewrite Ex|]. split; [done|].
    destruct (alert_ResolvedAt a) as [t|] eqn:Eat; [|done]. unfold Before in Et.
    destruct (Hr a t Ea Ex Eat) as [->|(a0 & H1 & H2 & H3)]; [assert (0 < Hour) by done; lia|].
    exists a0, t. split_and!; [done..|lia].
  - intros Hf. eapply transition_fired; [exact Ht|by left].
  - intros _ a t. rewrite cleanup_lookup. destruct (alerts e1 !! fp) as [a1|]; [|done]. destruct (expired now a1) eqn:Ex; [done|].
    intros [= <-] Hst Hat. unfold expired in Ex. rewrite Hat, bool_decide_true in Ex by done. unfold Before in Ex. cbn in Ex. lia.
Qed.

(** C16: the invariant of the evaluator, from its creation through every
    sequence of evaluations, acknowledgements and callback installations: each
    alert sits under its own fingerprint, is pending, firing or resolved, has a
    firing (resolution) time when firing (resolved), and alert IDs are unique,
    given that the uuid generator does not repeat itself. *)
Theorem evaluator_invariant `{!Inj (=) (=) uuid} e :
  evaluator_reachable e →
  (∀ fp a, GetAlert fp e = Some a →
     alert_Fingerprint a = fp ∧ alert_State a ≠ StateInactive ∧
     (alert_State a = StateFiring → is_Some (alert_FiredAt a)) ∧
     (alert_State a = StateResolved → is_Some (alert_ResolvedAt a))) ∧
  (∀ fp1 fp2 a1 a2, GetAlert fp1 e = Some a1 → GetAlert fp2 e = Some a2 →
     alert_ID a1 = alert_ID a2 → fp1 = fp2).
Proof.
  intros [Hall Hids]%reachable_ok. unfold GetAlert. split; [|exact Hids].
  intros fp a Ha. by destruct (Hall fp a Ha).
Qed.

(** Acknowledging an alert by ID reaches exactly that alert, whatever the
    map iteration order: it keeps its state, is marked and saved, and no other
    alert changes; an unknown ID is an error and changes nothing. *)
Theorem acknowledge_exactly_one `{!Inj (=) (=) uuid} alertID user now e :
  evaluator_reachable e →
  (∀ fp a, GetAlert fp e = Some a → alert_ID a = alertID →
     AcknowledgeAlert alertID user now e =
     (set_alerts (<[fp := acknowledge user now a]> (alerts e)) e,
      Ok [EvSave (acknowledge user now a)])) ∧
  ((∀ fp a, GetAlert fp e = Some a → alert_ID a ≠ alertID) →
     AcknowledgeAlert alertID user now e = (e, Err ("alert not found: " +:+ alertID))).
Proof.
  intros [_ Hids]%reachable_ok. unfold GetAlert. cbn in Hids.
  destruct (acknowledge_cases alertID user now e) as [(fp & a & Ha & Hid & ->)|[Hno ->]].
  - split; [|intros Hno; by destruct (Hno fp a Ha)]. intros fp' a' Ha' Hid'.
    assert (fp' = fp) as -> by (apply (Hids _ _ _ _ Ha' Ha); congruence).
    rewrite Ha in Ha'. by injection Ha' as <-.
  - split; [|done]. intros fp a Ha Hid. by destruct (Hno fp a Ha).
Qed.

Lemma changes_notes silences rule now inst v v' ns a r :
  changes silences rule now inst v v' ns → (a, r) ∈ ns →
  inst = true ∧ r = rule ∧ alert_State a = StateFiring ∧ alert_FiredAt a = Some now ∧
  isSilenced silences a = false.
Proof.
  induction 1 as [|v1 v2 v3 n1 n2 Hc _ IH]; [by intros ?%not_elem_of_nil|].
  intros [Hin|?]%elem_of_app; [|by apply IH].
  destruct Hc; try by apply not_elem_of_nil in Hin.
  destruct inst; [|by apply not_elem_of_nil in Hin].
  apply list_elem_of_singleton in Hin as [= -> ->]. done.
Qed.

(** An alert keeps its ID and labels while it is in memory. *)
Lemma change_keeps silences rule now inst v v' ns fp a :
  change silences rule now inst v v' ns → v.1 !! fp = Some a →
  ∃ a', v'.1 !! fp = Some a' ∧ alert_ID a' = alert_ID a ∧ alert_Labels a' = alert_Labels a.
Proof.
  intros Hc Ha. destruct Hc as [m n fp' res since Hm|m n fp' b v Hm|m n fp' b Hm _|m n fp' b Hm _ _|m n fp' b Hm _ _|m n fp' b Hm _];
    cbn in *; destruct (decide (fp' = fp)) as [->|Hne];
    first [ (rewrite lookup_insert_ne by done); by exists a
          | rewrite lookup_insert_eq; simplify_eq; by eexists ].
Qed.

Lemma changes_keep silences rule now inst v v' ns fp a :
  changes silences rule now inst v v' ns → v.1 !! fp = Some a →
  ∃ a', v'.1 !! fp = Some a' ∧ alert_ID a' = alert_ID a ∧ alert_Labels a' = alert_Labels a.
Proof.
  intros Hc. revert a. induction Hc as [|v1 v2 v3 n1 n2 H1 _ IH]; intros a Ha; [by exists a|].
  destruct (change_keeps _ _ _ _ _ _ _ _ _ H1 Ha) as (a1 & Ha1 & E1 & E2).
  destruct (IH a1 Ha1) as (a2 & Ha2 & E3 & E4). exists a2. split_and!; [done|congruence..].
Qed.

Lemma isSilenced_labels silences a a' :
  alert_Labels a = alert_Labels a' → isSilenced silences a = isSilenced silences a'.
Proof. intros E. unfold isSilenced, matchesSilence. by rewrite E. Qed.

(** Becoming firing sends the notification. *)
Lemma changes_notify silences rule now v v' ns fp a' :
  changes silences rule now true v v' ns → v'.1 !! fp = Some a' →
  state_at fp v.1 ≠ Some StateFiring → alert_State a' = StateFiring →
  isSilenced silences a' = false → ∃ a, (a, rule) ∈ ns ∧ alert_ID a = alert_ID a'.
Proof.
  intros Hc Ha'. induction Hc as [v|v1 v2 v3 n1 n2 H1 H2 IH]; intros Hst Hf Hsil.
  { unfold state_at in Hst. rewrite Ha' in Hst. cbn in Hst. congruence. }
  destruct (decide (state_at fp v2.1 = Some StateFiring)) as [Hv2|Hv2].
  2: { destruct (IH Ha' Hv2 Hf Hsil) as (a & Ha & E). exists a. split; [set_solver|done]. }
  assert (Hb : ∃ b, v2.1 !! fp = Some b).
  { unfold state_at in Hv2. destruct (v2.1 !! fp); [by eexists|done]. }
  destruct Hb as [b Hb].
  destruct (changes_keep _ _ _ _ _ _ _ _ _ H2 Hb) as (b' & Hb' & E1 & E2).
  rewrite Ha' in Hb'. injection Hb' as <-.
  destruct H1 as [m n fp' res since Hm|m n fp' c v Hm|m n fp' c Hm Hi|m n fp' c Hm Hi Hs|m n fp' c Hm Hi Hs|m n fp' c Hm Ho];
    cbn in *; destruct (decide (fp' = fp)) as [->|Hne];
    try (by rewrite state_insert, decide_False in Hv2 by done);
    rewrite state_insert, decide_True in Hv2 by done; rewrite lookup_insert_eq in Hb;
    injection Hb as <-; cbn in *; try done.
  - exfalso. apply Hst. unfold state_at. by rewrite Hm.
  - rewrite (isSilenced_labels _ _ a') in Hs by (by rewrite E2). congruence.
  - exists (fire now c). split; [set_solver|]. by rewrite E1.
Qed.

(** Notifications of one rule evaluation.  Only alerts that fire now, that
    no active silence matches and with a callback installed are notified; and
    every alert that was not firing before the evaluation, fires after it and is
    not silenced is notified. *)
Theorem notified_iff_newly_firing_and_not_silenced mp silences now rule e :
  let out := evaluateRule mp silences now rule e in
  (∀ a r, (a, r) ∈ notes out.2 →
     onNotify e = true ∧ r = rule ∧ alert_State a = StateFiring ∧ alert_FiredAt a = Some now ∧
     isSilenced silences a = false) ∧
  (∀ fp a', onNotify e = true → alerts out.1 !! fp = Some a' →
     state_at fp (alerts e) ≠ Some StateFiring → alert_State a' = StateFiring →
     isSilenced silences a' = false →
     ∃ a, (a, rule) ∈ notes out.2 ∧ alert_ID a = alert_ID a').
Proof.
  intros out. destruct (evaluateRule_changes mp silences now rule e) as [Hc _].
  fold out in Hc. split.
  - intros a r Hin. exact (changes_notes _ _ _ _ _ _ _ a r Hc Hin).
  - intros fp a' Hon Ha' Hst Hf Hsil. rewrite Hon in Hc.
    by eapply (changes_notify _ _ _ _ _ _ fp a' Hc).
Qed.

(** ** The for-duration, against a reference automaton *)

(** The reference: since when the condition holds without interruption, whether
    it held long enough, and the number of times that became so. *)
Record episode := mkEpisode { ep_since : option Time; ep_firing : bool; ep_count : nat }.

Definition episode_step (d : Duration) (ep : episode) (ob : Time * bool) : episode :=
  let '(t, holds) := ob in
  if holds then
    let s := default t (ep_since ep) in
    let long := d <=? t - s in
    mkEpisode (Some s) (ep_firing ep || long)
      (if long && negb (ep_firing ep) then S (ep_count ep) else ep_count ep)
  else mkEpisode None false (ep_count ep).

Definition episodes (d : Duration) (obs : list (Time * bool)) : episode :=
  foldl (episode_step d) (mkEpisode None false 0) obs.

(** Successive evaluations of a rule whose query returns one series. *)
Fixpoint observe_run (rule : Rule) (ls : gmap string string) (obs : list (Time * bool * float64))
    (e : Evaluator) (state : RuleEvalState) : Evaluator * RuleEvalState * list Event :=
  match obs with
  | [] => (e, state, [])
  | (t, holds, v) :: rest =>
      let '(e1, state1, evs1) :=
        processResults (Some []) t rule [mkEvalResult ls v holds t] e state in
      let '(e2, state2, evs2) := observe_run rule ls rest e1 state1 in
      (e2, state2, evs1 ++ evs2)
  end.

Record tracks (fp : string) (e : Evaluator) (st : RuleEvalState) (since : option Time)
    (firing : bool) : Prop := {
  tk_since : ActiveSince st !! fp = since;
  tk_nonzero t : since = Some t → t ≠ zero_time;
  tk_alert : is_Some since → is_Some (alerts e !! fp);
  tk_firing : firing = bool_decide (state_at fp (alerts e) = Some StateFiring);
  tk_firing_since : firing = true → is_Some since;
}.

Lemma handleFiring_tracks rule fp res t e st since firing :
  tracks fp e st since firing → onNotify e = true → t ≠ zero_time →
  int64_min < rule_ForDuration rule ≤ int64_max →
  let '(e', st', evs) := handleFiringResult (Some []) rule fp res t e st in
  let long := rule_ForDuration rule <=? t - default t since in
  tracks fp e' st' (Some (default t since)) (firing || long) ∧ onNotify e' = true ∧
  length (notes evs) = (if long && negb firing then 1 else 0)%nat.
Proof.
  intros [Hs Hz Ha Hf Hfs] Hon Ht Hd. unfold handleFiringResult. rewrite Hs.
  set (st1 := match since with Some _ => st | None => _ end).
  assert (Hst1 : ActiveSince st1 !! fp = Some (default t since)).
  { subst st1. destruct since; [done|]. cbn. by rewrite lookup_insert_eq. }
  rewrite Hst1. cbn [default id].
  assert (Hlong : (rule_ForDuration rule <=? time_Sub t (default t since)) =
                  (rule_ForDuration rule <=? t - default t since)).
  { pose proof (time_Sub_le t (default t since) (rule_ForDuration rule) Hd).
    lia. }
  rewrite Hlong. set (long := rule_ForDuration rule <=? t - default t since).
  set (p := match alerts e !! fp with Some _ => _ | None => _ end).
  assert (Hp : ∃ a0 e1, p = (a0, e1) ∧ onNotify e1 = true ∧
    bool_decide (alert_State a0 = StateFiring) = firing).
  { subst p. unfold state_at in Hf. destruct (alerts e !! fp) as [a|] eqn:Ea.
    - exists a, e. split_and!; [done..|]. rewrite Hf. cbn. apply bool_decide_ext.
      split; [by intros ->|congruence].
    - eexists _, _. split_and!; [done..|]. by rewrite Hf. }
  destruct Hp as (a0 & e1 & -> & Hon1 & Hf0). cbn [alert_State observe_value].
  assert (Hnz : default t since ≠ zero_time) by (destruct since; cbn; [by apply Hz|done]).
  assert (Hok : ∀ a' st' (evs : list Event) n,
    ActiveSince st' !! fp = Some (default t since) →
    bool_decide (alert_State a' = StateFiring) = firing || long → length (notes evs) = n →
    tracks fp (set_alerts (<[fp := a']> (alerts e1)) e1) st' (Some (default t since)) (firing || long) ∧
    onNotify (set_alerts (<[fp := a']> (alerts e1)) e1) = true ∧ length (notes evs) = n).
  { intros a' st' evs n H1 H2 H3. split_and!; [|done..]. split; cbn.
    - done.
    - by intros ? [= <-].
    - intros _. by rewrite lookup_insert_eq.
    - rewrite state_insert, decide_True by done. rewrite <- H2. apply bool_decide_ext.
      split; [by intros ->|congruence].
    - done. }
  rewrite bool_decide_not, Hf0. destruct long, firing; cbn [andb negb orb].
  - apply bool_decide_eq_true in Hf0. apply Hok; [done| |done]. cbn. by rewrite Hf0.
  - cbn [isSilenced existsb]. apply Hok; [done|done|]. by rewrite Hon1.
  - apply bool_decide_eq_true in Hf0. rewrite Hf0. cbn.
    apply Hok; [done| |done]. cbn. by rewrite Hf0.
  - apply bool_decide_eq_false in Hf0.
    destruct (bool_decide (alert_State a0 = StateInactive)).
    + apply Hok; [done|done|done].
    + apply Hok; [done| |done]. cbn. by rewrite bool_decide_eq_false_2.
Qed.

Lemma handleResolved_tracks rule fp t e st since firing :
  tracks fp e st since firing → rule_KeepFiringFor rule ≤ 0 →
  let '(e', st', evs) := handleResolvedResult rule fp t e st in
  tracks fp e' st' None false ∧ onNotify e' = onNotify e ∧ notes evs = [].
Proof.
  intros [Hs Hz Ha Hf Hfs] Hk. unfold handleResolvedResult. rewrite Hs.
  assert (Hnone : ∀ e' st', ActiveSince st' !! fp = None → state_at fp (alerts e') ≠ Some StateFiring →
    tracks fp e' st' None false).
  { intros e' st' H1 H2. split; [done|done|by intros [? ?]| |done]. by rewrite bool_decide_eq_false_2. }
  destruct since as [s|]; cbn [default id].
  - assert (IsZero s = false) as -> by (unfold IsZero; specialize (Hz s eq_refl); lia).
    destruct Ha as [a Ea]; [done|]. rewrite Ea.
    assert (keeps_firing rule t a = false) as ->.
    { unfold keeps_firing. replace (0 <? rule_KeepFiringFor rule) with false by lia.
      by rewrite andb_false_r. }
    unfold open_alert. destruct (bool_decide_reflect (alert_State a = StateFiring ∨ alert_State a = StatePending)) as [Ho|Ho].
    + split_and!; [|done..]. apply Hnone; cbn; [by rewrite lookup_delete_eq|].
      rewrite state_insert, decide_True by done. done.
    + split_and!; [|done..]. apply Hnone; cbn; [by rewrite lookup_delete_eq|].
      unfold state_at. rewrite Ea. cbn. naive_solver.
  - assert (IsZero zero_time = true) as -> by done. split_and!; [|done..].
    apply Hnone; cbn; [by rewrite lookup_delete_eq|]. intros E.
    rewrite bool_decide_eq_true_2 in Hf by done. subst firing. by destruct (Hfs eq_refl).
Qed.

(** A fingerprint that was seen is not touched by the second loop. *)
Lemma resolve_all_unseen_seen now seen fps fp e st since firing :
  fp ∈ seen → tracks fp e st since firing →
  let '(e', st', evs) := resolve_all_unseen now seen fps e st in
  tracks fp e' st' since firing ∧ onNotify e' = onNotify e ∧ notes evs = [].
Proof.
  intros Hseen. revert e st. induction fps as [|fp' fps IH]; intros e st Htk; [done|].
  cbn [resolve_all_unseen]. case_bool_decide as Hin; [by apply IH|].
  assert (Hne : fp' ≠ fp) by congruence. unfold resolve_unseen.
  set (st1 := mkRuleEvalState _ _ _ _).
  assert (Hout : ∀ e1 (evs1 : list Event), alerts e1 !! fp = alerts e !! fp → onNotify e1 = onNotify e →
    notes evs1 = [] →
    let '(e', st', evs) := (let '(e2, st2, evs2) := resolve_all_unseen now seen fps e1 st1 in (e2, st2, evs1 ++ evs2)) in
    tracks fp e' st' since firing ∧ onNotify e' = onNotify e ∧ notes evs = []).
  { intros e1 evs1 Ea En Ev. specialize (IH e1 st1).
    destruct (resolve_all_unseen now seen fps e1 st1) as [[e2 st2] evs2].
    destruct IH as (H1 & H2 & H3).
    - destruct Htk as [Hs Hz Ha Hf Hfs]. split; cbn; [by rewrite lookup_delete_ne|done|by rewrite Ea| |done].
      unfold state_at. by rewrite Ea.
    - split_and!; [done|congruence|]. by rewrite notes_app, Ev, H3. }
  destruct (alerts e !! fp') as [a|]; [|by apply Hout].
  destruct (open_alert a); [|by apply Hout]. apply Hout; [|done..]. cbn. by rewrite lookup_insert_ne.
Qed.

Lemma processResults_tracks rule ls t holds v e st since firing :
  let fp := generateFingerprint (rule_ID rule) ls in
  tracks fp e st since firing → onNotify e = true → t ≠ zero_time →
  int64_min < rule_ForDuration rule ≤ int64_max → rule_KeepFiringFor rule ≤ 0 →
  ∀ n, let '(e', st', evs) := processResults (Some []) t rule [mkEvalResult ls v holds t] e st in
  let ep := episode_step (rule_ForDuration rule) (mkEpisode since firing n) (t, holds) in
  tracks fp e' st' (ep_since ep) (ep_firing ep) ∧ onNotify e' = true ∧
  (length (notes evs) + n = ep_count ep)%nat.
Proof.
  intros fp Htk Hon Ht Hd Hk n. unfold processResults. cbn [handle_results].
  unfold handle_result. cbn [er_Labels er_Firing]. fold fp.
  assert (H1 : let '(e1, st1, evs1) := (if holds
      then handleFiringResult (Some []) rule fp (mkEvalResult ls v holds t) t e st
      else handleResolvedResult rule fp t e st) in
    let ep := episode_step (rule_ForDuration rule) (mkEpisode since firing n) (t, holds) in
    tracks fp e1 st1 (ep_since ep) (ep_firing ep) ∧ onNotify e1 = true ∧
    (length (notes evs1) + n = ep_count ep)%nat).
  { destruct holds.
    - pose proof (handleFiring_tracks rule fp (mkEvalResult ls v true t) t e st since firing Htk Hon Ht Hd) as H.
      destruct (handleFiringResult _ _ _ _ _ _ _) as [[e1 st1] evs1]. cbn in H |- *.
      destruct H as (H1 & H2 & H3). split_and!; [done|done|]. rewrite H3. by case_match.
    - pose proof (handleResolved_tracks rule fp t e st since firing Htk Hk) as H.
      destruct (handleResolvedResult _ _ _ _ _) as [[e1 st1] evs1]. cbn in H |- *.
      destruct H as (H1 & H2 & H3). split_and!; [done|congruence|]. by rewrite H3. }
  destruct (if holds then _ else _) as [[e1 st1] evs1]. cbn in H1. destruct H1 as (H1 & H2 & H3).
  pose proof (resolve_all_unseen_seen t (seenFingerprints rule [mkEvalResult ls v holds t])
    (map_to_list (FiringAlerts st1)).*1 fp e1 st1 _ _ ltac:(cbn; set_solver) H1) as H4.
  destruct (resolve_all_unseen _ _ _ _ _) as [[e2 st2] evs2]. destruct H4 as (H4 & H5 & H6).
  split_and!; [done|congruence|]. rewrite !notes_app, H6. cbn. by rewrite !app_nil_r.
Qed.

Lemma observe_run_tracks rule ls obs e st since firing n :
  let fp := generateFingerprint (rule_ID rule) ls in
  tracks fp e st since firing → onNotify e = true →
  Forall (λ ob, ob.1.1 ≠ zero_time) obs →
  int64_min < rule_ForDuration rule ≤ int64_max → rule_KeepFiringFor rule ≤ 0 →
  let '(e', st', evs) := observe_run rule ls obs e st in
  let ep := foldl (episode_step (rule_ForDuration rule)) (mkEpisode since firing n) obs.*1 in
  tracks fp e' st' (ep_since ep) (ep_firing ep) ∧ (length (notes evs) + n = ep_count ep)%nat.
Proof.
  intros fp. revert e st since firing n.
  induction obs as [|[[t holds] v] obs IH]; intros e st since firing n Htk Hon Hnz Hd Hk; [done|].
  apply Forall_cons in Hnz as [Ht Hnz]. cbn [observe_run].
  pose proof (processResults_tracks rule ls t holds v e st since firing Htk Hon Ht Hd Hk n) as H1.
  destruct (processResults _ _ _ _ _ _) as [[e1 st1] evs1]. cbn [fmap list_fmap foldl fst].
  destruct (episode_step (rule_ForDuration rule) (mkEpisode since firing n) (t, holds)) as [s1 f1 n1].
  cbn in H1. destruct H1 as (H1 & H2 & H3).
  specialize (IH e1 st1 s1 f1 n1 H1 H2 Hnz Hd Hk).
  destruct (observe_run _ _ _ _ _) as [[e2 st2] evs2]. destruct IH as [H4 H5].
  split; [done|]. rewrite notes_app, length_app. lia.
Qed.

(** The condition held through the last observations for at least [d]. *)
Definition held_for (d : Duration) (obs : list (Time * bool)) : Prop :=
  ∃ pre t0 run t, obs = pre ++ run ∧ head run = Some (t0, true) ∧ last run = Some (t, true) ∧
    Forall (λ ob, ob.2 = true) run ∧ d ≤ t - t0.

(** What the automaton remembers: the uninterrupted run it is in. *)
Lemma episodes_run d obs :
  StronglySorted Z.le obs.*1 →
  match ep_since (episodes d obs) with
  | None => ep_firing (episodes d obs) = false ∧ (∀ t, last obs ≠ Some (t, true))
  | Some s => ∃ pre run t, obs = pre ++ run ∧ head run = Some (s, true) ∧ last run = Some (t, true) ∧
      Forall (λ ob, ob.2 = true) run ∧ (∀ u, last pre ≠ Some (u, true)) ∧
      (ep_firing (episodes d obs) = true ↔ d ≤ t - s)
  end.
Proof.
  induction obs as [|[t holds] obs IH] using rev_ind; intros Hs; [done|].
  rewrite fmap_app in Hs. pose proof (StronglySorted_app_1_l _ _ _ Hs) as Hs1.
  specialize (IH Hs1). unfold episodes in *. rewrite foldl_app. cbn [foldl].
  destruct (foldl (episode_step d) _ obs) as [since firing n]. cbn in IH |- *.
  destruct holds; cbn; [|split; [done|intros u; rewrite last_snoc; congruence]].
  destruct since as [s|]; cbn.
  - destruct IH as (pre & run & t1 & -> & Hh & Hl & Hall & Hpre & Hf).
    exists pre, (run ++ [(t, true)]), t. split_and!; [by rewrite app_assoc| |by rewrite last_snoc| |done|].
    + destruct run; [done|exact Hh].
    + apply Forall_app. split; [done|]. by constructor.
    + assert (Ht : t1 ≤ t).
      { eapply StronglySorted_app_1_elem_of; [exact Hs| |by apply list_elem_of_singleton].
        apply last_Some in Hl as [l ->]. rewrite !fmap_app. cbn. set_solver. }
      rewrite orb_true_iff, Hf. lia.
  - destruct IH as [-> Hlast]. exists obs, [(t, true)], t.
    split_and!; [done..| |done|]; [by repeat constructor|]. cbn. lia.
Qed.

Lemma episodes_held d obs :
  StronglySorted Z.le obs.*1 → ep_firing (episodes d obs) = true ↔ held_for d obs.
Proof.
  intros Hs. pose proof (episodes_run d obs Hs) as H.
  destruct (ep_since (episodes d obs)) as [s|].
  - destruct H as (pre & run & t & -> & Hh & Hl & Hall & Hpre & Hf). rewrite Hf. split.
    + intros Hd. by exists pre, s, run, t.
    + intros (pre' & t0 & run' & t' & E & Hh' & Hl' & Hall' & Hd).
      assert (t' = t) as ->.
      { assert (last (pre ++ run) = last (pre' ++ run')) as El by by rewrite E.
        rewrite !last_app, Hl, Hl' in El. by injection El as ->. }
      assert (Ht0 : s ≤ t0); [|lia].
      (* the run of the automaton is the longest: [run'] is a suffix of it *)
      assert (Hsuf : ∃ k, run = k ++ run').
      { apply app_eq_app in E as (l & [[-> ->]|[-> ->]]); [|by exists l].
        destruct l as [|x l]; [by exists []|]. exfalso.
        assert (∃ y, last (x :: l) = Some y) as [[u b] Hy].
        { destruct (last (x :: l)) eqn:El; [by eexists|]. by apply last_None in El. }
        pose proof Hy as Hy'. apply last_Some in Hy as [l' Hy]. rewrite Hy in Hall'.
        apply Forall_app in Hall' as [Hall' _]. apply Forall_app in Hall' as [_ Hall'].
        apply Forall_cons in Hall' as [Hb _]. cbn in Hb. subst b.
        apply (Hpre u). by rewrite last_app, Hy'. }
      destruct Hsuf as [k ->]. destruct run' as [|[x b] run']; [done|].
      injection Hh' as -> ->. destruct k as [|[y b] k].
      * cbn in Hh. injection Hh as ->. lia.
      * injection Hh as -> ->. rewrite fmap_app in Hs. apply StronglySorted_app_1_r in Hs.
        cbn in Hs. apply StronglySorted_inv in Hs as [_ Hs]. rewrite Forall_forall in Hs.
        apply Hs. rewrite fmap_app. cbn. set_solver.
  - destruct H as [-> Hlast]. split; [done|].
    intros (pre & t0 & run & t & -> & _ & Hl & _). exfalso. apply (Hlast t). by rewrite last_app, Hl.
Qed.

(** C10: the for-duration.  What is covered: successive evaluations ([processResults]) of a rule
    without a keep-firing window, whose query returns one and the same series every time, while no
    silence is set and the notification callback is installed; the clock never goes backwards and is
    never the zero time, the duration fits an int64, and the series was not active before.  Then,
    after the last evaluation, the alert of the series is firing exactly when the condition held at
    every evaluation since some evaluation at least ForDuration ago, the last one included; and as
    many notifications were sent as times that became so.  (A series that is missing from some of the
    results is another matter: pending_series_fires_on_return.) *)
Theorem fires_iff_held_for_duration rule ls obs e st :
  let fp := generateFingerprint (rule_ID rule) ls in
  ActiveSince st !! fp = None → state_at fp (alerts e) ≠ Some StateFiring → onNotify e = true →
  Forall (λ ob, ob.1.1 ≠ zero_time) obs → StronglySorted Z.le obs.*1.*1 →
  int64_min < rule_ForDuration rule ≤ int64_max → rule_KeepFiringFor rule ≤ 0 →
  let '(e', st', evs) := observe_run rule ls obs e st in
  (state_at fp (alerts e') = Some StateFiring ↔ held_for (rule_ForDuration rule) obs.*1) ∧
  length (notes evs) = ep_count (episodes (rule_ForDuration rule) obs.*1).
Proof.
  intros fp Hs Hst Hon Hnz Hsort Hd Hk.
  assert (Htk : tracks fp e st None false).
  { split; [done|done|by intros [? ?]| |done]. by rewrite bool_decide_eq_false_2. }
  pose proof (observe_run_tracks rule ls obs e st None false 0 Htk Hon Hnz Hd Hk) as H.
  destruct (observe_run _ _ _ _ _) as [[e' st'] evs]. cbn in H.
  destruct H as [[_ _ _ Hf _] Hn]. split; [|unfold episodes; lia].
  rewrite <- (episodes_held _ _ Hsort). unfold episodes. rewrite Hf.
  by rewrite bool_decide_eq_true.
Qed.

(** ** Series that are not in the results *)

Definition same_at (fp : string) (e e' : Evaluator) (st st' : RuleEvalState) : Prop :=
  alerts e' !! fp = alerts e !! fp ∧ ActiveSince st' !! fp = ActiveSince st !! fp ∧
  FiringAlerts st' !! fp = FiringAlerts st !! fp.

Lemma handle_result_frame silences rule now res e st fp :
  fp ≠ generateFingerprint (rule_ID rule) (er_Labels res) →
  let '(e', st', _) := handle_result silences rule now res e st in same_at fp e e' st st'.
Proof.
  intros Hne. unfold handle_result. set (fp' := generateFingerprint _ _) in *.
  destruct (er_Firing res).
  - unfold handleFiringResult. set (st1 := match ActiveSince st !! fp' with Some _ => _ | None => _ end).
    assert (H1 : ActiveSince st1 !! fp = ActiveSince st !! fp ∧ FiringAlerts st1 = FiringAlerts st).
    { subst st1. destruct (ActiveSince st !! fp'); [done|]. cbn. by rewrite lookup_insert_ne. }
    destruct H1 as [H1 H2].
    set (p := match alerts e !! fp' with Some _ => _ | None => _ end).
    assert (Hp : alerts p.2 = alerts e) by (subst p; by destruct (alerts e !! fp')).
    destruct p as [a0 e1]. cbn in Hp.
    unfold same_at. repeat case_match; simplify_eq; cbn; rewrite ?Hp, ?H1, ?H2, ?lookup_insert_ne by done; done.
  - unfold handleResolvedResult, same_at. repeat case_match; simplify_eq; cbn;
      rewrite ?lookup_delete_ne, ?lookup_insert_ne by done; done.
Qed.

Lemma same_at_trans fp e1 e2 e3 st1 st2 st3 :
  same_at fp e1 e2 st1 st2 → same_at fp e2 e3 st2 st3 → same_at fp e1 e3 st1 st3.
Proof. intros (?&?&?) (?&?&?). split_and!; congruence. Qed.

Lemma handle_results_frame silences rule now results e st fp :
  fp ∉ seenFingerprints rule results →
  let '(e', st', _) := handle_results silences rule now results e st in same_at fp e e' st st'.
Proof.
  revert e st. induction results as [|res rest IH]; intros e st Hfp; [done|].
  apply not_elem_of_cons in Hfp as [Hne Hfp]. cbn [handle_results].
  pose proof (handle_result_frame silences rule now res e st fp Hne) as H1.
  destruct (handle_result _ _ _ _ _ _) as [[e1 st1] evs1].
  specialize (IH e1 st1 Hfp). destruct (handle_results _ _ _ _ _ _) as [[e2 st2] evs2].
  by eapply same_at_trans.
Qed.

Definition close (now : Time) (a : Alert) : Alert := if open_alert a then resolve now a else a.

Lemma resolve_all_unseen_spec now seen fps e st fp :
  NoDup fps →
  let '(e', st', _) := resolve_all_unseen now seen fps e st in
  if decide (fp ∈ fps ∧ fp ∉ seen) then
    alerts e' !! fp = close now <$> alerts e !! fp ∧ ActiveSince st' !! fp = None ∧
    FiringAlerts st' !! fp = None
  else same_at fp e e' st st'.
Proof.
  intros Hnd. revert e st. induction Hnd as [|fp' fps Hnin Hnd IH]; intros e st.
  { cbn. rewrite decide_False by set_solver. done. }
  cbn [resolve_all_unseen]. destruct (bool_decide_reflect (fp' ∈ seen)) as [Hseen|Hseen].
  { specialize (IH e st). destruct (resolve_all_unseen _ _ _ _ _) as [[e2 st2] evs2].
    repeat case_decide; try done; set_solver. }
  set (out := resolve_unseen now fp' e st).
  assert (H1 : alerts out.1.1 = <[fp' := default (resolve now (mkAlert "" "" "" StateFiring "" ∅ ∅ f64_zero
      f64_zero 0 None None None 0 None None "" "")) (close now <$> alerts e !! fp')]> (alerts e) ∨
      alerts out.1.1 = alerts e ∧ (close now <$> alerts e !! fp') = alerts e !! fp').
  { subst out. unfold resolve_unseen, close. destruct (alerts e !! fp') as [a|] eqn:Ea; [|by right].
    cbn. destruct (open_alert a); [by left|]. by right. }
  assert (H2 : out.1.2 = mkRuleEvalState (LastEval st) (delete fp' (ActiveSince st))
                  (delete fp' (FiringAlerts st)) (delete fp' (PendingAlerts st))).
  { subst out. unfold resolve_unseen. repeat case_match; done. }
  assert (H3 : alerts out.1.1 !! fp' = close now <$> alerts e !! fp').
  { subst out. unfold resolve_unseen, close. destruct (alerts e !! fp') as [a|] eqn:Ea; [|done].
    cbn. destruct (open_alert a); cbn; [by rewrite lookup_insert_eq|done]. }
  assert (H4 : fp ≠ fp' → alerts out.1.1 !! fp = alerts e !! fp).
  { intros Hne. destruct H1 as [->|[-> _]]; [by rewrite lookup_insert_ne|done]. }
  destruct out as [[e1 st1] evs1]. cbn in H1, H2, H3, H4. subst st1.
  specialize (IH e1 (mkRuleEvalState (LastEval st) (delete fp' (ActiveSince st))
                  (delete fp' (FiringAlerts st)) (delete fp' (PendingAlerts st)))).
  destruct (resolve_all_unseen _ _ _ _ _) as [[e2 st2] evs2].
  destruct (decide (fp = fp')) as [->|Hne].
  - rewrite decide_False in IH by tauto. rewrite decide_True by set_solver.
    destruct IH as (E1 & E2 & E3). cbn in E2, E3. rewrite lookup_delete_eq in E2.
    rewrite lookup_delete_eq in E3. split_and!; [congruence|done..].
  - unfold same_at in *. cbn in IH. rewrite !lookup_delete_ne in IH by done.
    rewrite <- (H4 Hne). repeat case_decide; try done; set_solver.
Qed.

(** What happens to the series a result set no longer contains.  After
    [processResults] only series in the results are recorded as firing; a series
    that was recorded as firing and is missing has its alert resolved at that
    time and is forgotten; any other missing series is left exactly as it
    was, a pending one included. *)
Theorem missing_series silences now rule results e st fp :
  fp ∉ seenFingerprints rule results →
  let '(e', st', _) := processResults silences now rule results e st in
  FiringAlerts st' !! fp = None ∧
  match FiringAlerts st !! fp with
  | Some _ => alerts e' !! fp = close now <$> alerts e !! fp ∧ ActiveSince st' !! fp = None
  | None => alerts e' !! fp = alerts e !! fp ∧ ActiveSince st' !! fp = ActiveSince st !! fp
  end.
Proof.
  intros Hfp. unfold processResults.
  pose proof (handle_results_frame silences rule now results e st fp Hfp) as H1.
  destruct (handle_results _ _ _ _ _ _) as [[e1 st1] evs1]. destruct H1 as (Ea & Es & Ef).
  pose proof (resolve_all_unseen_spec now (seenFingerprints rule results)
    (map_to_list (FiringAlerts st1)).*1 e1 st1 fp (NoDup_fst_map_to_list _)) as H2.
  destruct (resolve_all_unseen _ _ _ _ _) as [[e2 st2] evs2].
  rewrite <- Ef, <- Ea, <- Es.
  assert (Hin : fp ∈ (map_to_list (FiringAlerts st1)).*1 ↔ is_Some (FiringAlerts st1 !! fp)).
  { rewrite list_elem_of_fmap. split.
    - intros ([k b] & -> & Hk%elem_of_map_to_list). by eexists.
    - intros [b Hb]. exists (fp, b). split; [done|]. by apply elem_of_map_to_list. }
  destruct (FiringAlerts st1 !! fp) as [b|] eqn:E.
  - rewrite decide_True in H2 by (split; [apply Hin; by eexists|done]). naive_solver.
  - rewrite decide_False in H2 by (intros [[? ?]%Hin _]; done).
    destruct H2 as (H3 & H4 & H5). split_and!; congruence.
Qed.

(** ** Composite rules *)

Lemma sub_rule_verdicts e ids :
  let m := foldl (λ m id, <[id := sub_firing e id]> m) (∅ : gmap string bool) ids in
  ∀ b, b ∈ (map_to_list m).*2 ↔ b ∈ sub_firing e <$> ids.
Proof.
  assert (Hl : ∀ ids (m0 : gmap string bool) id b,
    foldl (λ m id, <[id := sub_firing e id]> m) m0 ids !! id = Some b ↔
    (id ∈ ids ∧ b = sub_firing e id) ∨ (id ∉ ids ∧ m0 !! id = Some b)).
  { clear ids. induction ids as [|i ids IH]; intros m0 id b; cbn [foldl]; [set_solver|].
    rewrite IH. destruct (decide (i = id)) as [->|Hne].
    - rewrite lookup_insert_eq. destruct (decide (id ∈ ids)); set_solver.
    - rewrite lookup_insert_ne by done. set_solver. }
  intros m b. rewrite !list_elem_of_fmap. split.
  - intros ([id v] & -> & [[Hin ->]|[_ H]]%elem_of_map_to_list%Hl); [by exists id|].
    by rewrite lookup_empty in H.
  - intros (id & -> & Hin). exists (id, sub_firing e id). split; [done|].
    apply elem_of_map_to_list, Hl. by left.
Qed.

Lemma forallb_elem {A : Type} (p : A → bool) (l : list A) : forallb p l = true ↔ ∀ x, x ∈ l → p x = true.
Proof. rewrite forallb_forall. by setoid_rewrite list_elem_of_In. Qed.

Lemma existsb_elem {A : Type} (p : A → bool) (l : list A) : existsb p l = true ↔ ∃ x, x ∈ l ∧ p x = true.
Proof. rewrite existsb_exists. by setoid_rewrite list_elem_of_In. Qed.

(** A composite rule fires exactly when all of its sub-rules have a firing
    alert, if its expression contains the word "and" in any case, and when any
    of them has one otherwise, whatever the order or repetition of the
    sub-rules; without sub-rules it is an error. *)
Theorem composite_is_all_or_any e now rule :
  match evaluateComposite e now rule with
  | Ok results => rule_SubRules rule ≠ [] ∧
      ∃ firing, results = [mkEvalResult (rule_Labels rule) f64_zero firing now] ∧
        (firing = true ↔
         if Contains (ToLower (rule_Expression rule)) " and "
         then ∀ id, id ∈ rule_SubRules rule → sub_firing e id = true
         else ∃ id, id ∈ rule_SubRules rule ∧ sub_firing e id = true)
  | Err _ => rule_SubRules rule = []
  | Panic _ => False
  end.
Proof.
  unfold evaluateComposite. destruct (rule_SubRules rule) as [|i ids] eqn:E; [done|].
  rewrite <- E. split; [by rewrite E|]. eexists. split; [done|].
  pose proof (sub_rule_verdicts e (rule_SubRules rule)) as Hv. cbn in Hv.
  assert (Hall : forallb id (map_to_list (foldl (λ m id, <[id := sub_firing e id]> m) (∅ : gmap string bool)
      (rule_SubRules rule))).*2 = true ↔ ∀ id, id ∈ rule_SubRules rule → sub_firing e id = true).
  { rewrite forallb_elem. setoid_rewrite Hv. setoid_rewrite list_elem_of_fmap. unfold id. naive_solver. }
  assert (Hany : existsb id (map_to_list (foldl (λ m id, <[id := sub_firing e id]> m) (∅ : gmap string bool)
      (rule_SubRules rule))).*2 = true ↔ ∃ id, id ∈ rule_SubRules rule ∧ sub_firing e id = true).
  { rewrite existsb_elem. setoid_rewrite Hv. setoid_rewrite list_elem_of_fmap. unfold id. naive_solver. }
  destruct (Contains _ " and "); [exact Hall|]. by destruct (Contains _ " or ").
Qed.

(** ** The evaluation interval *)

Lemma handle_result_LastEval silences rule now res e st :
  LastEval (handle_result silences rule now res e st).1.2 = LastEval st.
Proof.
  unfold handle_result, handleFiringResult, handleResolvedResult. repeat case_match; simplify_eq; done.
Qed.

Lemma handle_results_LastEval silences rule now results e st :
  LastEval (handle_results silences rule now results e st).1.2 = LastEval st.
Proof.
  revert e st. induction results as [|res rest IH]; intros e st; [done|]. cbn [handle_results].
  pose proof (handle_result_LastEval silences rule now res e st) as H1.
  destruct (handle_result _ _ _ _ _ _) as [[e1 st1] evs1]. specialize (IH e1 st1).
  destruct (handle_results _ _ _ _ _ _) as [[e2 st2] evs2]. cbn in *. congruence.
Qed.

Lemma resolve_all_unseen_LastEval now seen fps e st :
  LastEval (resolve_all_unseen now seen fps e st).1.2 = LastEval st.
Proof.
  revert e st. induction fps as [|fp fps IH]; intros e st; [done|]. cbn [resolve_all_unseen].
  case_match; [done|].
  assert (H1 : LastEval (resolve_unseen now fp e st).1.2 = LastEval st).
  { unfold resolve_unseen. repeat case_match; done. }
  destruct (resolve_unseen _ _ _ _) as [[e1 st1] evs1]. specialize (IH e1 st1).
  destruct (resolve_all_unseen _ _ _ _ _) as [[e2 st2] evs2]. cbn in *. congruence.
Qed.

(** A rule that was due and evaluated is not evaluated again, and nothing
    changes or is sent, at any time less than its interval (a minute when unset)
    after that. *)
Theorem not_reevaluated_within_interval mp mp' silences silences' now now' rule e :
  int64_min < eval_interval rule ≤ int64_max →
  let last := LastEval (default newRuleEvalState (evalState e !! rule_ID rule)) in
  eval_interval rule ≤ now - last → now' - now < eval_interval rule →
  let e1 := (evaluateRule mp silences now rule e).1 in
  evaluateRule mp' silences' now' rule e1 = (e1, []).
Proof.
  intros Hint last Hdue Hsoon e1.
  assert (Hst : ∃ st, evalState e1 !! rule_ID rule = Some st ∧ LastEval st = now).
  { subst e1. unfold evaluateRule. fold last.
    replace (Since now last <? eval_interval rule) with false.
    2: { symmetry. apply Z.ltb_ge. unfold Since. apply time_Sub_le; [done|lia]. }
    destruct (evaluate_by_type _ _ _ _) as [results|m|m].
    - unfold processResults.
      match goal with |- context [handle_results ?s ?r ?n ?rs ?e2 ?st] =>
        pose proof (handle_results_LastEval s r n rs e2 st) as H1;
        destruct (handle_results s r n rs e2 st) as [[e3 st3] evs] end.
      match goal with |- context [resolve_all_unseen ?n ?sn ?fps ?e2 ?st] =>
        pose proof (resolve_all_unseen_LastEval n sn fps e2 st) as H2;
        destruct (resolve_all_unseen n sn fps e2 st) as [[e4 st4] evs4] end.
      cbn. rewrite lookup_insert_eq. eexists. split; [done|]. cbn in *. congruence.
    - cbn. rewrite lookup_insert_eq. by eexists.
    - cbn. rewrite lookup_insert_eq. by eexists. }
  destruct Hst as (st & Hst & Hl). unfold evaluateRule. rewrite Hst. cbn [default id]. rewrite Hl.
  replace (Since now' now <? eval_interval rule) with true.
  2: { symmetry. apply Z.ltb_lt. unfold Since. apply time_Sub_lt; [done|lia]. }
  f_equal. unfold set_evalState. destruct e1 as [al ev on u]. cbn in *. f_equal.
  by rewrite insert_id.
Qed.

End evaluator.

(** ** SimpleMetricsProvider *)

Definition NewSimpleMetricsProvider : gmap string float64 := ∅.
Definition SetMetric (name : string) (value : float64) (metrics : gmap string float64)
    : gmap string float64 := <[name := value]> metrics.

Definition SimpleMetricsProvider (now : Time) (metrics : gmap string float64) : MetricsProvider :=
  mkMetricsProvider
    (λ query, match metrics !! query with
              | Some value => Ok [mkQueryResult {["metric" := query]} value now]
              | None => Ok []
              end)
    (λ name _, match metrics !! name with
               | Some value => Ok value
               | None => Err ("metric not found: " +:+ name)
               end).

(** ** What the model shows beyond the properties *)

(** The keep-firing window: the first evaluation with the condition false
    forgets since when the alert was active, so that later evaluations return at
    once and the alert stays firing however long the condition stays false. *)
Lemma keep_firing_never_ends rule fp t e st a s :
  ActiveSince st !! fp = Some s → s ≠ zero_time → alerts e !! fp = Some a →
  keeps_firing rule t a = true →
  let '(e1, st1, _) := handleResolvedResult rule fp t e st in
  alerts e1 !! fp = Some a ∧
  ∀ t', let '(e2, st2, evs) := handleResolvedResult rule fp t' e1 st1 in
    alerts e2 = alerts e1 ∧ evs = [] ∧ ActiveSince st2 !! fp = None.
Proof.
  intros Hs Hz Ha Hk. unfold handleResolvedResult at 1. rewrite Hs, Ha, Hk. cbn [default id].
  assert (IsZero s = false) as -> by (unfold IsZero; lia).
  split; [done|]. intros t'. unfold handleResolvedResult. cbn [ActiveSince set_PendingAlerts set_ActiveSince].
  rewrite lookup_delete_eq. change (IsZero (default zero_time None)) with true. cbv iota beta.
  split_and!; [done..|]. cbn [ActiveSince set_PendingAlerts set_ActiveSince].
  by rewrite lookup_delete_eq.
Qed.

(** Two label sets of one rule with the same text to hash. *)
Lemma fingerprint_text_ambiguous :
  fingerprint_text "r" {["a" := "1|b=2"]} = fingerprint_text "r" {["a" := "1"; "b" := "2"]}.
Proof. vm_compute. reflexivity. Qed.

(** ** Concrete evaluations *)

Definition demo_rule : Rule :=
  mkRule "cpu" "High CPU" RuleTypeThreshold true {["severity" := "critical"]} ∅ "cpu" "" "gt"
    (f64_of_Z 90) f64_zero "" "" f64_zero "" [] (10 * Second) Minute 0.

Definition demo_labels : gmap string string := {["metric" := "cpu"]}.
Definition no_regexp (_ : string) : option (string → bool) := None.
Definition plain (s : string) : string := s.
Definition uuid_demo (n : nat) : string := pretty n.

#[global] Instance uuid_demo_inj : Inj (=) (=) uuid_demo.
Proof. unfold uuid_demo. intros x y H. by apply (inj pretty) in H. Qed.

(** CPU at 95 at the given times. *)
Definition provider (now : Time) : MetricsProvider :=
  SimpleMetricsProvider now (SetMetric "cpu" (f64_of_Z 95) NewSimpleMetricsProvider).
Definition round (t : Time) (e : Evaluator) : Evaluator * list Event :=
  evaluateAll no_regexp plain uuid_demo (provider t) (Some []) t (Some [demo_rule]) e.
Definition demo_ev0 : Evaluator := SetNotifyFunc NewEvaluator.
Definition demo_ev1 : Evaluator := (round 0 demo_ev0).1.
Definition demo_ev2 : Evaluator := (round Minute demo_ev1).1.
Definition demo_fp : string := generateFingerprint plain "cpu" demo_labels.

Example demo_fires :
  (state_at demo_fp (alerts demo_ev1), state_at demo_fp (alerts demo_ev2),
   length (notes (round Minute demo_ev1).2)) = (Some StatePending, Some StateFiring, 1%nat).
Proof. vm_compute. reflexivity. Qed.

Lemma demo_ev2_reachable : evaluator_reachable no_regexp plain uuid_demo demo_ev2.
Proof. apply er_evaluate, er_evaluate, er_notify, er_new. Qed.

Lemma evaluator_invariant_witness :
  evaluator_reachable no_regexp plain uuid_demo demo_ev2 ∧
  ∀ fp a, GetAlert fp demo_ev2 = Some a → alert_Fingerprint a = fp.
Proof.
  split; [exact demo_ev2_reachable|]. intros fp a Ha.
  exact (proj1 (proj1 (evaluator_invariant no_regexp plain uuid_demo demo_ev2 demo_ev2_reachable) fp a Ha)).
Defined.

Lemma acknowledge_exactly_one_witness :
  (AcknowledgeAlert (uuid_demo 0) "ann" 5 demo_ev2).2 =
  Ok [EvSave (acknowledge "ann" 5 (default (new_alert "" demo_rule "" (mkEvalResult ∅ f64_zero true 0) 0 0)
        (GetAlert demo_fp demo_ev2)))].
Proof.
  destruct (GetAlert demo_fp demo_ev2) as [a|] eqn:E; [|vm_compute in E; discriminate E].
  rewrite (proj1 (acknowledge_exactly_one no_regexp plain uuid_demo (uuid_demo 0) "ann" 5 demo_ev2
    demo_ev2_reachable) demo_fp a E); [reflexivity|].
  vm_compute in E. injection E as <-. vm_compute. reflexivity.
Defined.

(** The observations of the for-duration: false, then true for a minute. *)
Definition demo_obs : list (Time * bool * float64) :=
  [(0, false, f64_zero); (Second, true, f64_zero); (31 * Second, true, f64_zero);
   (61 * Second, true, f64_zero)].

Lemma fires_iff_held_for_duration_witness :
  held_for Minute demo_obs.*1 ∧
  state_at demo_fp (alerts (observe_run no_regexp plain uuid_demo demo_rule demo_labels demo_obs
    demo_ev0 newRuleEvalState).1.1) = Some StateFiring.
Proof.
  assert (H : held_for Minute demo_obs.*1).
  { exists [(0, false)], Second, [(Second, true); (31 * Second, true); (61 * Second, true)], (61 * Second).
    split; [reflexivity|]. split; [reflexivity|]. split; [reflexivity|].
    split; [repeat constructor|]. vm_compute. congruence. }
  split; [exact H|].
  pose proof (fires_iff_held_for_duration no_regexp plain uuid_demo demo_rule demo_labels demo_obs
    demo_ev0 newRuleEvalState) as P.
  destruct (observe_run no_regexp plain uuid_demo demo_rule demo_labels demo_obs demo_ev0
    newRuleEvalState) as [[e' st'] evs].
  refine (proj2 (proj1 (P _ _ _ _ _ _ _)) H).
  - reflexivity.
  - cbn. discriminate.
  - reflexivity.
  - repeat constructor; vm_compute; congruence.
  - repeat constructor; vm_compute; congruence.
  - vm_compute. split; congruence.
  - vm_compute. congruence.
Defined.

Lemma missing_series_witness :
  match processResults no_regexp plain uuid_demo (Some []) (2 * Minute) demo_rule [] demo_ev2
          (default newRuleEvalState (evalState demo_ev2 !! "cpu")) with
  | (e', st', _) => FiringAlerts st' !! demo_fp = None
  end.
Proof.
  pose proof (missing_series no_regexp plain uuid_demo (Some []) (2 * Minute) demo_rule [] demo_ev2
    (default newRuleEvalState (evalState demo_ev2 !! "cpu")) demo_fp) as P.
  destruct (processResults _ _ _ _ _ _ _ _ _) as [[e' st'] evs].
  exact (proj1 (P (not_elem_of_nil _))).
Defined.

Lemma not_reevaluated_within_interval_witness :
  evaluateRule no_regexp plain uuid_demo (provider 5) None (5 * Second) demo_rule
    (evaluateRule no_regexp plain uuid_demo (provider 0) None 0 demo_rule demo_ev0).1 =
  ((evaluateRule no_regexp plain uuid_demo (provider 0) None 0 demo_rule demo_ev0).1, []).
Proof.
  apply (not_reevaluated_within_interval no_regexp plain uuid_demo (provider 0) (provider 5) None None
    0 (5 * Second) demo_rule demo_ev0).
  - vm_compute. split; congruence.
  - vm_compute. congruence.
  - vm_compute. reflexivity.
Defined.

(** A pending series that vanishes keeps its start: when it returns days later
    it fires at once. *)
Lemma pending_series_fires_on_return :
  let st1 := default newRuleEvalState (evalState demo_ev1 !! "cpu") in
  let gone := processResults no_regexp plain uuid_demo (Some []) Second demo_rule [] demo_ev1 st1 in
  let back := processResults no_regexp plain uuid_demo (Some []) (72 * Hour) demo_rule
    [mkEvalResult demo_labels (f64_of_Z 95) true (72 * Hour)] gone.1.1 gone.1.2 in
  state_at demo_fp (alerts gone.1.1) = Some StatePending ∧
  state_at demo_fp (alerts back.1.1) = Some StateFiring.
Proof. vm_compute. split; reflexivity. Qed.
