(* ===== verification/Dependency.v ===== *)
(** internal/alerting/dependency.go: dependency-aware alerting.

    The service catalog is a database (internal/catalog): what [GetService] and
    [GetServiceGraph] answer is the record [Catalog], [None] where they return an
    error, and the catalog store itself is an option since the code allows it to
    be nil.  Health updates written to the catalog are returned. *)

From Stdlib Require Import String.
From stdpp Require Import base option list gmap strings sorting.
From S2P Require Import Prelude Float64 Bytes AlertTypes.

#[local] Open Scope Z_scope.

(** ** Data *)

(** The fields of the catalog's rows that are read here. *)
Record Service := mkService { svc_Name : string; svc_Tier : string }.
Record CatalogDependency := mkCatalogDependency { SourceService : string; TargetService : string }.

Record Catalog := mkCatalog {
  GetService : string → option Service;
  GetServiceGraph : option (list CatalogDependency);
}.

Definition TierCritical : string := "critical".
Definition HealthHealthy : string := "healthy".
Definition HealthDegraded : string := "degraded".
Definition HealthUnhealthy : string := "unhealthy".

Record ServiceAlertState := mkServiceAlertState {
  sas_ServiceID : string;
  sas_ServiceName : string;
  sas_HasFiringAlerts : bool;
  sas_FiringAlertIDs : list string;
  sas_Severity : Severity;
  sas_LastUpdated : Time;
}.

Record DependencyAlerting := mkDependencyAlerting {
  serviceHealth : gmap string ServiceAlertState;
  upstreamCache : gmap string (list string);
  downstreamCache : gmap string (list string);
  cacheUpdatedAt : Time;
  cacheTTL : Duration;
}.

Record AffectedService := mkAffectedService {
  aff_ServiceID : string;
  aff_ServiceName : string;
  aff_Tier : string;
  aff_Depth : Z;
  aff_Path : list string;
}.

Record BlastRadius := mkBlastRadius {
  br_FailedService : string;
  br_FailedServiceName : string;
  br_AffectedServices : list AffectedService;
  br_TotalAffected : Z;
  br_CriticalAffected : Z;
  br_PropagationDepth : Z;
  br_EstimatedImpact : string;
}.

Record DependencyContext := mkDependencyContext {
  ctx_UpstreamServices : list ServiceAlertState;
  ctx_IsLikelySymptom : bool;
  ctx_RootCauseHint : string;
  ctx_BlastRadius : option BlastRadius;
  ctx_ShouldSuppress : bool;
  ctx_SuppressionReason : string;
}.

Definition NewDependencyAlerting : DependencyAlerting :=
  mkDependencyAlerting ∅ ∅ ∅ zero_time (5 * Minute).

(** ** Severity and health *)

Definition severityRank (s : Severity) : Z :=
  if String.eqb s SeverityCritical then 3
  else if String.eqb s SeverityWarning then 2
  else if String.eqb s SeverityInfo then 1
  else 0.

(** The health the catalog is told of. *)
Definition catalog_health (firingAlerts : list Alert) : string :=
  match firingAlerts with
  | [] => HealthHealthy
  | _ => if existsb (λ a, String.eqb (alert_Severity a) SeverityWarning) firingAlerts
         then HealthDegraded else HealthUnhealthy
  end.

Definition worst_severity (firingAlerts : list Alert) : Severity :=
  foldl (λ sev a, if severityRank sev <? severityRank (alert_Severity a) then alert_Severity a else sev)
    SeverityInfo firingAlerts.

(** Returns the update sent to the catalog, if there is one. *)
Definition UpdateServiceHealth (store : option Catalog) (serviceID serviceName : string)
    (firingAlerts : list Alert) (now : Time) (d : DependencyAlerting)
    : DependencyAlerting * option (string * string) :=
  let state := mkServiceAlertState serviceID serviceName
                 (bool_decide (firingAlerts ≠ [])) (alert_ID <$> firingAlerts)
                 (worst_severity firingAlerts) now in
  (mkDependencyAlerting (<[serviceID := state]> (serviceHealth d)) (upstreamCache d)
     (downstreamCache d) (cacheUpdatedAt d) (cacheTTL d),
   match store with
   | Some _ => Some (serviceID, catalog_health firingAlerts)
   | None => None
   end).

(** ** The dependency cache *)

(** [m[k] = append(m[k], v)] *)
Definition append_at (k v : string) (m : gmap string (list string)) : gmap string (list string) :=
  <[k := default [] (m !! k) ++ [v]]> m.

Definition refreshDependencyCache (store : option Catalog) (now : Time) (d : DependencyAlerting)
    : DependencyAlerting :=
  match store with
  | None => d
  | Some cat =>
      if Since now (cacheUpdatedAt d) <? cacheTTL d then d
      else match GetServiceGraph cat with
      | None => d
      | Some deps =>
          mkDependencyAlerting (serviceHealth d)
            (foldl (λ m dep, append_at (SourceService dep) (TargetService dep) m) ∅ deps)
            (foldl (λ m dep, append_at (TargetService dep) (SourceService dep) m) ∅ deps)
            now (cacheTTL d)
      end
  end.

Definition neighbours (m : gmap string (list string)) (id : string) : list string :=
  default [] (m !! id).

Definition GetUpstreamServices (store : option Catalog) (now : Time) (serviceID : string)
    (d : DependencyAlerting) : DependencyAlerting * list string :=
  let d1 := refreshDependencyCache store now d in (d1, neighbours (upstreamCache d1) serviceID).

Definition GetDownstreamServices (store : option Catalog) (now : Time) (serviceID : string)
    (d : DependencyAlerting) : DependencyAlerting * list string :=
  let d1 := refreshDependencyCache store now d in (d1, neighbours (downstreamCache d1) serviceID).

(** ** Blast radius *)

Definition estimateImpactByString (failedTier : string) (criticalAffected totalAffected : Z) : string :=
  if String.eqb failedTier "critical" || (0 <? criticalAffected) then "critical"
  else if String.eqb failedTier "high" && (3 <? totalAffected) then "high"
  else if 5 <? totalAffected then "high"
  else if 2 <? totalAffected then "medium"
  else "low".

Definition estimateImpact := estimateImpactByString.

Record queueItem := mkQueueItem { qi_serviceID : string; qi_depth : Z; qi_path : list string }.

(** What the loop over the queue mutates. *)
Record BfsState := mkBfsState {
  visited : gset string;
  br : BlastRadius;
  queue : list queueItem;
}.

Definition add_affected (a : AffectedService) (r : BlastRadius) : BlastRadius :=
  mkBlastRadius (br_FailedService r) (br_FailedServiceName r) (br_AffectedServices r ++ [a])
    (br_TotalAffected r + 1)
    (if String.eqb (aff_Tier a) TierCritical then br_CriticalAffected r + 1 else br_CriticalAffected r)
    (if br_PropagationDepth r <? aff_Depth a then aff_Depth a else br_PropagationDepth r)
    (br_EstimatedImpact r).

(** The body of the inner loop. *)
Definition visit_downstream (cat : Catalog) (current : queueItem) (st : BfsState)
    (downstreamID : string) : BfsState :=
  if bool_decide (downstreamID ∈ visited st) then st
  else
    let visited1 := {[downstreamID]} ∪ visited st in
    match GetService cat downstreamID with
    | None => mkBfsState visited1 (br st) (queue st)
    | Some downstreamSvc =>
        let newPath := qi_path current ++ [svc_Name downstreamSvc] in
        let affected := mkAffectedService downstreamID (svc_Name downstreamSvc)
                          (svc_Tier downstreamSvc) (qi_depth current + 1) newPath in
        mkBfsState visited1 (add_affected affected (br st))
          (queue st ++ [mkQueueItem downstreamID (qi_depth current + 1) newPath])
    end.

(** The outer loop; [None] when the fuel runs out. *)
Fixpoint bfs (fuel : nat) (cat : Catalog) (down : gmap string (list string)) (st : BfsState)
    : option BlastRadius :=
  match queue st with
  | [] => Some (br st)
  | current :: rest =>
      match fuel with
      | O => None
      | S fuel =>
          bfs fuel cat down
            (foldl (visit_downstream cat current) (mkBfsState (visited st) (br st) rest)
               (neighbours down (qi_serviceID current)))
      end
  end.

(** Every service but the failed one enters the queue through an edge. *)
Definition bfs_fuel (down : gmap string (list string)) : nat :=
  S (length (concat (map_to_list down).*2)).

Definition bfs_start (serviceID : string) (service : Service) : BfsState :=
  mkBfsState {[serviceID]} (mkBlastRadius serviceID (svc_Name service) [] 0 0 0 "")
    [mkQueueItem serviceID 0 [svc_Name service]].

Definition set_impact (impact : string) (r : BlastRadius) : BlastRadius :=
  mkBlastRadius (br_FailedService r) (br_FailedServiceName r) (br_AffectedServices r)
    (br_TotalAffected r) (br_CriticalAffected r) (br_PropagationDepth r) impact.

Definition CalculateBlastRadius (store : option Catalog) (now : Time) (serviceID : string)
    (d : DependencyAlerting) : DependencyAlerting * option BlastRadius :=
  match store with
  | None => (d, None)
  | Some cat =>
      let d1 := refreshDependencyCache store now d in
      match GetService cat serviceID with
      | None => (d1, None)
      | Some service =>
          (d1, (λ r, set_impact (estimateImpact (svc_Tier service) (br_CriticalAffected r)
                                   (br_TotalAffected r)) r) <$>
               bfs (bfs_fuel (downstreamCache d1)) cat (downstreamCache d1)
                 (bfs_start serviceID service))
      end
  end.

(** ** Suppression *)

Definition containsAny (s : string) (substrs : list string) : bool :=
  existsb (λ sub,
    (String.length sub <=? String.length s)%nat &&
    existsb (λ i, String.eqb (String.substring i (String.length sub) s) sub)
      (seq 0 (S (String.length s - String.length sub)))) substrs.

(** The first upstream of the highest rank among those with firing alerts. *)
Definition worst_upstream (ups : list ServiceAlertState) : option ServiceAlertState :=
  foldl (λ worst up,
    if sas_HasFiringAlerts up then
      match worst with
      | None => Some up
      | Some w => if severityRank (sas_Severity w) <? severityRank (sas_Severity up)
                  then Some up else worst
      end
    else worst) None ups.

Definition connection_words : list string := ["timeout"; "connection"; "unavailable"; "error_rate"].

Definition shouldSuppressDueToUpstream (alert : Alert) (ctx : DependencyContext) : bool * string :=
  if negb (ctx_IsLikelySymptom ctx) then (false, "")
  else match worst_upstream (ctx_UpstreamServices ctx) with
  | None => (false, "")
  | Some w =>
      let isConnectionAlert := containsAny (label_of (alert_Labels alert) "alertname") connection_words in
      if (severityRank (alert_Severity alert) <=? severityRank (sas_Severity w)) && isConnectionAlert
      then (true, "Upstream service '" +:+ sas_ServiceName w +:+ "' has " +:+ sas_Severity w +:+
                  " alerts - this alert is likely a symptom")
      else if String.eqb (sas_Severity w) SeverityCritical &&
              (severityRank (alert_Severity alert) <=? severityRank SeverityWarning)
      then (true, "Upstream service '" +:+ sas_ServiceName w +:+ "' has critical alert")
      else (false, "")
  end.

(** The service an alert is about. *)
Definition service_of (alert : Alert) : string :=
  let s := label_of (alert_Labels alert) "service" in
  if String.eqb s "" then label_of (alert_Labels alert) "service_id" else s.

(** One iteration over the upstream services. *)
Definition note_upstream (health : gmap string ServiceAlertState) (ctx : DependencyContext)
    (upstreamID : string) : DependencyContext :=
  match health !! upstreamID with
  | None => ctx
  | Some state =>
      let ups := ctx_UpstreamServices ctx ++ [state] in
      if sas_HasFiringAlerts state then
        mkDependencyContext ups true
          (if String.eqb (ctx_RootCauseHint ctx) ""
           then "Upstream service '" +:+ sas_ServiceName state +:+ "' has active alerts"
           else ctx_RootCauseHint ctx)
          (ctx_BlastRadius ctx) (ctx_ShouldSuppress ctx) (ctx_SuppressionReason ctx)
      else mkDependencyContext ups (ctx_IsLikelySymptom ctx) (ctx_RootCauseHint ctx)
             (ctx_BlastRadius ctx) (ctx_ShouldSuppress ctx) (ctx_SuppressionReason ctx)
  end.

Definition empty_context : DependencyContext := mkDependencyContext [] false "" None false "".

Definition GetDependencyContext (store : option Catalog) (now : Time) (alert : Alert)
    (d : DependencyAlerting) : DependencyAlerting * DependencyContext :=
  let serviceID := service_of alert in
  if String.eqb serviceID "" then (d, empty_context)
  else
    let '(d1, upstreams) := GetUpstreamServices store now serviceID d in
    let ctx := foldl (note_upstream (serviceHealth d1)) empty_context upstreams in
    let '(suppress, reason) := shouldSuppressDueToUpstream alert ctx in
    let '(d2, radius) := if ctx_IsLikelySymptom ctx then (d1, None)
                         else CalculateBlastRadius store now serviceID d1 in
    (d2, mkDependencyContext (ctx_UpstreamServices ctx) (ctx_IsLikelySymptom ctx)
           (ctx_RootCauseHint ctx) radius suppress reason).

Definition IsInhibitedByDependency (store : option Catalog) (now : Time) (alert : Alert)
    (d : DependencyAlerting) : DependencyAlerting * (bool * string) :=
  let '(d1, ctx) := GetDependencyContext store now alert d in
  (d1, (ctx_ShouldSuppress ctx, ctx_SuppressionReason ctx)).

Definition GetServiceAlertState (serviceID : string) (d : DependencyAlerting)
    : option ServiceAlertState := serviceHealth d !! serviceID.

(** The state of a service when it has firing alerts. *)
Definition unhealthy (health : gmap string ServiceAlertState) (id : string) : option ServiceAlertState :=
  match health !! id with
  | Some state => if sas_HasFiringAlerts state then Some state else None
  | None => None
  end.

Definition GetUnhealthyUpstreams (store : option Catalog) (now : Time) (serviceID : string)
    (d : DependencyAlerting) : DependencyAlerting * list ServiceAlertState :=
  let '(d1, upstreams) := GetUpstreamServices store now serviceID d in
  (d1, omap (unhealthy (serviceHealth d1)) upstreams).

(** ** Root cause *)

(** Depth-first over unhealthy upstreams; the visited set is shared by the
    calls.  The outer option is [None] when the fuel runs out. *)
Fixpoint findRootCauseRecursive (fuel : nat) (health : gmap string ServiceAlertState)
    (up : gmap string (list string)) (serviceID : string) (vis : gset string)
    : option (gset string * option ServiceAlertState) :=
  match fuel with
  | O => None
  | S fuel =>
      if bool_decide (serviceID ∈ vis) then Some (vis, None)
      else
        foldl (λ acc upstreamID,
          match acc with
          | None => None
          | Some (vis1, deepest) =>
              match unhealthy health upstreamID with
              | None => Some (vis1, deepest)
              | Some state =>
                  match findRootCauseRecursive fuel health up upstreamID vis1 with
                  | None => None
                  | Some (vis2, Some deeper) => Some (vis2, Some deeper)
                  | Some (vis2, None) => Some (vis2, Some state)
                  end
              end
          end) (Some ({[serviceID]} ∪ vis, None)) (neighbours up serviceID)
  end.

Definition FindRootCause (store : option Catalog) (now : Time) (serviceID : string)
    (d : DependencyAlerting) : DependencyAlerting * option (option ServiceAlertState) :=
  let d1 := refreshDependencyCache store now d in
  (d1, snd <$> findRootCauseRecursive (size (serviceHealth d1) + 2) (serviceHealth d1)
                 (upstreamCache d1) serviceID ∅).

Lemma size_list_to_set_le (l : list string) : (size (list_to_set l : gset string) ≤ length l)%nat.
Proof.
  induction l as [|x l IH]; [done|]. cbn. rewrite size_union_alt, size_singleton.
  pose proof (subseteq_size ((list_to_set l : gset string) ∖ {[x]}) (list_to_set l)) as H.
  specialize (H ltac:(set_solver)). lia.
Qed.

(** ** Breadth-first search: what it finds *)

(** A chain of dependents of known services, with the names along it. *)
Inductive walk (cat : Catalog) (down : gmap string (list string)) (s : string)
    : nat → list string → string → Prop :=
| walk_here svc : GetService cat s = Some svc → walk cat down s 0 [svc_Name svc] s
| walk_step n path u v svc :
    walk cat down s n path u → v ∈ neighbours down u → GetService cat v = Some svc →
    walk cat down s (S n) (path ++ [svc_Name svc]) v.

Section bfs.
Context (cat : Catalog) (down : gmap string (list string)) (s : string) (service : Service).
Context (Hservice : GetService cat s = Some service).

Definition item_of (a : AffectedService) : queueItem :=
  mkQueueItem (aff_ServiceID a) (aff_Depth a) (aff_Path a).

Definition root_item : queueItem := mkQueueItem s 0 [svc_Name service].

(** Everything recorded so far: the failed service, then the affected ones. *)
Definition recorded (r : BlastRadius) : list queueItem :=
  root_item :: (item_of <$> br_AffectedServices r).

Definition known (v : string) : Prop := is_Some (GetService cat v).

Definition count_critical (l : list AffectedService) : Z :=
  sum_Z (λ a, if String.eqb (aff_Tier a) TierCritical then 1 else 0) l.

(** [todo] are the neighbours of [current] not visited yet in this turn. *)
Record bfs_inv (done : list queueItem) (st : BfsState) : Prop := {
  bi_split : recorded (br st) = done ++ queue st;
  bi_nodup : NoDup (qi_serviceID <$> recorded (br st));
  bi_visited v : v ∈ visited st ↔ v ∈ qi_serviceID <$> recorded (br st) ∨ (v ∈ visited st ∧ ¬ known v);
  bi_walk it : it ∈ recorded (br st) →
    0 ≤ qi_depth it ∧ walk cat down s (Z.to_nat (qi_depth it)) (qi_path it) (qi_serviceID it);
  bi_sorted : StronglySorted Z.le (qi_depth <$> recorded (br st));
  bi_done u v : u ∈ done → v ∈ neighbours down (qi_serviceID u) → known v →
    ∃ it, it ∈ recorded (br st) ∧ qi_serviceID it = v ∧ qi_depth it ≤ qi_depth u + 1;
  bi_near c rest it : queue st = c :: rest → it ∈ recorded (br st) → qi_depth it ≤ qi_depth c + 1;
  bi_tier a : a ∈ br_AffectedServices (br st) →
    ∃ svc, GetService cat (aff_ServiceID a) = Some svc ∧ aff_ServiceName a = svc_Name svc ∧
      aff_Tier a = svc_Tier svc;
  bi_total : br_TotalAffected (br st) = Z.of_nat (length (br_AffectedServices (br st)));
  bi_critical : br_CriticalAffected (br st) = count_critical (br_AffectedServices (br st));
  bi_depth : br_PropagationDepth (br st) = foldr Z.max 0 (aff_Depth <$> br_AffectedServices (br st));
  bi_failed : br_FailedService (br st) = s ∧ br_FailedServiceName (br st) = svc_Name service;
}.

(** While the neighbours of [current], taken off the queue, are visited. *)
Record turn_inv (done : list queueItem) (current : queueItem) (seen : list string) (st : BfsState)
    : Prop := {
  ti_inv : bfs_inv done (mkBfsState (visited st) (br st) (current :: queue st));
  ti_seen v : v ∈ seen → known v →
    ∃ it, it ∈ recorded (br st) ∧ qi_serviceID it = v ∧ qi_depth it ≤ qi_depth current + 1;
}.

Lemma recorded_add a r : recorded (add_affected a r) = recorded r ++ [item_of a].
Proof. unfold recorded. cbn. by rewrite fmap_app. Qed.

Lemma foldr_max_snoc l x : foldr Z.max 0 (l ++ [x]) = Z.max (foldr Z.max 0 l) x ∨ x < 0.
Proof.
  destruct (Z_lt_le_dec x 0) as [|Hx]; [by right|left].
  induction l as [|y l IH]; cbn; [lia|]. rewrite IH. lia.
Qed.

Lemma count_critical_snoc l a :
  count_critical (l ++ [a]) =
  (if String.eqb (aff_Tier a) TierCritical then count_critical l + 1 else count_critical l).
Proof.
  unfold count_critical, sum_Z. rewrite foldr_app. cbn [foldr].
  induction l as [|b l IH]; cbn [foldr]; [by destruct (String.eqb _ _)|].
  rewrite IH. destruct (String.eqb (aff_Tier a) TierCritical); lia.
Qed.

Lemma turn_visit done current seen st v :
  v ∈ neighbours down (qi_serviceID current) → turn_inv done current seen st →
  turn_inv done current (seen ++ [v]) (visit_downstream cat current st v).
Proof.
  intros Hv [[Hsp Hnd Hvis Hw Hso Hdn Hnr Hti Hto Hcr Hde Hfa] Hseen]. cbn [visited br queue] in *.
  assert (Hnear : ∀ it, it ∈ recorded (br st) → qi_depth it ≤ qi_depth current + 1)
    by (intros it; by apply (Hnr current (queue st))).
  unfold visit_downstream. destruct (bool_decide_reflect (v ∈ visited st)) as [Hin|Hin].
  { split; [by split|]. intros w [Hw'| ->%list_elem_of_singleton]%elem_of_app Hk; [by apply Hseen|].
    apply Hvis in Hin as [Hin|[_ Hno]]; [|done].
    apply list_elem_of_fmap in Hin as (it & -> & Hit). exists it. split_and!; [done..|by apply Hnear]. }
  destruct (GetService cat v) as [svc|] eqn:Esvc.
  2: { split; [split|..]; cbn [visited br queue]; try done.
       - intros w. rewrite elem_of_union, elem_of_singleton. split.
         + intros [->|Hw']; [right; split; [by left|]; intros [? ?]; congruence|].
           apply Hvis in Hw' as [?|[? ?]]; [by left|right; split; [by right|done]].
         + intros [Hw'|[Hw' _]]; [|done]. right. apply Hvis. by left.
       - intros w [Hw'| ->%list_elem_of_singleton]%elem_of_app Hk; [by apply Hseen|].
         destruct Hk as [? Hk]. congruence. }
  set (a := mkAffectedService v _ _ _ _).
  assert (Hcur : current ∈ recorded (br st)) by (rewrite Hsp; set_solver).
  assert (Hwa : 0 ≤ qi_depth current + 1 ∧
    walk cat down s (Z.to_nat (qi_depth current + 1)) (qi_path current ++ [svc_Name svc]) v).
  { destruct (Hw current Hcur) as [H0 Hwc]. split; [lia|].
    replace (Z.to_nat (qi_depth current + 1)) with (S (Z.to_nat (qi_depth current))) by lia.
    by eapply walk_step. }
  assert (Hnew : v ∉ qi_serviceID <$> recorded (br st)) by (intros H; apply Hin, Hvis; by left).
  split; [split|..]; cbn [visited br queue]; rewrite ?recorded_add.
  - rewrite Hsp, <- app_assoc. done.
  - rewrite fmap_app. apply NoDup_app. split_and!; [done| |apply NoDup_singleton].
    intros x Hx ->%list_elem_of_singleton. done.
  - intros w. rewrite fmap_app, elem_of_union, elem_of_singleton, elem_of_app. split.
    + intros [->|Hw']; [left; right; cbn; set_solver|].
      apply Hvis in Hw' as [?|[? ?]]; [left; by left|right; split; [by right|done]].
    + intros [[Hw'|Hw'%list_elem_of_singleton]|[Hw' _]]; [right; apply Hvis; by left|by left|done].
  - intros it [Hit| ->%list_elem_of_singleton]%elem_of_app; [by apply Hw|]. exact Hwa.
  - rewrite fmap_app. apply StronglySorted_app. split_and!; [|done|repeat constructor].
    intros x y Hx ->%list_elem_of_singleton. apply list_elem_of_fmap in Hx as (it & -> & Hit).
    by apply Hnear.
  - intros u w Hu Hw' Hk. destruct (Hdn u w Hu Hw' Hk) as (it & Hit & E & Hd).
    exists it. split_and!; [set_solver|done..].
  - intros c rest it [= <- <-] [Hit| ->%list_elem_of_singleton]%elem_of_app; [by apply Hnear|].
    cbn. lia.
  - intros b [Hb| ->%list_elem_of_singleton]%elem_of_app; [by apply Hti|]. by exists svc.
  - cbn. rewrite length_app. cbn. lia.
  - cbn. rewrite count_critical_snoc, Hcr. done.
  - cbn. rewrite fmap_app. cbn.
    destruct (foldr_max_snoc (aff_Depth <$> br_AffectedServices (br st)) (qi_depth current + 1)) as [->|];
      [|lia]. rewrite Hde. case_match; lia.
  - done.
  - intros w [Hw'| ->%list_elem_of_singleton]%elem_of_app Hk.
    + destruct (Hseen w Hw' Hk) as (it & Hit & E & Hd). exists it. split_and!; [set_solver|done..].
    + exists (item_of a). split_and!; [set_solver|done|cbn; lia].
Qed.

Lemma turn_fold done current seen vs st :
  (∀ v, v ∈ vs → v ∈ neighbours down (qi_serviceID current)) → turn_inv done current seen st →
  turn_inv done current (seen ++ vs) (foldl (visit_downstream cat current) st vs).
Proof.
  revert seen st. induction vs as [|v vs IH]; intros seen st Hvs Ht; cbn [foldl].
  - by rewrite app_nil_r.
  - replace (seen ++ v :: vs) with ((seen ++ [v]) ++ vs) by by rewrite <- app_assoc.
    apply IH; [set_solver|]. apply turn_visit; [set_solver|done].
Qed.

(** The end of a turn of the outer loop. *)
Lemma turn_end done current st :
  turn_inv done current (neighbours down (qi_serviceID current)) st → bfs_inv (done ++ [current]) st.
Proof.
  intros [[Hsp Hnd Hvis Hw Hso Hdn Hnr Hti Hto Hcr Hde Hfa] Hseen]. cbn [visited br queue] in *.
  split; try done.
  - by rewrite <- app_assoc.
  - intros u v [Hu| ->%list_elem_of_singleton]%elem_of_app Hv Hk; [by apply (Hdn u)|by apply Hseen].
  - intros c rest it Hq Hit. specialize (Hnr current (queue st) it eq_refl Hit).
    assert (qi_depth current ≤ qi_depth c); [|lia].
    rewrite Hsp, Hq, fmap_app in Hso. apply StronglySorted_app_1_r in Hso. cbn in Hso.
    apply StronglySorted_inv in Hso as [_ Hso]. by apply Forall_cons in Hso as [Hso _].
Qed.

Lemma bfs_turn done current rest st :
  queue st = current :: rest → bfs_inv done st →
  bfs_inv (done ++ [current])
    (foldl (visit_downstream cat current) (mkBfsState (visited st) (br st) rest)
       (neighbours down (qi_serviceID current))).
Proof.
  intros Hq Hinv. apply turn_end.
  apply (turn_fold done current [] _ (mkBfsState (visited st) (br st) rest)); [done|].
  split; [|by intros v ?%not_elem_of_nil]. cbn. rewrite <- Hq. by destruct st.
Qed.

(** *** Termination *)

Definition edge_targets : list string := concat (map_to_list down).*2.

Lemma neighbours_targets u v : v ∈ neighbours down u → v ∈ edge_targets.
Proof.
  unfold neighbours, edge_targets. destruct (down !! u) as [l|] eqn:E; cbn; [|by intros ?%not_elem_of_nil].
  intros Hv. apply list_elem_of_In, in_concat. exists l. split; [|by apply list_elem_of_In].
  apply list_elem_of_In, list_elem_of_fmap. exists (u, l). split; [done|].
  by apply elem_of_map_to_list.
Qed.

Definition unvisited (st : BfsState) : nat := size (list_to_set edge_targets ∖ visited st).

Lemma visit_measure current st v :
  v ∈ edge_targets →
  (unvisited (visit_downstream cat current st v) + length (queue (visit_downstream cat current st v))
   ≤ unvisited st + length (queue st))%nat.
Proof.
  intros Hv. unfold visit_downstream, unvisited.
  destruct (bool_decide_reflect (v ∈ visited st)) as [Hin|Hin]; [done|].
  assert (Hlt : (S (size (list_to_set edge_targets ∖ ({[v]} ∪ visited st))) ≤
    size ((list_to_set edge_targets : gset string) ∖ visited st))%nat).
  { apply (subset_size (C := gset string)). set_solver. }
  destruct (GetService cat v); cbn; rewrite ?length_app; cbn; lia.
Qed.

Lemma visits_measure current vs st :
  (∀ v, v ∈ vs → v ∈ edge_targets) →
  (unvisited (foldl (visit_downstream cat current) st vs) +
   length (queue (foldl (visit_downstream cat current) st vs)) ≤ unvisited st + length (queue st))%nat.
Proof.
  revert st. induction vs as [|v vs IH]; intros st Hvs; cbn [foldl]; [done|].
  etrans; [apply IH; set_solver|]. apply visit_measure. set_solver.
Qed.

(** Enough fuel is as many steps as there are queue entries and unvisited
    services; the search then ends with an empty queue. *)
Lemma bfs_total fuel done st :
  bfs_inv done st → (unvisited st + length (queue st) ≤ fuel)%nat →
  ∃ st' done', bfs fuel cat down st = Some (br st') ∧ bfs_inv done' st' ∧ queue st' = [].
Proof.
  revert done st. induction fuel as [|fuel IH]; intros done st Hinv Hm;
    destruct (queue st) as [|current rest] eqn:Hq; cbn in Hm; try lia.
  - exists st, done. cbn. by rewrite Hq.
  - exists st, done. cbn. by rewrite Hq.
  - cbn [bfs]. rewrite Hq. pose proof (bfs_turn done current rest st Hq Hinv) as Ht.
    apply (IH (done ++ [current])); [done|].
    pose proof (visits_measure current (neighbours down (qi_serviceID current))
      (mkBfsState (visited st) (br st) rest) (neighbours_targets _)) as Hv.
    unfold unvisited in *. cbn in Hv. lia.
Qed.

Lemma bfs_start_inv : bfs_inv [] (bfs_start s service).
Proof.
  split; cbn; try done.
  - apply NoDup_singleton.
  - intros v. rewrite list_elem_of_singleton. set_solver.
  - intros it ->%list_elem_of_singleton. split; [done|]. by apply walk_here.
  - repeat constructor.
  - by intros u v ?%not_elem_of_nil.
  - intros c rest it [= <- <-] ->%list_elem_of_singleton. cbn. lia.
  - by intros a ?%not_elem_of_nil.
Qed.

Lemma bfs_runs :
  ∃ st done, bfs (bfs_fuel down) cat down (bfs_start s service) = Some (br st) ∧
    bfs_inv done st ∧ queue st = [].
Proof.
  apply (bfs_total _ []); [apply bfs_start_inv|]. unfold bfs_fuel, unvisited. cbn.
  assert (size ((list_to_set edge_targets : gset string) ∖ {[s]}) ≤ length edge_targets)%nat; [|unfold edge_targets in *; lia].
  etrans; [|apply (size_list_to_set_le edge_targets)]. apply subseteq_size. set_solver.
Qed.

(** When the queue is empty every walk ends in a recorded service, at most as
    deep as the walk is long. *)
Lemma bfs_complete done st n path v :
  bfs_inv done st → queue st = [] → walk cat down s n path v →
  ∃ it, it ∈ recorded (br st) ∧ qi_serviceID it = v ∧ qi_depth it ≤ Z.of_nat n.
Proof.
  intros Hinv Hq. pose proof (bi_split _ _ Hinv) as Hsp. rewrite Hq, app_nil_r in Hsp.
  induction 1 as [svc Hsvc|n path u v svc Hwalk IH Hv Hsvc].
  - exists root_item. split_and!; [unfold recorded; set_solver|done|cbn; lia].
  - destruct IH as (it & Hit & <- & Hd).
    destruct (bi_done _ _ Hinv it v) as (it' & Hit' & E & Hd'); [by rewrite <- Hsp|done|by eexists|].
    exists it'. split_and!; [done|done|lia].
Qed.

End bfs.

(** ** Root cause: what it finds *)

Section root_cause.
Context (health : gmap string ServiceAlertState) (up : gmap string (list string)).

Definition fails_through (a b : string) : Prop :=
  b ∈ neighbours up a ∧ is_Some (unhealthy health b).

Lemma unhealthy_dom u st : unhealthy health u = Some st → u ∈ dom health.
Proof. unfold unhealthy. intros H. apply elem_of_dom. by destruct (health !! u). Qed.

Definition sound_cause (id : string) (vis : gset string) (r : option ServiceAlertState) : Prop :=
  match r with
  | Some st => ∃ u, tc fails_through id u ∧ unhealthy health u = Some st
  | None => id ∈ vis ∨ ∀ u, u ∈ neighbours up id → unhealthy health u = None
  end.

(** Enough fuel for the services not visited yet. *)
Definition enough_fuel (fuel : nat) (id : string) (vis : gset string) : Prop :=
  (size (dom health ∖ vis) + (if decide (id ∈ dom health) then 1 else 2) ≤ fuel)%nat.

Lemma findRootCauseRecursive_total fuel id vis :
  enough_fuel fuel id vis →
  ∃ vis' r, findRootCauseRecursive fuel health up id vis = Some (vis', r) ∧ vis ⊆ vis' ∧
    sound_cause id vis r.
Proof.
  revert id vis. induction fuel as [|fuel IH]; intros id vis Hf.
  { unfold enough_fuel in Hf. case_decide; lia. }
  cbn [findRootCauseRecursive]. destruct (bool_decide_reflect (id ∈ vis)) as [Hin|Hin].
  { exists vis, None. split_and!; [done..|]. by left. }
  match goal with |- context [foldl ?f _ _] => set (step := f) end.
  (* the loop, from any set that contains the start and any cause found so far *)
  assert (Hloop : ∀ ups vis1 r, (∀ u, u ∈ ups → u ∈ neighbours up id) → {[id]} ∪ vis ⊆ vis1 →
    (∀ st, r = Some st → sound_cause id vis (Some st)) →
    ∃ vis' r', foldl step (Some (vis1, r)) ups = Some (vis', r') ∧ vis ⊆ vis' ∧
      (∀ st, r' = Some st → sound_cause id vis (Some st)) ∧
      (r' = None → r = None ∧ ∀ u, u ∈ ups → unhealthy health u = None)).
  { induction ups as [|u ups IHu]; intros vis1 r Hups Hvis1 Hr.
    { exists vis1, r. cbn. split_and!; [done|set_solver|done|]. intros ->. split; [done|].
      by intros u ?%not_elem_of_nil. }
    cbn [foldl]. unfold step at 2. destruct (unhealthy health u) as [st|] eqn:Eu.
    - assert (Hu : fails_through id u) by (split; [apply Hups; set_solver|by eexists]).
      assert (Hfu : enough_fuel fuel u vis1).
      { unfold enough_fuel in *. rewrite (decide_True (P := u ∈ dom health)) by by eapply unhealthy_dom.
        case_decide as Hid.
        - assert (size (dom health ∖ vis1) < size (dom health ∖ vis))%nat; [|lia].
          apply subset_size. set_solver.
        - assert (size (dom health ∖ vis1) ≤ size (dom health ∖ vis))%nat; [|lia].
          apply subseteq_size. set_solver. }
      destruct (IH u vis1 Hfu) as (vis2 & r2 & -> & Hsub & Hsound).
      assert (Hgo : ∀ st', sound_cause id vis (Some st') →
        ∃ vis' r', foldl step (Some (vis2, Some st')) ups = Some (vis', r') ∧ vis ⊆ vis' ∧
          (∀ st, r' = Some st → sound_cause id vis (Some st)) ∧ r' ≠ None).
      { intros st' Hst'. destruct (IHu vis2 (Some st')) as (vis' & r' & H1 & H2 & H3 & H4);
          [set_solver|set_solver|by intros ? [= <-]|].
        exists vis', r'. split_and!; [done..|]. intros Hn. by destruct (H4 Hn). }
      destruct r2 as [deeper|].
      + destruct Hsound as (w & Hw & Ew). destruct (Hgo deeper) as (vis' & r' & -> & H2 & H3 & H4).
        { exists w. split; [|done]. by eapply tc_l. }
        exists vis', r'. split_and!; [done..|]. intros Hn. done.
      + destruct (Hgo st) as (vis' & r' & -> & H2 & H3 & H4).
        { exists u. split; [by apply tc_once|done]. }
        exists vis', r'. split_and!; [done..|]. intros Hn. done.
    - destruct (IHu vis1 r) as (vis' & r' & H1 & H2 & H3 & H4); [set_solver|done..|].
      exists vis', r'. split_and!; [done..|]. intros Hn. destruct (H4 Hn) as [-> H5]. split; [done|].
      intros u' [->|Hu']%elem_of_cons; [done|by apply H5]. }
  destruct (Hloop (neighbours up id) ({[id]} ∪ vis) None) as (vis' & r' & H1 & H2 & H3 & H4); [done..|].
  exists vis', r'. split_and!; [done..|]. destruct r' as [st|]; [by apply H3|].
  right. by apply H4.
Qed.

End root_cause.

(** ** Suppression: when *)

#[local] Arguments String.append !_ _ / : simpl nomatch.

Lemma substring_prefix (a b : string) : String.substring 0 (String.length a) (a +:+ b) = a.
Proof. induction a as [|c a IH]; [by destruct b|]. cbn. f_equal. exact IH. Qed.

Lemma substring_app (p a b : string) :
  String.substring (String.length p) (String.length a) (p +:+ a +:+ b) = a.
Proof. induction p as [|c p IH]; [exact (substring_prefix a b)|]. exact IH. Qed.

Lemma substring_split (s : string) i n :
  (i + n ≤ String.length s)%nat → ∃ p q, s = p +:+ String.substring i n s +:+ q ∧ String.length p = i.
Proof.
  revert i n. induction s as [|c s IH]; intros i n H; cbn in H.
  - exists "", "". destruct i, n; cbn in *; try lia. done.
  - destruct i as [|i].
    + destruct n as [|n]; [by exists "", (String c s)|].
      destruct (IH 0%nat n) as (p & q & E & Hp); [lia|]. destruct p; [|done].
      exists "", q. split; [|done]. cbn. f_equal. exact E.
    + destruct (IH i n) as (p & q & E & Hp); [lia|]. exists (String c p), q.
      split; [cbn; f_equal; exact E|cbn; lia].
Qed.

(** [containsAny] is substring search. *)
Lemma containsAny_spec s subs :
  containsAny s subs = true ↔ ∃ sub p q, sub ∈ subs ∧ s = p +:+ sub +:+ q.
Proof.
  unfold containsAny. rewrite existsb_exists. split.
  - intros (sub & Hsub & [Hlen Hex]%andb_true_iff). apply existsb_exists in Hex as (i & Hi & E).
    apply String.eqb_eq in E. apply in_seq in Hi. apply Nat.leb_le in Hlen.
    destruct (substring_split s i (String.length sub)) as (p & q & Hs & _); [lia|].
    exists sub, p, q. split; [by apply list_elem_of_In|]. by rewrite E in Hs.
  - intros (sub & p & q & Hsub & ->). exists sub. split; [by apply list_elem_of_In|].
    assert (Hl : String.length (p +:+ sub +:+ q) = (String.length p + String.length sub + String.length q)%nat)
      by (rewrite !string_length_app; lia).
    apply andb_true_iff. split; [apply Nat.leb_le; lia|].
    apply existsb_exists. exists (String.length p). split; [apply in_seq; lia|].
    apply String.eqb_eq, substring_app.
Qed.

Lemma worst_upstream_spec ups :
  match worst_upstream ups with
  | None => ∀ u, u ∈ ups → sas_HasFiringAlerts u = false
  | Some w => w ∈ ups ∧ sas_HasFiringAlerts w = true ∧
      ∀ u, u ∈ ups → sas_HasFiringAlerts u = true → severityRank (sas_Severity u) ≤ severityRank (sas_Severity w)
  end.
Proof.
  induction ups as [|u ups IH] using rev_ind; [by intros u ?%not_elem_of_nil|].
  unfold worst_upstream in *. rewrite foldl_app. cbn [foldl].
  destruct (foldl _ None ups) as [w|].
  - destruct IH as (Hw & Hf & Hmax). destruct (sas_HasFiringAlerts u) eqn:Eu.
    + destruct (severityRank (sas_Severity w) <? severityRank (sas_Severity u)) eqn:Hlt.
      * split_and!; [set_solver|done|]. intros x [Hx| ->%list_elem_of_singleton]%elem_of_app Hfx; [|lia].
        specialize (Hmax x Hx Hfx). lia.
      * split_and!; [set_solver|done|]. intros x [Hx| ->%list_elem_of_singleton]%elem_of_app Hfx; [by apply Hmax|lia].
    + split_and!; [set_solver|done|].
      intros x [Hx| ->%list_elem_of_singleton]%elem_of_app Hfx; [by apply Hmax|congruence].
  - destruct (sas_HasFiringAlerts u) eqn:Eu.
    + split_and!; [set_solver|done|]. intros x [Hx| ->%list_elem_of_singleton]%elem_of_app Hfx; [|lia].
      rewrite IH in Hfx by done. done.
    + intros x [Hx| ->%list_elem_of_singleton]%elem_of_app; [by apply IH|done].
Qed.

Lemma note_upstreams health ids ctx :
  let ctx' := foldl (note_upstream health) ctx ids in
  ctx_UpstreamServices ctx' = ctx_UpstreamServices ctx ++ omap (λ id, health !! id) ids ∧
  ctx_IsLikelySymptom ctx' = ctx_IsLikelySymptom ctx || existsb sas_HasFiringAlerts (omap (λ id, health !! id) ids).
Proof.
  revert ctx. induction ids as [|id ids IH]; intros ctx; cbn [foldl omap list_omap].
  - cbn. by rewrite app_nil_r, orb_false_r.
  - destruct (IH (note_upstream health ctx id)) as [-> ->]. unfold note_upstream.
    destruct (health !! id) as [st|]; [|done].
    cbn. destruct (sas_HasFiringAlerts st); cbn; rewrite <- app_assoc; by rewrite ?orb_true_r.
Qed.

Lemma severityRank_cases s :
  (severityRank s = 3 ∧ s = SeverityCritical) ∨ (severityRank s < 3 ∧ s ≠ SeverityCritical).
Proof.
  unfold severityRank. destruct (String.eqb_spec s SeverityCritical); [by left|right].
  split; [|done]. repeat case_match; lia.
Qed.

Lemma item_ids (l : list AffectedService) : qi_serviceID <$> (item_of <$> l) = aff_ServiceID <$> l.
Proof. induction l as [|a l IH]; [done|]. cbn. by rewrite IH. Qed.

(** ** Properties *)


(** The root-cause search always ends, cycles included; it reports nothing
    exactly when no service the given one depends on has firing alerts, and
    what it reports is a service with firing alerts reached through a chain of
    such services. *)
Theorem root_cause_sound_and_total store now id d :
  let d1 := refreshDependencyCache store now d in
  ∃ r, FindRootCause store now id d = (d1, Some r) ∧
    match r with
    | Some st => ∃ u, tc (fails_through (serviceHealth d1) (upstreamCache d1)) id u ∧
        serviceHealth d1 !! u = Some st ∧ sas_HasFiringAlerts st = true
    | None => ∀ u st, u ∈ neighbours (upstreamCache d1) id → serviceHealth d1 !! u = Some st →
        sas_HasFiringAlerts st = false
    end.
Proof.
  intros d1. unfold FindRootCause. fold d1.
  destruct (findRootCauseRecursive_total (serviceHealth d1) (upstreamCache d1)
    (size (serviceHealth d1) + 2) id ∅) as (vis & r & -> & _ & Hr).
  { unfold enough_fuel. rewrite difference_empty_L, size_dom. case_decide; lia. }
  exists r. split; [done|]. unfold sound_cause, unhealthy in Hr. destruct r as [st|].
  - destruct Hr as (u & Hu & E). exists u. split; [done|].
    destruct (serviceHealth d1 !! u) as [st'|]; [|done].
    destruct (sas_HasFiringAlerts st') eqn:Ef; [|done]. by injection E as ->.
  - destruct Hr as [Hin|Hr]; [set_solver|]. intros u st Hu E. specialize (Hr u Hu). rewrite E in Hr.
    by destruct (sas_HasFiringAlerts st).
Qed.

(** An alert is suppressed as a symptom exactly when it names a service that
    depends on one with firing alerts that are either at least as severe while
    the alert's name contains a connection word, or critical while the alert is
    not. *)
Theorem dependency_suppression store now alert d :
  let d1 := refreshDependencyCache store now d in
  (IsInhibitedByDependency store now alert d).2.1 = true ↔
  service_of alert ≠ "" ∧
  ∃ u w, u ∈ neighbours (upstreamCache d1) (service_of alert) ∧
    serviceHealth d1 !! u = Some w ∧ sas_HasFiringAlerts w = true ∧
    ((severityRank (alert_Severity alert) ≤ severityRank (sas_Severity w) ∧
      ∃ word p q, word ∈ connection_words ∧
        label_of (alert_Labels alert) "alertname" = p +:+ word +:+ q) ∨
     (sas_Severity w = SeverityCritical ∧ severityRank (alert_Severity alert) ≤ 2)).
Proof.
  intros d1. unfold IsInhibitedByDependency, GetDependencyContext, GetUpstreamServices. fold d1.
  destruct (String.eqb_spec (service_of alert) "") as [E|E]; [cbn; naive_solver|].
  set (ids := neighbours (upstreamCache d1) (service_of alert)).
  destruct (note_upstreams (serviceHealth d1) ids empty_context) as [Hups Hsym]. cbn in Hups, Hsym.
  set (ctx := foldl _ _ _) in *. set (ups := omap _ ids) in *.
  set (conn := containsAny (label_of (alert_Labels alert) "alertname") connection_words).
  assert (Hiff : (shouldSuppressDueToUpstream alert ctx).1 = true ↔
    ∃ w, w ∈ ups ∧ sas_HasFiringAlerts w = true ∧
      ((severityRank (alert_Severity alert) ≤ severityRank (sas_Severity w) ∧ conn = true) ∨
       (sas_Severity w = SeverityCritical ∧ severityRank (alert_Severity alert) ≤ 2))).
  { unfold shouldSuppressDueToUpstream. rewrite Hups, Hsym. fold conn.
    pose proof (worst_upstream_spec ups) as Hw.
    destruct (existsb sas_HasFiringAlerts ups) eqn:Eex; cbn [negb].
    2: { split; [done|]. intros (w & Hin & Hf & _). exfalso.
         assert (existsb sas_HasFiringAlerts ups = true); [|congruence].
         apply existsb_exists. exists w. split; [by apply list_elem_of_In|done]. }
    destruct (worst_upstream ups) as [w|].
    2: { apply existsb_exists in Eex as (x & Hx%list_elem_of_In & Hf). rewrite Hw in Hf by done. done. }
    destruct Hw as (Hin & Hf & Hmax). split.
    - intros H. exists w. split_and!; [done..|].
      destruct ((severityRank (alert_Severity alert) <=? severityRank (sas_Severity w)) && conn) eqn:E1.
      + left. split; [lia|]. by destruct conn; [|rewrite andb_false_r in E1].
      + right. destruct (String.eqb_spec (sas_Severity w) SeverityCritical) as [Ec|]; [|done].
        split; [done|]. cbn [andb] in H.
        destruct (severityRank (alert_Severity alert) <=? severityRank SeverityWarning) eqn:E2; [|done].
        change (severityRank SeverityWarning) with 2 in E2. lia.
    - intros (x & Hx & Hfx & Hcase). specialize (Hmax x Hx Hfx).
      destruct ((severityRank (alert_Severity alert) <=? severityRank (sas_Severity w)) && conn) eqn:E1; [done|].
      destruct Hcase as [[H1 H2]|[H1 H2]].
      + exfalso. rewrite H2, andb_true_r in E1. lia.
      + rewrite H1 in Hmax. change (severityRank SeverityCritical) with 3 in Hmax.
        destruct (severityRank_cases (sas_Severity w)) as [[_ ->]|[? _]]; [|lia].
        change (severityRank SeverityWarning) with 2. cbn [andb String.eqb].
        by replace (severityRank (alert_Severity alert) <=? 2) with true by lia. }
  destruct (shouldSuppressDueToUpstream alert ctx) as [sup reason]. cbn [fst] in Hiff.
  assert (Hout : (let '(d2, c) :=
      (let '(d2, radius) := if ctx_IsLikelySymptom ctx then (d1, None)
                            else CalculateBlastRadius store now (service_of alert) d1 in
       (d2, mkDependencyContext (ctx_UpstreamServices ctx) (ctx_IsLikelySymptom ctx)
              (ctx_RootCauseHint ctx) radius sup reason)) in
      (d2, (ctx_ShouldSuppress c, ctx_SuppressionReason c))).2.1 = sup).
  { by destruct (if ctx_IsLikelySymptom ctx then _ else _). }
  rewrite Hout, Hiff.
  assert (Hconn : conn = true ↔ ∃ word p q, word ∈ connection_words ∧
    label_of (alert_Labels alert) "alertname" = p +:+ word +:+ q) by apply containsAny_spec.
  assert (Hmem : ∀ w, w ∈ ups ↔ ∃ u, u ∈ ids ∧ serviceHealth d1 !! u = Some w)
    by (intros w; apply list_elem_of_omap).
  clearbody conn ups. split.
  - intros (w & (u & Hu & Hw)%Hmem & Hf & Hc). split; [done|]. exists u, w. by rewrite <- Hconn.
  - intros (_ & u & w & Hu & Hw & Hf & Hc). exists w. rewrite Hconn. split; [apply Hmem; by exists u|done].
Qed.

(** ** A concrete catalog: a diamond with a cycle and an unknown service *)

Definition demo_catalog : Catalog :=
  mkCatalog
    (λ id, if String.eqb id "ghost" then None
           else Some (mkService ("svc-" +:+ id) (if String.eqb id "web" then "critical" else "low")))
    (Some [mkCatalogDependency "api" "db"; mkCatalogDependency "jobs" "db";
           mkCatalogDependency "web" "api"; mkCatalogDependency "web" "jobs";
           mkCatalogDependency "db" "web"; mkCatalogDependency "ghost" "db";
           mkCatalogDependency "far" "ghost"]).

Example demo_radius :
  (λ r, ((λ a, (aff_ServiceID a, aff_Depth a)) <$> br_AffectedServices r, br_EstimatedImpact r)) <$>
    (CalculateBlastRadius (Some demo_catalog) 0 "db" NewDependencyAlerting).2 =
  Some ([("api", 1); ("jobs", 1); ("web", 2)], "critical").
Proof. vm_compute. reflexivity. Qed.


(** A service with a critical and a warning alert is reported as degraded, one
    with only the critical alert as unhealthy. *)
Lemma warning_masks_unhealthy critical warning :
  alert_Severity critical = SeverityCritical → alert_Severity warning = SeverityWarning →
  catalog_health [critical] = HealthUnhealthy ∧ catalog_health [critical; warning] = HealthDegraded.
Proof. intros Hc Hw. unfold catalog_health. cbn. by rewrite Hc, Hw. Qed.
