(* ===== verification/Inhibitor.v ===== *)
(** internal/alerting/inhibitor.go: inhibition and silencing of notifications,
    and the alert manager's glue between evaluator, inhibitor and dependency
    analysis.

    The inhibitor's cache holds the alerts themselves: only labels and
    fingerprints, which never change, are read from it.  [ListActiveSilences] and
    [ListInhibitRules] read the database: their answers are arguments, [None] on
    an error. *)

From Stdlib Require Import String.
From stdpp Require Import base option list gmap strings sorting.
From S2P Require Import Prelude Float64 Bytes AlertTypes Dependency.

#[local] Open Scope Z_scope.

Record Inhibitor := mkInhibitor {
  rules : list InhibitRule;
  firingAlerts : gmap string Alert;
  dependencyAlerting : option DependencyAlerting;
}.

Definition NewInhibitor : Inhibitor := mkInhibitor [] ∅ None.
Definition SetDependencyAlerting (da : DependencyAlerting) (i : Inhibitor) : Inhibitor :=
  mkInhibitor (rules i) (firingAlerts i) (Some da).
Definition SetRules (rs : list InhibitRule) (i : Inhibitor) : Inhibitor :=
  mkInhibitor rs (firingAlerts i) (dependencyAlerting i).

Definition LoadRulesFromDB (listed : option (list InhibitRule)) (i : Inhibitor)
    : Inhibitor * result unit :=
  match listed with
  | None => (i, Err "ListInhibitRules")
  | Some rs => (SetRules rs i, Ok tt)
  end.

Definition UpdateFiringAlerts (alerts : list Alert) (i : Inhibitor) : Inhibitor :=
  mkInhibitor (rules i)
    (foldl (λ m alert, if bool_decide (alert_State alert = StateFiring)
                       then <[alert_Fingerprint alert := alert]> m else m) ∅ alerts)
    (dependencyAlerting i).

Section inhibitor.
Context (Compile : string → option (string → bool)).

(** The labels of [EqualLabels] agree, a missing label reading as empty. *)
Fixpoint equal_labels (source target : gmap string string) (names : list string) : bool :=
  match names with
  | [] => true
  | label :: rest =>
      if negb (String.eqb (label_of source label) (label_of target label)) then false
      else equal_labels source target rest
  end.

(** The loop over the firing alerts, in the given iteration order. *)
Fixpoint find_source (target : Alert) (rule : InhibitRule) (order : list Alert) : bool :=
  match order with
  | [] => false
  | source :: rest =>
      if String.eqb (alert_Fingerprint source) (alert_Fingerprint target)
      then find_source target rule rest
      else if negb (matchesAllMatchers Compile (alert_Labels source) (inh_SourceMatch rule))
      then find_source target rule rest
      else if equal_labels (alert_Labels source) (alert_Labels target) (inh_EqualLabels rule)
      then true
      else find_source target rule rest
  end.

Definition isInhibitedByRule (target : Alert) (rule : InhibitRule) (order : list Alert) : bool :=
  if negb (matchesAllMatchers Compile (alert_Labels target) (inh_TargetMatch rule)) then false
  else find_source target rule order.

(** [IsInhibited], with an iteration order of the map for each rule. *)
Definition IsInhibited (order : InhibitRule → list Alert) (alert : Alert) (i : Inhibitor) : bool :=
  existsb (λ rule, isInhibitedByRule alert rule (order rule)) (rules i).

Definition IsSilenced (silences : option (list Silence)) (alert : Alert) : option Silence :=
  match silences with
  | None => None
  | Some l => find (λ s, matchesAllMatchers Compile (alert_Labels alert) (sil_Matchers s)) l
  end.

Definition ShouldSuppress (silences : option (list Silence)) (order : InhibitRule → list Alert)
    (store : option Catalog) (now : Time) (alert : Alert) (i : Inhibitor)
    : Inhibitor * (bool * string) :=
  match IsSilenced silences alert with
  | Some silence => (i, (true, "silenced:" +:+ sil_ID silence))
  | None =>
      if IsInhibited order alert i then (i, (true, "inhibited"))
      else match dependencyAlerting i with
      | None => (i, (false, ""))
      | Some da =>
          let '(da1, (suppressed, reason)) := IsInhibitedByDependency store now alert da in
          (mkInhibitor (rules i) (firingAlerts i) (Some da1),
           if suppressed then (true, "dependency:" +:+ reason) else (false, ""))
      end
  end.

(** ** Silence states *)

Inductive SilenceState : Type := SilenceStateActive | SilenceStatePending | SilenceStateExpired.

Definition GetState (now : Time) (silence : Silence) : SilenceState :=
  if Before now (sil_StartsAt silence) then SilenceStatePending
  else if After now (sil_EndsAt silence) then SilenceStateExpired
  else SilenceStateActive.

(** ** The maintenance loop of the alert manager *)

(** Alerts by service, in first-seen order of the alerts of each service. *)
Definition group_by_service (alerts : list Alert) : gmap string (list Alert) :=
  foldl (λ m alert,
    let serviceID := service_of alert in
    if String.eqb serviceID "" then m
    else <[serviceID := default [] (m !! serviceID) ++ [alert]]> m) ∅ alerts.

Definition service_name (serviceID : string) (svcAlerts : list Alert) : string :=
  match svcAlerts with
  | a :: _ => if String.eqb (label_of (alert_Labels a) "service_name") "" then serviceID
              else label_of (alert_Labels a) "service_name"
  | [] => serviceID
  end.

(** The loop over the groups, in the given order; the catalog updates made. *)
Fixpoint update_services (store : option Catalog) (now : Time) (groups : list (string * list Alert))
    (da : DependencyAlerting) : DependencyAlerting * list (string * string) :=
  match groups with
  | [] => (da, [])
  | (serviceID, svcAlerts) :: rest =>
      let '(da1, upd) := UpdateServiceHealth store serviceID (service_name serviceID svcAlerts)
                           svcAlerts now da in
      let '(da2, upds) := update_services store now rest da1 in
      (da2, option_list upd ++ upds)
  end.

Definition updateServiceHealthFromAlerts (store : option Catalog) (now : Time)
    (order : gmap string (list Alert) → list (string * list Alert)) (alerts : list Alert)
    (da : DependencyAlerting) : DependencyAlerting * list (string * string) :=
  update_services store now (order (group_by_service alerts)) da.

(** One tick of [maintenanceLoop]; [firing] is what the evaluator reports. *)
Definition maintenance (store : option Catalog) (now : Time)
    (order : gmap string (list Alert) → list (string * list Alert))
    (listed : option (list InhibitRule)) (firing : list Alert) (i : Inhibitor) : Inhibitor :=
  let i1 := UpdateFiringAlerts firing i in
  let i2 := match dependencyAlerting i1 with
            | Some da => mkInhibitor (rules i1) (firingAlerts i1)
                           (Some (updateServiceHealthFromAlerts store now order firing da).1)
            | None => i1
            end in
  (LoadRulesFromDB listed i2).1.

(** ** Lemmas *)

Lemma equal_labels_spec source target names :
  equal_labels source target names = true ↔
  ∀ l, l ∈ names → label_of source l = label_of target l.
Proof.
  induction names as [|n names IH]; cbn.
  - split; [by intros _ l ?%not_elem_of_nil|done].
  - destruct (String.eqb_spec (label_of source n) (label_of target n)) as [E|E]; cbn.
    + rewrite IH. set_solver.
    + split; [done|]. intros H. destruct E. apply H. set_solver.
Qed.

Definition inhibits (rule : InhibitRule) (source target : Alert) : Prop :=
  alert_Fingerprint source ≠ alert_Fingerprint target ∧
  matchesAllMatchers Compile (alert_Labels source) (inh_SourceMatch rule) = true ∧
  matchesAllMatchers Compile (alert_Labels target) (inh_TargetMatch rule) = true ∧
  ∀ l, l ∈ inh_EqualLabels rule → label_of (alert_Labels source) l = label_of (alert_Labels target) l.

(** The test the loop makes on one source. *)
Definition source_test (target : Alert) (rule : InhibitRule) (source : Alert) : bool :=
  negb (String.eqb (alert_Fingerprint source) (alert_Fingerprint target)) &&
  matchesAllMatchers Compile (alert_Labels source) (inh_SourceMatch rule) &&
  equal_labels (alert_Labels source) (alert_Labels target) (inh_EqualLabels rule).

Lemma find_source_existsb target rule order :
  find_source target rule order = existsb (source_test target rule) order.
Proof.
  induction order as [|s order IH]; [done|]. cbn [find_source existsb]. unfold source_test at 1.
  rewrite IH. destruct (String.eqb _ _); [done|].
  destruct (matchesAllMatchers _ _ _); [|done]. by destruct (equal_labels _ _ _).
Qed.

Lemma source_test_spec target rule source :
  matchesAllMatchers Compile (alert_Labels target) (inh_TargetMatch rule) = true →
  source_test target rule source = true ↔ inhibits rule source target.
Proof.
  intros Ht. unfold source_test, inhibits. rewrite !andb_true_iff, negb_true_iff, String.eqb_neq,
    equal_labels_spec. tauto.
Qed.

Lemma isInhibitedByRule_spec target rule order :
  isInhibitedByRule target rule order = true ↔ ∃ s, s ∈ order ∧ inhibits rule s target.
Proof.
  unfold isInhibitedByRule.
  destruct (matchesAllMatchers Compile (alert_Labels target) (inh_TargetMatch rule)) eqn:Em; cbn [negb].
  - rewrite find_source_existsb, existsb_exists. split.
    + intros (s & Hs%list_elem_of_In & Ht%source_test_spec); [by exists s|done].
    + intros (s & Hs & Hi). exists s. split; [by apply list_elem_of_In|by apply source_test_spec].
  - split; [done|]. intros (s & _ & _ & _ & Ht & _). congruence.
Qed.

(** Some rule inhibits, whatever the iteration order of the map. *)
Lemma IsInhibited_spec order alert i :
  (∀ rule, order rule ≡ₚ (map_to_list (firingAlerts i)).*2) →
  IsInhibited order alert i = true ↔
  ∃ rule source fp, rule ∈ rules i ∧ firingAlerts i !! fp = Some source ∧ inhibits rule source alert.
Proof.
  intros Ho. unfold IsInhibited. rewrite existsb_exists.
  assert (Hin : ∀ rule s, s ∈ order rule ↔ ∃ fp, firingAlerts i !! fp = Some s).
  { intros rule s. rewrite (Ho rule), list_elem_of_fmap. split.
    - intros ([fp s'] & -> & H%elem_of_map_to_list). by exists fp.
    - intros (fp & H). exists (fp, s). split; [done|]. by apply elem_of_map_to_list. }
  split.
  - intros (rule & Hr%list_elem_of_In & (s & Hs & Hi)%isInhibitedByRule_spec).
    apply Hin in Hs as [fp Hs]. by exists rule, s, fp.
  - intros (rule & s & fp & Hr & Hs & Hi). exists rule. split; [by apply list_elem_of_In|].
    apply isInhibitedByRule_spec. exists s. split; [|done]. apply Hin. by exists fp.
Qed.

(** The cache holds the firing alerts given, the last one of each fingerprint. *)
Lemma UpdateFiringAlerts_lookup alerts i fp a :
  firingAlerts (UpdateFiringAlerts alerts i) !! fp = Some a →
  a ∈ alerts ∧ alert_State a = StateFiring ∧ alert_Fingerprint a = fp.
Proof.
  cbn. assert (H : ∀ m : gmap string Alert, (∀ fp a, m !! fp = Some a → a ∈ alerts ∧ alert_State a = StateFiring ∧ alert_Fingerprint a = fp) →
    ∀ rest, (∀ a, a ∈ rest → a ∈ alerts) →
    ∀ fp a, foldl (λ m alert, if bool_decide (alert_State alert = StateFiring)
                       then <[alert_Fingerprint alert := alert]> m else m) m rest !! fp = Some a →
    a ∈ alerts ∧ alert_State a = StateFiring ∧ alert_Fingerprint a = fp).
  { intros m Hm rest. revert m Hm. induction rest as [|b rest IH]; intros m Hm Hrest fp' a'; cbn [foldl]; [by apply Hm|].
    apply IH; [|set_solver]. intros fp2 a2. case_bool_decide; [|by apply Hm].
    intros [[<- <-]|[_ ?]]%lookup_insert_Some; [|by apply Hm]. split; [set_solver|done]. }
  apply H; [by intros ? ?; rewrite lookup_empty|done].
Qed.

Lemma UpdateFiringAlerts_complete alerts i a :
  a ∈ alerts → alert_State a = StateFiring →
  is_Some (firingAlerts (UpdateFiringAlerts alerts i) !! alert_Fingerprint a).
Proof.
  cbn. generalize (∅ : gmap string Alert). induction alerts as [|b alerts IH]; intros m;
    [by intros ?%not_elem_of_nil|]. cbn [foldl].
  intros [->|Hin]%elem_of_cons Hf; [|by apply IH].
  rewrite bool_decide_eq_true_2 by done. clear IH.
  assert (Hkeep : ∀ (m : gmap string Alert) k, is_Some (m !! k) →
    is_Some (foldl (λ m alert, if bool_decide (alert_State alert = StateFiring)
                       then <[alert_Fingerprint alert := alert]> m else m) m alerts !! k)).
  { clear. induction alerts as [|c alerts IH]; intros m k Hk; [done|]. cbn. apply IH.
    case_bool_decide; [|done]. destruct (decide (alert_Fingerprint c = k)) as [->|];
      [by rewrite lookup_insert_eq|by rewrite lookup_insert_ne]. }
  apply Hkeep. by rewrite lookup_insert_eq.
Qed.

(** ** Properties *)

(** The verdict on a notification, branch by branch: a matching silence
    comes first (the first one in the list is named), then the inhibit rules
    (some rule with a firing source other than the alert itself, both matching
    and agreeing on its equal labels, whatever the order in which the map of
    firing alerts is walked), then the dependency analysis. *)
Theorem suppression_verdict silences order store now alert i :
  (∀ rule, order rule ≡ₚ (map_to_list (firingAlerts i)).*2) →
  let verdict := (ShouldSuppress silences order store now alert i).2 in
  (∃ l before silence after, silences = Some l ∧ l = before ++ silence :: after ∧
     matchesAllMatchers Compile (alert_Labels alert) (sil_Matchers silence) = true ∧
     (∀ s, s ∈ before → matchesAllMatchers Compile (alert_Labels alert) (sil_Matchers s) = false) ∧
     verdict = (true, "silenced:" +:+ sil_ID silence)) ∨
  (∀ l s, silences = Some l → s ∈ l →
     matchesAllMatchers Compile (alert_Labels alert) (sil_Matchers s) = false) ∧
  ((∃ rule source fp, rule ∈ rules i ∧ firingAlerts i !! fp = Some source ∧ inhibits rule source alert) ∧
     verdict = (true, "inhibited") ∨
   ¬ (∃ rule source fp, rule ∈ rules i ∧ firingAlerts i !! fp = Some source ∧ inhibits rule source alert) ∧
     verdict.1 = match dependencyAlerting i with
                 | Some da => (IsInhibitedByDependency store now alert da).2.1
                 | None => false
                 end).
Proof.
  intros Ho verdict. subst verdict. unfold ShouldSuppress.
  pose proof (IsInhibited_spec order alert i Ho) as Hi.
  destruct (IsSilenced silences alert) as [silence|] eqn:Es.
  - left. destruct silences as [l|]; [|done]. cbn in Es.
    assert (Hf : ∃ before after, l = before ++ silence :: after ∧
      matchesAllMatchers Compile (alert_Labels alert) (sil_Matchers silence) = true ∧
      ∀ s, s ∈ before → matchesAllMatchers Compile (alert_Labels alert) (sil_Matchers s) = false).
    { clear -Es. induction l as [|s l IH]; [done|]. cbn in Es. case_match eqn:Em.
      - injection Es as ->. exists [], l. split_and!; [done..|]. by intros s ?%not_elem_of_nil.
      - destruct (IH Es) as (before & after & -> & Hm & Hb). exists (s :: before), after.
        split_and!; [done..|]. intros s' [->|Hs']%elem_of_cons; [done|by apply Hb]. }
    destruct Hf as (before & after & H1 & H2 & H3). by exists l, before, silence, after.
  - right. split.
    + intros l s -> Hs. cbn in Es. apply (find_none _ _ Es). by apply list_elem_of_In.
    + destruct (IsInhibited order alert i) eqn:Ei; [left; split; [by apply Hi|done]|right].
      split; [intros H; apply Hi in H; congruence|].
      destruct (dependencyAlerting i) as [da|]; [|done].
      destruct (IsInhibitedByDependency store now alert da) as [da1 [sup reason]]. by destruct sup.
Qed.

(** After the maintenance tick that tells the inhibitor of the firing
    alerts, with no dependency analysis and no silences, a notification is
    suppressed exactly when a loaded rule inhibits it by one of those alerts:
    nothing else, and no alert that is not firing, suppresses it. *)
Theorem suppressed_after_maintenance store now order order' listed firing alert i :
  dependencyAlerting i = None →
  (∀ rule, order' rule ≡ₚ (map_to_list (firingAlerts (maintenance store now order (Some listed) firing i))).*2) →
  (∀ a b, a ∈ firing → b ∈ firing → alert_Fingerprint a = alert_Fingerprint b → a = b) →
  (ShouldSuppress (Some []) order' store now alert
     (maintenance store now order (Some listed) firing i)).2.1 = true ↔
  ∃ rule source, rule ∈ listed ∧ source ∈ firing ∧ alert_State source = StateFiring ∧
    inhibits rule source alert.
Proof.
  intros Hda Ho Huniq. unfold ShouldSuppress. cbn [IsSilenced find].
  set (i' := maintenance _ _ _ _ _ _) in *.
  assert (Hi' : i' = mkInhibitor listed (firingAlerts (UpdateFiringAlerts firing i)) None).
  { subst i'. unfold maintenance, UpdateFiringAlerts, LoadRulesFromDB, SetRules.
    cbn [dependencyAlerting rules firingAlerts fst]. rewrite Hda. cbn [dependencyAlerting rules firingAlerts fst].
    by rewrite ?Hda. }
  pose proof (IsInhibited_spec order' alert i' Ho) as Hiff.
  assert (Hsup : (if IsInhibited order' alert i' then (i', (true, "inhibited"))
    else match dependencyAlerting i' with
      | None => (i', (false, ""))
      | Some da =>
          let '(da1, (suppressed, reason)) := IsInhibitedByDependency store now alert da in
          (mkInhibitor (rules i') (firingAlerts i') (Some da1),
           if suppressed then (true, "dependency:" +:+ reason) else (false, ""))
      end).2.1 = IsInhibited order' alert i').
  { rewrite Hi'. cbn [dependencyAlerting]. by destruct (IsInhibited _ _ _). }
  rewrite Hsup, Hiff, Hi'. cbn [rules firingAlerts]. split.
  - intros (rule & s & fp & Hr & Hs & Hinh). apply UpdateFiringAlerts_lookup in Hs as (H1 & H2 & _).
    by exists rule, s.
  - intros (rule & s & Hr & Hs & Hf & Hinh).
    destruct (UpdateFiringAlerts_complete firing i s Hs Hf) as [s' Hs'].
    pose proof (UpdateFiringAlerts_lookup _ _ _ _ Hs') as (H1 & H2 & H3).
    assert (s' = s) as -> by by apply Huniq. exists rule, s, (alert_Fingerprint s). done.
Qed.

End inhibitor.

(** ** What the model shows beyond the properties *)

(** The maintenance tick only visits services that have firing alerts: when the
    last alert of a service resolves, its recorded health keeps saying it has
    firing alerts, and dependency suppression goes on. *)
Lemma service_health_never_cleared store now order da :
  order ∅ = [] → (updateServiceHealthFromAlerts store now order [] da).1 = da.
Proof. intros H. unfold updateServiceHealthFromAlerts, group_by_service. cbn. by rewrite H. Qed.

(** ** Concrete inputs *)

Definition alert_of (fp severity : string) (ls : gmap string string) : Alert :=
  mkAlert fp "r" "rule" StateFiring severity ls ∅ f64_zero f64_zero 0 None (Some 0) None 0 None None "" fp.
Definition down_alert : Alert := alert_of "f1" "critical" {["alertname" := "NodeDown"; "node" := "n1"]}.
Definition slow_alert : Alert := alert_of "f2" "warning" {["alertname" := "Slow"; "node" := "n1"]}.
Definition node_rule : InhibitRule :=
  mkInhibitRule "i1" [mkMatcher "alertname" "NodeDown" false true]
    [mkMatcher "alertname" "NodeDown" false false] ["node"].
Definition plain_regexp (_ : string) : option (string → bool) := None.
Definition map_order (i : Inhibitor) (_ : InhibitRule) : list Alert := (map_to_list (firingAlerts i)).*2.
Definition demo_inhibitor : Inhibitor :=
  maintenance None 0 map_to_list (Some [node_rule]) [down_alert; slow_alert] NewInhibitor.

Example demo_inhibited :
  (IsInhibited plain_regexp (map_order demo_inhibitor) slow_alert demo_inhibitor,
   IsInhibited plain_regexp (map_order demo_inhibitor) down_alert demo_inhibitor) = (true, false).
Proof. vm_compute. reflexivity. Qed.

Lemma suppression_verdict_witness :
  (ShouldSuppress plain_regexp (Some []) (map_order demo_inhibitor) None 0 slow_alert demo_inhibitor).2 =
  (true, "inhibited").
Proof.
  destruct (suppression_verdict plain_regexp (Some []) (map_order demo_inhibitor) None 0 slow_alert
    demo_inhibitor (λ _, reflexivity _)) as [(l & b & s & a & E & E2 & _)|[_ [[_ H]|[H _]]]].
  - injection E as <-. destruct b; discriminate E2.
  - exact H.
  - exfalso. apply H.
    apply (proj1 (IsInhibited_spec plain_regexp (map_order demo_inhibitor) slow_alert demo_inhibitor
      (λ _, reflexivity _))). vm_compute. reflexivity.
Defined.

Lemma suppressed_after_maintenance_witness :
  ∃ rule source, rule ∈ [node_rule] ∧ source ∈ [down_alert; slow_alert] ∧
    alert_State source = StateFiring ∧ inhibits plain_regexp rule source slow_alert.
Proof.
  apply (suppressed_after_maintenance plain_regexp None 0 map_to_list (map_order demo_inhibitor)
    [node_rule] [down_alert; slow_alert] slow_alert NewInhibitor).
  - reflexivity.
  - intros rule. reflexivity.
  - intros a b [->|[->|Ha%not_elem_of_nil]%elem_of_cons]%elem_of_cons
      [->|[->|Hb%not_elem_of_nil]%elem_of_cons]%elem_of_cons E;
      first [reflexivity|discriminate E|contradiction].
  - vm_compute. reflexivity.
Defined.
