(* ===== verification/Router.v ===== *)
(** internal/alerting/router.go: routing of alerts to receivers, grouping and
    the timing of notifications.

    Groups hold pointers to alerts that the evaluator goes on updating: a group
    lists alert IDs, and what an ID points to at the moment is the argument
    [deref].  Receivers are their names; whether [Send] succeeds is the argument
    [send], and the notifications sent are returned.  [Route] is the method, the
    type of routes is [AlertTypes.Route]. *)

From Stdlib Require Import String.
From stdpp Require Import base option list gmap strings sorting.
From S2P Require Import Prelude Float64 Bytes AlertTypes.

#[local] Open Scope Z_scope.

(** ** Data *)

Record AlertGroup := mkAlertGroup {
  g_Key : string;
  g_Labels : gmap string string;
  g_Alerts : list string;
  g_Receiver : string;
  g_CreatedAt : Time;
  g_UpdatedAt : Time;
  g_NotifiedAt : option Time;
}.

Record Router := mkRouter {
  routes : list AlertTypes.Route;
  groups : gmap string AlertGroup;
  receivers : gset string;
  lastNotify : gmap string Time;
}.

Definition NewRouter : Router := mkRouter [] ∅ ∅ ∅.
Definition RegisterReceiver (name : string) (r : Router) : Router :=
  mkRouter (routes r) (groups r) ({[name]} ∪ receivers r) (lastNotify r).
Definition SetRoutes (rs : list AlertTypes.Route) (r : Router) : Router :=
  mkRouter rs (groups r) (receivers r) (lastNotify r).
Definition set_groups (m : gmap string AlertGroup) (r : Router) : Router :=
  mkRouter (routes r) m (receivers r) (lastNotify r).

(** *** Sorting and permutations *)

Lemma omap_perm {A B : Type} (f : A → option B) l l' : l ≡ₚ l' → omap f l ≡ₚ omap f l'.
Proof.
  induction 1 as [|x l l' _ IH|x y l|l l' l'' _ IH1 _ IH2]; cbn; [done| | |by etrans].
  - destruct (f x); [by constructor|done].
  - destruct (f x), (f y); solve [apply Permutation_swap | reflexivity].
Qed.

Lemma merge_sort_perm (l l' : list string) : l ≡ₚ l' → merge_sort String.le l = merge_sort String.le l'.
Proof.
  intros H. apply (Sorted_unique String.le); [apply Sorted_merge_sort, _..|].
  by rewrite !merge_sort_Permutation.
Qed.

Section router.
Context (Compile : string → option (string → bool)).

(** ** Choosing routes *)

(** [if len(matched) == 0 && len(routes) > 0 { matched = routes[0] }] *)
Definition or_first (rs matched : list AlertTypes.Route) : list AlertTypes.Route :=
  match matched, rs with
  | [], first :: _ => [first]
  | _, _ => matched
  end.

(** A matching route with what its children add. *)
Fixpoint with_children (alert : Alert) (route : AlertTypes.Route) : list AlertTypes.Route :=
  route :: or_first (rt_Children route)
    ((fix loop (rs : list AlertTypes.Route) : list AlertTypes.Route :=
        match rs with
        | [] => []
        | child :: rest =>
            if matchesRoute Compile alert child then
              with_children alert child ++ (if negb (rt_Continue child) then [] else loop rest)
            else loop rest
        end) (rt_Children route)).

(** The loop over the routes of one level. *)
Fixpoint route_level (alert : Alert) (rs : list AlertTypes.Route) : list AlertTypes.Route :=
  match rs with
  | [] => []
  | route :: rest =>
      if matchesRoute Compile alert route then
        with_children alert route ++ (if negb (rt_Continue route) then [] else route_level alert rest)
      else route_level alert rest
  end.

Definition findMatchingRoutes (alert : Alert) (rs : list AlertTypes.Route) : list AlertTypes.Route :=
  or_first rs (route_level alert rs).

(** The recursion of the code: a matching route is followed by the matches among
    its children. *)
Lemma with_children_eq alert route :
  with_children alert route = route :: findMatchingRoutes alert (rt_Children route).
Proof.
  destruct route as [n ms rc gb gw gi ri co children]. cbn [with_children rt_Children].
  unfold findMatchingRoutes. f_equal. f_equal.
  induction children as [|c rest IH]; [done|]. cbn [route_level]. by rewrite IH.
Qed.

(** ** Grouping *)

Definition buildGroupKey (alert : Alert) (groupBy : list string) : string :=
  match groupBy with
  | [] => alert_RuleName alert
  | _ =>
      let parts := omap (λ label, (λ value, label +:+ "=" +:+ value) <$> alert_Labels alert !! label)
                     groupBy in
      String.concat "," (merge_sort String.le parts)
  end.

(** The labels of a new group. *)
Definition group_labels (alert : Alert) (groupBy : list string) : gmap string string :=
  foldl (λ m label, match alert_Labels alert !! label with
                    | Some value => <[label := value]> m
                    | None => m
                    end) ∅ groupBy.

Section heap.
Context (deref : string → Alert).

(** Replace the first alert with the fingerprint, or append. *)
Fixpoint put_alert (alert : Alert) (ids : list string) : list string :=
  match ids with
  | [] => [alert_ID alert]
  | id :: rest =>
      if String.eqb (alert_Fingerprint (deref id)) (alert_Fingerprint alert)
      then alert_ID alert :: rest
      else id :: put_alert alert rest
  end.

Definition addToGroup (now : Time) (groupKey : string) (alert : Alert) (route : AlertTypes.Route)
    (r : Router) : Router :=
  let group := match groups r !! groupKey with
               | Some g => g
               | None => mkAlertGroup groupKey (group_labels alert (rt_GroupBy route)) []
                           (rt_Receiver route) now now None
               end in
  set_groups (<[groupKey :=
    mkAlertGroup (g_Key group) (g_Labels group) (put_alert alert (g_Alerts group))
      (g_Receiver group) (g_CreatedAt group) now (g_NotifiedAt group)]> (groups r)) r.

(** The method [Route]. *)
Definition Route (now : Time) (alert : Alert) (r : Router) : Router :=
  foldl (λ r route, addToGroup now (buildGroupKey alert (rt_GroupBy route)) alert route r)
    r (findMatchingRoutes alert (routes r)).

(** ** Sending notifications *)

Definition positive_or (d default : Duration) : Duration := if 0 <? d then d else default.

(** The first top-level route with the group's receiver. *)
Definition routeConfig (group : AlertGroup) (r : Router) : option AlertTypes.Route :=
  find (λ rt, String.eqb (rt_Receiver rt) (g_Receiver group)) (routes r).

Definition groupWait (rc : option AlertTypes.Route) : Duration :=
  match rc with Some rt => positive_or (rt_GroupWait rt) (30 * Second) | None => 30 * Second end.
Definition groupInterval (rc : option AlertTypes.Route) : Duration :=
  match rc with Some rt => positive_or (rt_GroupInterval rt) (5 * Minute) | None => 5 * Minute end.
Definition repeatInterval (rc : option AlertTypes.Route) : Duration :=
  match rc with Some rt => positive_or (rt_RepeatInterval rt) (4 * Hour) | None => 4 * Hour end.

Definition shouldNotify (now : Time) (group : AlertGroup) (r : Router) : bool :=
  let rc := routeConfig group r in
  match g_NotifiedAt group with
  | None => groupWait rc <=? time_Sub now (g_CreatedAt group)
  | Some notified =>
      if After (g_UpdatedAt group) notified then groupInterval rc <=? time_Sub now notified
      else repeatInterval rc <=? time_Sub now (default zero_time (lastNotify r !! g_Key group))
  end.

Definition firing_ids (group : AlertGroup) : list string :=
  filter (λ id, alert_State (deref id) = StateFiring) (g_Alerts group).

Definition with_NotifiedAt (t : Time) (group : AlertGroup) : AlertGroup :=
  mkAlertGroup (g_Key group) (g_Labels group) (g_Alerts group) (g_Receiver group)
    (g_CreatedAt group) (g_UpdatedAt group) (Some t).

(** What the receiver is given: the firing alerts only. *)
Definition notifyGroup (group : AlertGroup) : AlertGroup :=
  mkAlertGroup (g_Key group) (g_Labels group) (firing_ids group) (g_Receiver group)
    (g_CreatedAt group) (g_UpdatedAt group) None.

(** [send] tells whether the receiver accepts; the calls made are returned. *)
Definition sendGroupNotification (send : string → AlertGroup → bool) (now : Time)
    (key : string) (group : AlertGroup) (r : Router) : Router * list (string * AlertGroup) :=
  if bool_decide (g_Receiver group ∈ receivers r) then
    let call := (g_Receiver group, notifyGroup group) in
    if send (g_Receiver group) (notifyGroup group) then
      (mkRouter (routes r) (<[key := with_NotifiedAt now group]> (groups r)) (receivers r)
         (<[g_Key group := now]> (lastNotify r)), [call])
    else (r, [call])
  else (r, []).

Definition handleResolvedGroup (now : Time) (group : AlertGroup) (r : Router) : Router :=
  match g_NotifiedAt group with
  | Some _ =>
      let hasUnresolved := existsb (λ id, bool_decide (alert_State (deref id) ≠ StateResolved ∧
                                                     alert_State (deref id) ≠ StateInactive))
                             (g_Alerts group) in
      if negb hasUnresolved && (15 * Minute <? Since now (g_UpdatedAt group))
      then set_groups (delete (g_Key group) (groups r)) r else r
  | None =>
      if 5 * Minute <? Since now (g_CreatedAt group)
      then set_groups (delete (g_Key group) (groups r)) r else r
  end.

(** The group is the pointer stored under [key]. *)
Definition processGroup (send : string → AlertGroup → bool) (now : Time) (key : string)
    (r : Router) : Router * list (string * AlertGroup) :=
  match groups r !! key with
  | None => (r, [])
  | Some group =>
      match firing_ids group with
      | [] => (handleResolvedGroup now group r, [])
      | _ => if shouldNotify now group r then sendGroupNotification send now key group r else (r, [])
      end
  end.

Fixpoint process_keys (send : string → AlertGroup → bool) (now : Time) (keys : list string)
    (r : Router) : Router * list (string * AlertGroup) :=
  match keys with
  | [] => (r, [])
  | key :: rest =>
      let '(r1, sent1) := processGroup send now key r in
      let '(r2, sent2) := process_keys send now rest r1 in
      (r2, sent1 ++ sent2)
  end.

(** The groups in the iteration order of the map. *)
Definition processGroups (send : string → AlertGroup → bool) (now : Time) (r : Router)
    : Router * list (string * AlertGroup) :=
  process_keys send now (map_to_list (groups r)).*1 r.

Definition GetGroups (r : Router) : list AlertGroup := (map_to_list (groups r)).*2.
Definition GetGroup (key : string) (r : Router) : option AlertGroup := groups r !! key.

End heap.

(** ** Which routes are chosen *)

Definition matches (alert : Alert) (rt : AlertTypes.Route) : Prop :=
  matchesRoute Compile alert rt = true.

(** A matching route of a level that no earlier matching route stops. *)
Definition reached (alert : Alert) (rs : list AlertTypes.Route) (rt : AlertTypes.Route) : Prop :=
  ∃ pre post, rs = pre ++ rt :: post ∧ matches alert rt ∧
    ∀ p, p ∈ pre → matches alert p → rt_Continue p = true.

Inductive selected (alert : Alert) : list AlertTypes.Route → AlertTypes.Route → Prop :=
| sel_match rs rt : reached alert rs rt → selected alert rs rt
| sel_first rt rest :
    (∀ p, p ∈ rt :: rest → ¬ matches alert p) → selected alert (rt :: rest) rt
| sel_child rs parent rt :
    reached alert rs parent → selected alert (rt_Children parent) rt → selected alert rs rt.

(** Induction over a tree of routes. *)
Lemma route_tree_ind (P : AlertTypes.Route → Prop) :
  (∀ rt, Forall P (rt_Children rt) → P rt) → ∀ rt, P rt.
Proof.
  intros Hstep. fix go 1. intros [n ms rc gb gw gi ri co children]. apply Hstep. cbn.
  induction children as [|c rest IH]; constructor; [apply go|exact IH].
Qed.

Lemma reached_nil alert rt : ¬ reached alert [] rt.
Proof. intros ([] & post & E & _); done. Qed.

Lemma reached_cons alert c rest rt :
  reached alert (c :: rest) rt ↔
  (rt = c ∧ matches alert c) ∨
  (reached alert rest rt ∧ (matches alert c → rt_Continue c = true)).
Proof.
  split.
  - intros (pre & post & E & Hm & Hpre). destruct pre as [|x pre]; injection E as -> ->; [by left|right].
    split; [|by apply Hpre; set_solver]. exists pre, post. split_and!; [done..|]. intros p Hp. apply Hpre. set_solver.
  - intros [[-> Hm]|[(pre & post & -> & Hm & Hpre) Hc]].
    + exists [], rest. split_and!; [done..|]. by intros p ?%not_elem_of_nil.
    + exists (c :: pre), post. split_and!; [done..|]. intros p [->|Hp]%elem_of_cons; [done|by apply Hpre].
Qed.

Lemma route_level_spec alert rs x :
  x ∈ route_level alert rs ↔ ∃ p, reached alert rs p ∧ x ∈ with_children alert p.
Proof.
  induction rs as [|c rest IH]; cbn [route_level].
  - split; [by intros ?%not_elem_of_nil|]. by intros (p & ?%reached_nil & _).
  - assert (Hr : (∃ p, reached alert (c :: rest) p ∧ x ∈ with_children alert p) ↔
      (matches alert c ∧ x ∈ with_children alert c) ∨
      ((matches alert c → rt_Continue c = true) ∧ ∃ p, reached alert rest p ∧ x ∈ with_children alert p)).
    { split.
      - intros (p & [[-> Hm]|[Hp Hc]]%reached_cons & Hx); [by left|right]. split; [done|by exists p].
      - intros [[Hm Hx]|[Hc (p & Hp & Hx)]]; [exists c|exists p]; (split; [|done]);
          apply reached_cons; [by left|by right]. }
    rewrite Hr, <- IH. unfold matches. destruct (matchesRoute Compile alert c) eqn:Em.
    + rewrite elem_of_app. destruct (rt_Continue c) eqn:Ec; cbn [negb]; [naive_solver|].
      split; [intros [Hx|?%not_elem_of_nil]; [by left|done]|]. intros [[_ Hx]|[Hc _]]; [by left|].
      by specialize (Hc eq_refl).
    + split; [by right|]. intros [[? _]|[_ Hx]]; done.
Qed.

Lemma route_level_nil alert rs : route_level alert rs = [] ↔ ∀ p, p ∈ rs → ¬ matches alert p.
Proof.
  induction rs as [|c rest IH]; cbn [route_level]; [split; [by intros _ p ?%not_elem_of_nil|done]|].
  unfold matches in *. destruct (matchesRoute Compile alert c) eqn:Em.
  - split; [by rewrite with_children_eq|]. intros H. by destruct (H c ltac:(set_solver)).
  - rewrite IH. split; [|set_solver]. intros H p [->|Hp]%elem_of_cons; [congruence|by apply H].
Qed.

Lemma findMatchingRoutes_spec alert rs x :
  x ∈ findMatchingRoutes alert rs ↔
  (∃ p, reached alert rs p ∧ x ∈ with_children alert p) ∨
  (∃ rest, rs = x :: rest ∧ ∀ p, p ∈ rs → ¬ matches alert p).
Proof.
  rewrite <- route_level_spec. setoid_rewrite <- route_level_nil.
  unfold findMatchingRoutes, or_first.
  destruct (route_level alert rs) as [|y l]; [|split; [by left|intros [?|(rest & _ & ?)]; done]].
  destruct rs as [|c rest].
  - split; [by intros ?%not_elem_of_nil|]. intros [?%not_elem_of_nil|(rest & ? & _)]; done.
  - rewrite list_elem_of_singleton. split.
    + intros ->. right. by exists rest.
    + intros [?%not_elem_of_nil|(rest' & [= -> _] & _)]; done.
Qed.

Lemma with_children_selected alert rt :
  ∀ x, x ∈ with_children alert rt → x = rt ∨ selected alert (rt_Children rt) x.
Proof.
  induction rt as [rt IH] using route_tree_ind. intros x. rewrite with_children_eq.
  intros [->|Hx]%elem_of_cons; [by left|right].
  apply findMatchingRoutes_spec in Hx as [(p & Hp & Hx)|(rest & E & Hno)].
  - assert (Hin : p ∈ rt_Children rt) by (destruct Hp as (pre & post & -> & _); set_solver).
    rewrite Forall_forall in IH. destruct (IH p Hin x Hx) as [->|Hs]; [by apply sel_match|].
    by eapply sel_child.
  - rewrite E in Hno |- *. by apply sel_first.
Qed.

(** ** The invariant of the router *)

Section invariant.
Context (fp_of : string → string).

(** Fingerprints never change: every store agrees on them. *)
Definition stable (deref : string → Alert) : Prop := ∀ id, alert_Fingerprint (deref id) = fp_of id.

Record group_ok (r : Router) (key : string) (g : AlertGroup) : Prop := {
  gok_key : g_Key g = key;
  gok_nodup : NoDup (fp_of <$> g_Alerts g);
  gok_notified t : g_NotifiedAt g = Some t → lastNotify r !! key = Some t;
}.

Definition router_ok (r : Router) : Prop := ∀ key g, groups r !! key = Some g → group_ok r key g.

Lemma put_alert_fps deref alert ids :
  stable deref → fp_of (alert_ID alert) = alert_Fingerprint alert →
  fp_of <$> put_alert deref alert ids =
  (if decide (alert_Fingerprint alert ∈ fp_of <$> ids) then fp_of <$> ids
   else (fp_of <$> ids) ++ [alert_Fingerprint alert]).
Proof.
  intros Hst Ha. induction ids as [|id ids IH]; cbn.
  - rewrite Ha. done.
  - rewrite (Hst id). destruct (String.eqb_spec (fp_of id) (alert_Fingerprint alert)) as [E|E].
    + rewrite decide_True by set_solver. cbn. by rewrite Ha, E.
    + cbn. rewrite IH. repeat case_decide; try done; set_solver.
Qed.

Lemma put_alert_in deref alert ids : alert_ID alert ∈ put_alert deref alert ids.
Proof. induction ids as [|id ids IH]; cbn; [set_solver|]. case_match; set_solver. Qed.

Lemma addToGroup_ok deref now key alert rt r :
  stable deref → fp_of (alert_ID alert) = alert_Fingerprint alert →
  router_ok r → router_ok (addToGroup deref now key alert rt r).
Proof.
  intros Hst Ha Hr k g. unfold addToGroup. cbn.
  intros [[<- <-]|[Hne Hg]]%lookup_insert_Some; [|destruct (Hr k g Hg); by split].
  set (g0 := match groups r !! key with Some _ => _ | None => _ end).
  assert (Hg0 : g_Key g0 = key ∧ NoDup (fp_of <$> g_Alerts g0) ∧
    ∀ t, g_NotifiedAt g0 = Some t → lastNotify r !! key = Some t).
  { subst g0. destruct (groups r !! key) as [g|] eqn:E; [destruct (Hr key g E); done|].
    cbn. split_and!; [done|constructor|done]. }
  destruct Hg0 as (H1 & H2 & H3). split; cbn; [done| |exact H3].
  rewrite (put_alert_fps deref) by done. case_decide; [done|].
  apply NoDup_app. split_and!; [done| |apply NoDup_singleton].
  intros x Hx ->%list_elem_of_singleton. done.
Qed.

Lemma Route_ok deref now alert r :
  stable deref → fp_of (alert_ID alert) = alert_Fingerprint alert →
  router_ok r → router_ok (Route deref now alert r).
Proof.
  intros Hst Ha. unfold Route. generalize (findMatchingRoutes alert (routes r)). intros l.
  revert r. induction l as [|rt l IH]; intros r Hr; [done|]. cbn [foldl]. by apply IH, addToGroup_ok.
Qed.

Lemma handleResolvedGroup_ok deref now g r : router_ok r → router_ok (handleResolvedGroup deref now g r).
Proof.
  intros Hr. unfold handleResolvedGroup.
  assert (Hd : router_ok (set_groups (delete (g_Key g) (groups r)) r)).
  { intros k g' Hg. cbn in Hg. apply lookup_delete_Some in Hg as [_ Hg]. destruct (Hr k g' Hg). by split. }
  repeat case_match; done.
Qed.

Lemma processGroup_ok deref send now key r :
  router_ok r → router_ok (processGroup deref send now key r).1.
Proof.
  intros Hr. unfold processGroup. destruct (groups r !! key) as [g|] eqn:Eg; [|done].
  destruct (Hr key g Eg) as [Hk Hnd Hn].
  destruct (firing_ids deref g); [by apply handleResolvedGroup_ok|].
  destruct (shouldNotify now g r); [|done]. unfold sendGroupNotification.
  case_bool_decide; [|done]. destruct (send _ _); [|done]. cbn. rewrite Hk.
  intros k g' Hg. cbn in Hg. apply lookup_insert_Some in Hg as [[<- <-]|[Hne Hg]].
  - split; cbn; [done|done|]. intros t [= <-]. by rewrite lookup_insert_eq.
  - destruct (Hr k g' Hg) as [Hk' Hnd' Hn']. split; [done..|]. intros t Ht. cbn.
    rewrite lookup_insert_ne by done. by apply Hn'.
Qed.

Lemma process_keys_ok deref send now keys r :
  router_ok r → router_ok (process_keys deref send now keys r).1.
Proof.
  revert r. induction keys as [|k keys IH]; intros r Hr; [done|]. cbn [process_keys].
  pose proof (processGroup_ok deref send now k r Hr) as H1.
  destruct (processGroup deref send now k r) as [r1 s1]. specialize (IH r1 H1).
  by destruct (process_keys deref send now keys r1) as [r2 s2].
Qed.

(** Everything a router goes through, with stores that agree on fingerprints. *)
Inductive router_reachable : Router → Prop :=
| rr_new : router_reachable NewRouter
| rr_receiver name r : router_reachable r → router_reachable (RegisterReceiver name r)
| rr_routes rs r : router_reachable r → router_reachable (SetRoutes rs r)
| rr_route deref now alert r :
    router_reachable r → stable deref → fp_of (alert_ID alert) = alert_Fingerprint alert →
    router_reachable (Route deref now alert r)
| rr_tick deref send now r :
    router_reachable r → router_reachable (processGroups deref send now r).1.

Lemma router_reachable_ok r : router_reachable r → router_ok r.
Proof.
  induction 1 as [|name r _ IH|rs r _ IH|deref now alert r _ IH Hst Ha|deref send now r _ IH].
  - intros k g H. cbn in H. by rewrite lookup_empty in H.
  - intros k g Hg. destruct (IH k g Hg). by split.
  - intros k g Hg. destruct (IH k g Hg). by split.
  - by apply Route_ok.
  - by apply process_keys_ok.
Qed.

Lemma addToGroup_keeps deref now key alert rt r k g id :
  stable deref → groups r !! k = Some g → id ∈ g_Alerts g →
  ∃ g' id', groups (addToGroup deref now key alert rt r) !! k = Some g' ∧ id' ∈ g_Alerts g' ∧
    g_Receiver g' = g_Receiver g ∧ (id' = id ∨ id' = alert_ID alert ∧ fp_of id = alert_Fingerprint alert).
Proof.
  intros Hst Hg Hid. unfold addToGroup. cbn. destruct (decide (key = k)) as [->|Hne].
  - rewrite lookup_insert_eq, Hg. eexists.
    assert (H : ∀ ids, id ∈ ids → ∃ id', id' ∈ put_alert deref alert ids ∧
      (id' = id ∨ id' = alert_ID alert ∧ fp_of id = alert_Fingerprint alert)).
    { induction ids as [|i ids IH]; [by intros ?%not_elem_of_nil|]. cbn. rewrite (Hst i).
      destruct (String.eqb_spec (fp_of i) (alert_Fingerprint alert)) as [E|E]; intros [->|Hin]%elem_of_cons.
      - exists (alert_ID alert). split; [set_solver|by right].
      - exists id. split; [set_solver|by left].
      - exists i. split; [set_solver|by left].
      - destruct (IH Hin) as (id' & H1 & H2). exists id'. split; [set_solver|done]. }
    destruct (H _ Hid) as (id' & H1 & H2). exists id'. split; [done|]. by split_and!.
  - rewrite lookup_insert_ne by done. by exists g, id; split_and!; [..|left].
Qed.

(** ** Properties *)

(** Routing is total and chooses exactly the intended routes: the matching
    ones of each level up to the first that does not continue, recursively in
    the children of each, and the first route of a level none of which
    matches. *)
Theorem routing_selects alert rs :
  (rs ≠ [] → findMatchingRoutes alert rs ≠ []) ∧
  ∀ rt, rt ∈ findMatchingRoutes alert rs ↔ selected alert rs rt.
Proof.
  split.
  - intros Hne E. unfold findMatchingRoutes, or_first in E.
    destruct (route_level alert rs); [|done]. by destruct rs.
  - intros rt. rewrite findMatchingRoutes_spec. split.
    + intros [(p & Hp & Hx)|(rest & -> & Hno)]; [|by apply sel_first].
      apply with_children_selected in Hx as [->|Hs]; [by apply sel_match|by eapply sel_child].
    + induction 1 as [rs rt Hr|rt rest Hno|rs p rt Hp _ IH].
      * left. exists rt. split; [done|]. rewrite with_children_eq. set_solver.
      * right. by exists rest.
      * left. exists p. split; [done|]. rewrite with_children_eq. apply elem_of_cons. right.
        by apply findMatchingRoutes_spec.
Qed.

(** Routing an alert in any reachable router puts it in the group of every
    route selected for it and loses no alert of any group: what was in a group
    is still there, or was replaced by this alert because it has the same
    fingerprint; no group ever holds two alerts of one fingerprint. *)
Theorem routed_alert_is_grouped deref now alert r :
  router_reachable r → stable deref → fp_of (alert_ID alert) = alert_Fingerprint alert →
  let r' := Route deref now alert r in
  (∀ rt, rt ∈ findMatchingRoutes alert (routes r) →
     ∃ g, GetGroup (buildGroupKey alert (rt_GroupBy rt)) r' = Some g ∧ alert_ID alert ∈ g_Alerts g) ∧
  (∀ key g id, GetGroup key r = Some g → id ∈ g_Alerts g →
     ∃ g' id', GetGroup key r' = Some g' ∧ id' ∈ g_Alerts g' ∧ g_Receiver g' = g_Receiver g ∧
       (id' = id ∨ id' = alert_ID alert ∧ fp_of id = alert_Fingerprint alert)) ∧
  (∀ key g, GetGroup key r' = Some g → NoDup (fp_of <$> g_Alerts g)).
Proof.
  intros Hr Hst Ha r'. unfold GetGroup.
  assert (Hkeep : ∀ l r0 key g id, groups r0 !! key = Some g → id ∈ g_Alerts g →
    ∃ g' id', groups (foldl (λ r rt, addToGroup deref now (buildGroupKey alert (rt_GroupBy rt)) alert rt r) r0 l) !! key = Some g' ∧
      id' ∈ g_Alerts g' ∧ g_Receiver g' = g_Receiver g ∧
      (id' = id ∨ id' = alert_ID alert ∧ fp_of id = alert_Fingerprint alert)).
  { induction l as [|rt l IH]; intros r0 key g id Hg Hid; cbn [foldl].
    - exists g, id. split_and!; [done..|by left].
    - destruct (addToGroup_keeps deref now (buildGroupKey alert (rt_GroupBy rt)) alert rt r0 key g id Hst Hg Hid)
        as (g1 & id1 & Hg1 & Hid1 & Hrc1 & Hcase1).
      destruct (IH _ key g1 id1 Hg1 Hid1) as (g2 & id2 & Hg2 & Hid2 & Hrc2 & Hcase2).
      exists g2, id2. split_and!; [done|done|congruence|]. naive_solver. }
  split_and!.
  - intros rt Hrt. subst r'. unfold Route. revert Hrt.
    generalize (findMatchingRoutes alert (routes r)). intros l. generalize r. clear r Hr.
    induction l as [|rt0 l IH]; intros r; [by intros ?%not_elem_of_nil|]. cbn [foldl].
    intros [->|Hrt]%elem_of_cons; [|by apply IH].
    set (r0 := addToGroup _ _ _ _ _ _).
    assert (Hg0 : ∃ g0, groups r0 !! buildGroupKey alert (rt_GroupBy rt0) = Some g0 ∧
      alert_ID alert ∈ g_Alerts g0).
    { subst r0. unfold addToGroup. cbn. rewrite lookup_insert_eq. eexists. split; [done|].
      apply put_alert_in. }
    destruct Hg0 as (g0 & Hg0 & Hin).
    destruct (Hkeep l r0 _ g0 (alert_ID alert) Hg0 Hin) as (g' & id' & Hg' & Hid' & _ & Hc).
    exists g'. split; [done|]. naive_solver.
  - intros key g id Hg Hid. by apply Hkeep with (g := g).
  - intros key g Hg. apply (gok_nodup r' key g). apply (Route_ok deref now alert r Hst Ha); [|done].
    by apply router_reachable_ok.
Qed.


End invariant.
End router.

(** The group key depends only on the set of labels grouped by and their
    values: alerts of one rule that agree on those labels share a group, in
    whatever order the labels are listed. *)
Theorem group_key_of_label_values alert alert' groupBy groupBy' :
  groupBy ≡ₚ groupBy' → alert_RuleName alert = alert_RuleName alert' →
  (∀ l, l ∈ groupBy → alert_Labels alert !! l = alert_Labels alert' !! l) →
  buildGroupKey alert groupBy = buildGroupKey alert' groupBy'.
Proof.
  intros Hp Hn Hl. unfold buildGroupKey.
  assert (E : omap (λ label, (λ value, label +:+ "=" +:+ value) <$> alert_Labels alert !! label) groupBy =
    omap (λ label, (λ value, label +:+ "=" +:+ value) <$> alert_Labels alert' !! label) groupBy).
  { clear Hp. induction groupBy as [|l gb IH]; [done|]. cbn. rewrite (Hl l) by set_solver.
    rewrite IH by (intros; apply Hl; set_solver). done. }
  destruct groupBy as [|l gb]; [by apply Permutation_nil_l in Hp as <-|].
  destruct groupBy' as [|l' gb']; [by apply Permutation_nil_r in Hp|].
  rewrite E. f_equal. by apply merge_sort_perm, omap_perm.
Qed.

(** ** Concrete inputs *)

Definition no_pattern (_ : string) : option (string → bool) := None.
Definition match_label (n v : string) : Matcher := mkMatcher n v false true.
Definition leaf (name receiver : string) (ms : list Matcher) (groupBy : list string) (continue : bool)
    : AlertTypes.Route := mkRoute name ms receiver groupBy 0 0 0 continue [].

Definition cpu_alert : Alert :=
  mkAlert "a1" "r" "High CPU" StateFiring "critical" {["env" := "prod"; "team" := "db"]} ∅ f64_zero
    f64_zero 0 None (Some 0) None 0 None None "" "f1".
Definition cpu_store (_ : string) : Alert := cpu_alert.
Definition fp_demo (_ : string) : string := "f1".

(** Two receivers for production alerts, grouped by the same label. *)
Definition two_routes : list AlertTypes.Route :=
  [leaf "log" "log" [match_label "env" "prod"] ["env"] true;
   leaf "page" "page" [match_label "team" "db"] ["env"] true].
Definition router0 : Router := SetRoutes two_routes (RegisterReceiver "page" (RegisterReceiver "log" NewRouter)).
Definition router1 : Router := Route no_pattern cpu_store 0 cpu_alert router0.
Definition accept (_ : string) (_ : AlertGroup) : bool := true.
Definition router2 : Router := (processGroups cpu_store accept Minute router1).1.

Lemma cpu_stable : stable fp_demo cpu_store.
Proof. intros id. reflexivity. Qed.

Lemma router0_reachable : router_reachable no_pattern fp_demo router0.
Proof. apply rr_routes, rr_receiver, rr_receiver, rr_new. Qed.

Lemma router1_reachable : router_reachable no_pattern fp_demo router1.
Proof. apply rr_route; [exact router0_reachable|exact cpu_stable|reflexivity]. Qed.

Lemma group_key_of_label_values_witness :
  buildGroupKey cpu_alert ["env"; "team"; "x"] = buildGroupKey (acknowledge "ann" 5 cpu_alert) ["x"; "team"; "env"].
Proof.
  apply (group_key_of_label_values cpu_alert (acknowledge "ann" 5 cpu_alert) ["env"; "team"; "x"]
    ["x"; "team"; "env"]).
  - exact (Permutation_rev ["env"; "team"; "x"]).
  - reflexivity.
  - intros l _. reflexivity.
Defined.

Lemma routed_alert_is_grouped_witness :
  ∃ g, GetGroup "env=prod" router1 = Some g ∧ "a1" ∈ g_Alerts g.
Proof.
  apply (proj1 (routed_alert_is_grouped no_pattern fp_demo cpu_store 0 cpu_alert router0
    router0_reachable cpu_stable eq_refl) (leaf "log" "log" [match_label "env" "prod"] ["env"] true)).
  apply elem_of_cons. left. reflexivity.
Defined.

Definition cpu_group : AlertGroup :=
  mkAlertGroup "env=prod" {["env" := "prod"]} ["a1"] "log" 0 0 None.


(** ** What the model shows beyond the properties *)

(** The group key does not name the route: when two routes group by the same
    labels, the alert is put twice in the group of the first one, and only the
    receiver of the first one is ever notified. *)
Lemma second_receiver_never_notified :
  (rt_Receiver <$> findMatchingRoutes no_pattern cpu_alert two_routes) = ["log"; "page"] ∧
  (processGroups cpu_store accept Minute router1).2.*1 = ["log"] ∧
  (processGroups cpu_store accept (10 * Hour) router2).2.*1 = ["log"].
Proof. vm_compute. split_and!; reflexivity. Qed.

(** A parent route falls back to its first child when no child matches. *)
Lemma first_child_gets_unmatched_alert :
  let child := leaf "dba" "dba" [match_label "team" "web"] [] false in
  let parent := mkRoute "prod" [match_label "env" "prod"] "log" [] 0 0 0 false [child] in
  matchesRoute no_pattern cpu_alert child = false ∧
  findMatchingRoutes no_pattern cpu_alert [parent] = [parent; child].
Proof. vm_compute. split; reflexivity. Qed.

(** A resolved group is never notified: it is only dropped. *)
Lemma no_resolved_notification deref send now key r :
  (∀ g, groups r !! key = Some g → firing_ids deref g = []) →
  (processGroup deref send now key r).2 = [].
Proof.
  intros H. unfold processGroup. destruct (groups r !! key) as [g|] eqn:E; [|done].
  by rewrite (H g eq_refl).
Qed.
