(* ===== verification/Calendar.v ===== *)
(** Dates and clocks: locations with their zones, and the Gregorian calendar as package
    time counts it. *)

From Stdlib Require Import ZArith Lia.
From stdpp Require Import base numbers list.
From S2P Require Import Prelude.

(** ** Locations

    The zone in use at a second: its offset, and the seconds it is in use from and to. *)
Record Zone := mkZone { z_offset : Z; z_start : Z; z_end : Z }.
Definition Location : Type := Z → Zone.
Definition UTC : Location := λ _, mkZone 0 (- 2 ^ 63) (2 ^ 63 - 1).

Definition day_secs : Z := 86400.

(** Seconds on the clock of a location; the day and the second of the day. *)
Definition local (loc : Location) (t : Time) : Z := time_Unix t + z_offset (loc (time_Unix t)).
Definition local_day (loc : Location) (t : Time) : Z := local loc t / day_secs.
Definition local_sec (loc : Location) (t : Time) : Z := local loc t mod day_secs.
Definition local_minutes (loc : Location) (t : Time) : Z := local_sec loc t / 60.
(** January 1, 1970 was a Thursday. *)
Definition Weekday (loc : Location) (t : Time) : Z := (local_day loc t + 4) mod 7.

(** [time.Date] of a day and seconds in it, which may be out of range. *)
Definition Date (loc : Location) (day secs : Z) : Time :=
  let unix := day * day_secs + secs in
  let z := loc unix in
  if z_offset z =? 0 then from_Unix unix
  else
    let utc := unix - z_offset z in
    let off := if (utc <? z_start z) || (z_end z <=? utc) then z_offset (loc utc) else z_offset z in
    from_Unix (unix - off).

(** [t.AddDate(0, 0, n)] of a time with whole seconds. *)
Definition AddDays (loc : Location) (n : Z) (t : Time) : Time :=
  Date loc (local_day loc t + n) (local_sec loc t).

(** ** The Gregorian calendar

    Days are counted from 1970, years from March in eras of 400 years. *)
Record Civil := mkCivil { c_Year : Z; c_Month : Z; c_Day : Z }.

Definition era_days : Z := 146097.

(** The day of the era of a year and a day in it, and of a day of the month; the months
    count from March. *)
Definition month_start (mp : Z) : Z := (153 * mp + 2) / 5.
Definition day_of_era (yoe mp d : Z) : Z := yoe * 365 + yoe / 4 - yoe / 100 + month_start mp + d - 1.

(** The century, the four years, the year of a day of the era; the last of each can have
    a day more. *)
Definition year_of_era (doe : Z) : Z * Z :=
  let c := Z.min (doe / 36524) 3 in
  let r := doe - c * 36524 in
  let q := r / 1461 in
  let r := r - q * 1461 in
  let y := Z.min (r / 365) 3 in
  (100 * c + 4 * q + y, r - y * 365).
Definition civil_of_era (doe : Z) : Z * Z * Z :=
  let '(yoe, doy) := year_of_era doe in
  let mp := (5 * doy + 2) / 153 in
  (yoe, mp, doy - month_start mp + 1).

(** The number of a day; the month may be out of range, and so may the day. *)
Definition day_of_civil (c : Civil) : Z :=
  let m0 := c_Month c - 1 in
  let y := c_Year c + m0 / 12 in
  let m := m0 mod 12 + 1 in
  let y := if m <=? 2 then y - 1 else y in
  y / 400 * era_days + day_of_era (y mod 400) ((m + 9) mod 12) (c_Day c) - 719468.

Definition civil_of_day (day : Z) : Civil :=
  let z := day + 719468 in
  let '(yoe, mp, d) := civil_of_era (z mod era_days) in
  let m := if mp <? 10 then mp + 3 else mp - 9 in
  let y := yoe + z / era_days * 400 in
  mkCivil (if m <=? 2 then y + 1 else y) m d.

Definition YearDay (day : Z) : Z := day - day_of_civil (mkCivil (c_Year (civil_of_day day)) 1 1) + 1.

Definition is_leap (y : Z) : bool := (y mod 4 =? 0) && (negb (y mod 100 =? 0) || (y mod 400 =? 0)).
Definition month_length (y m : Z) : Z :=
  if m =? 2 then (if is_leap y then 29 else 28)
  else if (m =? 4) || (m =? 6) || (m =? 9) || (m =? 11) then 30 else 31.

Example civil_epoch : civil_of_day 0 = mkCivil 1970 1 1.
Proof. reflexivity. Qed.
Example civil_leap : civil_of_day 19782 = mkCivil 2024 2 29 ∧ YearDay 19782 = 60.
Proof. split; reflexivity. Qed.

(** A year of the era begins in March: its last month has the leap day of the next year. *)
Lemma year_of_era_spec doe : 0 ≤ doe < era_days →
  let '(yoe, doy) := year_of_era doe in
  0 ≤ yoe < 400 ∧ 0 ≤ doy < (if is_leap (yoe + 1) then 366 else 365) ∧
  yoe * 365 + yoe / 4 - yoe / 100 + doy = doe.
Proof.
  intros H. unfold year_of_era, era_days in *. set (c := Z.min (doe / 36524) 3). set (r := doe - c * 36524).
  assert (Hc : 0 ≤ c ≤ 3) by (pose proof (Z.div_pos doe 36524); lia).
  pose proof (Z.div_mod doe 36524 ltac:(lia)). pose proof (Z.mod_pos_bound doe 36524 ltac:(lia)).
  assert (Hr : 0 ≤ r ≤ 36524 ∧ (c < 3 → r < 36524)) by lia.
  set (q := r / 1461). set (r' := r - q * 1461).
  pose proof (Z.div_mod r 1461 ltac:(lia)). pose proof (Z.mod_pos_bound r 1461 ltac:(lia)).
  assert (Hq : 0 ≤ q ≤ 24) by (unfold q; lia).
  assert (Hr' : 0 ≤ r' < 1461 ∧ (q = 24 → c < 3 → r' < 1460)) by lia.
  set (y := Z.min (r' / 365) 3).
  pose proof (Z.div_mod r' 365 ltac:(lia)). pose proof (Z.mod_pos_bound r' 365 ltac:(lia)).
  assert (Hy : 0 ≤ y ≤ 3) by (pose proof (Z.div_pos r' 365); lia).
  assert (E4 : (100 * c + 4 * q + y) / 4 = 25 * c + q) by (symmetry; apply Z.div_unique with y; lia).
  assert (E100 : (100 * c + 4 * q + y) / 100 = c) by (symmetry; apply Z.div_unique with (4 * q + y); lia).
  rewrite E4, E100. split; [lia|]. split; [|unfold r', r; lia]. split; [lia|].
  destruct (decide (y = 3 ∧ (q = 24 → c = 3))) as [[Hy3 Hqc]|Hn].
  - replace (is_leap (100 * c + 4 * q + y + 1)) with true; [lia|]. symmetry. unfold is_leap.
    rewrite andb_true_iff, orb_true_iff, negb_true_iff, !Z.eqb_eq, Z.eqb_neq.
    split; [symmetry; apply Z.mod_unique with (25 * c + q + 1); lia|].
    destruct (decide (q = 24)) as [Hq24|Hq24].
    + right. rewrite Hq24, Hqc, Hy3 by done. done.
    + left. rewrite <- (Z.mod_unique (100 * c + 4 * q + y + 1) 100 c (4 * q + y + 1)); lia.
  - assert (r' - y * 365 < 365); [|destruct (is_leap _); lia]. destruct (decide (y = 3)); lia.
Qed.

(** The months of a year from March on. *)
Definition month_ok (leap : bool) (doy : Z) : bool :=
  let mp := (5 * doy + 2) / 153 in
  let d := doy - month_start mp + 1 in
  (0 <=? mp) && (mp <? 12) && (1 <=? d) &&
  (d <=? month_length (if leap then 2024 else 2023) (if mp <? 10 then mp + 3 else mp - 9)).

Lemma month_ok_all (leap : bool) doy : 0 ≤ doy < (if leap then 366 else 365) → month_ok leap doy = true.
Proof.
  assert (H : ∀ n P, forallb P (Z.of_nat <$> seq 0 n) = true → ∀ z, 0 ≤ z < Z.of_nat n → P z = true).
  { intros n P HP z Hz. rewrite forallb_forall in HP. apply HP, list_elem_of_In. rewrite list_elem_of_fmap.
    exists (Z.to_nat z). split; [lia|]. apply elem_of_seq. lia. }
  intros Hd. destruct leap; [apply (H 366%nat)|apply (H 365%nat)]; [vm_compute; reflexivity|lia| |lia].
  vm_compute. reflexivity.
Qed.

Lemma month_length_leap y m : month_length (if is_leap y then 2024 else 2023) m = month_length y m.
Proof. unfold month_length. by destruct (is_leap y). Qed.

Lemma is_leap_era y k : is_leap (y + 400 * k) = is_leap y.
Proof.
  unfold is_leap. replace (y + 400 * k) with (y + 100 * k * 4) at 1 by lia.
  replace (y + 400 * k) with (y + 4 * k * 100) at 1 by lia. replace (y + 400 * k) with (y + k * 400) by lia.
  by rewrite !Z_mod_plus_full.
Qed.

(** The date of a day is a date of the calendar, and its day is that day. *)
Lemma civil_of_day_spec day :
  let c := civil_of_day day in
  1 ≤ c_Month c ≤ 12 ∧ 1 ≤ c_Day c ≤ month_length (c_Year c) (c_Month c) ∧ day_of_civil c = day.
Proof.
  intros c. subst c. unfold civil_of_day. set (z := day + 719468).
  pose proof (Z.mod_pos_bound z era_days ltac:(done)) as Hm. pose proof (year_of_era_spec _ Hm) as H.
  pose proof (Z.div_mod z era_days ltac:(done)) as Hz. unfold civil_of_era.
  destruct (year_of_era (z mod era_days)) as [yoe doy]. destruct H as (Hy & Hd & He).
  pose proof (month_ok_all _ _ Hd) as Hk. unfold month_ok in Hk.
  set (mp := (5 * doy + 2) / 153) in *. set (d := doy - month_start mp + 1) in *.
  rewrite !andb_true_iff, !Z.leb_le, !Z.ltb_lt in Hk. destruct Hk as [[[Hp0 Hp1] Hd0] Hd1].
  set (m := if mp <? 10 then mp + 3 else mp - 9) in *. set (era := z / era_days) in *.
  assert (Hmb : 1 ≤ m ≤ 12) by (unfold m; destruct (Z.ltb_spec mp 10); lia).
  assert (Hml : month_length (if m <=? 2 then yoe + era * 400 + 1 else yoe + era * 400) m =
    month_length (yoe + 1) m).
  { unfold month_length. destruct (Z.eqb_spec m 2) as [->|Hm2]; [|done]. cbn [Z.leb Z.compare Pos.compare Pos.compare_cont].
    replace (yoe + era * 400 + 1) with (yoe + 1 + 400 * era) by lia. by rewrite is_leap_era. }
  cbn [c_Year c_Month c_Day]. rewrite month_length_leap in Hd1. split; [done|]. split; [by rewrite Hml|].
  unfold day_of_civil. cbn [c_Year c_Month c_Day]. rewrite (Z.div_small (m - 1) 12), (Z.mod_small (m - 1) 12), Z.sub_add, Z.add_0_r by lia.
  assert (Hyy : (if m <=? 2 then (if m <=? 2 then yoe + era * 400 + 1 else yoe + era * 400) - 1
    else if m <=? 2 then yoe + era * 400 + 1 else yoe + era * 400) = yoe + era * 400) by (destruct (m <=? 2); lia).
  rewrite Hyy, Z.div_add, Z_mod_plus_full, Z.div_small, Z.mod_small by lia.
  replace ((m + 9) mod 12) with mp; [unfold day_of_era; unfold d, era in *; lia|].
  unfold m. destruct (Z.ltb_spec mp 10).
  - replace (mp + 3 + 9) with (mp + 1 * 12) by lia. rewrite Z_mod_plus_full, Z.mod_small; lia.
  - replace (mp - 9 + 9) with mp by lia. rewrite Z.mod_small; lia.
Qed.
