(* ===== verification/Escalation.v ===== *)
(** internal/oncall: incident escalation (escalation.go) and the persistence of
    its state (the escalation part of schedule.go).

    The engine's states and the rows of the table [escalation_states] are maps by
    incident.  Policies come from the database ([GetPolicy], [None] on an error);
    the on-call calculator and the channels' [Send] are arguments, and so is the
    order in which the map of channels is walked.  Notifications are stored as
    JSON, which keeps them as they are; times are stored as seconds.  Statements
    of the database succeed. *)

From Stdlib Require Import String.
From stdpp Require Import base option list gmap strings pretty.
From S2P Require Import Prelude.

#[local] Open Scope Z_scope.

(** ** Data *)

Record User := mkUser { u_ID : string; u_Name : string; u_Email : string; u_Phone : string }.
Record Target := mkTarget { t_Type : string; t_ID : string }.
Record EscalationRule := mkEscalationRule { r_Level : Z; r_DelayMinutes : Z; r_Targets : list Target }.
Record EscalationPolicy := mkEscalationPolicy {
  p_ID : string;
  p_Rules : list EscalationRule;
  p_RepeatEnabled : bool;
  p_RepeatLimit : Z;
}.

Record Notification := mkNotification {
  n_ID : string;
  n_Level : Z;
  n_Target : Target;
  n_User : User;
  n_Channel : string;
  n_SentAt : Time;
  n_Status : string;
}.

Record EscalationState := mkEscalationState {
  IncidentID : string;
  PolicyID : string;
  CurrentLevel : Z;
  RepeatCount : Z;
  StartedAt : Time;
  LastEscalation : Time;
  Acknowledged : bool;
  AckedBy : string;
  AckedAt : option Time;
  Resolved : bool;
  Notifications : list Notification;
}.

(** A row of [escalation_states]. *)
Record Row := mkRow {
  row_policy_id : string;
  row_current_level : Z;
  row_repeat_count : Z;
  row_started_at : Z;
  row_last_escalation : Z;
  row_acknowledged : Z;
  row_acked_by : string;
  row_acked_at : Z;
  row_resolved : Z;
  row_notifications : list Notification;
}.

Record EscalationEngine := mkEscalationEngine {
  states : gmap string EscalationState;
  db : gmap string Row;
}.

Definition NewEscalationEngine (d : gmap string Row) : EscalationEngine := mkEscalationEngine ∅ d.

(** What the engine does to the outside. *)
Inductive Event : Type :=
| EvSend (channel : string) (user : User) (delivered : bool)
| EvNotify (incidentID : string) (user : User) (level : Z)
| EvEscalate (incidentID : string) (fromLevel toLevel : Z).

(** ** Field updates *)

Definition set_level (lv : Z) (last : Time) (s : EscalationState) : EscalationState :=
  mkEscalationState (IncidentID s) (PolicyID s) lv (RepeatCount s) (StartedAt s) last
    (Acknowledged s) (AckedBy s) (AckedAt s) (Resolved s) (Notifications s).
(** [state.RepeatCount++; state.CurrentLevel = 0] *)
Definition restart_levels (s : EscalationState) : EscalationState :=
  mkEscalationState (IncidentID s) (PolicyID s) 0 (wrap64 (RepeatCount s + 1)) (StartedAt s)
    (LastEscalation s) (Acknowledged s) (AckedBy s) (AckedAt s) (Resolved s) (Notifications s).
Definition add_notification (n : Notification) (s : EscalationState) : EscalationState :=
  mkEscalationState (IncidentID s) (PolicyID s) (CurrentLevel s) (RepeatCount s) (StartedAt s)
    (LastEscalation s) (Acknowledged s) (AckedBy s) (AckedAt s) (Resolved s) (Notifications s ++ [n]).
Definition set_acknowledged (user : string) (now : Time) (s : EscalationState) : EscalationState :=
  mkEscalationState (IncidentID s) (PolicyID s) (CurrentLevel s) (RepeatCount s) (StartedAt s)
    (LastEscalation s) true user (Some now) (Resolved s) (Notifications s).
Definition set_resolved (s : EscalationState) : EscalationState :=
  mkEscalationState (IncidentID s) (PolicyID s) (CurrentLevel s) (RepeatCount s) (StartedAt s)
    (LastEscalation s) (Acknowledged s) (AckedBy s) (AckedAt s) true (Notifications s).

(** ** Persistence *)

Definition row_of (s : EscalationState) : Row :=
  mkRow (PolicyID s) (CurrentLevel s) (RepeatCount s) (time_Unix (StartedAt s))
    (time_Unix (LastEscalation s)) (if Acknowledged s then 1 else 0) (AckedBy s)
    (match AckedAt s with Some t => time_Unix t | None => 0 end)
    (if Resolved s then 1 else 0) (Notifications s).

(** The upsert: on a conflict the policy and the start stay what they were. *)
Definition SaveEscalationState (s : EscalationState) (d : gmap string Row) : gmap string Row :=
  let new := row_of s in
  <[IncidentID s :=
    match d !! IncidentID s with
    | None => new
    | Some old =>
        mkRow (row_policy_id old) (row_current_level new) (row_repeat_count new)
          (row_started_at old) (row_last_escalation new) (row_acknowledged new)
          (row_acked_by new) (row_acked_at new) (row_resolved new) (row_notifications new)
    end]> d.

Definition state_of (incidentID : string) (r : Row) : EscalationState :=
  mkEscalationState incidentID (row_policy_id r) (row_current_level r) (row_repeat_count r)
    (from_Unix (row_started_at r)) (from_Unix (row_last_escalation r)) (row_acknowledged r =? 1)
    (row_acked_by r) (if 0 <? row_acked_at r then Some (from_Unix (row_acked_at r)) else None)
    (row_resolved r =? 1) (row_notifications r).

(** [WHERE resolved = 0]; the rows by incident. *)
Definition LoadActiveEscalationStates (d : gmap string Row) : gmap string EscalationState :=
  map_imap (λ id r, Some (state_of id r)) (filter (λ kv, row_resolved kv.2 = 0) d).

Definition DeleteEscalationState (incidentID : string) (d : gmap string Row) : gmap string Row :=
  delete incidentID d.

(** The part of [Start] before the loop. *)
Definition Start (e : EscalationEngine) : EscalationEngine :=
  mkEscalationEngine (LoadActiveEscalationStates (db e) ∪ states e) (db e).

(** ** Notifying *)

Section engine.
Context (channels : list string) (send : string → User → bool).
Context (GetCurrentOnCall : string → result (option User)).
Context (GetPolicy : string → option EscalationPolicy).

(** One channel: [Status] and [Channel] of the notification after it. *)
Definition try_channel (user : User) (acc : string * string) (name : string) : string * string :=
  if send name user then ("sent", name) else ("failed", acc.2).

Definition notifyUser (now : Time) (user : User) (level : Z) (s : EscalationState)
    : EscalationState * list Event :=
  let '(status, channel) := foldl (try_channel user) ("pending", "") channels in
  let n := mkNotification (IncidentID s +:+ "-" +:+ pretty level +:+ "-" +:+ pretty now) level
             (mkTarget "user" (u_ID user)) user channel now status in
  (add_notification n s,
   ((λ name, EvSend name user (send name user)) <$> channels) ++ [EvNotify (IncidentID s) user level]).

Definition notifyTarget (now : Time) (target : Target) (level : Z) (s : EscalationState)
    : EscalationState * list Event :=
  if String.eqb (t_Type target) "user" then
    notifyUser now (mkUser (t_ID target) (t_ID target) "" "") level s
  else if String.eqb (t_Type target) "schedule" then
    match GetCurrentOnCall (t_ID target) with
    | Ok (Some user) => notifyUser now user level s
    | _ => (s, [])
    end
  else (s, []).

(** The loop over the targets of a rule. *)
Fixpoint notify_targets (now : Time) (targets : list Target) (level : Z) (s : EscalationState)
    : EscalationState * list Event :=
  match targets with
  | [] => (s, [])
  | t :: rest =>
      let '(s1, ev1) := notifyTarget now t level s in
      let '(s2, ev2) := notify_targets now rest level s1 in
      (s2, ev1 ++ ev2)
  end.

Definition notifyLevel (now : Time) (rule : EscalationRule) (s : EscalationState)
    : EscalationState * list Event := notify_targets now (r_Targets rule) (r_Level rule) s.

(** ** Operations *)

(** Store a state under its incident and in the database. *)
Definition put_state (s : EscalationState) (e : EscalationEngine) : EscalationEngine :=
  mkEscalationEngine (<[IncidentID s := s]> (states e)) (SaveEscalationState s (db e)).

Definition escalateTo (now : Time) (rule : EscalationRule) (s : EscalationState)
    : EscalationState * list Event :=
  let oldLevel := CurrentLevel s in
  let '(s2, ev) := notify_targets now (r_Targets rule) (r_Level rule) (set_level (r_Level rule) now s) in
  (s2, ev ++ [EvEscalate (IncidentID s) oldLevel (r_Level rule)]).

Definition find_level (lv : Z) (rules : list EscalationRule) : option EscalationRule :=
  find (λ r, r_Level r =? lv) rules.

Definition escalate_after (rule : EscalationRule) : Duration := wrap64 (r_DelayMinutes rule * Minute).

(** The decision of [checkEscalation]: the state and rule to escalate to. *)
Definition next_escalation (now : Time) (s : EscalationState) : option (EscalationState * EscalationRule) :=
  match GetPolicy (PolicyID s) with
  | None => None
  | Some policy =>
      match find_level (CurrentLevel s) (p_Rules policy) with
      | None => None
      | Some currentRule =>
          if Since now (LastEscalation s) <? escalate_after currentRule then None
          else match find_level (wrap64 (CurrentLevel s + 1)) (p_Rules policy) with
          | Some nextRule => Some (s, nextRule)
          | None =>
              if p_RepeatEnabled policy then
                if (p_RepeatLimit policy =? 0) || (RepeatCount s <? p_RepeatLimit policy) then
                  match p_Rules policy with
                  | [] => None
                  | first :: _ => Some (restart_levels s, first)
                  end
                else None
              else None
          end
      end
  end.

Definition checkEscalation (now : Time) (incidentID : string) (e : EscalationEngine)
    : EscalationEngine * list Event :=
  match states e !! incidentID with
  | None => (e, [])
  | Some s =>
      match next_escalation now s with
      | None => (e, [])
      | Some (s1, rule) =>
          let '(s2, ev) := escalateTo now rule s1 in (put_state s2 e, ev)
      end
  end.

(** The states collected under the lock. *)
Definition due_incidents (e : EscalationEngine) : list string :=
  (map_to_list (filter (λ kv, negb (Acknowledged kv.2) && negb (Resolved kv.2) = true) (states e))).*1.

Fixpoint check_all (now : Time) (ids : list string) (e : EscalationEngine)
    : EscalationEngine * list Event :=
  match ids with
  | [] => (e, [])
  | id :: rest =>
      let '(e1, ev1) := checkEscalation now id e in
      let '(e2, ev2) := check_all now rest e1 in
      (e2, ev1 ++ ev2)
  end.

Definition checkEscalations (now : Time) (e : EscalationEngine) : EscalationEngine * list Event :=
  check_all now (due_incidents e) e.

Definition TriggerIncident (now : Time) (incidentID policyID : string) (e : EscalationEngine)
    : EscalationEngine * result (list Event) :=
  match GetPolicy policyID with
  | None => (e, Err "policy not found")
  | Some policy =>
      match p_Rules policy with
      | [] => (e, Err "policy has no rules")
      | first :: _ =>
          let s := mkEscalationState incidentID policyID (r_Level first) 0 now now false "" None false [] in
          let '(s1, ev) := notifyLevel now first s in
          (put_state s1 e, Ok ev)
      end
  end.

Definition AcknowledgeIncident (now : Time) (incidentID userID : string) (e : EscalationEngine)
    : EscalationEngine * result unit :=
  match states e !! incidentID with
  | None => (e, Err "incident not found")
  | Some s =>
      if Acknowledged s then (e, Err "incident already acknowledged")
      else (put_state (set_acknowledged userID now s) e, Ok tt)
  end.

Definition ResolveIncident (incidentID : string) (e : EscalationEngine)
    : EscalationEngine * result unit :=
  match states e !! incidentID with
  | None => (e, Err "incident not found")
  | Some s => (put_state (set_resolved s) e, Ok tt)
  end.

Definition GetState (incidentID : string) (e : EscalationEngine) : result EscalationState :=
  match states e !! incidentID with
  | Some s => Ok s
  | None => Err "incident not found"
  end.

Definition GetActiveIncidents (e : EscalationEngine) : list EscalationState :=
  filter (λ s, Resolved s = false) (map_to_list (states e)).*2.

(** ** Lemmas: notifying changes only the list of notifications *)

Definition with_notifications (l : list Notification) (s : EscalationState) : EscalationState :=
  mkEscalationState (IncidentID s) (PolicyID s) (CurrentLevel s) (RepeatCount s) (StartedAt s)
    (LastEscalation s) (Acknowledged s) (AckedBy s) (AckedAt s) (Resolved s) l.

Definition is_escalate (ev : Event) : bool :=
  match ev with EvEscalate _ _ _ => true | _ => false end.
Definition escalations (evs : list Event) : nat := length (filter (λ ev, is_escalate ev = true) evs).

Lemma escalations_app a b : escalations (a ++ b) = (escalations a + escalations b)%nat.
Proof. unfold escalations. by rewrite filter_app, length_app. Qed.

(** What notifying may do: add notifications, send, and report pages. *)
Record quiet (s s' : EscalationState) (evs : list Event) : Prop := {
  q_state : ∃ l, s' = with_notifications l s;
  q_none : escalations evs = 0%nat;
}.

Lemma quiet_nil s : quiet s s [].
Proof. split; [exists (Notifications s); by destruct s|done]. Qed.

Lemma quiet_app s s1 s2 ev1 ev2 : quiet s s1 ev1 → quiet s1 s2 ev2 → quiet s s2 (ev1 ++ ev2).
Proof.
  intros [[l1 ->] H1] [[l2 ->] H2]. split; [by exists l2|]. rewrite escalations_app. lia.
Qed.

Lemma notifyUser_quiet now user level s :
  let '(s', evs) := notifyUser now user level s in
  quiet s s' evs ∧ EvNotify (IncidentID s) user level ∈ evs.
Proof.
  unfold notifyUser. destruct (foldl _ _ _) as [status channel]. split; [|set_solver].
  split; [by eexists|]. rewrite escalations_app.
  assert (H : ∀ l, escalations ((λ name, EvSend name user (send name user)) <$> l) = 0%nat);
    [|by rewrite H].
  induction l as [|c l IH]; [done|]. exact IH.
Qed.

(** The user a target stands for. *)
Definition paged_user (target : Target) : option User :=
  if String.eqb (t_Type target) "user" then Some (mkUser (t_ID target) (t_ID target) "" "")
  else if String.eqb (t_Type target) "schedule" then
    match GetCurrentOnCall (t_ID target) with Ok u => u | _ => None end
  else None.

Lemma notifyTarget_quiet now target level s :
  let '(s', evs) := notifyTarget now target level s in
  quiet s s' evs ∧ ∀ u, paged_user target = Some u → EvNotify (IncidentID s) u level ∈ evs.
Proof.
  unfold notifyTarget, paged_user. destruct (String.eqb (t_Type target) "user").
  - pose proof (notifyUser_quiet now (mkUser (t_ID target) (t_ID target) "" "") level s) as H.
    destruct (notifyUser _ _ _ _) as [s' evs]. split; [apply H|]. intros u [= <-]. apply H.
  - destruct (String.eqb (t_Type target) "schedule"); [|split; [apply quiet_nil|done]].
    destruct (GetCurrentOnCall (t_ID target)) as [[user|]|m|m]; try (split; [apply quiet_nil|done]).
    pose proof (notifyUser_quiet now user level s) as H.
    destruct (notifyUser _ _ _ _) as [s' evs]. split; [apply H|]. intros u [= <-]. apply H.
Qed.

Lemma notify_targets_quiet now targets level s :
  let '(s', evs) := notify_targets now targets level s in
  quiet s s' evs ∧
  ∀ t u, t ∈ targets → paged_user t = Some u → EvNotify (IncidentID s) u level ∈ evs.
Proof.
  revert s. induction targets as [|t rest IH]; intros s; cbn [notify_targets].
  - split; [apply quiet_nil|]. by intros t u ?%not_elem_of_nil.
  - pose proof (notifyTarget_quiet now t level s) as H1.
    destruct (notifyTarget now t level s) as [s1 ev1]. destruct H1 as [Hq1 Hp1].
    specialize (IH s1). destruct (notify_targets now rest level s1) as [s2 ev2].
    destruct IH as [Hq2 Hp2]. split; [by eapply quiet_app|].
    destruct Hq1 as [[l ->] _]. cbn in Hp2.
    intros t' u [->|Ht]%elem_of_cons Hu; apply elem_of_app; [left; by apply Hp1|right; by eapply Hp2].
Qed.

Lemma escalateTo_spec now rule s :
  let '(s', evs) := escalateTo now rule s in
  (∃ l, s' = with_notifications l (set_level (r_Level rule) now s)) ∧
  escalations evs = 1%nat ∧ EvEscalate (IncidentID s) (CurrentLevel s) (r_Level rule) ∈ evs ∧
  ∀ t u, t ∈ r_Targets rule → paged_user t = Some u → EvNotify (IncidentID s) u (r_Level rule) ∈ evs.
Proof.
  unfold escalateTo.
  pose proof (notify_targets_quiet now (r_Targets rule) (r_Level rule) (set_level (r_Level rule) now s)) as H.
  destruct (notify_targets _ _ _ _) as [s' evs]. destruct H as [[[l ->] Hn] Hp].
  split_and!; [by exists l| |set_solver|].
  - rewrite escalations_app, Hn. done.
  - intros t u Ht Hu. apply elem_of_app. left. by apply (Hp t).
Qed.

(** ** Policies with levels 1 to n *)

Definition numbered (policy : EscalationPolicy) (n : Z) : Prop :=
  r_Level <$> p_Rules policy = seqZ 1 n ∧ 1 ≤ n ∧ n < int64_max.

Lemma find_level_numbered rules m n lv :
  r_Level <$> rules = seqZ m n → 0 ≤ n →
  match find_level lv rules with
  | Some r => r ∈ rules ∧ r_Level r = lv ∧ m ≤ lv < m + n
  | None => ¬ (m ≤ lv < m + n)
  end.
Proof.
  intros E Hn. unfold find_level. destruct (find _ rules) as [r|] eqn:Ef.
  - apply find_some in Ef as [Hin%list_elem_of_In Hlv]. apply Z.eqb_eq in Hlv. split; [done|]. split; [done|].
    assert (Hin' : r_Level r ∈ r_Level <$> rules) by (apply list_elem_of_fmap; by exists r).
    rewrite E, elem_of_seqZ in Hin'. lia.
  - intros Hlv. assert (Hin : lv ∈ r_Level <$> rules) by (rewrite E, elem_of_seqZ; lia).
    apply list_elem_of_fmap in Hin as (r & -> & Hr%list_elem_of_In).
    pose proof (find_none _ _ Ef _ Hr) as H. cbn in H. lia.
Qed.

(** The repeats the policy allows. *)
Definition repeats (policy : EscalationPolicy) : Z :=
  if p_RepeatEnabled policy then p_RepeatLimit policy else 0.

Definition bounded_repeats (policy : EscalationPolicy) : Prop :=
  if p_RepeatEnabled policy then 0 < p_RepeatLimit policy ≤ int64_max else True.

(** The escalations left for a state. *)
Definition left_over (policy : EscalationPolicy) (n : Z) (s : EscalationState) : Z :=
  (repeats policy - RepeatCount s) * n + (n - CurrentLevel s).

Definition in_policy (policy : EscalationPolicy) (n : Z) (s : EscalationState) : Prop :=
  1 ≤ CurrentLevel s ≤ n ∧ 0 ≤ RepeatCount s ≤ repeats policy.

Lemma next_escalation_spec now s policy n :
  GetPolicy (PolicyID s) = Some policy → numbered policy n → bounded_repeats policy →
  in_policy policy n s →
  match next_escalation now s with
  | None =>
      (∃ r, find_level (CurrentLevel s) (p_Rules policy) = Some r ∧
         Since now (LastEscalation s) < escalate_after r) ∨ left_over policy n s = 0
  | Some (s1, rule) =>
      (∃ r, find_level (CurrentLevel s) (p_Rules policy) = Some r ∧
         escalate_after r ≤ Since now (LastEscalation s)) ∧
      rule ∈ p_Rules policy ∧
      ((s1 = s ∧ CurrentLevel s < n ∧ r_Level rule = CurrentLevel s + 1) ∨
       (s1 = restart_levels s ∧ CurrentLevel s = n ∧ RepeatCount s < repeats policy ∧
        wrap64 (RepeatCount s + 1) = RepeatCount s + 1 ∧ r_Level rule = 1))
  end.
Proof.
  intros Hp (Hn & Hn1 & Hn2) Hr [Hlv Hrc]. unfold next_escalation. rewrite Hp.
  pose proof (find_level_numbered (p_Rules policy) 1 n (CurrentLevel s) Hn ltac:(lia)) as Hcur.
  destruct (find_level (CurrentLevel s) (p_Rules policy)) as [r|] eqn:Er; [|lia].
  destruct (Since now (LastEscalation s) <? escalate_after r) eqn:Edue.
  { left. exists r. split; [done|lia]. }
  assert (Hdue : ∃ r0, Some r = Some r0 ∧ escalate_after r0 ≤ Since now (LastEscalation s))
    by (exists r; split; [done|lia]).
  assert (Hw : wrap64 (CurrentLevel s + 1) = CurrentLevel s + 1)
    by (apply wrap64_id; unfold in_int64, int64_min, int64_max in *; lia).
  rewrite Hw. pose proof (find_level_numbered (p_Rules policy) 1 n (CurrentLevel s + 1) Hn ltac:(lia)) as Hnext.
  destruct (find_level (CurrentLevel s + 1) (p_Rules policy)) as [r'|].
  { destruct Hnext as (Hin & Hl & Hle). split_and!; [done..|]. left. split_and!; [done|lia|done]. }
  assert (Hmax : CurrentLevel s = n) by lia.
  unfold left_over, repeats, bounded_repeats in *. destruct (p_RepeatEnabled policy) eqn:Een.
  2: { right. replace (RepeatCount s) with 0 by lia. lia. }
  replace (p_RepeatLimit policy =? 0) with false by lia. cbn [orb].
  destruct (RepeatCount s <? p_RepeatLimit policy) eqn:Elim.
  2: { right. replace (RepeatCount s) with (p_RepeatLimit policy) by lia. lia. }
  destruct (p_Rules policy) as [|first rest] eqn:Erules.
  { rewrite seqZ_cons in Hn by lia. done. }
  split_and!; [done|set_solver|]. right. split_and!; [done|done|lia| |].
  - apply wrap64_id. unfold in_int64, int64_min, int64_max in *. lia.
  - rewrite seqZ_cons in Hn by lia. cbn in Hn. by injection Hn.
Qed.

(** What may happen to one incident. *)
Inductive op : Type :=
| OpCheck (now : Time)
| OpAcknowledge (now : Time) (user : string)
| OpResolve.

Definition apply_op (id : string) (o : op) (e : EscalationEngine) : EscalationEngine * list Event :=
  match o with
  | OpCheck now => checkEscalation now id e
  | OpAcknowledge now user => ((AcknowledgeIncident now id user e).1, [])
  | OpResolve => ((ResolveIncident id e).1, [])
  end.

Fixpoint apply_ops (id : string) (ops : list op) (e : EscalationEngine) : EscalationEngine * list Event :=
  match ops with
  | [] => (e, [])
  | o :: rest =>
      let '(e1, ev1) := apply_op id o e in
      let '(e2, ev2) := apply_ops id rest e1 in
      (e2, ev1 ++ ev2)
  end.

(** An incident under a policy, with some escalations left. *)
Definition tracked (policy : EscalationPolicy) (n : Z) (id : string) (left : Z)
    (e : EscalationEngine) : Prop :=
  ∃ s, states e !! id = Some s ∧ IncidentID s = id ∧ GetPolicy (PolicyID s) = Some policy ∧
    in_policy policy n s ∧ left_over policy n s = left.

Lemma tracked_put policy n id s e :
  IncidentID s = id → GetPolicy (PolicyID s) = Some policy → in_policy policy n s →
  tracked policy n id (left_over policy n s) (put_state s e).
Proof.
  intros Hid Hp Hin. exists s. split_and!; [|done..]. cbn. by rewrite Hid, lookup_insert_eq.
Qed.

Lemma check_tracked policy n id left now e :
  numbered policy n → bounded_repeats policy → tracked policy n id left e →
  let '(e', evs) := checkEscalation now id e in
  tracked policy n id (left - Z.of_nat (escalations evs)) e'.
Proof.
  intros Hn Hb (s & Hs & Hid & Hp & Hin & <-). unfold checkEscalation. rewrite Hs.
  pose proof (next_escalation_spec now s policy n Hp Hn Hb Hin) as Hnext.
  destruct (next_escalation now s) as [[s1 rule]|].
  2: { change (escalations []) with 0%nat. rewrite Z.sub_0_r. by exists s. }
  destruct Hnext as (_ & _ & Hcase).
  pose proof (escalateTo_spec now rule s1) as He.
  destruct (escalateTo now rule s1) as [s2 evs]. destruct He as ((l & ->) & -> & _ & _).
  set (s' := with_notifications l (set_level (r_Level rule) now s1)).
  assert (Hs' : IncidentID s' = id ∧ GetPolicy (PolicyID s') = Some policy ∧ in_policy policy n s' ∧
    left_over policy n s' = left_over policy n s - 1).
  { destruct Hin as [H1 H2]. destruct Hcase as [(-> & Hlt & Hlv)|(-> & Heq & Hlt & Hw & Hlv)];
      unfold in_policy, left_over; cbn; rewrite ?Hlv, ?Hw; split_and!; try done; lia. }
  destruct Hs' as (H1 & H2 & H3 & H4). change (Z.of_nat 1) with 1. rewrite <- H4.
  by apply tracked_put.
Qed.

Lemma apply_ops_tracked policy n id left ops e :
  numbered policy n → bounded_repeats policy → tracked policy n id left e →
  let '(e', evs) := apply_ops id ops e in
  tracked policy n id (left - Z.of_nat (escalations evs)) e'.
Proof.
  intros Hn Hb. revert left e. induction ops as [|o ops IH]; intros left e Ht; cbn [apply_ops].
  { change (escalations []) with 0%nat. by rewrite Z.sub_0_r. }
  assert (H1 : let '(e1, ev1) := apply_op id o e in
    tracked policy n id (left - Z.of_nat (escalations ev1)) e1).
  { destruct o as [now|now user|]; cbn [apply_op]; [by apply check_tracked|..];
      change (escalations []) with 0%nat; rewrite Z.sub_0_r;
      destruct Ht as (s & Hs & Hid & Hp & Hin & <-).
    - unfold AcknowledgeIncident. rewrite Hs. destruct (Acknowledged s); [by exists s|].
      exact (tracked_put policy n id (set_acknowledged user now s) e Hid Hp Hin).
    - unfold ResolveIncident. rewrite Hs. exact (tracked_put policy n id (set_resolved s) e Hid Hp Hin). }
  destruct (apply_op id o e) as [e1 ev1]. specialize (IH _ e1 H1).
  destruct (apply_ops id ops e1) as [e2 ev2]. rewrite escalations_app.
  by replace (left - Z.of_nat (escalations ev1 + escalations ev2))
    with (left - Z.of_nat (escalations ev1) - Z.of_nat (escalations ev2)) by lia.
Qed.

(** ** The invariant of persistence *)

(** The state a row written by [SaveEscalationState] restores. *)
Definition truncate (s : EscalationState) : EscalationState :=
  mkEscalationState (IncidentID s) (PolicyID s) (CurrentLevel s) (RepeatCount s)
    (from_Unix (time_Unix (StartedAt s))) (from_Unix (time_Unix (LastEscalation s)))
    (Acknowledged s) (AckedBy s) ((λ t, from_Unix (time_Unix t)) <$> AckedAt s) (Resolved s)
    (Notifications s).

(** Acknowledged at least a second after the epoch, if at all. *)
Definition after_epoch (s : EscalationState) : Prop := ∀ t, AckedAt s = Some t → Second ≤ t.

Lemma time_Unix_from_Unix z : time_Unix (from_Unix z) = z.
Proof. unfold time_Unix, from_Unix. by rewrite Z.div_mul. Qed.

Lemma row_truncate s : row_of (truncate s) = row_of s.
Proof.
  unfold row_of, truncate. cbn. rewrite !time_Unix_from_Unix.
  destruct (AckedAt s) as [t|]; cbn; by rewrite ?time_Unix_from_Unix.
Qed.

Lemma state_of_row s : after_epoch s → state_of (IncidentID s) (row_of s) = truncate s.
Proof.
  intros Hep. unfold state_of, row_of, truncate. cbn. f_equal.
  - by destruct (Acknowledged s).
  - destruct (AckedAt s) as [t|] eqn:E; [|done]. cbn. specialize (Hep t E).
    replace (0 <? time_Unix t) with true; [done|]. symmetry. apply Z.ltb_lt. unfold time_Unix.
    apply Z.div_str_pos. unfold Second, Millisecond, Microsecond, Nanosecond in *. lia.
  - by destruct (Resolved s).
Qed.

(** A trigger that succeeded. *)
Record trigger := mkTrigger { tr_incident : string; tr_policy : string; tr_time : Time }.
Definition triggers_of (id : string) (trs : list trigger) : list trigger := filter (λ tr, tr_incident tr = id) trs.

(** A state with the policy and the start of a trigger. *)
Definition begun (f : trigger) (s : EscalationState) : EscalationState :=
  mkEscalationState (IncidentID s) (tr_policy f) (CurrentLevel s) (RepeatCount s) (tr_time f)
    (LastEscalation s) (Acknowledged s) (AckedBy s) (AckedAt s) (Resolved s) (Notifications s).

(** Memory and database agree, after these triggers: rows keep the policy and the start of the first
    trigger of their incident; states have those of some trigger of it. *)
Definition persisted (trs : list trigger) (e : EscalationEngine) : Prop := ∀ id,
  match states e !! id with
  | Some s => IncidentID s = id ∧ after_epoch s ∧
      (∃ tr, tr ∈ triggers_of id trs ∧ PolicyID s = tr_policy tr ∧ time_Unix (StartedAt s) = time_Unix (tr_time tr)) ∧
      ∃ f, head (triggers_of id trs) = Some f ∧ db e !! id = Some (row_of (begun f s))
  | None =>
      match db e !! id with
      | None => triggers_of id trs = []
      | Some r => row_resolved r = 1 ∧
          ∃ f, head (triggers_of id trs) = Some f ∧ row_policy_id r = tr_policy f ∧ row_started_at r = time_Unix (tr_time f)
      end
  end.

Lemma triggers_snoc id trs tr :
  triggers_of id (trs ++ [tr]) = triggers_of id trs ++ (if decide (tr_incident tr = id) then [tr] else []).
Proof. unfold triggers_of. rewrite filter_app, filter_cons. by case_decide. Qed.

(** What the upsert leaves of a row. *)
Lemma row_of_saved f s r :
  row_policy_id r = tr_policy f → row_started_at r = time_Unix (tr_time f) →
  mkRow (row_policy_id r) (row_current_level (row_of s)) (row_repeat_count (row_of s)) (row_started_at r)
    (row_last_escalation (row_of s)) (row_acknowledged (row_of s)) (row_acked_by (row_of s)) (row_acked_at (row_of s))
    (row_resolved (row_of s)) (row_notifications (row_of s)) = row_of (begun f s).
Proof. by intros -> ->. Qed.

Lemma persisted_put trs s s0 e :
  persisted trs e → states e !! IncidentID s = Some s0 → PolicyID s = PolicyID s0 →
  time_Unix (StartedAt s) = time_Unix (StartedAt s0) → after_epoch s → persisted trs (put_state s e).
Proof.
  intros Hp Hs0 Hpol Hst Hep id. cbn. unfold SaveEscalationState.
  destruct (decide (IncidentID s = id)) as [<-|Hne].
  - rewrite !lookup_insert_eq. specialize (Hp (IncidentID s)). rewrite Hs0 in Hp.
    destruct Hp as (_ & _ & Htr & f & Hf & ->). split_and!; [done|done|by rewrite Hpol, Hst|].
    exists f. split; [done|]. by apply f_equal, row_of_saved.
  - rewrite !lookup_insert_ne by done. apply Hp.
Qed.

Lemma persisted_put_new trs s e tr :
  persisted trs e → tr = mkTrigger (IncidentID s) (PolicyID s) (StartedAt s) → after_epoch s →
  persisted (trs ++ [tr]) (put_state s e).
Proof.
  intros Hp -> Hep id. cbn. unfold SaveEscalationState. rewrite triggers_snoc. cbn [tr_incident].
  destruct (decide (IncidentID s = id)) as [<-|Hne].
  - rewrite !lookup_insert_eq. split_and!; [done|done| |].
    { eexists. split; [apply elem_of_app; right; by apply list_elem_of_singleton|done]. }
    specialize (Hp (IncidentID s)). destruct (states e !! IncidentID s) as [s0|].
    + destruct Hp as (_ & _ & _ & f & Hf & ->). exists f. split; [by destruct (triggers_of _ _)|].
      by apply f_equal, row_of_saved.
    + destruct (db e !! IncidentID s) as [r|]; [|rewrite Hp; eexists; by split].
      destruct Hp as (_ & f & Hf & H1 & H2). exists f. split; [by destruct (triggers_of _ _)|].
      by apply f_equal, row_of_saved.
  - rewrite !lookup_insert_ne, app_nil_r by done. apply Hp.
Qed.

Lemma check_persisted trs now id e : persisted trs e → persisted trs (checkEscalation now id e).1.
Proof.
  intros Hp. unfold checkEscalation. destruct (states e !! id) as [s|] eqn:Es; [|done].
  pose proof (Hp id) as Hid. rewrite Es in Hid. destruct Hid as (Hid & Hep & _).
  destruct (next_escalation now s) as [[s1 rule]|] eqn:En; [|done].
  assert (Hs1 : s1 = s ∨ s1 = restart_levels s).
  { unfold next_escalation in En. repeat case_match; simplify_eq; auto. }
  pose proof (escalateTo_spec now rule s1) as He.
  destruct (escalateTo now rule s1) as [s2 evs]. destruct He as ((l & ->) & _). cbn.
  apply (persisted_put _ _ s); [done|..]; destruct Hs1 as [-> | ->]; cbn; by rewrite ?Hid.
Qed.

Lemma check_all_persisted trs now ids e : persisted trs e → persisted trs (check_all now ids e).1.
Proof.
  revert e. induction ids as [|id ids IH]; intros e Hp; [done|]. cbn [check_all].
  pose proof (check_persisted trs now id e Hp) as H1. destruct (checkEscalation now id e) as [e1 ev1].
  specialize (IH e1 H1). by destruct (check_all now ids e1) as [e2 ev2].
Qed.

Definition restart (e : EscalationEngine) : EscalationEngine := Start (NewEscalationEngine (db e)).

(** The state with the policy and the start of the first trigger of its incident. *)
Definition first_begun (trs : list trigger) (s : EscalationState) : EscalationState :=
  match head (triggers_of (IncidentID s) trs) with Some f => begun f s | None => s end.

Lemma restart_lookup trs e id :
  persisted trs e →
  states (restart e) !! id =
  match states e !! id with
  | Some s => if Resolved s then None else Some (truncate (first_begun trs s))
  | None => None
  end.
Proof.
  intros Hp. cbn. rewrite map_union_empty. unfold LoadActiveEscalationStates.
  rewrite map_lookup_imap, map_lookup_filter. specialize (Hp id).
  destruct (states e !! id) as [s|].
  - destruct Hp as (<- & Hep & _ & f & Hf & ->). cbn. unfold first_begun. rewrite Hf. destruct (Resolved s) eqn:Er.
    + by rewrite option_guard_False.
    + rewrite option_guard_True by done. cbn. f_equal. by apply (state_of_row (begun f s)).
  - destruct (db e !! id) as [r|]; [|done]. destruct Hp as [Hr _]. cbn. rewrite option_guard_False; [done|].
    by rewrite Hr.
Qed.

Lemma restart_persisted trs e : persisted trs e → persisted trs (restart e).
Proof.
  intros Hp id. rewrite (restart_lookup trs e id Hp). change (db (restart e)) with (db e).
  specialize (Hp id). destruct (states e !! id) as [s|]; [|done].
  destruct Hp as (<- & Hep & _ & f & Hf & Hrow). destruct (Resolved s) eqn:Er.
  - rewrite Hrow. split; [cbn; by rewrite Er|]. by exists f.
  - unfold first_begun. rewrite Hf. split_and!; [done| | |].
    + intros t. cbn. destruct (AckedAt s) as [u|] eqn:Eu; [|done]. cbn. intros [= <-]. specialize (Hep u Eu).
      assert (1 ≤ time_Unix u); [|unfold from_Unix, Second, Millisecond, Microsecond, Nanosecond in *; lia].
      apply Z.div_le_lower_bound; [done|lia].
    + exists f. split; [by apply head_Some_elem_of|]. cbn. by rewrite time_Unix_from_Unix.
    + exists f. split; [done|]. rewrite Hrow. f_equal. rewrite <- (row_truncate (begun f s)).
      unfold row_of. cbn. by rewrite time_Unix_from_Unix.
Qed.

(** Everything an engine on an initially empty database goes through, with the triggers that
    succeeded: an incident may be triggered any number of times. *)
Inductive engine_reachable : list trigger → EscalationEngine → Prop :=
| en_new : engine_reachable [] (NewEscalationEngine ∅)
| en_trigger now id policyID trs e :
    engine_reachable trs e →
    engine_reachable
      (if is_ok (TriggerIncident now id policyID e).2 then trs ++ [mkTrigger id policyID now] else trs)
      (TriggerIncident now id policyID e).1
| en_check now trs e : engine_reachable trs e → engine_reachable trs (checkEscalations now e).1
| en_acknowledge now id user trs e :
    engine_reachable trs e → Second ≤ now → engine_reachable trs (AcknowledgeIncident now id user e).1
| en_resolve id trs e : engine_reachable trs e → engine_reachable trs (ResolveIncident id e).1
| en_restart trs e : engine_reachable trs e → engine_reachable trs (restart e).

Lemma engine_persisted trs e : engine_reachable trs e → persisted trs e.
Proof.
  induction 1 as [|now id pid trs e _ IH|now trs e _ IH|now id user trs e _ IH Hnow|id trs e _ IH|trs e _ IH].
  - intros id. cbn. by rewrite !lookup_empty.
  - unfold TriggerIncident. destruct (GetPolicy pid) as [policy|]; [|done].
    destruct (p_Rules policy) as [|first rest]; [done|]. unfold notifyLevel.
    match goal with |- context [notify_targets ?n ?t ?l ?s] =>
      pose proof (notify_targets_quiet n t l s) as Hq; destruct (notify_targets n t l s) as [s1 evs] end.
    destruct Hq as [[[l ->] _] _]. cbn [fst snd is_ok]. by apply persisted_put_new.
  - by apply check_all_persisted.
  - unfold AcknowledgeIncident. pose proof (IH id) as Hid. destruct (states e !! id) as [s|] eqn:Es; [|done].
    destruct Hid as (<- & Hep & _). destruct (Acknowledged s); [done|]. cbn [fst].
    apply (persisted_put _ _ s); [done..|]. by intros t [= <-].
  - unfold ResolveIncident. pose proof (IH id) as Hid. destruct (states e !! id) as [s|] eqn:Es; [|done].
    destruct Hid as (<- & Hep & _). cbn [fst]. by apply (persisted_put _ _ s).
  - by apply restart_persisted.
Qed.

(** ** Checks of other incidents *)

Definition ev_incident (ev : Event) : option string :=
  match ev with
  | EvSend _ _ _ => None
  | EvNotify id _ _ => Some id
  | EvEscalate id _ _ => Some id
  end.

Definition only_about (id : string) (evs : list Event) : Prop :=
  Forall (λ ev, ev_incident ev = None ∨ ev_incident ev = Some id) evs.

Lemma notifyTarget_about now target level s :
  only_about (IncidentID s) (notifyTarget now target level s).2.
Proof.
  assert (Hu : ∀ user, only_about (IncidentID s) (notifyUser now user level s).2).
  { intros user. unfold notifyUser. destruct (foldl _ _ _) as [status channel]. cbn.
    apply Forall_app. split; [|constructor; [by right|constructor]].
    apply Forall_fmap, Forall_forall. intros name _. by left. }
  unfold notifyTarget. destruct (String.eqb _ _); [apply Hu|].
  destruct (String.eqb _ _); [|constructor].
  destruct (GetCurrentOnCall _) as [[user|]|m|m]; try constructor. apply Hu.
Qed.

Lemma notify_targets_about now targets level s :
  only_about (IncidentID s) (notify_targets now targets level s).2.
Proof.
  revert s. induction targets as [|t rest IH]; intros s; cbn [notify_targets]; [constructor|].
  pose proof (notifyTarget_about now t level s) as H1.
  pose proof (notifyTarget_quiet now t level s) as Hq.
  destruct (notifyTarget now t level s) as [s1 ev1]. destruct Hq as [[[l ->] _] _].
  specialize (IH (with_notifications l s)).
  destruct (notify_targets now rest level _) as [s2 ev2]. by apply Forall_app.
Qed.

Lemma check_other trs now id id' e :
  persisted trs e → id ≠ id' →
  let '(e', evs) := checkEscalation now id' e in
  states e' !! id = states e !! id ∧ ∀ ev, ev ∈ evs → ev_incident ev ≠ Some id.
Proof.
  intros Hp Hne. unfold checkEscalation.
  assert (Hnone : ∀ ev, ev ∈ ([] : list Event) → ev_incident ev ≠ Some id) by by intros ev ?%not_elem_of_nil.
  specialize (Hp id'). destruct (states e !! id') as [s|] eqn:Es; [|done].
  destruct Hp as (Hid & _ & _).
  destruct (next_escalation now s) as [[s1 rule]|] eqn:En; [|done].
  assert (Hs1 : IncidentID s1 = id').
  { unfold next_escalation in En. repeat case_match; simplify_eq; done. }
  pose proof (escalateTo_spec now rule s1) as He. unfold escalateTo in *.
  pose proof (notify_targets_about now (r_Targets rule) (r_Level rule) (set_level (r_Level rule) now s1)) as Ha.
  destruct (notify_targets _ _ _ _) as [s2 ev2]. destruct He as ((l & ->) & _). cbn in Ha |- *.
  rewrite Hs1 in Ha |- *. split; [by rewrite lookup_insert_ne|].
  intros ev [Hev| ->%list_elem_of_singleton]%elem_of_app; [|cbn; congruence].
  unfold only_about in Ha. rewrite Forall_forall in Ha. destruct (Ha ev Hev) as [E|E]; rewrite E; congruence.
Qed.

Lemma check_all_other trs now id ids e :
  persisted trs e → id ∉ ids →
  let '(e', evs) := check_all now ids e in
  states e' !! id = states e !! id ∧ ∀ ev, ev ∈ evs → ev_incident ev ≠ Some id.
Proof.
  revert e. induction ids as [|id' ids IH]; intros e Hp Hnin; cbn [check_all].
  - split; [done|]. by intros ev ?%not_elem_of_nil.
  - apply not_elem_of_cons in Hnin as [Hne Hnin].
    pose proof (check_other trs now id id' e Hp Hne) as H1.
    pose proof (check_persisted trs now id' e Hp) as Hp1.
    destruct (checkEscalation now id' e) as [e1 ev1]. destruct H1 as [H1 H2]. cbn in Hp1.
    specialize (IH e1 Hp1 Hnin). destruct (check_all now ids e1) as [e2 ev2]. destruct IH as [H3 H4].
    split; [congruence|]. intros ev [?|?]%elem_of_app; eauto.
Qed.

(** ** Properties *)

(** C11: paging is bounded.  After an incident is triggered under a policy with
    levels 1 to n and at most R repeats, no sequence of checks at any times,
    acknowledgements and resolutions escalates it more than n(R+1)-1 times;
    its level stays among the policy's, its repeat count within the limit, and
    the escalations left go down by exactly one with each. *)
Theorem escalations_bounded now id pid policy n ops e :
  GetPolicy pid = Some policy → numbered policy n → bounded_repeats policy →
  let e0 := (TriggerIncident now id pid e).1 in
  let '(e', evs) := apply_ops id ops e0 in
  Z.of_nat (escalations evs) ≤ n * (repeats policy + 1) - 1 ∧
  ∃ s, GetState id e' = Ok s ∧ 1 ≤ CurrentLevel s ≤ n ∧ 0 ≤ RepeatCount s ≤ repeats policy ∧
    left_over policy n s + Z.of_nat (escalations evs) = n * (repeats policy + 1) - 1.
Proof.
  intros Hp Hn Hb e0. pose proof Hn as (Hlv & Hn1 & Hn2).
  assert (Ht : tracked policy n id (n * (repeats policy + 1) - 1) e0).
  { subst e0. unfold TriggerIncident. rewrite Hp.
    destruct (p_Rules policy) as [|first rest] eqn:Er; [rewrite seqZ_cons in Hlv by lia; done|].
    assert (Hf : r_Level first = 1) by (rewrite seqZ_cons in Hlv by lia; cbn in Hlv; by injection Hlv).
    unfold notifyLevel.
    match goal with |- context [notify_targets ?n ?t ?l ?s] =>
      pose proof (notify_targets_quiet n t l s) as Hq; destruct (notify_targets n t l s) as [s1 evs] end.
    destruct Hq as [[[l ->] _] _]. cbn [fst].
    set (s0 := with_notifications _ _).
    assert (Hl0 : left_over policy n s0 = n * (repeats policy + 1) - 1) by (unfold left_over; cbn; lia).
    rewrite <- Hl0. apply tracked_put; [done|done|]. unfold in_policy. cbn. rewrite Hf.
    unfold repeats, bounded_repeats in *. destruct (p_RepeatEnabled policy); lia. }
  pose proof (apply_ops_tracked policy n id _ ops e0 Hn Hb Ht) as H.
  destruct (apply_ops id ops e0) as [e' evs]. destruct H as (s & Hs & _ & _ & [H1 H2] & H3).
  assert (0 ≤ left_over policy n s) by (unfold left_over; nia).
  split; [lia|]. exists s. unfold GetState. rewrite Hs. split_and!; [done|lia..].
Qed.

(** C14: an unacknowledged incident is escalated on time and in order.  This is for a policy whose
    levels are 1, 2, ..., n in this order (nothing in the code makes them so), whose repeats, when
    they are enabled, are a positive number (0, which means no limit, is left out), and for a state
    that is within the policy: its level among 1..n and its repeat count within the limit, as it is
    from the trigger on as long as the policy is not changed.  Then a check of an incident whose
    level's delay has run out moves it to the next level at that moment and reports a page for every
    user and every staffed schedule among that level's targets; at the last level it restarts at
    level 1 while repeats are left; before the delay, or when nothing is left, it changes nothing and
    pages nobody. *)
Theorem escalates_on_time_and_in_order now id policy n s e :
  states e !! id = Some s → IncidentID s = id → GetPolicy (PolicyID s) = Some policy →
  numbered policy n → bounded_repeats policy → in_policy policy n s →
  let '(e', evs) := checkEscalation now id e in
  let delay := match find_level (CurrentLevel s) (p_Rules policy) with
               | Some r => escalate_after r
               | None => 0
               end in
  if (delay <=? Since now (LastEscalation s)) && negb (left_over policy n s =? 0)
  then ∃ s' next, GetState id e' = Ok s' ∧ next ∈ p_Rules policy ∧
      CurrentLevel s' = (if CurrentLevel s =? n then 1 else CurrentLevel s + 1) ∧
      RepeatCount s' = (if CurrentLevel s =? n then RepeatCount s + 1 else RepeatCount s) ∧
      LastEscalation s' = now ∧ r_Level next = CurrentLevel s' ∧
      ∀ t u, t ∈ r_Targets next → paged_user t = Some u → EvNotify id u (CurrentLevel s') ∈ evs
  else e' = e ∧ evs = [].
Proof.
  intros Hs Hid Hp Hn Hb Hin. unfold checkEscalation. rewrite Hs.
  pose proof (next_escalation_spec now s policy n Hp Hn Hb Hin) as Hnext. destruct Hin as [Hl Hr].
  destruct (next_escalation now s) as [[s1 rule]|].
  - destruct Hnext as ((r & -> & Hdue) & Hrule & Hcase).
    pose proof (escalateTo_spec now rule s1) as He.
    destruct (escalateTo now rule s1) as [s2 evs]. destruct He as ((l & ->) & _ & _ & Hpage).
    replace (escalate_after r <=? Since now (LastEscalation s)) with true by lia.
    assert (Hleft : left_over policy n s ≠ 0).
    { unfold left_over. destruct Hcase as [(_ & Hlt & _)|(_ & Heq & Hlt & _)]; nia. }
    replace (left_over policy n s =? 0) with false by lia. cbn [andb negb].
    exists (with_notifications l (set_level (r_Level rule) now s1)), rule.
    assert (Hid1 : IncidentID s1 = id) by (destruct Hcase as [(-> & _)|(-> & _)]; done).
    split_and!; cbn.
    + unfold GetState. cbn. by rewrite Hid1, lookup_insert_eq.
    + done.
    + destruct Hcase as [(_ & Hlt & ->)|(_ & -> & _ & _ & ->)]; case_match; lia.
    + destruct Hcase as [(-> & Hlt & _)|(-> & -> & _ & Hw & _)]; cbn; rewrite ?Hw; case_match; lia.
    + done.
    + done.
    + rewrite <- Hid1. exact Hpage.
  - destruct (find_level (CurrentLevel s) (p_Rules policy)) as [r|] eqn:Er.
    + destruct Hnext as [(r' & [= <-] & Hd)|Hz].
      * by replace (escalate_after r <=? Since now (LastEscalation s)) with false by lia.
      * rewrite Hz. cbn [Z.eqb negb]. by rewrite andb_false_r.
    + destruct Hnext as [(r' & ? & _)|Hz]; [done|]. rewrite Hz. cbn [Z.eqb negb]. by rewrite andb_false_r.
Qed.

(** Acknowledging or resolving stops the paging.  A round of checks neither
    changes the state of an incident that is acknowledged or resolved when the
    round starts nor pages or escalates anything for it, and acknowledging twice
    is an error that changes nothing. *)
Theorem acknowledged_is_not_escalated trs now id s e :
  engine_reachable trs e → GetState id e = Ok s → Acknowledged s || Resolved s = true →
  let '(e', evs) := checkEscalations now e in
  GetState id e' = Ok s ∧ (∀ ev, ev ∈ evs → ev_incident ev ≠ Some id) ∧
  (Acknowledged s = true → ∀ t user,
     AcknowledgeIncident t id user e = (e, Err "incident already acknowledged")).
Proof.
  intros Hr%engine_persisted Hs Hstop. unfold GetState in Hs.
  destruct (states e !! id) as [s0|] eqn:Es; [|done]. injection Hs as ->.
  assert (Hnin : id ∉ due_incidents e).
  { unfold due_incidents. intros (kv & -> & Hin)%list_elem_of_fmap. destruct kv as [k v].
    apply elem_of_map_to_list, map_lookup_filter_Some in Hin as [Hk Hv]. cbn in *.
    rewrite Es in Hk. injection Hk as <-. by destruct (Acknowledged s), (Resolved s). }
  unfold checkEscalations. pose proof (check_all_other trs now id (due_incidents e) e Hr Hnin) as H.
  destruct (check_all now (due_incidents e) e) as [e' evs]. destruct H as [H1 H2].
  split_and!; [unfold GetState; by rewrite H1, Es|done|].
  intros Hack t user. unfold AcknowledgeIncident. by rewrite Es, Hack.
Qed.

(** C15: a restart forgets nothing that matters.  In every state reachable from an empty database
    through triggers, checks, acknowledgements (later than the first second of 1970), resolutions and
    restarts, a restarted engine holds exactly the unresolved incidents.  One that was triggered once
    is as it was, notifications included, with its times truncated to seconds.  One that was triggered
    again is as it was too, but for its policy and its start: these are those of its first trigger,
    which its row keeps (retriggered_policy_lost). *)
Theorem restart_restores_unresolved trs id e :
  engine_reachable trs e →
  GetState id (restart e) =
    match GetState id e with
    | Ok s => if Resolved s then Err "incident not found" else Ok (truncate (first_begun trs s))
    | r => r
    end ∧
  (length (triggers_of id trs) = 1%nat → ∀ s, GetState id e = Ok s → truncate (first_begun trs s) = truncate s) ∧
  (∀ s, GetState id e = Ok s → ∃ f, head (triggers_of id trs) = Some f ∧ first_begun trs s = begun f s).
Proof.
  intros Hp%engine_persisted. unfold GetState. rewrite (restart_lookup trs e id Hp). specialize (Hp id).
  destruct (states e !! id) as [s|]; [|done]. destruct Hp as (<- & _ & (tr & Htr & Hpol & Hst) & f & Hf & _).
  split; [by destruct (Resolved s)|]. split.
  - intros Hlen s' [= <-]. unfold first_begun. rewrite Hf.
    destruct (triggers_of (IncidentID s) trs) as [|f' [|? ?]]; [done| |done].
    apply list_elem_of_singleton in Htr as ->. injection Hf as ->.
    unfold truncate. cbn. by rewrite Hpol, Hst.
  - intros s' [= <-]. exists f. split; [done|]. unfold first_begun. by rewrite Hf.
Qed.

End engine.

(** ** Concrete inputs *)

Definition demo_policy : EscalationPolicy :=
  mkEscalationPolicy "p"
    [mkEscalationRule 1 5 [mkTarget "user" "ann"]; mkEscalationRule 2 10 [mkTarget "schedule" "ops"]]
    true 1.
Definition demo_policies (id : string) : option EscalationPolicy :=
  if String.eqb id "p" then Some demo_policy else None.
Definition bob : User := mkUser "bob" "Bob" "bob@example.org" "".
Definition demo_oncall (_ : string) : result (option User) := Ok (Some bob).
Definition demo_send (_ : string) (_ : User) : bool := true.
Definition demo_trigger : EscalationEngine :=
  (TriggerIncident ["log"] demo_send demo_oncall demo_policies Hour "inc" "p" (NewEscalationEngine ∅)).1.
Definition demo_check (t : Time) (e : EscalationEngine) : EscalationEngine * list Event :=
  checkEscalations ["log"] demo_send demo_oncall demo_policies t e.

Lemma demo_numbered : numbered demo_policy 2.
Proof. split; [reflexivity|]. vm_compute. split; congruence. Qed.

Definition demo_triggers : list trigger := [mkTrigger "inc" "p" Hour].
Lemma demo_trigger_reachable :
  engine_reachable ["log"] demo_send demo_oncall demo_policies demo_triggers demo_trigger.
Proof. exact (en_trigger ["log"] demo_send demo_oncall demo_policies Hour "inc" "p" [] _ (en_new _ _ _ _)). Qed.

Lemma demo_bounded : bounded_repeats demo_policy.
Proof. vm_compute. split; congruence. Qed.

Lemma escalations_bounded_witness :
  let out := apply_ops ["log"] demo_send demo_oncall demo_policies "inc"
    [OpCheck (2 * Hour); OpCheck (3 * Hour); OpCheck (4 * Hour); OpCheck (5 * Hour)] demo_trigger in
  escalations out.2 = 3%nat ∧ Z.of_nat (escalations out.2) ≤ 3.
Proof.
  intros out. split; [vm_compute; reflexivity|].
  pose proof (escalations_bounded ["log"] demo_send demo_oncall demo_policies Hour "inc" "p" demo_policy 2
    [OpCheck (2 * Hour); OpCheck (3 * Hour); OpCheck (4 * Hour); OpCheck (5 * Hour)] (NewEscalationEngine ∅)
    eq_refl demo_numbered demo_bounded) as P.
  subst out. unfold demo_trigger. cbv zeta in P.
  destruct (apply_ops _ _ _ _ _ _ _) as [e' evs]. exact (proj1 P).
Defined.

Definition demo_state : EscalationState :=
  mkEscalationState "inc" "p" 1 0 Hour Hour false "" None false [].
Definition demo_engine : EscalationEngine := put_state demo_state (NewEscalationEngine ∅).

Lemma escalates_on_time_and_in_order_witness :
  ∃ s', GetState "inc" (checkEscalation ["log"] demo_send demo_oncall demo_policies (2 * Hour) "inc" demo_engine).1 = Ok s' ∧
    CurrentLevel s' = 2.
Proof.
  assert (Hs : states demo_engine !! "inc" = Some demo_state) by reflexivity.
  assert (Hin : in_policy demo_policy 2 demo_state) by (vm_compute; repeat split; congruence).
  pose proof (escalates_on_time_and_in_order ["log"] demo_send demo_oncall demo_policies (2 * Hour) "inc"
    demo_policy 2 demo_state demo_engine Hs eq_refl eq_refl demo_numbered demo_bounded Hin) as P.
  destruct (checkEscalation _ _ _ _ _ _ _) as [e' evs].
  destruct P as (s' & next & H1 & _ & H2 & _). exists s'. split; [exact H1|exact H2].
Defined.

Definition demo_acked : EscalationEngine := (AcknowledgeIncident (2 * Hour) "inc" "ann" demo_trigger).1.

Lemma demo_acked_reachable :
  engine_reachable ["log"] demo_send demo_oncall demo_policies demo_triggers demo_acked.
Proof. apply en_acknowledge; [exact demo_trigger_reachable|vm_compute; congruence]. Qed.

Lemma acknowledged_is_not_escalated_witness :
  GetState "inc" (demo_check (9 * Hour) demo_acked).1 = GetState "inc" demo_acked ∧
  Forall (λ ev, ev_incident ev ≠ Some "inc") (demo_check (9 * Hour) demo_acked).2.
Proof.
  destruct (GetState "inc" demo_acked) as [s|m|m] eqn:E; [|vm_compute in E; discriminate E..].
  assert (Hs : Acknowledged s || Resolved s = true).
  { vm_compute in E. injection E as <-. reflexivity. }
  pose proof (acknowledged_is_not_escalated ["log"] demo_send demo_oncall demo_policies demo_triggers (9 * Hour) "inc" s
    demo_acked demo_acked_reachable E Hs) as P.
  unfold demo_check. destruct (checkEscalations _ _ _ _ _ _) as [e' evs].
  split; [exact (proj1 P)|]. apply Forall_forall. exact (proj1 (proj2 P)).
Defined.

Lemma restart_restores_unresolved_witness :
  length (triggers_of "inc" demo_triggers) = 1%nat ∧
  ∃ s, GetState "inc" (restart demo_acked) = Ok s ∧ AckedBy s = "ann".
Proof.
  split; [reflexivity|].
  rewrite (proj1 (restart_restores_unresolved ["log"] demo_send demo_oncall demo_policies demo_triggers "inc" demo_acked
    demo_acked_reachable)).
  vm_compute. eexists. split; reflexivity.
Defined.

(** ** What the model shows beyond the properties *)

(** The round works on the list it took at its start: an incident acknowledged
    in between is still escalated. *)
Lemma acknowledged_during_round_is_escalated :
  let ids := due_incidents demo_trigger in
  let out := check_all ["log"] demo_send demo_oncall demo_policies (9 * Hour) ids demo_acked in
  ids = ["inc"] ∧ EvEscalate "inc" 1 2 ∈ out.2.
Proof. vm_compute. split; [reflexivity|]. set_solver. Qed.

(** Triggering an incident again under another policy: a restart restores the
    first policy, which the upsert kept. *)
Lemma retriggered_policy_lost :
  let pol (_ : string) := Some demo_policy in
  let e1 := (TriggerIncident [] demo_send demo_oncall pol Hour "inc" "p" (NewEscalationEngine ∅)).1 in
  let e2 := (TriggerIncident [] demo_send demo_oncall pol (2 * Hour) "inc" "q" e1).1 in
  (λ s, PolicyID s) <$> states e2 !! "inc" = Some "q" ∧
  (λ s, PolicyID s) <$> states (restart e2) !! "inc" = Some "p".
Proof. vm_compute. split; reflexivity. Qed.

(** The status of a notification is that of the channel tried last, in the
    order of a map: with one channel failing it may be either. *)
Lemma notification_status_depends_on_order :
  let send (c : string) (_ : User) := String.eqb c "log" in
  let status chans := n_Status <$> Notifications (notifyUser chans send Hour bob 1 demo_state).1 in
  status ["log"; "email"] = ["failed"] ∧ status ["email"; "log"] = ["sent"].
Proof. vm_compute. split; reflexivity. Qed.
