(* ===== verification/Chars.v ===== *)
(** Characters of a Go string: a string is a sequence of bytes; [unicode] predicates
    on a byte converted to a rune (Latin-1), the size of the rune [unicode/utf8]
    decodes at a position, and [strings.ToLower] as far as the ASCII tables it is
    used with can tell. *)

From Stdlib Require Import String Ascii.
From stdpp Require Import base option list sets strings.
From S2P Require Import Prelude.

Abbreviation text := (list ascii) (only parsing).

(** The number of a byte, and a test for a range of bytes. *)
Definition byte_val (c : ascii) : nat := nat_of_ascii c.
Definition in_range (lo hi : nat) (c : ascii) : bool := (lo <=? byte_val c)%nat && (byte_val c <=? hi)%nat.

(** [unicode.IsDigit(rune(c))]: the decimal digits are the only ones of Latin-1. *)
Definition IsDigit (c : ascii) : bool := in_range 48 57 c.

(** [unicode.IsLetter(rune(c))] on Latin-1. *)
Definition IsLetter (c : ascii) : bool :=
  in_range 65 90 c || in_range 97 122 c || in_range 170 170 c || in_range 181 181 c
  || in_range 186 186 c || in_range 192 214 c || in_range 216 246 c || in_range 248 255 c.

Definition is_ascii (c : ascii) : bool := (byte_val c <? 128)%nat.

(** A continuation byte. *)
Definition is_cont (c : ascii) : bool := in_range 128 191 c.

(** The second byte a lead byte admits, and the size of the encoding. *)
Definition lead_info (c : ascii) : option (nat * (ascii → bool)) :=
  if in_range 194 223 c then Some (2%nat, is_cont)
  else if in_range 224 224 c then Some (3%nat, in_range 160 191)
  else if in_range 225 236 c || in_range 238 239 c then Some (3%nat, is_cont)
  else if in_range 237 237 c then Some (3%nat, in_range 128 159)
  else if in_range 240 240 c then Some (4%nat, in_range 144 191)
  else if in_range 241 243 c then Some (4%nat, is_cont)
  else if in_range 244 244 c then Some (4%nat, in_range 128 143)
  else None.

(** The size [utf8.DecodeRuneInString] returns: 1 for ASCII and for anything that is
    not the encoding of a rune, 0 on the empty string. *)
Definition rune_size (s : text) : nat :=
  match s with
  | [] => 0
  | c :: rest =>
      match lead_info c, rest with
      | Some (2%nat, ok), c1 :: _ => if ok c1 then 2 else 1
      | Some (3%nat, ok), c1 :: c2 :: _ => if ok c1 && is_cont c2 then 3 else 1
      | Some (4%nat, ok), c1 :: c2 :: c3 :: _ =>
          if ok c1 && is_cont c2 && is_cont c3 then 4 else 1
      | _, _ => 1
      end
  end%nat.

(** [fmt.Sprintf("%c", c)] of a byte: the encoding of the rune with its number. *)
Definition print_rune (c : ascii) : string :=
  if is_ascii c then String c ""
  else if (byte_val c <? 192)%nat then String (ascii_of_nat 194) (String c "")
  else String (ascii_of_nat 195) (String (ascii_of_nat (byte_val c - 64)) "").

(** [strings.ToLower] compared with tables of ASCII words and "µs": the ASCII capitals,
    and the two other runes whose lower case is ASCII (U+0130 and U+212A). *)
Definition lower (c : ascii) : ascii :=
  if in_range 65 90 c then ascii_of_nat (byte_val c + 32) else c.
Fixpoint ToLower_words (s : text) : text :=
  match s with
  | [] => []
  | c :: rest =>
      match rest with
      | c1 :: rest1 =>
          if (byte_val c =? 196)%nat && (byte_val c1 =? 176)%nat then "i"%char :: ToLower_words rest1
          else match rest1 with
          | c2 :: rest2 =>
              if (byte_val c =? 226)%nat && (byte_val c1 =? 132)%nat && (byte_val c2 =? 170)%nat
              then "k"%char :: ToLower_words rest2
              else lower c :: ToLower_words rest
          | [] => lower c :: ToLower_words rest
          end
      | [] => [lower c]
      end
  end.

#[global] Arguments is_ascii : simpl never.
#[global] Arguments in_range : simpl never.
#[global] Arguments lead_info : simpl never.
#[global] Arguments is_cont : simpl never.
#[global] Arguments IsLetter : simpl never.
#[global] Arguments IsDigit : simpl never.

(** ** Facts *)

Lemma in_range_spec lo hi c : in_range lo hi c = true ↔ (lo ≤ byte_val c ≤ hi)%nat.
Proof. unfold in_range. rewrite andb_true_iff, !Nat.leb_le. done. Qed.

Lemma rune_size_pos c s : (1 ≤ rune_size (c :: s))%nat.
Proof.
  cbn. destruct (lead_info c) as [[n ok]|]; [|lia].
  destruct n as [|[|[|[|[|n]]]]]; destruct s as [|c1 [|c2 [|c3 s]]]; try lia;
    repeat case_match; lia.
Qed.

Lemma rune_size_le s : (rune_size s ≤ length s)%nat.
Proof.
  destruct s as [|c s]; [done|]. cbn. destruct (lead_info c) as [[n ok]|]; [|lia].
  destruct n as [|[|[|[|[|n]]]]]; destruct s as [|c1 [|c2 [|c3 s]]]; cbn; try lia;
    repeat case_match; lia.
Qed.

Lemma lead_info_ascii c : is_ascii c = true → lead_info c = None.
Proof.
  unfold is_ascii. rewrite Nat.ltb_lt. intros H. unfold lead_info, in_range.
  repeat match goal with |- context [(?n <=? byte_val c)%nat] =>
    rewrite (proj2 (Nat.leb_gt n (byte_val c))) by lia end.
  reflexivity.
Qed.

Lemma rune_size_ascii c s : is_ascii c = true → rune_size (c :: s) = 1%nat.
Proof. intros H. cbn. by rewrite (lead_info_ascii c H). Qed.

(** What is inside a rune, after its first byte, is not ASCII. *)
Lemma rune_tail c s : Forall (λ b, is_ascii b = false) (take (rune_size (c :: s) - 1) s).
Proof.
  assert (Hr : ∀ lo hi b, (128 ≤ lo)%nat → in_range lo hi b = true → is_ascii b = false).
  { intros lo hi b Hlo Hb%in_range_spec. unfold is_ascii. apply Nat.ltb_ge. lia. }
  assert (Hc : ∀ b, is_cont b = true → is_ascii b = false) by (intros b; apply Hr; lia).
  assert (Hl : ∀ n ok b, lead_info c = Some (n, ok) → ok b = true → is_ascii b = false).
  { intros n ok b. unfold lead_info.
    repeat match goal with |- context [if ?x then _ else _] => destruct x end;
      intros [= <- <-]; try apply Hc; apply Hr; lia. }
  cbn. destruct (lead_info c) as [[n ok]|] eqn:E; [|by constructor].
  specialize (Hl n ok). rename Hl into H0. assert (Hl := λ b, H0 b eq_refl). clear H0.
  destruct n as [|[|[|[|[|n]]]]]; destruct s as [|c1 [|c2 [|c3 s]]]; cbn; try by constructor.
  all: repeat match goal with |- context [if ?x then _ else _] => destruct x eqn:? end; cbn;
    rewrite ?andb_true_iff in *; destruct_and?; repeat constructor; auto.
Qed.

(** ** Facts by enumeration of the 256 bytes *)

Definition all_bytes : list ascii := ascii_of_nat <$> seq 0 256.

Lemma byte_cases (P : ascii → bool) : forallb P all_bytes = true → ∀ c, P c = true.
Proof.
  intros H c. apply (proj1 (forallb_forall P all_bytes) H).
  apply list_elem_of_In, list_elem_of_fmap. exists (nat_of_ascii c).
  split; [by rewrite ascii_nat_embedding|]. apply elem_of_seq.
  pose proof (nat_ascii_bounded c). lia.
Qed.

(** ** Texts read rune by rune *)

(** [t] begins with a byte that satisfies [P]. *)
Definition starts (P : ascii → bool) (t : text) : bool :=
  match t with c :: _ => P c | [] => false end.

(** [s] is read, before [t], as runes whose first bytes satisfy [P]. *)
Inductive runes (P : ascii → bool) : text → text → Prop :=
| runes_nil t : runes P [] t
| runes_cons c r s t :
    P c = true → rune_size (c :: r ++ s ++ t) = S (length r) → runes P s t →
    runes P (c :: r ++ s) t.

Lemma runes_unique P s t s' t' :
  runes P s t → runes P s' t' → starts P t = false → starts P t' = false →
  s ++ t = s' ++ t' → s = s'.
Proof.
  intros H. revert s'. induction H as [t|c r s t Hc Hr H IH]; intros s' H' Ht Ht' E.
  - destruct H' as [|c' r' s' t' Hc' _ _]; [done|]. cbn in E. subst t. cbn in Ht. congruence.
  - destruct H' as [t'|c' r' s' t' Hc' Hr' H'].
    { cbn in E. subst t'. cbn in Ht'. congruence. }
    cbn in E. injection E as <- E. rewrite <- !app_assoc in E.
    rewrite <- E, Hr in Hr'. injection Hr' as Hl.
    apply app_inj_1 in E as [<- E]; [|done]. f_equal. f_equal. by apply IH.
Qed.

Lemma runes_ascii P s t :
  Forall (λ c, P c = true ∧ is_ascii c = true) s → runes P s t.
Proof.
  induction 1 as [|c s [Hc Ha] H IH]; [constructor|].
  apply (runes_cons P c [] s t Hc); [|done]. by apply rune_size_ascii.
Qed.

(** An ASCII byte that no rune begins with is nowhere in the text. *)
Lemma runes_avoid P s t b : runes P s t → is_ascii b = true → P b = false → b ∉ s.
Proof.
  intros H Hb HP. induction H as [t|c r s t Hc Hr H IH]; [set_solver|].
  pose proof (rune_tail c (r ++ s ++ t)) as Hf. rewrite Hr in Hf. cbn in Hf.
  rewrite Nat.sub_0_r, take_app_length in Hf. rewrite Forall_forall in Hf.
  intros [->|[Hin|Hin]%elem_of_app]%elem_of_cons; [congruence| |done].
  apply Hf in Hin. congruence.
Qed.

Lemma span_unique (P : ascii → bool) s t s' t' :
  Forall (λ c, P c = true) s → Forall (λ c, P c = true) s' →
  starts P t = false → starts P t' = false → s ++ t = s' ++ t' → s = s'.
Proof.
  intros H. revert s'. induction H as [|c s Hc H IH]; intros s' H' Ht Ht' E;
    destruct H' as [|c' s' Hc' H'].
  - done.
  - cbn in E. subst t. cbn in Ht. congruence.
  - cbn in E. subst t'. cbn in Ht'. congruence.
  - injection E as <- E. f_equal. by apply IH.
Qed.
