(* ===== verification/Strconv.v ===== *)
(** Numbers and durations in text, as Go's [strconv.Atoi], [strconv.ParseInt] and
    [time.ParseDuration] read them: values on errors and overflow included. *)

From Stdlib Require Import String Ascii SpecFloat.
From stdpp Require Import base option list strings pretty.
From S2P Require Import Prelude Float64 Bytes Chars.

(** ** Integers *)

Inductive NumErr : Type := ErrSyntax | ErrRange.

#[global] Instance NumErr_eq_dec : EqDecision NumErr.
Proof. solve_decision. Defined.

Definition maxUint64 : Z := 2 ^ 64 - 1.

(** The loop of [ParseUint]: it stops at the first digit that overflows, or at the
    first character that is not a digit. *)
Fixpoint uint_scan (acc : Z) (s : string) : Z + NumErr :=
  match s with
  | EmptyString => inl acc
  | String c s =>
      match digit_value c with
      | None => inr ErrSyntax
      | Some d =>
          if maxUint64 / 10 + 1 <=? acc then inr ErrRange
          else if maxUint64 <? 10 * acc + d then inr ErrRange
          else uint_scan (10 * acc + d) s
      end
  end.

Definition ParseUint (s : string) : Z + NumErr :=
  match s with EmptyString => inr ErrSyntax | _ => uint_scan 0 s end.

(** [ParseInt(s, 10, 64)] and [Atoi(s)]: the value comes with an error too, 0 on a
    syntax error, the nearest integer on a range error. *)
Definition Atoi (s : string) : Z * option NumErr :=
  let '(neg, digits) :=
    match s with
    | String c s' => if Ascii.eqb c "+" then (false, s') else if Ascii.eqb c "-" then (true, s') else (false, s)
    | EmptyString => (false, s)
    end in
  match ParseUint digits with
  | inr ErrSyntax => (0, Some ErrSyntax)
  | inr ErrRange => (if (neg : bool) then int64_min else int64_max, Some ErrRange)
  | inl un =>
      if negb neg && (2 ^ 63 <=? un) then (int64_max, Some ErrRange)
      else if neg && (2 ^ 63 <? un) then (int64_min, Some ErrRange)
      else (if neg then - un else un, None)
  end.

Definition dquote : string := String "034" "".

Definition Atoi_error (s : string) (e : NumErr) : string :=
  "strconv.Atoi: parsing " +:+ dquote +:+ s +:+ dquote +:+ ": " +:+
  match e with ErrSyntax => "invalid syntax" | ErrRange => "value out of range" end.

(** ** Durations *)

Definition hex_digit (n : nat) : ascii :=
  default "0"%char (nth_error (list_ascii_of_string "0123456789abcdef") n).

Fixpoint quote_bytes (s : string) : string :=
  match s with
  | EmptyString => ""
  | String c s =>
      (if (byte_val c <? 32)%nat || (127 <? byte_val c)%nat
       then "\x" +:+ String (hex_digit (byte_val c / 16)) (String (hex_digit (byte_val c mod 16)) "")
       else if Ascii.eqb c "034" || Ascii.eqb c "\" then String "\" (String c "")
       else String c "") +:+ quote_bytes s
  end.
Definition quote (s : string) : string := dquote +:+ quote_bytes s +:+ dquote.

(** [leadingInt]; [None] on overflow. *)
Fixpoint leadingInt (x : Z) (s : string) : option (Z * string) :=
  match s with
  | String c s' =>
      match digit_value c with
      | Some d =>
          if 2 ^ 63 / 10 <? x then None
          else if 2 ^ 63 <? x * 10 + d then None
          else leadingInt (x * 10 + d) s'
      | None => Some (x, s)
      end
  | EmptyString => Some (x, s)
  end.

(** [leadingFraction]: digits that would overflow are dropped. *)
Fixpoint leadingFraction (x : Z) (scale : float64) (overflow : bool) (s : string)
    : Z * float64 * string :=
  match s with
  | String c s' =>
      match digit_value c with
      | Some d =>
          if overflow then leadingFraction x scale true s'
          else if int64_max / 10 <? x then leadingFraction x scale true s'
          else if 2 ^ 63 <? x * 10 + d then leadingFraction x scale true s'
          else leadingFraction (x * 10 + d) (f64_mul scale (f64_of_Z 10)) false s'
      | None => (x, scale, s)
      end
  | EmptyString => (x, scale, s)
  end.

Definition numeric_char (c : ascii) : bool :=
  Ascii.eqb c "." || match digit_value c with Some _ => true | None => false end.

Fixpoint take_unit (s : string) : string * string :=
  match s with
  | EmptyString => ("", "")
  | String c s' =>
      if numeric_char c then ("", s)
      else let '(u, r) := take_unit s' in (String c u, r)
  end.

Definition unitMap (u : string) : option Z :=
  let micro := String (ascii_of_nat 194) (String (ascii_of_nat 181) "s") in
  let mu := String (ascii_of_nat 206) (String (ascii_of_nat 188) "s") in
  if String.eqb u "ns" then Some Nanosecond
  else if String.eqb u "us" || String.eqb u micro || String.eqb u mu then Some Microsecond
  else if String.eqb u "ms" then Some Millisecond
  else if String.eqb u "s" then Some Second
  else if String.eqb u "m" then Some Minute
  else if String.eqb u "h" then Some Hour
  else None.

(** [uint64(x)] of a float in range: truncation. *)
Definition f64_trunc (x : float64) : Z :=
  match x with
  | S754_finite s m e =>
      let v := if 0 <=? e then Z.pos m * 2 ^ e else Z.pos m / 2 ^ (- e) in if s then - v else v
  | _ => 0
  end.

(** One number with its unit: the nanoseconds and the rest. *)
Definition duration_term (orig s : string) : result (Z * string) :=
  let invalid := Err ("time: invalid duration " +:+ quote orig) in
  match s with
  | EmptyString => invalid
  | String c _ =>
      if negb (numeric_char c) then invalid
      else match leadingInt 0 s with
      | None => invalid
      | Some (v, s1) =>
          let pre := negb (String.length s =? String.length s1)%nat in
          let '(f, scale, s2, post) :=
            match s1 with
            | String c1 s1' =>
                if Ascii.eqb c1 "." then
                  let '(f, scale, s2) := leadingFraction 0 (f64_of_Z 1) false s1' in
                  (f, scale, s2, negb (String.length s1' =? String.length s2)%nat)
                else (0, f64_of_Z 1, s1, false)
            | EmptyString => (0, f64_of_Z 1, s1, false)
            end in
          if negb pre && negb post then invalid
          else
            let '(u, s3) := take_unit s2 in
            if String.eqb u "" then Err ("time: missing unit in duration " +:+ quote orig)
            else match unitMap u with
            | None => Err ("time: unknown unit " +:+ quote u +:+ " in duration " +:+ quote orig)
            | Some unit =>
                if 2 ^ 63 / unit <? v then invalid
                else
                  let v1 := v * unit in
                  let v2 := if 0 <? f then uwrap64 (v1 + f64_trunc (f64_mul (f64_of_Z f) (f64_div (f64_of_Z unit) scale)))
                            else v1 in
                  if (0 <? f) && (2 ^ 63 <? v2) then invalid else Ok (v2, s3)
            end
      end
  end.

(** Each term consumes a byte: the length of the text is enough fuel. *)
Fixpoint duration_terms (fuel : nat) (orig : string) (d : Z) (s : string) : result Z :=
  match s, fuel with
  | EmptyString, _ => Ok d
  | _, O => Err ("time: invalid duration " +:+ quote orig)
  | _, S fuel =>
      let! (v, s1) := duration_term orig s in
      if 2 ^ 63 <? uwrap64 (d + v) then Err ("time: invalid duration " +:+ quote orig)
      else duration_terms fuel orig (uwrap64 (d + v)) s1
  end.

Definition ParseDuration (orig : string) : result Duration :=
  let '(neg, s) :=
    match orig with
    | String c s' =>
        if Ascii.eqb c "-" then (true, s') else if Ascii.eqb c "+" then (false, s') else (false, orig)
    | EmptyString => (false, orig)
    end in
  if String.eqb s "0" then Ok 0
  else if String.eqb s "" then Err ("time: invalid duration " +:+ quote orig)
  else
    let! d := duration_terms (String.length s) orig 0 s in
    if (neg : bool) then Ok (wrap64 (- d))
    else if int64_max <? d then Err ("time: invalid duration " +:+ quote orig)
    else Ok d.
