(* ===== verification/Rotation.v ===== *)
(** On-call rotations (internal/oncall/calculator.go, with the schedules of schedule.go):
    who is on call at a moment, the calendar of a schedule, the next handoff. *)

From Stdlib Require Import String Ascii.
From stdpp Require Import base option list sets strings sorting.
From S2P Require Import Prelude Bytes Strconv Calendar Escalation.
From Stdlib Require Import Permutation.

(** ** Schedules *)

Record Restriction := mkRestriction {
  rs_Type : string; rs_StartTime : string; rs_EndTime : string; rs_StartDay : Z; rs_EndDay : Z }.
Record Layer := mkLayer {
  l_ID : string;
  l_Name : string;
  l_Priority : Z;
  l_RotationType : string;
  l_HandoffTime : string;
  l_HandoffDay : Z;
  l_ShiftDuration : Duration;
  l_StartDate : Time;
  l_EndDate : option Time;
  l_Users : list User;
  l_Restrictions : list Restriction;
}.
Record Override := mkOverride {
  ov_UserID : string; ov_UserName : string; ov_StartTime : Time; ov_EndTime : Time }.
Record Schedule := mkSchedule {
  sc_Timezone : string; sc_Layers : list Layer; sc_Overrides : list Override }.
Record OnCallEntry := mkOnCallEntry {
  e_User : User; e_StartTime : Time; e_EndTime : Time;
  e_LayerID : string; e_LayerName : string; e_IsOverride : bool }.

(** ** Times of day *)

Definition is_blank (c : ascii) : bool := existsb (Ascii.eqb c) [" "; "009"; "011"; "012"; "013"]%char.

Fixpoint skip_blanks (s : string) : string :=
  match s with String c s' => if is_blank c then skip_blanks s' else s | EmptyString => "" end.
Fixpoint span_digits (s : string) : string * string :=
  match s with
  | String c s' =>
      match digit_value c with
      | Some _ => let '(d, r) := span_digits s' in (String c d, r)
      | None => ("", s)
      end
  | EmptyString => ("", "")
  end.

(** The verb %d of [fmt.Sscanf], on ASCII text. *)
Definition scan_int (s : string) : option (Z * string) :=
  let s := skip_blanks s in
  let '(sign, s) :=
    match s with
    | String c s' => if Ascii.eqb c "+" || Ascii.eqb c "-" then (String c "", s') else ("", s)
    | EmptyString => ("", "")
    end in
  let '(digits, rest) := span_digits s in
  match Atoi (sign +:+ digits) with
  | (n, None) => Some (n, rest)
  | (_, Some _) => None
  end.

Definition parseTime (s : string) : Z * Z :=
  match scan_int s with
  | Some (h, String c rest) =>
      if Ascii.eqb c ":" then match scan_int rest with Some (m, _) => (h, m) | None => (0, 0) end
      else (0, 0)
  | _ => (0, 0)
  end.

Definition minutes_of (s : string) : Z := let '(h, m) := parseTime s in wrap64 (h * 60 + m).

(** ** Layers *)

Definition matchesRestriction (r : Restriction) (at_ : Time) (loc : Location) : bool :=
  let cur := local_minutes loc at_ in
  let start := minutes_of (rs_StartTime r) in
  let end_ := minutes_of (rs_EndTime r) in
  let in_day :=
    if start <? end_ then (start <=? cur) && (cur <? end_) else (start <=? cur) || (cur <? end_) in
  if String.eqb (rs_Type r) "daily" then in_day
  else if String.eqb (rs_Type r) "weekly" then
    let weekday := Weekday loc at_ in
    let outside :=
      if rs_StartDay r <=? rs_EndDay r then (weekday <? rs_StartDay r) || (rs_EndDay r <? weekday)
      else (weekday <? rs_StartDay r) && (rs_EndDay r <? weekday) in
    if outside then false
    else if rs_StartDay r =? rs_EndDay r then in_day
    else if weekday =? rs_StartDay r then start <=? cur
    else if weekday =? rs_EndDay r then cur <? end_
    else true
  else true.

Definition isLayerActive (l : Layer) (at_ : Time) (loc : Location) : bool :=
  negb (Before at_ (l_StartDate l)) &&
  (match l_EndDate l with Some e => negb (After at_ e) | None => true end) &&
  (match l_Restrictions l with [] => true | rs => existsb (λ r, matchesRestriction r at_ loc) rs end).

Definition shift_of (l : Layer) : Duration :=
  if l_ShiftDuration l =? 0
  then if String.eqb (l_RotationType l) "weekly" then 7 * 24 * Hour else 24 * Hour
  else l_ShiftDuration l.

(** The loop that aligns a weekly handoff, and the one that reaches the start date; [None]
    when the fuel runs out. *)
Fixpoint align_day (fuel : nat) (loc : Location) (day : Z) (t : Time) : option Time :=
  match fuel with
  | O => None
  | S fuel => if Weekday loc t =? day then Some t else align_day fuel loc day (AddDays loc 1 t)
  end.
Fixpoint reach (fuel : nat) (d : Duration) (start t : Time) : option Time :=
  match fuel with
  | O => None
  | S fuel => if Before t start then reach fuel d start (t + d) else Some t
  end.

Definition first_handoff (fuel : nat) (l : Layer) (loc : Location) : option Time :=
  let '(h, m) := parseTime (l_HandoffTime l) in
  let t := Date loc (local_day loc (l_StartDate l)) (h * 3600 + m * 60) in
  t ← (if String.eqb (l_RotationType l) "weekly" then align_day fuel loc (l_HandoffDay l) t else Some t);
  reach fuel (shift_of l) (l_StartDate l) t.

(** The shift at a time: its user, start and end. *)
Definition getUserOnCall (fuel : nat) (l : Layer) (at_ : Time) (loc : Location)
    : option (result (option (User * Time * Time))) :=
  match l_Users l with
  | [] => Some (Ok None)
  | u :: _ =>
      let d := shift_of l in
      first ← first_handoff fuel l loc;
      if Before at_ first then Some (Ok (Some (u, first - d, first)))
      else if d =? 0 then Some (Panic "integer divide by zero")
      else
        let idx := Z.quot (time_Sub at_ first) d in
        let ui := Z.rem idx (Z.of_nat (length (l_Users l))) in
        let start := first + wrap64 (idx * d) in
        Some (match (if ui <? 0 then None else l_Users l !! Z.to_nat ui) with
              | Some u => Ok (Some (u, start, start + d))
              | None => Panic "index out of range"
              end)
  end.

Section calculator.
(** [sort.Slice] and [time.LoadLocation]. *)
Context (sort_Slice : ∀ {A}, (A → A → bool) → list A → list A).
Context (LoadLocation : string → option Location).

Definition location (s : Schedule) : Location := default UTC (LoadLocation (sc_Timezone s)).
Definition by_priority (layers : list Layer) : list Layer :=
  sort_Slice _ (λ a b, l_Priority b <? l_Priority a) layers.

Definition override_active (at_ : Time) (o : Override) : bool :=
  After at_ (ov_StartTime o) && Before at_ (ov_EndTime o).
Definition override_user (o : Override) : User := mkUser (ov_UserID o) (ov_UserName o) "" "".

(** The first active layer with users. *)
Fixpoint layer_on_call (fuel : nat) (at_ : Time) (loc : Location) (layers : list Layer)
    : option (result (option OnCallEntry)) :=
  match layers with
  | [] => Some (Ok None)
  | l :: layers =>
      if isLayerActive l at_ loc then
        r ← getUserOnCall fuel l at_ loc;
        match r with
        | Ok (Some (u, start, end_)) => Some (Ok (Some (mkOnCallEntry u start end_ (l_ID l) (l_Name l) false)))
        | Ok None => layer_on_call fuel at_ loc layers
        | Err e => Some (Err e)
        | Panic w => Some (Panic w)
        end
      else layer_on_call fuel at_ loc layers
  end.

Definition getOnCallAt (fuel : nat) (s : Schedule) (at_ : Time) : option (result (option OnCallEntry)) :=
  match filter (λ o, override_active at_ o = true) (sc_Overrides s) with
  | o :: _ => Some (Ok (Some (mkOnCallEntry (override_user o) (ov_StartTime o) (ov_EndTime o) "" "" true)))
  | [] => layer_on_call fuel at_ (location s) (by_priority (sc_Layers s))
  end.

(** ** Calendars *)

(** The loop has its own fuel. *)
Fixpoint layer_calendar_loop (n fuel : nat) (l : Layer) (start end_ : Time) (loc : Location) (cur : Time)
    : option (result (list OnCallEntry)) :=
  match n with
  | O => None
  | S n =>
      if Before cur end_ then
        r ← getUserOnCall fuel l cur loc;
        match r with
        | Ok None => layer_calendar_loop n fuel l start end_ loc (cur + Hour)
        | Ok (Some (u, s, e)) =>
            let s := if Before s start then start else s in
            let e := if After e end_ then end_ else e in
            rest ← layer_calendar_loop n fuel l start end_ loc e;
            Some (let! es := rest in
                  Ok (if isLayerActive l cur loc
                      then mkOnCallEntry u s e (l_ID l) (l_Name l) false :: es else es))
        | Err m => Some (Err m)
        | Panic w => Some (Panic w)
        end
      else Some (Ok [])
  end.

Definition generateLayerCalendar (fuel : nat) (l : Layer) (start end_ : Time) (loc : Location)
    : option (result (list OnCallEntry)) :=
  match l_Users l with
  | [] => Some (Ok [])
  | _ => layer_calendar_loop fuel fuel l start end_ loc start
  end.

Fixpoint layer_calendars (fuel : nat) (start end_ : Time) (loc : Location) (layers : list Layer)
    : option (result (list OnCallEntry)) :=
  match layers with
  | [] => Some (Ok [])
  | l :: layers =>
      r ← generateLayerCalendar fuel l start end_ loc;
      match r with
      | Ok es => rest ← layer_calendars fuel start end_ loc layers; Some (let! es' := rest in Ok (es ++ es'))
      | r => Some r
      end
  end.

Definition override_entry (start end_ : Time) (o : Override) : option OnCallEntry :=
  if Before (ov_EndTime o) start || After (ov_StartTime o) end_ then None
  else Some (mkOnCallEntry (override_user o)
               (if Before (ov_StartTime o) start then start else ov_StartTime o)
               (if After (ov_EndTime o) end_ then end_ else ov_EndTime o) "" "" true).

(** An entry that overlaps an override is dropped. *)
Definition overlaps (e : OnCallEntry) (o : Override) : bool :=
  Before (e_StartTime e) (ov_EndTime o) && After (e_EndTime e) (ov_StartTime o).
Definition mergeEntries (entries : list OnCallEntry) (overrides : list Override) : list OnCallEntry :=
  filter (λ e, e_IsOverride e = true ∨ existsb (overlaps e) overrides = false) entries.

Definition generateCalendar (fuel : nat) (s : Schedule) (start end_ : Time)
    : option (result (list OnCallEntry)) :=
  r ← layer_calendars fuel start end_ (location s) (by_priority (sc_Layers s));
  Some (let! es := r in
        let entries := omap (override_entry start end_) (sc_Overrides s) ++ es in
        Ok (mergeEntries (sort_Slice _ (λ a b, Before (e_StartTime a) (e_StartTime b)) entries)
              (sc_Overrides s))).

Definition GetNextHandoff (fuel : nat) (s : Schedule) (now : Time) : option (result (option OnCallEntry)) :=
  let loc := location s in
  let end_ := AddDays loc 30 now + now mod Second in
  r ← generateCalendar fuel s now end_;
  Some (let! es := r in Ok (head (filter (λ e, After (e_StartTime e) now = true) es))).
End calculator.

(** ** The first handoff *)

Definition regular (loc : Location) : Prop :=
  ∀ t, local_day loc (AddDays loc 1 t) = local_day loc t + 1.

Lemma from_Unix_unix s : time_Unix (from_Unix s) = s.
Proof. unfold time_Unix, from_Unix. by rewrite Z.div_mul. Qed.

Lemma UTC_regular : regular UTC.
Proof.
  intros t. unfold AddDays, Date. cbn [UTC z_offset Z.eqb]. unfold local_day, local_sec, local.
  cbn [UTC z_offset]. rewrite from_Unix_unix, !Z.add_0_r. unfold day_secs.
  pose proof (Z.mod_pos_bound (time_Unix t) 86400 ltac:(lia)).
  rewrite Z.div_add_l by lia. rewrite (Z.div_small (time_Unix t mod 86400)) by lia. lia.
Qed.

Lemma Weekday_range loc t : 0 ≤ Weekday loc t < 7.
Proof. apply Z.mod_pos_bound. lia. Qed.

Lemma Weekday_next loc t : regular loc → Weekday loc (AddDays loc 1 t) = (Weekday loc t + 1) mod 7.
Proof.
  intros H. unfold Weekday. rewrite H, Zplus_mod_idemp_l. f_equal. lia.
Qed.

(** A day of the week is reached within a week. *)
Lemma align_day_total loc day t : regular loc → 0 ≤ day < 7 →
  ∃ t', Weekday loc t' = day ∧ ∀ n, (7 ≤ n)%nat → align_day n loc day t = Some t'.
Proof.
  intros Hreg Hday.
  assert (H : ∀ k t, (day - Weekday loc t) mod 7 = Z.of_nat k →
    ∃ t', Weekday loc t' = day ∧ ∀ n, (k < n)%nat → align_day n loc day t = Some t').
  { induction k as [|k IH]; intros u Hk.
    - exists u. pose proof (Weekday_range loc u). assert (E : Weekday loc u = day).
      { apply Z.mod_divide in Hk as [q Hq]; lia. }
      split; [done|]. intros [|n] Hn; [lia|]. cbn [align_day]. by rewrite E, Z.eqb_refl.
    - destruct (IH (AddDays loc 1 u)) as (t' & Ht' & Hn).
      { rewrite (Weekday_next loc u Hreg). rewrite Zminus_mod_idemp_r.
        replace (day - (Weekday loc u + 1)) with (day - Weekday loc u - 1) by lia.
        rewrite <- Zminus_mod_idemp_l, Hk.
        pose proof (Z.mod_pos_bound (day - Weekday loc u) 7 ltac:(lia)). rewrite Z.mod_small; lia. }
      exists t'. split; [done|]. intros [|n] Hlt; [lia|]. cbn [align_day].
      destruct (Z.eqb_spec (Weekday loc u) day) as [E|_]; [|apply Hn; lia].
      rewrite E, Z.sub_diag, Z.mod_0_l in Hk; lia. }
  pose proof (Z.mod_pos_bound (day - Weekday loc t) 7 ltac:(lia)) as Hb.
  destruct (H (Z.to_nat ((day - Weekday loc t) mod 7)) t ltac:(lia)) as (t' & Ht' & Hn).
  exists t'. split; [done|]. intros n Hle. apply Hn. lia.
Qed.

(** The start date is reached in steps of the shift. *)
Lemma reach_total d start t : 0 < d →
  ∃ k, 0 ≤ k ∧ start ≤ t + k * d ∧ (t < start → t + k * d < start + d) ∧
    ∀ n, (Z.to_nat k < n)%nat → reach n d start t = Some (t + k * d).
Proof.
  intros Hd. remember (Z.to_nat (start - t)) as m eqn:Hm. revert t Hm.
  induction m as [m IH] using lt_wf_ind. intros t ->.
  destruct (Z.ltb_spec t start) as [Hlt|Hge].
  - destruct (IH (Z.to_nat (start - (t + d))) ltac:(lia) (t + d) eq_refl) as (k & Hk & Hs & Hb & Hn).
    exists (k + 1). split; [lia|]. split; [lia|]. split.
    + intros _. destruct (Z.ltb_spec (t + d) start) as [Hlt'|Hge']; [lia|].
      assert (Hk0 : reach 1 d start (t + d) = Some (t + d)) by (cbn; unfold Before; by replace (t + d <? start) with false by lia).
      specialize (Hn (S (Z.to_nat k)) ltac:(lia)). cbn [reach] in Hn. unfold Before in Hn.
      replace (t + d <? start) with false in Hn by lia. injection Hn as Hn. nia.
    + intros [|n] Hlt'; [lia|]. cbn [reach]. unfold Before. replace (t <? start) with true by lia.
      rewrite Hn by lia. f_equal. lia.
  - exists 0. split; [lia|]. split; [lia|]. split; [lia|]. intros [|n] Hlt; [lia|].
    cbn [reach]. unfold Before. replace (t <? start) with false by lia. f_equal. lia.
Qed.

(** [first] is the first handoff, whatever fuel is given beyond some. *)
Definition starts_at (l : Layer) (loc : Location) (first : Time) : Prop :=
  ∃ n0, ∀ n, (n0 ≤ n)%nat → first_handoff n l loc = Some first.

Definition valid_layer (l : Layer) : Prop :=
  l_Users l ≠ [] ∧ 0 < shift_of l ∧ (l_RotationType l = "weekly" → 0 ≤ l_HandoffDay l < 7).

(** The search for the first handoff ends, at or after the start date. *)
Lemma first_handoff_total l loc :
  regular loc → valid_layer l → ∃ first, starts_at l loc first ∧ l_StartDate l ≤ first.
Proof.
  intros Hreg (_ & Hd & Hday). unfold starts_at, first_handoff. destruct (parseTime _) as [h m].
  set (t := Date loc _ _). clearbody t.
  assert (Ha : ∃ t' n0, ∀ n, (n0 ≤ n)%nat →
    (if String.eqb (l_RotationType l) "weekly" then align_day n loc (l_HandoffDay l) t else Some t) = Some t').
  { destruct (String.eqb_spec (l_RotationType l) "weekly") as [E|_]; [|by exists t, 0%nat].
    destruct (align_day_total loc (l_HandoffDay l) t Hreg (Hday E)) as (t' & _ & H). by exists t', 7%nat. }
  destruct Ha as (t' & n0 & Ha). destruct (reach_total (shift_of l) (l_StartDate l) t' Hd) as (k & Hk & Hs & _ & Hn).
  exists (t' + k * shift_of l). split; [|done]. exists (n0 + S (Z.to_nat k))%nat. intros n Hle.
  rewrite Ha by lia. cbn. apply Hn. lia.
Qed.

(** ** Shifts *)

Section rotation.
Context (l : Layer) (loc : Location) (first : Time).
Context (Hvalid : valid_layer l).
#[local] Abbreviation d := (shift_of l) (only parsing).
#[local] Abbreviation n := (Z.of_nat (length (l_Users l))) (only parsing).

(** The number of the shift at a time, and its user. *)
Definition shift_number (t : Time) : Z := (t - first) / d.
Definition shift_user (k : Z) : option User := l_Users l !! Z.to_nat (k mod n).

Lemma users_pos : 0 < n.
Proof. destruct Hvalid as (H & _). destruct (l_Users l); [done|]. cbn [length]. lia. Qed.

Lemma shift_user_some k : ∃ u, shift_user k = Some u.
Proof.
  pose proof users_pos. pose proof (Z.mod_pos_bound k n ltac:(lia)).
  destruct (lookup_lt_is_Some_2 (l_Users l) (Z.to_nat (k mod n))) as [u Hu]; [lia|by exists u].
Qed.

Lemma getUserOnCall_after fuel t :
  first_handoff fuel l loc = Some first → first ≤ t → t - first ≤ int64_max →
  ∃ u, shift_user (shift_number t) = Some u ∧
    getUserOnCall fuel l t loc =
    Some (Ok (Some (u, first + shift_number t * d, first + shift_number t * d + d))).
Proof.
  intros Hf Ht Hmax. destruct (shift_user_some (shift_number t)) as [u Hu]. exists u. split; [done|].
  destruct Hvalid as (Husers & Hd & _). pose proof users_pos as Hn.
  unfold getUserOnCall. destruct (l_Users l) as [|u0 us] eqn:E; [done|]. rewrite Hf. cbn [mbind option_bind].
  unfold Before. replace (t <? first) with false by lia. replace (d =? 0) with false by lia.
  rewrite time_Sub_small by (unfold in_int64, int64_min; lia).
  pose proof (Z.div_pos (t - first) d ltac:(lia) Hd) as Hpos.
  pose proof (Z.mul_div_le (t - first) d Hd) as Hle.
  assert (Hq : Z.quot (t - first) d = shift_number t) by (apply Z.quot_div_nonneg; lia).
  rewrite Hq, <- E. rewrite <- E in Hn. unfold shift_number in *.
  rewrite Z.rem_mod_nonneg by lia. pose proof (Z.mod_pos_bound ((t - first) / d) n ltac:(lia)).
  replace (_ <? 0) with false by lia. unfold shift_user in Hu. rewrite Hu.
  rewrite wrap64_id by (unfold in_int64, int64_min; nia). reflexivity.
Qed.

Lemma getUserOnCall_before fuel t :
  first_handoff fuel l loc = Some first → t < first →
  ∃ u, head (l_Users l) = Some u ∧ getUserOnCall fuel l t loc = Some (Ok (Some (u, first - d, first))).
Proof.
  intros Hf Ht. destruct Hvalid as (Husers & _). unfold getUserOnCall.
  destruct (l_Users l) as [|u us]; [done|]. exists u. split; [done|].
  rewrite Hf. cbn [mbind option_bind]. unfold Before. by replace (t <? first) with true by lia.
Qed.

Lemma shift_bounds t : first + shift_number t * d ≤ t < first + shift_number t * d + d.
Proof.
  destruct Hvalid as (_ & Hd & _). unfold shift_number.
  pose proof (Z.mul_div_le (t - first) d Hd). pose proof (Z.mul_succ_div_gt (t - first) d Hd). lia.
Qed.

Lemma shift_number_within k t : first + k * d ≤ t < first + k * d + d → shift_number t = k.
Proof.
  intros H. destruct Hvalid as (_ & Hd & _). unfold shift_number.
  symmetry. apply (Z.div_unique_pos _ _ _ (t - first - k * d)); lia.
Qed.
End rotation.

(** C21: a layer's rotation, for a layer that has users, a shift of positive length and, when it is
    weekly, a handoff day among 0..6, in a location where the next day is always one date later (UTC
    is one: UTC_regular). Nothing in the code checks these, and without them the search need not end:
    no_such_handoff_day_hangs, negative_shift_hangs. Then the search for the first handoff ends, at
    or after the start date; from then on (for as long as a duration can express) the shift found at
    any moment contains it, lasts the shift duration, begins a whole number k of shifts after the
    first handoff, and belongs to the user at position k modulo the number of users: every moment of
    a shift has its user, and the next shift the next user. *)
Theorem rotation_takes_turns l loc :
  regular loc → valid_layer l →
  ∃ first fuel0, l_StartDate l ≤ first ∧
  ∀ fuel t, (fuel0 ≤ fuel)%nat → first ≤ t → t - first ≤ int64_max →
  ∃ u, let k := shift_number l first t in let s := first + k * shift_of l in
    getUserOnCall fuel l t loc = Some (Ok (Some (u, s, s + shift_of l))) ∧
    s ≤ t < s + shift_of l ∧
    l_Users l !! Z.to_nat (k mod Z.of_nat (length (l_Users l))) = Some u ∧
    shift_number l first (s + shift_of l) = k + 1.
Proof.
  intros Hreg Hv. destruct (first_handoff_total l loc Hreg Hv) as (first & (n0 & Hf) & Hs).
  exists first, n0. split; [done|]. intros fuel t Hn Ht Hmax.
  destruct (getUserOnCall_after l loc first Hv fuel t (Hf fuel Hn) Ht Hmax) as (u & Hu & Hg).
  exists u. cbn zeta. split; [done|]. split; [apply (shift_bounds l first Hv)|]. split; [done|].
  apply (shift_number_within l first Hv). pose proof (proj1 (proj2 Hv)). lia.
Qed.

(** C22: fairness. From any moment after the first handoff that was found, each user of a layer
    (with a shift of positive length and, when it is weekly, a handoff day of the week) is on call
    within one round of the rotation. *)
Theorem every_user_gets_on_call l loc first fuel t (i : nat) u :
  valid_layer l → first_handoff fuel l loc = Some first → l_Users l !! i = Some u → first ≤ t →
  let round := Z.of_nat (length (l_Users l)) * shift_of l in
  t + round - first ≤ int64_max →
  ∃ t' s e, t ≤ t' < t + round ∧ getUserOnCall fuel l t' loc = Some (Ok (Some (u, s, e))).
Proof.
  intros Hv Hf Hi Ht round Hmax. set (n := Z.of_nat (length (l_Users l))) in *.
  pose proof (lookup_lt_Some _ _ _ Hi) as Hlt. assert (Hn : 0 < n) by (unfold n; lia).
  pose proof (proj1 (proj2 Hv)) as Hd. set (k := shift_number l first t).
  assert (Hk : 0 ≤ k) by (apply Z.div_pos; lia).
  pose proof (shift_bounds l first Hv t) as Hb. fold k in Hb.
  (* the distance to the next turn of the user *)
  set (j := (Z.of_nat i - k) mod n). pose proof (Z.mod_pos_bound (Z.of_nat i - k) n Hn) as Hj. fold j in Hj.
  set (t' := t + j * shift_of l).
  assert (Hk' : shift_number l first t' = k + j).
  { apply (shift_number_within l first Hv). unfold t'. lia. }
  assert (Ht' : t' - first ≤ int64_max) by (unfold t', round in *; nia).
  destruct (getUserOnCall_after l loc first Hv fuel t' Hf ltac:(unfold t'; nia) Ht') as (v & Hu & Hg).
  rewrite Hk' in Hu. assert (Hmod : (k + j) mod n = Z.of_nat i).
  { unfold j. rewrite Zplus_mod_idemp_r. replace (k + (Z.of_nat i - k)) with (Z.of_nat i) by lia.
    apply Z.mod_small. unfold n. lia. }
  unfold shift_user in Hu. fold n in Hu. rewrite Hmod, Nat2Z.id, Hi in Hu. injection Hu as <-.
  exists t'. do 2 eexists. split; [|exact Hg]. unfold t', round. nia.
Qed.

(** ** Who is on call *)

Section schedules.
Context (sort_Slice : ∀ {A}, (A → A → bool) → list A → list A).
Context (LoadLocation : string → option Location).

(** What [sort.Slice] promises for the order of the priorities. *)
Definition sorts_layers : Prop := ∀ layers,
  sort_Slice Layer (λ a b, l_Priority b <? l_Priority a) layers ≡ₚ layers ∧
  StronglySorted (λ a b, l_Priority b ≤ l_Priority a) (sort_Slice Layer (λ a b, l_Priority b <? l_Priority a) layers).

Lemma layer_on_call_spec fuel at_ loc layers r :
  layer_on_call fuel at_ loc layers = Some (Ok r) →
  match r with
  | Some e => ∃ before l after u s f, layers = before ++ l :: after ∧ isLayerActive l at_ loc = true ∧
      getUserOnCall fuel l at_ loc = Some (Ok (Some (u, s, f))) ∧
      e = mkOnCallEntry u s f (l_ID l) (l_Name l) false ∧
      ∀ l', l' ∈ before → isLayerActive l' at_ loc = false ∨ l_Users l' = []
  | None => ∀ l, l ∈ layers → isLayerActive l at_ loc = false ∨ l_Users l = []
  end.
Proof.
  assert (Hnone : ∀ l, getUserOnCall fuel l at_ loc = Some (Ok None) → l_Users l = []).
  { intros l. unfold getUserOnCall. destruct (l_Users l); [done|]. destruct (first_handoff _ _ _); cbn; [|done].
    repeat case_match; intros E; congruence. }
  induction layers as [|l layers IH]; cbn [layer_on_call].
  - intros [= <-] l Hl. by apply elem_of_nil in Hl.
  - assert (Hskip : layer_on_call fuel at_ loc layers = Some (Ok r) →
      (isLayerActive l at_ loc = false ∨ l_Users l = []) → match r with
      | Some e => ∃ before l' after u s f, l :: layers = before ++ l' :: after ∧ isLayerActive l' at_ loc = true ∧
          getUserOnCall fuel l' at_ loc = Some (Ok (Some (u, s, f))) ∧
          e = mkOnCallEntry u s f (l_ID l') (l_Name l') false ∧
          ∀ l'', l'' ∈ before → isLayerActive l'' at_ loc = false ∨ l_Users l'' = []
      | None => ∀ l', l' ∈ l :: layers → isLayerActive l' at_ loc = false ∨ l_Users l' = []
      end).
    { intros Hr Hl. specialize (IH Hr). destruct r as [e|].
      - destruct IH as (before & l' & after & u & s & f & -> & Ha & Hg & He & Hb).
        exists (l :: before), l', after, u, s, f. split; [done|]. split; [done|]. split; [done|]. split; [done|].
        intros l'' [->|Hin]%elem_of_cons; auto.
      - intros l' [->|Hin]%elem_of_cons; auto. }
    destruct (isLayerActive l at_ loc) eqn:Ha; [|intros Hr; apply Hskip; auto].
    destruct (getUserOnCall fuel l at_ loc) as [[[[[u s] f]|]| |]|] eqn:Hg; cbn [mbind option_bind]; try done.
    + intros [= <-]. exists [], l, layers, u, s, f. repeat (split; [done|]). intros l' Hl. by apply elem_of_nil in Hl.
    + intros Hr. apply Hskip; auto.
Qed.

(** Who is on call. An override that is running comes first, the earliest in the list;
    otherwise it is the user in turn of an active layer with users of the highest priority
    among those, and nobody exactly when no active layer has users. *)
Theorem override_then_highest_priority fuel s at_ r :
  sorts_layers → getOnCallAt (@sort_Slice) LoadLocation fuel s at_ = Some (Ok r) →
  let loc := location LoadLocation s in
  let running o := ov_StartTime o < at_ < ov_EndTime o in
  let candidate l := l ∈ sc_Layers s ∧ isLayerActive l at_ loc = true ∧ l_Users l ≠ [] in
  (∃ before o after, sc_Overrides s = before ++ o :: after ∧ running o ∧ (∀ o', o' ∈ before → ¬ running o') ∧
     r = Some (mkOnCallEntry (override_user o) (ov_StartTime o) (ov_EndTime o) "" "" true)) ∨
  (∀ o, o ∈ sc_Overrides s → ¬ running o) ∧
  match r with
  | Some e => ∃ l u b f, candidate l ∧ (∀ l', candidate l' → l_Priority l' ≤ l_Priority l) ∧
      getUserOnCall fuel l at_ loc = Some (Ok (Some (u, b, f))) ∧
      e = mkOnCallEntry u b f (l_ID l) (l_Name l) false
  | None => ∀ l, ¬ candidate l
  end.
Proof.
  intros Hsort H loc running candidate. subst loc. unfold getOnCallAt in H.
  assert (Hrun : ∀ o, override_active at_ o = true ↔ running o).
  { intros o. unfold override_active, After, Before, running. rewrite andb_true_iff, !Z.ltb_lt. done. }
  destruct (filter _ (sc_Overrides s)) as [|o os] eqn:E.
  - right. split.
    + intros o Ho Hr. assert (Hin : o ∈ filter (λ o, override_active at_ o = true) (sc_Overrides s)).
      { apply list_elem_of_filter. split; [by apply Hrun|done]. }
      rewrite E in Hin. by apply elem_of_nil in Hin.
    + destruct (Hsort (sc_Layers s)) as [Hp Hs]. apply layer_on_call_spec in H. unfold by_priority in H.
      destruct r as [e|].
      * destruct H as (before & l & after & u & b & f & Hl & Ha & Hg & He & Hb). rewrite Hl in Hp, Hs.
        exists l, u, b, f.
        assert (Hu : l_Users l ≠ []) by (intros Hnil; unfold getUserOnCall in Hg; by rewrite Hnil in Hg).
        split; [split; [|done]; rewrite <- Hp; set_solver|]. split; [|done].
        intros l' (Hl' & Ha' & Hu'). rewrite <- Hp in Hl'. apply elem_of_app in Hl' as [Hl'|[->|Hl']%elem_of_cons].
        -- destruct (Hb l' Hl') as [Hf|Hf]; congruence.
        -- done.
        -- apply StronglySorted_app_1_r, StronglySorted_inv in Hs as [_ Hall].
           rewrite Forall_forall in Hall. by apply Hall.
      * intros l (Hl & Ha & Hu). rewrite <- Hp in Hl. destruct (H l Hl); congruence.
  - left. injection H as <-.
    assert (Hsplit : ∃ before after, sc_Overrides s = before ++ o :: after ∧ override_active at_ o = true ∧
      ∀ o', o' ∈ before → override_active at_ o' ≠ true).
    { clear -E. induction (sc_Overrides s) as [|o' l IH]; [done|]. rewrite filter_cons in E.
      destruct (decide (override_active at_ o' = true)) as [Ht|Hf].
      - injection E as -> _. exists [], l. split; [done|]. split; [done|]. intros o' Ho. by apply elem_of_nil in Ho.
      - destruct (IH E) as (before & after & -> & Ho & Hb). exists (o' :: before), after. split; [done|].
        split; [done|]. intros o'' [->|Hin]%elem_of_cons; auto. }
    destruct Hsplit as (before & after & Hl & Ho & Hb). exists before, o, after.
    split; [done|]. split; [by apply Hrun|]. split; [|done]. intros o' Ho' Hr. by eapply Hb, Hrun.
Qed.
End schedules.

(** ** The calendar of a layer *)

(** Entries that follow each other from [a] to [b]. *)
Fixpoint tiles (a b : Time) (es : list OnCallEntry) : Prop :=
  match es with
  | [] => a = b
  | e :: es => e_StartTime e = a ∧ a < e_EndTime e ∧ tiles (e_EndTime e) b es
  end.

Lemma tiles_cover a b es t : tiles a b es → a ≤ t < b → ∃ e, e ∈ es ∧ e_StartTime e ≤ t < e_EndTime e.
Proof.
  revert a. induction es as [|e es IH]; intros a; cbn [tiles]; [lia|].
  intros (<- & Hlt & Hes) Ht. destruct (Z.ltb_spec t (e_EndTime e)).
  - exists e. split; [set_solver|lia].
  - destruct (IH _ Hes ltac:(lia)) as (e' & He' & ?). exists e'. split; [set_solver|done].
Qed.

Section calendar.
Context (l : Layer) (loc : Location) (first : Time) (fuel : nat) (start end_ : Time).
Context (Hvalid : valid_layer l) (Hfirst : first_handoff fuel l loc = Some first).
Context (Hstart : first - shift_of l ≤ start) (Hmax : end_ - first ≤ int64_max).

(** The user of an entry is the one on call at every moment of it. *)
Definition agrees (e : OnCallEntry) : Prop :=
  ∀ t, e_StartTime e ≤ t < e_EndTime e → ∃ s f, getUserOnCall fuel l t loc = Some (Ok (Some (e_User e, s, f))).

(** The shift at a moment: the next moment, and the user until then. *)
Lemma shift_at cur : start ≤ cur < end_ →
  (cur = start ∨ ∃ k, cur = first + k * shift_of l ∧ first ≤ cur) →
  ∃ u s e, getUserOnCall fuel l cur loc = Some (Ok (Some (u, s, e))) ∧ cur < e ∧
    (if Before s start then start else s) = cur ∧
    (∃ k, e = first + k * shift_of l ∧ first ≤ e) ∧
    ∀ t, cur ≤ t < e → t < end_ → ∃ s' f, getUserOnCall fuel l t loc = Some (Ok (Some (u, s', f))).
Proof.
  intros Hcur Hk. pose proof (proj1 (proj2 Hvalid)) as Hd.
  destruct (Z.ltb_spec cur first) as [Hlt|Hge].
  - destruct (getUserOnCall_before l loc first Hvalid fuel cur Hfirst Hlt) as (u & Hu & Hg).
    exists u, (first - shift_of l), first. split; [done|]. split; [done|].
    split; [unfold Before; destruct Hk as [->|(k & -> & ?)]; [case_match; lia|lia]|].
    split; [exists 0; lia|]. intros t Ht _.
    destruct (getUserOnCall_before l loc first Hvalid fuel t Hfirst ltac:(lia)) as (u' & Hu' & Hg').
    rewrite Hu in Hu'. injection Hu' as <-. eauto.
  - destruct (getUserOnCall_after l loc first Hvalid fuel cur Hfirst Hge ltac:(lia)) as (u & Hu & Hg).
    pose proof (shift_bounds l first Hvalid cur) as Hb. set (k := shift_number l first cur) in *.
    exists u. do 2 eexists. split; [exact Hg|]. split; [lia|]. split; [|split; [exists (k + 1); lia|]].
    + unfold Before. destruct Hk as [->|(k' & Hk & _)]; [case_match; lia|].
      assert (k = k') as -> by (unfold k; apply (shift_number_within l first Hvalid); lia).
      rewrite <- Hk. case_match; lia.
    + intros t Ht Hend. destruct (getUserOnCall_after l loc first Hvalid fuel t Hfirst ltac:(lia) ltac:(lia)) as (v & Hv & Hgv).
      assert (E : shift_number l first t = k) by (apply (shift_number_within l first Hvalid); lia).
      rewrite E, Hu in Hv. injection Hv as <-. eauto.
Qed.

Definition on_grid (cur : Time) : Prop := ∃ k, cur = first + k * shift_of l ∧ first ≤ cur.

Context (Hdate : l_StartDate l ≤ start) (Hfree : l_Restrictions l = []) (Hend : l_EndDate l = None).

Lemma always_active t : start ≤ t → isLayerActive l t loc = true.
Proof.
  intros Ht. unfold isLayerActive, Before. rewrite Hfree, Hend. by replace (t <? l_StartDate l) with false by lia.
Qed.

(** One turn of the loop. *)
Lemma calendar_turn n cur : start ≤ cur < end_ → cur = start ∨ on_grid cur →
  ∃ e u, cur < e ∧ on_grid e ∧ let e' := if After e end_ then end_ else e in
    let entry := mkOnCallEntry u cur e' (l_ID l) (l_Name l) false in
    agrees entry ∧
    ∀ es, layer_calendar_loop n fuel l start end_ loc e' = Some (Ok es) →
      layer_calendar_loop (S n) fuel l start end_ loc cur = Some (Ok (entry :: es)).
Proof.
  intros Hcur Hg. destruct (shift_at cur Hcur Hg) as (u & s & e & Hu & Hlt & Hs & He & Ha).
  exists e, u. split; [done|]. split; [done|]. cbn zeta. split.
  - intros t. cbn [e_StartTime e_EndTime e_User]. unfold After. intros Ht. apply Ha; case_match; lia.
  - intros es Hes. cbn [layer_calendar_loop]. unfold Before at 1. replace (cur <? end_) with true by lia.
    rewrite Hu. cbn [mbind option_bind]. rewrite Hs, Hes. cbn [mbind option_bind res_bind].
    by rewrite always_active by lia.
Qed.

Lemma calendar_on_grid n cur :
  start ≤ cur ≤ end_ →
  cur = end_ ∧ (1 ≤ n)%nat ∨ on_grid cur ∧ (Z.to_nat ((end_ - cur) / shift_of l) + 2 ≤ n)%nat →
  ∃ es, layer_calendar_loop n fuel l start end_ loc cur = Some (Ok es) ∧ tiles cur end_ es ∧ Forall agrees es.
Proof.
  pose proof (proj1 (proj2 Hvalid)) as Hd.
  revert cur. induction n as [|n IH]; intros cur Hcur Hg; [lia|].
  destruct (Z.ltb_spec cur end_) as [Hlt|Hge].
  2:{ exists []. cbn. unfold Before. replace (cur <? end_) with false by lia. split; [done|]. split; [lia|constructor]. }
  destruct Hg as [?|[Hg Hn]]; [lia|].
  destruct (calendar_turn n cur ltac:(lia) (or_intror Hg)) as (e & u & He & Hge & Hag & Hloop). cbn zeta in Hag, Hloop.
  assert (Hstep : cur + shift_of l ≤ e).
  { destruct Hg as (k & Hk & _), Hge as (k' & Hk' & _).
    assert (k < k') by (apply (Z.mul_lt_mono_pos_r (shift_of l)); lia). nia. }
  set (e' := if After e end_ then end_ else e) in *.
  destruct (IH e') as (es & Hes & Ht & Hall).
  - unfold e', After. case_match; lia.
  - unfold e', After. destruct (Z.ltb_spec end_ e); [left; lia|right; split; [done|]].
    assert ((end_ - e) / shift_of l + 1 ≤ (end_ - cur) / shift_of l).
    { rewrite <- Z.div_add by lia. apply Z.div_le_mono; lia. }
    pose proof (Z.div_pos (end_ - e) (shift_of l) ltac:(lia) Hd). lia.
  - exists (mkOnCallEntry u cur e' (l_ID l) (l_Name l) false :: es). split; [by apply Hloop|].
    split; [|by constructor]. cbn. split; [done|]. split; [|done]. unfold e', After. case_match; lia.
Qed.

Lemma calendar_tiles n :
  (Z.to_nat ((end_ - start) / shift_of l) + 3 ≤ n)%nat → start < end_ →
  ∃ es, layer_calendar_loop n fuel l start end_ loc start = Some (Ok es) ∧ tiles start end_ es ∧ Forall agrees es.
Proof.
  pose proof (proj1 (proj2 Hvalid)) as Hd. destruct n as [|n]; [lia|]. intros Hn Hlt.
  destruct (calendar_turn n start ltac:(lia) (or_introl eq_refl)) as (e & u & He & Hge & Hag & Hloop). cbn zeta in Hag, Hloop.
  set (e' := if After e end_ then end_ else e) in *.
  destruct (calendar_on_grid n e') as (es & Hes & Ht & Hall).
  - unfold e', After. case_match; lia.
  - unfold e', After. destruct (Z.ltb_spec end_ e); [left; lia|right; split; [done|]].
    assert ((end_ - e) / shift_of l ≤ (end_ - start) / shift_of l); [|lia]. apply Z.div_le_mono; lia.
  - exists (mkOnCallEntry u start e' (l_ID l) (l_Name l) false :: es). split; [by apply Hloop|].
    split; [|by constructor]. cbn. split; [done|]. split; [|done]. unfold e', After. case_match; lia.
Qed.
End calendar.

(** C23: the calendar of a layer agrees with the rotation. This is for a valid layer (users, a shift
    of positive length, a handoff day of the week) without restrictions or end, for a range that
    begins at or after its start date and less than a shift before its first handoff or later (a
    range that begins earlier starts with a gap, early_range_has_a_gap), with as much fuel as there
    are shifts in the range (and three). Then the calendar has entries that follow each other from
    the start of the range to its end, so every moment is in one, and the user of an entry is the one
    the rotation gives at each of its moments. *)
Theorem calendar_agrees_with_the_rotation l loc first fuel start end_ :
  valid_layer l → first_handoff fuel l loc = Some first →
  l_Restrictions l = [] → l_EndDate l = None → l_StartDate l ≤ start → first - shift_of l ≤ start →
  start < end_ → end_ - first ≤ int64_max → (Z.to_nat ((end_ - start) / shift_of l) + 3 ≤ fuel)%nat →
  ∃ es, generateLayerCalendar fuel l start end_ loc = Some (Ok es) ∧ tiles start end_ es ∧
    (∀ e t, e ∈ es → e_StartTime e ≤ t < e_EndTime e →
       ∃ s f, getUserOnCall fuel l t loc = Some (Ok (Some (e_User e, s, f)))) ∧
    ∀ t, start ≤ t < end_ → ∃ e, e ∈ es ∧ e_StartTime e ≤ t < e_EndTime e.
Proof.
  intros Hv Hf Hr He Hd Hs Hlt Hmax Hfuel.
  destruct (calendar_tiles l loc first fuel start end_ Hv Hf Hs Hmax Hd Hr He fuel Hfuel Hlt) as (es & Hes & Ht & Ha).
  exists es. split.
  { unfold generateLayerCalendar. destruct (l_Users l) eqn:E; [by destruct Hv as [Hu _]|done]. }
  split; [done|]. split; [|intros t; by apply tiles_cover].
  intros e t Hin. rewrite Forall_forall in Ha. by apply Ha.
Qed.

(** ** A rotation *)

Definition demo_user (name : string) : User := mkUser name name "" "".
Definition demo_layer : Layer :=
  mkLayer "l" "weekday" 1 "daily" "09:00" 0 0 (from_Unix 0) None [demo_user "ann"; demo_user "bob"] [].
Definition nine : Time := from_Unix (9 * 3600).
Definition insertion {A} (less : A → A → bool) : list A → list A :=
  foldr (fix insert x l := match l with [] => [x] | y :: l' => if less x y then x :: l else y :: insert x l' end) [].

Lemma demo_valid : valid_layer demo_layer.
Proof. split; [done|]. split; [by vm_compute|done]. Qed.

Lemma rotation_takes_turns_witness :
  ∃ first fuel0, 0 ≤ first ∧ ∀ fuel t, (fuel0 ≤ fuel)%nat → first ≤ t → t - first ≤ int64_max →
    ∃ u s, getUserOnCall fuel demo_layer t UTC = Some (Ok (Some (u, s, s + 24 * Hour))) ∧ s ≤ t < s + 24 * Hour.
Proof.
  destruct (rotation_takes_turns demo_layer UTC UTC_regular demo_valid) as (first & n0 & Hs & H).
  exists first, n0. split; [exact Hs|]. intros fuel t Hn Ht Hm. destruct (H fuel t Hn Ht Hm) as (u & Hg & Hb & _).
  exists u. eexists. split; [exact Hg|exact Hb].
Defined.

Lemma every_user_gets_on_call_witness :
  ∃ t' s e, nine ≤ t' < nine + 48 * Hour ∧
    getUserOnCall 3 demo_layer t' UTC = Some (Ok (Some (demo_user "bob", s, e))).
Proof.
  apply (every_user_gets_on_call demo_layer UTC nine 3 nine 1 (demo_user "bob") demo_valid).
  - by vm_compute.
  - reflexivity.
  - done.
  - by vm_compute.
Defined.

Definition demo_schedule : Schedule :=
  mkSchedule "UTC" [demo_layer] [mkOverride "eve" "Eve" (nine + Hour) (nine + 2 * Hour)].
Definition no_locations : string → option Location := λ _, None.

(** Sorting one layer is nothing to do. *)
Definition demo_sort {A} (less : A → A → bool) (l : list A) : list A := insertion less l.

Lemma demo_sorts : sorts_layers (@demo_sort).
Proof.
  intros layers. unfold demo_sort, insertion. induction layers as [|a l [IHp IHs]]; [by split; [|constructor]|].
  cbn [foldr]. revert IHp IHs. generalize (foldr (fix insert x l := match l with [] => [x]
    | y :: l' => if l_Priority y <? l_Priority x then x :: l else y :: insert x l' end) [] l).
  intros m Hp Hs. split.
  - rewrite <- Hp. clear. induction m as [|y m IH]; [done|]. case_match; [done|]. rewrite IH. constructor.
  - clear Hp. induction m as [|y m IH]; [repeat constructor|].
    apply StronglySorted_inv in Hs as [Hs Hall]. destruct (Z.ltb_spec (l_Priority y) (l_Priority a)).
    + constructor; [by constructor|]. constructor; [lia|]. eapply Forall_impl; [exact Hall|]. intros z Hz. cbn in Hz. lia.
    + constructor; [by apply IH|]. clear IH Hs. induction m as [|z m IH]; [by repeat constructor|].
      apply Forall_cons in Hall as [Hz Hall]. case_match; [constructor; [lia|by constructor]|].
      constructor; [done|by apply IH].
Qed.

Definition demo_override : Override := mkOverride "eve" "Eve" (nine + Hour) (nine + 2 * Hour).
Definition demo_moment : Time := nine + Hour + Minute.
Definition demo_entry : OnCallEntry :=
  mkOnCallEntry (override_user demo_override) (ov_StartTime demo_override) (ov_EndTime demo_override) "" "" true.

Lemma demo_on_call :
  getOnCallAt (@demo_sort) no_locations 3 demo_schedule demo_moment = Some (Ok (Some demo_entry)).
Proof. vm_compute. reflexivity. Qed.

Lemma override_then_highest_priority_witness :
  ∃ o, o ∈ sc_Overrides demo_schedule ∧ ov_StartTime o < demo_moment < ov_EndTime o.
Proof.
  pose proof (override_then_highest_priority (@demo_sort) no_locations 3 demo_schedule demo_moment (Some demo_entry)
    demo_sorts demo_on_call) as H. cbv zeta in H. destruct H as [H|H].
  - destruct H as (b & o' & a & Hl & Hr & H'). exists o'. rewrite Hl. split; [set_solver|exact Hr].
  - destruct H as [Hno _]. exfalso. apply (Hno demo_override); [apply list_elem_of_here|by vm_compute].
Defined.

Lemma calendar_agrees_with_the_rotation_witness :
  ∃ es, generateLayerCalendar 10 demo_layer nine (nine + 60 * Hour) UTC = Some (Ok es) ∧ tiles nine (nine + 60 * Hour) es.
Proof.
  assert (Hf : first_handoff 10 demo_layer UTC = Some nine) by (vm_compute; reflexivity).
  assert (Hs : l_StartDate demo_layer ≤ nine ∧ nine - shift_of demo_layer ≤ nine ∧ nine < nine + 60 * Hour ∧
    nine + 60 * Hour - nine ≤ int64_max) by (vm_compute; repeat split; discriminate).
  assert (Hn : (Z.to_nat ((nine + 60 * Hour - nine) / shift_of demo_layer) + 3 ≤ 10)%nat) by (vm_compute; lia).
  destruct Hs as (H1 & H2 & H3 & H4).
  destruct (calendar_agrees_with_the_rotation demo_layer UTC nine 10 nine (nine + 60 * Hour) demo_valid
    Hf eq_refl eq_refl H1 H2 H3 H4 Hn) as (es & He & Ht & _).
  exists es. split; [exact He|exact Ht].
Defined.

(** ** What the calculator does otherwise *)

(** A handoff day that is no day of the week is searched for ever. *)
Lemma no_such_handoff_day_hangs fuel l loc :
  l_RotationType l = "weekly" → ¬ (0 ≤ l_HandoffDay l < 7) → first_handoff fuel l loc = None.
Proof.
  intros Hw Hd. unfold first_handoff. destruct (parseTime _) as [h m]. rewrite Hw. cbn [String.eqb].
  assert (Ha : ∀ n t, align_day n loc (l_HandoffDay l) t = None).
  { induction n as [|n IH]; intros t; [done|]. cbn [align_day]. pose proof (Weekday_range loc t).
    destruct (Z.eqb_spec (Weekday loc t) (l_HandoffDay l)); [lia|apply IH]. }
  by rewrite Ha.
Qed.

(** So does a negative shift that has to reach the start date. *)
Lemma negative_shift_hangs fuel d start t : d < 0 → t < start → reach fuel d start t = None.
Proof.
  intros Hd. revert t. induction fuel as [|n IH]; intros t Ht; [done|]. cbn [reach]. unfold Before.
  replace (t <? start) with true by lia. apply IH. lia.
Qed.

(** Before its first handoff a layer has one shift only: with shifts of twelve hours from 18:00,
    the layer starts at midnight, and its calendar at six. *)
Lemma early_range_has_a_gap :
  let l := mkLayer "l" "half" 1 "custom" "18:00" 0 (12 * Hour) (from_Unix 0) None [demo_user "ann"] [] in
  isLayerActive l (from_Unix 0) UTC = true ∧
  ∃ es, generateLayerCalendar 10 l (from_Unix 0) (from_Unix 0 + 24 * Hour) UTC = Some (Ok es) ∧
    e_StartTime <$> head es = Some (from_Unix 0 + 6 * Hour).
Proof. split; [vm_compute; reflexivity|]. eexists. split; [vm_compute; reflexivity|reflexivity]. Qed.

(** An override has not begun at its own start. *)
Lemma override_excludes_its_start o : override_active (ov_StartTime o) o = false.
Proof. unfold override_active, After. by rewrite Z.ltb_irrefl. Qed.

(** An override of an hour removes the whole shift around it from the calendar, where the
    user is still the one on call. *)
Lemma calendar_loses_the_shift_around_an_override :
  generateCalendar (@demo_sort) no_locations 10 demo_schedule nine (nine + 24 * Hour) =
    Some (Ok [mkOnCallEntry (mkUser "eve" "Eve" "" "") (nine + Hour) (nine + 2 * Hour) "" "" true]) ∧
  ∃ e, getOnCallAt (@demo_sort) no_locations 10 demo_schedule (nine + 5 * Hour) = Some (Ok (Some e)) ∧
    e_User e = demo_user "ann".
Proof. vm_compute. split; [done|]. eexists. split; reflexivity. Qed.

(** Restrictions are looked at when a shift begins only: a layer active from ten to twelve
    is in no calendar of shifts that begin at nine. *)
Lemma calendar_ignores_restrictions_within_a_shift :
  let l := mkLayer "l" "late" 1 "daily" "09:00" 0 0 (from_Unix 0) None [demo_user "ann"]
             [mkRestriction "daily" "10:00" "12:00" 0 0] in
  generateLayerCalendar 10 l nine (nine + 48 * Hour) UTC = Some (Ok []) ∧
  isLayerActive l (nine + 2 * Hour) UTC = true.
Proof. vm_compute. done. Qed.

(** Shifts are 24 hours of time and not days of a calendar: after a change of the clock the
    handoff is an hour off. *)
Definition summer : Location := λ s,
  if s <? 5 * 86400 then mkZone 3600 (- 2 ^ 63) (5 * 86400) else mkZone 7200 (5 * 86400) (2 ^ 63 - 1).

Lemma handoff_drifts_with_the_clock :
  ∃ u1 s1 e1 u2 s2 e2,
    getUserOnCall 3 demo_layer (from_Unix 100000) summer = Some (Ok (Some (u1, s1, e1))) ∧
    getUserOnCall 3 demo_layer (from_Unix 864000) summer = Some (Ok (Some (u2, s2, e2))) ∧
    local_minutes summer s1 = 9 * 60 ∧ local_minutes summer s2 = 10 * 60.
Proof.
  do 6 eexists. split; [vm_compute; reflexivity|]. split; [vm_compute; reflexivity|].
  split; vm_compute; reflexivity.
Qed.
