(* ===== verification/Tokens.v ===== *)
(** The tokens of WatchQL (internal/query/lexer.go): their types, numbered as the
    Go constants are, the keyword table and the names used in error messages. *)

From Stdlib Require Import String.
From stdpp Require Import base option list gmap strings countable pretty.
From S2P Require Import Prelude.

Inductive TokenType : Type :=
  | TokenEOF | TokenError | TokenIdent | TokenString | TokenNumber | TokenDuration
  | TokenRegex | TokenPipe | TokenDot | TokenComma | TokenLParen | TokenRParen | TokenLBracket
  | TokenRBracket | TokenEq | TokenNeq | TokenLt | TokenLte | TokenGt | TokenGte | TokenPlus
  | TokenMinus | TokenStar | TokenSlash | TokenPercent | TokenTilde | TokenPlusMinus
  | TokenMetrics | TokenLogs | TokenTraces | TokenEvents | TokenWhere | TokenSelect | TokenAs
  | TokenBy | TokenAnd | TokenOr | TokenNot | TokenIn | TokenLike | TokenMatches
  | TokenBetween | TokenLast | TokenOrder | TokenAsc | TokenDesc | TokenLimit | TokenOffset
  | TokenTop | TokenWindow | TokenTumbling | TokenSliding | TokenSession | TokenCorrelate
  | TokenOn | TokenTime | TokenAnomalies | TokenAlgorithm | TokenSensitivity | TokenExtract
  | TokenPattern | TokenAuto | TokenHistogram | TokenBuckets | TokenDefine | TokenTrue
  | TokenFalse | TokenNull | TokenShift | TokenCompare | TokenBaseline | TokenDistinct
  | TokenCount | TokenSum | TokenAvg | TokenMin | TokenMax | TokenP50 | TokenP90 | TokenP95
  | TokenP99 | TokenFrom | TokenJoin | TokenInner | TokenLeft | TokenRight | TokenFull
  | TokenOuter | TokenGroup | TokenHaving.

(** The values of the Go constants. *)
Definition token_code (t : TokenType) : nat :=
  match t with
  | TokenEOF => 0 | TokenError => 1 | TokenIdent => 2 | TokenString => 3 | TokenNumber => 4
  | TokenDuration => 5 | TokenRegex => 6 | TokenPipe => 7 | TokenDot => 8 | TokenComma => 9
  | TokenLParen => 10 | TokenRParen => 11 | TokenLBracket => 12 | TokenRBracket => 13
  | TokenEq => 14 | TokenNeq => 15 | TokenLt => 16 | TokenLte => 17 | TokenGt => 18
  | TokenGte => 19 | TokenPlus => 20 | TokenMinus => 21 | TokenStar => 22 | TokenSlash => 23
  | TokenPercent => 24 | TokenTilde => 25 | TokenPlusMinus => 26 | TokenMetrics => 27
  | TokenLogs => 28 | TokenTraces => 29 | TokenEvents => 30 | TokenWhere => 31
  | TokenSelect => 32 | TokenAs => 33 | TokenBy => 34 | TokenAnd => 35 | TokenOr => 36
  | TokenNot => 37 | TokenIn => 38 | TokenLike => 39 | TokenMatches => 40 | TokenBetween => 41
  | TokenLast => 42 | TokenOrder => 43 | TokenAsc => 44 | TokenDesc => 45 | TokenLimit => 46
  | TokenOffset => 47 | TokenTop => 48 | TokenWindow => 49 | TokenTumbling => 50
  | TokenSliding => 51 | TokenSession => 52 | TokenCorrelate => 53 | TokenOn => 54
  | TokenTime => 55 | TokenAnomalies => 56 | TokenAlgorithm => 57 | TokenSensitivity => 58
  | TokenExtract => 59 | TokenPattern => 60 | TokenAuto => 61 | TokenHistogram => 62
  | TokenBuckets => 63 | TokenDefine => 64 | TokenTrue => 65 | TokenFalse => 66
  | TokenNull => 67 | TokenShift => 68 | TokenCompare => 69 | TokenBaseline => 70
  | TokenDistinct => 71 | TokenCount => 72 | TokenSum => 73 | TokenAvg => 74 | TokenMin => 75
  | TokenMax => 76 | TokenP50 => 77 | TokenP90 => 78 | TokenP95 => 79 | TokenP99 => 80
  | TokenFrom => 81 | TokenJoin => 82 | TokenInner => 83 | TokenLeft => 84 | TokenRight => 85
  | TokenFull => 86 | TokenOuter => 87 | TokenGroup => 88 | TokenHaving => 89
  end.

Definition all_tokens : list TokenType :=
  [TokenEOF; TokenError; TokenIdent; TokenString; TokenNumber; TokenDuration; TokenRegex;
   TokenPipe; TokenDot; TokenComma; TokenLParen; TokenRParen; TokenLBracket; TokenRBracket;
   TokenEq; TokenNeq; TokenLt; TokenLte; TokenGt; TokenGte; TokenPlus; TokenMinus; TokenStar;
   TokenSlash; TokenPercent; TokenTilde; TokenPlusMinus; TokenMetrics; TokenLogs; TokenTraces;
   TokenEvents; TokenWhere; TokenSelect; TokenAs; TokenBy; TokenAnd; TokenOr; TokenNot;
   TokenIn; TokenLike; TokenMatches; TokenBetween; TokenLast; TokenOrder; TokenAsc; TokenDesc;
   TokenLimit; TokenOffset; TokenTop; TokenWindow; TokenTumbling; TokenSliding; TokenSession;
   TokenCorrelate; TokenOn; TokenTime; TokenAnomalies; TokenAlgorithm; TokenSensitivity;
   TokenExtract; TokenPattern; TokenAuto; TokenHistogram; TokenBuckets; TokenDefine;
   TokenTrue; TokenFalse; TokenNull; TokenShift; TokenCompare; TokenBaseline; TokenDistinct;
   TokenCount; TokenSum; TokenAvg; TokenMin; TokenMax; TokenP50; TokenP90; TokenP95; TokenP99;
   TokenFrom; TokenJoin; TokenInner; TokenLeft; TokenRight; TokenFull; TokenOuter; TokenGroup;
   TokenHaving].

Lemma token_code_inv t : nth (token_code t) all_tokens TokenEOF = t.
Proof. by destruct t. Qed.

#[global] Instance token_code_inj : Inj (=) (=) token_code.
Proof. intros t u H. by rewrite <- (token_code_inv t), H, token_code_inv. Qed.

#[global] Instance TokenType_eq_dec : EqDecision TokenType :=
  λ t u, match decide (token_code t = token_code u) with
         | left H => left (token_code_inj t u H)
         | right H => right (λ E, H (f_equal token_code E))
         end.

Definition keyword_list : list (string * TokenType) :=
  [("metrics", TokenMetrics); ("logs", TokenLogs); ("traces", TokenTraces);
   ("events", TokenEvents); ("where", TokenWhere); ("select", TokenSelect); ("as", TokenAs);
   ("by", TokenBy); ("and", TokenAnd); ("or", TokenOr); ("not", TokenNot); ("in", TokenIn);
   ("like", TokenLike); ("matches", TokenMatches); ("between", TokenBetween);
   ("last", TokenLast); ("order", TokenOrder); ("asc", TokenAsc); ("desc", TokenDesc);
   ("limit", TokenLimit); ("offset", TokenOffset); ("top", TokenTop); ("window", TokenWindow);
   ("tumbling", TokenTumbling); ("sliding", TokenSliding); ("session", TokenSession);
   ("correlate", TokenCorrelate); ("on", TokenOn); ("time", TokenTime);
   ("anomalies", TokenAnomalies); ("algorithm", TokenAlgorithm);
   ("sensitivity", TokenSensitivity); ("extract", TokenExtract); ("pattern", TokenPattern);
   ("auto", TokenAuto); ("histogram", TokenHistogram); ("buckets", TokenBuckets);
   ("define", TokenDefine); ("true", TokenTrue); ("false", TokenFalse); ("null", TokenNull);
   ("shift", TokenShift); ("compare", TokenCompare); ("baseline", TokenBaseline);
   ("distinct", TokenDistinct); ("count", TokenCount); ("sum", TokenSum); ("avg", TokenAvg);
   ("min", TokenMin); ("max", TokenMax); ("p50", TokenP50); ("p90", TokenP90);
   ("p95", TokenP95); ("p99", TokenP99); ("from", TokenFrom); ("join", TokenJoin);
   ("inner", TokenInner); ("left", TokenLeft); ("right", TokenRight); ("full", TokenFull);
   ("outer", TokenOuter); ("group", TokenGroup); ("having", TokenHaving)].

Definition keywords : gmap string TokenType := list_to_map keyword_list.

Lemma keywords_listed w t : keywords !! w = Some t → (w, t) ∈ keyword_list.
Proof. apply elem_of_list_to_map_2. Qed.

(** A property of every entry of the table, checked by evaluation. *)
Lemma keywords_all (P : string * TokenType → bool) w t :
  forallb P keyword_list = true → keywords !! w = Some t → P (w, t) = true.
Proof. intros H Hw%keywords_listed%list_elem_of_In. by apply (proj1 (forallb_forall P _) H). Qed.

Definition token_names (t : TokenType) : option string :=
  match t with
  | TokenEOF => Some "end of input" | TokenError => Some "error"
  | TokenIdent => Some "identifier" | TokenString => Some "string"
  | TokenNumber => Some "number" | TokenDuration => Some "duration"
  | TokenRegex => Some "regex" | TokenPipe => Some "'|'" | TokenDot => Some "'.'"
  | TokenComma => Some "','" | TokenLParen => Some "'('" | TokenRParen => Some "')'"
  | TokenLBracket => Some "'['" | TokenRBracket => Some "']'" | TokenEq => Some "'='"
  | TokenNeq => Some "'!='" | TokenLt => Some "'<'" | TokenLte => Some "'<='"
  | TokenGt => Some "'>'" | TokenGte => Some "'>='" | TokenPlus => Some "'+'"
  | TokenMinus => Some "'-'" | TokenStar => Some "'*'" | TokenSlash => Some "'/'"
  | TokenPercent => Some "'%'" | TokenMetrics => Some "'metrics'" | TokenLogs => Some "'logs'"
  | TokenTraces => Some "'traces'" | TokenEvents => Some "'events'"
  | TokenWhere => Some "'where'" | TokenSelect => Some "'select'" | TokenAs => Some "'as'"
  | TokenBy => Some "'by'" | TokenAnd => Some "'and'" | TokenOr => Some "'or'"
  | TokenNot => Some "'not'" | TokenIn => Some "'in'" | TokenLike => Some "'like'"
  | TokenMatches => Some "'matches'" | TokenBetween => Some "'between'"
  | TokenLast => Some "'last'" | TokenOrder => Some "'order'" | TokenAsc => Some "'asc'"
  | TokenDesc => Some "'desc'" | TokenLimit => Some "'limit'" | TokenOffset => Some "'offset'"
  | TokenTop => Some "'top'" | TokenWindow => Some "'window'"
  | TokenCorrelate => Some "'correlate'" | TokenOn => Some "'on'" | TokenTime => Some "'time'"
  | TokenAnomalies => Some "'anomalies'" | TokenExtract => Some "'extract'"
  | TokenHistogram => Some "'histogram'" | TokenDefine => Some "'define'"
  | TokenTrue => Some "'true'" | TokenFalse => Some "'false'" | TokenNull => Some "'null'"
  | TokenFrom => Some "'from'" | TokenJoin => Some "'join'" | TokenInner => Some "'inner'"
  | TokenLeft => Some "'left'" | TokenRight => Some "'right'" | TokenFull => Some "'full'"
  | TokenOuter => Some "'outer'" | TokenGroup => Some "'group'"
  | TokenHaving => Some "'having'"
  | _ => None
  end.

(** [%d] of a token type prints its number. *)
Definition TokenName (t : TokenType) : string :=
  match token_names t with
  | Some name => name
  | None => "token(" +:+ pretty (Z.of_nat (token_code t)) +:+ ")"
  end.
