(* ===== verification/Lexer.v ===== *)
(** The lexer of WatchQL (internal/query/lexer.go): every scanning function with its
    loops, the token stream, and what its tokens say of the input. *)

From Stdlib Require Import String Ascii.
From stdpp Require Import base option list gmap strings pretty.
From S2P Require Import Prelude Chars Tokens.

#[local] Open Scope char_scope.

(** ** Data *)

Record Position := mkPosition { Line : Z; Column : Z; Offset : nat }.

Definition Position_String (p : Position) : string :=
  ("line " +:+ pretty (Line p) +:+ ", column " +:+ pretty (Column p))%string.

Record Token := mkToken { Type_ : TokenType; Value : string; Pos : Position }.

Record Lexer := mkLexer {
  input : text;
  pos : nat;
  line : Z;
  col : Z;
  start : nat;
  tokens : list Token;
}.

Definition NewLexer (s : string) : Lexer := mkLexer (list_ascii_of_string s) 0 1 1 0 [].

Definition move (p : nat) (ln cl : Z) (l : Lexer) : Lexer :=
  mkLexer (input l) p ln cl (start l) (tokens l).
Definition mark_start (l : Lexer) : Lexer :=
  mkLexer (input l) (pos l) (line l) (col l) (pos l) (tokens l).
Definition push_token (tok : Token) (l : Lexer) : Lexer :=
  mkLexer (input l) (pos l) (line l) (col l) (start l) (tokens l ++ [tok]).

(** ** Reading the input *)

Definition at_end (l : Lexer) : bool := (length (input l) <=? pos l)%nat.
Definition peek (l : Lexer) : ascii := default Ascii.zero (input l !! pos l).
Definition peekPrev (l : Lexer) : ascii :=
  if (pos l =? 0)%nat then Ascii.zero else default Ascii.zero (input l !! (pos l - 1)%nat).
Definition advance (l : Lexer) : Lexer :=
  if (pos l <? length (input l))%nat
  then move (pos l + rune_size (drop (pos l) (input l))) (line l) (col l + 1) l
  else l.
Definition position (l : Lexer) : Position := mkPosition (line l) (col l) (start l).
(** [l.input[a:b]] *)
Definition slice (l : Lexer) (a b : nat) : text := take (b - a) (drop a (input l)).

(** A [for] loop: the body until it leaves; the fuel is the number of bytes. *)
Fixpoint loop {A : Type} (fuel : nat) (body : A → option A) (a : A) : A :=
  match fuel with
  | O => a
  | S fuel => match body a with None => a | Some a' => loop fuel body a' end
  end.
Definition run {A : Type} (lex : A → Lexer) (body : A → option A) (a : A) : A :=
  loop (S (length (input (lex a)))) body a.

(** ** Blanks and comments *)

Definition comment_body (l : Lexer) : option Lexer :=
  if at_end l then None else if Ascii.eqb (peek l) "010" then None else Some (advance l).

Definition blank_body (l : Lexer) : option Lexer :=
  if at_end l then None
  else
    let ch := peek l in
    if Ascii.eqb ch " " || Ascii.eqb ch "009" || Ascii.eqb ch "013" then Some (advance l)
    else if Ascii.eqb ch "010" then
      let l1 := advance l in Some (move (pos l1) (line l1 + 1) 1 l1)
    else if Ascii.eqb ch "-" && bool_decide (input l !! S (pos l) = Some "-")
    then Some (run id comment_body l)
    else None.

Definition skipWhitespace (l : Lexer) : Lexer := run id blank_body l.

(** ** Scanning *)

Definition ident_char (ch : ascii) : bool := IsLetter ch || IsDigit ch || Ascii.eqb ch "_".

Definition ident_body (l : Lexer) : option Lexer :=
  if at_end l then None else if negb (ident_char (peek l)) then None else Some (advance l).

Definition scanIdentifier (l : Lexer) : Token * Lexer :=
  let p := position l in
  let l1 := run id ident_body l in
  let value := slice l1 (pos l) (pos l1) in
  let lw := string_of_list_ascii (ToLower_words value) in
  match keywords !! lw with
  | Some tokType => (mkToken tokType lw p, l1)
  | None => (mkToken TokenIdent (string_of_list_ascii value) p, l1)
  end.

(** The state of the loop is [hasDot] and the lexer. *)
Definition number_body (st : bool * Lexer) : option (bool * Lexer) :=
  let '(hasDot, l) := st in
  if at_end l then None
  else
    let ch := peek l in
    if Ascii.eqb ch "." && negb hasDot then Some (true, advance l)
    else if negb (IsDigit ch) then None
    else Some (hasDot, advance l).

(** The letters at the front of a text. *)
Fixpoint letters (s : text) : text :=
  match s with
  | [] => []
  | c :: s => if negb (IsLetter c) then [] else c :: letters s
  end.
Definition peekWord (l : Lexer) : text := letters (drop (pos l) (input l)).

Definition durations : list text :=
  [["n"; "s"]; ["u"; "s"]; ["194"; "181"; "s"]; ["m"; "s"]; ["s"]; ["m"]; ["h"]; ["d"]; ["w"]].
Definition isDurationSuffix (s : text) : bool := bool_decide (ToLower_words s ∈ durations).

Definition scanNumber (negative : bool) (l : Lexer) : Token * Lexer :=
  let p := position l in
  let st := if negative then (pos l - 1)%nat else pos l in
  let l1 := (run snd number_body (false, l)).2 in
  let suffix := peekWord l1 in
  if negb (at_end l1) && isDurationSuffix suffix then
    let l2 := move (pos l1 + length suffix) (line l1) (col l1) l1 in
    (mkToken TokenDuration (string_of_list_ascii (slice l2 st (pos l2))) p, l2)
  else (mkToken TokenNumber (string_of_list_ascii (slice l1 st (pos l1))) p, l1).

(** The loop of [scanString] and of [scanRegex], up to the closing character. *)
Definition quoted_body (quote : ascii) (l : Lexer) : option Lexer :=
  if at_end l then None
  else
    let ch := peek l in
    if Ascii.eqb ch quote then None
    else Some (advance (if Ascii.eqb ch "\" then advance l else l)).

Definition scanQuoted (quote : ascii) (ty : TokenType) (err : string) (p : Position) (l : Lexer)
    : Token * Lexer :=
  let l1 := run id (quoted_body quote) l in
  if at_end l1 then (mkToken TokenError err p, l1)
  else (mkToken ty (string_of_list_ascii (slice l1 (pos l) (pos l1))) p, advance l1).

Definition scanString (quote : ascii) (l : Lexer) : Token * Lexer :=
  let p := position l in scanQuoted quote TokenString "unterminated string" p (advance l).

Definition scanRegex (l : Lexer) : Token * Lexer :=
  let p := position l in scanQuoted "/" TokenRegex "unterminated regex" p l.

(** ** Tokens *)

(** The cases of the switch that only consume their character; the constant of the
    last one is the byte 0xB1. *)
Definition single_char (ch : ascii) : option (TokenType * string) :=
  if Ascii.eqb ch "|" then Some (TokenPipe, "|"%string)
  else if Ascii.eqb ch "." then Some (TokenDot, "."%string)
  else if Ascii.eqb ch "," then Some (TokenComma, ","%string)
  else if Ascii.eqb ch "(" then Some (TokenLParen, "("%string)
  else if Ascii.eqb ch ")" then Some (TokenRParen, ")"%string)
  else if Ascii.eqb ch "[" then Some (TokenLBracket, "["%string)
  else if Ascii.eqb ch "]" then Some (TokenRBracket, "]"%string)
  else if Ascii.eqb ch "+" then Some (TokenPlus, "+"%string)
  else if Ascii.eqb ch "*" then Some (TokenStar, "*"%string)
  else if Ascii.eqb ch "%" then Some (TokenPercent, "%"%string)
  else if Ascii.eqb ch "~" then Some (TokenTilde, "~"%string)
  else if Ascii.eqb ch "177" then Some (TokenPlusMinus, String "194" (String "177" ""))
  else if Ascii.eqb ch "=" then Some (TokenEq, "="%string)
  else None.

Definition emit (ty : TokenType) (v : string) (l : Lexer) : Token * Lexer :=
  (mkToken ty v (position l), l).

(** [l.tokens[len(l.tokens)-1].Type == TokenMatches], which panics on no tokens. *)
Definition after_matches (l : Lexer) : result bool :=
  match last (tokens l) with
  | Some tok => Ok (bool_decide (Type_ tok = TokenMatches))
  | None => Panic "index out of range [-1]"
  end.

Definition slash (l : Lexer) : result (Token * Lexer) :=
  let l1 := advance l in
  let! regex := if Ascii.eqb (peekPrev l1) "~" || (start l1 =? 0)%nat then Ok true
                else after_matches l1 in
  Ok (if (regex : bool) then scanRegex l1 else emit TokenSlash "/" l1).

(** The switch of [nextToken], with the character at the cursor. *)
Definition scan_token (ch : ascii) (l : Lexer) : result (Token * Lexer) :=
  let l1 := advance l in
  match single_char ch with
  | Some (ty, v) => Ok (emit ty v l1)
  | None =>
      if Ascii.eqb ch "-" then
        Ok (if negb (at_end l1) && IsDigit (peek l1) then scanNumber true l1
            else emit TokenMinus "-" l1)
      else if Ascii.eqb ch "/" then slash l
      else if Ascii.eqb ch "!" then
        Ok (if Ascii.eqb (peek l1) "=" then emit TokenNeq "!=" (advance l1)
            else emit TokenError "unexpected character '!'" l1)
      else if Ascii.eqb ch "<" then
        Ok (if Ascii.eqb (peek l1) "=" then emit TokenLte "<=" (advance l1) else emit TokenLt "<" l1)
      else if Ascii.eqb ch ">" then
        Ok (if Ascii.eqb (peek l1) "=" then emit TokenGte ">=" (advance l1) else emit TokenGt ">" l1)
      else if Ascii.eqb ch "034" || Ascii.eqb ch "'" then Ok (scanString ch l)
      else if IsDigit ch then Ok (scanNumber false l)
      else if IsLetter ch || Ascii.eqb ch "_" then Ok (scanIdentifier l)
      else Ok (emit TokenError ("unexpected character '" +:+ print_rune ch +:+ "'")%string l1)
  end.

Definition nextToken (l0 : Lexer) : result (Token * Lexer) :=
  let l := mark_start (skipWhitespace l0) in
  if at_end l then Ok (emit TokenEOF "" l) else scan_token (peek l) l.

(** The tokens and the error; [None] when the fuel runs out. *)
Fixpoint tokenize (fuel : nat) (l : Lexer) : option (result (list Token * option string)) :=
  match fuel with
  | O => None
  | S fuel =>
      match nextToken l with
      | Panic w => Some (Panic w)
      | Err e => Some (Err e)
      | Ok (tok, l1) =>
          let l2 := push_token tok l1 in
          if bool_decide (Type_ tok = TokenEOF) then Some (Ok (tokens l2, None))
          else if bool_decide (Type_ tok = TokenError) then
            Some (Ok (tokens l2, Some ("lexer error at " +:+ Position_String (Pos tok) +:+ ": " +:+ Value tok)%string))
          else tokenize fuel l2
      end
  end.

(** Each token but the last consumes a byte. *)
Definition Tokenize (l : Lexer) : option (result (list Token * option string)) :=
  tokenize (S (length (input l))) l.

Definition kinds (r : option (result (list Token * option string)))
    : option (result (list (TokenType * string) * option string)) :=
  match r with
  | Some (Ok (toks, e)) => Some (Ok ((λ t, (Type_ t, Value t)) <$> toks, e))
  | Some (Err e) => Some (Err e)
  | Some (Panic w) => Some (Panic w)
  | None => None
  end.

(** ** The cursor *)

Definition rest (l : Lexer) : text := drop (pos l) (input l).

(** From [l] to [l'] the text [s] was read. *)
Definition consumed (l l' : Lexer) (s : text) : Prop :=
  input l' = input l ∧ tokens l' = tokens l ∧ start l' = start l ∧
  pos l' = (pos l + length s)%nat ∧ rest l = s ++ rest l'.

Lemma consumed_refl l : consumed l l [].
Proof. unfold consumed. cbn. split_and!; [done..|lia|done]. Qed.

Lemma consumed_trans l l1 l2 s s' :
  consumed l l1 s → consumed l1 l2 s' → consumed l l2 (s ++ s').
Proof.
  intros (? & ? & ? & ? & ?) (? & ? & ? & ? & ?). unfold consumed.
  rewrite length_app, <- app_assoc. split_and!; [congruence..|lia|congruence].
Qed.

Lemma consumed_rest l l' s t : consumed l l' s → rest l = s ++ t → rest l' = t.
Proof. intros (_ & _ & _ & _ & H) E. rewrite E in H. by apply app_inv_head in H. Qed.

Lemma at_end_rest l : at_end l = true ↔ rest l = [].
Proof.
  unfold at_end, rest. rewrite Nat.leb_le. split; [apply drop_ge|].
  intros H%(f_equal length). rewrite length_drop in H. cbn in H. lia.
Qed.

Lemma not_at_end l c t : rest l = c :: t → at_end l = false ∧ peek l = c.
Proof.
  intros H. split.
  - apply not_true_iff_false. rewrite at_end_rest, H. done.
  - unfold peek, rest in *.
    by rewrite <- (Nat.add_0_r (pos l)), <- lookup_drop, H.
Qed.

Lemma more_input l : at_end l = false → ∃ t, rest l = peek l :: t.
Proof.
  intros H. destruct (rest l) as [|c t] eqn:E.
  - apply at_end_rest in E. congruence.
  - destruct (not_at_end l c t E) as [_ <-]. by exists t.
Qed.

Lemma peek_starts l P : P Ascii.zero = false → P (peek l) = starts P (rest l).
Proof.
  intros HP. destruct (rest l) as [|c t] eqn:E.
  - apply at_end_rest in E. unfold at_end, peek in *. apply Nat.leb_le in E.
    by rewrite lookup_ge_None_2.
  - destruct (not_at_end l c t E) as [_ ->]. done.
Qed.

Lemma slice_consumed l l' s : consumed l l' s → slice l' (pos l) (pos l') = s.
Proof.
  intros (Hi & _ & _ & Hp & Hr). unfold slice. rewrite Hi, Hp. unfold rest in Hr at 1.
  rewrite Hr. rewrite Nat.add_comm, Nat.add_sub. by rewrite take_app_length.
Qed.

Lemma consumed_move l p ln cl s t :
  rest l = s ++ t → p = (pos l + length s)%nat → consumed l (move p ln cl l) s.
Proof.
  intros Hr ->. unfold consumed. cbn. split_and!; [done..|]. unfold rest in *. cbn.
  by rewrite <- drop_drop, Hr, drop_app_length.
Qed.

Lemma consumed_set_line l l' s ln cl :
  consumed l l' s → consumed l (move (pos l') ln cl l') s.
Proof. intros (? & ? & ? & ? & ?). unfold consumed. by cbn. Qed.

(** One rune. *)
Lemma advance_rune l c r t :
  rest l = c :: r ++ t → rune_size (c :: r ++ t) = S (length r) →
  consumed l (advance l) (c :: r).
Proof.
  intros Hr Hs. destruct (not_at_end _ _ _ Hr) as [He _]. unfold advance, at_end in *.
  apply Nat.leb_gt, Nat.ltb_lt in He. rewrite He. fold (rest l). rewrite Hr, Hs.
  by apply (consumed_move l _ _ _ (c :: r) t).
Qed.

Lemma advance_ascii l c t : rest l = c :: t → is_ascii c = true → consumed l (advance l) [c].
Proof. intros Hr Hc. apply (advance_rune l c [] t Hr). by apply rune_size_ascii. Qed.

(** The rune at the cursor, cut from the rest. *)
Lemma cut_rune c t : ∃ r u, t = r ++ u ∧ rune_size (c :: r ++ u) = S (length r).
Proof.
  pose proof (rune_size_pos c t). pose proof (rune_size_le (c :: t)) as Hle. cbn [length] in Hle.
  exists (take (rune_size (c :: t) - 1) t), (drop (rune_size (c :: t) - 1) t).
  rewrite take_drop, length_take. split; [done|lia].
Qed.

Lemma advance_end l : rest l = [] → advance l = l.
Proof.
  intros He%at_end_rest. unfold advance, at_end in *. apply Nat.leb_le in He.
  destruct (Nat.ltb_spec (pos l) (length (input l))); [lia|done].
Qed.

(** ** Loops

    [R a s a'] says that the body, iterated from [a], reads [s] and arrives at [a']. *)
Section loops.
Context {A : Type} (lex : A → Lexer) (body : A → option A) (R : A → text → A → Prop).
Hypothesis R_nil : ∀ a, R a [] a.
Hypothesis R_step : ∀ a a', body a = Some a' →
  ∃ r, r ≠ [] ∧ consumed (lex a) (lex a') r ∧
    ∀ s a'', consumed (lex a') (lex a'') s → R a' s a'' → R a (r ++ s) a''.

Lemma loop_spec fuel a :
  (length (rest (lex a)) < fuel)%nat →
  ∃ s, consumed (lex a) (lex (loop fuel body a)) s ∧ R a s (loop fuel body a) ∧
    body (loop fuel body a) = None.
Proof.
  revert a. induction fuel as [|fuel IH]; intros a Hf; [lia|]. cbn.
  destruct (body a) as [a'|] eqn:E; [|exists []; split_and!; [apply consumed_refl|apply R_nil|done]].
  destruct (R_step a a' E) as (r & Hr & Hc & HR).
  destruct (IH a') as (s & Hs & HRs & Hstop).
  { destruct Hc as (_ & _ & _ & _ & Hc). rewrite Hc, length_app in Hf. destruct r; cbn in *; [done|lia]. }
  exists (r ++ s). split_and!; [by eapply consumed_trans|by apply HR|done].
Qed.

Lemma run_spec a :
  ∃ s, consumed (lex a) (lex (run lex body a)) s ∧ R a s (run lex body a) ∧
    body (run lex body a) = None.
Proof. apply loop_spec. unfold rest. rewrite length_drop. lia. Qed.
End loops.

(** A loop that reads the runes whose first byte satisfies [P] reads exactly those. *)
Lemma rune_loop (P : ascii → bool) (body : Lexer → option Lexer) :
  (∀ l, body l = if at_end l then None else if P (peek l) then Some (advance l) else None) →
  ∀ l, ∃ s, consumed l (run id body l) s ∧ runes P s (rest (run id body l)) ∧
    starts P (rest (run id body l)) = false.
Proof.
  intros Hb l.
  destruct (run_spec id body (λ _ s l', runes P s (rest l'))) with (a := l) as (s & Hc & HR & Hstop).
  - intros a. constructor.
  - intros a a'. rewrite Hb. destruct (at_end a) eqn:He; [done|].
    destruct (P (peek a)) eqn:HP; [|done]. intros [= <-].
    destruct (more_input a He) as (u & Hu). destruct (cut_rune (peek a) u) as (r & v & -> & Hr).
    exists (peek a :: r). split; [done|]. pose proof (advance_rune a _ r v Hu Hr) as Hadv.
    split; [done|]. intros s l' (_ & _ & _ & _ & Hs) HR. unfold id in *. cbn [app]. constructor; [done| |done].
    rewrite <- Hs. by rewrite (consumed_rest _ _ _ _ Hadv Hu).
  - exists s. split_and!; [done..|]. cbn [id] in *. rewrite Hb in Hstop.
    destruct (at_end (run id body l)) eqn:He.
    + apply at_end_rest in He. by rewrite He.
    + destruct (more_input _ He) as (u & Hu). rewrite Hu. cbn. by destruct (P (peek _)).
Qed.

Lemma rune_loop_exact (P : ascii → bool) (body : Lexer → option Lexer) l s t :
  (∀ l, body l = if at_end l then None else if P (peek l) then Some (advance l) else None) →
  rest l = s ++ t → runes P s t → starts P t = false → consumed l (run id body l) s.
Proof.
  intros Hb Hr HR Ht. destruct (rune_loop P body Hb l) as (s' & Hc & HR' & Ht').
  pose proof Hc as (_ & _ & _ & _ & E). rewrite Hr in E.
  by rewrite (runes_unique P s t _ _ HR HR' Ht Ht' E).
Qed.

Definition not_newline (c : ascii) : bool := negb (Ascii.eqb c "010").

Lemma comment_body_eq l :
  comment_body l = if at_end l then None else if not_newline (peek l) then Some (advance l) else None.
Proof. unfold comment_body, not_newline. by destruct (at_end l), (Ascii.eqb (peek l) "010"). Qed.

Lemma ident_body_eq l :
  ident_body l = if at_end l then None else if ident_char (peek l) then Some (advance l) else None.
Proof. unfold ident_body. by destruct (at_end l), (ident_char (peek l)). Qed.

(** *** Blanks *)

Definition is_blank (c : ascii) : bool :=
  Ascii.eqb c " " || Ascii.eqb c "009" || Ascii.eqb c "013" || Ascii.eqb c "010".

(** What separates two tokens: blanks, and comments up to the end of their line. *)
Inductive gap : text → text → Prop :=
| gap_nil t : gap [] t
| gap_blank c s t : is_blank c = true → gap s t → gap (c :: s) t
| gap_comment w s t :
    runes not_newline ("-" :: "-" :: w) (s ++ t) → starts not_newline (s ++ t) = false →
    gap s t → gap ("-" :: "-" :: w ++ s) t.

(** [t] begins with neither. *)
Definition solid (t : text) : Prop := starts is_blank t = false ∧ take 2 t ≠ ["-"; "-"].

Lemma gap_unique s t s' t' : gap s t → gap s' t' → solid t → solid t' → s ++ t = s' ++ t' → s = s'.
Proof.
  intros H. revert s'. induction H as [t|c s t Hc H IH|w s t Hw Hnl H IH]; intros s' H' Ht Ht' E.
  - destruct H' as [|c s' t' Hc|w s' t' Hw]; [done| |]; cbn in E; subst t; destruct Ht as [Hb Hd];
      [|done]. cbn [starts] in Hb. congruence.
  - destruct H' as [|c' s' t' Hc' H'|w s' t' Hw Hnl H'].
    + cbn in E. destruct Ht' as [Hb _]. rewrite <- E in Hb. cbn [starts] in Hb. congruence.
    + injection E as <- E. f_equal. by apply IH.
    + injection E as -> E. done.
  - destruct H' as [|c' s' t' Hc' H'|w' s' t' Hw' Hnl' H'].
    + cbn in E. destruct Ht' as [_ Hd]. by rewrite <- E in Hd.
    + injection E as <- E. done.
    + assert ("-" :: "-" :: w = "-" :: "-" :: w') as [= <-].
      { apply (runes_unique _ _ _ _ _ Hw Hw' Hnl Hnl'). injection E as E. cbn.
        by rewrite !app_assoc, E. }
      do 2 f_equal. f_equal. apply IH; [done..|]. injection E as E.
      rewrite <- !app_assoc in E. by apply app_inv_head in E.
Qed.

Lemma blank_step l l' : blank_body l = Some l' →
  ∃ r, r ≠ [] ∧ consumed l l' r ∧
    ∀ s l'', consumed l' l'' s → gap s (rest l'') → gap (r ++ s) (rest l'').
Proof.
  unfold blank_body. destruct (at_end l) eqn:He; [done|].
  destruct (more_input l He) as (u & Hu). set (c := peek l) in *.
  assert (Hblank : is_blank c = true → ∃ r, r ≠ [] ∧ consumed l (advance l) r ∧
    ∀ s l'', consumed (advance l) l'' s → gap s (rest l'') → gap (r ++ s) (rest l'')).
  { intros Hc. exists [c]. split; [done|]. split; [|intros; by apply (gap_blank c)].
    apply (advance_ascii l c u Hu). clear -Hc. unfold is_blank in Hc.
    rewrite !orb_true_iff, !Ascii.eqb_eq in Hc. by destruct Hc as [[[->| ->]| ->]| ->]. }
  destruct (Ascii.eqb c " " || Ascii.eqb c "009" || Ascii.eqb c "013") eqn:Hc; [|].
  { intros [= <-]. apply Hblank. unfold is_blank. by rewrite Hc. }
  destruct (Ascii.eqb c "010") eqn:Hn.
  { intros [= <-]. destruct Hblank as (r & ? & Hr & Hg); [unfold is_blank; by rewrite Hc, Hn|].
    exists r. split_and!; [done|by apply consumed_set_line|]. intros s l'' Hs. apply Hg.
    destruct Hs as (? & ? & ? & ? & ?). by unfold consumed. }
  destruct (Ascii.eqb_spec c "-") as [Hd|]; [|done].
  destruct (bool_decide_reflect (input l !! S (pos l) = Some "-")) as [Hd2|]; [|done].
  intros [= <-]. assert (Hu2 : ∃ v, u = "-" :: v).
  { assert (rest l !! 1%nat = Some "-") as H1 by (unfold rest; rewrite lookup_drop, Nat.add_1_r; done).
    rewrite Hu in H1. destruct u as [|? v]; [done|]. injection H1 as ->. by exists v. }
  destruct Hu2 as (v & ->). rewrite Hd in Hu.
  destruct (rune_loop not_newline comment_body comment_body_eq l) as (w & Hw & HR & Hnl).
  pose proof Hw as (_ & _ & _ & _ & E). rewrite Hu in E.
  assert (∃ w', w = "-" :: "-" :: w') as (w' & ->).
  { assert (Hs : ∀ x y, rest (run id comment_body l) = x :: y → x = "010").
    { intros x y Hx. rewrite Hx in Hnl. cbn in Hnl. unfold not_newline in Hnl.
      by apply negb_false_iff, Ascii.eqb_eq in Hnl. }
    destruct w as [|c1 [|c2 w']]; cbn in E.
    - symmetry in E. by apply Hs in E.
    - injection E as <- E. symmetry in E. by apply Hs in E.
    - injection E as <- <- E. by exists w'. }
  exists ("-" :: "-" :: w'). split_and!; [done..|]. intros s l'' (_ & _ & _ & _ & Hs) Hg.
  cbn [app]. by apply gap_comment; rewrite <- ?Hs.
Qed.

Lemma skipWhitespace_spec l :
  ∃ g, consumed l (skipWhitespace l) g ∧ gap g (rest (skipWhitespace l)) ∧
    solid (rest (skipWhitespace l)).
Proof.
  destruct (run_spec id blank_body (λ _ s l', gap s (rest l'))) with (a := l) as (s & Hc & HR & Hstop).
  - intros. constructor.
  - exact blank_step.
  - exists s. split_and!; [done..|]. fold (skipWhitespace l) in *. cbn [id] in *.
    clear Hc HR. generalize dependent (skipWhitespace l). intros l1 Hstop. unfold blank_body in Hstop.
    destruct (at_end l1) eqn:He; [apply at_end_rest in He; by rewrite He|].
    destruct (more_input _ He) as (u & Hu). rewrite Hu.
    destruct (Ascii.eqb (peek l1) " " || Ascii.eqb (peek l1) "009" || Ascii.eqb (peek l1) "013")
      eqn:Hc1; [done|].
    destruct (Ascii.eqb (peek l1) "010") eqn:Hc2; [done|].
    split; [cbn [starts]; unfold is_blank; by rewrite Hc1, Hc2|].
    destruct u as [|d u]; [done|]. cbn. intros [= H1 H2]. rewrite H1 in Hstop. cbn in Hstop.
    rewrite bool_decide_true in Hstop; [discriminate Hstop|].
    assert (rest l1 !! 1%nat = Some d) as Hd by by rewrite Hu.
    unfold rest in Hd. rewrite lookup_drop, Nat.add_1_r in Hd. by rewrite Hd, H2.
Qed.

Lemma skipWhitespace_exact l g t :
  rest l = g ++ t → gap g t → solid t → consumed l (skipWhitespace l) g.
Proof.
  intros Hr Hg Ht. destruct (skipWhitespace_spec l) as (g' & Hc & Hg' & Ht').
  pose proof Hc as (_ & _ & _ & _ & E). rewrite Hr in E.
  by rewrite (gap_unique g t _ _ Hg Hg' Ht Ht' E).
Qed.

(** *** Quoted text *)

(** The inside of a string or regex closed by [q]: a backslash takes the next rune
    with it, whatever it is. *)
Inductive quoted (q : ascii) : text → text → Prop :=
| quoted_nil t : quoted q [] t
| quoted_plain c r s t :
    c ≠ q → c ≠ "\" → rune_size (c :: r ++ s ++ t) = S (length r) → quoted q s t →
    quoted q (c :: r ++ s) t
| quoted_escape c r s t :
    rune_size (c :: r ++ s ++ t) = S (length r) → quoted q s t →
    quoted q ("\" :: c :: r ++ s) t
| quoted_dangling : quoted q ["\"] [].

Definition closes (q : ascii) (t : text) : Prop := t = [] ∨ ∃ u, t = q :: u.

Lemma quoted_unique q s t s' t' :
  q ≠ "\" → quoted q s t → quoted q s' t' → closes q t → closes q t' →
  s ++ t = s' ++ t' → s = s'.
Proof.
  intros Hq H. revert s'.
  assert (Hcut : ∀ c r s t r' s' t', rune_size (c :: r ++ s ++ t) = S (length r) →
    rune_size (c :: r' ++ s' ++ t') = S (length r') → (r ++ s) ++ t = (r' ++ s') ++ t' →
    r = r' ∧ s ++ t = s' ++ t').
  { clear. intros c r s t r' s' t' Hr Hr' E. rewrite <- !app_assoc in E. rewrite E, Hr' in Hr.
    injection Hr as Hl. by apply app_inj_1 in E. }
  induction H as [t|c r s t H1 H2 Hr H IH|c r s t Hr H IH|];
    intros s' H' Ht Ht' E;
    destruct H' as [t'|c' r' s' t' H1' H2' Hr' H'|c' r' s' t' Hr' H'|]; cbn [app] in E; try done.
  - destruct Ht as [->|(u & ->)]; [done|]. injection E as -> E. done.
  - destruct Ht as [->|(u & ->)]; [done|]. injection E as E E'. done.
  - destruct Ht as [->|(u & ->)]; [done|]. injection E as E E'. done.
  - destruct Ht' as [->|(u & ->)]; [done|]. injection E as -> E. done.
  - injection E as <- E. destruct (Hcut _ _ _ _ _ _ _ Hr Hr' E) as [<- E']. do 2 f_equal. by apply IH.
  - injection E as -> E. done.
  - injection E as -> E. done.
  - destruct Ht' as [->|(u & ->)]; [done|]. injection E as E E'. done.
  - injection E as <- E. done.
  - injection E as <- E. destruct (Hcut _ _ _ _ _ _ _ Hr Hr' E) as [<- E']. do 3 f_equal. by apply IH.
  - destruct Ht' as [->|(u & ->)]; [done|]. injection E as E E'. done.
  - injection E as <- E. done.
Qed.

Lemma quoted_step q l l' : quoted_body q l = Some l' →
  ∃ r, r ≠ [] ∧ consumed l l' r ∧
    ∀ s l'', consumed l' l'' s → quoted q s (rest l'') → quoted q (r ++ s) (rest l'').
Proof.
  unfold quoted_body. destruct (at_end l) eqn:He; [done|].
  destruct (more_input l He) as (u & Hu). set (c := peek l) in *. clearbody c.
  destruct (Ascii.eqb_spec c q) as [|Hcq]; [done|].
  destruct (Ascii.eqb_spec c "\") as [->|Hcb]; intros [= <-].
  - pose proof (advance_ascii l _ u Hu eq_refl) as H1.
    pose proof (consumed_rest l _ ["\"] u H1 Hu) as Hu1.
    destruct u as [|d v].
    + exists ["\"]. rewrite (advance_end _ Hu1). split_and!; [done..|].
      intros s l'' (_ & _ & _ & _ & Hs) _. rewrite Hu1 in Hs. symmetry in Hs.
      apply app_nil in Hs as [-> ->]. apply quoted_dangling.
    + destruct (cut_rune d v) as (r & w & -> & Hr).
      pose proof (advance_rune _ _ r w Hu1 Hr) as H2.
      exists (["\"] ++ d :: r). split_and!; [done|by eapply consumed_trans|].
      intros s l'' (_ & _ & _ & _ & Hs) HR. cbn [app]. constructor; [|done].
      rewrite <- Hs. by rewrite (consumed_rest _ _ _ _ H2 Hu1).
  - destruct (cut_rune c u) as (r & w & -> & Hr).
    pose proof (advance_rune _ _ r w Hu Hr) as H2.
    exists (c :: r). split_and!; [done..|].
    intros s l'' (_ & _ & _ & _ & Hs) HR. cbn [app]. constructor; [done..| |done].
    rewrite <- Hs. by rewrite (consumed_rest _ _ _ _ H2 Hu).
Qed.

Lemma quoted_spec q l :
  let l1 := run id (quoted_body q) l in
  ∃ s, consumed l l1 s ∧ quoted q s (rest l1) ∧ closes q (rest l1).
Proof.
  intros l1. destruct (run_spec id (quoted_body q) (λ _ s l', quoted q s (rest l'))) with (a := l)
    as (s & Hc & HR & Hstop).
  - intros. constructor.
  - exact (quoted_step q).
  - fold l1 in Hc, HR, Hstop. exists s. split_and!; [done..|]. clearbody l1. unfold quoted_body in Hstop.
    destruct (at_end l1) eqn:He; [apply at_end_rest in He; by left|].
    destruct (more_input _ He) as (u & Hu). destruct (Ascii.eqb_spec (peek l1) q) as [<-|]; [|done].
    right. by exists u.
Qed.

Lemma quoted_exact q l s t :
  q ≠ "\" → rest l = s ++ t → quoted q s t → closes q t →
  consumed l (run id (quoted_body q) l) s.
Proof.
  intros Hq Hr HR Ht. destruct (quoted_spec q l) as (s' & Hc & HR' & Ht').
  pose proof Hc as (_ & _ & _ & _ & E). rewrite Hr in E.
  by rewrite (quoted_unique q s t _ _ Hq HR HR' Ht Ht' E).
Qed.

(** *** Numbers *)

(** Digits with at most one dot, not extended by [t]. *)
Inductive numeric : text → text → Prop :=
| numeric_int a t :
    a ≠ [] → Forall (λ c, IsDigit c = true) a → starts IsDigit t = false →
    starts (Ascii.eqb ".") t = false → numeric a t
| numeric_dec a b t :
    a ≠ [] → Forall (λ c, IsDigit c = true) a → Forall (λ c, IsDigit c = true) b →
    starts IsDigit t = false → numeric (a ++ "." :: b) t.

Lemma numeric_unique s t s' t' : numeric s t → numeric s' t' → s ++ t = s' ++ t' → s = s'.
Proof.
  intros [a t1 Ha HD Ht Hdot|a b t1 Ha HD HB Ht] [a' t1' Ha' HD' Ht' Hdot'|a' b' t1' Ha' HD' HB' Ht'] E;
    rewrite <- ?app_assoc in E; cbn [app] in E;
    assert (a = a') as <- by (apply (span_unique IsDigit) in E; done);
    apply app_inv_head in E; try subst; try done.
  injection E as E. do 2 f_equal. by apply (span_unique IsDigit) in E.
Qed.

Lemma numeric_nonempty s t : numeric s t → s ≠ [].
Proof. by intros [a u Ha|a b u Ha]; destruct a. Qed.

Lemma numeric_head s t : numeric s t → ∃ c w, s = c :: w ∧ IsDigit c = true.
Proof. intros [a u Ha HD|a b u Ha HD]; destruct HD; try done; by eexists _, _. Qed.

Definition number_run (st : bool * Lexer) (s : text) (st' : bool * Lexer) : Prop :=
  Forall (λ c, IsDigit c = true) s ∧ st'.1 = st.1 ∨
  st.1 = false ∧ st'.1 = true ∧ ∃ a b, s = a ++ "." :: b ∧
    Forall (λ c, IsDigit c = true) a ∧ Forall (λ c, IsDigit c = true) b.

Lemma digit_ascii c : IsDigit c = true → is_ascii c = true.
Proof.
  intros H. pose proof (byte_cases (λ c, negb (IsDigit c) || is_ascii c)) as Hb.
  specialize (Hb ltac:(vm_compute; reflexivity) c). cbn in Hb. by rewrite H in Hb.
Qed.

Lemma number_loop l c u :
  rest l = c :: u → IsDigit c = true →
  let st := run snd number_body (false, l) in
  ∃ s, consumed l st.2 s ∧ numeric s (rest st.2).
Proof.
  intros Hu Hc st.
  destruct (run_spec snd number_body number_run) with (a := (false, l)) as (s & Hs & HR & Hstop).
  - intros a. by left.
  - intros [hd k] [hd' k']. unfold number_body. destruct (at_end k) eqn:He; [done|].
    destruct (more_input k He) as (v & Hv). set (d := peek k) in *. clearbody d.
    destruct (Ascii.eqb_spec d ".") as [->|Hd]; [destruct hd|]; cbn [andb negb].
    + by replace (IsDigit ".") with false by reflexivity.
    + intros [= <- <-]. exists ["."]. split_and!; [done|by eapply advance_ascii|].
      intros s [hd'' k''] _ [[HF Hhd]|[Hf _]]; [|done]. right. split_and!; [done..|].
      exists [], s. split_and!; [done|constructor|done].
    + destruct (IsDigit d) eqn:Hdd; [|done]. intros [= <- <-]. exists [d].
      split_and!; [done|apply (advance_ascii _ _ v Hv); by apply digit_ascii|].
      intros s [hd'' k''] _ [[HF Hhd]|(Hf & Hh & a & b & -> & HA & HB)].
      * left. split; [by constructor|done].
      * right. split_and!; [done..|]. exists (d :: a), b. split_and!; [done|by constructor|done].
  - fold st in Hs, HR, Hstop. exists s. split; [done|]. clearbody st. destruct st as [hd k].
    cbn [snd] in *. unfold number_body in Hstop.
    assert (Hend : starts IsDigit (rest k) = false ∧ (hd = false → starts (Ascii.eqb ".") (rest k) = false)).
    { destruct (at_end k) eqn:He; [apply at_end_rest in He; by rewrite He|].
      destruct (more_input k He) as (v & Hv). rewrite Hv. cbn [starts].
      rewrite Ascii.eqb_sym in Hstop.
      destruct (Ascii.eqb "." (peek k)) eqn:Hdot, hd, (IsDigit (peek k)); done. }
    destruct Hend as [Hdig Hdot]. destruct HR as [[HF Hhd]|(_ & _ & a & b & -> & HA & HB)].
    + cbn in Hhd. subst hd. apply numeric_int; [|done|done|by apply Hdot].
      intros ->. destruct Hs as (_ & _ & _ & _ & E). rewrite Hu in E. cbn in E.
      rewrite <- E in Hdig. cbn in Hdig. congruence.
    + apply numeric_dec; [|done..]. intros ->. destruct Hs as (_ & _ & _ & _ & E).
      rewrite Hu in E. injection E as -> _. done.
Qed.

Lemma number_exact l s t :
  rest l = s ++ t → numeric s t → consumed l (run snd number_body (false, l)).2 s.
Proof.
  intros Hr Hn.
  assert (∃ c u, rest l = c :: u ∧ IsDigit c = true) as (c & u & Hu & Hc).
  { rewrite Hr. destruct Hn as [a t Ha HD|a b t Ha HD]; destruct HD as [|c a Hc HD]; try done;
      by eexists c, _. }
  destruct (number_loop l c u Hu Hc) as (s' & Hs & Hn'). pose proof Hs as (_ & _ & _ & _ & E).
  rewrite Hr in E. by rewrite (numeric_unique _ _ _ _ Hn Hn' E).
Qed.

(** ** Lexemes: what a token may be written as *)

Definition classify (w : text) : TokenType * string :=
  let lw := string_of_list_ascii (ToLower_words w) in
  match keywords !! lw with
  | Some ty => (ty, lw)
  | None => (TokenIdent, string_of_list_ascii w)
  end.

Definition sign (negative : bool) : text := if negative then ["-"] else [].
Definition word_start (c : ascii) : bool := IsLetter c || Ascii.eqb c "_".

(** A token of type [ty] and value [v] written as [s] before [t], at offset [off] and
    after a token of type [prev]: a slash begins a regex at offset 0 and after
    MATCHES. *)
Inductive lexeme (off : nat) (prev : option TokenType) : TokenType → string → text → text → Prop :=
| lx_single c ty v t : single_char c = Some (ty, v) → lexeme off prev ty v [c] t
| lx_minus t :
    starts IsDigit t = false → starts (Ascii.eqb "-") t = false →
    lexeme off prev TokenMinus "-" ["-"] t
| lx_slash p t :
    off ≠ 0%nat → prev = Some p → p ≠ TokenMatches → lexeme off prev TokenSlash "/" ["/"] t
| lx_regex s t :
    off = 0%nat ∨ prev = Some TokenMatches → quoted "/" s ("/" :: t) →
    lexeme off prev TokenRegex (string_of_list_ascii s) ("/" :: s ++ ["/"]) t
| lx_neq t : lexeme off prev TokenNeq "!=" ["!"; "="] t
| lx_lte t : lexeme off prev TokenLte "<=" ["<"; "="] t
| lx_lt t : starts (Ascii.eqb "=") t = false → lexeme off prev TokenLt "<" ["<"] t
| lx_gte t : lexeme off prev TokenGte ">=" [">"; "="] t
| lx_gt t : starts (Ascii.eqb "=") t = false → lexeme off prev TokenGt ">" [">"] t
| lx_string q s t :
    q = "034" ∨ q = "'" → quoted q s (q :: t) →
    lexeme off prev TokenString (string_of_list_ascii s) (q :: s ++ [q]) t
| lx_number negative s t :
    numeric s t → isDurationSuffix (letters t) = false →
    lexeme off prev TokenNumber (string_of_list_ascii (sign negative ++ s)) (sign negative ++ s) t
| lx_duration negative s u t :
    numeric s (u ++ t) → letters (u ++ t) = u → isDurationSuffix u = true →
    lexeme off prev TokenDuration (string_of_list_ascii (sign negative ++ s ++ u))
      (sign negative ++ s ++ u) t
| lx_word s t :
    runes ident_char s t → starts word_start s = true → starts ident_char t = false →
    lexeme off prev (classify s).1 (classify s).2 s t.

Definition prev_type (l : Lexer) : option TokenType := Type_ <$> last (tokens l).

Lemma letters_prefix s : ∃ t, s = letters s ++ t.
Proof.
  induction s as [|c s [t IH]]; [by exists []|]. cbn. destruct (IsLetter c); cbn; [|by exists (c :: s)].
  exists t. by rewrite <- IH.
Qed.

(** [scanNumber] at a digit, in a lexer that has consumed the sign. *)
Lemma scanNumber_sound off prev negative l0 l c u tok l' :
  consumed l0 l (sign negative) → rest l = c :: u → IsDigit c = true →
  scanNumber negative l = (tok, l') →
  ∃ s, consumed l0 l' s ∧ s ≠ [] ∧ Pos tok = position l ∧
    lexeme off prev (Type_ tok) (Value tok) s (rest l').
Proof.
  intros H0 Hu Hc. unfold scanNumber.
  destruct (number_loop l c u Hu Hc) as (s & Hs & Hn).
  set (l1 := (run snd number_body (false, l)).2) in *. clearbody l1.
  pose proof (consumed_trans _ _ _ _ _ H0 Hs) as H1.
  assert (Hst : (if negative then pos l - 1 else pos l)%nat = pos l0).
  { destruct H0 as (_ & _ & _ & Hp & _). rewrite Hp. destruct negative; cbn; lia. }
  rewrite Hst.
  assert (Hne : ∀ x, sign negative ++ s ++ x ≠ []).
  { intros x Hx. apply app_nil in Hx as [_ [-> _]%app_nil].
    by apply numeric_nonempty in Hn. }
  assert (Hw : peekWord l1 = letters (rest l1)) by done. rewrite Hw.
  destruct (letters_prefix (rest l1)) as (t & Ht).
  destruct (isDurationSuffix (letters (rest l1))) eqn:Hd.
  - rewrite andb_true_r. destruct (at_end l1) eqn:He.
    { apply at_end_rest in He. rewrite He in Hd. done. }
    cbn [negb]. intros [= <- <-].
    assert (H2 : consumed l1 (move (pos l1 + length (letters (rest l1))) (line l1) (col l1) l1)
                   (letters (rest l1))) by (by eapply consumed_move).
    pose proof (consumed_trans _ _ _ _ _ H1 H2) as H3. rewrite <- app_assoc in H3.
    exists (sign negative ++ s ++ letters (rest l1)). split_and!; [done|by apply Hne|done|].
    cbn [Type_ Value].
    replace (slice _ _ _) with (sign negative ++ s ++ letters (rest l1))
      by (symmetry; exact (slice_consumed _ _ _ H3)).
    rewrite (consumed_rest _ _ _ t H2 Ht). apply lx_duration; rewrite <- ?Ht; done.
  - rewrite andb_false_r. intros [= <- <-]. exists (sign negative ++ s).
    split_and!; [done| |done|].
    + specialize (Hne []). by rewrite app_nil_r in Hne.
    + cbn [Type_ Value]. rewrite (slice_consumed _ _ _ H1). by apply lx_number.
Qed.

Lemma scanIdentifier_sound off prev l c u tok l' :
  rest l = c :: u → word_start c = true → scanIdentifier l = (tok, l') →
  ∃ s, consumed l l' s ∧ s ≠ [] ∧ Pos tok = position l ∧
    lexeme off prev (Type_ tok) (Value tok) s (rest l').
Proof.
  intros Hu Hc. unfold scanIdentifier.
  destruct (rune_loop ident_char ident_body ident_body_eq l) as (s & Hs & HR & Hstop).
  set (l1 := run id ident_body l) in *. clearbody l1. rewrite (slice_consumed _ _ _ Hs).
  assert (Hw : starts word_start s = true ∧ s ≠ []).
  { destruct Hs as (_ & _ & _ & _ & E). rewrite Hu in E. destruct s as [|d s].
    - cbn in E. rewrite <- E in Hstop. cbn [starts] in Hstop. unfold ident_char, word_start in *.
      by destruct (IsLetter c), (IsDigit c), (Ascii.eqb c "_").
    - injection E as -> _. done. }
  destruct Hw as [Hw Hne].
  pose proof (lx_word off prev s (rest l1) HR Hw Hstop) as Hl. unfold classify in Hl.
  destruct (keywords !! _) as [ty|]; intros [= <- <-]; exists s; done.
Qed.

Lemma scanQuoted_sound q ty err p l tok l' :
  is_ascii q = true → scanQuoted q ty err p l = (tok, l') →
  Pos tok = p ∧
  (Type_ tok = TokenError ∧ (∃ s, consumed l l' s) ∨
   ∃ s, consumed l l' (s ++ [q]) ∧ Type_ tok = ty ∧ Value tok = string_of_list_ascii s ∧
     quoted q s (q :: rest l')).
Proof.
  intros Hq. unfold scanQuoted. destruct (quoted_spec q l) as (s & Hs & HR & Hc).
  set (l1 := run id (quoted_body q) l) in *. clearbody l1.
  destruct (at_end l1) eqn:He; intros [= <- <-]; (split; [done|]).
  - left. split; [done|]. by exists s.
  - right. exists s. destruct Hc as [Hc|(v & Hc)].
    { apply at_end_rest in Hc. congruence. }
    pose proof (advance_ascii _ _ _ Hc Hq) as Ha.
    split_and!; [by eapply consumed_trans|done|by rewrite (slice_consumed _ _ _ Hs)|].
    by rewrite (consumed_rest _ _ _ _ Ha Hc), <- Hc.
Qed.

(** ** Soundness: what one call of [nextToken] reads *)

Definition token_read (l : Lexer) (out : Token * Lexer) : Prop :=
  Offset (Pos out.1) = pos l ∧ ∃ s, consumed l out.2 s ∧
  (Type_ out.1 = TokenError ∨
   s ≠ [] ∧ lexeme (pos l) (prev_type l) (Type_ out.1) (Value out.1) s (rest out.2)).

Definition scan_ok (c : ascii) (l : Lexer) (r : result (Token * Lexer)) : Prop :=
  match r with
  | Ok out => token_read l out
  | Err _ => False
  | Panic _ => c = "/" ∧ tokens l = [] ∧ pos l ≠ 0%nat
  end.

Lemma emit_sound l l' ty v s :
  start l = pos l → consumed l l' s →
  (ty = TokenError ∨ s ≠ [] ∧ lexeme (pos l) (prev_type l) ty v s (rest l')) →
  token_read l (emit ty v l').
Proof.
  intros Hst Hc Hx. split; [|by exists s]. cbn. destruct Hc as (_ & _ & Hs & _). congruence.
Qed.

Lemma read_sound l tok l' s ty :
  start l = pos l → Pos tok = position l → consumed l l' s → Type_ tok = ty →
  (ty = TokenError ∨ s ≠ [] ∧ lexeme (pos l) (prev_type l) ty (Value tok) s (rest l')) →
  token_read l (tok, l').
Proof.
  intros Hst Hp Hc <- Hx. split; [|by exists s]. cbn [fst]. by rewrite Hp.
Qed.

Lemma single_char_ascii c ty v u :
  single_char c = Some (ty, v) → rune_size (c :: u) = 1%nat.
Proof.
  intros H.
  pose proof (byte_cases (λ c, match single_char c with
    | Some _ => match lead_info c with None => true | _ => false end | None => true end)) as Hb.
  specialize (Hb ltac:(vm_compute; reflexivity) c). cbn beta in Hb. rewrite H in Hb. cbn.
  by destruct (lead_info c).
Qed.

(** The character before the cursor is the slash itself: the test for a tilde in the
    code never holds. *)
Lemma peekPrev_advance l c u : rest l = c :: u → is_ascii c = true → peekPrev (advance l) = c.
Proof.
  intros Hu Hc. destruct (advance_ascii _ _ _ Hu Hc) as (Hi & _ & _ & Hp & _).
  unfold peekPrev. rewrite Hi, Hp. cbn [length].
  destruct (Nat.eqb_spec (pos l + 1) 0); [lia|]. rewrite Nat.add_sub.
  by destruct (not_at_end _ _ _ Hu) as [_ <-].
Qed.

Lemma slash_sound l u :
  start l = pos l → rest l = "/" :: u → scan_ok "/" l (slash l).
Proof.
  intros Hst Hu. pose proof (advance_ascii _ _ _ Hu eq_refl) as Ha.
  pose proof (consumed_rest _ _ ["/"] u Ha Hu) as Hr.
  unfold slash. pose proof Ha as (Hi & Ht & Hs & Hp & _).
  rewrite (peekPrev_advance _ _ _ Hu eq_refl), Hs, Hst. cbn [Ascii.eqb Bool.eqb orb].
  assert (Hregex : pos l = 0%nat ∨ prev_type l = Some TokenMatches →
    token_read l (scanRegex (advance l))).
  { intros Hx. unfold scanRegex. destruct (scanQuoted _ _ _ _ _) as [tok l'] eqn:E.
    apply (scanQuoted_sound "/") in E as [Hpos [[Hty (s & Hc)]|(s & Hc & Hty & Hv & Hq)]]; [| |done].
    - split; [cbn; rewrite Hpos; cbn; congruence|]. exists (["/"] ++ s).
      split; [by eapply consumed_trans|by left].
    - split; [cbn; rewrite Hpos; cbn; congruence|]. exists (["/"] ++ s ++ ["/"]).
      split; [by eapply consumed_trans|]. right. split; [done|]. cbn [fst snd app].
      rewrite Hty, Hv. by apply lx_regex. }
  destruct (Nat.eqb_spec (pos l) 0) as [H0|H0]; cbn [res_bind]; [by apply Hregex; left|].
  unfold after_matches. rewrite Ht. destruct (last (tokens l)) as [tk|] eqn:El; cbn [res_bind].
  - assert (Hpt : prev_type l = Some (Type_ tk)) by (unfold prev_type; by rewrite El).
    destruct (bool_decide_reflect (Type_ tk = TokenMatches)) as [Hm|Hm].
    + apply Hregex. right. by rewrite Hpt, Hm.
    + apply (emit_sound _ _ _ _ ["/"]); [done..|]. right. split; [done|]. by eapply lx_slash.
  - cbn. split_and!; [done| |done]. by apply last_None in El.
Qed.

Lemma scan_sound l c u :
  start l = pos l → rest l = c :: u → solid (rest l) →
  scan_ok c l (scan_token c l).
Proof.
  intros Hst Hu [_ Hd]. rewrite Hu in Hd. unfold scan_token.
  destruct (single_char c) as [[ty v]|] eqn:Esc.
  { pose proof (single_char_ascii c ty v u Esc) as H1.
    assert (Ha : consumed l (advance l) [c]) by by apply (advance_rune l c [] u).
    apply (emit_sound _ _ _ _ [c]); [done..|]. right. split; [done|]. by constructor. }
  assert (Hop : ∀ d, c = d → is_ascii d = true → consumed l (advance l) [d] ∧ rest (advance l) = u).
  { intros d -> Hasc. pose proof (advance_ascii _ _ _ Hu Hasc) as Ha. split; [done|].
    by apply (consumed_rest _ _ [d] u Ha). }
  destruct (Ascii.eqb_spec c "-") as [Ec|].
  { destruct (Hop _ Ec eq_refl) as [Ha Hr]. rewrite Ec in Hd.
    rewrite (peek_starts _ IsDigit eq_refl). rewrite Hr.
    assert (Hmin : starts IsDigit u = false → scan_ok c l (Ok (emit TokenMinus "-" (advance l)))).
    { intros Hnd. apply (emit_sound _ _ _ _ ["-"]); [done..|]. right. split; [done|].
      rewrite Hr. apply lx_minus; [done|]. destruct u as [|x u]; [done|]. cbn [starts].
      destruct (Ascii.eqb_spec "-" x) as [<-|]; [by destruct Hd|done]. }
    destruct (at_end (advance l)) eqn:He; cbn [negb andb].
    { apply Hmin. apply at_end_rest in He. by rewrite <- Hr, He. }
    destruct (starts IsDigit u) eqn:Edig; [|by apply Hmin].
    destruct u as [|x u']; [done|]. cbn [starts] in Edig.
    destruct (scanNumber true (advance l)) as [tok l'] eqn:E.
    destruct (scanNumber_sound (pos l) (prev_type l) true l _ x u' tok l' Ha Hr Edig E)
      as (s & Hc & Hne & Hp & Hl).
    split; [cbn; rewrite Hp; cbn; destruct Ha as (_ & _ & Hs & _); congruence|].
    exists s. split; [done|]. by right. }
  destruct (Ascii.eqb_spec c "/") as [Ec|]; [rewrite Ec in *; by eapply slash_sound|].
  (* an operator that may be followed by an equals sign *)
  assert (Htwo : ∀ d ty1 v1 ty2 v2, c = d → is_ascii d = true →
    (∀ t, lexeme (pos l) (prev_type l) ty2 v2 [d; "="] t) →
    (ty1 = TokenError ∨ ∀ t, starts (Ascii.eqb "=") t = false → lexeme (pos l) (prev_type l) ty1 v1 [d] t) →
    token_read l (if Ascii.eqb (peek (advance l)) "=" then emit ty2 v2 (advance (advance l))
                  else emit ty1 v1 (advance l))).
  { intros d ty1 v1 ty2 v2 Ec Hasc H2 H1. destruct (Hop _ Ec Hasc) as [Ha Hr].
    rewrite Ascii.eqb_sym, (peek_starts _ (Ascii.eqb "=") eq_refl), Hr.
    destruct (starts (Ascii.eqb "=") u) eqn:Eeq.
    - destruct u as [|x u']; [done|]. cbn [starts] in Eeq. apply Ascii.eqb_eq in Eeq as <-.
      pose proof (advance_ascii _ _ _ Hr eq_refl) as Ha2.
      apply (emit_sound _ _ _ _ ([d] ++ ["="])); [done|by eapply consumed_trans|]. by right.
    - apply (emit_sound _ _ _ _ [d]); [done..|]. destruct H1 as [H1|H1]; [by left|right].
      split; [done|]. apply H1. by rewrite Hr. }
  destruct (Ascii.eqb_spec c "!") as [Ec|];
    [apply (Htwo _ _ _ _ _ Ec eq_refl); [constructor|by left]|].
  destruct (Ascii.eqb_spec c "<") as [Ec|];
    [apply (Htwo _ _ _ _ _ Ec eq_refl); [constructor|right; by constructor]|].
  destruct (Ascii.eqb_spec c ">") as [Ec|];
    [apply (Htwo _ _ _ _ _ Ec eq_refl); [constructor|right; by constructor]|].
  destruct (Ascii.eqb c "034" || Ascii.eqb c "'") eqn:Eq.
  { assert (Hq : c = "034" ∨ c = "'") by (by apply orb_true_iff in Eq as [?%Ascii.eqb_eq|?%Ascii.eqb_eq]; auto).
    assert (Hasc : is_ascii c = true) by (by destruct Hq as [-> | ->]).
    destruct (Hop c eq_refl Hasc) as [Ha Hr]. unfold scanString.
    destruct (scanQuoted _ _ _ _ _) as [tok l'] eqn:E.
    apply (scanQuoted_sound c) in E as [Hp [[Hty (s & Hc)]|(s & Hc & Hty & Hv & Hqq)]]; [| |done].
    - apply (read_sound _ _ _ ([c] ++ s) TokenError); [done..|by eapply consumed_trans|done|by left].
    - apply (read_sound _ _ _ ([c] ++ s ++ [c]) TokenString); [done..|by eapply consumed_trans|done|].
      right. split; [done|]. rewrite Hv. by apply lx_string. }
  destruct (IsDigit c) eqn:Edig.
  { destruct (scanNumber false l) as [tok l'] eqn:E.
    destruct (scanNumber_sound (pos l) (prev_type l) false l _ c u tok l' (consumed_refl l) Hu Edig E)
      as (s & Hc & Hne & Hp & Hl).
    apply (read_sound _ _ _ s (Type_ tok)); [done..|]. by right. }
  destruct (IsLetter c || Ascii.eqb c "_") eqn:Ew.
  { destruct (scanIdentifier l) as [tok l'] eqn:E.
    destruct (scanIdentifier_sound (pos l) (prev_type l) l c u tok l' Hu Ew E) as (s & Hc & Hne & Hp & Hl).
    apply (read_sound _ _ _ s (Type_ tok)); [done..|]. by right. }
  destruct (cut_rune c u) as (r & w & -> & Hr).
  apply (emit_sound _ _ _ _ (c :: r)); [done|by eapply advance_rune|by left].
Qed.

(** ** Completeness: every lexeme is read back *)

Definition token_exact (l : Lexer) (ty : TokenType) (v : string) (s : text)
    (r : result (Token * Lexer)) : Prop :=
  ∃ tok l', r = Ok (tok, l') ∧ Type_ tok = ty ∧ Value tok = v ∧ Offset (Pos tok) = pos l ∧
    consumed l l' s.

Lemma emit_exact l l' ty v s :
  start l = pos l → consumed l l' s → token_exact l ty v s (Ok (emit ty v l')).
Proof.
  intros Hst Hc. exists (mkToken ty v (position l')), l'. split_and!; [done..| |done].
  destruct Hc as (_ & _ & Hs & _). cbn. congruence.
Qed.

(** The character is not one the switch tests for. *)
Definition plain_char (c : ascii) : bool :=
  match single_char c with Some _ => false | None => true end
  && forallb (λ d, negb (Ascii.eqb c d)) ["-"; "/"; "!"; "<"; ">"; "034"; "'"].

Lemma scan_token_plain c l :
  plain_char c = true →
  scan_token c l =
    Ok (if IsDigit c then scanNumber false l
        else if word_start c then scanIdentifier l
        else emit TokenError ("unexpected character '" +:+ print_rune c +:+ "'")%string (advance l)).
Proof.
  unfold plain_char, scan_token, word_start. destruct (single_char c); [done|]. cbn [andb forallb].
  rewrite !andb_true_iff, !negb_true_iff. intros (-> & -> & -> & -> & -> & -> & -> & _). cbn [orb].
  by destruct (IsDigit c), (IsLetter c || Ascii.eqb c "_").
Qed.

Lemma digit_plain c : IsDigit c = true → plain_char c = true.
Proof.
  intros H. pose proof (byte_cases (λ c, negb (IsDigit c) || plain_char c)) as Hb.
  specialize (Hb ltac:(vm_compute; reflexivity) c). cbn beta in Hb. by rewrite H in Hb.
Qed.

Lemma word_start_plain c : word_start c = true → plain_char c && negb (IsDigit c) = true.
Proof.
  intros H. pose proof (byte_cases (λ c, negb (word_start c) || plain_char c && negb (IsDigit c))) as Hb.
  specialize (Hb ltac:(vm_compute; reflexivity) c). cbn beta in Hb. by rewrite H in Hb.
Qed.

Lemma scanNumber_exact negative l0 l s t :
  start l0 = pos l0 → consumed l0 l (sign negative) → rest l = s ++ t → numeric s t →
  isDurationSuffix (letters t) = false →
  token_exact l0 TokenNumber (string_of_list_ascii (sign negative ++ s)) (sign negative ++ s)
    (Ok (scanNumber negative l)).
Proof.
  intros Hst H0 Hr Hn Hd. pose proof (number_exact l s t Hr Hn) as H1. unfold scanNumber.
  set (l1 := (run snd number_body (false, l)).2) in *. clearbody l1.
  pose proof (consumed_trans _ _ _ _ _ H0 H1) as H2.
  assert (Hw : peekWord l1 = letters t) by (by unfold peekWord; fold (rest l1); rewrite (consumed_rest _ _ _ _ H1 Hr)).
  assert (Hstart : (if negative then pos l - 1 else pos l)%nat = pos l0).
  { destruct H0 as (_ & _ & _ & Hp & _). rewrite Hp. destruct negative; cbn; lia. }
  rewrite Hw, Hd, andb_false_r, Hstart, (slice_consumed _ _ _ H2).
  eexists _, _. split_and!; [done..| |done]. cbn. destruct H0 as (_ & _ & Hs & _). congruence.
Qed.

Lemma scanDuration_exact negative l0 l s u t :
  start l0 = pos l0 → consumed l0 l (sign negative) → rest l = s ++ u ++ t → numeric s (u ++ t) →
  letters (u ++ t) = u → isDurationSuffix u = true →
  token_exact l0 TokenDuration (string_of_list_ascii (sign negative ++ s ++ u)) (sign negative ++ s ++ u)
    (Ok (scanNumber negative l)).
Proof.
  intros Hst H0 Hr Hn Hu Hd. pose proof (number_exact l s _ Hr Hn) as H1. unfold scanNumber.
  set (l1 := (run snd number_body (false, l)).2) in *. clearbody l1.
  pose proof (consumed_rest _ _ _ _ H1 Hr) as Hr1.
  assert (Hw : peekWord l1 = u) by (unfold peekWord; fold (rest l1); by rewrite Hr1).
  assert (Hstart : (if negative then pos l - 1 else pos l)%nat = pos l0).
  { destruct H0 as (_ & _ & _ & Hp & _). rewrite Hp. destruct negative; cbn; lia. }
  assert (He : at_end l1 = false).
  { apply not_true_iff_false. rewrite at_end_rest, Hr1. destruct u; done. }
  rewrite Hw, Hd, He, Hstart. cbn [negb andb].
  assert (H2 : consumed l1 (move (pos l1 + length u) (line l1) (col l1) l1) u) by (by eapply consumed_move).
  pose proof (consumed_trans _ _ _ _ _ H0 (consumed_trans _ _ _ _ _ H1 H2)) as H3.
  eexists _, _. split_and!; [reflexivity|done| | |done].
  - cbn [Value]. f_equal. exact (slice_consumed _ _ _ H3).
  - cbn. destruct H0 as (_ & _ & Hs & _). congruence.
Qed.

Lemma scanQuoted_exact q ty err p l s t :
  q ≠ "\" → is_ascii q = true → rest l = s ++ q :: t → quoted q s (q :: t) →
  ∃ l', scanQuoted q ty err p l = (mkToken ty (string_of_list_ascii s) p, l') ∧ consumed l l' (s ++ [q]).
Proof.
  intros Hq Hasc Hr HR. unfold scanQuoted.
  pose proof (quoted_exact q l s (q :: t) Hq Hr HR (or_intror (ex_intro _ t eq_refl))) as H1.
  set (l1 := run id (quoted_body q) l) in *. clearbody l1.
  pose proof (consumed_rest _ _ _ _ H1 Hr) as Hr1.
  destruct (not_at_end _ _ _ Hr1) as [He _]. rewrite He, (slice_consumed _ _ _ H1).
  eexists. split; [done|]. eapply consumed_trans; [done|]. by apply (advance_ascii _ _ t).
Qed.

Lemma slash_exact l ty v s t :
  start l = pos l → rest l = "/" :: s ++ t →
  (pos l = 0%nat ∨ prev_type l = Some TokenMatches →
     ty = TokenRegex ∧ ∃ b, s = b ++ ["/"] ∧ v = string_of_list_ascii b ∧ quoted "/" b ("/" :: t)) →
  (pos l ≠ 0%nat → ∀ p, prev_type l = Some p → p ≠ TokenMatches → ty = TokenSlash ∧ v = "/"%string ∧ s = []) →
  (pos l ≠ 0%nat → is_Some (prev_type l)) →
  token_exact l ty v ("/" :: s) (slash l).
Proof.
  intros Hst Hr Hregex Hslash Hprev. pose proof (advance_ascii _ _ _ Hr eq_refl) as Ha.
  pose proof (consumed_rest _ _ ["/"] _ Ha Hr) as Hr1. pose proof Ha as (Hi & Ht & Hs & Hp & _).
  unfold slash.
  rewrite (peekPrev_advance _ _ _ Hr eq_refl), Hs, Hst. cbn [Ascii.eqb Bool.eqb orb].
  assert (Hx : pos l = 0%nat ∨ prev_type l = Some TokenMatches →
    token_exact l ty v ("/" :: s) (Ok (scanRegex (advance l)))).
  { intros (-> & b & -> & -> & Hq)%Hregex. unfold scanRegex. rewrite <- app_assoc in Hr1.
    destruct (scanQuoted_exact "/" TokenRegex "unterminated regex" (position (advance l)) _ b t
      ltac:(done) eq_refl Hr1 Hq) as (l' & -> & Hc).
    eexists _, _. split_and!; [done..|cbn; congruence|]. by apply (consumed_trans _ _ _ ["/"] _ Ha). }
  destruct (Nat.eqb_spec (pos l) 0) as [H0|H0]; cbn [res_bind]; [by apply Hx; left|].
  destruct (Hprev H0) as [p Hpt]. pose proof Hpt as Hpt'. unfold prev_type in Hpt'.
  apply fmap_Some in Hpt' as (tk & Hl & ->). unfold after_matches. rewrite Ht, Hl. cbn [res_bind].
  destruct (bool_decide_reflect (Type_ tk = TokenMatches)) as [Hm|Hm].
  - apply Hx. right. by rewrite Hpt, Hm.
  - destruct (Hslash H0 _ Hpt Hm) as (-> & -> & ->). by apply emit_exact.
Qed.

Lemma scan_exact l ty v s t :
  start l = pos l → rest l = s ++ t → lexeme (pos l) (prev_type l) ty v s t →
  token_exact l ty v s (scan_token (peek l) l).
Proof.
  intros Hst Hr Hl.
  assert (Hpeek : ∀ c u, s ++ t = c :: u → peek l = c).
  { intros c u E. rewrite E in Hr. by destruct (not_at_end _ _ _ Hr). }
  destruct Hl as [c ty v t Hc|t Hdig Hdash|p t H0 Hp Hm|s t Hx Hq|t|t|t Heq|t|t Heq
                 |q s t Hqq Hq|negative s t Hn Hd|negative s u t Hn Hu Hd|s t HR Hw Ht].
  - rewrite (Hpeek _ _ eq_refl). unfold scan_token. rewrite Hc. apply emit_exact; [done|].
    apply (advance_rune l c [] t Hr). by eapply single_char_ascii.
  - rewrite (Hpeek _ _ eq_refl). pose proof (advance_ascii _ _ _ Hr eq_refl) as Ha.
    pose proof (consumed_rest _ _ ["-"] _ Ha Hr) as Hr1.
    unfold scan_token. cbn [single_char Ascii.eqb Bool.eqb].
    rewrite (peek_starts _ IsDigit eq_refl), Hr1, Hdig, andb_false_r. by apply emit_exact.
  - rewrite (Hpeek _ _ eq_refl). cbn [scan_token single_char Ascii.eqb Bool.eqb].
    apply (slash_exact l _ _ [] t); [done..| | |by eauto].
    + intros [?|?]; [done|congruence].
    + done.
  - rewrite (Hpeek _ _ eq_refl). cbn [scan_token single_char Ascii.eqb Bool.eqb].
    apply (slash_exact l _ _ (s ++ ["/"]) t); [done|exact Hr| | |by destruct Hx; eauto].
    + intros _. split; [done|]. by exists s.
    + intros H0 p Hp Hm. destruct Hx; congruence.
  - rewrite (Hpeek _ _ eq_refl). pose proof (advance_ascii _ _ _ Hr eq_refl) as Ha.
    pose proof (consumed_rest _ _ ["!"] _ Ha Hr) as Hr1. cbn [scan_token single_char Ascii.eqb Bool.eqb].
    destruct (not_at_end _ _ _ Hr1) as [_ ->]. apply emit_exact; [done|].
    by apply (consumed_trans _ _ _ ["!"] ["="] Ha), (advance_ascii _ _ t).
  - rewrite (Hpeek _ _ eq_refl). pose proof (advance_ascii _ _ _ Hr eq_refl) as Ha.
    pose proof (consumed_rest _ _ ["<"] _ Ha Hr) as Hr1. cbn [scan_token single_char Ascii.eqb Bool.eqb].
    destruct (not_at_end _ _ _ Hr1) as [_ ->]. apply emit_exact; [done|].
    by apply (consumed_trans _ _ _ ["<"] ["="] Ha), (advance_ascii _ _ t).
  - rewrite (Hpeek _ _ eq_refl). pose proof (advance_ascii _ _ _ Hr eq_refl) as Ha.
    pose proof (consumed_rest _ _ ["<"] _ Ha Hr) as Hr1. cbn [scan_token single_char Ascii.eqb Bool.eqb].
    rewrite Ascii.eqb_sym, (peek_starts _ (Ascii.eqb "=") eq_refl), Hr1, Heq. by apply emit_exact.
  - rewrite (Hpeek _ _ eq_refl). pose proof (advance_ascii _ _ _ Hr eq_refl) as Ha.
    pose proof (consumed_rest _ _ [">"] _ Ha Hr) as Hr1. cbn [scan_token single_char Ascii.eqb Bool.eqb].
    destruct (not_at_end _ _ _ Hr1) as [_ ->]. apply emit_exact; [done|].
    by apply (consumed_trans _ _ _ [">"] ["="] Ha), (advance_ascii _ _ t).
  - rewrite (Hpeek _ _ eq_refl). pose proof (advance_ascii _ _ _ Hr eq_refl) as Ha.
    pose proof (consumed_rest _ _ [">"] _ Ha Hr) as Hr1. cbn [scan_token single_char Ascii.eqb Bool.eqb].
    rewrite Ascii.eqb_sym, (peek_starts _ (Ascii.eqb "=") eq_refl), Hr1, Heq. by apply emit_exact.
  - rewrite (Hpeek _ _ eq_refl). cbn [app] in Hr. rewrite <- app_assoc in Hr.
    assert (Hasc : is_ascii q = true ∧ q ≠ "\" ∧ scan_token q l = Ok (scanString q l))
      by by destruct Hqq as [-> | ->].
    destruct Hasc as (Hasc & Hbs & ->). unfold scanString.
    pose proof (advance_ascii _ _ _ Hr Hasc) as Ha.
    pose proof (consumed_rest _ _ [q] _ Ha Hr) as Hr1.
    destruct (scanQuoted_exact q TokenString "unterminated string" (position l) _ s t Hbs Hasc Hr1 Hq)
      as (l' & -> & Hc).
    eexists _, _. split_and!; [done..|]. by apply (consumed_trans _ _ _ [q] _ Ha).
  - destruct negative; cbn [sign app] in *.
    + rewrite (Hpeek _ _ eq_refl). pose proof (advance_ascii _ _ _ Hr eq_refl) as Ha.
      pose proof (consumed_rest _ _ ["-"] _ Ha Hr) as Hr1.
      assert (Hscan : scan_token "-" l = Ok (scanNumber true (advance l))).
      { cbn [scan_token single_char Ascii.eqb Bool.eqb].
        destruct (numeric_head _ _ Hn) as (c & w & -> & Hc). cbn [app] in Hr1.
        destruct (not_at_end _ _ _ Hr1) as [-> ->]. by rewrite Hc. }
      rewrite Hscan. by apply (scanNumber_exact true l _ s t).
    + destruct (numeric_head _ _ Hn) as (c & w & -> & Hc). rewrite (Hpeek _ _ eq_refl).
      rewrite scan_token_plain by (by apply digit_plain). rewrite Hc.
      apply (scanNumber_exact false l l (c :: w) t); [done|apply consumed_refl|done..].
  - destruct negative; cbn [sign app] in *; rewrite <- ?app_assoc in *.
    + rewrite (Hpeek _ _ eq_refl).
      pose proof (advance_ascii _ _ _ Hr eq_refl) as Ha.
      pose proof (consumed_rest _ _ ["-"] _ Ha Hr) as Hr1.
      assert (Hscan : scan_token "-" l = Ok (scanNumber true (advance l))).
      { cbn [scan_token single_char Ascii.eqb Bool.eqb].
        destruct (numeric_head _ _ Hn) as (c & w & -> & Hc). cbn [app] in Hr1.
        destruct (not_at_end _ _ _ Hr1) as [-> ->]. by rewrite Hc. }
      rewrite Hscan. by apply (scanDuration_exact true l _ s u t).
    + destruct (numeric_head _ _ Hn) as (c & w & -> & Hc). rewrite (Hpeek _ _ eq_refl).
      rewrite scan_token_plain by (by apply digit_plain). rewrite Hc.
      apply (scanDuration_exact false l l (c :: w) u t); [done|apply consumed_refl|done..].
  - destruct s as [|c w]; [done|]. cbn [starts] in Hw. rewrite (Hpeek _ _ eq_refl).
    pose proof (word_start_plain c Hw) as [Hplain Hnd%negb_true_iff]%andb_true_iff.
    rewrite scan_token_plain by done. rewrite Hnd, Hw. unfold scanIdentifier.
    pose proof (rune_loop_exact ident_char ident_body l _ t ident_body_eq Hr HR Ht) as Hc.
    set (l1 := run id ident_body l) in *. clearbody l1. rewrite (slice_consumed _ _ _ Hc).
    unfold classify. destruct (keywords !! _) as [ty|]; eexists _, _; done.
Qed.

Lemma lexeme_nonempty off prev ty v s t : lexeme off prev ty v s t → s ≠ [].
Proof.
  intros []; try done.
  - match goal with H : numeric _ _ |- _ => apply numeric_nonempty in H end.
    by intros [_ ?]%app_nil.
  - match goal with H : numeric _ _ |- _ => apply numeric_nonempty in H end.
    by intros [_ [? _]%app_nil]%app_nil.
  - by destruct s0.
Qed.

Lemma lexeme_type off prev ty v s t :
  lexeme off prev ty v s t → ty ≠ TokenEOF ∧ ty ≠ TokenError.
Proof.
  intros [c ty' v' t' Hc| | | | | | | | | | | |s' t' _ _ _]; try done.
  - pose proof (byte_cases (λ c, match single_char c with
      | Some (ty, _) => bool_decide (ty ≠ TokenEOF ∧ ty ≠ TokenError) | None => true end)) as Hb.
    specialize (Hb ltac:(vm_compute; reflexivity) c). cbn beta in Hb. rewrite Hc in Hb.
    by apply bool_decide_eq_true in Hb.
  - unfold classify. destruct (keywords !! _) as [k|] eqn:E; [|done]. cbn [fst].
    apply (keywords_all (λ kv, bool_decide (kv.2 ≠ TokenEOF ∧ kv.2 ≠ TokenError))) in E;
      [by apply bool_decide_eq_true in E|by vm_compute].
Qed.

(** No lexeme begins like a blank or a comment. *)
Lemma lexeme_solid off prev ty v s t : lexeme off prev ty v s t → solid (s ++ t).
Proof.
  assert (Hfirst : ∀ (P : ascii → bool) c u,
    forallb (λ c, negb (P c) || negb (is_blank c) && negb (Ascii.eqb c "-")) all_bytes = true →
    P c = true → solid (c :: u)).
  { intros P c u Hall HP. pose proof (byte_cases _ Hall c) as Hb. cbn beta in Hb.
    rewrite HP in Hb. apply andb_true_iff in Hb as [H1%negb_true_iff H2%negb_true_iff].
    split; [done|]. intros [= -> _]. done. }
  assert (Hnum : ∀ negative s t, numeric s t → solid (sign negative ++ s ++ t)).
  { intros negative s' t' Hn. destruct (numeric_head _ _ Hn) as (c & w & -> & Hc).
    destruct negative; cbn [sign app]; [|by apply (Hfirst IsDigit)].
    split; [done|]. intros [= ->]. discriminate Hc. }
  intros [c ty' v' t' Hc|t' Hd Hm| | | | | | | |q s' t' Hq _|neg s' t' Hn _|neg s' u t' Hn _ _|s' t' _ Hw _];
    cbn [app].
  - apply (Hfirst (λ c, match single_char c with Some _ => true | None => false end)); [done|].
    by rewrite Hc.
  - split; [done|]. destruct t' as [|x t']; [done|]. intros [= ->]. done.
  - by apply (Hfirst (Ascii.eqb "/")).
  - by apply (Hfirst (Ascii.eqb "/")).
  - by apply (Hfirst (Ascii.eqb "!")).
  - by apply (Hfirst (Ascii.eqb "<")).
  - by apply (Hfirst (Ascii.eqb "<")).
  - by apply (Hfirst (Ascii.eqb ">")).
  - by apply (Hfirst (Ascii.eqb ">")).
  - destruct Hq as [-> | ->]; [by apply (Hfirst (Ascii.eqb "034"))|by apply (Hfirst (Ascii.eqb "'"))].
  - rewrite <- app_assoc. by apply Hnum.
  - rewrite <- !app_assoc. by apply Hnum.
  - destruct s' as [|c w]; [done|]. by apply (Hfirst word_start).
Qed.

(** ** The token stream *)

Definition entry : Type := TokenType * string * nat.
Definition entry_of (t : Token) : entry := (Type_ t, Value t, Offset (Pos t)).

(** [ks] are the tokens, with their offsets, of a text that is cut into gaps and
    lexemes; the text begins at [off], after a token of type [prev]. *)
Inductive tiles : nat → option TokenType → text → list entry → Prop :=
| tiles_end off prev g :
    gap g [] → tiles off prev g [(TokenEOF, ""%string, (off + length g)%nat)]
| tiles_token off prev g s t ty v ks :
    gap g (s ++ t) → lexeme (off + length g) prev ty v s t →
    tiles (off + length g + length s) (Some ty) t ks →
    tiles off prev (g ++ s ++ t) ((ty, v, (off + length g)%nat) :: ks).

(** What one call leaves, whatever its token. *)
Record advanced (l l' : Lexer) (s : text) : Prop := {
  adv_input : input l' = input l;
  adv_tokens : tokens l' = tokens l;
  adv_pos : pos l' = (pos l + length s)%nat;
  adv_rest : rest l = s ++ rest l';
}.

Lemma advanced_gap l l0 l' g s :
  consumed l l0 g → consumed (mark_start l0) l' s → advanced l l' (g ++ s).
Proof.
  intros (Hi & Ht & _ & Hp & Hr) (Hi' & Ht' & _ & Hp' & Hr'). cbn in *.
  constructor; [congruence..|rewrite length_app; lia|].
  rewrite Hr, <- app_assoc. f_equal. exact Hr'.
Qed.

Definition next_ok (l : Lexer) (r : result (Token * Lexer)) : Prop :=
  match r with
  | Ok (tok, l') =>
      ∃ g s, advanced l l' (g ++ s) ∧ Offset (Pos tok) = (pos l + length g)%nat ∧
      (Type_ tok = TokenEOF ∧ Value tok = ""%string ∧ s = [] ∧ rest l' = [] ∧ gap g [] ∨
       Type_ tok = TokenError ∨
       s ≠ [] ∧ gap g (s ++ rest l') ∧
       lexeme (pos l + length g) (prev_type l) (Type_ tok) (Value tok) s (rest l'))
  | Err _ => False
  | Panic _ =>
      tokens l = [] ∧ ∃ g t, rest l = g ++ "/" :: t ∧ gap g ("/" :: t) ∧ (pos l + length g ≠ 0)%nat
  end.

Lemma nextToken_sound l : next_ok l (nextToken l).
Proof.
  unfold nextToken. destruct (skipWhitespace_spec l) as (g & Hc & Hg & Hsolid).
  set (l0 := skipWhitespace l) in *. clearbody l0. pose proof Hc as (_ & Ht & _ & Hp & Hr).
  destruct (at_end (mark_start l0)) eqn:He.
  - apply at_end_rest in He. change (rest l0 = []) in He. exists g, []. rewrite He in Hg.
    split_and!; [eapply advanced_gap; [done|apply consumed_refl]|cbn; lia|].
    left. split_and!; [done..|exact He|done].
  - destruct (more_input _ He) as (u & Hu).
    assert (Hs : solid (rest (mark_start l0))) by exact Hsolid.
    pose proof (scan_sound (mark_start l0) _ u eq_refl Hu Hs) as Hscan.
    assert (Hpt : prev_type (mark_start l0) = prev_type l) by (unfold prev_type; cbn; by rewrite Ht).
    destruct (scan_token _ _) as [[tok l']|e|w]; cbn [scan_ok] in Hscan; [|done|].
    + destruct Hscan as [Hoff (s & Hs' & Hx)]. cbn [fst snd] in *. rewrite Hpt in Hx.
      change (pos (mark_start l0)) with (pos l0) in *. rewrite Hp in *.
      exists g, s. split_and!; [by eapply advanced_gap|done|]. right.
      destruct Hx as [Hx|[Hne Hx]]; [by left|right]. split_and!; [done| |done].
      destruct Hs' as (_ & _ & _ & _ & Hr'). change (rest (mark_start l0)) with (rest l0) in Hr'.
      by rewrite <- Hr'.
    + destruct Hscan as (Hc' & Htok & H0). cbn in Htok, H0. split; [congruence|].
      exists g, u. change (rest (mark_start l0)) with (rest l0) in Hu. rewrite Hc' in Hu.
      split_and!; [by rewrite Hr, Hu|by rewrite <- Hu|lia].
Qed.

Lemma nextToken_exact l g s t ty v :
  rest l = g ++ s ++ t → gap g (s ++ t) → lexeme (pos l + length g) (prev_type l) ty v s t →
  ∃ tok l', nextToken l = Ok (tok, l') ∧ Type_ tok = ty ∧ Value tok = v ∧
    Offset (Pos tok) = (pos l + length g)%nat ∧ advanced l l' (g ++ s) ∧ rest l' = t.
Proof.
  intros Hr Hg Hl. unfold nextToken.
  pose proof (skipWhitespace_exact l g _ Hr Hg (lexeme_solid _ _ _ _ _ _ Hl)) as Hc.
  set (l0 := skipWhitespace l) in *. clearbody l0. pose proof Hc as (_ & Ht & _ & Hp & _).
  pose proof (consumed_rest _ _ _ _ Hc Hr) as Hr0. change (rest l0) with (rest (mark_start l0)) in Hr0.
  assert (He : at_end (mark_start l0) = false).
  { apply not_true_iff_false. rewrite at_end_rest, Hr0. intros [E _]%app_nil.
    by apply lexeme_nonempty in Hl. }
  rewrite He.
  assert (Hpt : prev_type l = prev_type (mark_start l0)) by (unfold prev_type; cbn; by rewrite Ht).
  rewrite Hpt, <- Hp in Hl.
  destruct (scan_exact (mark_start l0) ty v s t eq_refl Hr0 Hl) as (tok & l' & -> & <- & <- & Ho & Hs).
  eexists _, _. split_and!; [done..|cbn in Ho; lia|by eapply advanced_gap|by eapply consumed_rest].
Qed.

Lemma nextToken_end l :
  gap (rest l) [] → ∃ tok l', nextToken l = Ok (tok, l') ∧
    entry_of tok = (TokenEOF, ""%string, (pos l + length (rest l))%nat) ∧ tokens l' = tokens l.
Proof.
  intros Hg. unfold nextToken.
  assert (Hr : rest l = rest l ++ []) by by rewrite app_nil_r.
  pose proof (skipWhitespace_exact l (rest l) [] Hr Hg ltac:(by split)) as Hc.
  set (l0 := skipWhitespace l) in *. clearbody l0.
  pose proof (consumed_rest _ _ _ _ Hc Hr) as Hr0. change (rest l0) with (rest (mark_start l0)) in Hr0.
  apply at_end_rest in Hr0. rewrite Hr0. eexists _, _. split_and!; [done| |].
  - unfold entry_of. cbn. destruct Hc as (_ & _ & _ & -> & _). done.
  - destruct Hc as (_ & Ht & _). exact Ht.
Qed.

Lemma rest_push tok l : rest (push_token tok l) = rest l.
Proof. done. Qed.

Lemma prev_type_push tok l : prev_type (push_token tok l) = Some (Type_ tok).
Proof. unfold prev_type. cbn. by rewrite last_snoc. Qed.

Definition error_of (tok : Token) : string :=
  ("lexer error at " +:+ Position_String (Pos tok) +:+ ": " +:+ Value tok)%string.

Definition stream_ok (l : Lexer) (r : option (result (list Token * option string))) : Prop :=
  match r with
  | Some (Ok (toks, None)) =>
      ∃ new, toks = tokens l ++ new ∧ tiles (pos l) (prev_type l) (rest l) (entry_of <$> new)
  | Some (Ok (toks, Some e)) =>
      ∃ new tok, toks = tokens l ++ new ++ [tok] ∧ Type_ tok = TokenError ∧ e = error_of tok ∧
        Forall (λ t, Type_ t ≠ TokenEOF ∧ Type_ t ≠ TokenError) new
  | Some (Panic _) =>
      tokens l = [] ∧ ∃ g t, rest l = g ++ "/" :: t ∧ gap g ("/" :: t) ∧ (pos l + length g ≠ 0)%nat
  | Some (Err _) | None => False
  end.

Lemma tokenize_sound fuel l : (length (rest l) < fuel)%nat → stream_ok l (tokenize fuel l).
Proof.
  revert l. induction fuel as [|fuel IH]; intros l Hf; [lia|]. cbn [tokenize].
  pose proof (nextToken_sound l) as Hn. destruct (nextToken l) as [[tok l']|e|w]; cbn [next_ok] in Hn; [|done|done].
  destruct Hn as (g & s & [Hi Ht Hp Hr] & Ho & Hx).
  destruct (bool_decide_reflect (Type_ tok = TokenEOF)) as [HE|HE].
  { destruct Hx as [(_ & Hv & -> & Hr' & Hg)|[Hx|(_ & _ & Hl%lexeme_type)]]; [|congruence|naive_solver].
    rewrite Hr', !app_nil_r in Hr. exists [tok]. cbn [tokens push_token]. split; [by rewrite Ht|].
    cbn [fmap list_fmap]. unfold entry_of. rewrite HE, Hv, Ho, Hr. by constructor. }
  destruct (bool_decide_reflect (Type_ tok = TokenError)) as [HX|HX].
  { exists [], tok. cbn. by rewrite Ht. }
  destruct Hx as [(? & _)|[?|(Hne & Hg & Hl)]]; [done..|].
  assert (Hlen : (length (rest (push_token tok l')) < fuel)%nat).
  { rewrite rest_push. rewrite Hr, !length_app in Hf. destruct s; [done|cbn in *; lia]. }
  specialize (IH (push_token tok l') Hlen).
  destruct (tokenize fuel _) as [[[toks [e|]]|e|w]|]; cbn [stream_ok] in *;
    rewrite ?rest_push, ?prev_type_push in IH; cbn [tokens push_token pos] in IH; rewrite ?Ht, ?Hp in IH.
  - destruct IH as (new & tk & -> & HT & He & HF). exists (tok :: new), tk.
    cbn [app]. rewrite <- app_assoc. split_and!; [done..|]. by constructor.
  - destruct IH as (new & -> & Hti). exists (tok :: new). rewrite <- app_assoc. split; [done|].
    rewrite Hr, <- app_assoc. cbn [fmap list_fmap]. unfold entry_of at 1. rewrite Ho.
    apply tiles_token; [done..|]. rewrite length_app, Nat.add_assoc in Hti. exact Hti.
  - done.
  - destruct IH as [IH _]. by apply app_nil in IH as [_ ?].
  - done.
Qed.

Lemma tokenize_exact off prev t ks :
  tiles off prev t ks → ∀ fuel l, rest l = t → pos l = off → prev_type l = prev →
  (length t < fuel)%nat →
  ∃ new, tokenize fuel l = Some (Ok (tokens l ++ new, None)) ∧ entry_of <$> new = ks.
Proof.
  induction 1 as [off prev g Hg|off prev g s t ty v ks Hg Hl _ IH];
    intros fuel l Hr <- <- Hf; (destruct fuel as [|fuel]; [lia|]); cbn [tokenize].
  - rewrite <- Hr in *. destruct (nextToken_end l Hg) as (tok & l' & -> & He & Ht).
    unfold entry_of in He. injection He as HT Hv Ho. rewrite bool_decide_true by done.
    exists [tok]. cbn. unfold entry_of. by rewrite Ht, HT, Hv, Ho.
  - destruct (nextToken_exact l g s t ty v Hr Hg Hl) as (tok & l' & -> & HT & Hv & Ho & [Hi Ht Hp Hr'] & Hrt).
    pose proof (lexeme_type _ _ _ _ _ _ Hl) as [H1 H2].
    rewrite !bool_decide_false by congruence.
    pose proof (lexeme_nonempty _ _ _ _ _ _ Hl) as Hne.
    destruct (IH fuel (push_token tok l')) as (new & -> & Hnew).
    + by rewrite rest_push.
    + cbn. rewrite Hp, length_app. lia.
    + rewrite prev_type_push. by f_equal.
    + rewrite !length_app in Hf. destruct s; [done|cbn in *; lia].
    + exists (tok :: new). cbn [tokens push_token]. rewrite Ht, <- app_assoc. split; [done|].
      cbn [fmap list_fmap]. rewrite Hnew. unfold entry_of. by rewrite HT, Hv, Ho.
Qed.

(** ** The properties *)

(** C17: the lexer reads exactly the texts that can be cut into gaps (blanks and
    comments) and lexemes, and what it returns for them are the types, values and
    offsets of the pieces: no text is skipped, read twice or misplaced, keywords are
    recognised in any case, and every token is as long as it can be. *)
Theorem tokens_tile_the_input src ks :
  (∃ toks, Tokenize (NewLexer src) = Some (Ok (toks, None)) ∧ entry_of <$> toks = ks) ↔
  tiles 0 None (list_ascii_of_string src) ks.
Proof.
  set (l := NewLexer src). assert (Hl : rest l = list_ascii_of_string src) by done.
  split.
  - intros (toks & HT & <-). pose proof (tokenize_sound (S (length (input l))) l) as H.
    unfold Tokenize in HT. rewrite HT in H. destruct H as (new & -> & H); [unfold rest; rewrite length_drop; lia|].
    exact H.
  - intros H. destruct (tokenize_exact 0 None _ ks H (S (length (input l))) l) as (new & Hn & Hks);
      [done..|cbn; lia|]. by exists new.
Qed.

(** The lexer ends on every input: with the tokens up to the end of input, with an
    error that names its last token, the only error token, or with a panic, which
    happens exactly when the first thing after some blanks or comments is a slash. *)
Theorem tokenize_total src :
  match Tokenize (NewLexer src) with
  | Some (Ok (toks, None)) => ∃ init v off, entry_of <$> toks = init ++ [(TokenEOF, v, off)]
  | Some (Ok (toks, Some e)) =>
      ∃ init tok, toks = init ++ [tok] ∧ Type_ tok = TokenError ∧ e = error_of tok ∧
        Forall (λ t, Type_ t ≠ TokenEOF ∧ Type_ t ≠ TokenError) init
  | Some (Err _) | None => False
  | Some (Panic _) => True
  end ∧
  ((∃ w, Tokenize (NewLexer src) = Some (Panic w)) ↔
   ∃ g t, list_ascii_of_string src = g ++ "/" :: t ∧ g ≠ [] ∧ gap g ("/" :: t)).
Proof.
  set (l := NewLexer src).
  pose proof (tokenize_sound (S (length (input l))) l) as H. fold (Tokenize l) in H.
  assert (Hlen : (length (rest l) < S (length (input l)))%nat) by (unfold rest; rewrite length_drop; lia).
  specialize (H Hlen). split.
  - destruct (Tokenize l) as [[[toks [e|]]|e|w]|]; cbn [stream_ok] in H; [| |done..].
    + destruct H as (new & tok & -> & ? & ? & ?). exists new, tok. by rewrite app_nil_l.
    + destruct H as (new & -> & H). cbn [app tokens l NewLexer].
      generalize dependent (entry_of <$> new). clear. intros ks H. cbn.
      induction H as [off prev g _|off prev g s t ty v ks _ _ _ (init & v' & off' & IH)];
        [by exists [], ""%string, (off + length g)%nat|].
      rewrite IH. by eexists (_ :: init), _, _.
  - split.
    + intros (w & E). rewrite E in H. destruct H as (_ & g & t & Hr & Hg & H0).
      exists g, t. split_and!; [done| |done]. intros ->. by apply H0.
    + intros (g & t & Hr & H0 & Hg).
      assert (Hp : nextToken l = Panic "index out of range [-1]").
      { unfold nextToken. assert (Hsolid : solid ("/" :: t)) by (split; [done|by destruct t]).
        pose proof (skipWhitespace_exact l g _ Hr Hg Hsolid) as Hc.
        set (l0 := skipWhitespace l) in *. clearbody l0.
        pose proof (consumed_rest _ _ _ _ Hc Hr) as Hr0. change (rest l0) with (rest (mark_start l0)) in Hr0.
        destruct (not_at_end _ _ _ Hr0) as [-> ->]. cbn [scan_token single_char Ascii.eqb Bool.eqb].
        unfold slash. pose proof (advance_ascii _ _ _ Hr0 eq_refl) as (Hi & Ht & Hs & Hp & _).
        rewrite (peekPrev_advance _ _ _ Hr0 eq_refl), Hs. cbn [Ascii.eqb Bool.eqb orb start mark_start].
        destruct Hc as (_ & Htok & _ & Hp0 & _).
        destruct (Nat.eqb_spec (pos l0) 0) as [Hz|Hz]; [destruct g; cbn in *; [done|lia]|].
        unfold after_matches. rewrite Ht. cbn [tokens mark_start]. rewrite Htok. done. }
      exists "index out of range [-1]"%string. unfold Tokenize. cbn [tokenize]. by rewrite Hp.
Qed.

(** ** What the model shows beyond the properties *)

Definition src_of (codes : list nat) : string := string_of_list_ascii (ascii_of_nat <$> codes).

(** The tolerance sign is the two bytes 0xC2 0xB1 in UTF-8, and the switch looks at
    one byte: the sign of "time ± 1m" is read as an identifier. *)
Lemma plus_minus_is_an_identifier :
  let sign_bytes := src_of [194; 177]%nat in
  kinds (Tokenize (NewLexer ("time " +:+ sign_bytes +:+ " 1m")%string)) =
  Some (Ok ([(TokenTime, "time"); (TokenIdent, sign_bytes); (TokenDuration, "1m"); (TokenEOF, "")], None))%string.
Proof. vm_compute. reflexivity. Qed.

(** A query that begins with a blank and a slash. *)
Lemma leading_slash_panics :
  Tokenize (NewLexer " /x/") = Some (Panic "index out of range [-1]").
Proof. vm_compute. reflexivity. Qed.

(** The column is taken after the character of an operator has been consumed, and a
    duration's suffix does not advance it: the bar of the first query is reported one
    column too far, the identifier of the second two too few. *)
Lemma columns_are_wrong :
  (∃ toks tok, Tokenize (NewLexer "a |") = Some (Ok (toks, None)) ∧ toks !! 1%nat = Some tok ∧
     Type_ tok = TokenPipe ∧ Offset (Pos tok) = 2%nat ∧ Column (Pos tok) = 4) ∧
  (∃ toks tok, Tokenize (NewLexer "5ms x") = Some (Ok (toks, None)) ∧ toks !! 1%nat = Some tok ∧
     Type_ tok = TokenIdent ∧ Offset (Pos tok) = 4%nat ∧ Column (Pos tok) = 3).
Proof. split; vm_compute; eexists _, _; split_and!; reflexivity. Qed.

(** The backslash of an escape stays in the value of a string. *)
Lemma escapes_are_kept :
  kinds (Tokenize (NewLexer "'it\'s'")) =
  Some (Ok ([(TokenString, "it\'s"); (TokenEOF, "")], None))%string.
Proof. vm_compute. reflexivity. Qed.
