(* ===== verification/Ast.v ===== *)
(** The syntax trees of WatchQL (internal/query/ast.go): expressions, pipe queries and
    SQL queries, with the positions of their nodes. *)

From Stdlib Require Import String Ascii.
From stdpp Require Import base option list gmap strings.
From S2P Require Import Prelude Float64 Tokens Lexer.

(** ** Expressions and pipe queries *)

Record SourceNode := mkSourceNode { src_Type : string; src_MetricName : string; src_Pos : Position }.

(** [Relative] or [Start] and [End], and [Shift]. *)
Record TimeRangeNode := mkTimeRangeNode {
  tr_Relative : Duration; tr_Start : Time; tr_End : Time; tr_Shift : Duration; tr_Pos : Position }.

Record AggregationExpr := mkAggregationExpr { agg_Function : string; agg_Field : string; agg_Alias : string }.
Record OrderField := mkOrderField { of_Field : string; of_Desc : bool }.
Record OrderByNode := mkOrderByNode { ob_Fields : list OrderField; ob_Pos : Position }.
Record LimitNode := mkLimitNode { lim_Count : Z; lim_Offset : Z; lim_Pos : Position }.

(** The value of a literal with its [LiteralType]. *)
Inductive Literal : Type :=
| LiteralString (s : string)
| LiteralInt (n : Z)
| LiteralFloat (f : float64)
| LiteralBool (b : bool)
| LiteralDuration (d : Duration)
| LiteralNull
| LiteralRegex (s : string).

Inductive Expr : Type :=
| BinaryExpr (Left : Expr) (Operator : string) (Right : Expr) (p : Position)
| UnaryExpr (Operator : string) (Operand : Expr) (p : Position)
| IdentifierExpr (Name : string) (Path : list string) (p : Position)
| LiteralExpr (Value : Literal) (p : Position)
| FunctionCallExpr (Name : string) (Args : list Expr) (p : Position)
| ListExpr (Values : list Expr) (p : Position)
| SubqueryExpr (q : Query) (p : Position)
with Query : Type :=
| mkQuery (Source : SourceNode) (Pipes : list PipeNode) (TimeRange : option TimeRangeNode) (p : Position)
with PipeNode : Type :=
| WhereNode (Condition : Expr) (p : Position)
| SelectNode (Fields : list (Expr * string)) (p : Position)
| GroupByNode (Aggregations : list AggregationExpr) (GroupFields : list string) (p : Position)
| OrderBy (n : OrderByNode)
| Limit (n : LimitNode)
| TopNode (Count : Z) (Field : string) (p : Position)
| WindowNode (WindowType : string) (d : Duration) (p : Position)
| CorrelateNode (Target : string) (JoinFields : list string) (TimeTolerance : Duration) (p : Position)
| AnomaliesNode (Algorithm : string) (Sensitivity : float64) (p : Position)
| ExtractNode (Pattern : string) (Auto : bool) (p : Position)
| HistogramNode (Field : string) (Buckets : Z) (GroupBy : list string) (p : Position).

Definition q_Source (q : Query) : SourceNode := let '(mkQuery s _ _ _) := q in s.
Definition q_Pipes (q : Query) : list PipeNode := let '(mkQuery _ ps _ _) := q in ps.
Definition q_TimeRange (q : Query) : option TimeRangeNode := let '(mkQuery _ _ t _) := q in t.
Definition q_Pos (q : Query) : Position := let '(mkQuery _ _ _ p) := q in p.

(** The [Position] method of an expression. *)
Definition expr_Position (e : Expr) : Position :=
  match e with
  | BinaryExpr _ _ _ p | UnaryExpr _ _ p | IdentifierExpr _ _ p | LiteralExpr _ p
  | FunctionCallExpr _ _ p | ListExpr _ p | SubqueryExpr _ p => p
  end.

Record DefineNode := mkDefineNode { def_Name : string; def_Query : Query; def_Pos : Position }.

(** ** SQL queries *)

Inductive JoinType : Type := JoinInner | JoinLeft | JoinRight | JoinFull.

Record SQLSelectField := mkSQLSelectField { sf_Expr : Expr; sf_Alias : string }.
Record SQLSelectClause := mkSQLSelectClause {
  sel_Distinct : bool; sel_Fields : list SQLSelectField; sel_Pos : Position }.
Record SQLJoinCondition := mkSQLJoinCondition {
  jc_Left : Expr; jc_Op : string; jc_Right : Expr; jc_Pos : Position }.

(** A from clause reads a source or a subquery. *)
Inductive SQLQuery : Type :=
| mkSQLQuery (Select : SQLSelectClause) (From : SQLFromClause) (Joins : list SQLJoinClause)
    (Where : option Expr) (GroupBy : list Expr) (Having : option Expr)
    (OrderBy : option OrderByNode) (Limit : option LimitNode) (p : Position)
with SQLFromClause : Type :=
| FromSource (s : SourceNode) (Alias : string) (p : Position)
| FromSubquery (q : SQLQuery) (Alias : string) (p : Position)
with SQLJoinClause : Type :=
| mkSQLJoinClause (Type_ : JoinType) (Source : SQLFromClause) (Condition : option SQLJoinCondition)
    (p : Position).

(** What the parser returns: a [Query] with its source and pipes, or with its SQL part
    only, and the definitions. *)
Inductive Statement : Type :=
| PipeStatement (q : Query) (Definitions : gmap string DefineNode)
| SQLStatement (q : SQLQuery) (p : Position) (Definitions : gmap string DefineNode).
