(* ===== verification/Parsing.v ===== *)
(** Recursive descent: computations over a cursor that fail, panic or run out of fuel,
    loops bounded by what the cursor has left, and the argument that a parser ends, which
    is made once for the two query languages. *)

From stdpp Require Import base option list.
From S2P Require Import Prelude.

(** What a cursor has left to read. *)
Class Cursor (St : Type) := remaining : St → nat.

(** A parsing function takes a cursor to an outcome and the cursor after it; [None] says
    that the fuel of a loop ran out. *)
Definition M (St A : Type) : Type := St → option (result (A * St)).

Definition ret {St A} (a : A) : M St A := λ p, Some (Ok (a, p)).
Definition bind {St A B} (c : M St A) (k : A → M St B) : M St B := λ p,
  match c p with
  | Some (Ok (a, p')) => k a p'
  | Some (Err e) => Some (Err e)
  | Some (Panic w) => Some (Panic w)
  | None => None
  end.
Notation "'let?' x ':=' c 'in' k" := (bind c (λ x, k))
  (at level 10, x pattern, c at level 100, k at level 200) : go_scope.
Notation "c ';?' k" := (bind c (λ _, k))
  (at level 100, k at level 200, right associativity) : go_scope.

(** A loop whose body says whether to go on; every iteration but the last consumes
    something, so that what is left bounds them. *)
Fixpoint iterate {St A} (fuel : nat) (body : A → M St (A * bool)) (a : A) : M St A := λ p,
  match fuel with
  | O => None
  | S fuel =>
      (let? (a', go) := body a in if (go : bool) then iterate fuel body a' else ret a') p
  end.
Definition loop {St A} `{Cursor St} (body : A → M St (A * bool)) (a : A) : M St A := λ p,
  iterate (S (remaining p)) body a p.

(** ** Progress

    [runs k Q c]: from a cursor with at most [k] left, [c] ends without a panic, and has
    consumed at least [Q a] when it returns [a]. *)

Definition runs {St A} `{Cursor St} (k : nat) (Q : A → nat) (c : M St A) : Prop :=
  ∀ p, (remaining p ≤ k)%nat →
  match c p with
  | Some (Ok (a, p')) => (remaining p' + Q a ≤ remaining p)%nat
  | Some (Err _) => True
  | Some (Panic _) | None => False
  end.

Definition any {A} : A → nat := λ _, 0%nat.
Definition one {A} : A → nat := λ _, 1%nat.
Definition if_true (b : bool) : nat := if b then 1 else 0.
Definition if_some {A} (o : option A) : nat := if o then 1 else 0.

Section runs.
Context {St : Type} `{Cursor St}.

Lemma runs_mono {A} k k' (Q Q' : A → nat) (c : M St A) :
  runs k Q c → (k' ≤ k)%nat → (∀ a, Q' a ≤ Q a)%nat → runs k' Q' c.
Proof.
  intros Hc Hk HQ p Hp. specialize (Hc p ltac:(lia)).
  destruct (c p) as [[[a p']|e|w]|]; [|done..]. specialize (HQ a). lia.
Qed.

Lemma runs_ret {A} k (Q : A → nat) a : Q a = 0%nat → runs (St := St) k Q (ret a).
Proof. intros HQ p _. cbn. lia. Qed.

Lemma runs_bind {A B} k (Q1 : A → nat) (Q : B → nat) (c : M St A) (f : A → M St B) :
  runs k Q1 c →
  (∀ a, (Q1 a ≤ k)%nat → runs (k - Q1 a) (λ b, Q b - Q1 a)%nat (f a)) →
  runs k Q (bind c f).
Proof.
  intros Hc Hf p Hp. specialize (Hc p Hp). unfold bind.
  destruct (c p) as [[[a p1]|e|w]|]; [|done..]. specialize (Hf a ltac:(lia) p1 ltac:(lia)).
  destruct (f a p1) as [[[b p2]|e|w]|]; [|done..]. lia.
Qed.

Lemma runs_iterate {A} (body : A → M St (A * bool)) k :
  (∀ a, runs k (λ x, if_true x.2) (body a)) →
  ∀ fuel a p, (remaining p ≤ k)%nat → (remaining p < fuel)%nat →
  match iterate fuel body a p with
  | Some (Ok (_, p')) => (remaining p' ≤ remaining p)%nat
  | Some (Err _) => True
  | Some (Panic _) | None => False
  end.
Proof.
  intros Hb. induction fuel as [|fuel IH]; intros a p Hk Hf; [lia|]. cbn [iterate]. unfold bind.
  specialize (Hb a p Hk). destruct (body a p) as [[[[a' go] p1]|e|w]|]; [|done..].
  cbn [snd] in Hb. destruct go; cbn [if_true] in Hb.
  - specialize (IH a' p1 ltac:(lia) ltac:(lia)).
    destruct (iterate fuel body a' p1) as [[[b p2]|e|w]|]; [lia|done..].
  - cbn. lia.
Qed.

Lemma runs_loop {A} (body : A → M St (A * bool)) k a :
  (∀ a, runs k (λ x, if_true x.2) (body a)) → runs k any (loop body a).
Proof.
  intros Hb p Hp. unfold loop, any. pose proof (runs_iterate body k Hb _ a p Hp (Nat.lt_succ_diag_r _)) as Hi.
  destruct (iterate _ _ _ _) as [[[b p2]|e|w]|]; [lia|done..].
Qed.

Lemma runs_one_any {A} k (c : M St A) : runs k one c → runs k any c.
Proof. intros Hc. eapply runs_mono; [exact Hc|lia|]. intros a. unfold any. lia. Qed.

Lemma runs_le {A} k k' (c : M St A) : runs k any c → (k' ≤ k)%nat → runs k' any c.
Proof. intros Hc Hk. by eapply runs_mono; [exact Hc| |]. Qed.
End runs.

#[export] Hint Resolve runs_one_any | 10 : dogwatch.
#[export] Hint Resolve runs_ret runs_loop : dogwatch.
#[export] Hint Extern 2 (le _ _) => lia : dogwatch.
#[export] Hint Extern 2 (lt _ _) => lia : dogwatch.
