(* ===== verification/Parser.v ===== *)
(** The parser of WatchQL (internal/query/parser.go): pipe queries, SQL queries and
    expressions by recursive descent, with its errors and hints.

    The parsing functions are computations of Parsing.v over the tokens that are left. *)

From Stdlib Require Import String Ascii.
From stdpp Require Import base option list gmap strings pretty.
From S2P Require Import Prelude Float64 Bytes Chars Tokens Lexer Strconv Ast Parsing.

(** ** State, errors *)

Record Parser := mkParser {
  p_tokens : list Token;
  p_pos : nat;
  p_defines : gmap string DefineNode;
}.

Definition NewParser (toks : list Token) : Parser := mkParser toks 0 ∅.
Definition set_pos (n : nat) (p : Parser) : Parser := mkParser (p_tokens p) n (p_defines p).
Definition set_defines (d : gmap string DefineNode) (p : Parser) : Parser :=
  mkParser (p_tokens p) (p_pos p) d.

Definition no_position : Position := mkPosition 0 0 0.
Definition current (p : Parser) : Token :=
  default (mkToken TokenEOF "" no_position) (p_tokens p !! p_pos p).
#[global] Instance parser_cursor : Cursor Parser := λ p, (length (p_tokens p) - p_pos p)%nat.
Definition check (t : TokenType) (p : Parser) : bool := bool_decide (Type_ (current p) = t).

(** [ParseError.Error], with the fields the parser fills in. *)
Definition ParseError_Error (pos : Position) (msg hint : string) : string :=
  "parse error at " +:+ Position_String pos +:+ ": " +:+ msg +:+
  (if String.eqb hint "" then "" else String "010" "  Hint: " +:+ hint).

Definition suggestHint (tok : Token) (msg : string) : string :=
  if Contains msg "expected data source" then
    "Query should start with 'metrics', 'logs', 'traces', 'events', or 'SELECT'"
  else if Contains msg "expected FROM" then
    "SQL queries require a FROM clause after SELECT, e.g., 'SELECT * FROM logs'"
  else if Contains msg "expected BY after GROUP" then "GROUP requires BY, e.g., 'GROUP BY service'"
  else if Contains msg "expected JOIN" then
    "Use 'INNER JOIN', 'LEFT JOIN', 'RIGHT JOIN', or 'FULL JOIN'"
  else if Contains msg "expected '=' or BETWEEN" then
    "JOIN conditions should use '=' for equality or 'BETWEEN' for time ranges"
  else if Contains msg "unexpected token" then
    if bool_decide (Type_ tok = TokenIdent)
    then "'" +:+ Value tok +:+ "' is not a recognized keyword at this position" else ""
  else "".

(** ** The parsing monad *)

Abbreviation P := (M Parser).

Definition error {A} (msg : string) : P A := λ p,
  Some (Err (ParseError_Error (Pos (current p)) msg (suggestHint (current p) msg))).
Definition errorWithHint {A} (hint msg : string) : P A := λ p,
  Some (Err (ParseError_Error (Pos (current p)) msg hint)).
Definition lift {A} (r : result A) (wrap : string → string) : P A :=
  match r with
  | Ok a => ret a
  | Err e => error (wrap e)
  | Panic w => λ _, Some (Panic w)
  end.

Definition here : P Position := λ p, Some (Ok (Pos (current p), p)).
Definition at_token (t : TokenType) : P bool := λ p, Some (Ok (check t p, p)).
Definition is_any (ts : list TokenType) : P bool := λ p,
  Some (Ok (bool_decide (Type_ (current p) ∈ ts), p)).
Definition match_ (t : TokenType) : P bool := λ p,
  if check t p then Some (Ok (true, set_pos (S (p_pos p)) p)) else Some (Ok (false, p)).
Definition advance : P Token := λ p,
  let tok := current p in
  Some (Ok (tok, if bool_decide (Type_ tok = TokenEOF) then p else set_pos (S (p_pos p)) p)).
Definition defines : P (gmap string DefineNode) := λ p, Some (Ok (p_defines p, p)).

(** A switch of [match] cases: the token, if it is one of the table, is consumed. *)
Fixpoint match_any {B} (table : list (TokenType * B)) : P (option B) :=
  match table with
  | [] => ret None
  | (t, b) :: table =>
      let? m := match_ t in if (m : bool) then ret (Some b) else match_any table
  end.

Definition expect (t : TokenType) (msg : string) : P unit :=
  let? m := match_ t in if (m : bool) then ret tt else error msg.
(** Check the type of the token, and consume it. *)
Definition token (t : TokenType) (msg : string) : P Token :=
  let? m := at_token t in if (m : bool) then advance else error msg.
Definition ident (msg : string) : P string := let? tok := token TokenIdent msg in ret (Value tok).

(** Items separated by commas. *)
Definition comma_list {A} (item : P A) (init : list A) : P (list A) :=
  loop (λ l, let? x := item in let? more := match_ TokenComma in ret (l ++ [x], more)) init.

(** ** Durations *)

Definition take_front (s : string) : string := String.substring 0 (String.length s - 1) s.

(** Bytes of text in lower case, as in the lexer's tokens. *)
Definition lower_text (s : string) : string :=
  string_of_list_ascii (ToLower_words (list_ascii_of_string s)).

Definition parseDuration (s0 : string) : result Duration :=
  let s := lower_text s0 in
  if HasSuffix s "d" then
    match Atoi (take_front s) with
    | (n, None) => Ok (wrap64 (wrap64 (n * 24) * Hour))
    | (_, Some e) => Err (Atoi_error (take_front s) e)
    end
  else if HasSuffix s "w" then
    match Atoi (take_front s) with
    | (n, None) => Ok (wrap64 (wrap64 (wrap64 (n * 7) * 24) * Hour))
    | (_, Some e) => Err (Atoi_error (take_front s) e)
    end
  else ParseDuration s.

Definition duration (msg what : string) : P Duration :=
  let? tok := token TokenDuration msg in
  lift (parseDuration (Value tok)) (λ e, what +:+ e).

Section parser.
(** [strconv.ParseFloat] (whose value is used even on an error) and
    [time.Parse(time.RFC3339, _)]. *)
Context (ParseFloat : string → float64) (ParseRFC3339 : string → Time + string).

Definition time_result (r : Time + string) : result Time :=
  match r with inl t => Ok t | inr e => Err e end.

(** ** Expressions, over the parser of primary expressions *)

Definition additive_ops : list (TokenType * string) := [(TokenPlus, "+"); (TokenMinus, "-")].
Definition multiplicative_ops : list (TokenType * string) :=
  [(TokenStar, "*"); (TokenSlash, "/"); (TokenPercent, "%")].
Definition comparison_ops : list (TokenType * string) :=
  [(TokenEq, "="); (TokenNeq, "!="); (TokenLt, "<"); (TokenLte, "<="); (TokenGt, ">");
   (TokenGte, ">="); (TokenLike, "like"); (TokenMatches, "matches")].
Definition aggregations : list (TokenType * string) :=
  [(TokenCount, "count"); (TokenSum, "sum"); (TokenAvg, "avg"); (TokenMin, "min");
   (TokenMax, "max"); (TokenP50, "p50"); (TokenP90, "p90"); (TokenP95, "p95"); (TokenP99, "p99")].

Definition checkAggregation : P bool := is_any aggregations.*1.

(** Left-associative operators of one precedence. *)
Definition binary_loop (ops : list (TokenType * string)) (operand : P Expr) (lhs : Expr) : P Expr :=
  loop (λ lhs,
    let? op := match_any ops in
    match op with
    | None => ret (lhs, false)
    | Some op =>
        let? rhs := operand in
        ret (BinaryExpr lhs op rhs (expr_Position lhs), true)
    end) lhs.

Section levels.
Context (parsePrimary : P Expr).

Fixpoint unary_prefix (fuel : nat) (t : TokenType) (op : string) (operand : P Expr) : P Expr := λ p,
  match fuel with
  | O => None
  | S fuel =>
      (let? m := match_ t in
       if (m : bool) then
         let? e := unary_prefix fuel t op operand in ret (UnaryExpr op e (expr_Position e))
       else operand) p
  end.

Definition parseUnary : P Expr := λ p,
  unary_prefix (S (remaining p)) TokenMinus "-" parsePrimary p.
Definition parseMultiplicative : P Expr :=
  let? lhs := parseUnary in binary_loop multiplicative_ops parseUnary lhs.
Definition parseAdditive : P Expr :=
  let? lhs := parseMultiplicative in binary_loop additive_ops parseMultiplicative lhs.

(** The loop of [parseComparison]; "in" ends it. *)
Definition parseComparison : P Expr :=
  let? lhs := parseAdditive in
  loop (λ lhs,
    let? op := match_any comparison_ops in
    match op with
    | Some op =>
        let? rhs := parseAdditive in
        ret (BinaryExpr lhs op rhs (expr_Position lhs), true)
    | None =>
        let? m := match_ TokenIn in
        if (m : bool) then
          let? rhs := parsePrimary in
          ret (BinaryExpr lhs "in" rhs (expr_Position lhs), false)
        else ret (lhs, false)
    end) lhs.

Definition parseNot : P Expr := λ p,
  unary_prefix (S (remaining p)) TokenNot "not" parseComparison p.
Definition parseAnd : P Expr :=
  let? lhs := parseNot in binary_loop [(TokenAnd, "and")] parseNot lhs.
Definition parseOr : P Expr :=
  let? lhs := parseAnd in binary_loop [(TokenOr, "or")] parseAnd lhs.
Definition parseExpression : P Expr := parseOr.

(** ** Pipe operations *)

Definition parseSource : P SourceNode :=
  let? pos := here in
  let? ty := match_any [(TokenMetrics, "metrics"); (TokenLogs, "logs"); (TokenTraces, "traces");
                        (TokenEvents, "events")] in
  match ty with
  | Some sourceType =>
      let? dot := match_ TokenDot in
      if (dot : bool) then
        let? name := ident "expected metric name after '.'" in
        ret (mkSourceNode sourceType name pos)
      else ret (mkSourceNode sourceType "" pos)
  | None =>
      let? id := at_token TokenIdent in
      if (id : bool) then
        let? tok := advance in
        let? defs := defines in
        match defs !! Value tok with
        | Some def => ret (q_Source (def_Query def))
        | None => error ("unknown source '" +:+ Value tok +:+ "' (expected metrics, logs, traces, or events)")
        end
      else error "expected data source (metrics, logs, traces, or events)"
  end.

Definition parseWhere : P PipeNode :=
  let? pos := here in advance ;? let? cond := parseExpression in ret (WhereNode cond pos).

Definition select_field : P (Expr * string) :=
  let? expr := parseExpression in
  let? m := match_ TokenAs in
  if (m : bool) then let? alias := ident "expected alias name after 'as'" in ret (expr, alias)
  else ret (expr, "").

Definition parseSelect : P PipeNode :=
  let? pos := here in advance ;?
  let? fields := comma_list select_field [] in ret (SelectNode fields pos).

Definition parseAggregation : P AggregationExpr :=
  let? fn := match_any aggregations in
  match fn with
  | None => error "expected aggregation function"
  | Some fn =>
      let? m := match_ TokenLParen in
      if (m : bool) then
        let? id := at_token TokenIdent in
        let? field := if (id : bool) then let? tok := advance in ret (Value tok) else ret "" in
        expect TokenRParen "expected ')' after aggregation field" ;?
        ret (mkAggregationExpr fn field "")
      else ret (mkAggregationExpr fn "" "")
  end.

Definition group_fields : P (list string) :=
  expect TokenLParen "expected '(' after 'by'" ;?
  let? fields := comma_list (ident "expected field name in group by") [] in
  expect TokenRParen "expected ')' to close group by" ;? ret fields.

Definition aggregation_loop : P (list AggregationExpr) :=
  loop (λ aggs,
    let? c := checkAggregation in
    if (c : bool) then
      let? agg := parseAggregation in
      let? more := match_ TokenComma in ret (aggs ++ [agg], more)
    else ret (aggs, false)) [].

Definition parseGroupBy : P PipeNode :=
  let? pos := here in
  let? aggs := aggregation_loop in
  let? m := match_ TokenBy in
  if (m : bool) then let? fields := group_fields in ret (GroupByNode aggs fields pos)
  else ret (GroupByNode aggs [] pos).

Definition order_field : P OrderField :=
  let? f := ident "expected field name in order by" in
  let? d := match_ TokenDesc in
  if (d : bool) then ret (mkOrderField f true)
  else match_ TokenAsc ;? ret (mkOrderField f false).

Definition parseOrderBy : P OrderByNode :=
  let? pos := here in advance ;?
  expect TokenBy "expected 'by' after 'order'" ;?
  let? fields := comma_list order_field [] in ret (mkOrderByNode fields pos).

Definition parseLimit : P LimitNode :=
  let? pos := here in advance ;?
  let? tok := token TokenNumber "expected number after 'limit'" in
  match Atoi (Value tok) with
  | (_, Some e) => error ("invalid limit: " +:+ Atoi_error (Value tok) e)
  | (count, None) =>
      let? m := match_ TokenOffset in
      if (m : bool) then
        let? off := token TokenNumber "expected number after 'offset'" in
        ret (mkLimitNode count (Atoi (Value off)).1 pos)
      else ret (mkLimitNode count 0 pos)
  end.

Definition parseTop : P PipeNode :=
  let? pos := here in advance ;?
  let? tok := token TokenNumber "expected number after 'top'" in
  let count := (Atoi (Value tok)).1 in
  let? id := at_token TokenIdent in
  if (id : bool) then let? f := advance in ret (TopNode count (Value f) pos)
  else ret (TopNode count "" pos).

Definition parseWindow : P PipeNode :=
  let? pos := here in advance ;?
  let? ty := match_any [(TokenTumbling, "tumbling"); (TokenSliding, "sliding"); (TokenSession, "session")] in
  match ty with
  | None => error "expected window type (tumbling, sliding, session)"
  | Some ty =>
      expect TokenEq ("expected '=' after '" +:+ ty +:+ "'") ;?
      let? d := duration "expected duration after window type" "invalid duration: " in
      ret (WindowNode ty d pos)
  end.

(** One item of the "on" list: the fields and the tolerance so far. *)
Definition correlate_item (st : list string * Duration) : P ((list string * Duration) * bool) :=
  let '(fields, tol) := st in
  let? time := at_token TokenTime in
  let? st' :=
    if (time : bool) then
      advance ;?
      let? pm := match_ TokenPlusMinus in
      if (pm : bool) then
        let? d := duration ("expected duration after '" +:+ String "194" (String "177" "'")) "invalid time tolerance: " in
        ret (fields, d)
      else ret (fields, tol)
    else
      let? id := at_token TokenIdent in
      if (id : bool) then let? tok := advance in ret (fields ++ [Value tok], tol)
      else ret (fields, tol) in
  let? more := match_ TokenComma in ret (st', more).

Definition parseCorrelate : P PipeNode :=
  let? pos := here in advance ;?
  let? target := match_any [(TokenLogs, "logs"); (TokenTraces, "traces"); (TokenMetrics, "metrics")] in
  match target with
  | None => error "expected correlation target (logs, traces, metrics)"
  | Some target =>
      expect TokenOn "expected 'on' clause in correlate" ;?
      expect TokenLParen "expected '(' after 'on'" ;?
      let? (fields, tol) := loop correlate_item ([], 0) in
      expect TokenRParen "expected ')' to close correlation fields" ;?
      ret (CorrelateNode target fields tol pos)
  end.

Definition anomalies_param (st : string * float64) : P ((string * float64) * bool) :=
  let '(algorithm, sensitivity) := st in
  let? a := match_ TokenAlgorithm in
  if (a : bool) then
    expect TokenEq "expected '=' after 'algorithm'" ;?
    let? name := ident "expected algorithm name" in ret ((name, sensitivity), true)
  else
    let? s := match_ TokenSensitivity in
    if (s : bool) then
      expect TokenEq "expected '=' after 'sensitivity'" ;?
      let? tok := token TokenNumber "expected number for sensitivity" in
      ret ((algorithm, ParseFloat (Value tok)), true)
    else ret (st, false).

Definition parseAnomalies : P PipeNode :=
  let? pos := here in advance ;?
  let? (algorithm, sensitivity) := loop anomalies_param ("ensemble", f64_of_decimal 8 1) in
  ret (AnomaliesNode algorithm sensitivity pos).

Definition parseExtract : P PipeNode :=
  let? pos := here in advance ;?
  let? auto := match_ TokenAuto in
  if (auto : bool) then ret (ExtractNode "" true pos)
  else
    let? pat := match_ TokenPattern in
    if (pat : bool) then
      expect TokenEq "expected '=' after 'pattern'" ;?
      let? tok := token TokenString "expected pattern string" in
      ret (ExtractNode (Value tok) false pos)
    else
      let? tok := token TokenString "expected 'auto' or pattern string" in
      ret (ExtractNode (Value tok) false pos).

Definition histogram_param (st : Z * list string) : P ((Z * list string) * bool) :=
  let '(buckets, fields) := st in
  let? b := match_ TokenBuckets in
  if (b : bool) then
    expect TokenEq "expected '=' after 'buckets'" ;?
    let? tok := token TokenNumber "expected number of buckets" in
    ret (((Atoi (Value tok)).1, fields), true)
  else
    let? g := match_ TokenBy in
    if (g : bool) then
      let? more := group_fields in ret ((buckets, fields ++ more), true)
    else ret (st, false).

Definition parseHistogram : P PipeNode :=
  let? pos := here in advance ;?
  let? field := ident "expected field name for histogram" in
  let? (buckets, fields) := loop histogram_param (20, []) in
  ret (HistogramNode field buckets fields pos).

Definition parseDistinct : P PipeNode :=
  let? pos := here in advance ;?
  let? field := ident "expected field name after 'distinct'" in
  ret (SelectNode [(FunctionCallExpr "distinct" [IdentifierExpr field [] pos] pos, "")] pos).

Definition parsePipe : P PipeNode := λ p,
  (if check TokenWhere p then parseWhere
   else if check TokenSelect p then parseSelect
   else if check TokenOrder p then let? n := parseOrderBy in ret (OrderBy n)
   else if check TokenLimit p then let? n := parseLimit in ret (Limit n)
   else if check TokenTop p then parseTop
   else if check TokenWindow p then parseWindow
   else if check TokenCorrelate p then parseCorrelate
   else if check TokenAnomalies p then parseAnomalies
   else if check TokenExtract p then parseExtract
   else if check TokenHistogram p then parseHistogram
   else if check TokenDistinct p then parseDistinct
   else let? agg := checkAggregation in
        if (agg : bool) then parseGroupBy
        else error "expected pipe operation (where, select, avg, sum, count, etc.)") p.

(** The range of [parseTimeRange] before the shift: relative, start and end. *)
Definition time_bounds : P (Duration * Time * Time) :=
  let? l := match_ TokenLast in
  if (l : bool) then
    let? d := duration "expected duration after 'last'" "invalid duration: " in
    ret (d, zero_time, zero_time)
  else
    let? b := match_ TokenBetween in
    if (b : bool) then
      let? s := token TokenString "expected start time string" in
      let? start := lift (time_result (ParseRFC3339 (Value s))) (λ e, "invalid start time: " +:+ e) in
      expect TokenAnd "expected 'and' in between clause" ;?
      let? s := token TokenString "expected end time string" in
      let? end_ := lift (time_result (ParseRFC3339 (Value s))) (λ e, "invalid end time: " +:+ e) in
      ret (0, start, end_)
    else ret (0, zero_time, zero_time).

Definition parseTimeRange : P TimeRangeNode :=
  let? pos := here in
  let? (rel, start, end_) := time_bounds in
  let? sh := match_ TokenShift in
  if (sh : bool) then
    let? ok := is_any [TokenDuration; TokenMinus] in
    if (ok : bool) then
      let? negative := match_ TokenMinus in
      let? d := duration "expected duration after 'shift'" "invalid shift duration: " in
      ret (mkTimeRangeNode rel start end_ (if (negative : bool) then wrap64 (- d) else d) pos)
    else error "expected duration after 'shift'"
  else ret (mkTimeRangeNode rel start end_ 0 pos).

Definition pipes_loop : P (list PipeNode) :=
  loop (λ pipes,
    let? m := match_ TokenPipe in
    if (m : bool) then let? pipe := parsePipe in ret (pipes ++ [pipe], true)
    else ret (pipes, false)) [].

Definition parseQuery : P Query :=
  let? pos := here in
  let? source := parseSource in
  let? pipes := pipes_loop in
  let? t := is_any [TokenLast; TokenBetween] in
  if (t : bool) then let? tr := parseTimeRange in ret (mkQuery source pipes (Some tr) pos)
  else ret (mkQuery source pipes None pos).

(** ** Primary expressions *)

Definition parseList (pos : Position) : P Expr :=
  let? values := comma_list parsePrimary [] in
  expect TokenRParen "expected ')' to close list" ;? ret (ListExpr values pos).

(** The arguments after the parenthesis, up to the closing one. *)
Definition call_args : P (list Expr) :=
  let? none := at_token TokenRParen in
  let? args := if (none : bool) then ret [] else comma_list parseExpression [] in
  expect TokenRParen "expected ')' after function arguments" ;? ret args.

Definition parseAggregationAsFunction : P Expr :=
  let? pos := here in
  let? tok := advance in
  expect TokenLParen ("expected '(' after " +:+ Value tok) ;?
  let? args := call_args in ret (FunctionCallExpr (Value tok) args pos).

(** The path after the name of an identifier. *)
Definition path_loop : P (list string) :=
  loop (λ path,
    let? dot := match_ TokenDot in
    if (dot : bool) then
      let? ok := is_any [TokenIdent; TokenStar] in
      if (ok : bool) then let? tok := advance in ret (path ++ [Value tok], true)
      else error "expected identifier after '.'"
    else ret (path, false)) [].

Definition parseIdentifierOrCall : P Expr :=
  let? pos := here in
  let? tok := advance in
  let? m := match_ TokenLParen in
  if (m : bool) then
    let? args := call_args in ret (FunctionCallExpr (Value tok) args pos)
  else
    let? path := path_loop in ret (IdentifierExpr (Value tok) path pos).

(** What follows an opening parenthesis. *)
Definition parse_parenthesis (pos : Position) : P Expr :=
  let? sub := is_any [TokenMetrics; TokenLogs; TokenTraces; TokenEvents] in
  if (sub : bool) then
    let? q := parseQuery in
    expect TokenRParen "expected ')' to close subquery" ;? ret (SubqueryExpr q pos)
  else
    let? lst := is_any [TokenString; TokenNumber] in
    if (lst : bool) then parseList pos
    else
      let? e := parseExpression in
      expect TokenRParen "expected ')' to close expression" ;? ret e.

Definition number_literal (s : string) : Literal :=
  if Contains s "." then LiteralFloat (ParseFloat s) else LiteralInt (Atoi s).1.

Definition keyword_literals : list (TokenType * Literal) :=
  [(TokenTrue, LiteralBool true); (TokenFalse, LiteralBool false); (TokenNull, LiteralNull)].

(** The switch of [parsePrimary]. *)
Definition primary_body : P Expr := λ p,
  let pos := Pos (current p) in
  let literal (f : string → Literal) : P Expr :=
    let? tok := advance in ret (LiteralExpr (f (Value tok)) pos) in
  (if check TokenNumber p then literal number_literal
   else if check TokenDuration p then
     let? tok := advance in
     let? d := lift (parseDuration (Value tok)) (λ e, "invalid duration: " +:+ e) in
     ret (LiteralExpr (LiteralDuration d) pos)
   else if check TokenString p then literal LiteralString
   else if check TokenRegex p then literal LiteralRegex
   else
     let? kw := match_any keyword_literals in
     match kw with
     | Some v => ret (LiteralExpr v pos)
     | None =>
         let? id := at_token TokenIdent in
         if (id : bool) then parseIdentifierOrCall
         else
           let? agg := checkAggregation in
           if (agg : bool) then parseAggregationAsFunction
           else
             let? par := match_ TokenLParen in
             if (par : bool) then parse_parenthesis pos
             else
               let? star := match_ TokenStar in
               if (star : bool) then ret (IdentifierExpr "*" [] pos)
               else error "unexpected token in expression"
     end) p.
End levels.

(** Nested expressions are only reached after a token was consumed. *)
Fixpoint parsePrimary (fuel : nat) : P Expr :=
  match fuel with
  | O => λ _, None
  | S fuel => primary_body (parsePrimary fuel)
  end.

(** A parser of expressions or queries with enough fuel for the tokens lhs. *)
Definition with_primary {A} (f : P Expr → P A) : P A := λ p, f (parsePrimary (S (remaining p))) p.

(** ** SQL *)

Definition reserved_words : list TokenType :=
  [TokenFrom; TokenWhere; TokenGroup; TokenHaving; TokenOrder; TokenLimit; TokenJoin; TokenInner;
   TokenLeft; TokenRight; TokenFull; TokenOn; TokenAnd; TokenOr].
Definition checkKeyword (p : Parser) : bool := bool_decide (Type_ (current p) ∈ reserved_words).
Definition checkJoin : P bool := is_any [TokenJoin; TokenInner; TokenLeft; TokenRight; TokenFull].

Definition expression : P Expr := with_primary parseExpression.

(** An identifier that is not a keyword. *)
Definition implicit_alias : P bool := λ p,
  Some (Ok (check TokenIdent p && negb (checkKeyword p), p)).

Definition parseSQLSelectField : P SQLSelectField :=
  let? expr := expression in
  let? as_ := match_ TokenAs in
  if (as_ : bool) then
    let? alias := ident "expected alias name after AS" in ret (mkSQLSelectField expr alias)
  else
    let? imp := implicit_alias in
    if (imp : bool) then let? tok := advance in ret (mkSQLSelectField expr (Value tok))
    else ret (mkSQLSelectField expr "").

Definition parseSQLSelect : P SQLSelectClause :=
  let? pos := here in advance ;?
  let? distinct := match_ TokenDistinct in
  let? fields := comma_list parseSQLSelectField [] in
  ret (mkSQLSelectClause distinct fields pos).

(** Compound conditions: the first one is used. *)
Fixpoint exprToJoinCondition (expr : Expr) : P SQLJoinCondition :=
  match expr with
  | BinaryExpr l op r pos =>
      if String.eqb op "=" then ret (mkSQLJoinCondition l "=" r pos)
      else if String.eqb op "and" then exprToJoinCondition l
      else errorWithHint "Use '=' for equality joins or 'BETWEEN' for time-based joins"
             ("unsupported join operator: " +:+ op)
  | _ => errorWithHint "JOIN conditions should be in the form: t1.column = t2.column"
           "invalid join condition"
  end.

Definition parseSQLJoinCondition : P SQLJoinCondition :=
  let? expr := expression in exprToJoinCondition expr.

Definition parseSQLGroupBy : P (list Expr) := comma_list expression [].

(** A part of a query that is there when its keyword is. *)
Definition optional {A} (t : TokenType) (part : P A) : P (option A) :=
  let? m := at_token t in if (m : bool) then let? a := part in ret (Some a) else ret None.

Section sql.
Context (parseSQLQuery : P SQLQuery).

Definition from_alias : P string :=
  let? imp := implicit_alias in
  if (imp : bool) then let? tok := advance in ret (Value tok)
  else
    let? as_ := match_ TokenAs in
    if (as_ : bool) then ident "expected alias after AS" else ret "".

Definition parseSQLFrom : P SQLFromClause :=
  let? pos := here in
  let? par := match_ TokenLParen in
  if (par : bool) then
    let? sel := at_token TokenSelect in
    if (sel : bool) then
      let? q := parseSQLQuery in
      expect TokenRParen "expected ')' after subquery" ;?
      let? alias := from_alias in ret (FromSubquery q alias pos)
    else error "expected SELECT in subquery"
  else
    let? source := parseSource in
    let? alias := from_alias in ret (FromSource source alias pos).

Definition join_type : P JoinType :=
  let? ty := match_any [(TokenInner, (JoinInner, "INNER")); (TokenLeft, (JoinLeft, "LEFT"));
                        (TokenRight, (JoinRight, "RIGHT")); (TokenFull, (JoinFull, "FULL"))] in
  match ty with
  | Some (ty, name) =>
      (match ty with JoinInner => ret false | _ => match_ TokenOuter end) ;?
      expect TokenJoin ("expected JOIN after " +:+ name) ;? ret ty
  | None => expect TokenJoin "expected JOIN keyword" ;? ret JoinInner
  end.

Definition parseSQLJoin : P SQLJoinClause :=
  let? pos := here in
  let? ty := join_type in
  let? source := parseSQLFrom in
  let? on := match_ TokenOn in
  if (on : bool) then
    let? cond := parseSQLJoinCondition in ret (mkSQLJoinClause ty source (Some cond) pos)
  else ret (mkSQLJoinClause ty source None pos).

Definition joins_loop : P (list SQLJoinClause) :=
  loop (λ joins,
    let? m := checkJoin in
    if (m : bool) then let? j := parseSQLJoin in ret (joins ++ [j], true)
    else ret (joins, false)) [].

Definition sql_body : P SQLQuery :=
  let? pos := here in
  let? sel := parseSQLSelect in
  expect TokenFrom "expected FROM after SELECT" ;?
  let? from := parseSQLFrom in
  let? joins := joins_loop in
  let? where_ := optional TokenWhere (advance ;? expression) in
  let? groupBy := optional TokenGroup
    (advance ;? expect TokenBy "expected BY after GROUP" ;? parseSQLGroupBy) in
  let? having := optional TokenHaving (advance ;? expression) in
  let? orderBy := optional TokenOrder parseOrderBy in
  let? limit := optional TokenLimit parseLimit in
  ret (mkSQLQuery sel from joins where_ (default [] groupBy) having orderBy limit pos).
End sql.

(** Subqueries are reached after a parenthesis. *)
Fixpoint parseSQLQuery (fuel : nat) : P SQLQuery :=
  match fuel with
  | O => λ _, None
  | S fuel => sql_body (parseSQLQuery fuel)
  end.

(** ** Statements *)

Definition parseDefine : P DefineNode :=
  let? pos := here in advance ;?
  let? name := ident "expected name after 'define'" in
  expect TokenEq "expected '=' after define name" ;?
  expect TokenLParen "expected '(' to start query definition" ;?
  let? q := with_primary parseQuery in
  expect TokenRParen "expected ')' to end query definition" ;?
  ret (mkDefineNode name q pos).

Definition add_define (def : DefineNode) : P unit := λ p,
  Some (Ok (tt, set_defines (<[def_Name def := def]> (p_defines p)) p)).

Definition defines_loop : P unit :=
  loop (λ _,
    let? m := at_token TokenDefine in
    if (m : bool) then let? def := parseDefine in add_define def ;? ret (tt, true)
    else ret (tt, false)) tt.

Definition Parser_Parse : P Statement :=
  defines_loop ;?
  let? pos := here in
  let? sel := at_token TokenSelect in
  if (sel : bool) then
    let? q := (λ p, parseSQLQuery (S (remaining p)) p) in
    let? defs := defines in ret (SQLStatement q pos defs)
  else
    let? q := with_primary parseQuery in
    let? defs := defines in ret (PipeStatement q defs).

(** [Parse]: the lexer's error, or the parser's. *)
Definition Parse (src : string) : option (result Statement) :=
  match Tokenize (NewLexer src) with
  | None => None
  | Some (Panic w) => Some (Panic w)
  | Some (Err e) => Some (Err e)
  | Some (Ok (_, Some e)) => Some (Err e)
  | Some (Ok (toks, None)) =>
      match Parser_Parse (NewParser toks) with
      | None => None
      | Some r => Some (let! (st, _) := r in Ok st)
      end
  end.
End parser.

(** ** Progress *)

Lemma runs_error {A} k (Q : A → nat) msg : runs k Q (error msg).
Proof. done. Qed.

Lemma check_remaining t p : t ≠ TokenEOF → check t p = true → (1 ≤ remaining p)%nat.
Proof.
  intros Ht Hc. unfold check in Hc. apply bool_decide_eq_true in Hc. unfold current in Hc.
  destruct (p_tokens p !! p_pos p) as [tok|] eqn:E; [|by subst t].
  apply lookup_lt_Some in E. unfold remaining, parser_cursor. lia.
Qed.

Lemma remaining_next p : remaining (set_pos (S (p_pos p)) p) = (remaining p - 1)%nat.
Proof. unfold remaining, parser_cursor. cbn. lia. Qed.

Lemma runs_match k t : t ≠ TokenEOF → runs k if_true (match_ t).
Proof.
  intros Ht p _. unfold match_, if_true. destruct (check t p) eqn:E; [|lia].
  pose proof (check_remaining t p Ht E). rewrite remaining_next. lia.
Qed.

Lemma runs_at_token k t : runs k any (at_token t).
Proof. intros p _. cbn. unfold any. lia. Qed.
Lemma runs_is_any k ts : runs k any (is_any ts).
Proof. intros p _. cbn. unfold any. lia. Qed.
Lemma runs_here k : runs k any here.
Proof. intros p _. cbn. unfold any. lia. Qed.
Lemma runs_defines k : runs k any defines.
Proof. intros p _. cbn. unfold any. lia. Qed.
Lemma runs_advance k : runs k any advance.
Proof. intros p _. unfold advance, any. destruct (bool_decide _); rewrite ?remaining_next; lia. Qed.
Lemma runs_add_define k d : runs k any (add_define d).
Proof. intros p _. unfold add_define, any, remaining, parser_cursor. cbn. lia. Qed.
Lemma runs_implicit_alias k : runs k any implicit_alias.
Proof. intros p _. cbn. unfold any. lia. Qed.

Lemma runs_match_any {B} k (table : list (TokenType * B)) :
  Forall (λ tb, tb.1 ≠ TokenEOF) table → runs k if_some (match_any table).
Proof.
  induction 1 as [|[t b] table Ht H IH]; [by apply runs_ret|]. cbn [match_any].
  eapply runs_bind; [by apply runs_match|]. intros [] Hk; cbn.
  - by apply runs_ret.
  - eapply runs_mono; [exact IH|lia|]. intros a. lia.
Qed.

Lemma runs_token k t msg : t ≠ TokenEOF → runs k one (token t msg).
Proof.
  intros Ht p Hp. unfold token, bind, at_token. destruct (check t p) eqn:E; [|done].
  pose proof (check_remaining t p Ht E). unfold advance, check in *. apply bool_decide_eq_true in E.
  rewrite E, bool_decide_false by done. rewrite remaining_next. unfold one. lia.
Qed.

Lemma runs_ident k msg : runs k one (ident msg).
Proof.
  eapply runs_bind; [by apply runs_token|]. intros. by apply runs_ret.
Qed.

Lemma runs_expect k t msg : t ≠ TokenEOF → runs k one (expect t msg).
Proof.
  intros Ht. eapply runs_bind; [by apply runs_match|]. intros [] _; [by apply runs_ret|done].
Qed.

Lemma runs_lift {A} k (Q : A → nat) (r : result A) w :
  is_panic r = false → (∀ a, Q a = 0%nat) → runs k Q (lift r w).
Proof. intros Hr HQ. destruct r; [by apply runs_ret|done|done]. Qed.

Lemma runs_comma_list {A} (item : P A) k init : runs k any item → runs k any (comma_list item init).
Proof.
  intros Hi. apply runs_loop. intros l. eapply runs_bind; [exact Hi|]. intros x _.
  eapply runs_bind; [by apply runs_match|]. intros m _. apply runs_ret. destruct m; reflexivity.
Qed.

Lemma ParseDuration_no_panic s : is_panic (ParseDuration s) = false.
Proof.
  assert (Hterm : ∀ o s, is_panic (duration_term o s) = false).
  { intros o t. unfold duration_term. repeat (case_match; try done). }
  assert (Hterms : ∀ f o d s, is_panic (duration_terms f o d s) = false).
  { induction f as [|f IH]; intros o d t; destruct t as [|c t]; try done. cbn [duration_terms].
    pose proof (Hterm o (String c t)) as H. destruct (duration_term o (String c t)) as [[v s1]|e|w]; [|done..].
    cbn [res_bind]. destruct (2 ^ 63 <? _); [done|]. apply IH. }
  unfold ParseDuration. destruct (match s with EmptyString => _ | String c s' => _ end) as [neg t].
  destruct (String.eqb t "0"); [done|]. destruct (String.eqb t ""); [done|].
  pose proof (Hterms (String.length t) s 0 t) as H.
  destruct (duration_terms _ _ _ _) as [d|e|w]; [|done..]. cbn [res_bind].
  destruct neg; [done|]. by destruct (int64_max <? d).
Qed.

Lemma parseDuration_no_panic s : is_panic (parseDuration s) = false.
Proof.
  unfold parseDuration. destruct (HasSuffix _ "d"); [by destruct (Atoi _) as [? []]|].
  destruct (HasSuffix _ "w"); [by destruct (Atoi _) as [? []]|]. apply ParseDuration_no_panic.
Qed.

Lemma runs_duration k msg what : runs k one (duration msg what).
Proof.
  eapply runs_bind; [by apply runs_token|]. intros tok _.
  apply runs_lift; [apply parseDuration_no_panic|done].
Qed.

#[export] Hint Resolve runs_error runs_match runs_at_token runs_is_any runs_here runs_defines
  runs_advance runs_add_define runs_implicit_alias runs_token runs_ident runs_expect runs_duration
  runs_match_any runs_comma_list : dogwatch.

(** One step of a progress proof: through a bind, a loop or a case. *)
Ltac runs_atom :=
  lazymatch goal with
  | |- runs _ _ (ret _) => apply runs_ret; cbn; try lia; reflexivity
  | |- runs _ _ (error _) => apply runs_error
  | |- runs ?k _ (match_any _) => eapply (runs_mono k k); [apply runs_match_any; repeat constructor; discriminate|lia|intros ?; unfold any, one, if_some; cbn; first [lia|apply Nat.le_0_l]]
  | |- runs ?k _ (match_ _) => eapply (runs_mono k k); [apply runs_match; discriminate|lia|intros ?; unfold any, one, if_true; cbn; first [lia|apply Nat.le_0_l]]
  | |- runs ?k _ _ =>
      eapply (runs_mono k k); [solve [eauto 4 with dogwatch]|lia|intros ?; unfold any, one; cbn; lia]
  end.
Ltac runs_source :=
  lazymatch goal with
  | |- runs _ _ (match_any _) => apply runs_match_any; repeat constructor; discriminate
  | |- runs _ _ (match_ _) => apply runs_match; discriminate
  | |- runs _ _ (token _ _) => apply runs_token; discriminate
  | |- runs _ _ (expect _ _) => apply runs_expect; discriminate
  | |- _ => solve [eauto 4 with dogwatch]
  end.
Ltac runs_case :=
  lazymatch goal with
  | |- runs _ _ (if ?b then _ else _) => destruct b
  | |- runs _ _ (match ?o with _ => _ end) => destruct o
  end.
Ltac runs_step :=
  first
    [ runs_case
    | lazymatch goal with
      | |- runs _ _ (bind _ _) =>
          first [eapply runs_bind; [runs_source|] | apply (runs_bind _ any)];
          [..|let H := fresh in intros ? H; unfold any, one, if_true, if_some in H |- *]
      end
    | runs_atom ].
Ltac runs_auto := cbn beta iota zeta; repeat (runs_step; cbn beta iota zeta).

(** A parser that looks at its state first: each case is a parser of its own. *)
Ltac runs_at :=
  lazymatch goal with
  | Hp : (remaining ?p ≤ ?k)%nat |- match ?c ?p with _ => _ end =>
      let H := fresh in enough (H : runs k any c) by exact (H p Hp)
  end.
Ltac runs_cases :=
  repeat match goal with |- context [if check ?t ?p then _ else _] => destruct (check t p) end;
  runs_at.

(** ** Every parser makes progress and ends *)

Section progress.
Context (ParseFloat : string → float64) (ParseRFC3339 : string → Time + string).

Lemma runs_binary_loop k ops operand e :
  Forall (λ tb, tb.1 ≠ TokenEOF) ops → runs k any operand → runs k any (binary_loop ops operand e).
Proof.
  intros Hops Ho. apply runs_loop. intros l. eapply runs_bind; [by apply runs_match_any|].
  intros [op|] Hk; [|by apply runs_ret]. cbn in *.
  eapply runs_bind; [eapply runs_mono; [exact Ho|lia|]; intros a; reflexivity|].
  intros r _. by apply runs_ret.
Qed.

Lemma runs_prefix t op operand : t ≠ TokenEOF →
  ∀ k, runs k any operand → ∀ fuel, runs k any (λ p, unary_prefix (fuel + S (remaining p)) t op operand p).
Proof.
  intros Ht k Ho fuel p Hp. remember (remaining p) as r eqn:Er. revert p Er Hp fuel.
  induction (lt_wf r) as [r _ IH]. intros p Er Hp fuel. rewrite Nat.add_succ_r. cbn [unary_prefix]. unfold bind at 1.
  unfold match_. destruct (check t p) eqn:E; [|rewrite Er in Hp |- *; exact (Ho p Hp)].
  pose proof (check_remaining t p Ht E) as H1. pose proof (remaining_next p) as H2.
  set (p1 := set_pos (S (p_pos p)) p) in *. unfold bind.
  specialize (IH (r - 1)%nat ltac:(lia) p1 ltac:(lia) ltac:(lia) fuel).
  replace (fuel + S (r - 1))%nat with (fuel + r)%nat in IH by lia.
  destruct (unary_prefix _ _ _ _ p1) as [[[e p2]|e|w]|]; [|done..]. unfold any in *. cbn. lia.
Qed.

Section levels_progress.
Context (prim : P Expr).

Lemma runs_parseUnary k : runs k any prim → runs k any (parseUnary prim).
Proof. intros H. by apply (runs_prefix TokenMinus "-" prim ltac:(done) k H 0). Qed.
Hint Resolve runs_parseUnary : dogwatch.

Lemma runs_level k ops operand :
  Forall (λ tb, tb.1 ≠ TokenEOF) ops → runs k any operand →
  runs k any (let? lhs := operand in binary_loop ops operand lhs).
Proof.
  intros Hops Ho. eapply runs_bind; [exact Ho|]. intros e _.
  eapply runs_mono; [by apply runs_binary_loop|unfold any; lia|intros; unfold any; lia].
Qed.

Lemma runs_parseMultiplicative k : runs k any prim → runs k any (parseMultiplicative prim).
Proof. intros H. apply runs_level; [repeat constructor; discriminate|by apply runs_parseUnary]. Qed.
Lemma runs_parseAdditive k : runs k any prim → runs k any (parseAdditive prim).
Proof. intros H. apply runs_level; [repeat constructor; discriminate|by apply runs_parseMultiplicative]. Qed.
Hint Resolve runs_parseAdditive : dogwatch.

Lemma runs_parseComparison k : runs k any prim → runs k any (parseComparison prim).
Proof.
  intros H. pose proof (runs_parseAdditive k H) as Ha. eapply runs_bind; [exact Ha|]. intros e _.
  eapply runs_mono; [apply (runs_loop _ k)|unfold any; lia|unfold any; lia]. intros l.
  eapply runs_bind; [apply runs_match_any; repeat constructor; discriminate|].
  intros [op|] Hk; cbn in *.
  - eapply runs_bind; [by eapply runs_le; [exact Ha|lia]|]. intros; by apply runs_ret.
  - eapply runs_bind; [by apply runs_match|]. intros [] Hk'; cbn in *; [|by apply runs_ret].
    eapply runs_bind; [by eapply runs_le; [exact H|lia]|]. intros; by apply runs_ret.
Qed.

Lemma runs_parseNot k : runs k any prim → runs k any (parseNot prim).
Proof.
  intros H. exact (runs_prefix TokenNot "not" _ ltac:(done) k (runs_parseComparison k H) 0).
Qed.

Lemma runs_parseExpression k : runs k any prim → runs k any (parseExpression prim).
Proof.
  intros H. apply runs_level; [repeat constructor; discriminate|].
  apply runs_level; [repeat constructor; discriminate|by apply runs_parseNot].
Qed.

(** *** Pipe operations *)

Lemma runs_parseSource k : runs k any parseSource.
Proof. unfold parseSource. runs_auto. Qed.

Section pipes.
Context (k : nat).
Hypothesis Hexpr : ∀ k', (k' ≤ k)%nat → runs k' any (parseExpression prim).

Hint Resolve Hexpr runs_parseSource : dogwatch.

Lemma runs_parseWhere k' : (k' ≤ k)%nat → runs k' any (parseWhere prim).
Proof. intros Hk. unfold parseWhere. runs_auto. Qed.

Lemma runs_select_field k' : (k' ≤ k)%nat → runs k' any (select_field prim).
Proof. intros Hk. unfold select_field. runs_auto. Qed.
Hint Resolve runs_select_field : dogwatch.

Lemma runs_parseSelect k' : (k' ≤ k)%nat → runs k' any (parseSelect prim).
Proof. intros Hk. unfold parseSelect. runs_auto. Qed.
End pipes.

Lemma runs_parseAggregation k : runs k one parseAggregation.
Proof. unfold parseAggregation. runs_auto. Qed.

Lemma runs_checkAggregation k : runs k any checkAggregation.
Proof. apply runs_is_any. Qed.

Lemma runs_group_fields k : runs k one group_fields.
Proof. unfold group_fields. runs_auto. Qed.
Hint Resolve runs_parseAggregation runs_checkAggregation runs_group_fields : dogwatch.

Lemma runs_aggregation_loop k : runs k any aggregation_loop.
Proof. apply runs_loop. intros a. runs_auto. Qed.
Hint Resolve runs_aggregation_loop : dogwatch.

Lemma runs_parseGroupBy k : runs k any parseGroupBy.
Proof. unfold parseGroupBy. runs_auto. Qed.

Lemma runs_order_field k : runs k any order_field.
Proof. unfold order_field. runs_auto. Qed.
Hint Resolve runs_order_field : dogwatch.

Lemma runs_parseOrderBy k : runs k any parseOrderBy.
Proof. unfold parseOrderBy. runs_auto. Qed.

Lemma runs_parseLimit k : runs k any parseLimit.
Proof. unfold parseLimit. runs_auto. Qed.

Lemma runs_parseTop k : runs k any parseTop.
Proof. unfold parseTop. runs_auto. Qed.

Lemma runs_parseWindow k : runs k any parseWindow.
Proof. unfold parseWindow. runs_auto. Qed.

Lemma runs_parseCorrelate k : runs k any parseCorrelate.
Proof.
  assert (Hitem : ∀ k st, runs k (λ x, if_true x.2) (correlate_item st)).
  { intros k' [fields tol]. unfold correlate_item. runs_auto. }
  unfold parseCorrelate. runs_auto.
Qed.

Lemma runs_parseAnomalies k : runs k any (parseAnomalies ParseFloat).
Proof.
  assert (Hitem : ∀ k st, runs k (λ x, if_true x.2) (anomalies_param ParseFloat st)).
  { intros k' [a s]. unfold anomalies_param. runs_auto. }
  unfold parseAnomalies. runs_auto.
Qed.

Lemma runs_parseExtract k : runs k any parseExtract.
Proof. unfold parseExtract. runs_auto. Qed.

Lemma runs_parseHistogram k : runs k any parseHistogram.
Proof.
  assert (Hitem : ∀ k st, runs k (λ x, if_true x.2) (histogram_param st)).
  { intros k' [b f]. unfold histogram_param. runs_auto. }
  unfold parseHistogram. runs_auto.
Qed.

Lemma runs_parseDistinct k : runs k any parseDistinct.
Proof. unfold parseDistinct. runs_auto. Qed.
Hint Resolve runs_parseOrderBy runs_parseLimit runs_parseTop runs_parseWindow runs_parseCorrelate
  runs_parseAnomalies runs_parseExtract runs_parseHistogram runs_parseDistinct runs_parseGroupBy : dogwatch.

Lemma runs_parsePipe k :
  runs k any (parseExpression prim) → runs k any (parsePipe ParseFloat prim).
Proof.
  intros He. assert (Hexpr : ∀ k', (k' ≤ k)%nat → runs k' any (parseExpression prim))
    by (intros; by eapply runs_le).
  pose proof (runs_parseWhere k Hexpr k ltac:(lia)). pose proof (runs_parseSelect k Hexpr k ltac:(lia)).
  intros p Hp. unfold parsePipe. runs_cases; solve [eauto with dogwatch|runs_auto].
Qed.

Lemma runs_time_bounds k : runs k any (time_bounds ParseRFC3339).
Proof.
  assert (Hl : ∀ k s w, runs k any (lift (time_result (ParseRFC3339 s)) w))
    by (intros ? s ?; apply runs_lift; [by destruct (ParseRFC3339 s)|done]).
  unfold time_bounds. runs_auto.
Qed.
Hint Resolve runs_time_bounds : dogwatch.

Lemma runs_parseTimeRange k : runs k any (parseTimeRange ParseRFC3339).
Proof. unfold parseTimeRange. runs_auto. Qed.
Hint Resolve runs_parseTimeRange runs_parseSource : dogwatch.

Lemma runs_parseQuery k :
  runs k any (parseExpression prim) → runs k any (parseQuery ParseFloat ParseRFC3339 prim).
Proof.
  intros He. assert (Hpipes : runs k any (pipes_loop ParseFloat prim)).
  { apply runs_loop. intros pipes. eapply runs_bind; [by apply runs_match|].
    intros [] Hk; [|by apply runs_ret]. eapply runs_bind.
    - eapply runs_mono; [by apply runs_parsePipe|cbn; lia|]. intros a; reflexivity.
    - intros a _. by apply runs_ret. }
  assert (Hp : ∀ k', (k' ≤ k)%nat → runs k' any (pipes_loop ParseFloat prim))
    by (intros; by eapply runs_le).
  unfold parseQuery. runs_auto.
Qed.

(** *** Primary expressions *)

Lemma runs_path_loop k : runs k any path_loop.
Proof. apply runs_loop. intros a. runs_auto. Qed.
Hint Resolve runs_path_loop : dogwatch.

Section primary.
Context (k : nat).
Hypothesis Hprim : runs k any prim.

Lemma prim_le k' : (k' ≤ k)%nat → runs k' any prim.
Proof. intros Hk. by eapply runs_le. Qed.
Lemma expr_le k' : (k' ≤ k)%nat → runs k' any (parseExpression prim).
Proof. intros Hk. by apply runs_parseExpression, prim_le. Qed.
Lemma query_le k' : (k' ≤ k)%nat → runs k' any (parseQuery ParseFloat ParseRFC3339 prim).
Proof. intros Hk. by apply runs_parseQuery, expr_le. Qed.
Hint Resolve prim_le expr_le query_le : dogwatch.

Lemma runs_parseList pos k' : (k' ≤ k)%nat → runs k' any (parseList prim pos).
Proof. intros Hk. unfold parseList. runs_auto. Qed.
Hint Resolve runs_parseList : dogwatch.

Lemma runs_call_args k' : (k' ≤ k)%nat → runs k' any (call_args prim).
Proof. intros Hk. unfold call_args. runs_auto. Qed.
Hint Resolve runs_call_args : dogwatch.

Lemma runs_parse_parenthesis pos k' :
  (k' ≤ k)%nat → runs k' any (parse_parenthesis ParseFloat ParseRFC3339 prim pos).
Proof. intros Hk. unfold parse_parenthesis. runs_auto. Qed.
Hint Resolve runs_parse_parenthesis : dogwatch.

(** With one more token: what is nested comes after one. *)
Lemma runs_primary_body : runs (S k) any (primary_body ParseFloat ParseRFC3339 prim).
Proof.
  assert (Hl : ∀ k s w, runs k any (lift (parseDuration s) w))
    by (intros; apply runs_lift; [apply parseDuration_no_panic|done]).
  assert (Hcall : runs (S k) any (parseIdentifierOrCall prim)) by (unfold parseIdentifierOrCall; runs_auto).
  assert (Hagg : runs (S k) any (parseAggregationAsFunction prim)) by (unfold parseAggregationAsFunction; runs_auto).
  assert (Hcall' : ∀ k', (k' ≤ S k)%nat → runs k' any (parseIdentifierOrCall prim)) by (intros; by eapply runs_le).
  assert (Hagg' : ∀ k', (k' ≤ S k)%nat → runs k' any (parseAggregationAsFunction prim)) by (intros; by eapply runs_le).
  intros p Hp. unfold primary_body. runs_cases; runs_auto.
Qed.
End primary.
End levels_progress.

Lemma primary_body_eof prim p :
  Type_ (current p) = TokenEOF →
  primary_body ParseFloat ParseRFC3339 prim p = error "unexpected token in expression" p.
Proof.
  intros H.
  assert (Hc : ∀ t, t ≠ TokenEOF → check t p = false).
  { intros t Ht. unfold check. rewrite H. by apply bool_decide_false. }
  assert (Hm : ∀ t, t ≠ TokenEOF → match_ t p = Some (Ok (false, p))).
  { intros t Ht. unfold match_. by rewrite Hc. }
  unfold primary_body. rewrite !Hc by done. cbn [match_any keyword_literals].
  unfold bind, ret. repeat (rewrite Hm by done; cbn beta iota).
  unfold at_token. rewrite Hc by done. cbn beta iota. unfold checkAggregation, is_any.
  rewrite H. rewrite bool_decide_false by set_solver. cbn beta iota.
  by repeat (rewrite Hm by done; cbn beta iota).
Qed.

Lemma runs_parsePrimary fuel : ∀ k, (k < fuel)%nat → runs k any (parsePrimary ParseFloat ParseRFC3339 fuel).
Proof.
  induction fuel as [|fuel IH]; intros k Hk; [lia|]. cbn [parsePrimary]. destruct k as [|k].
  - intros p Hp. rewrite primary_body_eof; [done|]. unfold current, remaining, parser_cursor in *.
    by rewrite lookup_ge_None_2 by lia.
  - apply runs_primary_body. apply IH. lia.
Qed.

Lemma runs_with_primary {A} (f : P Expr → P A) k :
  (∀ prim k, runs k any prim → runs k any (f prim)) →
  runs k any (with_primary ParseFloat ParseRFC3339 f).
Proof.
  intros Hf p Hp. unfold with_primary. apply (Hf _ (remaining p)); [|done]. apply runs_parsePrimary. lia.
Qed.

Lemma runs_expression k : runs k any (expression ParseFloat ParseRFC3339).
Proof. apply runs_with_primary. apply runs_parseExpression. Qed.

Lemma runs_query k : runs k any (with_primary ParseFloat ParseRFC3339 (parseQuery ParseFloat ParseRFC3339)).
Proof. apply runs_with_primary. intros prim k' H. by apply runs_parseQuery, runs_parseExpression. Qed.
Hint Resolve runs_expression runs_query runs_parseSource runs_parseOrderBy runs_parseLimit : dogwatch.

(** *** SQL *)

Lemma runs_exprToJoinCondition e k : runs k any (exprToJoinCondition e).
Proof.
  induction e; cbn [exprToJoinCondition]; try done.
  destruct (String.eqb _ "="); [by apply runs_ret|]. by destruct (String.eqb _ "and").
Qed.
Hint Resolve runs_exprToJoinCondition : dogwatch.

Lemma runs_parseSQLSelectField k : runs k any (parseSQLSelectField ParseFloat ParseRFC3339).
Proof. unfold parseSQLSelectField. runs_auto. Qed.
Hint Resolve runs_parseSQLSelectField : dogwatch.

Lemma runs_parseSQLSelect k : runs k any (parseSQLSelect ParseFloat ParseRFC3339).
Proof. unfold parseSQLSelect. runs_auto. Qed.

Lemma runs_parseSQLJoinCondition k : runs k any (parseSQLJoinCondition ParseFloat ParseRFC3339).
Proof. unfold parseSQLJoinCondition. runs_auto. Qed.

Lemma runs_parseSQLGroupBy k : runs k any (parseSQLGroupBy ParseFloat ParseRFC3339).
Proof. apply runs_comma_list, runs_expression. Qed.

Lemma runs_from_alias k : runs k any from_alias.
Proof. unfold from_alias. runs_auto. Qed.

Lemma runs_join_type k : runs k one join_type.
Proof. unfold join_type. runs_auto. Qed.

Lemma runs_optional {A} k t (part : P A) : runs k any part → runs k any (optional t part).
Proof.
  intros H. unfold optional. eapply runs_bind; [apply runs_at_token|]. intros [] _; [|by apply runs_ret].
  eapply runs_bind; [eapply runs_le; [exact H|lia]|]. intros a _. by apply runs_ret.
Qed.
Hint Resolve runs_parseSQLSelect runs_parseSQLJoinCondition runs_parseSQLGroupBy runs_from_alias
  runs_join_type runs_optional : dogwatch.

Section sql_progress.
Context (sub : P SQLQuery) (k : nat).
Hypothesis Hsub : ∀ k', (k' < k)%nat → runs k' any sub.
Hint Resolve Hsub : dogwatch.

Lemma runs_parseSQLFrom k' : (k' ≤ k)%nat → runs k' any (parseSQLFrom sub).
Proof. intros Hk. unfold parseSQLFrom. runs_auto. Qed.
Hint Resolve runs_parseSQLFrom : dogwatch.

Lemma runs_parseSQLJoin k' : (k' ≤ k)%nat → runs k' one (parseSQLJoin ParseFloat ParseRFC3339 sub).
Proof. intros Hk. unfold parseSQLJoin. runs_auto. Qed.

Lemma runs_joins_loop k' : (k' ≤ k)%nat → runs k' any (joins_loop ParseFloat ParseRFC3339 sub).
Proof.
  intros Hk. apply runs_loop. intros joins. eapply runs_bind; [apply runs_is_any|].
  intros [] _; [|by apply runs_ret]. eapply runs_bind; [apply runs_parseSQLJoin; lia|].
  intros j _. by apply runs_ret.
Qed.
Hint Resolve runs_joins_loop : dogwatch.

Lemma runs_sql_body : runs k any (sql_body ParseFloat ParseRFC3339 sub).
Proof.
  assert (Hw : ∀ k, runs k any (advance ;? expression ParseFloat ParseRFC3339)) by (intros; runs_auto).
  assert (Hg : ∀ k, runs k any (advance ;? expect TokenBy "expected BY after GROUP" ;?
    parseSQLGroupBy ParseFloat ParseRFC3339)) by (intros; runs_auto).
  unfold sql_body. runs_auto.
Qed.
End sql_progress.

Lemma runs_parseSQLQuery fuel : ∀ k, (k < fuel)%nat → runs k any (parseSQLQuery ParseFloat ParseRFC3339 fuel).
Proof.
  induction fuel as [|fuel IH]; intros k Hk; [lia|]. cbn [parseSQLQuery].
  eapply runs_le; [apply (runs_sql_body _ fuel); exact IH|lia].
Qed.

(** *** Statements *)

Lemma runs_parseDefine k : runs k one (parseDefine ParseFloat ParseRFC3339).
Proof. unfold parseDefine. runs_auto. Qed.

Lemma runs_defines_loop k : runs k any (defines_loop ParseFloat ParseRFC3339).
Proof.
  apply runs_loop. intros _. eapply runs_bind; [apply runs_at_token|].
  intros [] _; [|by apply runs_ret]. eapply runs_bind; [apply runs_parseDefine|].
  intros d _. eapply runs_bind; [apply runs_add_define|]. intros u _. by apply runs_ret.
Qed.
Hint Resolve runs_defines_loop : dogwatch.

Lemma runs_Parser_Parse k : runs k any (Parser_Parse ParseFloat ParseRFC3339).
Proof.
  assert (Hsql : ∀ k, runs k any (λ p, parseSQLQuery ParseFloat ParseRFC3339 (S (remaining p)) p)).
  { intros k' p Hp. apply (runs_parseSQLQuery _ (remaining p)); lia. }
  unfold Parser_Parse. runs_auto.
Qed.
End progress.

(** ** The properties *)

(** Parsing ends on every query text: [Parse] returns a statement or an error, and
    panics only where the lexer does; the parser itself, on any list of tokens, always
    returns and never moves backwards. *)
Theorem parse_total ParseFloat ParseRFC3339 src :
  match Parse ParseFloat ParseRFC3339 src with
  | None => False
  | Some (Panic w) => Tokenize (NewLexer src) = Some (Panic w)
  | Some _ => True
  end ∧
  ∀ toks, match Parser_Parse ParseFloat ParseRFC3339 (NewParser toks) with
  | Some (Ok (_, p)) => (remaining p ≤ length toks)%nat
  | Some (Err _) => True
  | Some (Panic _) | None => False
  end.
Proof.
  assert (Hp : ∀ toks, match Parser_Parse ParseFloat ParseRFC3339 (NewParser toks) with
    | Some (Ok (_, p)) => (remaining p ≤ length toks)%nat
    | Some (Err _) => True
    | Some (Panic _) | None => False
    end).
  { intros toks. pose proof (runs_Parser_Parse ParseFloat ParseRFC3339 (length toks) (NewParser toks)) as H.
    unfold runs, remaining, parser_cursor, any in H. cbn in H. specialize (H ltac:(lia)).
    destruct (Parser_Parse _ _ _) as [[[st p]|e|w]|]; [|done..].
    unfold remaining, parser_cursor in *. cbn in *. lia. }
  split; [|done]. unfold Parse.
  pose proof (tokenize_sound (S (length (input (NewLexer src)))) (NewLexer src)) as H.
  fold (Tokenize (NewLexer src)) in H. specialize (H ltac:(unfold rest; rewrite length_drop; lia)).
  destruct (Tokenize (NewLexer src)) as [[[toks [e|]]|e|w]|]; cbn [stream_ok] in H; [done| |done..].
  specialize (Hp toks). by destruct (Parser_Parse _ _ _) as [[[st p]|e|w]|].
Qed.

(** ** Durations in days and weeks *)

(** A character that is neither a capital nor part of a longer encoding. *)
Definition plain (c : ascii) : bool := (byte_val c <? 128)%nat && negb (in_range 65 90 c).

Lemma ToLower_plain l : Forall (λ c, plain c = true) l → ToLower_words l = l.
Proof.
  induction 1 as [|c l Hc Hl IH]; [done|].
  unfold plain in Hc. apply andb_true_iff in Hc as [Hc%Nat.ltb_lt Hr%negb_true_iff].
  assert (Hlow : lower c = c) by (unfold lower; by rewrite Hr).
  cbn [ToLower_words]. destruct l as [|c1 l]; [by rewrite Hlow|].
  rewrite (proj2 (Nat.eqb_neq _ _)) by lia. cbn [andb].
  destruct l as [|c2 l]; [by rewrite Hlow, IH|].
  rewrite (proj2 (Nat.eqb_neq (byte_val c) 226)) by lia. cbn [andb]. by rewrite Hlow, IH.
Qed.

Lemma digit_plain_char c d : digit_value c = Some d → plain c = true.
Proof.
  pose proof (byte_cases (λ c, implb (match digit_value c with Some _ => true | None => false end) (plain c))
    ltac:(by vm_compute) c) as H. cbn beta in H. intros E. by rewrite E in H.
Qed.

Lemma uint_scan_plain s acc n :
  uint_scan acc s = inl n → Forall (λ c, plain c = true) (list_ascii_of_string s).
Proof.
  revert acc. induction s as [|c s IH]; intros acc; cbn [uint_scan list_ascii_of_string]; [constructor|].
  destruct (digit_value c) as [d|] eqn:E; [|done].
  destruct (_ <=? acc); [done|]. destruct (maxUint64 <? _); [done|].
  intros H. constructor; [by eapply digit_plain_char|by eapply IH].
Qed.

Lemma Atoi_plain s n : Atoi s = (n, None) → Forall (λ c, plain c = true) (list_ascii_of_string s).
Proof.
  assert (Hu : ∀ t k, ParseUint t = inl k → Forall (λ c, plain c = true) (list_ascii_of_string t)).
  { intros [|c t] k; [done|]. apply uint_scan_plain. }
  unfold Atoi. destruct s as [|c s]; [done|]. cbn [list_ascii_of_string].
  destruct (Ascii.eqb_spec c "+") as [->|_]; [|destruct (Ascii.eqb_spec c "-") as [->|_]];
    (match goal with |- context [ParseUint ?t] => destruct (ParseUint t) as [k|[]] eqn:E end);
    try done; intros _; try (constructor; [done|]); exact (Hu _ _ E).
Qed.

Lemma take_front_app s c : take_front (s +:+ String c "") = s.
Proof.
  assert (Hl : ∀ t, String.length (t +:+ String c "") = S (String.length t)).
  { induction t as [|x t IH]; [done|]. change (S (String.length (t +:+ String c "")) = S (S (String.length t))). by f_equal. }
  unfold take_front. rewrite (Hl s), Nat.sub_1_r. cbn [Nat.pred]. clear Hl.
  induction s as [|x s IH]; [done|].
  change (String x (substring 0 (String.length s) (s +:+ String c "")) = String x s). by f_equal.
Qed.

Lemma lower_text_unit s n c :
  Atoi s = (n, None) → plain c = true → lower_text (s +:+ String c "") = s +:+ String c "".
Proof.
  intros Hs%Atoi_plain Hc. unfold lower_text. rewrite ToLower_plain.
  - by rewrite string_of_list_ascii_of_string.
  - induction s as [|x s IH]; cbn in *; [by repeat constructor|].
    apply Forall_cons in Hs as [Hx Hs]. constructor; auto.
Qed.

Lemma HasSuffix_other s : HasSuffix (s +:+ "w") "d" = false.
Proof.
  induction s as [|c s IH]; [done|].
  change (String.eqb (String c (s +:+ "w")) "d" || HasSuffix (s +:+ "w") "d" = false).
  rewrite IH, orb_false_r. apply String.eqb_neq. intros E. injection E as _ E. by destruct s.
Qed.

Lemma wrap64_exact z : wrap64 z = z ↔ in_int64 z.
Proof. split; [intros <-; apply wrap64_range|apply wrap64_id]. Qed.

Lemma wrap64_mul_l (x y : Z) : wrap64 (wrap64 x * y) = wrap64 (x * y).
Proof.
  apply wrap64_mod. unfold wrap64. rewrite <- (Z.mul_mod_idemp_l (_ - _)) by lia.
  rewrite Zminus_mod_idemp_l. rewrite Z.mul_mod_idemp_l by lia. do 2 f_equal. lia.
Qed.

(** A duration written in days or weeks is the number of nanoseconds modulo 2^64;
    it is the duration it names exactly up to 106751 days or 15250 weeks, and silently
    another one above. *)
Theorem parseDuration_days_weeks s n :
  Atoi s = (n, None) →
  parseDuration (s +:+ "d") = Ok (wrap64 (n * 24 * Hour)) ∧
  parseDuration (s +:+ "w") = Ok (wrap64 (n * 7 * 24 * Hour)) ∧
  (parseDuration (s +:+ "d") = Ok (n * 24 * Hour) ↔ Z.abs n ≤ 106751) ∧
  (parseDuration (s +:+ "w") = Ok (n * 7 * 24 * Hour) ↔ Z.abs n ≤ 15250).
Proof.
  intros Hs.
  assert (Hd : parseDuration (s +:+ "d") = Ok (wrap64 (n * 24 * Hour))).
  { unfold parseDuration. rewrite (lower_text_unit s n) by done.
    by rewrite HasSuffix_app, take_front_app, Hs, wrap64_mul_l. }
  assert (Hw : parseDuration (s +:+ "w") = Ok (wrap64 (n * 7 * 24 * Hour))).
  { unfold parseDuration. rewrite (lower_text_unit s n) by done.
    rewrite HasSuffix_other, HasSuffix_app, take_front_app, Hs.
    by rewrite wrap64_mul_l, <- Z.mul_assoc, wrap64_mul_l, Z.mul_assoc. }
  rewrite Hd, Hw. split; [done|]. split; [done|].
  assert (He : ∀ z, Ok (wrap64 z) = Ok z ↔ in_int64 z).
  { intros z. rewrite <- wrap64_exact. split; [by intros [=]|by intros ->]. }
  rewrite !He. unfold in_int64, int64_min, int64_max, Hour, Minute, Second, Millisecond, Microsecond, Nanosecond. lia.
Qed.

Lemma parseDuration_days_weeks_witness :
  parseDuration "106751d" = Ok (106751 * 24 * Hour) ∧ parseDuration "106752d" ≠ Ok (106752 * 24 * Hour).
Proof.
  split.
  - apply (parseDuration_days_weeks "106751" 106751 eq_refl). by vm_compute.
  - intros H. apply (parseDuration_days_weeks "106752" 106752 eq_refl) in H. by vm_compute in H.
Defined.
