(* ===== verification/Grammar.v ===== *)
(** The grammar of WatchQL expressions, and that the recursive descent of
    internal/query/parser.go reads every sentence of it as the tree the grammar gives:
    precedence, associativity and nesting are what they should be. *)

From Stdlib Require Import String Ascii.
From stdpp Require Import base option list gmap sets strings.
From S2P Require Import Prelude Tokens Lexer Strconv Ast Parsing Parser.

(** ** The grammar *)

(** The levels from the loosest to the tightest; a chain of comparisons may be ended
    by one IN. *)
Inductive level : Type := LOr | LAnd | LNot | LCmp | LChain | LAdd | LMul | LUnary | LPrimary.

#[global] Instance level_eq_dec : EqDecision level.
Proof. solve_decision. Defined.

Definition next (L : level) : level :=
  match L with
  | LOr => LAnd | LAnd => LNot | LNot => LCmp | LCmp => LChain | LChain => LAdd
  | LAdd => LMul | LMul => LUnary | LUnary => LPrimary | LPrimary => LPrimary
  end.

(** The left-associative binary operators of a level. *)
Definition ops_of (L : level) : list (TokenType * string) :=
  match L with
  | LOr => [(TokenOr, "or")] | LAnd => [(TokenAnd, "and")]
  | LChain =>
      [(TokenEq, "="); (TokenNeq, "!="); (TokenLt, "<"); (TokenLte, "<="); (TokenGt, ">");
       (TokenGte, ">="); (TokenLike, "like"); (TokenMatches, "matches")]
  | LAdd => [(TokenPlus, "+"); (TokenMinus, "-")]
  | LMul => [(TokenStar, "*"); (TokenSlash, "/"); (TokenPercent, "%")]
  | _ => []
  end.

(** The prefix operators. *)
Definition prefix_of (L : level) : option (TokenType * string) :=
  match L with LNot => Some (TokenNot, "not") | LUnary => Some (TokenMinus, "-") | _ => None end.

Section grammar.
Context (ParseFloat : string → SpecFloat.spec_float).

(** Tokens that are literals. *)
Definition literal_of (t : Token) : option Literal :=
  match Type_ t with
  | TokenNumber => Some (number_literal ParseFloat (Value t))
  | TokenDuration => match parseDuration (Value t) with Ok d => Some (LiteralDuration d) | _ => None end
  | TokenString => Some (LiteralString (Value t))
  | TokenRegex => Some (LiteralRegex (Value t))
  | TokenTrue => Some (LiteralBool true)
  | TokenFalse => Some (LiteralBool false)
  | TokenNull => Some LiteralNull
  | _ => None
  end.

(** [.a.b.*] after an identifier. *)
Inductive path : list Token → list string → Prop :=
| path_nil : path [] []
| path_cons d x ts names :
    Type_ d = TokenDot → Type_ x = TokenIdent ∨ Type_ x = TokenStar → path ts names →
    path (d :: x :: ts) (Value x :: names).

Definition callee (t : TokenType) : Prop := t = TokenIdent ∨ t ∈ aggregations.*1.
Definition subquery_starts : list TokenType := [TokenMetrics; TokenLogs; TokenTraces; TokenEvents].
Definition list_starts : list TokenType := [TokenString; TokenNumber].
Definition first_in (tys : list TokenType) (ts : list Token) : bool :=
  match ts with t :: _ => bool_decide (Type_ t ∈ tys) | [] => false end.

(** [derives L ts e]: the tokens [ts] are an expression of level [L] with tree [e]. A
    parenthesis that a string or a number follows opens a list. *)
Inductive derives : level → list Token → Expr → Prop :=
| d_up L ts e : L ≠ LPrimary → derives (next L) ts e → derives L ts e
| d_binary L ts1 lhs o op ts2 rhs :
    (Type_ o, op) ∈ ops_of L → derives L ts1 lhs → derives (next L) ts2 rhs →
    derives L (ts1 ++ o :: ts2) (BinaryExpr lhs op rhs (expr_Position lhs))
| d_prefix L o op ts e :
    prefix_of L = Some (Type_ o, op) → derives L ts e →
    derives L (o :: ts) (UnaryExpr op e (expr_Position e))
| d_in ts1 lhs o ts2 rhs :
    Type_ o = TokenIn → derives LChain ts1 lhs → derives LPrimary ts2 rhs →
    derives LCmp (ts1 ++ o :: ts2) (BinaryExpr lhs "in" rhs (expr_Position lhs))
| d_literal t v : literal_of t = Some v → derives LPrimary [t] (LiteralExpr v (Pos t))
| d_star t : Type_ t = TokenStar → derives LPrimary [t] (IdentifierExpr "*" [] (Pos t))
| d_ident t ts names :
    Type_ t = TokenIdent → path ts names →
    derives LPrimary (t :: ts) (IdentifierExpr (Value t) names (Pos t))
| d_call0 t o c :
    callee (Type_ t) → Type_ o = TokenLParen → Type_ c = TokenRParen →
    derives LPrimary [t; o; c] (FunctionCallExpr (Value t) [] (Pos t))
| d_call t o ts args c :
    callee (Type_ t) → Type_ o = TokenLParen → Type_ c = TokenRParen → derives_list LOr ts args →
    derives LPrimary (t :: o :: ts ++ [c]) (FunctionCallExpr (Value t) args (Pos t))
| d_group o ts e c :
    Type_ o = TokenLParen → Type_ c = TokenRParen →
    first_in (subquery_starts ++ list_starts) ts = false → derives LOr ts e →
    derives LPrimary (o :: ts ++ [c]) e
| d_list o ts es c :
    Type_ o = TokenLParen → Type_ c = TokenRParen → first_in list_starts ts = true →
    derives_list LPrimary ts es →
    derives LPrimary (o :: ts ++ [c]) (ListExpr es (Pos o))
with derives_list : level → list Token → list Expr → Prop :=
| dl_one L ts e : derives L ts e → derives_list L ts [e]
| dl_cons L ts e c ts' es :
    derives L ts e → Type_ c = TokenComma → derives_list L ts' es →
    derives_list L (ts ++ c :: ts') (e :: es).

Scheme derives_mut := Induction for derives Sort Prop
with derives_list_mut := Induction for derives_list Sort Prop.
Combined Scheme derives_both from derives_mut, derives_list_mut.

(** The tokens that would extend an expression of a level, or of one inside it. *)
Fixpoint extenders_from (n : nat) (L : level) : list TokenType :=
  (ops_of L).*1 ++ (match L with LCmp => [TokenIn] | LPrimary => [TokenLParen; TokenDot] | _ => [] end) ++
  match n with O => [] | S n => if decide (L = LPrimary) then [] else extenders_from n (next L) end.
Definition extenders (L : level) : list TokenType := extenders_from 8 L.
Definition follows (L : level) (rest : list Token) : Prop := first_in (extenders L) rest = false.

(** The tokens an expression may begin with. *)
Definition primary_starts : list TokenType :=
  [TokenNumber; TokenDuration; TokenString; TokenRegex; TokenTrue; TokenFalse; TokenNull; TokenIdent;
   TokenLParen; TokenStar] ++ aggregations.*1.
Definition starts_of (L : level) : list TokenType :=
  match L with
  | LPrimary => primary_starts
  | LOr | LAnd | LNot => TokenNot :: TokenMinus :: primary_starts
  | _ => TokenMinus :: primary_starts
  end.

Lemma starts_next L : starts_of (next L) ⊆ starts_of L.
Proof. intros t; destruct L; cbn [next starts_of]; rewrite ?elem_of_cons; tauto. Qed.

Lemma derives_first :
  (∀ L ts e, derives L ts e → first_in (starts_of L) ts = true) ∧
  (∀ L ts es, derives_list L ts es → first_in (starts_of L) ts = true).
Proof.
  assert (Happ : ∀ tys ts ts', first_in tys ts = true → first_in tys (ts ++ ts') = true).
  { intros tys [|t ts] ts'; [done|]. done. }
  assert (Hcall : ∀ t, callee t → t ∈ starts_of LPrimary).
  { intros t [->|H]; cbn [starts_of]; unfold primary_starts; [set_solver|]. apply elem_of_app. by right. }
  apply derives_both; try (intros; by auto).
  - intros L ts e _ _ IH. destruct ts as [|t ts]; [done|]. cbn [first_in] in *.
    rewrite bool_decide_eq_true in *. by apply starts_next.
  - intros L o op ts e Hp _ _. apply bool_decide_eq_true. destruct L; try discriminate; injection Hp as <- _; set_solver.
  - intros t v Hv. apply bool_decide_eq_true. unfold literal_of in Hv.
    destruct (Type_ t); try discriminate; cbn; set_solver.
  - intros t Ht. apply bool_decide_eq_true. rewrite Ht. cbn. set_solver.
  - intros t ts names Ht _. apply bool_decide_eq_true. rewrite Ht. cbn. set_solver.
  - intros t o c Ht _ _. apply bool_decide_eq_true. by apply Hcall.
  - intros t o ts args c Ht _ _ _ _. apply bool_decide_eq_true. by apply Hcall.
  - intros o ts e c Ho _ _ _ _. apply bool_decide_eq_true. rewrite Ho. cbn. set_solver.
  - intros o ts es c Ho _ _ _ _. apply bool_decide_eq_true. rewrite Ho. cbn. set_solver.
Qed.
End grammar.

(** ** Steps of the parser on known tokens *)

Definition ahead (p : Parser) : list Token := drop (p_pos p) (p_tokens p).
Definition skip (n : nat) (p : Parser) : Parser := set_pos (n + p_pos p) p.

Lemma ahead_skip p ts rest : ahead p = ts ++ rest → ahead (skip (length ts) p) = rest.
Proof.
  intros H. unfold ahead, skip in *. cbn.
  by rewrite Nat.add_comm, <- drop_drop, H, drop_app_length.
Qed.

Lemma skip_skip n m p : skip n (skip m p) = skip (n + m) p.
Proof. unfold skip, set_pos. cbn. f_equal. lia. Qed.

Lemma skip_0 p : skip 0 p = p.
Proof. by destruct p. Qed.

Lemma remaining_ahead p : remaining p = length (ahead p).
Proof. unfold remaining, parser_cursor, ahead. by rewrite length_drop. Qed.

Lemma current_ahead p t rest : ahead p = t :: rest → current p = t.
Proof.
  intros H. unfold current, ahead in *.
  by rewrite <- (Nat.add_0_r (p_pos p)), <- lookup_drop, H.
Qed.

Lemma current_type p tys :
  TokenEOF ∉ tys → bool_decide (Type_ (current p) ∈ tys) = first_in tys (ahead p).
Proof.
  intros HE. destruct (ahead p) as [|t rest] eqn:E.
  - unfold current, ahead in *. apply (f_equal length) in E. rewrite length_drop in E. cbn in E.
    rewrite lookup_ge_None_2 by lia. by apply bool_decide_false.
  - by rewrite (current_ahead p t rest E).
Qed.

Lemma check_ahead p ty : ty ≠ TokenEOF → check ty p = first_in [ty] (ahead p).
Proof.
  intros Ht. rewrite <- current_type by set_solver. unfold check. apply bool_decide_ext. set_solver.
Qed.

Lemma match_yes p t rest ty :
  ahead p = t :: rest → Type_ t = ty → match_ ty p = Some (Ok (true, skip 1 p)).
Proof.
  intros Hp <-. unfold match_, check. rewrite (current_ahead p t rest Hp), bool_decide_true by done.
  done.
Qed.

Lemma match_no p ty :
  ty ≠ TokenEOF → first_in [ty] (ahead p) = false → match_ ty p = Some (Ok (false, p)).
Proof. intros Ht H. unfold match_. by rewrite check_ahead, H. Qed.

Lemma advance_yes p t rest :
  ahead p = t :: rest → Type_ t ≠ TokenEOF → advance p = Some (Ok (t, skip 1 p)).
Proof.
  intros Hp Ht. unfold advance. rewrite (current_ahead p t rest Hp). by rewrite bool_decide_false.
Qed.

Lemma expect_yes p t rest ty msg :
  ahead p = t :: rest → Type_ t = ty → expect ty msg p = Some (Ok (tt, skip 1 p)).
Proof. intros Hp Ht. unfold expect, bind. by rewrite (match_yes p t rest ty Hp Ht). Qed.

Lemma is_any_ahead p tys : TokenEOF ∉ tys → is_any tys p = Some (Ok (first_in tys (ahead p), p)).
Proof. intros H. unfold is_any. by rewrite current_type. Qed.

Lemma at_token_ahead p ty : ty ≠ TokenEOF → at_token ty p = Some (Ok (first_in [ty] (ahead p), p)).
Proof. intros H. unfold at_token. by rewrite check_ahead. Qed.

Lemma first_in_app tys tys' ts : first_in (tys ++ tys') ts = first_in tys ts || first_in tys' ts.
Proof.
  destruct ts as [|t ts]; [done|]. cbn [first_in]. rewrite <- bool_decide_or.
  apply bool_decide_ext. apply elem_of_app.
Qed.

Lemma first_in_disjoint tys tys' ts :
  first_in tys ts = true → (∀ t, t ∈ tys → t ∉ tys') → first_in tys' ts = false.
Proof.
  destruct ts as [|t ts]; [done|]. cbn [first_in]. intros H%bool_decide_eq_true Hd.
  apply bool_decide_false. by apply Hd.
Qed.

Lemma match_any_no {B} p (table : list (TokenType * B)) :
  TokenEOF ∉ table.*1 → first_in table.*1 (ahead p) = false → match_any table p = Some (Ok (None, p)).
Proof.
  induction table as [|[t b] table IH]; intros HE H; [done|]. cbn in HE, H. cbn [match_any]. unfold bind.
  change (t :: table.*1) with ([t] ++ table.*1) in H. rewrite first_in_app in H.
  apply orb_false_iff in H as [H1 H2]. rewrite match_no by (done || set_solver).
  apply IH; [set_solver|done].
Qed.

Lemma match_any_yes {B} p (table : list (TokenType * B)) t rest b :
  ahead p = t :: rest → NoDup table.*1 → TokenEOF ∉ table.*1 → (Type_ t, b) ∈ table →
  match_any table p = Some (Ok (Some b, skip 1 p)).
Proof.
  intros Hp. induction table as [|[ty b'] table IH]; intros HN HE Hin; [set_solver|].
  cbn in HN, HE. apply NoDup_cons in HN as [Hty HN]. cbn [match_any]. unfold bind.
  apply elem_of_cons in Hin as [[= Ht <-]|Hin].
  - by rewrite (match_yes p t rest ty Hp Ht).
  - rewrite match_no; [by apply IH; [done|set_solver|done]|set_solver|].
    rewrite Hp. cbn. apply bool_decide_false. intros E%list_elem_of_singleton. apply Hty.
    rewrite <- E. apply list_elem_of_fmap. by exists (Type_ t, b).
Qed.

Lemma ops_of_sane L : NoDup (ops_of L).*1 ∧ TokenEOF ∉ (ops_of L).*1.
Proof. destruct L; cbn; split; try apply (bool_decide_unpack _); vm_compute; done. Qed.

(** ** Every sentence is read as its tree *)

Section reading.
Context (ParseFloat : string → SpecFloat.spec_float) (ParseRFC3339 : string → Time + string).

Definition parse_level (L : level) (prim : P Expr) : P Expr :=
  match L with
  | LOr => parseOr prim | LAnd => parseAnd prim | LNot => parseNot prim
  | LCmp | LChain => parseComparison prim | LAdd => parseAdditive prim
  | LMul => parseMultiplicative prim | LUnary => parseUnary prim | LPrimary => prim
  end.

Definition binary_body (ops : list (TokenType * string)) (operand : P Expr) (lhs : Expr) : P (Expr * bool) :=
  let? op := match_any ops in
  match op with
  | None => ret (lhs, false)
  | Some op => let? rhs := operand in ret (BinaryExpr lhs op rhs (expr_Position lhs), true)
  end.

Definition comparison_body (prim : P Expr) (lhs : Expr) : P (Expr * bool) :=
  let? op := match_any (ops_of LChain) in
  match op with
  | Some op => let? rhs := parseAdditive prim in ret (BinaryExpr lhs op rhs (expr_Position lhs), true)
  | None =>
      let? m := match_ TokenIn in
      if (m : bool) then let? rhs := prim in ret (BinaryExpr lhs "in" rhs (expr_Position lhs), false)
      else ret (lhs, false)
  end.

(** The body of the loop of a level of binary operators. *)
Definition body_of (L : level) (prim : P Expr) : Expr → P (Expr * bool) :=
  match L with
  | LChain => comparison_body prim
  | _ => binary_body (ops_of L) (parse_level (next L) prim)
  end.

Lemma level_entry L prim p e p' :
  ops_of L ≠ [] → parse_level (next L) prim p = Some (Ok (e, p')) →
  parse_level L prim p = iterate (S (remaining p')) (body_of L prim) e p'.
Proof.
  assert (Hloop : ∀ (c : P Expr) (k : Expr → P Expr) r,
    c p = Some (Ok (e, p')) → k e p' = r → (let? x := c in k x) p = r).
  { intros c k r Hc Hk. unfold bind. by rewrite Hc. }
  intros HL He. destruct L; try done; cbn [parse_level next] in *; exact (Hloop _ _ _ He eq_refl).
Qed.

Lemma body_step L prim lhs p o op rest rhs p' :
  (Type_ o, op) ∈ ops_of L → ahead p = o :: rest →
  parse_level (next L) prim (skip 1 p) = Some (Ok (rhs, p')) →
  body_of L prim lhs p = Some (Ok ((BinaryExpr lhs op rhs (expr_Position lhs), true), p')).
Proof.
  intros Hop Hp Hr. destruct (ops_of_sane L) as [HN HE].
  pose proof (match_any_yes p (ops_of L) o rest op Hp HN HE Hop) as Hm.
  assert (binary_body (ops_of L) (parse_level (next L) prim) lhs p =
    Some (Ok ((BinaryExpr lhs op rhs (expr_Position lhs), true), p'))) as H.
  { unfold binary_body, bind. by rewrite Hm, Hr. }
  destruct L; try exact H. cbn [body_of]. unfold comparison_body, bind.
  rewrite Hm. cbn [parse_level next] in Hr. by rewrite Hr.
Qed.

Lemma body_stop L prim lhs p :
  first_in (ops_of L).*1 (ahead p) = false → (L = LChain → first_in [TokenIn] (ahead p) = false) →
  body_of L prim lhs p = Some (Ok ((lhs, false), p)).
Proof.
  intros H HI. destruct (ops_of_sane L) as [_ HE].
  pose proof (match_any_no p (ops_of L) HE H) as Hm.
  assert (binary_body (ops_of L) (parse_level (next L) prim) lhs p = Some (Ok ((lhs, false), p))) as Hb.
  { unfold binary_body, bind. by rewrite Hm. }
  destruct L; try exact Hb. cbn [body_of]. unfold comparison_body, bind.
  rewrite Hm. by rewrite match_no by auto.
Qed.

(** What the induction shows for an expression of a level; [full] where the level has a
    parser of its own, [chain] for the loops, [prefixed] for the prefix operators. *)
Definition full (L : level) (ts : list Token) (e : Expr) : Prop := ∀ p rest n,
  ahead p = ts ++ rest → follows L rest → (remaining p ≤ n)%nat →
  parse_level L (parsePrimary ParseFloat ParseRFC3339 (S n)) p = Some (Ok (e, skip (length ts) p)).

Definition chain (L : level) (ts : list Token) (e : Expr) : Prop := ∀ p rest n,
  ahead p = ts ++ rest → follows (next L) rest → (remaining p ≤ n)%nat →
  let prim := parsePrimary ParseFloat ParseRFC3339 (S n) in
  ∃ m, (remaining (skip (length ts) p) < m)%nat ∧
    parse_level L prim p = iterate m (body_of L prim) e (skip (length ts) p).

Definition prefixed (L : level) (ts : list Token) (e : Expr) : Prop := ∀ t op p rest n fuel,
  prefix_of L = Some (t, op) → ahead p = ts ++ rest → follows L rest → (remaining p ≤ n)%nat →
  (remaining p < fuel)%nat →
  unary_prefix fuel t op (parse_level (next L) (parsePrimary ParseFloat ParseRFC3339 (S n))) p =
    Some (Ok (e, skip (length ts) p)).

Definition reads (L : level) (ts : list Token) (e : Expr) : Prop :=
  (L ≠ LChain → full L ts e) ∧ (ops_of L ≠ [] → chain L ts e) ∧ prefixed L ts e.

Lemma follows_extenders L tys rest :
  follows L rest → tys ⊆ extenders L → first_in tys rest = false.
Proof.
  unfold follows. destruct rest as [|t rest]; [done|]. cbn [first_in]. intros H Hs.
  apply bool_decide_false. intros Hin. apply bool_decide_eq_false in H. by apply H, Hs.
Qed.

Lemma extenders_next L : extenders (next L) ⊆ extenders L.
Proof. apply (bool_decide_unpack _). by destruct L; vm_compute. Qed.

Lemma extenders_ops L : (ops_of L).*1 ⊆ extenders L.
Proof. apply (bool_decide_unpack _). by destruct L; vm_compute. Qed.

Lemma follows_next L rest : follows L rest → follows (next L) rest.
Proof. intros H. eapply (follows_extenders L); [done|apply extenders_next]. Qed.

(** The end of a chain. *)
Lemma chain_full L ts e :
  ops_of L ≠ [] → L ≠ LChain → chain L ts e → full L ts e.
Proof.
  intros Hops HL Hc p rest n Hp Hf Hn.
  destruct (Hc p rest n Hp (follows_next L rest Hf) Hn) as (m & Hm & ->).
  destruct m as [|m]; [lia|]. cbn [iterate]. unfold bind at 1.
  rewrite body_stop; [done| |done]. rewrite (ahead_skip p ts rest Hp).
  eapply (follows_extenders L); [done|apply extenders_ops].
Qed.

Lemma chain_start L ts e :
  ops_of L ≠ [] → next L ≠ LChain → full (next L) ts e → chain L ts e.
Proof.
  intros Hops HL Hfull p rest n Hp Hf Hn prim. pose proof (Hfull p rest n Hp Hf Hn) as He.
  exists (S (remaining (skip (length ts) p))). split; [lia|]. by apply level_entry.
Qed.

Lemma remaining_skip p ts rest :
  ahead p = ts ++ rest → remaining p = (length ts + remaining (skip (length ts) p))%nat.
Proof. intros H. rewrite !remaining_ahead, (ahead_skip p ts rest H), H, length_app. done. Qed.

(** An operator of a level is no extension of what is inside it. *)
Lemma ops_not_inside L t : t ∈ (ops_of L).*1 → t ∉ extenders (next L).
Proof.
  assert (H : Forall (λ t, t ∉ extenders (next L)) (ops_of L).*1).
  { apply (bool_decide_unpack _). by destruct L; vm_compute. }
  rewrite Forall_forall in H. apply H.
Qed.

Lemma chain_binary L ts1 lhs o op ts2 rhs :
  (Type_ o, op) ∈ ops_of L → chain L ts1 lhs → full (next L) ts2 rhs →
  chain L (ts1 ++ o :: ts2) (BinaryExpr lhs op rhs (expr_Position lhs)).
Proof.
  intros Hop Hl Hr p rest n Hp Hf Hn prim. rewrite <- app_assoc in Hp.
  assert (Ho : Type_ o ∈ (ops_of L).*1) by (apply list_elem_of_fmap; by exists (Type_ o, op)).
  destruct (Hl p ((o :: ts2) ++ rest) n Hp) as (m & Hm & Heq); [|done|].
  { unfold follows. cbn. by apply bool_decide_false, ops_not_inside. }
  set (p1 := skip (length ts1) p) in *.
  assert (Hp1 : ahead p1 = o :: ts2 ++ rest) by by apply ahead_skip.
  assert (Hp2 : ahead (skip 1 p1) = ts2 ++ rest) by by apply (ahead_skip p1 [o]).
  pose proof (remaining_skip p ts1 _ Hp) as R1. fold p1 in R1.
  pose proof (remaining_skip p1 [o] _ Hp1) as R2. cbn [length] in R2.
  pose proof (remaining_skip (skip 1 p1) ts2 _ Hp2) as R3.
  pose proof (Hr (skip 1 p1) rest n Hp2 Hf ltac:(lia)) as Hrhs.
  pose proof (body_step L prim lhs p1 o op _ rhs _ Hop Hp1 Hrhs) as Hb.
  destruct m as [|m]; [lia|].
  assert (Hend : skip (length ts2) (skip 1 p1) = skip (length (ts1 ++ o :: ts2)) p).
  { unfold p1. rewrite !skip_skip, length_app. f_equal. cbn. lia. }
  rewrite Hend in *. exists m. split; [lia|].
  change (parse_level L prim p = iterate (S m) (body_of L prim) lhs p1) in Heq. rewrite Heq. cbn [iterate]. unfold bind at 1.
  by rewrite Hb.
Qed.

Lemma prefixed_full L t op ts e : prefix_of L = Some (t, op) → prefixed L ts e → full L ts e.
Proof.
  intros HL Hp p rest n Ha Hf Hn.
  destruct L; try discriminate; injection HL as <- <-;
    exact (Hp _ _ p rest n (S (remaining p)) eq_refl Ha Hf Hn ltac:(lia)).
Qed.

Lemma unary_prefix_no fuel t op operand p :
  t ≠ TokenEOF → first_in [t] (ahead p) = false → unary_prefix (S fuel) t op operand p = operand p.
Proof. intros Ht H. cbn [unary_prefix]. unfold bind at 1. by rewrite match_no. Qed.

Lemma prefix_not_start L t op : prefix_of L = Some (t, op) → t ∉ starts_of (next L) ∧ t ≠ TokenEOF.
Proof.
  intros H. destruct L; try discriminate; injection H as <- _;
    (split; [apply (bool_decide_unpack _); vm_compute|]; done).
Qed.

Lemma prefixed_up L ts e :
  first_in (starts_of (next L)) ts = true → full (next L) ts e → prefixed L ts e.
Proof.
  intros Hs He t op p rest n fuel HL Hp Hf Hn Hfuel. destruct (prefix_not_start L t op HL) as [Ht HE].
  destruct fuel as [|fuel]; [lia|]. rewrite unary_prefix_no; [|done|].
  - apply (He p rest); [done|by apply follows_next|done].
  - rewrite Hp. destruct ts as [|t1 ts]; [done|]. cbn in *. apply bool_decide_eq_true in Hs.
    apply bool_decide_false. intros E%list_elem_of_singleton. congruence.
Qed.

Lemma prefixed_op L o op ts e :
  prefix_of L = Some (Type_ o, op) → prefixed L ts e →
  prefixed L (o :: ts) (UnaryExpr op e (expr_Position e)).
Proof.
  intros HL He t op' p rest n fuel HL' Hp Hf Hn Hfuel. rewrite HL in HL'. injection HL' as <- <-.
  destruct fuel as [|fuel]; [lia|]. cbn [unary_prefix]. unfold bind at 1.
  rewrite (match_yes p o _ _ Hp eq_refl). unfold bind at 1.
  assert (Hp1 : ahead (skip 1 p) = ts ++ rest) by by apply (ahead_skip p [o]).
  pose proof (remaining_skip p [o] _ Hp) as R. cbn [length] in R.
  rewrite (He _ _ (skip 1 p) rest n fuel HL Hp1 Hf) by lia. unfold ret. rewrite skip_skip.
  cbn [length]. by rewrite Nat.add_1_r.
Qed.

(** The end of a comparison, with and without IN. *)
Lemma comparison_full ts e : chain LChain ts e → full LCmp ts e.
Proof.
  intros Hc p rest n Hp Hf Hn. cbn [parse_level].
  destruct (Hc p rest n Hp) as (m & Hm & Heq); [|done|].
  { eapply (follows_extenders LCmp); [done|]. apply (bool_decide_unpack _). by vm_compute. }
  cbn [parse_level] in Heq. rewrite Heq. destruct m as [|m]; [lia|]. cbn [iterate]. unfold bind at 1.
  pose proof (ahead_skip p ts rest Hp) as Ha.
  rewrite body_stop; [done|..]; rewrite Ha; [|intros _]; (eapply (follows_extenders LCmp); [done|]);
    apply (bool_decide_unpack _); by vm_compute.
Qed.

Lemma in_full ts1 lhs o ts2 rhs :
  Type_ o = TokenIn → chain LChain ts1 lhs → full LPrimary ts2 rhs →
  full LCmp (ts1 ++ o :: ts2) (BinaryExpr lhs "in" rhs (expr_Position lhs)).
Proof.
  intros Ho Hl Hr p rest n Hp Hf Hn. rewrite <- app_assoc in Hp. cbn [parse_level].
  destruct (Hl p ((o :: ts2) ++ rest) n Hp) as (m & Hm & Heq); [|done|].
  { unfold follows. cbn [first_in app]. rewrite Ho. apply bool_decide_false.
    apply (bool_decide_unpack _). by vm_compute. }
  cbn [parse_level] in Heq. rewrite Heq. set (p1 := skip (length ts1) p) in *.
  assert (Hp1 : ahead p1 = o :: ts2 ++ rest) by by apply ahead_skip.
  assert (Hp2 : ahead (skip 1 p1) = ts2 ++ rest) by by apply (ahead_skip p1 [o]).
  pose proof (remaining_skip p ts1 _ Hp) as R1. fold p1 in R1.
  pose proof (remaining_skip p1 [o] _ Hp1) as R2. cbn [length] in R2.
  destruct m as [|m]; [lia|]. cbn [iterate body_of]. unfold bind at 1, comparison_body, bind at 1.
  rewrite match_any_no; [|apply (bool_decide_unpack _); by vm_compute|].
  2:{ rewrite Hp1. cbn [first_in]. rewrite Ho. apply bool_decide_false.
      apply (bool_decide_unpack _). by vm_compute. }
  unfold bind at 1. rewrite (match_yes p1 o _ _ Hp1 Ho). unfold bind at 1.
  cbn [parse_level] in Hr. unfold full in Hr. cbn [parse_level] in Hr.
  rewrite (Hr (skip 1 p1) rest n Hp2); [|eapply (follows_extenders LCmp); [done|]|lia].
  - unfold ret. unfold p1. rewrite !skip_skip, length_app. do 4 f_equal. cbn. lia.
  - apply (bool_decide_unpack _). by vm_compute.
Qed.

(** *** Lists and paths *)

Definition comma_body {A} (item : P A) (l : list A) : P (list A * bool) :=
  let? x := item in let? more := match_ TokenComma in ret (l ++ [x], more).

Definition list_reads (L : level) (ts : list Token) (es : list Expr) : Prop := ∀ p rest n acc m,
  L ≠ LChain → ahead p = ts ++ rest → follows L rest → first_in [TokenComma] rest = false →
  (remaining p ≤ n)%nat → (remaining p < m)%nat →
  iterate m (comma_body (parse_level L (parsePrimary ParseFloat ParseRFC3339 (S n)))) acc p =
    Some (Ok (acc ++ es, skip (length ts) p)).

Lemma comma_follows L c rest : Type_ c = TokenComma → follows L (c :: rest).
Proof.
  intros Hc. unfold follows. cbn [first_in]. rewrite Hc. apply bool_decide_false.
  apply (bool_decide_unpack _). by destruct L; vm_compute.
Qed.

Lemma list_reads_one L ts e : reads L ts e → list_reads L ts [e].
Proof.
  intros [He _] p rest n acc m HL Hp Hf Hc Hn Hm. destruct m as [|m]; [lia|].
  cbn [iterate]. unfold bind at 1, comma_body, bind at 1. rewrite (He HL p rest n Hp Hf Hn).
  unfold bind. rewrite match_no; [done|done|]. by rewrite (ahead_skip p ts rest Hp).
Qed.

Lemma list_reads_cons L ts e c ts' es :
  reads L ts e → Type_ c = TokenComma → list_reads L ts' es → list_reads L (ts ++ c :: ts') (e :: es).
Proof.
  intros [He _] Hc Hes p rest n acc m HL Hp Hf Hr Hn Hm. rewrite <- app_assoc in Hp.
  destruct m as [|m]; [lia|].
  pose proof (He HL p _ n Hp (comma_follows L c (ts' ++ rest) Hc) Hn) as Hx.
  set (p1 := skip (length ts) p) in *.
  assert (Hp1 : ahead p1 = c :: ts' ++ rest) by by apply ahead_skip.
  assert (Hp2 : ahead (skip 1 p1) = ts' ++ rest) by by apply (ahead_skip p1 [c]).
  pose proof (remaining_skip p ts _ Hp) as R1. fold p1 in R1.
  pose proof (remaining_skip p1 [c] _ Hp1) as R2. cbn [length] in R2.
  cbn [iterate]. unfold bind at 1, comma_body at 1, bind at 1. rewrite Hx. unfold bind at 1.
  rewrite (match_yes p1 c _ _ Hp1 Hc). unfold ret.
  rewrite (Hes (skip 1 p1) rest n (acc ++ [e]) m HL Hp2 Hf Hr) by lia.
  rewrite <- app_assoc. unfold p1. rewrite !skip_skip, length_app. do 4 f_equal. cbn. lia.
Qed.

Lemma path_reads ts names :
  path ts names → ∀ p rest acc m,
  ahead p = ts ++ rest → first_in [TokenDot] rest = false → (remaining p < m)%nat →
  iterate m (λ path,
    let? dot := match_ TokenDot in
    if (dot : bool) then
      let? ok := is_any [TokenIdent; TokenStar] in
      if (ok : bool) then let? tok := advance in ret (path ++ [Value tok], true)
      else error "expected identifier after '.'"
    else ret (path, false)) acc p = Some (Ok (acc ++ names, skip (length ts) p)).
Proof.
  induction 1 as [|d x ts names Hd Hx _ IH]; intros p rest acc m Hp Hr Hm; (destruct m as [|m]; [lia|]);
    cbn [iterate]; unfold bind at 1, bind at 1; cbn [app] in Hp.
  - rewrite match_no; [|done|by rewrite Hp].
    cbn [length]. by rewrite skip_0, app_nil_r.
  - rewrite (match_yes p d _ _ Hp Hd). unfold bind at 1.
    assert (Hp1 : ahead (skip 1 p) = x :: ts ++ rest) by by apply (ahead_skip p [d]).
    assert (Hp2 : ahead (skip 1 (skip 1 p)) = ts ++ rest) by by apply (ahead_skip (skip 1 p) [x]).
    pose proof (remaining_skip p [d] _ Hp) as R1. pose proof (remaining_skip (skip 1 p) [x] _ Hp1) as R2.
    cbn [length] in R1, R2.
    rewrite is_any_ahead; [|apply (bool_decide_unpack _); by vm_compute].
    rewrite Hp1. cbn [first_in]. rewrite bool_decide_true by set_solver. unfold bind at 1.
    rewrite (advance_yes (skip 1 p) x _ Hp1) by (destruct Hx as [-> | ->]; done). unfold ret.
    rewrite (IH _ rest) by (done || lia). rewrite <- app_assoc, !skip_skip. do 4 f_equal. cbn. lia.
Qed.

(** *** Primary expressions *)

(** The tests on the type of a known token. *)
Ltac token_tests Hp Ht :=
  rewrite ?check_ahead by done; rewrite ?Hp; cbn [first_in]; rewrite ?Ht;
  repeat match goal with
  | |- context [bool_decide (?a ∈ ?l)] =>
      first [ replace (bool_decide (a ∈ l)) with true by (vm_compute; reflexivity)
            | replace (bool_decide (a ∈ l)) with false by (vm_compute; reflexivity) ]
  end.

(** A keyword literal is not at the cursor. *)
Lemma no_keyword_literal p t rest :
  ahead p = t :: rest → Type_ t ∉ keyword_literals.*1 →
  match_any keyword_literals p = Some (Ok (None, p)).
Proof.
  intros Hp Ht. apply match_any_no; [apply (bool_decide_unpack _); by vm_compute|].
  rewrite Hp. by apply bool_decide_false.
Qed.

Lemma primary_literal prim p t rest v :
  ahead p = t :: rest → literal_of ParseFloat t = Some v →
  primary_body ParseFloat ParseRFC3339 prim p = Some (Ok (LiteralExpr v (Pos t), skip 1 p)).
Proof.
  intros Hp Hv. unfold literal_of in Hv.
  assert (Hadv : Type_ t ≠ TokenEOF → advance p = Some (Ok (t, skip 1 p))) by by eapply advance_yes.
  assert (Hkw : (Type_ t, v) ∈ keyword_literals → match_any keyword_literals p = Some (Ok (Some v, skip 1 p))).
  { intros Hin. eapply match_any_yes; [done| | |done]; apply (bool_decide_unpack _); by vm_compute. }
  unfold primary_body. rewrite (current_ahead p t rest Hp).
  destruct (Type_ t) eqn:Et; try discriminate; token_tests Hp Et; unfold bind.
  - rewrite Hadv by done. by injection Hv as <-.
  - rewrite Hadv by done. injection Hv as <-. done.
  - rewrite Hadv by done. destruct (parseDuration (Value t)); try discriminate. by injection Hv as <-.
  - rewrite Hadv by done. injection Hv as <-. done.
  - injection Hv as <-. by rewrite Hkw by set_solver.
  - injection Hv as <-. by rewrite Hkw by set_solver.
  - injection Hv as <-. by rewrite Hkw by set_solver.
Qed.

Lemma primary_full ts e :
  (∀ p rest n, ahead p = ts ++ rest → follows LPrimary rest → (remaining p ≤ S n)%nat →
     primary_body ParseFloat ParseRFC3339 (parsePrimary ParseFloat ParseRFC3339 (S n)) p =
       Some (Ok (e, skip (length ts) p))) →
  ts ≠ [] → full LPrimary ts e.
Proof.
  intros H Hts p rest n Hp Hf Hn. cbn [parse_level parsePrimary].
  destruct n as [|n]; [|by apply (H p rest n)].
  pose proof (remaining_skip p ts rest Hp). destruct ts; [done|]. cbn [length] in *. lia.
Qed.

(** Arguments, after the opening parenthesis. *)
Lemma call_args_none prim p c rest :
  ahead p = c :: rest → Type_ c = TokenRParen → call_args prim p = Some (Ok ([], skip 1 p)).
Proof.
  intros Hp Hc. unfold call_args, bind at 1. rewrite at_token_ahead by done. token_tests Hp Hc.
  unfold bind at 1, ret. unfold bind at 1. by rewrite (expect_yes p c rest _ _ Hp Hc).
Qed.

Lemma rparen_follows L c rest :
  L ≠ LPrimary → Type_ c = TokenRParen → follows L (c :: rest) ∧ first_in [TokenComma] (c :: rest) = false.
Proof.
  intros _ Hc. unfold follows. cbn [first_in]. rewrite Hc. split; apply bool_decide_false;
    apply (bool_decide_unpack _); [by destruct L; vm_compute|by vm_compute].
Qed.

Lemma call_args_some p n ts args c rest :
  list_reads LOr ts args → first_in (starts_of LOr) ts = true → Type_ c = TokenRParen →
  ahead p = ts ++ c :: rest → (remaining p ≤ n)%nat →
  call_args (parsePrimary ParseFloat ParseRFC3339 (S n)) p = Some (Ok (args, skip (length ts + 1) p)).
Proof.
  intros Hl Hs Hc Hp Hn. unfold call_args, bind at 1. rewrite at_token_ahead by done.
  assert (Hno : first_in [TokenRParen] (ahead p) = false).
  { rewrite Hp. destruct ts as [|t ts]; [done|]. cbn [app]. apply (first_in_disjoint (starts_of LOr)); [done|].
    apply Forall_forall, (bool_decide_unpack _). by vm_compute. }
  rewrite Hno. unfold bind at 1, comma_list, loop.
  pose proof (rparen_follows LOr c rest ltac:(done) Hc) as [Hf Hcm].
  pose proof (Hl p (c :: rest) n [] (S (remaining p)) ltac:(done) Hp Hf Hcm Hn ltac:(lia)) as Hi.
  unfold comma_body in Hi. cbn [parse_level app] in Hi. unfold parseExpression. rewrite Hi.
  unfold bind at 1. rewrite (expect_yes _ c rest) by (done || by apply ahead_skip).
  unfold ret. by rewrite skip_skip, Nat.add_comm.
Qed.

Lemma callee_dispatch prim p t o rest :
  ahead p = t :: o :: rest → callee (Type_ t) → Type_ o = TokenLParen →
  primary_body ParseFloat ParseRFC3339 prim p =
    (let? args := call_args prim in ret (FunctionCallExpr (Value t) args (Pos t))) (skip 2 p).
Proof.
  intros Hp Ht Ho. assert (Hp1 : ahead (skip 1 p) = o :: rest) by by apply (ahead_skip p [t]).
  assert (HE : Type_ t ≠ TokenEOF).
  { destruct Ht as [->|H]; [done|]. intros E. rewrite E in H. revert H.
    apply (bool_decide_unpack _). by vm_compute. }
  assert (Hadv : advance p = Some (Ok (t, skip 1 p))) by by eapply advance_yes.
  assert (Hm : match_ TokenLParen (skip 1 p) = Some (Ok (true, skip 2 p))).
  { rewrite (match_yes _ o rest _ Hp1 Ho). by rewrite skip_skip. }
  assert (Hcur : current p = t) by by eapply current_ahead.
  unfold primary_body. rewrite Hcur. destruct Ht as [Ht|Ht].
  - assert (Hkw : match_any keyword_literals p = Some (Ok (None, p))).
    { eapply no_keyword_literal; [done|]. rewrite Ht. apply (bool_decide_unpack _). by vm_compute. }
    token_tests Hp Ht. unfold bind at 1. rewrite Hkw. unfold bind at 1.
    rewrite at_token_ahead by done. token_tests Hp Ht. unfold parseIdentifierOrCall.
    unfold bind at 1, here. rewrite Hcur. unfold bind at 1. rewrite Hadv. unfold bind at 1. by rewrite Hm.
  - assert (Hmem : ∀ tys, (∀ x, x ∈ aggregations.*1 → x ∉ tys) → first_in tys (ahead p) = false).
    { intros tys Hd. rewrite Hp. cbn [first_in]. by apply bool_decide_false, Hd. }
    assert (Hkw : match_any keyword_literals p = Some (Ok (None, p))).
    { eapply no_keyword_literal; [done|]. revert Ht. generalize (Type_ t). apply Forall_forall.
      apply (bool_decide_unpack _). by vm_compute. }
    rewrite !check_ahead by done.
    rewrite !Hmem by (apply Forall_forall, (bool_decide_unpack _); by vm_compute).
    unfold bind at 1. rewrite Hkw. unfold bind at 1. rewrite at_token_ahead by done.
    rewrite Hmem by (apply Forall_forall, (bool_decide_unpack _); by vm_compute).
    unfold bind at 1, checkAggregation. rewrite is_any_ahead by (apply (bool_decide_unpack _); by vm_compute).
    rewrite Hp. cbn [first_in]. rewrite bool_decide_true by done.
    unfold parseAggregationAsFunction, bind at 1, here. rewrite Hcur. unfold bind at 1. rewrite Hadv.
    unfold bind at 1, expect, bind at 1. by rewrite Hm.
Qed.

Lemma call0_full t o c :
  callee (Type_ t) → Type_ o = TokenLParen → Type_ c = TokenRParen →
  full LPrimary [t; o; c] (FunctionCallExpr (Value t) [] (Pos t)).
Proof.
  intros Ht Ho Hc. apply primary_full; [|done]. intros p rest n Hp _ _.
  rewrite (callee_dispatch _ p t o (c :: rest) Hp Ht Ho). unfold bind.
  rewrite (call_args_none _ _ c rest); [|by apply (ahead_skip p [t; o])|done].
  unfold ret. by rewrite skip_skip.
Qed.

Lemma call_full t o ts args c :
  callee (Type_ t) → Type_ o = TokenLParen → Type_ c = TokenRParen →
  first_in (starts_of LOr) ts = true → list_reads LOr ts args →
  full LPrimary (t :: o :: ts ++ [c]) (FunctionCallExpr (Value t) args (Pos t)).
Proof.
  intros Ht Ho Hc Hs Hl. apply primary_full; [|done]. intros p rest n Hp _ Hn.
  cbn [app] in Hp. rewrite <- app_assoc in Hp. cbn [app] in Hp.
  rewrite (callee_dispatch _ p t o _ Hp Ht Ho). unfold bind.
  assert (Hp2 : ahead (skip 2 p) = ts ++ c :: rest) by by apply (ahead_skip p [t; o]).
  pose proof (remaining_skip p [t; o] _ Hp) as R. cbn [length] in R.
  rewrite (call_args_some (skip 2 p) n ts args c rest Hl Hs Hc Hp2) by lia.
  unfold ret. rewrite skip_skip. cbn [length]. rewrite length_app. cbn [length]. do 4 f_equal. lia.
Qed.

Lemma ident_full t ts names :
  Type_ t = TokenIdent → path ts names → full LPrimary (t :: ts) (IdentifierExpr (Value t) names (Pos t)).
Proof.
  intros Ht Hpath. apply primary_full; [|done]. intros p rest n Hp Hf _. cbn [app] in Hp.
  assert (Hp1 : ahead (skip 1 p) = ts ++ rest) by by apply (ahead_skip p [t]).
  assert (Hcur : current p = t) by by eapply current_ahead.
  assert (Hkw : match_any keyword_literals p = Some (Ok (None, p))).
  { eapply no_keyword_literal; [done|]. rewrite Ht. apply (bool_decide_unpack _). by vm_compute. }
  unfold primary_body. rewrite Hcur. token_tests Hp Ht. unfold bind at 1. rewrite Hkw. unfold bind at 1.
  rewrite at_token_ahead by done. token_tests Hp Ht. unfold parseIdentifierOrCall, bind at 1, here.
  rewrite Hcur. unfold bind at 1. rewrite (advance_yes p t _ Hp) by by rewrite Ht.
  assert (Hsub : ∀ ty, ty ∈ [TokenLParen; TokenDot] → first_in [ty] rest = false).
  { intros ty Hty. eapply (follows_extenders LPrimary); [done|]. intros x ->%list_elem_of_singleton.
    exact Hty. }
  unfold bind at 1. rewrite match_no; [|done|].
  2:{ rewrite Hp1. destruct Hpath as [|d x ts names Hd]; [apply Hsub; set_solver|].
      cbn [app first_in]. rewrite Hd. by vm_compute. }
  unfold bind at 1, path_loop, loop.
  rewrite (path_reads ts names Hpath (skip 1 p) rest [] _ Hp1) by (lia || (apply Hsub; set_solver)).
  unfold ret. cbn [app length]. by rewrite skip_skip, Nat.add_1_r.
Qed.

Lemma star_full t : Type_ t = TokenStar → full LPrimary [t] (IdentifierExpr "*" [] (Pos t)).
Proof.
  intros Ht. apply primary_full; [|done]. intros p rest n Hp _ _. cbn [app] in Hp.
  assert (Hkw : match_any keyword_literals p = Some (Ok (None, p))).
  { eapply no_keyword_literal; [done|]. rewrite Ht. apply (bool_decide_unpack _). by vm_compute. }
  assert (Hcur : current p = t) by by eapply current_ahead.
  unfold primary_body. rewrite Hcur. token_tests Hp Ht. unfold bind at 1. rewrite Hkw. unfold bind at 1.
  rewrite at_token_ahead by done. token_tests Hp Ht. unfold bind at 1, checkAggregation.
  rewrite is_any_ahead by (apply (bool_decide_unpack _); by vm_compute). rewrite Hp. cbn [first_in].
  rewrite Ht. rewrite bool_decide_false by (apply (bool_decide_unpack _); by vm_compute).
  unfold bind at 1. rewrite match_no; [|done|].
  2:{ rewrite Hp. cbn [first_in]. rewrite Ht. by vm_compute. }
  unfold bind at 1. by rewrite (match_yes p t rest _ Hp Ht).
Qed.

(** What a parenthesis opens. *)
Lemma parenthesis_dispatch prim p o rest :
  ahead p = o :: rest → Type_ o = TokenLParen →
  primary_body ParseFloat ParseRFC3339 prim p =
    parse_parenthesis ParseFloat ParseRFC3339 prim (Pos o) (skip 1 p).
Proof.
  intros Hp Ho.
  assert (Hkw : match_any keyword_literals p = Some (Ok (None, p))).
  { eapply no_keyword_literal; [done|]. rewrite Ho. apply (bool_decide_unpack _). by vm_compute. }
  assert (Hcur : current p = o) by by eapply current_ahead.
  unfold primary_body. rewrite Hcur. token_tests Hp Ho. unfold bind at 1. rewrite Hkw. unfold bind at 1.
  rewrite at_token_ahead by done. token_tests Hp Ho. unfold bind at 1, checkAggregation.
  rewrite is_any_ahead by (apply (bool_decide_unpack _); by vm_compute). rewrite Hp. cbn [first_in].
  rewrite Ho. rewrite bool_decide_false by (apply (bool_decide_unpack _); by vm_compute).
  unfold bind at 1. by rewrite (match_yes p o rest _ Hp Ho).
Qed.
Lemma group_full o ts e c :
  Type_ o = TokenLParen → Type_ c = TokenRParen →
  first_in (subquery_starts ++ list_starts) ts = false → ts ≠ [] → full LOr ts e →
  full LPrimary (o :: ts ++ [c]) e.
Proof.
  intros Ho Hc Hno Hts He. apply primary_full; [|done]. intros p rest n Hp _ Hn.
  cbn [app] in Hp. rewrite <- app_assoc in Hp. cbn [app] in Hp.
  rewrite (parenthesis_dispatch _ p o _ Hp Ho). unfold parse_parenthesis.
  assert (Hp1 : ahead (skip 1 p) = ts ++ c :: rest) by by apply (ahead_skip p [o]).
  pose proof (remaining_skip p [o] _ Hp) as R. cbn [length] in R.
  rewrite first_in_app in Hno. apply orb_false_iff in Hno as [Hno1 Hno2].
  assert (Hfirst : ∀ tys, first_in tys ts = false → first_in tys (ahead (skip 1 p)) = false).
  { intros tys H. rewrite Hp1. by destruct ts. }
  unfold bind at 1. rewrite is_any_ahead by (apply (bool_decide_unpack _); by vm_compute).
  rewrite Hfirst by done. unfold bind at 1.
  rewrite is_any_ahead by (apply (bool_decide_unpack _); by vm_compute). rewrite Hfirst by done.
  unfold bind at 1, parseExpression. pose proof (rparen_follows LOr c rest ltac:(done) Hc) as [Hf _].
  pose proof (He (skip 1 p) (c :: rest) n Hp1 Hf ltac:(lia)) as Hx. cbn [parse_level] in Hx. rewrite Hx.
  unfold bind. rewrite (expect_yes _ c rest) by (done || by apply ahead_skip).
  unfold ret. rewrite !skip_skip. cbn [length]. rewrite length_app. cbn [length].
  repeat f_equal; lia.
Qed.

Lemma list_full o ts es c :
  Type_ o = TokenLParen → Type_ c = TokenRParen → first_in list_starts ts = true →
  list_reads LPrimary ts es → full LPrimary (o :: ts ++ [c]) (ListExpr es (Pos o)).
Proof.
  intros Ho Hc Hs Hl. apply primary_full; [|done]. intros p rest n Hp _ Hn.
  cbn [app] in Hp. rewrite <- app_assoc in Hp. cbn [app] in Hp.
  rewrite (parenthesis_dispatch _ p o _ Hp Ho). unfold parse_parenthesis.
  assert (Hp1 : ahead (skip 1 p) = ts ++ c :: rest) by by apply (ahead_skip p [o]).
  pose proof (remaining_skip p [o] _ Hp) as R. cbn [length] in R.
  assert (Hfirst : ∀ tys, first_in tys (ahead (skip 1 p)) = first_in tys ts).
  { intros tys. rewrite Hp1. by destruct ts. }
  unfold bind at 1. rewrite is_any_ahead by (apply (bool_decide_unpack _); by vm_compute).
  rewrite Hfirst, (first_in_disjoint list_starts) by
    (done || apply Forall_forall, (bool_decide_unpack _); by vm_compute).
  unfold bind at 1. rewrite is_any_ahead by (apply (bool_decide_unpack _); by vm_compute).
  rewrite Hfirst. unfold list_starts in Hs. rewrite Hs. unfold parseList, bind at 1, comma_list, loop.
  assert (Hf : follows LPrimary (c :: rest)) by (unfold follows; cbn [first_in]; rewrite Hc; by vm_compute).
  assert (Hcm : first_in [TokenComma] (c :: rest) = false) by (cbn [first_in]; rewrite Hc; by vm_compute).
  pose proof (Hl (skip 1 p) (c :: rest) n [] (S (remaining (skip 1 p))) ltac:(done) Hp1 Hf Hcm
    ltac:(lia) ltac:(lia)) as Hi.
  unfold comma_body in Hi. cbn [parse_level app] in Hi. rewrite Hi. unfold bind.
  rewrite (expect_yes _ c rest) by (done || by apply ahead_skip).
  unfold ret. rewrite !skip_skip. cbn [length]. rewrite length_app. cbn [length].
  repeat f_equal; lia.
Qed.

(** *** All expressions *)

(** A level without operators of its own. *)
Lemma reads_primary ts e : full LPrimary ts e → reads LPrimary ts e.
Proof. intros H. split; [done|]. split; [by intros []|]. by intros t op p rest n fuel [=]. Qed.

Lemma reads_chain L ts e : ops_of L ≠ [] → chain L ts e → reads L ts e.
Proof.
  intros Hops Hc. split; [by intros HL; apply chain_full|]. split; [done|].
  intros t op p rest n fuel HL. by destruct L.
Qed.

Lemma reads_prefixed L ts e t op : prefix_of L = Some (t, op) → prefixed L ts e → reads L ts e.
Proof.
  intros HL Hp. split; [by intros _; eapply prefixed_full|]. split; [by destruct L|done].
Qed.

Lemma reads_up L ts e :
  L ≠ LPrimary → first_in (starts_of (next L)) ts = true → reads (next L) ts e → reads L ts e.
Proof.
  intros HL Hs (Hf & Hc & _). destruct L; try done; cbn [next] in *;
    try (apply reads_chain; [done|]; apply chain_start; [done..|]; by apply Hf);
    try (eapply reads_prefixed; [done|]; apply prefixed_up; [done|]; by apply Hf).
  split; [intros _; apply comparison_full, Hc; done|]. split; [by intros []|]. by intros t op p rest n fuel [=].
Qed.

Lemma derives_reads :
  (∀ L ts e, derives ParseFloat L ts e → reads L ts e) ∧
  (∀ L ts es, derives_list ParseFloat L ts es → list_reads L ts es).
Proof.
  destruct (derives_first ParseFloat) as [Hfirst Hfirsts].
  apply derives_both.
  - intros L ts e HL Hd IH. apply reads_up; [done|by apply Hfirst in Hd|done].
  - intros L ts1 lhs o op ts2 rhs Hop _ (_ & IH1 & _) _ (IH2 & _).
    assert (ops_of L ≠ []) by (intros E; rewrite E in Hop; set_solver).
    apply reads_chain; [done|]. apply chain_binary; [done|by apply IH1|]. apply IH2. by destruct L.
  - intros L o op ts e HL _ (_ & _ & IH). eapply reads_prefixed; [done|]. by apply prefixed_op.
  - intros ts1 lhs o ts2 rhs Ho _ (_ & IH1 & _) _ (IH2 & _).
    split; [intros _; apply in_full; [done|by apply IH1|by apply IH2]|].
    split; [by intros []|]. by intros t op p rest n fuel [=].
  - intros t v Hv. apply reads_primary, primary_full; [|done]. intros p rest n Hp _ _.
    by apply (primary_literal _ _ _ rest).
  - intros. by apply reads_primary, star_full.
  - intros. by apply reads_primary, ident_full.
  - intros. by apply reads_primary, call0_full.
  - intros t o ts args c Ht Ho Hc Hd IH. apply reads_primary, call_full; try done. by apply Hfirsts in Hd.
  - intros o ts e c Ho Hc Hno Hd (IH & _). apply reads_primary, group_full; try done.
    + apply Hfirst in Hd. by destruct ts.
    + by apply IH.
  - intros. by apply reads_primary, list_full.
  - intros. by apply list_reads_one.
  - intros. by apply list_reads_cons.
Qed.
End reading.

(** C18: the recursive descent reads every sentence of the grammar of expressions (or, and,
    not, comparisons and IN, sums, products, minus, calls, paths, lists and parentheses)
    to its last token and as the tree the grammar gives, so precedence and associativity
    are the grammar's; only a token that would extend the sentence has to be absent after
    it. *)
Theorem expression_reads_the_grammar ParseFloat ParseRFC3339 ts e rest p :
  derives ParseFloat LOr ts e → ahead p = ts ++ rest → follows LOr rest →
  expression ParseFloat ParseRFC3339 p = Some (Ok (e, set_pos (length ts + p_pos p) p)).
Proof.
  intros Hd Hp Hf. apply (derives_reads ParseFloat ParseRFC3339) in Hd as [He _].
  exact (He ltac:(done) p rest (remaining p) Hp Hf (le_n _)).
Qed.

(** The grammar gives a list of tokens one tree at most. *)
Lemma derives_unambiguous ParseFloat ts e e' :
  derives ParseFloat LOr ts e → derives ParseFloat LOr ts e' → e = e'.
Proof.
  intros H H'. pose (p := NewParser ts).
  assert (Hp : ahead p = ts ++ []) by by rewrite app_nil_r.
  pose (R := λ _ : string, inr "" : Time + string).
  destruct (derives_reads ParseFloat R) as [Hr _].
  pose proof (proj1 (Hr _ _ _ H) ltac:(done) p [] (remaining p) Hp eq_refl ltac:(lia)) as E.
  rewrite (proj1 (Hr _ _ _ H') ltac:(done) p [] (remaining p) Hp eq_refl ltac:(lia)) in E.
  by injection E as ->.
Qed.

(** *** A sentence *)

Definition no_floats : string → SpecFloat.spec_float := λ _, SpecFloat.S754_zero false.
Definition no_times : string → Time + string := λ _, inr "no time".
Definition tok (ty : TokenType) (v : string) : Token := mkToken ty v (mkPosition 1 1 0).

(** [a or b + c * 2 > 1] up to a pipe. *)
Definition sentence : list Token :=
  [tok TokenIdent "a"; tok TokenOr "or"; tok TokenIdent "b"; tok TokenPlus "+"; tok TokenIdent "c";
   tok TokenStar "*"; tok TokenNumber "2"; tok TokenGt ">"; tok TokenNumber "1"].

Definition sentence_tree : Expr :=
  let pos := mkPosition 1 1 0 in
  let id n := IdentifierExpr n [] pos in
  let int n := LiteralExpr (LiteralInt n) pos in
  BinaryExpr (id "a") "or"
    (BinaryExpr (BinaryExpr (id "b") "+" (BinaryExpr (id "c") "*" (int 2) pos) pos) ">" (int 1) pos) pos.

Lemma derives_ident ParseFloat n L : derives ParseFloat L [tok TokenIdent n] (IdentifierExpr n [] (mkPosition 1 1 0)).
Proof.
  assert (H : derives ParseFloat LPrimary [tok TokenIdent n] (IdentifierExpr n [] (mkPosition 1 1 0))).
  { exact (d_ident ParseFloat (tok TokenIdent n) [] [] eq_refl path_nil). }
  destruct L; repeat (apply d_up; [done|]; cbn [next]); exact H.
Qed.

Lemma sentence_derived : derives no_floats LOr sentence sentence_tree.
Proof.
  assert (Hint : ∀ v L, v = "1" ∨ v = "2" →
    derives no_floats L [tok TokenNumber v] (LiteralExpr (LiteralInt (Atoi v).1) (mkPosition 1 1 0))).
  { intros v L Hv.
    assert (H : derives no_floats LPrimary [tok TokenNumber v]
      (LiteralExpr (LiteralInt (Atoi v).1) (mkPosition 1 1 0))).
    { refine (d_literal no_floats (tok TokenNumber v) _ _). by destruct Hv as [-> | ->]. }
    destruct L; repeat (apply d_up; [done|]; cbn [next]); exact H. }
  apply (d_binary _ LOr [tok TokenIdent "a"]); [set_solver|apply derives_ident|cbn [next]].
  apply d_up; [done|]. apply d_up; [done|]. cbn [next]. apply d_up; [done|]. cbn [next].
  apply (d_binary _ LChain (take 5 (drop 2 sentence))); [set_solver| |apply (Hint "1"); by left].
  apply d_up; [done|]. cbn [next].
  apply (d_binary _ LAdd [tok TokenIdent "b"]); [set_solver|apply derives_ident|].
  apply (d_binary _ LMul [tok TokenIdent "c"]); [set_solver|apply derives_ident|].
  apply (Hint "2"). by right.
Qed.

Lemma expression_reads_the_grammar_witness :
  expression no_floats no_times (NewParser (sentence ++ [tok TokenPipe "|"])) =
  Some (Ok (sentence_tree, set_pos 9 (NewParser (sentence ++ [tok TokenPipe "|"])))).
Proof.
  exact (expression_reads_the_grammar no_floats no_times sentence sentence_tree [tok TokenPipe "|"]
    (NewParser (sentence ++ [tok TokenPipe "|"])) sentence_derived eq_refl eq_refl).
Defined.

(** ** What the parser does outside the grammar *)

Definition parse_text (src : string) : option (result Statement) := Parse no_floats no_times src.
Definition is_error (r : option (result Statement)) : bool :=
  match r with Some (Err _) => true | _ => false end.

(** Tokens after the query are ignored: [Parse] never looks for the end of the text. *)
Lemma rest_of_the_text_is_ignored : parse_text "logs | where a > 0 frob > 1" = parse_text "logs | where a > 0".
Proof. vm_compute. reflexivity. Qed.

(** So a subtraction without a space loses its right side and all that follows: the lexer
    reads [-1] as a number. *)
Lemma subtraction_without_space_is_lost : parse_text "logs | where a -1 > 0" = parse_text "logs | where a".
Proof. vm_compute. reflexivity. Qed.

(** A parenthesis before a number is a list of primary expressions. *)
Lemma parenthesis_before_a_number_is_a_list :
  is_error (parse_text "logs | where (1 + a) > 0") = true ∧
  is_error (parse_text "logs | where (a + 1) > 0") = false.
Proof. vm_compute. done. Qed.

(** A defined query used as a source loses its pipes. *)
Lemma defined_query_loses_its_pipes :
  match parse_text "define x = (logs | where a > 0) x | limit 3" with
  | Some (Ok (PipeStatement q _)) => length (q_Pipes q) = 1%nat ∧ src_Type (q_Source q) = "logs"
  | _ => False
  end.
Proof. vm_compute. done. Qed.

(** A fractional count of [top] is read as 0, an integer literal out of range as the
    largest integer. *)
Lemma numbers_are_not_checked :
  match parse_text "logs | top 1.5", parse_text "logs | where a > 99999999999999999999" with
  | Some (Ok (PipeStatement q _)), Some (Ok (PipeStatement q' _)) =>
      (∃ p, q_Pipes q = [TopNode 0 "" p]) ∧
      (∃ id p1 p2 p3, q_Pipes q' = [WhereNode (BinaryExpr id ">" (LiteralExpr (LiteralInt int64_max) p1) p2) p3])
  | _, _ => False
  end.
Proof. vm_compute. split; repeat eexists. Qed.

(** Only the first equality of a join condition is kept. *)
Lemma join_condition_keeps_the_first :
  match parse_text "select a from logs join traces on a = b and c = d" with
  | Some (Ok (SQLStatement (mkSQLQuery _ _ [mkSQLJoinClause _ _ (Some c) _] _ _ _ _ _ _) _ _)) =>
      ∃ p q, jc_Left c = IdentifierExpr "a" [] p ∧ jc_Right c = IdentifierExpr "b" [] q
  | _ => False
  end.
Proof. vm_compute. repeat eexists. Qed.

(** The BETWEEN the hint of a join proposes is not read: the condition ends before it. *)
Lemma join_between_is_not_read :
  is_error (parse_text "select a from logs join traces on a between 1 and 2") = true.
Proof. vm_compute. reflexivity. Qed.

(** A number that overflows a duration in days is read as another duration. *)
Lemma long_duration_wraps : parseDuration "106752d" = Ok (-9223371273709551616).
Proof. vm_compute. reflexivity. Qed.
