(* ===== verification/Format.v ===== *)
(** Text of values: the verbs of package fmt the code uses, as a class, and the functions of
    package strings that join, split and trim texts. *)

From Stdlib Require Import String Ascii.
From stdpp Require Import base list strings.
From S2P Require Import Prelude Float64 Bytes.

(** The verbs %q, %v, %.1f, %.2f and %f of package fmt, [Duration.String] and the RFC 3339
    format. *)
Class Fmt := {
  fmt_quote : string → string;
  fmt_float : float64 → string;
  fmt_float1 : float64 → string;
  fmt_float2 : float64 → string;
  fmt_float6 : float64 → string;
  fmt_duration : Duration → string;
  fmt_rfc3339 : Time → string;
}.

Fixpoint join (sep : string) (l : list string) : string :=
  match l with
  | [] => ""
  | [s] => s
  | s :: l => s +:+ sep +:+ join sep l
  end.

Definition show_bool (b : bool) : string := if b then "true" else "false".

(** ** Package strings *)

(** [strings.Split(s, sep)] of a separator of one byte. *)
Fixpoint split_byte (sep : ascii) (s : string) : list string :=
  match s with
  | EmptyString => [""]
  | String c s =>
      if Ascii.eqb c sep then "" :: split_byte sep s
      else match split_byte sep s with part :: parts => String c part :: parts | [] => [String c ""] end
  end.

(** The runes of [unicode.IsSpace], by their bytes. *)
Definition bytes_of (l : list nat) : string := string_of_list_ascii (ascii_of_nat <$> l).
Definition unicode_spaces : list string := bytes_of <$>
  [[9]; [10]; [11]; [12]; [13]; [32]; [194; 133]; [194; 160]; [225; 154; 128];
   [226; 128; 128]; [226; 128; 129]; [226; 128; 130]; [226; 128; 131]; [226; 128; 132]; [226; 128; 133];
   [226; 128; 134]; [226; 128; 135]; [226; 128; 136]; [226; 128; 137]; [226; 128; 138];
   [226; 128; 168]; [226; 128; 169]; [226; 128; 175]; [226; 129; 159]; [227; 128; 128]]%nat.

(** [strings.TrimSpace], with as many rounds as there are bytes. *)
Fixpoint trim_left (n : nat) (s : string) : string :=
  match n, find (HasPrefix s) unicode_spaces with
  | S n, Some sp => trim_left n (TrimPrefix s sp)
  | _, _ => s
  end.
Fixpoint trim_right (n : nat) (s : string) : string :=
  match n, find (HasSuffix s) unicode_spaces with
  | S n, Some sp => trim_right n (TrimSuffix s sp)
  | _, _ => s
  end.
Definition TrimSpace (s : string) : string :=
  trim_right (String.length s) (trim_left (String.length s) s).

(** ** Characters of a text *)

Definition all_chars (P : ascii → Prop) (s : string) : Prop := Forall P (list_ascii_of_string s).

Lemma all_chars_cons P c s : all_chars P (String c s) ↔ P c ∧ all_chars P s.
Proof. unfold all_chars. cbn. by rewrite Forall_cons. Qed.

Lemma all_chars_substring P n m s : all_chars P s → all_chars P (String.substring n m s).
Proof.
  revert n m. induction s as [|c s IH]; intros n m H; [by destruct n, m; constructor|].
  apply all_chars_cons in H as [Hc Hs]. destruct n as [|n]; cbn; [|by apply IH].
  destruct m as [|m]; [constructor|]. apply all_chars_cons. split; [done|by apply IH].
Qed.

Lemma all_chars_TrimPrefix P s p : all_chars P s → all_chars P (TrimPrefix s p).
Proof. unfold TrimPrefix. intros H. case_match; [by apply all_chars_substring|done]. Qed.

Lemma all_chars_TrimSuffix P s p : all_chars P s → all_chars P (TrimSuffix s p).
Proof.
  induction s as [|c s IH]; intros H; cbn; [by case_match|].
  case_match; [constructor|]. apply all_chars_cons in H as [? ?]. apply all_chars_cons. auto.
Qed.

Lemma all_chars_TrimSpace P s : all_chars P s → all_chars P (TrimSpace s).
Proof.
  intros H. unfold TrimSpace.
  assert (Hl : ∀ n s, all_chars P s → all_chars P (trim_left n s)).
  { induction n as [|n IH]; intros t Ht; cbn; [done|]. case_match; [|done]. by apply IH, all_chars_TrimPrefix. }
  assert (Hr : ∀ n s, all_chars P s → all_chars P (trim_right n s)).
  { induction n as [|n IH]; intros t Ht; cbn; [done|]. case_match; [|done]. by apply IH, all_chars_TrimSuffix. }
  by apply Hr, Hl.
Qed.

(** Splitting joined parts gives them back. *)
Lemma split_join sep parts :
  parts ≠ [] → Forall (all_chars (λ c, c ≠ sep)) parts → split_byte sep (join (String sep "") parts) = parts.
Proof.
  intros Hne H. induction H as [|s parts Hs H IH]; [done|]. clear Hne.
  assert (Hstep : ∀ r, split_byte sep (s +:+ r) = match split_byte sep r with p :: ps => (s +:+ p) :: ps | [] => [s] end).
  { clear H IH. intros r. induction s as [|c s IHs].
    - change ("" +:+ r) with r. assert (Hn : split_byte sep r ≠ []).
      { destruct r as [|c r]; cbn; [done|]. case_match; [done|]. by case_match. }
      by destruct (split_byte sep r).
    - apply all_chars_cons in Hs as [Hc Hs]. change (String c s +:+ r) with (String c (s +:+ r)). cbn [split_byte].
      destruct (Ascii.eqb_spec c sep); [done|]. rewrite IHs by done. by destruct (split_byte sep r). }
  destruct parts as [|s' parts]; cbn [join].
  - clear Hstep IH H. induction s as [|c s IHs]; [done|]. apply all_chars_cons in Hs as [Hc Hs]. cbn [split_byte].
    destruct (Ascii.eqb_spec c sep); [done|]. by rewrite IHs.
  - rewrite Hstep. change (String sep "" +:+ ?r) with (String sep r). cbn [split_byte]. rewrite Ascii.eqb_refl.
    specialize (IH ltac:(done)). cbn [join] in IH. rewrite IH.
    f_equal. clear. induction s as [|c s IH]; [done|]. change (String c (s +:+ "") = String c s). by rewrite IH.
Qed.
