(* ===== verification/Show.v ===== *)
(** The text of syntax trees (the String methods of internal/query/ast.go), which also
    names the columns of a projection. *)

From Stdlib Require Import String Ascii.
From stdpp Require Import base option list gmap strings pretty.
From S2P Require Import Prelude Float64 Format Tokens Lexer Ast.

Section show.
Context `{!Fmt}.

Definition Source_String (s : SourceNode) : string :=
  if String.eqb (src_MetricName s) "" then src_Type s else src_Type s +:+ "." +:+ src_MetricName s.

Definition TimeRange_String (t : TimeRangeNode) : string :=
  if 0 <? tr_Relative t then "last " +:+ fmt_duration (tr_Relative t)
  else "between " +:+ fmt_rfc3339 (tr_Start t) +:+ " and " +:+ fmt_rfc3339 (tr_End t).

Definition Agg_String (a : AggregationExpr) : string :=
  agg_Function a +:+ (if String.eqb (agg_Field a) "" then "" else "(" +:+ agg_Field a +:+ ")").

Definition by_String (fields : list string) : string :=
  match fields with [] => "" | _ => " by (" +:+ join ", " fields +:+ ")" end.

Definition OrderBy_String (n : OrderByNode) : string :=
  "order by " +:+ join ", " (map (λ f, of_Field f +:+ if of_Desc f then " desc" else "") (ob_Fields n)).

Definition Limit_String (n : LimitNode) : string :=
  "limit " +:+ pretty (lim_Count n) +:+
  if 0 <? lim_Offset n then " offset " +:+ pretty (lim_Offset n) else "".

Definition Literal_String (v : Literal) : string :=
  match v with
  | LiteralString s => fmt_quote s
  | LiteralDuration d => fmt_duration d
  | LiteralInt n => pretty n
  | LiteralFloat f => fmt_float f
  | LiteralBool b => show_bool b
  | LiteralNull => "<nil>"
  | LiteralRegex s => s
  end.

Definition alias_String (word alias : string) : string :=
  if String.eqb alias "" then "" else word +:+ alias.

Fixpoint Expr_String (e : Expr) : string :=
  match e with
  | BinaryExpr l op r _ => "(" +:+ Expr_String l +:+ " " +:+ op +:+ " " +:+ Expr_String r +:+ ")"
  | UnaryExpr op e _ => op +:+ Expr_String e
  | IdentifierExpr name path _ => name +:+ foldl (λ s p, s +:+ "." +:+ p) "" path
  | LiteralExpr v _ => Literal_String v
  | FunctionCallExpr name args _ => name +:+ "(" +:+ join ", " (map Expr_String args) +:+ ")"
  | ListExpr vs _ => "(" +:+ join ", " (map Expr_String vs) +:+ ")"
  | SubqueryExpr q _ => "(" +:+ Query_String q +:+ ")"
  end
with Query_String (q : Query) : string :=
  match q with
  | mkQuery source pipes tr _ =>
      Source_String source +:+ foldr (λ p s, " | " +:+ Pipe_String p +:+ s) "" pipes +:+
      match tr with Some t => " " +:+ TimeRange_String t | None => "" end
  end
with Pipe_String (p : PipeNode) : string :=
  match p with
  | WhereNode cond _ => "where " +:+ Expr_String cond
  | SelectNode fields _ =>
      "select " +:+ join ", " (map (λ f, Expr_String f.1 +:+ alias_String " as " f.2) fields)
  | GroupByNode aggs fields _ => join ", " (map Agg_String aggs) +:+ by_String fields
  | OrderBy n => OrderBy_String n
  | Limit n => Limit_String n
  | TopNode count _ _ => "top " +:+ pretty count
  | WindowNode ty d _ => "window " +:+ ty +:+ "=" +:+ fmt_duration d
  | CorrelateNode target fields tol _ =>
      "correlate " +:+ target +:+ " on (" +:+ join ", " fields +:+ ")" +:+
      if 0 <? tol then " time ± " +:+ fmt_duration tol else ""
  | AnomaliesNode algo sens _ => "anomalies algorithm=" +:+ algo +:+ " sensitivity=" +:+ fmt_float2 sens
  | ExtractNode pattern auto _ =>
      if (auto : bool) then "extract auto" else "extract pattern=" +:+ fmt_quote pattern
  | HistogramNode field buckets groupBy _ =>
      "histogram " +:+ field +:+ " buckets=" +:+ pretty buckets +:+ by_String groupBy
  end.

Definition Define_String (d : DefineNode) : string :=
  "define " +:+ def_Name d +:+ " = (" +:+ Query_String (def_Query d) +:+ ")".

(** ** SQL *)

Definition SelectField_String (f : SQLSelectField) : string :=
  Expr_String (sf_Expr f) +:+ alias_String " AS " (sf_Alias f).
Definition Select_String (s : SQLSelectClause) : string :=
  (if sel_Distinct s then "DISTINCT " else "") +:+ join ", " (map SelectField_String (sel_Fields s)).

(** The parser makes no BETWEEN condition. *)
Definition JoinCondition_String (c : SQLJoinCondition) : string :=
  Expr_String (jc_Left c) +:+ " " +:+ jc_Op c +:+ " " +:+ Expr_String (jc_Right c).

Definition JoinType_String (t : JoinType) : string :=
  match t with
  | JoinInner => "INNER JOIN " | JoinLeft => "LEFT JOIN "
  | JoinRight => "RIGHT JOIN " | JoinFull => "FULL JOIN "
  end.

Definition part {A} (word : string) (show : A → string) (o : option A) : string :=
  match o with Some a => word +:+ show a | None => "" end.

Fixpoint SQL_String (q : SQLQuery) : string :=
  let '(mkSQLQuery sel from joins where_ groupBy having orderBy limit _) := q in
  let clause (c : SQLFromClause) : string :=
    match c with
    | FromSubquery q alias _ => "(" +:+ SQL_String q +:+ ")" +:+ alias_String " " alias
    | FromSource s alias _ => Source_String s +:+ alias_String " " alias
    end in
  let joined (j : SQLJoinClause) : string :=
    match j with
    | mkSQLJoinClause ty src cond _ =>
        " " +:+ JoinType_String ty +:+ clause src +:+ part " ON " JoinCondition_String cond
    end in
  "SELECT " +:+ Select_String sel +:+ " FROM " +:+ clause from +:+ foldr (λ j s, joined j +:+ s) "" joins +:+
  part " WHERE " Expr_String where_ +:+
  match groupBy with [] => "" | _ => " GROUP BY " +:+ join ", " (map Expr_String groupBy) end +:+
  part " HAVING " Expr_String having +:+ part " " OrderBy_String orderBy +:+ part " " Limit_String limit.
End show.
