(* ===== verification/Planner.v ===== *)
(** The query planner (internal/query/planner.go): plans of pipe queries and of SQL
    queries, the cost estimates and the predicate push-down. *)

From Stdlib Require Import String Ascii.
From stdpp Require Import base option list gmap strings.
From S2P Require Import Prelude Float64 Tokens Lexer Ast Parser.

(** ** Plans *)

(** [End], [Start] and [Shift] of a query. *)
Record TimeRangeSpec := mkTimeRangeSpec { ts_Start : Time; ts_End : Time; ts_Shift : Duration }.
Record AggSpec := mkAggSpec { as_Function : string; as_Field : string; as_Alias : string }.
Record SortField := mkSortField { so_Field : string; so_Desc : bool }.
Record TimeJoinCondition := mkTimeJoinCondition { tj_LeftField : string; tj_StartField : string; tj_EndField : string }.
Record ProjectField := mkProjectField { pf_Expr : Expr; pf_Alias : string }.

Inductive PlanNode : Type :=
| PlanScanNode (Source MetricName : string) (Predicates : list Expr)
| PlanFilterNode (Input : PlanNode) (Condition : Expr)
| PlanProjectNode (Input : PlanNode) (Fields : list ProjectField)
| PlanAggregateNode (Input : PlanNode) (Aggregations : list AggSpec) (GroupBy : list string)
| PlanSortNode (Input : PlanNode) (Fields : list SortField)
| PlanLimitNode (Input : PlanNode) (Count Offset : Z)
| PlanWindowNode (Input : PlanNode) (WindowType : string) (d slide : Duration)
| PlanJoinNode (Left Right : PlanNode) (ty : JoinType) (JoinFields : list string)
    (TimeTolerance : Duration) (TimeCondition : option TimeJoinCondition)
| PlanAnomalyNode (Input : PlanNode) (Algorithm : string) (Sensitivity : float64)
| PlanExtractNode (Input : PlanNode) (Pattern : string) (Auto : bool)
| PlanHistogramNode (Input : PlanNode) (Field : string) (Buckets : Z) (GroupBy : list string).

(** What [EstimatedCost] gives. *)
Fixpoint EstimatedCost (n : PlanNode) : float64 :=
  match n with
  | PlanScanNode _ _ _ => f64_of_Z 100
  | PlanFilterNode i _ => f64_mul (EstimatedCost i) (f64_of_decimal 5 1)
  | PlanProjectNode i _ => f64_mul (EstimatedCost i) (f64_of_decimal 11 1)
  | PlanAggregateNode i _ _ => f64_mul (EstimatedCost i) (f64_of_Z 2)
  | PlanSortNode i _ => f64_mul (EstimatedCost i) (f64_of_decimal 15 1)
  | PlanLimitNode i count _ =>
      if 0 <? count then f64_mul (EstimatedCost i) (f64_div (f64_of_Z count) (f64_of_Z 1000))
      else EstimatedCost i
  | PlanWindowNode i _ _ _ => f64_mul (EstimatedCost i) (f64_of_decimal 12 1)
  | PlanJoinNode l r _ _ _ _ => f64_mul (f64_add (EstimatedCost l) (EstimatedCost r)) (f64_of_Z 3)
  | PlanAnomalyNode i _ _ => f64_mul (EstimatedCost i) (f64_of_Z 5)
  | PlanExtractNode i _ auto =>
      f64_mul (EstimatedCost i) (if auto then f64_of_Z 10 else f64_of_decimal 15 1)
  | PlanHistogramNode i _ _ _ => f64_mul (EstimatedCost i) (f64_of_decimal 15 1)
  end.

(** ** Plans of pipe queries *)

Definition sort_fields (n : OrderByNode) : list SortField :=
  map (λ f, mkSortField (of_Field f) (of_Desc f)) (ob_Fields n).

(** The parser never sets the slide of a window. *)
Definition buildPipeNode (input : PlanNode) (pipe : PipeNode) : PlanNode :=
  match pipe with
  | WhereNode cond _ => PlanFilterNode input cond
  | SelectNode fields _ => PlanProjectNode input (map (λ f, mkProjectField f.1 f.2) fields)
  | GroupByNode aggs fields _ =>
      PlanAggregateNode input (map (λ a, mkAggSpec (agg_Function a) (agg_Field a) (agg_Alias a)) aggs) fields
  | OrderBy n => PlanSortNode input (sort_fields n)
  | Limit n => PlanLimitNode input (lim_Count n) (lim_Offset n)
  | TopNode count field _ => PlanLimitNode (PlanSortNode input [mkSortField field true]) count 0
  | WindowNode ty d _ => PlanWindowNode input ty d 0
  | CorrelateNode target fields tol _ =>
      PlanJoinNode input (PlanScanNode target "" []) JoinInner fields tol None
  | AnomaliesNode algo sens _ => PlanAnomalyNode input algo sens
  | ExtractNode pattern auto _ => PlanExtractNode input pattern auto
  | HistogramNode field buckets groupBy _ => PlanHistogramNode input field buckets groupBy
  end.

Definition scan_of (s : SourceNode) : PlanNode := PlanScanNode (src_Type s) (src_MetricName s) [].
Definition buildPlan (q : Query) : PlanNode := foldl buildPipeNode (scan_of (q_Source q)) (q_Pipes q).

(** ** Plans of SQL queries *)

Definition ident_name (e : Expr) : option string :=
  match e with IdentifierExpr name _ _ => Some name | _ => None end.
Definition some_list {A} (o : option A) : list A := match o with Some a => [a] | None => [] end.

(** The path of a qualified name is not looked at. *)
Definition extractJoinFields (c : SQLJoinCondition) : list string :=
  some_list (ident_name (jc_Left c)) ++ some_list (ident_name (jc_Right c)).

(** No condition of the parser has a second bound. *)
Definition extractTimeCondition (c : SQLJoinCondition) : TimeJoinCondition :=
  mkTimeJoinCondition (default "" (ident_name (jc_Left c))) (default "" (ident_name (jc_Right c))) "".

Definition isAggFunction (name : string) : bool :=
  existsb (String.eqb (lower_text name)) ["count"; "sum"; "avg"; "min"; "max"; "p50"; "p90"; "p95"; "p99"].

(** A call of an aggregation function, with its name and arguments. *)
Definition agg_call (e : Expr) : option (string * list Expr) :=
  match e with
  | FunctionCallExpr name args _ => if isAggFunction name then Some (name, args) else None
  | _ => None
  end.
Definition is_some {A} (o : option A) : bool := if o then true else false.

Definition hasAggregations (sel : SQLSelectClause) : bool :=
  existsb (λ f, is_some (agg_call (sf_Expr f))) (sel_Fields sel).

Definition isSelectStar (sel : SQLSelectClause) : bool :=
  match sel_Fields sel with
  | [f] => match ident_name (sf_Expr f) with Some name => String.eqb name "*" | None => false end
  | _ => false
  end.

Definition sql_agg_spec (f : SQLSelectField) : option AggSpec :=
  match agg_call (sf_Expr f) with
  | Some (name, args) =>
      let fn := lower_text name in
      let field := match args with a :: _ => default "" (ident_name a) | [] => "" end in
      let alias := if String.eqb (sf_Alias f) "" then
        if String.eqb field "" then fn else fn +:+ "_" +:+ field else sf_Alias f in
      Some (mkAggSpec fn field alias)
  | None => None
  end.

Definition join_fields (cond : option SQLJoinCondition) : list string :=
  match cond with
  | Some c => if String.eqb (jc_Op c) "=" then extractJoinFields c else []
  | None => []
  end.
Definition time_condition (cond : option SQLJoinCondition) : option TimeJoinCondition :=
  match cond with
  | Some c => if String.eqb (jc_Op c) "BETWEEN" then Some (extractTimeCondition c) else None
  | None => None
  end.

(** The parts of a plan after its joins. *)
Definition add_filter (cond : option Expr) (n : PlanNode) : PlanNode :=
  match cond with Some c => PlanFilterNode n c | None => n end.

Definition add_aggregate (sel : SQLSelectClause) (groupBy : list Expr) (having : option Expr)
    (n : PlanNode) : PlanNode :=
  if negb (bool_decide (groupBy = [])) || hasAggregations sel then
    add_filter having (PlanAggregateNode n (omap sql_agg_spec (sel_Fields sel)) (omap ident_name groupBy))
  else n.

Definition add_projection (sel : SQLSelectClause) (n : PlanNode) : PlanNode :=
  if negb (bool_decide (sel_Fields sel = [])) && negb (isSelectStar sel) then
    match filter (λ f, agg_call (sf_Expr f) = None) (sel_Fields sel) with
    | [] => n
    | fields => PlanProjectNode n (map (λ f, mkProjectField (sf_Expr f) (sf_Alias f)) fields)
    end
  else n.

Definition add_order (o : option OrderByNode) (n : PlanNode) : PlanNode :=
  match o with Some o => PlanSortNode n (sort_fields o) | None => n end.
Definition add_limit (l : option LimitNode) (n : PlanNode) : PlanNode :=
  match l with Some l => PlanLimitNode n (lim_Count l) (lim_Offset l) | None => n end.

Fixpoint buildSQLPlan (sql : SQLQuery) : PlanNode :=
  let '(mkSQLQuery sel from joins where_ groupBy having orderBy limit _) := sql in
  let clause (c : SQLFromClause) : PlanNode :=
    match c with FromSource s _ _ => scan_of s | FromSubquery q _ _ => buildSQLPlan q end in
  let fix join_all (node : PlanNode) (js : list SQLJoinClause) : PlanNode :=
    match js with
    | [] => node
    | mkSQLJoinClause ty src cond _ :: js =>
        join_all (PlanJoinNode node (clause src) ty (join_fields cond) 0 (time_condition cond)) js
    end in
  add_limit limit (add_order orderBy (add_projection sel (add_aggregate sel groupBy having
    (add_filter where_ (join_all (clause from) joins))))).

(** ** Time ranges *)

Definition resolveTimeRange (now : Time) (tr : option TimeRangeNode) : TimeRangeSpec :=
  match tr with
  | None => mkTimeRangeSpec (now - Hour) now 0
  | Some tr =>
      if 0 <? tr_Relative tr then mkTimeRangeSpec (now - tr_Relative tr) now (tr_Shift tr)
      else mkTimeRangeSpec (tr_Start tr) (tr_End tr) (tr_Shift tr)
  end.

(** ** Optimizations *)

Definition pushable_operators : list string := ["="; "!="; "<"; "<="; ">"; ">="; "like"].

Fixpoint canPush (e : Expr) : bool :=
  match e with
  | BinaryExpr l op r _ =>
      if existsb (String.eqb op) pushable_operators then true
      else String.eqb op "and" && (canPush l && canPush r)
  | _ => false
  end.

Fixpoint pushdown (n : PlanNode) : PlanNode :=
  match n with
  | PlanFilterNode input cond =>
      match pushdown input with
      | PlanScanNode src metric preds =>
          if canPush cond then PlanScanNode src metric (preds ++ [cond])
          else PlanFilterNode (PlanScanNode src metric preds) cond
      | input => PlanFilterNode input cond
      end
  | PlanProjectNode input fields => PlanProjectNode (pushdown input) fields
  | PlanAggregateNode input aggs fields => PlanAggregateNode (pushdown input) aggs fields
  | PlanSortNode input fields => PlanSortNode (pushdown input) fields
  | PlanLimitNode input count offset => PlanLimitNode (pushdown input) count offset
  | PlanJoinNode l r ty fields tol tc => PlanJoinNode (pushdown l) (pushdown r) ty fields tol tc
  | _ => n
  end.

Definition LimitPushdown (n : PlanNode) : PlanNode := n.
Definition optimizations : list (PlanNode → PlanNode) := [pushdown; LimitPushdown].

Record Plan := mkPlan { Root : PlanNode; pl_TimeRange : TimeRangeSpec }.

Definition statement_plan (st : Statement) : PlanNode :=
  match st with PipeStatement q _ => buildPlan q | SQLStatement q _ _ => buildSQLPlan q end.
(** The parser puts no time range on SQL queries. *)
Definition statement_range (st : Statement) : option TimeRangeNode :=
  match st with PipeStatement q _ => q_TimeRange q | SQLStatement _ _ _ => None end.

Definition Planner_Plan (now : Time) (st : Statement) : Plan :=
  mkPlan (foldl (λ n opt, opt n) (statement_plan st) optimizations)
         (resolveTimeRange now (statement_range st)).
