(* ===== verification/Grouping.v ===== *)
(** Loops over lists that the parts share: grouping elements under keys, and mapping a
    computation that can fail. *)

From stdpp Require Import base list gmap.
From S2P Require Import Prelude.

(** ** Groups: elements under their keys, in the order they come *)

Definition group_by {A K} `{Countable K} (key : A → K) (l : list A) : gmap K (list A) :=
  foldl (λ m x, <[key x := default [] (m !! key x) ++ [x]]> m) ∅ l.

Section group_by.
Context {A K : Type} `{Countable K} (key : A → K).

Lemma group_by_snoc l x :
  group_by key (l ++ [x]) = <[key x := default [] (group_by key l !! key x) ++ [x]]> (group_by key l).
Proof. unfold group_by. by rewrite foldl_snoc. Qed.

Lemma group_by_lookup l k :
  group_by key l !! k = match filter (λ x, key x = k) l with [] => None | g => Some g end.
Proof.
  induction l as [|x l IH] using rev_ind; [apply lookup_empty|].
  rewrite group_by_snoc, filter_app, filter_cons, filter_nil.
  destruct (decide (key x = k)) as [<-|Hne].
  - rewrite lookup_insert_eq, IH. by destruct (filter _ l).
  - rewrite lookup_insert_ne, IH by done. by rewrite app_nil_r.
Qed.

Lemma group_by_default l k : default [] (group_by key l !! k) = filter (λ x, key x = k) l.
Proof. rewrite group_by_lookup. by destruct (filter _ l). Qed.

Lemma group_by_concat l : (map_to_list (group_by key l) ≫= snd) ≡ₚ l.
Proof.
  induction l as [|x l IH] using rev_ind; [done|].
  rewrite group_by_snoc. set (k := key x). revert IH. generalize (group_by key l). intros m IH.
  etrans; [|apply Permutation_app_tail, IH]. clear IH. destruct (m !! k) as [g|] eqn:E.
  - rewrite <- insert_delete_eq, map_to_list_insert by apply lookup_delete_eq.
    rewrite <- (insert_delete_id m k g E) at 2.
    rewrite map_to_list_insert by apply lookup_delete_eq. cbn. solve_Permutation.
  - rewrite map_to_list_insert by done. cbn. solve_Permutation.
Qed.

Lemma group_by_nonempty l k g : group_by key l !! k = Some g → g ≠ [] ∧ g = filter (λ x, key x = k) l.
Proof. rewrite group_by_lookup. destruct (filter _ l); [done|]. by intros [= <-]. Qed.
End group_by.

(** ** A computation for every element, up to the first failure *)

Fixpoint res_mapM {A B} (f : A → result B) (l : list A) : result (list B) :=
  match l with
  | [] => Ok []
  | x :: l => let! y := f x in let! ys := res_mapM f l in Ok (y :: ys)
  end.

Section res_mapM.
Context {A B : Type} (f : A → result B).

Lemma res_mapM_pure (g : A → B) l : (∀ x, f x = Ok (g x)) → res_mapM f l = Ok (g <$> l).
Proof. intros Hf. induction l as [|x l IH]; [done|]. cbn. by rewrite Hf, IH. Qed.

Lemma res_mapM_Forall2 l ys : res_mapM f l = Ok ys ↔ Forall2 (λ x y, f x = Ok y) l ys.
Proof.
  revert ys. induction l as [|x l IH]; intros ys; cbn.
  - split; [by intros [= <-]|by inversion 1].
  - split.
    + intros (y & Hy & (ys' & Hys & [= <-])%res_bind_ok)%res_bind_ok. constructor; [done|]. by apply IH.
    + inversion 1 as [|? y ? ys' Hy Hys]; subst. by rewrite Hy, (proj2 (IH _) Hys).
Qed.

Lemma res_mapM_total l : (∀ x, ∃ y, f x = Ok y) → ∃ ys, res_mapM f l = Ok ys.
Proof.
  intros Hf. induction l as [|x l [ys IH]]; [by eexists|]. destruct (Hf x) as [y Hy]. cbn. rewrite Hy, IH. by eexists.
Qed.

(** No panic of an element, no panic of the list; and what holds of every result. *)
Lemma res_mapM_safe (Q : B → Prop) l :
  (∀ x, x ∈ l → match f x with Ok y => Q y | Err _ => True | Panic _ => False end) →
  match res_mapM f l with Ok ys => Forall Q ys | Err _ => True | Panic _ => False end.
Proof.
  induction l as [|x l IH]; intros Hf; cbn; [constructor|].
  pose proof (Hf x ltac:(set_solver)) as Hx. destruct (f x) as [y|e|w]; cbn; [|done..].
  pose proof (IH ltac:(set_solver)) as Hl. destruct (res_mapM f l); cbn; [by constructor|done..].
Qed.
End res_mapM.
