(* ===== verification/Values.v ===== *)
(** The values of query results: Go's interface{} with the conversions and comparisons of
    internal/query/executor.go, and what those take from Go's standard library. *)

From Stdlib Require Import String Ascii SpecFloat.
From stdpp Require Import base option list gmap strings pretty.
From S2P Require Import Prelude Float64 Bytes Format Show.

(** The dynamic types that reach a query: [VInt] is int, [VRow] a Row, [VMap] a
    map[string]interface{}, [VStrings] a []string. *)
Inductive Value : Type :=
| VNil
| VBool (b : bool)
| VInt (n : Z)
| VInt64 (n : Z)
| VFloat (f : float64)
| VString (s : string)
| VTime (t : Time)
| VDuration (d : Duration)
| VList (l : list Value)
| VStrings (l : list string)
| VRow (m : gmap string Value)
| VMap (m : gmap string Value).

Abbreviation Row := (gmap string Value) (only parsing).

(** Packages fmt, regexp, strings, math and sort, and the order in which Go visits a map. *)
Class Runtime := {
  runtime_fmt :: Fmt;
  ParseFloat : string → float64;
  (** %v of times and composite values. *)
  fmt_value : Value → string;
  Regexp : Type;
  regexp_Compile : string → Regexp + string;
  MatchString : Regexp → string → bool;
  FindStringSubmatch : Regexp → string → option (list string);
  FindAllStringSubmatch : Regexp → string → list (list string);
  SubexpNames : Regexp → list string;
  ReplaceAllStringFunc : Regexp → (string → string) → string → string;
  ToUpper : string → string;
  ReplaceAll : string → string → string → string;
  Split : string → string → list string;
  math_Round : float64 → float64;
  math_Floor : float64 → float64;
  math_Ceil : float64 → float64;
  math_Log : float64 → float64;
  math_Log10 : float64 → float64;
  math_Pow : float64 → float64 → float64;
  sort_Slice : ∀ {A}, (A → A → bool) → list A → list A;
  map_order : ∀ {A}, gmap string A → list (string * A);
}.

(** ** Floats and integers *)

Definition math_Sqrt (x : float64) : float64 := SFsqrt 53 1024 x.
Definition math_Abs (x : float64) : float64 := SFabs x.

(** [int(x)]: truncation; what does not fit is the least integer (amd64). *)
Definition f64_to_int (x : float64) : Z :=
  match x with
  | S754_zero _ => 0
  | S754_finite s m e =>
      let v := if 0 <=? e then Z.pos m * 2 ^ e else Z.pos m / 2 ^ (- e) in
      let v := if s then - v else v in
      if (int64_min <=? v) && (v <=? int64_max) then v else int64_min
  | _ => int64_min
  end.

(** A map is visited in some order. *)
Definition visits_maps {RT : Runtime} : Prop := ∀ A (m : gmap string A), map_order m ≡ₚ map_to_list m.

(** [sort.Float64s]: floats with NaN first. *)
Definition float_less (x y : float64) : bool := f64_lt x y || (is_nan x && negb (is_nan y)).
Definition Float64s {RT : Runtime} (l : list float64) : list float64 := sort_Slice float_less l.

Section values.
Context {RT : Runtime}.

(** [fmt.Sprintf("%v", v)]. *)
Definition fmt_v (v : Value) : string :=
  match v with
  | VNil => "<nil>"
  | VBool b => show_bool b
  | VInt n | VInt64 n => pretty n
  | VFloat f => fmt_float f
  | VString s => s
  | VDuration d => fmt_duration d
  | _ => fmt_value v
  end.

(** %T. *)
Definition type_name (v : Value) : string :=
  match v with
  | VNil => "<nil>" | VBool _ => "bool" | VInt _ => "int" | VInt64 _ => "int64" | VFloat _ => "float64"
  | VString _ => "string" | VTime _ => "time.Time" | VDuration _ => "time.Duration"
  | VList _ => "[]interface {}" | VStrings _ => "[]string" | VRow _ => "query.Row"
  | VMap _ => "map[string]interface {}"
  end.

Definition toFloat (v : Value) : float64 :=
  match v with
  | VFloat f => f
  | VInt n | VInt64 n | VDuration n => f64_of_Z n
  | VString s => ParseFloat s
  | _ => f64_zero
  end.

Definition toBool (v : Value) : bool :=
  match v with
  | VBool b => b
  | VInt n | VInt64 n => negb (n =? 0)
  | VFloat f => f64_neq f f64_zero
  | VString s => negb (String.eqb s "") && negb (String.eqb s "false") && negb (String.eqb s "0")
  | VNil => false
  | _ => true
  end.

(** [strings.ReplaceAll] of one character. *)
Fixpoint replace_char (c : ascii) (by_ : string) (s : string) : string :=
  match s with
  | EmptyString => ""
  | String d s => (if Ascii.eqb c d then by_ else String d "") +:+ replace_char c by_ s
  end.

Definition matches_pattern (pattern : string) (v : Value) : option bool :=
  match regexp_Compile pattern with
  | inl re => Some (MatchString re (fmt_v v))
  | inr _ => None
  end.

(** The text of [equals]; a string with a star is a wildcard. *)
Definition equals (a b : Value) : bool :=
  let plain :=
    let fa := toFloat a in let fb := toFloat b in
    if f64_neq fa f64_zero || f64_neq fb f64_zero then f64_eq fa fb else String.eqb (fmt_v a) (fmt_v b) in
  match b with
  | VString s =>
      if Contains s "*" then default plain (matches_pattern ("^" +:+ replace_char "*" ".*" s +:+ "$") a)
      else plain
  | _ => plain
  end.

(** [compare]: as numbers, then as text. *)
Definition compare (a b : Value) : Z :=
  let fa := toFloat a in let fb := toFloat b in
  if f64_lt fa fb then -1
  else if f64_gt fa fb then 1
  else match String.compare (fmt_v a) (fmt_v b) with Lt => -1 | Eq => 0 | Gt => 1 end.
End values.
