(* ===== verification/Demo.v ===== *)
(** Implementations of the classes for what Go's standard library does, with which the
    examples and the witnesses of theorems are evaluated. *)

From Stdlib Require Import String Ascii SpecFloat.
From stdpp Require Import base option list gmap strings pretty.
From S2P Require Import Prelude Float64 Bytes Format Strconv Grouping Values.
From Stdlib Require Import Permutation.

(** Insertion sort; equal elements keep their order. *)
Fixpoint insert_by {A} (less : A → A → bool) (x : A) (l : list A) : list A :=
  match l with
  | [] => [x]
  | y :: l => if less y x then y :: insert_by less x l else x :: y :: l
  end.

Lemma insert_by_perm {A} (less : A → A → bool) x l : insert_by less x l ≡ₚ x :: l.
Proof. induction l as [|y l IH]; cbn; [done|]. case_match; [|done]. rewrite IH. apply perm_swap. Qed.

Definition insertion_sort {A} (less : A → A → bool) (l : list A) : list A := foldr (insert_by less) [] l.
Lemma insertion_sort_perm {A} (less : A → A → bool) l : insertion_sort less l ≡ₚ l.
Proof. induction l as [|x l IH]; cbn; [done|]. by rewrite insert_by_perm, IH. Qed.

(** %q of printable text: the quote and the backslash are escaped. *)
Fixpoint escape_text (s : string) : string :=
  match s with
  | EmptyString => ""
  | String c s =>
      if Ascii.eqb c "034" || Ascii.eqb c "\" then String "\" (String c (escape_text s)) else String c (escape_text s)
  end.
Definition demo_quote (s : string) : string := String "034" (escape_text s +:+ String "034" "").

(** A float prints as its integer part. *)
Definition demo_fmt : Fmt := {|
  fmt_quote := demo_quote; fmt_float := λ f, pretty (f64_to_int f);
  fmt_float1 := λ f, pretty (f64_to_int f);
  fmt_float2 := λ f, pretty (f64_to_int f); fmt_float6 := λ f, pretty (f64_to_int f);
  fmt_duration := λ d, pretty d; fmt_rfc3339 := λ t, pretty t |}.

(** A pattern matches itself. *)
Definition demo_runtime : Runtime := {|
  runtime_fmt := demo_fmt;
  ParseFloat := λ s, match Atoi s with (n, None) => f64_of_Z n | _ => f64_zero end;
  fmt_value := λ _, "composite";
  Regexp := string; regexp_Compile := inl; MatchString := String.eqb;
  FindStringSubmatch := λ _ _, None; FindAllStringSubmatch := λ _ _, []; SubexpNames := λ _, [];
  ReplaceAllStringFunc := λ _ _ s, s; ToUpper := λ s, s; ReplaceAll := λ s _ _, s; Split := λ s _, [s];
  math_Round := λ x, x; math_Floor := λ x, x; math_Ceil := λ x, x; math_Log := λ x, x;
  math_Log10 := λ x, x; math_Pow := λ x _, x;
  sort_Slice := λ A less, insertion_sort less; map_order := λ A, map_to_list |}.

Lemma demo_visits : @visits_maps demo_runtime.
Proof. intros A m. reflexivity. Qed.
