(* ===== verification/Executor.v ===== *)
(** The query executor (internal/query/executor.go) and the data sources of
    internal/query/datasource.go that keep their rows in memory. *)

From Stdlib Require Import String Ascii SpecFloat.
From stdpp Require Import base option list gmap strings pretty sorting.
From S2P Require Import Prelude Float64 Bytes Format Tokens Lexer Strconv Ast Parser Show Planner Grouping Values Demo.
From Stdlib Require Import Permutation.

(** ** Environment *)

(** A [Scan] reads the rows of a source; the push-down gives it predicates. *)
Definition ScanFn : Type := string → string → TimeRangeSpec → list Expr → result (list Row).

Record HistogramSnapshot := mkHistogramSnapshot {
  hs_Bounds : list float64; hs_Counts : list Z; hs_TotalCount : Z;
  hs_Sum : float64; hs_Min : float64; hs_Max : float64 }.

(** The sources of an executor, the clock, and the functions of the registry that need
    the calendar of a location ([date_trunc], [extract]). *)
Record Executor := mkExecutor {
  ex_metrics : option ScanFn;
  ex_logs : option ScanFn;
  ex_traces : option ScanFn;
  ex_events : option ScanFn;
  ex_histograms : option (string → Time → Time → result (option HistogramSnapshot));
  ex_now : Time;
  ex_calendar : string → option (list Value → result Value);
}.

(** Results of a loop over rows, the first failure ends it. *)
Fixpoint map_result {A B} (f : A → result B) (l : list A) : result (list B) :=
  match l with
  | [] => Ok []
  | a :: l => let! b := f a in let! bs := map_result f l in Ok (b :: bs)
  end.

(** ** Quantiles of native histograms *)

(** The loop of [Quantile]; the counts are unsigned. *)
Fixpoint quantile_loop (s : HistogramSnapshot) (rank : float64) (i : nat) (prevCount : Z)
    (prevBound : float64) (counts : list Z) : option float64 :=
  match counts with
  | [] => None
  | count :: counts =>
      let bound := default prevBound (hs_Bounds s !! i) in
      if count =? 0 then quantile_loop s rank (S i) prevCount prevBound counts
      else if f64_ge (f64_of_Z count) rank then
        let bucketCount := f64_of_Z (uwrap64 (count - prevCount)) in
        if f64_eq bucketCount f64_zero then quantile_loop s rank (S i) count bound counts
        else
          let fraction := f64_div (f64_sub rank (f64_of_Z prevCount)) bucketCount in
          let upperBound :=
            match hs_Bounds s !! i with
            | Some b => b
            | None =>
                if f64_gt (hs_Max s) f64_zero then hs_Max s
                else match last (hs_Bounds s) with
                     | Some b => f64_mul b (f64_of_Z 2)
                     | None => f64_of_Z 1
                     end
            end in
          Some (f64_add prevBound (f64_mul fraction (f64_sub upperBound prevBound)))
      else quantile_loop s rank (S i) count bound counts
  end.

Definition Quantile (s : HistogramSnapshot) (q : float64) : float64 :=
  let q := if f64_lt q f64_zero then f64_zero else q in
  let q := if f64_gt q (f64_of_Z 1) then f64_of_Z 1 else q in
  if hs_TotalCount s =? 0 then f64_zero
  else
    let rank := f64_mul q (f64_of_Z (hs_TotalCount s)) in
    match quantile_loop s rank 0 0 f64_zero (hs_Counts s) with
    | Some v => v
    | None => default (hs_Max s) (last (hs_Bounds s))
    end.

(** A data point read from the histograms table, and the merge of
    [QueryHistogramSnapshot]; a minimum of 0 counts as none. *)
Record HistogramRow := mkHistogramRow {
  hr_Count : Z; hr_Sum : float64; hr_Min : option float64; hr_Max : option float64;
  hr_ExplicitBounds : list float64; hr_BucketCounts : list Z }.

Fixpoint merge_counts (counts cs : list Z) : list Z :=
  match counts, cs with
  | n :: counts, c :: cs => uwrap64 (n + c) :: merge_counts counts cs
  | _, _ => counts
  end.

Definition merge_histogram (s : HistogramSnapshot) (r : HistogramRow) : HistogramSnapshot :=
  mkHistogramSnapshot (hs_Bounds s) (merge_counts (hs_Counts s) (hr_BucketCounts r))
    (uwrap64 (hs_TotalCount s + hr_Count r)) (f64_add (hs_Sum s) (hr_Sum r))
    (match hr_Min r with
     | Some m => if f64_eq (hs_Min s) f64_zero || f64_lt m (hs_Min s) then m else hs_Min s
     | None => hs_Min s
     end)
    (match hr_Max r with
     | Some m => if f64_gt m (hs_Max s) then m else hs_Max s
     | None => hs_Max s
     end).

Definition QueryHistogramSnapshot (rows : list HistogramRow) : option HistogramSnapshot :=
  match rows with
  | [] => None
  | r :: _ =>
      Some (foldl merge_histogram
        (mkHistogramSnapshot (hr_ExplicitBounds r) (replicate (length (hr_BucketCounts r)) 0) 0
           f64_zero f64_zero f64_zero) rows)
  end.

Section executor.
Context {RT : Runtime}.

(** ** Functions *)

Definition arg (args : list Value) (i : nat) : option Value := args !! i.

(** A function of one argument; without it the result is nil. *)
Definition unary (f : Value → Value) (args : list Value) : result Value :=
  match args with v :: _ => Ok (f v) | [] => Ok VNil end.
Definition float_unary (f : float64 → float64) : list Value → result Value :=
  unary (λ v, VFloat (f (toFloat v))).

Definition substring_fn (args : list Value) : result Value :=
  match args with
  | v0 :: v1 :: rest =>
      let s := fmt_v v0 in
      let len := Z.of_nat (String.length s) in
      let start := f64_to_int (toFloat v1) in
      if (start <? 0) || (len <=? start) then Ok (VString "")
      else
        match rest with
        | v2 :: _ =>
            let e := wrap64 (start + f64_to_int (toFloat v2)) in
            let e := if len <? e then len else e in
            if e <? start then Panic "slice bounds out of range"
            else Ok (VString (String.substring (Z.to_nat start) (Z.to_nat (e - start)) s))
        | [] => Ok (VString (String.substring (Z.to_nat start) (String.length s) s))
        end
  | _ => Ok VNil
  end.

Fixpoint coalesce (args : list Value) : Value :=
  match args with
  | [] => VNil
  | VNil :: args => coalesce args
  | v :: _ => v
  end.

Definition parseDurationArg : string → result Duration := parseDuration.

Definition interval_arg (v : Value) : result Duration :=
  match v with
  | VDuration d => Ok d
  | VString s =>
      match parseDurationArg s with
      | Err e => Err ("invalid interval: " +:+ e)
      | r => r
      end
  | VInt64 n => Ok n
  | VFloat f => Ok (f64_to_int f)
  | _ => Err ("invalid interval type: " +:+ type_name v)
  end.

Definition time_arg (v : Value) : result Time :=
  match v with
  | VTime t => Ok t
  | VInt64 n => Ok n
  | VFloat f => Ok (f64_to_int f)
  | _ => Err ("invalid timestamp type: " +:+ type_name v)
  end.

(** [t.Truncate(d)], from the zero time. *)
Definition Truncate (t : Time) (d : Duration) : Time :=
  if d <=? 0 then t else t - (t - zero_time) mod d.

Definition time_bucket (args : list Value) : result Value :=
  match args with
  | v0 :: v1 :: _ =>
      let! interval := interval_arg v0 in
      let! ts := time_arg v1 in Ok (VTime (Truncate ts interval))
  | _ => Err "time_bucket requires 2 arguments: interval, timestamp"
  end.

Definition histogram_quantile (e : Executor) (range : TimeRangeSpec) (args : list Value) : result Value :=
  match args with
  | v0 :: v1 :: _ =>
      let q := toFloat v0 in
      if f64_lt q f64_zero || f64_gt q (f64_of_Z 1) then 
        Err ("quantile must be between 0 and 1, got " +:+ fmt_float6 q)
      else
        let name := fmt_v v1 in
        match ex_histograms e with
        | None => Err "no histogram source configured"
        | Some query =>
            match query name (ts_Start range) (ts_End range) with
            | Ok (Some s) => Ok (VFloat (Quantile s q))
            | Ok None => Err ("no histogram data found for " +:+ name)
            | Err m => Err ("failed to query histogram: " +:+ m)
            | Panic w => Panic w
            end
        end
  | _ => Err "histogram_quantile requires 2 arguments: quantile, metric_or_snapshot"
  end.

(** The registry of functions. *)
Definition functions (e : Executor) (range : TimeRangeSpec) (name : string) : option (list Value → result Value) :=
  match name with
  | "lower" => Some (unary (λ v, VString (lower_text (fmt_v v))))
  | "upper" => Some (unary (λ v, VString (ToUpper (fmt_v v))))
  | "length" => Some (λ args, match args with v :: _ => Ok (VInt (Z.of_nat (String.length (fmt_v v)))) | [] => Ok (VInt 0) end)
  | "abs" => Some (float_unary math_Abs)
  | "round" => Some (float_unary math_Round)
  | "floor" => Some (float_unary math_Floor)
  | "ceil" => Some (float_unary math_Ceil)
  | "coalesce" => Some (λ args, Ok (coalesce args))
  | "now" => Some (λ _, Ok (VTime (ex_now e)))
  | "substring" => Some substring_fn
  | "concat" => Some (λ args, Ok (VString (join "" (map fmt_v args))))
  | "split" => Some (λ args, match args with v :: w :: _ => Ok (VStrings (Split (fmt_v v) (fmt_v w))) | _ => Ok VNil end)
  | "contains" => Some (λ args, match args with v :: w :: _ => Ok (VBool (Contains (fmt_v v) (fmt_v w))) | _ => Ok (VBool false) end)
  | "replace" => Some (λ args, match args with u :: v :: w :: _ => Ok (VString (ReplaceAll (fmt_v u) (fmt_v v) (fmt_v w))) | _ => Ok VNil end)
  | "log" => Some (float_unary math_Log)
  | "log10" => Some (float_unary math_Log10)
  | "pow" => Some (λ args, match args with v :: w :: _ => Ok (VFloat (math_Pow (toFloat v) (toFloat w))) | _ => Ok VNil end)
  | "sqrt" => Some (float_unary math_Sqrt)
  | "time_bucket" => Some time_bucket
  | "histogram_quantile" => Some (histogram_quantile e range)
  | _ => ex_calendar e name
  end.

Definition callFunction (e : Executor) (range : TimeRangeSpec) (name : string) (args : list Value) : result Value :=
  match functions e range (lower_text name) with
  | Some fn => fn args
  | None => Err ("unknown function: " +:+ name)
  end.

(** ** Expressions *)

Definition like (l r : Value) : bool :=
  default false (matches_pattern ("^" +:+ replace_char "_" "." (replace_char "%" ".*" (fmt_v r)) +:+ "$") l).

Definition evalBinaryOp (op : string) (l r : Value) : result Value :=
  let fl := toFloat l in let fr := toFloat r in
  match op with
  | "=" => Ok (VBool (equals l r))
  | "!=" => Ok (VBool (negb (equals l r)))
  | "<" => Ok (VBool (f64_lt fl fr))
  | "<=" => Ok (VBool (f64_le fl fr))
  | ">" => Ok (VBool (f64_gt fl fr))
  | ">=" => Ok (VBool (f64_ge fl fr))
  | "+" => Ok (VFloat (f64_add fl fr))
  | "-" => Ok (VFloat (f64_sub fl fr))
  | "*" => Ok (VFloat (f64_mul fl fr))
  | "/" => if f64_eq fr f64_zero then Ok VNil else Ok (VFloat (f64_div fl fr))
  | "%" =>
      if f64_to_int fr =? 0 then Panic "integer divide by zero"
      else Ok (VInt (wrap64 (Z.rem (f64_to_int fl) (f64_to_int fr))))
  | "and" => Ok (VBool (toBool l && toBool r))
  | "or" => Ok (VBool (toBool l || toBool r))
  | "like" => Ok (VBool (like l r))
  | "matches" => Ok (VBool (default false (matches_pattern (fmt_v r) l)))
  | "in" => Ok (VBool (match r with VList vs => existsb (equals l) vs | _ => false end))
  | _ => Err ("unknown operator: " +:+ op)
  end.

Definition evalUnaryOp (op : string) (v : Value) : result Value :=
  match op with
  | "not" => Ok (VBool (negb (toBool v)))
  | "-" => Ok (VFloat (f64_neg (toFloat v)))
  | _ => Err ("unknown unary operator: " +:+ op)
  end.

Definition literal_value (v : Literal) : Value :=
  match v with
  | LiteralString s | LiteralRegex s => VString s
  | LiteralInt n => VInt64 n
  | LiteralFloat f => VFloat f
  | LiteralBool b => VBool b
  | LiteralDuration d => VDuration d
  | LiteralNull => VNil
  end.

Definition field (row : Row) (name : string) : Value := default VNil (row !! name).
(** A path steps into maps and stays at any other value. *)
Definition step_path (v : Value) (name : string) : Value :=
  match v with VRow m | VMap m => field m name | _ => v end.

Section expressions.
Context (e : Executor) (range : TimeRangeSpec).

Fixpoint evalExpr (x : Expr) (row : Row) : result Value :=
  match x with
  | LiteralExpr v _ => Ok (literal_value v)
  | IdentifierExpr name path _ =>
      if String.eqb name "*" then Ok (VRow row) else Ok (foldl step_path (field row name) path)
  | BinaryExpr l op r _ =>
      let! vl := evalExpr l row in let! vr := evalExpr r row in evalBinaryOp op vl vr
  | UnaryExpr op x _ => let! v := evalExpr x row in evalUnaryOp op v
  | FunctionCallExpr name args _ =>
      let! vs := map_result (λ x, evalExpr x row) args in callFunction e range name vs
  | ListExpr xs _ => let! vs := map_result (λ x, evalExpr x row) xs in Ok (VList vs)
  | SubqueryExpr _ _ => Err "unsupported expression: *query.SubqueryExpr"
  end.

(** ** Filters and projections *)

Fixpoint filter_rows (cond : Expr) (rows : list Row) : result (list Row) :=
  match rows with
  | [] => Ok []
  | row :: rows =>
      let! v := evalExpr cond row in
      let! rest := filter_rows cond rows in Ok (if toBool v then row :: rest else rest)
  end.

Definition column_name (f : ProjectField) : string :=
  if String.eqb (pf_Alias f) "" then Expr_String (pf_Expr f) else pf_Alias f.

Fixpoint project_row (fields : list ProjectField) (row newRow : Row) : result Row :=
  match fields with
  | [] => Ok newRow
  | f :: fields =>
      let! v := evalExpr (pf_Expr f) row in project_row fields row (<[column_name f := v]> newRow)
  end.
End expressions.

(** ** Aggregation *)

Definition key_parts (fields : list string) (row : Row) : string :=
  join "|" (map (λ f, fmt_v (field row f)) fields).
Definition groupKey (fields : list string) (row : Row) : string :=
  match fields with [] => "__all__" | _ => key_parts fields row end.

Definition sum_floats (l : list float64) : float64 := foldl f64_add f64_zero l.

Definition percentile (values : list float64) (p : Z) : float64 :=
  let sorted := Float64s values in
  let at_ (i : Z) := default S754_nan (sorted !! Z.to_nat i) in
  let n := Z.of_nat (length sorted) in
  let idx := f64_div (f64_mul (f64_of_Z (n - 1)) (f64_of_Z p)) (f64_of_Z 100) in
  let lower := f64_to_int idx in
  if n <=? lower + 1 then at_ lower
  else
    let frac := f64_sub idx (f64_of_Z lower) in
    f64_add (f64_mul (at_ lower) (f64_sub (f64_of_Z 1) frac)) (f64_mul (at_ (lower + 1)) frac).

Definition agg_values (f : string) (rows : list Row) : list float64 :=
  omap (λ row : Row, if String.eqb f "" then Some (f64_of_Z 1) else toFloat <$> (row !! f)) rows.

Definition computeAggregation (agg : AggSpec) (rows : list Row) : Value :=
  match agg_values (as_Field agg) rows with
  | [] => VNil
  | v :: vs =>
      let values := v :: vs in
      let n := Z.of_nat (length values) in
      match as_Function agg with
      | "count" => VInt n
      | "sum" => VFloat (sum_floats values)
      | "avg" => VFloat (f64_div (sum_floats values) (f64_of_Z n))
      | "min" => VFloat (foldl (λ m v, if f64_lt v m then v else m) v vs)
      | "max" => VFloat (foldl (λ m v, if f64_gt v m then v else m) v vs)
      | "p50" => VFloat (percentile values 50)
      | "p90" => VFloat (percentile values 90)
      | "p95" => VFloat (percentile values 95)
      | "p99" => VFloat (percentile values 99)
      | _ => VNil
      end
  end.

Definition agg_name (a : AggSpec) : string :=
  if String.eqb (as_Alias a) ""
  then if String.eqb (as_Field a) "" then as_Function a else as_Function a +:+ "_" +:+ as_Field a
  else as_Alias a.

Definition aggregate_row (aggs : list AggSpec) (groupBy : list string) (rows : list Row) : Row :=
  let first := default ∅ (head rows) in
  let named := foldl (λ (r : Row) f, <[f := field first f]> r) ∅ groupBy in
  foldl (λ (r : Row) a, <[agg_name a := computeAggregation a rows]> r) named aggs.

Definition aggregate (aggs : list AggSpec) (groupBy : list string) (rows : list Row) : list Row :=
  map (λ kr, aggregate_row aggs groupBy kr.2) (map_order (group_by (groupKey groupBy) rows)).

(** ** Sorting and limits *)

Fixpoint row_less (fields : list SortField) (a b : Row) : bool :=
  match fields with
  | [] => false
  | f :: fields =>
      let cmp := compare (field a (so_Field f)) (field b (so_Field f)) in
      if cmp =? 0 then row_less fields a b
      else if so_Desc f then 0 <? cmp else cmp <? 0
  end.

Definition limit_rows (count offset : Z) (rows : list Row) : result (list Row) :=
  let n := Z.of_nat (length rows) in
  if n <? offset then Ok []
  else
    let e := wrap64 (offset + count) in
    let e := if n <? e then n else e in
    if (offset <? 0) || (e <? offset) then Panic "slice bounds out of range"
    else Ok (take (Z.to_nat (e - offset)) (drop (Z.to_nat offset) rows)).

(** ** Windows *)

(** The rows of each bucket; without a duration the division panics. *)
Fixpoint window_rows (d : Duration) (windows : gmap Z (list Row)) (rows : list Row)
    : result (gmap Z (list Row)) :=
  match rows with
  | [] => Ok windows
  | row :: rows =>
      match row !! "timestamp" with
      | Some (VTime ts) =>
          if d =? 0 then Panic "integer divide by zero"
          else
            let bucket := wrap64 (Z.quot (wrap64 ts) d) in
            window_rows d (<[bucket := default [] (windows !! bucket) ++ [row]]> windows) rows
      | _ => window_rows d windows rows
      end
  end.

(** The columns of the first row are averaged, and may hide the row's own columns. *)
Definition window_row (d : Duration) (bucket : Z) (rows : list Row) : Row :=
  let ts := wrap64 (bucket * d) in
  let own : Row := <["window_start" := VTime ts]> (<["window_end" := VTime (ts + d)]>
    (<["count" := VInt (Z.of_nat (length rows))]> ∅)) in
  let average (k : string) (_ : Value) : option Value :=
    if String.eqb k "timestamp" then None
    else Some (VFloat (f64_div (sum_floats (map (λ r, toFloat (field r k)) rows))
                               (f64_of_Z (Z.of_nat (length rows))))) in
  map_imap average (default ∅ (head rows)) ∪ own.

Definition window (d : Duration) (rows : list Row) : result (list Row) :=
  let! windows := window_rows d ∅ rows in
  let buckets := merge_sort Z.le (map_to_list windows).*1 in
  Ok (map (λ b, window_row d b (default [] (windows !! b))) buckets).

(** ** Joins *)

Definition joinKey : list string → Row → string := key_parts.

Definition timestamp (r : Row) : option Time :=
  match r !! "timestamp" with Some (VTime t) => Some t | _ => None end.

(** [time.Unix(0, n)] of an integer column. *)
Definition getFieldAsTime (r : Row) (f : string) : Time :=
  match r !! f with
  | Some (VTime t) => t
  | Some (VInt64 n) => n
  | Some (VFloat x) => f64_to_int x
  | _ => zero_time
  end.

(** The absolute difference wraps at the least duration. *)
Definition within_tolerance (tol : Duration) (l r : Row) : bool :=
  match timestamp l, timestamp r with
  | Some tl, Some tr =>
      let diff := time_Sub tl tr in
      (if diff <? 0 then wrap64 (- diff) else diff) <=? tol
  | _, _ => false
  end.

Definition between (tc : TimeJoinCondition) (l r : Row) : bool :=
  let t := getFieldAsTime l (tj_LeftField tc) in
  let start := getFieldAsTime r (tj_StartField tc) in
  let end_ := getFieldAsTime r (tj_EndField tc) in
  negb (IsZero start) && negb (IsZero end_) && (start <=? t) && (t <=? end_).

Definition rowEquals (a b : Row) : bool :=
  bool_decide (size a = size b) &&
  forallb (λ kv, match b !! kv.1 with Some bv => equals kv.2 bv | None => false end) (map_to_list a).

(** Columns of both sides: the right one gets a prefix. *)
Definition mergeRows (l r : Row) : Row :=
  foldl (λ (m : Row) kv,
    match m !! kv.1 with
    | None => <[kv.1 := kv.2]> m
    | Some _ => <["right_" +:+ kv.1 := kv.2]> m
    end) l (map_order r).

(** The rows of the right side a left row is joined with. *)
Definition join_matches (fields : list string) (tol : Duration) (tc : option TimeJoinCondition)
    (rights : list Row) (l : Row) : list Row :=
  let matches := filter (λ r, joinKey fields r = joinKey fields l) rights in
  let matches :=
    if (0 <? tol) && bool_decide (is_Some (timestamp l))
    then filter (λ r, within_tolerance tol l r = true) matches else matches in
  match tc with
  | Some tc =>
      if IsZero (getFieldAsTime l (tj_LeftField tc)) then matches
      else filter (λ r, between tc l r = true) matches
  | None => matches
  end.

(** The first right row equal to a match is marked. *)
Definition mark (rights : list Row) (matched : list nat) (m : Row) : list nat :=
  match list_find (λ r, rowEquals m r = true) rights with
  | Some (i, _) => i :: matched
  | None => matched
  end.

Definition join_rows (ty : JoinType) (fields : list string) (tol : Duration)
    (tc : option TimeJoinCondition) (lefts rights : list Row) : list Row :=
  let matches := join_matches fields tol tc rights in
  let outer_left := match ty with JoinLeft | JoinFull => true | _ => false end in
  let outer_right := match ty with JoinRight | JoinFull => true | _ => false end in
  let matched := foldl (λ ms l, foldl (mark rights) ms (matches l)) [] lefts in
  (lefts ≫= λ l, match matches l with
                 | [] => if outer_left then [l] else []
                 | ms => map (mergeRows l) ms
                 end) ++
  if outer_right then (filter (λ ir, ir.1 ∉ matched) (imap (λ i r, (i, r)) rights)).*2 else [].

(** ** Anomalies *)

Definition meanStddev (values : list float64) : float64 * float64 :=
  match values with
  | [] => (f64_zero, f64_zero)
  | _ =>
      let n := f64_of_Z (Z.of_nat (length values)) in
      let mean := f64_div (sum_floats values) n in
      let squares := map (λ v, f64_mul (f64_sub v mean) (f64_sub v mean)) values in
      (mean, math_Sqrt (f64_div (sum_floats squares) n))
  end.

(** The scores are put on the first rows, whether or not those have a value. *)
Definition anomalies (sensitivity : float64) (rows : list Row) : list Row :=
  let values := omap (λ row : Row, toFloat <$> (row !! "value")) rows in
  let '(mean, stddev) := meanStddev values in
  let threshold := f64_mul (f64_sub (f64_of_Z 1) sensitivity) (f64_of_Z 3) in
  imap (λ i row,
    match values !! i with
    | Some v =>
        let z := if f64_gt stddev f64_zero then f64_div (math_Abs (f64_sub v mean)) stddev else f64_zero in
        <["is_anomaly" := VBool (f64_gt z threshold)]> (<["anomaly_score" := VFloat z]> row)
    | None => row
    end) rows.

(** ** Extraction *)

(** [strings.Trim(s, q)] for the quote character. *)
Fixpoint trim_left (c : ascii) (s : string) : string :=
  match s with
  | String d s' => if Ascii.eqb c d then trim_left c s' else s
  | EmptyString => ""
  end.
Definition trim_both (c : ascii) (s : string) : string :=
  String.rev (trim_left c (String.rev (trim_left c s))).

Definition must_compile (pattern : string) : result Regexp :=
  match regexp_Compile pattern with inl re => Ok re | inr e => Panic ("regexp: Compile: " +:+ e) end.

Definition kv_pattern : string :=
  "(\w+)=(" +:+ dquote +:+ "[^" +:+ dquote +:+ "]*" +:+ dquote +:+ "|[^\s,]+)".
Definition group_pattern : string := "\{(\w+)(?::(\w+))?\}".

(** Both patterns have two groups. *)
Definition submatch (i : nat) (m : list string) : string := default "" (m !! i).

Definition message (r : Row) : option string :=
  match r !! "message" with Some (VString s) => Some s | _ => None end.

Definition autoExtract (rows : list Row) : result (list Row) :=
  let! re := must_compile kv_pattern in
  Ok (map (λ row,
    match message row with
    | Some msg =>
        foldl (λ (r : Row) m, <[submatch 1 m := VString (trim_both "034"%char (submatch 2 m))]> r)
              row (FindAllStringSubmatch re msg)
    | None => row
    end) rows).

Definition group_regexp (ty : string) : string :=
  match ty with
  | "int" => "-?\d+"
  | "float" => "-?\d+\.?\d*"
  | "ip" => "\d{1,3}\.\d{1,3}\.\d{1,3}\.\d{1,3}"
  | _ => "\S+"
  end.

Definition patternExtract (rows : list Row) (pattern : string) : result (list Row) :=
  let! groupRegex := must_compile group_pattern in
  let regexPattern := ReplaceAllStringFunc groupRegex (λ m,
    let parts := default [] (FindStringSubmatch groupRegex m) in
    "(?P<" +:+ submatch 1 parts +:+ ">" +:+ group_regexp (submatch 2 parts) +:+ ")") pattern in
  match regexp_Compile regexPattern with
  | inr e => Err ("invalid pattern: " +:+ e)
  | inl re =>
      Ok (map (λ row,
        match message row ≫= FindStringSubmatch re with
        | Some m =>
            foldl (λ (r : Row) (iname : nat * string),
              if (0 <? Z.of_nat iname.1) && negb (String.eqb iname.2 "")
              then <[iname.2 := VString (submatch iname.1 m)]> r else r)
              row (imap pair (SubexpNames re))
        | None => row
        end) rows)
  end.

(** ** Histograms *)

(** [make([]int, n)], and an increment; an index out of range panics. *)
Definition make_ints (n : Z) : result (list Z) :=
  if (n <? 0) || (2 ^ 45 <? n) then Panic "makeslice: len out of range" else Ok (replicate (Z.to_nat n) 0).
Definition increment (idx : Z) (l : list Z) : result (list Z) :=
  if (idx <? 0) || (Z.of_nat (length l) <=? idx) then Panic "index out of range"
  else Ok (alter (λ c, wrap64 (c + 1)) (Z.to_nat idx) l).

Definition bucket_index (n : Z) (minVal size v : float64) : Z :=
  let idx := f64_to_int (f64_div (f64_sub v minVal) size) in
  let idx := if n <=? idx then n - 1 else idx in
  if idx <? 0 then 0 else idx.

Fixpoint fill_buckets (n : Z) (minVal size : float64) (values : list float64) (l : list Z) : result (list Z) :=
  match values with
  | [] => Ok l
  | v :: values => let! l := increment (bucket_index n minVal size v) l in fill_buckets n minVal size values l
  end.

Definition histogram (f : string) (n : Z) (rows : list Row) : result (list Row) :=
  match omap (λ row : Row, toFloat <$> (row !! f)) rows with
  | [] => Ok []
  | v :: vs =>
      let minVal := foldl (λ m v, if f64_lt v m then v else m) v vs in
      let maxVal := foldl (λ m v, if f64_gt v m then v else m) v vs in
      let size := f64_div (f64_sub maxVal minVal) (f64_of_Z n) in
      let size := if f64_eq size f64_zero then f64_of_Z 1 else size in
      let! empty := make_ints n in
      let! buckets := fill_buckets n minVal size (v :: vs) empty in
      let total := f64_of_Z (Z.of_nat (length (v :: vs))) in
      Ok (imap (λ i c,
        let low := f64_add minVal (f64_mul (f64_of_Z (Z.of_nat i)) size) in
        <["bucket" := VInt (Z.of_nat i)]> (<["low" := VFloat low]> (<["high" := VFloat (f64_add low size)]>
        (<["count" := VInt c]> (<["percentage" := VFloat (f64_mul (f64_div (f64_of_Z c) total) (f64_of_Z 100))]>
        (∅ : Row)))))) buckets)
  end.

(** ** Plans *)

Definition source_of (e : Executor) (source : string) : option (option ScanFn) :=
  match source with
  | "metrics" => Some (ex_metrics e)
  | "logs" => Some (ex_logs e)
  | "traces" => Some (ex_traces e)
  | "events" => Some (ex_events e)
  | _ => None
  end.

Definition executeScan (e : Executor) (range : TimeRangeSpec) (source metric : string) (preds : list Expr)
    : result (list Row) :=
  match source_of e source with
  | None => Err ("unknown source: " +:+ source)
  | Some None => Err ("no data source configured for " +:+ source)
  | Some (Some scan) => scan source metric range preds
  end.

(** Both sides of a join run; a panic of either ends the process, and the left error is
    the one returned. *)
Definition both {A B} (l : result A) (r : result B) : result (A * B) :=
  match l, r with
  | Panic w, _ | _, Panic w => Panic w
  | Err m, _ | _, Err m => Err m
  | Ok a, Ok b => Ok (a, b)
  end.

Fixpoint executeNode (e : Executor) (range : TimeRangeSpec) (n : PlanNode) : result (list Row) :=
  match n with
  | PlanScanNode source metric preds => executeScan e range source metric preds
  | PlanFilterNode i cond => let! rows := executeNode e range i in filter_rows e range cond rows
  | PlanProjectNode i fields =>
      let! rows := executeNode e range i in map_result (λ row, project_row e range fields row ∅) rows
  | PlanAggregateNode i aggs groupBy =>
      let! rows := executeNode e range i in Ok (aggregate aggs groupBy rows)
  | PlanSortNode i fields => let! rows := executeNode e range i in Ok (sort_Slice (row_less fields) rows)
  | PlanLimitNode i count offset => let! rows := executeNode e range i in limit_rows count offset rows
  | PlanWindowNode i _ d _ => let! rows := executeNode e range i in window d rows
  | PlanJoinNode l r ty fields tol tc =>
      let! (ls, rs) := both (executeNode e range l) (executeNode e range r) in
      Ok (join_rows ty fields tol tc ls rs)
  | PlanAnomalyNode i _ sens => let! rows := executeNode e range i in Ok (anomalies sens rows)
  | PlanExtractNode i pattern auto =>
      let! rows := executeNode e range i in
      if (auto : bool) then autoExtract rows else patternExtract rows pattern
  | PlanHistogramNode i f n _ => let! rows := executeNode e range i in histogram f n rows
  end.

Definition executePlan (e : Executor) (p : Plan) : result (list Row) :=
  executeNode e (pl_TimeRange p) (Root p).

(** [Execute]: the columns are those of the first row. *)
Record Result := mkResult { Columns : list string; Rows : list Row }.

#[local] Instance string_le_dec : RelDecision (λ a b, String.compare a b ≠ Gt).
Proof. intros a b. destruct (String.compare a b); [by left|by left|right; intros Hgt; by apply Hgt]. Defined.

Definition build_result (rows : list Row) : Result :=
  mkResult (merge_sort (λ a b, String.compare a b ≠ Gt) (map_to_list (default ∅ (head rows))).*1) rows.

Definition prefix_error {A} (prefix : string) (r : result A) : result A :=
  match r with Err m => Err (prefix +:+ m) | _ => r end.

(** The parser always returns, so [None] never happens. *)
Definition Execute (ParseRFC3339 : string → Time + string) (e : Executor) (query : string) : result Result :=
  match Parse Values.ParseFloat ParseRFC3339 query with
  | Some r =>
      let! st := prefix_error "parse error: " r in
      let! rows := prefix_error "execution error: " (executePlan e (Planner_Plan (ex_now e) st)) in
      Ok (build_result rows)
  | None => Panic "unreachable"
  end.

(** ** Data sources in memory *)

(** [InMemoryDataSource.Scan]: the predicates are not looked at. *)
Definition memory_keeps (metric : string) (range : TimeRangeSpec) (row : Row) : bool :=
  match row !! "name" with
  | Some (VString name) => String.eqb metric "" || String.eqb name metric
  | _ => true
  end &&
  match timestamp row with
  | Some ts => negb (Before ts (ts_Start range)) && negb (After ts (ts_End range))
  | None => true
  end.
Definition InMemory_Scan (data : list Row) : ScanFn := λ _ metric range _,
  Ok (filter (λ row, memory_keeps metric range row = true) data).
Definition AddRow (row : Row) (data : list Row) : list Row := data ++ [row].
Definition Clear (data : list Row) : list Row := [].

(** [LiveMetricsDataSource.Scan]. *)
Definition Live_Scan (now : Time) (metrics : gmap string float64) : ScanFn := λ _ metric _ _,
  Ok (map (λ kv : string * float64,
        <["timestamp" := VTime now]> (<["name" := VString kv.1]> (<["value" := VFloat kv.2]> (∅ : Row))))
      (filter (λ kv, String.eqb metric "" || String.eqb kv.1 metric = true) (map_order metrics))).
End executor.

(** ** Push-down *)

Section facts.
Context {RT : Runtime}.

(** The sources of the code take the predicates and do not look at them. *)
Definition sources_ignore_predicates (e : Executor) : Prop :=
  ∀ source scan, source_of e source = Some (Some scan) →
    ∀ src metric range preds, scan src metric range preds = scan src metric range [].

(** A comparison, or several joined by AND. *)
Inductive comparison : Expr → Prop :=
| comparison_one l op r p :
    op ∈ ["="; "!="; "<"; "<="; ">"; ">="; "like"] → comparison (BinaryExpr l op r p)
| comparison_and l r p : comparison l → comparison r → comparison (BinaryExpr l "and" r p).

Definition is_scan (n : PlanNode) : Prop := ∃ source metric preds, n = PlanScanNode source metric preds.

(** A plan without its filters by comparisons that are directly after a source, or after such filters
    only. Below windows, anomalies, extractions and histograms nothing is left out. *)
Inductive unfiltered : PlanNode → PlanNode → Prop :=
| uf_scan source metric preds : unfiltered (PlanScanNode source metric preds) (PlanScanNode source metric preds)
| uf_lost i n cond : unfiltered i n → is_scan n → comparison cond → unfiltered (PlanFilterNode i cond) n
| uf_kept i n cond :
    unfiltered i n → (is_scan n → ¬ comparison cond) → unfiltered (PlanFilterNode i cond) (PlanFilterNode n cond)
| uf_project i n fields : unfiltered i n → unfiltered (PlanProjectNode i fields) (PlanProjectNode n fields)
| uf_aggregate i n aggs by_ : unfiltered i n → unfiltered (PlanAggregateNode i aggs by_) (PlanAggregateNode n aggs by_)
| uf_sort i n fields : unfiltered i n → unfiltered (PlanSortNode i fields) (PlanSortNode n fields)
| uf_limit i n count offset : unfiltered i n → unfiltered (PlanLimitNode i count offset) (PlanLimitNode n count offset)
| uf_join l r l' r' ty fields tol tc :
    unfiltered l l' → unfiltered r r' →
    unfiltered (PlanJoinNode l r ty fields tol tc) (PlanJoinNode l' r' ty fields tol tc)
| uf_window i ty d slide : unfiltered (PlanWindowNode i ty d slide) (PlanWindowNode i ty d slide)
| uf_anomaly i a sens : unfiltered (PlanAnomalyNode i a sens) (PlanAnomalyNode i a sens)
| uf_extract i pattern auto : unfiltered (PlanExtractNode i pattern auto) (PlanExtractNode i pattern auto)
| uf_histogram i f n by_ : unfiltered (PlanHistogramNode i f n by_) (PlanHistogramNode i f n by_).

Lemma canPush_comparison x : canPush x = true ↔ comparison x.
Proof.
  split.
  - induction x as [l IHl op r IHr p| | | | | |]; cbn [canPush]; try done.
    destruct (existsb (String.eqb op) pushable_operators) eqn:Eop.
    + intros _. apply comparison_one. apply existsb_exists in Eop as (o & Ho & ->%String.eqb_eq).
      by apply list_elem_of_In.
    + intros [->%String.eqb_eq [Hl Hr]%andb_true_iff]%andb_true_iff. apply comparison_and; auto.
  - induction 1 as [l op r p Hop|l r p _ IHl _ IHr]; cbn [canPush].
    + assert (existsb (String.eqb op) pushable_operators = true) as ->; [|done].
      apply existsb_exists. exists op. split; [by apply list_elem_of_In|by rewrite String.eqb_refl].
    + by rewrite IHl, IHr.
Qed.

Lemma executeScan_ignores e range source metric preds preds' :
  sources_ignore_predicates e → executeScan e range source metric preds = executeScan e range source metric preds'.
Proof.
  intros H. unfold executeScan. destruct (source_of e source) as [[scan|]|] eqn:E; [|done|done].
  by rewrite (H source scan E _ _ _ preds), (H source scan E _ _ _ preds').
Qed.

(** The push-down gives the unfiltered plan, with the predicates in its scans. *)
Lemma pushdown_scan p n :
  unfiltered p n →
  match n with
  | PlanScanNode source metric _ => ∃ preds, pushdown p = PlanScanNode source metric preds
  | _ => ¬ is_scan (pushdown p)
  end.
Proof.
  induction 1 as [| |i n cond _ IH Hk| | | | | | | | |]; cbn [pushdown]; try (by intros (? & ? & ? & ?)); [by eexists|..].
  - destruct H0 as (src & m & ps & ->). destruct IHunfiltered as [preds ->].
    rewrite (proj2 (canPush_comparison cond)) by done. by eexists.
  - intros (src & m & ps & E). destruct (pushdown i) eqn:Ei; try discriminate.
    destruct (canPush cond) eqn:Ec; [|discriminate]. apply canPush_comparison in Ec.
    destruct n; try (apply IH; by do 3 eexists). apply Hk; [by do 3 eexists|done].
Qed.

Lemma executeNode_pushdown e range p n :
  sources_ignore_predicates e → unfiltered p n → executeNode e range (pushdown p) = executeNode e range n.
Proof.
  intros Hs. induction 1 as [|i n cond Hu IH Hn Hc|i n cond Hu IH Hk| | | | |l r l' r' ty fields tol tc _ IHl _ IHr| | | |];
    cbn [pushdown executeNode]; rewrite <- ?IHl, <- ?IHr, <- ?IHunfiltered; try done.
  - destruct Hn as (src & m & ps & ->). destruct (pushdown_scan _ _ Hu) as [preds E]. rewrite E.
    rewrite (proj2 (canPush_comparison cond)) by done. by apply executeScan_ignores.
  - rewrite <- IH. destruct (pushdown i) eqn:Ei; try done.
    destruct (canPush cond) eqn:Ec; [|done]. apply canPush_comparison in Ec. exfalso.
    pose proof (pushdown_scan _ _ Hu) as Hp. rewrite Ei in Hp.
    destruct n; try (apply Hp; by do 3 eexists). apply Hk; [by do 3 eexists|done].
Qed.

Lemma unfiltered_total p : ∃ n, unfiltered p n.
Proof.
  induction p as [|i [n IH] cond|i [n IH]|i [n IH]|i [n IH]|i [n IH]| |l [l' IHl] r [r' IHr]| | |];
    try by eexists; constructor.
  destruct (canPush cond) eqn:Ec.
  - apply canPush_comparison in Ec. destruct n; try (eexists; apply uf_kept; [exact IH|by intros (? & ? & ? & ?)]).
    eexists. apply uf_lost; [exact IH|by do 3 eexists|done].
  - eexists. apply uf_kept; [exact IH|]. intros _ Hc%canPush_comparison. congruence.
Qed.

(** C19: what the optimisation of a plan does to the result of its query. The optimised plan moves
    filters into the scans, and the sources of the code take them there and do not look at them. So
    the result of the optimised plan, errors and panics included, is that of the plan without exactly
    these filters: the comparisons (=, !=, <, <=, >, >=, LIKE, and those joined by AND) that are
    directly after a source, or after such filters only; every other filter, and every other step,
    has its effect. In particular a query without such a filter gives what its plain plan gives. *)
Theorem optimisation_loses_exactly_pushed_filters (e : Executor) (now : Time) (st : Statement) :
  sources_ignore_predicates e →
  let range := resolveTimeRange now (statement_range st) in
  ∃ n, unfiltered (statement_plan st) n ∧
    executePlan e (Planner_Plan now st) = executeNode e range n ∧
    ∀ n', unfiltered (statement_plan st) n' → executeNode e range n' = executeNode e range n.
Proof.
  intros H range. destruct (unfiltered_total (statement_plan st)) as [n Hn]. exists n.
  unfold executePlan, Planner_Plan, optimizations, LimitPushdown. cbn [foldl Root pl_TimeRange]. fold range.
  split_and!; [done|by apply executeNode_pushdown|]. intros n' Hn'.
  by rewrite <- (executeNode_pushdown e range _ n' H Hn'), (executeNode_pushdown e range _ n H Hn).
Qed.

(** ** Types of expressions *)

(** Expressions of known operators, without function calls and subqueries. *)
Definition known_operators : list string :=
  ["="; "!="; "<"; "<="; ">"; ">="; "like"; "+"; "-"; "*"; "/"; "%"; "and"; "or"; "matches"; "in"].
Fixpoint known_expr (x : Expr) : bool :=
  match x with
  | LiteralExpr _ _ | IdentifierExpr _ _ _ => true
  | BinaryExpr l op r _ => bool_decide (op ∈ known_operators) && known_expr l && known_expr r
  | UnaryExpr op x _ => bool_decide (op ∈ ["not"; "-"]) && known_expr x
  | ListExpr xs _ => forallb known_expr xs
  | _ => false
  end.

(** Somewhere in the expression a remainder is taken whose divisor is zero as an integer. *)
Fixpoint zero_divisor (e : Executor) (range : TimeRangeSpec) (row : Row) (x : Expr) : bool :=
  match x with
  | BinaryExpr l op r _ =>
      zero_divisor e range row l || zero_divisor e range row r ||
      String.eqb op "%" && match evalExpr e range r row with Ok v => f64_to_int (toFloat v) =? 0 | _ => false end
  | UnaryExpr _ x _ => zero_divisor e range row x
  | ListExpr xs _ => existsb (zero_divisor e range row) xs
  | _ => false
  end.

Inductive kind : Type := KBool | KFloat | KFloatOrNil | KInt | KList | KLiteral (v : Literal) | KAny.

Definition kind_of (x : Expr) : kind :=
  match x with
  | BinaryExpr _ op _ _ =>
      if existsb (String.eqb op) ["+"; "-"; "*"] then KFloat
      else if String.eqb op "/" then KFloatOrNil else if String.eqb op "%" then KInt else KBool
  | UnaryExpr op _ _ => if String.eqb op "not" then KBool else KFloat
  | ListExpr _ _ => KList
  | LiteralExpr v _ => KLiteral v
  | _ => KAny
  end.

Definition has_kind (k : kind) (v : Value) : Prop :=
  match k with
  | KBool => ∃ b, v = VBool b
  | KFloat => ∃ f, v = VFloat f
  | KFloatOrNil => v = VNil ∨ ∃ f, v = VFloat f
  | KInt => ∃ n, v = VInt n ∧ in_int64 n
  | KList => ∃ l, v = VList l
  | KLiteral l => v = literal_value l
  | KAny => True
  end.

Lemma evalBinaryOp_typed op l r :
  op ∈ known_operators →
  if String.eqb op "%" && (f64_to_int (toFloat r) =? 0) then evalBinaryOp op l r = Panic "integer divide by zero"
  else ∃ v, evalBinaryOp op l r = Ok v ∧
    has_kind (if existsb (String.eqb op) ["+"; "-"; "*"] then KFloat
              else if String.eqb op "/" then KFloatOrNil else if String.eqb op "%" then KInt else KBool) v.
Proof.
  intros H. repeat (apply elem_of_cons in H as [->|H]); [..|by apply elem_of_nil in H];
    cbn [existsb orb andb String.eqb Ascii.eqb Bool.eqb evalBinaryOp]; try case_match;
    try done; (eexists; split; [reflexivity|cbn; eauto using wrap64_range]).
Qed.

Fixpoint expr_size (x : Expr) : nat :=
  match x with
  | BinaryExpr l _ r _ => S (expr_size l + expr_size r)
  | UnaryExpr _ x _ => S (expr_size x)
  | ListExpr xs _ => S (list_sum (map expr_size xs))
  | FunctionCallExpr _ xs _ => S (list_sum (map expr_size xs))
  | _ => 1
  end.

Lemma sum_member x xs : x ∈ xs → (expr_size x ≤ list_sum (map expr_size xs))%nat.
Proof.
  induction xs as [|y xs IH]; [by intros ?%elem_of_nil|]. cbn [map list_sum foldr].
  intros [->|Hx]%elem_of_cons; [lia|]. specialize (IH Hx). unfold list_sum in *. lia.
Qed.

(** A list evaluates in its order, up to the first panic. *)
Lemma map_result_panics {A B} (f : A → result B) (bad : A → bool) m l :
  (∀ a, a ∈ l → if bad a then f a = Panic m else ∃ b, f a = Ok b) →
  if existsb bad l then map_result f l = Panic m else ∃ bs, map_result f l = Ok bs.
Proof.
  induction l as [|a l IH]; intros H; cbn [map_result existsb]; [by eexists|].
  pose proof (H a ltac:(set_solver)) as Ha. specialize (IH ltac:(set_solver)).
  destruct (bad a); [by rewrite Ha|]. destruct Ha as [b ->]. cbn [orb].
  destruct (existsb bad l); [by rewrite IH|]. destruct IH as [bs ->]. by eexists.
Qed.

(** C20: how expressions evaluate, for those of known operators, literals, columns and lists; calls
    of functions and subqueries are left out. On every row: if somewhere in the expression a
    remainder (%) is taken whose divisor is zero as an integer, evaluating it panics, even where AND
    or OR could have stopped before; otherwise it evaluates without an error or a panic, to a value
    of its static kind: comparisons, logic, LIKE, MATCHES and IN to booleans, arithmetic to floats
    (a division also to nil, a remainder to a 64-bit integer), lists to lists. *)
Theorem known_expressions_evaluate (e : Executor) (range : TimeRangeSpec) (x : Expr) (row : Row) :
  known_expr x = true →
  if zero_divisor e range row x then evalExpr e range x row = Panic "integer divide by zero"
  else ∃ v, evalExpr e range x row = Ok v ∧ has_kind (kind_of x) v.
Proof.
  remember (expr_size x) as n eqn:Hn. revert x Hn.
  induction n as [n IH] using lt_wf_ind. intros x -> H.
  destruct x as [l op r p|op x p|name path p|v p|name args p|xs p|q p]; cbn [known_expr] in H; try done.
  - apply andb_true_iff in H as [[Hop%bool_decide_eq_true Hl]%andb_true_iff Hr]. cbn [evalExpr kind_of zero_divisor].
    pose proof (IH (expr_size l) ltac:(cbn; lia) l eq_refl Hl) as El.
    destruct (zero_divisor e range row l); [by rewrite El|]. destruct El as (vl & -> & _). cbn [orb res_bind].
    pose proof (IH (expr_size r) ltac:(cbn; lia) r eq_refl Hr) as Er.
    destruct (zero_divisor e range row r); [by rewrite Er|]. destruct Er as (vr & -> & _). cbn [orb res_bind].
    by apply evalBinaryOp_typed.
  - apply andb_true_iff in H as [Hop%bool_decide_eq_true Hx]. cbn [evalExpr kind_of zero_divisor].
    pose proof (IH (expr_size x) ltac:(cbn; lia) x eq_refl Hx) as Ex.
    destruct (zero_divisor e range row x); [by rewrite Ex|]. destruct Ex as (v & -> & _). cbn [res_bind].
    apply elem_of_cons in Hop as [->|Hop%list_elem_of_singleton]; [|rewrite Hop]; cbn; eauto.
  - cbn [evalExpr kind_of zero_divisor]. case_match; by eexists.
  - by eexists.
  - cbn [evalExpr kind_of zero_divisor].
    assert (E : if existsb (zero_divisor e range row) xs
                then map_result (λ x, evalExpr e range x row) xs = Panic "integer divide by zero"
                else ∃ vs, map_result (λ x, evalExpr e range x row) xs = Ok vs).
    { apply map_result_panics. intros x Hx. assert (Hs : (expr_size x < expr_size (ListExpr xs p))%nat).
      { apply le_n_S. by apply sum_member. }
      rewrite forallb_forall in H. specialize (H x (proj1 (list_elem_of_In _ _) Hx)).
      pose proof (IH _ Hs x eq_refl H) as Ex. case_match; [done|]. destruct Ex as (v & -> & _). by eexists. }
    case_match; [by rewrite E|]. destruct E as [vs ->]. cbn. eauto.
Qed.
End facts.

(** ** Groups *)

Section groups.
Context {RT : Runtime}.

Definition count_column (name : string) (row : Row) : Z :=
  match row !! name with Some (VInt n) => n | _ => 0 end.

Lemma count_of_group aggs groupBy alias g :
  g ≠ [] → let a := mkAggSpec "count" "" alias in
  count_column (agg_name a) (aggregate_row (aggs ++ [a]) groupBy g) = Z.of_nat (length g).
Proof.
  intros Hg a. unfold count_column, aggregate_row. rewrite foldl_snoc, lookup_insert_eq.
  assert (Hv : agg_values "" g = map (λ _, f64_of_Z 1) g).
  { clear. unfold agg_values. cbn [String.eqb]. induction g as [|r g IH]; cbn; [done|]. by f_equal. }
  unfold computeAggregation. cbn [as_Field a]. rewrite Hv. destruct g as [|r g]; [done|]. cbn [map].
  cbn [as_Function]. cbn [length]. by rewrite length_map.
Qed.

(** An aggregation puts every input row in exactly one group, in whatever order the map
    of groups is visited: the groups are the non-empty sets of rows with equal keys, in
    row order, no two groups share a key, together they are the input, and the counts add
    up to its length. *)
Theorem groups_partition_the_rows aggs groupBy rows :
  visits_maps →
  ∃ groups : list (string * list Row),
    aggregate aggs groupBy rows = map (λ kg, aggregate_row aggs groupBy kg.2) groups ∧
    NoDup groups.*1 ∧ (groups ≫= snd) ≡ₚ rows ∧
    (∀ k g, (k, g) ∈ groups ↔ g = filter (λ r, groupKey groupBy r = k) rows ∧ g ≠ []) ∧
    ∀ aggs' alias, let a := mkAggSpec "count" "" alias in aggs = aggs' ++ [a] →
      sum_Z (count_column (agg_name a)) (aggregate aggs groupBy rows) = Z.of_nat (length rows).
Proof.
  intros Hv. set (m := group_by (groupKey groupBy) rows). exists (map_order m).
  assert (Hmem : ∀ k g, (k, g) ∈ map_order m ↔ m !! k = Some g).
  { intros k g. by rewrite (Hv _ m), elem_of_map_to_list. }
  assert (Hcat : (map_order m ≫= snd) ≡ₚ rows) by (rewrite (Hv _ m); apply group_by_concat).
  split; [done|]. split; [rewrite (Hv _ m); apply NoDup_fst_map_to_list|]. split; [done|]. split.
  - intros k g. rewrite Hmem. split; [intros H; by apply group_by_nonempty in H as [? ->]|].
    intros [-> Hg]. unfold m. rewrite group_by_lookup. by destruct (filter _ rows).
  - intros aggs' alias a ->. rewrite <- (Permutation_length Hcat). unfold aggregate. fold m.
    assert (Hne : ∀ kg, kg ∈ map_order m → kg.2 ≠ []).
    { intros [k g] Hkg%Hmem. by apply group_by_nonempty in Hkg as [? _]. }
    revert Hne. generalize (map_order m). clear. intros l Hne.
    induction l as [|[k g] l IH]; [done|]. cbn [map sum_Z foldr]. cbn [mbind list_bind snd].
    rewrite length_app, Nat2Z.inj_add, <- (count_of_group aggs' groupBy alias g) by (apply (Hne (k, g)); set_solver).
    f_equal. apply IH. intros kg Hkg. apply Hne. set_solver.
Qed.

(** ** Limits *)

(** LIMIT and OFFSET give the rows they name whenever both are non-negative and their
    sum does not overflow, also past the end; on anything else the slice panics exactly
    when the offset is inside the rows and it, or the wrapped end, is out of order. *)
Theorem limit_gives_the_rows_or_panics count offset rows :
  (0 ≤ offset → 0 ≤ count → offset + count ≤ int64_max →
   limit_rows count offset rows = Ok (take (Z.to_nat count) (drop (Z.to_nat offset) rows))) ∧
  (is_panic (limit_rows count offset rows) = true ↔
   offset ≤ Z.of_nat (length rows) ∧ (offset < 0 ∨ wrap64 (offset + count) < offset)) ∧
  (∀ m, limit_rows count offset rows ≠ Err m).
Proof.
  unfold limit_rows. set (n := Z.of_nat (length rows)). split; [|split].
  - intros Ho Hc Hs. destruct (Z.ltb_spec n offset) as [Hlt|Hge].
    + rewrite drop_ge by (unfold n in Hlt; lia). by rewrite take_nil.
    + rewrite wrap64_id by (unfold in_int64, int64_min; lia).
      replace (offset <? 0) with false by lia. cbn [orb].
      destruct (Z.ltb_spec n (offset + count)) as [Hn|Hn].
      * replace (n <? offset) with false by lia.
        rewrite !take_ge by (rewrite length_drop; unfold n in *; lia). done.
      * replace (offset + count <? offset) with false by lia. do 2 f_equal. lia.
  - destruct (Z.ltb_spec n offset); [split; [done|lia]|].
    destruct (Z.ltb_spec n (wrap64 (offset + count))); destruct (Z.ltb_spec offset 0);
      cbn [orb]; try (split; [lia|done]); case_match; (split; [try done; lia|]; try done; lia).
  - intros m. repeat case_match; done.
Qed.
End groups.

(** ** Joins *)

Section joins.
Context {RT : Runtime}.

Lemma elem_of_join_matches fields tol tc rights l r :
  r ∈ join_matches fields tol tc rights l ↔
  r ∈ rights ∧ joinKey fields r = joinKey fields l ∧
  (0 < tol → is_Some (timestamp l) → within_tolerance tol l r = true) ∧
  (∀ c, tc = Some c → IsZero (getFieldAsTime l (tj_LeftField c)) = false → between c l r = true).
Proof.
  unfold join_matches.
  set (ms := if (0 <? tol) && bool_decide (is_Some (timestamp l)) then _ else _).
  assert (Hms : r ∈ ms ↔ r ∈ rights ∧ joinKey fields r = joinKey fields l ∧
    (0 < tol → is_Some (timestamp l) → within_tolerance tol l r = true)).
  { unfold ms. destruct (Z.ltb_spec 0 tol), (bool_decide_reflect (is_Some (timestamp l))); cbn [andb];
      rewrite ?list_elem_of_filter; intuition (try lia; try done). }
  clearbody ms. transitivity (r ∈ ms ∧
    ∀ c, tc = Some c → IsZero (getFieldAsTime l (tj_LeftField c)) = false → between c l r = true);
    [clear Hms|rewrite Hms; tauto].
  destruct tc as [c|]; [|by split; [intros ?; split|intros []]].
  destruct (IsZero _) eqn:E.
  - split; [|by intros []]. intros ?. split; [done|]. intros c' [= <-]. congruence.
  - rewrite list_elem_of_filter. split.
    + intros [? ?]. split; [done|]. by intros c' [= <-].
    + intros [? H]. by split; [apply H|].
Qed.

(** A column of the left row is kept unless its name begins like those of the right. *)
Lemma mergeRows_left l r k v :
  l !! k = Some v → (∀ k', k ≠ "right_" +:+ k') → mergeRows l r !! k = Some v.
Proof.
  intros Hk Hp. unfold mergeRows. revert Hk. generalize l. clear l.
  induction (map_order r) as [|[k' v'] kvs IH]; intros m Hk; cbn [foldl]; [done|].
  apply IH. cbn [fst snd]. destruct (m !! k') eqn:E.
  - by rewrite lookup_insert_ne by (intros Heq; by apply (Hp k')).
  - rewrite lookup_insert_ne; [done|]. by intros ->; rewrite E in Hk.
Qed.

(** An inner join is the set of merged pairs of rows with equal keys that are within
    the tolerance and the time condition; a left join has, besides, exactly the left rows
    that no right row matches; and no column of a left row is lost. *)
Theorem join_pairs_matching_rows ty fields tol tc lefts rights x :
  ty = JoinInner ∨ ty = JoinLeft →
  let matching l r := joinKey fields r = joinKey fields l ∧
    (0 < tol → is_Some (timestamp l) → within_tolerance tol l r = true) ∧
    (∀ c, tc = Some c → IsZero (getFieldAsTime l (tj_LeftField c)) = false → between c l r = true) in
  (x ∈ join_rows ty fields tol tc lefts rights ↔
   (∃ l r, l ∈ lefts ∧ r ∈ rights ∧ matching l r ∧ x = mergeRows l r) ∨
   (ty = JoinLeft ∧ x ∈ lefts ∧ ∀ r, r ∈ rights → ¬ matching x r)) ∧
  (∀ l r k v, l !! k = Some v → (∀ k', k ≠ "right_" +:+ k') → mergeRows l r !! k = Some v).
Proof.
  intros Hty matching. split; [|by intros; apply mergeRows_left].
  assert (Hm : ∀ l r, r ∈ join_matches fields tol tc rights l ↔ r ∈ rights ∧ matching l r).
  { intros l r. apply elem_of_join_matches. }
  unfold join_rows. rewrite elem_of_app. clearbody matching.
  assert (Hright : ∀ (a b : list Row), x ∈ (if match ty with JoinRight | JoinFull => true | _ => false end then a else []) ↔ False).
  { intros a _. by destruct Hty as [-> | ->]; rewrite elem_of_nil. }
  rewrite Hright by exact []. rewrite list_elem_of_bind.
  assert (Hone : ∀ l, x ∈ match join_matches fields tol tc rights l with
      | [] => if match ty with JoinLeft | JoinFull => true | _ => false end then [l] else []
      | ms => map (mergeRows l) ms end ↔
    (∃ r, r ∈ rights ∧ matching l r ∧ x = mergeRows l r) ∨
    (ty = JoinLeft ∧ x = l ∧ ∀ r, r ∈ rights → ¬ matching x r)).
  { intros l. specialize (Hm l). destruct (join_matches fields tol tc rights l) as [|m ms].
    - assert (Hno : ∀ r, r ∈ rights → ¬ matching l r).
      { intros r Hr Hk. by assert (r ∈ @nil Row) as ?%elem_of_nil by by apply Hm. }
      destruct Hty as [-> | ->].
      + rewrite elem_of_nil. split; [done|]. intros [(r & Hr & Hk & _)|[[=] _]]. by eapply Hno.
      + rewrite list_elem_of_singleton. split; [intros ->; by right|].
        intros [(r & Hr & Hk & _)|(_ & -> & _)]; [by destruct (Hno r)|done].
    - rewrite list_elem_of_fmap. split.
      + intros (r & -> & Hr%Hm). left. exists r. tauto.
      + intros [(r & Hr & Hk & ->)|(_ & -> & Hno)]; [exists r; split; [done|]; by apply Hm|].
        assert (m ∈ m :: ms) as [? Hk]%Hm by set_solver. by destruct (Hno m). }
  split.
  - intros [(l & Ho & Hl)|[]]. apply Hone in Ho as [(r & Hr & Hk & ->)|(-> & -> & Hno)].
    + left. by exists l, r.
    + by right.
  - intros H. left. destruct H as [(l & r & Hl & Hr & Hk & ->)|(-> & Hl & Hno)].
    + exists l. split; [|done]. apply Hone. left. by exists r.
    + exists x. split; [|done]. apply Hone. by right.
Qed.

(** ** Histograms *)

Lemma sum_alter (l : list Z) i :
  (i < length l)%nat → (∀ c, c ∈ l → 0 ≤ c) → sum_Z id l < int64_max →
  sum_Z id (alter (λ c, wrap64 (c + 1)) i l) = sum_Z id l + 1 ∧
  (∀ c, c ∈ alter (λ c, wrap64 (c + 1)) i l → 0 ≤ c).
Proof.
  assert (Hnn : ∀ l : list Z, (∀ c, c ∈ l → 0 ≤ c) → 0 ≤ sum_Z id l).
  { clear. induction l as [|x l IH]; intros H; [done|]. change (0 ≤ x + sum_Z id l).
    assert (0 ≤ x) by (apply H; set_solver). assert (0 ≤ sum_Z id l) by (apply IH; set_solver). lia. }
  revert i. induction l as [|x l IH]; intros i Hi Hl Hs; cbn in Hi; [lia|].
  assert (0 ≤ x) by (apply Hl; set_solver). assert (0 ≤ sum_Z id l) by (apply Hnn; set_solver).
  change (sum_Z id (x :: l)) with (x + sum_Z id l) in *. destruct i as [|i]; cbn [alter list_alter].
  - rewrite wrap64_id by (unfold in_int64, int64_min; lia).
    change (sum_Z id (x + 1 :: l)) with (x + 1 + sum_Z id l). split; [lia|].
    intros c [->|Hc]%elem_of_cons; [lia|]. apply Hl. set_solver.
  - destruct (IH i ltac:(lia) ltac:(set_solver) ltac:(lia)) as [E Hnn'].
    change (sum_Z id (x :: alter (λ c, wrap64 (c + 1)) i l)) with (x + sum_Z id (alter (λ c, wrap64 (c + 1)) i l)).
    split; [lia|]. intros c [->|Hc]%elem_of_cons; [done|auto].
Qed.

Lemma bucket_index_range n minVal size v : 0 < n → 0 ≤ bucket_index n minVal size v < n.
Proof.
  intros Hn. unfold bucket_index. set (i := f64_to_int _). clearbody i.
  destruct (Z.leb_spec n i); case_match; lia.
Qed.

Lemma fill_buckets_total n minVal size values l :
  Z.of_nat (length l) = n → 0 < n → (∀ c, c ∈ l → 0 ≤ c) →
  sum_Z id l + Z.of_nat (length values) ≤ int64_max →
  ∃ l', fill_buckets n minVal size values l = Ok l' ∧ length l' = length l ∧
    sum_Z id l' = sum_Z id l + Z.of_nat (length values).
Proof.
  intros Hlen Hn. revert l Hlen. induction values as [|v values IH]; intros l Hlen Hl Hs.
  - exists l. split; [done|]. cbn. split; [done|lia].
  - cbn [fill_buckets length] in *. pose proof (bucket_index_range n minVal size v Hn).
    unfold increment. replace (_ || _) with false by lia. cbn [res_bind].
    destruct (sum_alter l (Z.to_nat (bucket_index n minVal size v))) as [Hsum Hl']; [lia|done|lia|].
    destruct (IH (alter (λ c, wrap64 (c + 1)) (Z.to_nat (bucket_index n minVal size v)) l)) as (l' & -> & Hlen' & Hs').
    + by rewrite length_alter.
    + done.
    + rewrite Hsum. lia.
    + exists l'. split; [done|]. rewrite Hlen', length_alter, Hs', Hsum. split; [done|lia].
Qed.

Lemma sum_zeros k : sum_Z id (replicate k 0) = 0.
Proof. induction k as [|k IH]; [done|]. change (0 + sum_Z id (replicate k 0) = 0). lia. Qed.

Lemma sum_imap {A} (g : A → Z) (F : nat → Z → A) l :
  (∀ i c, g (F i c) = c) → sum_Z g (imap F l) = sum_Z id l.
Proof.
  intros H. revert F H. induction l as [|c l IH]; intros F H; cbn; [done|].
  rewrite H. unfold id. f_equal. apply (IH (λ i, F (S i))). by intros.
Qed.

(** A histogram with a positive number of buckets has that many rows, and its counts
    add up to the number of rows that have the field, whatever the floats (NaN and
    infinities included); without a positive number of buckets it panics as soon as one
    row has the field. *)
Theorem histogram_counts_every_value f n rows :
  let values := omap (λ row : Row, toFloat <$> (row !! f)) rows in
  Z.of_nat (length values) ≤ int64_max →
  (0 < n ≤ 2 ^ 45 → ∃ out, histogram f n rows = Ok out ∧
     (values = [] ∧ out = [] ∨
      Z.of_nat (length out) = n ∧ sum_Z (count_column "count") out = Z.of_nat (length values))) ∧
  (n ≤ 0 → values ≠ [] → is_panic (histogram f n rows) = true).
Proof.
  intros values Hlen. unfold histogram. fold values. destruct values as [|v vs].
  { split; [|done]. intros _. exists []. split; [done|]. by left. }
  set (lo := foldl _ v vs). set (size := if f64_eq _ _ then _ else _). clearbody lo size.
  unfold make_ints. split.
  - intros [Hn Hmax]. replace (_ || _) with false by lia. cbn [res_bind].
    destruct (fill_buckets_total n lo size (v :: vs) (replicate (Z.to_nat n) 0)) as (l & -> & Hl & Hs).
    + rewrite length_replicate. lia.
    + done.
    + intros c [-> _]%elem_of_replicate. done.
    + rewrite sum_zeros. lia.
    + cbn [res_bind]. eexists. split; [reflexivity|]. right. split.
      * rewrite length_imap, Hl, length_replicate. lia.
      * rewrite sum_imap, Hs.
        -- by rewrite sum_zeros.
        -- intros i c. unfold count_column. by rewrite !lookup_insert_ne, lookup_insert_eq by done.
  - intros Hn _. destruct (Z.ltb_spec n 0); cbn [orb]; [done|].
    assert (n = 0) as -> by lia. cbn [replicate Z.to_nat res_bind fill_buckets].
    unfold increment. cbn [length Z.of_nat]. by destruct (bucket_index 0 lo size v).
Qed.
End joins.

(** ** A runtime to evaluate with *)

#[local] Existing Instance demo_runtime.

Definition row_of (l : list (string * Value)) : Row := list_to_map l.
Definition demo_logs : list Row :=
  [row_of [("level", VString "error"); ("service", VString "api"); ("trace_id", VString "t1"); ("n", VInt 1)];
   row_of [("level", VString "info"); ("service", VString "web"); ("trace_id", VString "t2"); ("n", VInt 2)];
   row_of [("level", VString "info"); ("service", VString "api"); ("trace_id", VString "t3"); ("n", VInt 3)]].
Definition demo_traces : list Row :=
  [row_of [("trace_id", VString "t1"); ("name", VString "GET")]; row_of [("trace_id", VString "t9"); ("name", VString "PUT")]].

Definition demo_executor (logs traces : ScanFn) : Executor :=
  mkExecutor None (Some logs) (Some traces) None None Hour (λ _, None).
Definition demo : Executor := demo_executor (InMemory_Scan demo_logs) (InMemory_Scan demo_traces).

Definition demo_no_times : string → Time + string := λ _, inr "no time".
Definition run_query (q : string) : result (list Row) :=
  let! r := Execute demo_no_times demo q in Ok (Rows r).

Definition demo_range : TimeRangeSpec := resolveTimeRange Hour None.

Definition demo_statement : Statement :=
  match Parse Values.ParseFloat demo_no_times "logs | where level = 'error' | select service" with
  | Some (Ok st) => st
  | _ => SQLStatement (mkSQLQuery (mkSQLSelectClause false [] no_position)
           (FromSource (mkSourceNode "" "" no_position) "" no_position) [] None [] None None None no_position)
           no_position ∅
  end.

Lemma demo_ignores : sources_ignore_predicates demo.
Proof.
  intros source scan Hs. unfold source_of in Hs. repeat case_match; try discriminate; by injection Hs as <-.
Qed.

(** The filter is lost: all three services are given. *)
Lemma optimisation_loses_exactly_pushed_filters_witness :
  (∃ n, unfiltered (statement_plan demo_statement) n ∧
    executePlan demo (Planner_Plan Hour demo_statement) = executeNode demo demo_range n) ∧
  executePlan demo (Planner_Plan Hour demo_statement) =
    Ok (map (λ s, row_of [("service", VString s)]) ["api"; "web"; "api"]).
Proof.
  split.
  - destruct (optimisation_loses_exactly_pushed_filters demo Hour demo_statement demo_ignores) as (n & H1 & H2 & _).
    exists n. split; [exact H1|exact H2].
  - vm_compute. reflexivity.
Defined.

Definition ratio_expr (op : string) : Expr :=
  BinaryExpr (IdentifierExpr "n" [] no_position) op (LiteralExpr (LiteralInt 0) no_position) no_position.
Definition first_log : Row := default ∅ (head demo_logs).

(** Dividing by zero gives a value, the remainder a panic. *)
Lemma known_expressions_evaluate_witness :
  (∃ v, evalExpr demo demo_range (ratio_expr "/") first_log = Ok v ∧ has_kind KFloatOrNil v) ∧
  evalExpr demo demo_range (ratio_expr "%") first_log = Panic "integer divide by zero".
Proof.
  split.
  - apply (known_expressions_evaluate demo demo_range (ratio_expr "/") first_log). reflexivity.
  - apply (known_expressions_evaluate demo demo_range (ratio_expr "%") first_log). reflexivity.
Defined.

Lemma groups_partition_the_rows_witness :
  sum_Z (count_column "n") (aggregate [mkAggSpec "count" "" "n"] ["service"] demo_logs) = 3.
Proof.
  destruct (groups_partition_the_rows [mkAggSpec "count" "" "n"] ["service"] demo_logs demo_visits)
    as (groups & _ & _ & _ & _ & H).
  exact (H [] "n" eq_refl).
Defined.

Lemma join_pairs_matching_rows_witness :
  row_of [("level", VString "info")] ∉ join_rows JoinInner ["trace_id"] 0 None demo_logs demo_traces.
Proof.
  intros H. apply (join_pairs_matching_rows JoinInner ["trace_id"] 0 None demo_logs demo_traces _ (or_introl eq_refl)) in H.
  destruct H as [(l & r & Hl & Hr & _ & E)|([=] & _)].
  apply (f_equal (λ m : Row, m !! "trace_id")) in E. revert E.
  repeat (apply elem_of_cons in Hl as [->|Hl]); [..|by apply elem_of_nil in Hl];
    (repeat (apply elem_of_cons in Hr as [->|Hr]); [..|by apply elem_of_nil in Hr]);
    vm_compute; discriminate.
Defined.

Lemma histogram_counts_every_value_witness :
  ∃ out, histogram "n" 2 demo_logs = Ok out ∧ sum_Z (count_column "count") out = 3.
Proof.
  destruct (histogram_counts_every_value "n" 2 demo_logs) as [H _]; [by vm_compute|].
  destruct (H ltac:(by vm_compute)) as (out & Ho & [(Hv & _)|(_ & Hs)]); [by vm_compute in Hv|].
  exists out. split; [done|]. rewrite Hs. by vm_compute.
Defined.

(** ** What queries do on the data sources of the code *)

(** A comparison directly after the source has no effect. *)
Lemma where_is_ignored : run_query "logs | where level = 'error'" = run_query "logs".
Proof. vm_compute. reflexivity. Qed.

(** COUNT over star looks for a column named star. *)
Lemma sql_count_star_is_null :
  run_query "select count(*) from logs" = Ok [row_of [("count_*", VNil)]].
Proof. vm_compute. reflexivity. Qed.

(** With a plain column in the SELECT, the projection drops the aggregated ones. *)
Lemma sql_projection_drops_aggregates :
  ∃ r1 r2, run_query "select service, count(level) from logs group by service" =
    Ok [row_of [("service", VString r1)]; row_of [("service", VString r2)]].
Proof. do 2 eexists. vm_compute. reflexivity. Qed.

(** HAVING without an aggregation is dropped. *)
Lemma having_without_aggregation_is_dropped :
  run_query "select service from logs having service = 'api'" = run_query "select service from logs".
Proof. vm_compute. reflexivity. Qed.

(** A join on qualified names compares columns named after the tables, which no row has:
    it pairs every row with every row. *)
Lemma qualified_join_is_a_cross_product :
  match run_query "select * from logs l join traces t on l.trace_id = t.trace_id" with
  | Ok rows => length rows = 6%nat
  | _ => False
  end.
Proof. vm_compute. reflexivity. Qed.

(** Queries that end the process. *)
Lemma queries_that_panic :
  is_panic (run_query "logs | limit -1") = true ∧
  is_panic (run_query "logs | select n % 0") = true ∧
  is_panic (run_query "logs | histogram n buckets=0") = true.
Proof. vm_compute. done. Qed.

(** A list in parentheses that is a query parses, and fails on the first row. *)
Lemma subqueries_are_not_evaluated :
  run_query "logs | where level in (logs | select level)" =
  Err "execution error: unsupported expression: *query.SubqueryExpr".
Proof. vm_compute. reflexivity. Qed.

(** Group keys are joined without quoting: different groups can share a key. *)
Lemma group_keys_collide :
  let r1 := row_of [("a", VString "x|y"); ("b", VString "z")] in
  let r2 := row_of [("a", VString "x"); ("b", VString "y|z")] in
  length (aggregate [mkAggSpec "count" "" ""] ["a"; "b"] [r1; r2]) = 1%nat.
Proof. vm_compute. reflexivity. Qed.

(** An aggregation of no rows has no row. *)
Lemma count_of_nothing_is_nothing aggs groupBy : aggregate aggs groupBy [] = [].
Proof. reflexivity. Qed.

(** The scores of the rows with a value are put on the first rows. *)
Lemma anomaly_scores_are_misplaced :
  match anomalies (f64_of_Z 1) [row_of []; row_of [("value", VInt 5)]] with
  | [r1; r2] => is_Some (r1 !! "anomaly_score") ∧ r2 !! "anomaly_score" = None
  | _ => False
  end.
Proof. vm_compute. split; [by eexists|done]. Qed.

(** A right join keeps unmarked copies of the rows it joined. *)
Lemma right_join_repeats_matched_rows :
  let l := row_of [("k", VInt 1)] in let r := row_of [("k", VInt 1); ("v", VInt 2)] in
  length (join_rows JoinRight ["k"] 0 None [l] [r; r]) = 3%nat.
Proof. vm_compute. reflexivity. Qed.

(** The type of a window is not looked at. *)
Lemma window_types_are_ignored : run_query "logs | window sliding=1m" = run_query "logs | window tumbling=1m".
Proof. vm_compute. reflexivity. Qed.
