(* ===== verification/Keys.v ===== *)
(** Text keys: texts that are cut at a separator in one way only, and the labels of a set in
    the order of their names. *)

From Stdlib Require Import String Ascii.
From stdpp Require Import base option list gmap strings sorting.
From S2P Require Import Prelude.

Fixpoint avoids (c : ascii) (s : string) : Prop :=
  match s with EmptyString => True | String d s => d ≠ c ∧ avoids c s end.
#[export] Instance avoids_dec c s : Decision (avoids c s).
Proof. induction s as [|d s IH]; cbn; apply _. Defined.
Definition ends_at (c : ascii) (s : string) : Prop := match s with EmptyString => True | String d _ => d = c end.

Lemma cut_unique c a b r s :
  avoids c a → avoids c b → ends_at c r → ends_at c s → a +:+ r = b +:+ s → a = b ∧ r = s.
Proof.
  revert b. induction a as [|x a IH]; intros [|y b] Ha Hb Hr Hs E.
  - done.
  - change (r = String y (b +:+ s)) in E. subst r. cbn in Hr, Hb. by destruct Hb.
  - change (String x (a +:+ r) = s) in E. subst s. cbn in Hs, Ha. by destruct Ha.
  - change (String x (a +:+ r) = String y (b +:+ s)) in E. injection E as -> E. cbn in Ha, Hb.
    destruct (IH b (proj2 Ha) (proj2 Hb) Hr Hs E) as [-> ->]. done.
Qed.

Lemma app_cancel (a r s : string) : a +:+ r = a +:+ s → r = s.
Proof.
  induction a as [|c a IH]; [done|]. intros E. change (String c (a +:+ r) = String c (a +:+ s)) in E.
  injection E as E. auto.
Qed.
Lemma app_nil_s (a : string) : a +:+ "" = a.
Proof. induction a as [|x a IH]; [done|]. change (String x (a +:+ "") = String x a). by rewrite IH. Qed.

(** A text cut where a class of characters begins. *)
Fixpoint free_of (P : ascii → bool) (s : string) : Prop :=
  match s with EmptyString => True | String d s => P d = false ∧ free_of P s end.
Definition begins_in (P : ascii → bool) (s : string) : Prop :=
  match s with EmptyString => True | String d _ => P d = true end.

Lemma cut_class P a b r s :
  free_of P a → free_of P b → begins_in P r → begins_in P s → a +:+ r = b +:+ s → a = b ∧ r = s.
Proof.
  revert b. induction a as [|x a IH]; intros [|y b] Ha Hb Hr Hs E.
  - done.
  - change (r = String y (b +:+ s)) in E. subst r. cbn in Hr, Hb. destruct Hb. congruence.
  - change (String x (a +:+ r) = s) in E. subst s. cbn in Hs, Ha. destruct Ha. congruence.
  - change (String x (a +:+ r) = String y (b +:+ s)) in E. injection E as -> E. cbn in Ha, Hb.
    destruct (IH b (proj2 Ha) (proj2 Hb) Hr Hs E) as [-> ->]. done.
Qed.

(** The labels of a set, sorted by name. *)
Definition sorted_pairs (labels : gmap string string) : list (string * string) :=
  (λ k, (k, default "" (labels !! k))) <$> merge_sort String.le (map_to_list labels).*1.

Lemma sorted_pairs_elem labels k v : (k, v) ∈ sorted_pairs labels ↔ labels !! k = Some v.
Proof.
  unfold sorted_pairs. rewrite list_elem_of_fmap. setoid_rewrite (merge_sort_Permutation String.le).
  setoid_rewrite list_elem_of_fmap. split.
  - intros (k' & [= -> ->] & [k1 v1] & -> & Hin). apply elem_of_map_to_list in Hin. cbn. by rewrite Hin.
  - intros Hl. exists k. rewrite Hl. split; [done|]. exists (k, v). split; [done|]. by apply elem_of_map_to_list.
Qed.

(** Two sets with the same labels in order are equal. *)
Lemma sorted_pairs_inj l1 l2 : sorted_pairs l1 = sorted_pairs l2 → l1 = l2.
Proof. intros E. apply map_eq. intros k. apply option_eq. intros v. by rewrite <- !sorted_pairs_elem, E. Qed.
