(* ===== verification/Cardinality.v ===== *)
(** The cardinality controller (internal/metrics/cardinality.go): limits on the number of
    series of a metric, a circuit breaker on their total, and quarantine.

    One call reads the clock once. A loop over a map walks it in the order [range] gives
    for the loop's place in the call. The callback runs in a goroutine: the alerts handed to it
    are kept in [dispatched]. *)

From Stdlib Require Import String Ascii.
From stdpp Require Import base option list gmap sets strings sorting pretty.
From S2P Require Import Prelude Float64 Bytes Format Keys.
From Stdlib Require Import Permutation.

(** ** Data *)

Record CardinalityConfig := mkCardinalityConfig {
  MaxSeriesPerMetric : Z;
  MaxLabelValues : Z;
  CircuitBreakerThreshold : Z;
  CircuitBreakerCooldown : Duration;
  AlertThreshold : Z;
  RapidGrowthWindow : Duration;
  RapidGrowthThreshold : float64;
  AutoAggregateThreshold : Z;
  ProblematicLabels : list string;
  EnableQuarantine : bool;
}.

Definition DefaultCardinalityConfig : CardinalityConfig := {|
  MaxSeriesPerMetric := 10000;
  MaxLabelValues := 5000;
  CircuitBreakerThreshold := 50000;
  CircuitBreakerCooldown := 5 * Minute;
  AlertThreshold := 5000;
  RapidGrowthWindow := 5 * Minute;
  RapidGrowthThreshold := f64_of_decimal 500 1;
  AutoAggregateThreshold := 8000;
  ProblematicLabels := [
    "request_id"; "trace_id"; "span_id"; "correlation_id";
    "uuid"; "guid"; "id"; "session_id"; "user_id";
    "timestamp"; "time"; "ts";
    "ip"; "ip_address"; "client_ip";
    "url"; "uri"; "path"; "query"];
  EnableQuarantine := true;
|}.

Record CardinalitySnapshot := mkSnapshot { cs_Timestamp : Time; cs_TotalSeries : Z; cs_GrowthRate : float64 }.

Record MetricSeriesTracker := mkTracker {
  t_Name : string;
  t_TotalSeries : Z;
  t_UniqueLabels : gmap string Z;
  t_SeriesKeys : gmap string Time;
  t_GrowthHistory : list CardinalitySnapshot;
  t_FirstSeen : Time;
  t_LastSeen : Time;
  t_Blocked : Z;
  t_AutoAggregated : bool;
}.

Record LabelTracker := mkLabelTracker {
  lt_Key : string;
  lt_UniqueValues : Z;
  lt_Values : gmap string Z;
  lt_Metrics : gmap string bool;
  lt_FirstSeen : Time;
  lt_LastSeen : Time;
}.

Inductive CircuitState := CircuitClosed | CircuitOpen | CircuitHalfOpen.
#[global] Instance CircuitState_eq_dec : EqDecision CircuitState.
Proof. solve_decision. Defined.

Record CircuitBreaker := mkBreaker {
  cb_State : CircuitState;
  cb_TotalSeries : Z;
  cb_OpenedAt : Time;
  cb_Cooldown : Duration;
  cb_Threshold : Z;
  cb_BlockedCount : Z;
}.

Record QuarantineEntry := mkQuarantine {
  q_MetricName : string;
  q_Reason : string;
  q_QuarantinedAt : Time;
  q_ExpiresAt : Time;
  q_AllowedLabels : list string;
  q_AutoExpire : bool;
}.

Inductive CardinalityAlertType :=
  AlertMetricHigh | AlertLabelHigh | AlertRapidGrowth | AlertCircuitOpen | AlertQuarantine | AlertAutoAggregate.

Record CardinalityAlert := mkAlert {
  ca_ID : string;
  ca_Timestamp : Time;
  ca_AlertType : CardinalityAlertType;
  ca_Severity : string;
  ca_MetricName : string;
  ca_LabelKey : string;
  ca_CurrentValue : Z;
  ca_Threshold : Z;
  ca_GrowthRate : float64;
  ca_Message : string;
  ca_Action : string;
}.

Record CardinalityStats := mkStats {
  s_TotalMetrics : Z;
  s_TotalSeries : Z;
  s_TotalLabelKeys : Z;
  s_HighCardinalityMetrics : Z;
  s_QuarantinedMetrics : Z;
  s_BlockedRequests : Z;
  s_AlertsGenerated : Z;
  s_CircuitBreakerState : option CircuitState;
  s_LastUpdated : Time;
}.

Record CardinalityController := mkController {
  config : CardinalityConfig;
  metricSeries : gmap string MetricSeriesTracker;
  globalLabels : gmap string LabelTracker;
  circuitBreaker : CircuitBreaker;
  quarantined : gmap string QuarantineEntry;
  alertCallback : bool;
  recentAlerts : list CardinalityAlert;
  maxAlerts : Z;
  stats : CardinalityStats;
  dispatched : list CardinalityAlert;
}.

Definition NewCardinalityController (cfg : CardinalityConfig) : CardinalityController := {|
  config := cfg;
  metricSeries := ∅;
  globalLabels := ∅;
  circuitBreaker := mkBreaker CircuitClosed 0 zero_time (CircuitBreakerCooldown cfg) (CircuitBreakerThreshold cfg) 0;
  quarantined := ∅;
  alertCallback := false;
  recentAlerts := [];
  maxAlerts := 100;
  stats := mkStats 0 0 0 0 0 0 0 None zero_time;
  dispatched := [];
|}.

Record RecordSeriesResult := mkResult {
  r_Accept : bool;
  r_Reason : string;
  r_TransformedLabels : option (gmap string string);
  r_Quarantined : bool;
  r_CircuitOpen : bool;
}.

(** Assignments to fields. *)
Definition set_metric (name : string) (t : MetricSeriesTracker) (c : CardinalityController) : CardinalityController :=
  mkController (config c) (<[name := t]> (metricSeries c)) (globalLabels c) (circuitBreaker c) (quarantined c)
    (alertCallback c) (recentAlerts c) (maxAlerts c) (stats c) (dispatched c).
Definition set_label (key : string) (lt : LabelTracker) (c : CardinalityController) : CardinalityController :=
  mkController (config c) (metricSeries c) (<[key := lt]> (globalLabels c)) (circuitBreaker c) (quarantined c)
    (alertCallback c) (recentAlerts c) (maxAlerts c) (stats c) (dispatched c).
Definition set_breaker (b : CircuitBreaker) (c : CardinalityController) : CardinalityController :=
  mkController (config c) (metricSeries c) (globalLabels c) b (quarantined c)
    (alertCallback c) (recentAlerts c) (maxAlerts c) (stats c) (dispatched c).
Definition set_quarantined (q : gmap string QuarantineEntry) (c : CardinalityController) : CardinalityController :=
  mkController (config c) (metricSeries c) (globalLabels c) (circuitBreaker c) q
    (alertCallback c) (recentAlerts c) (maxAlerts c) (stats c) (dispatched c).
Definition set_stats (s : CardinalityStats) (c : CardinalityController) : CardinalityController :=
  mkController (config c) (metricSeries c) (globalLabels c) (circuitBreaker c) (quarantined c)
    (alertCallback c) (recentAlerts c) (maxAlerts c) s (dispatched c).
Definition set_alerts (recent sent : list CardinalityAlert) (c : CardinalityController) : CardinalityController :=
  mkController (config c) (metricSeries c) (globalLabels c) (circuitBreaker c) (quarantined c)
    (alertCallback c) recent (maxAlerts c) (stats c) sent.

Definition set_state (st : CircuitState) (b : CircuitBreaker) : CircuitBreaker :=
  mkBreaker st (cb_TotalSeries b) (cb_OpenedAt b) (cb_Cooldown b) (cb_Threshold b) (cb_BlockedCount b).

Definition block_request (c : CardinalityController) : CardinalityController :=
  let s := stats c in
  set_stats (mkStats (s_TotalMetrics s) (s_TotalSeries s) (s_TotalLabelKeys s) (s_HighCardinalityMetrics s)
    (s_QuarantinedMetrics s) (wrap64 (s_BlockedRequests s + 1)) (s_AlertsGenerated s)
    (s_CircuitBreakerState s) (s_LastUpdated s)) c.

(** [m[k]++] *)
Definition incr (k : string) (m : gmap string Z) : gmap string Z := <[k := wrap64 (default 0 (m !! k) + 1)]> m.

(** ** Helpers *)

Definition toLower_byte (c : ascii) : ascii :=
  let n := nat_of_ascii c in
  if (65 <=? n)%nat && (n <=? 90)%nat then ascii_of_nat (n + 32) else c.
Fixpoint toLowerSimple (s : string) : string :=
  match s with EmptyString => "" | String c s => String (toLower_byte c) (toLowerSimple s) end.

Fixpoint containsSimple (s substr : string) : bool :=
  String.prefix substr s || match s with EmptyString => false | String _ s => containsSimple s substr end.

Definition isProblematicLabel (cfg : CardinalityConfig) (key : string) : bool :=
  let keyLower := toLowerSimple key in
  existsb (λ p, String.eqb keyLower p || containsSimple keyLower p) (ProblematicLabels cfg).

Definition severityForCount (count : Z) (cfg : CardinalityConfig) : string :=
  if CircuitBreakerThreshold cfg <=? count then "critical"
  else if AutoAggregateThreshold cfg <=? count then "warning"
  else "info".

(** [sort.Strings] of the keys, then each with its label. *)
Definition buildSeriesKey (name : string) (labels : gmap string string) : string :=
  foldl (λ key k, key +:+ "|" +:+ k +:+ "=" +:+ default "" (labels !! k)) name
    (merge_sort String.le (map_to_list labels).*1).

(** [d.Minutes()] *)
Definition Minutes (d : Duration) : float64 :=
  f64_add (f64_of_Z (Z.quot d Minute)) (f64_div (f64_of_Z (Z.rem d Minute)) (f64_of_Z 60000000000)).

Section controller.
Context `{!Fmt}.
Context (range : ∀ {A}, nat → gmap string A → list (string * A)).
Context (sort_Slice : ∀ {A}, (A → A → bool) → list A → list A).

(** ** Alerts *)

Definition generateAlert (now : Time) (alert : CardinalityAlert) (c : CardinalityController) : CardinalityController :=
  let alert := mkAlert ("card-" +:+ pretty (wrap64 now)) now (ca_AlertType alert) (ca_Severity alert)
    (ca_MetricName alert) (ca_LabelKey alert) (ca_CurrentValue alert) (ca_Threshold alert) (ca_GrowthRate alert)
    (ca_Message alert) (ca_Action alert) in
  let recent := recentAlerts c ++ [alert] in
  let recent := if maxAlerts c <? Z.of_nat (length recent) then drop 1 recent else recent in
  let s := stats c in
  let c := set_stats (mkStats (s_TotalMetrics s) (s_TotalSeries s) (s_TotalLabelKeys s) (s_HighCardinalityMetrics s)
    (s_QuarantinedMetrics s) (s_BlockedRequests s) (wrap64 (s_AlertsGenerated s + 1))
    (s_CircuitBreakerState s) (s_LastUpdated s)) c in
  set_alerts recent (if alertCallback c then dispatched c ++ [alert] else dispatched c) c.

Definition updateStats (now : Time) (c : CardinalityController) : CardinalityController :=
  let trackers := range _ 4%nat (metricSeries c) in
  let totalSeries := foldl (λ n kt, wrap64 (n + t_TotalSeries kt.2)) 0 trackers in
  let highCard := foldl (λ n kt, if AlertThreshold (config c) <=? t_TotalSeries kt.2 then wrap64 (n + 1) else n) 0 trackers in
  let s := stats c in
  set_stats (mkStats (Z.of_nat (size (metricSeries c))) totalSeries (Z.of_nat (size (globalLabels c))) highCard
    (Z.of_nat (size (quarantined c))) (s_BlockedRequests s) (s_AlertsGenerated s)
    (Some (cb_State (circuitBreaker c))) now) c.

Definition checkRapidGrowth (now : Time) (name : string) (c : CardinalityController) : CardinalityController :=
  match metricSeries c !! name with
  | None => c
  | Some t =>
      let history := t_GrowthHistory t ++ [mkSnapshot now (t_TotalSeries t) f64_zero] in
      let cutoff := now - RapidGrowthWindow (config c) in
      let recent := filter (λ s, After (cs_Timestamp s) cutoff = true) history in
      let c := set_metric name (mkTracker (t_Name t) (t_TotalSeries t) (t_UniqueLabels t) (t_SeriesKeys t) recent
                 (t_FirstSeen t) (t_LastSeen t) (t_Blocked t) (t_AutoAggregated t)) c in
      match recent, last recent with
      | oldest :: _ :: _, Some newest =>
          let duration := time_Sub (cs_Timestamp newest) (cs_Timestamp oldest) in
          let delta := f64_of_Z (wrap64 (cs_TotalSeries newest - cs_TotalSeries oldest)) in
          if (0 <? duration) && (0 <? cs_TotalSeries oldest) then
            let growth := f64_div delta (Minutes duration) in
            let pctGrowth := f64_mul (f64_div delta (f64_of_Z (cs_TotalSeries oldest))) (f64_of_Z 100) in
            if f64_ge pctGrowth (RapidGrowthThreshold (config c)) then
              generateAlert now (mkAlert "" zero_time AlertRapidGrowth "warning" (t_Name t) "" (t_TotalSeries t) 0 growth
                ("Metric " +:+ t_Name t +:+ " growing rapidly: " +:+ fmt_float1 pctGrowth +:+ "% in " +:+
                 fmt_duration (RapidGrowthWindow (config c))) "rapid_growth_detected") c
            else c
          else c
      | _, _ => c
      end
  end.

(** The labels a quarantined metric keeps. *)
Definition allowed_labels (cfg : CardinalityConfig) (t : option MetricSeriesTracker) : list string :=
  match t with
  | Some t => (filter (λ lc, (lc.2 <? 100) && negb (isProblematicLabel cfg lc.1) = true) (range _ 3%nat (t_UniqueLabels t))).*1
  | None => []
  end.

Definition quarantineMetric (now : Time) (name reason : string) (duration : Duration) (c : CardinalityController)
    : CardinalityController :=
  let entry := mkQuarantine name reason now (now + duration) (allowed_labels (config c) (metricSeries c !! name)) true in
  generateAlert now (mkAlert "" zero_time AlertQuarantine "warning" name "" 0 0 f64_zero
    ("Metric " +:+ name +:+ " quarantined for " +:+ fmt_duration duration +:+ ": " +:+ reason) "quarantined")
    (set_quarantined (<[name := entry]> (quarantined c)) c).

(** ** Recording *)

(** An open breaker whose cooldown has passed becomes half open, otherwise it blocks. *)
Definition check_breaker (now : Time) (c : CardinalityController) : CardinalityController * bool :=
  let b := circuitBreaker c in
  if decide (cb_State b = CircuitOpen) then
    if cb_Cooldown b <? Since now (cb_OpenedAt b) then (set_breaker (set_state CircuitHalfOpen b) c, false)
    else (set_breaker (mkBreaker (cb_State b) (cb_TotalSeries b) (cb_OpenedAt b) (cb_Cooldown b) (cb_Threshold b)
            (wrap64 (cb_BlockedCount b + 1))) c, true)
  else (c, false).

Definition keep_allowed (allowed : list string) (labels : gmap string string) : gmap string string :=
  foldl (λ m key, match labels !! key with Some v => <[key := v]> m | None => m end) ∅ allowed.

Definition check_quarantine (now : Time) (name : string) (labels : gmap string string) (c : CardinalityController)
    : CardinalityController * RecordSeriesResult :=
  let accepted := mkResult true "" None false false in
  match quarantined c !! name with
  | None => (c, accepted)
  | Some entry =>
      if Before now (q_ExpiresAt entry) then
        match q_AllowedLabels entry with
        | [] => (block_request c, mkResult false "metric_quarantined" None true false)
        | allowed => (c, mkResult true "" (Some (keep_allowed allowed labels)) true false)
        end
      else (if q_AutoExpire entry then set_quarantined (delete name (quarantined c)) c else c, accepted)
  end.

(** The tracker of a metric, made when there is none. *)
Definition touch_tracker (now : Time) (name : string) (c : CardinalityController) : MetricSeriesTracker :=
  match metricSeries c !! name with
  | Some t => mkTracker (t_Name t) (t_TotalSeries t) (t_UniqueLabels t) (t_SeriesKeys t) (t_GrowthHistory t)
                (t_FirstSeen t) now (t_Blocked t) (t_AutoAggregated t)
  | None => mkTracker name 0 ∅ ∅ [] now now 0 false
  end.

Definition strip_label (now : Time) (name : string) (labels : gmap string string)
    (st : CardinalityController * option (gmap string string)) (key : string)
    : CardinalityController * option (gmap string string) :=
  let '(c, transformed) := st in
  if isProblematicLabel (config c) key then
    match globalLabels c !! key with
    | Some labelTracker =>
        if MaxLabelValues (config c) <=? lt_UniqueValues labelTracker then
          let transformed := match transformed with
            | None => filter (λ kv, kv.1 ≠ key) labels
            | Some m => delete key m
            end in
          (generateAlert now (mkAlert "" zero_time AlertAutoAggregate "warning" name key 0 0 f64_zero
             ("Auto-removed high-cardinality label " +:+ key +:+ " from " +:+ name) "label_removed") c,
           Some transformed)
        else st
    | None => st
    end
  else st.

Definition count_value (now : Time) (name key value : string) (lt : option LabelTracker) : LabelTracker :=
  let lt := default (mkLabelTracker key 0 ∅ ∅ now now) lt in
  let values := incr value (lt_Values lt) in
  mkLabelTracker (lt_Key lt) (Z.of_nat (size values)) values (<[name := true]> (lt_Metrics lt)) (lt_FirstSeen lt) now.

(** One label of a new series. *)
Definition count_label (now : Time) (name : string) (c : CardinalityController) (kv : string * string)
    : CardinalityController :=
  let c := match metricSeries c !! name with
    | Some t => set_metric name (mkTracker (t_Name t) (t_TotalSeries t) (incr kv.1 (t_UniqueLabels t)) (t_SeriesKeys t)
                  (t_GrowthHistory t) (t_FirstSeen t) (t_LastSeen t) (t_Blocked t) (t_AutoAggregated t)) c
    | None => c
    end in
  set_label kv.1 (count_value now name kv.1 kv.2 (globalLabels c !! kv.1)) c.

Definition open_breaker (now : Time) (c : CardinalityController) : CardinalityController :=
  let b := circuitBreaker c in
  let b := mkBreaker (cb_State b) (wrap64 (cb_TotalSeries b + 1)) (cb_OpenedAt b) (cb_Cooldown b) (cb_Threshold b)
             (cb_BlockedCount b) in
  let c := set_breaker b c in
  if negb (bool_decide (cb_State b = CircuitOpen)) && (cb_Threshold b <=? cb_TotalSeries b) then
    generateAlert now (mkAlert "" zero_time AlertCircuitOpen "critical" "" "" (cb_TotalSeries b) (cb_Threshold b) f64_zero
      "Circuit breaker opened due to high total cardinality" "circuit_breaker_opened")
      (set_breaker (mkBreaker CircuitOpen (cb_TotalSeries b) now (cb_Cooldown b) (cb_Threshold b) (cb_BlockedCount b)) c)
  else c.

(** What a new series that is below the limit does. *)
Definition record_new (now : Time) (name key : string) (labels : gmap string string)
    (c : CardinalityController) (transformed : option (gmap string string))
    : CardinalityController * option (gmap string string) :=
  let '(c, transformed) := foldl (strip_label now name labels) (c, transformed) (range _ 0%nat labels).*1 in
  let c := match metricSeries c !! name with
    | Some t => set_metric name (mkTracker (t_Name t) (wrap64 (t_TotalSeries t + 1)) (t_UniqueLabels t)
                  (<[key := now]> (t_SeriesKeys t)) (t_GrowthHistory t) (t_FirstSeen t) (t_LastSeen t)
                  (t_Blocked t) (t_AutoAggregated t)) c
    | None => c
    end in
  let c := foldl (count_label now name) c (range _ 1%nat labels) in
  let c := open_breaker now c in
  let c := checkRapidGrowth now name c in
  let total := from_option t_TotalSeries 0 (metricSeries c !! name) in
  let c := if EnableQuarantine (config c) && (AutoAggregateThreshold (config c) <=? total)
           then quarantineMetric now name "high_cardinality" (1 * Hour) c else c in
  let c := if AlertThreshold (config c) <=? total
           then generateAlert now (mkAlert "" zero_time AlertMetricHigh (severityForCount total (config c)) name "" total
                  (AlertThreshold (config c)) f64_zero
                  ("Metric " +:+ name +:+ " has " +:+ pretty total +:+ " unique series") "alert_generated") c
           else c in
  (c, transformed).

Definition close_half_open (c : CardinalityController) : CardinalityController :=
  if decide (cb_State (circuitBreaker c) = CircuitHalfOpen)
  then set_breaker (set_state CircuitClosed (circuitBreaker c)) c else c.

Definition RecordSeries (now : Time) (name : string) (labels : gmap string string) (c : CardinalityController)
    : CardinalityController * RecordSeriesResult :=
  let '(c, blocked) := check_breaker now c in
  if blocked then (c, mkResult false "circuit_breaker_open" None false true)
  else
    let '(c, res) := check_quarantine now name labels c in
    if negb (r_Accept res) then (c, res)
    else
      let tracker := touch_tracker now name c in
      let c := set_metric name tracker c in
      let key := buildSeriesKey name labels in
      match t_SeriesKeys tracker !! key with
      | Some _ => (close_half_open (updateStats now c), res)
      | None =>
          if MaxSeriesPerMetric (config c) <=? t_TotalSeries tracker then
            let t := tracker in
            let c := set_metric name (mkTracker (t_Name t) (t_TotalSeries t) (t_UniqueLabels t) (t_SeriesKeys t)
                       (t_GrowthHistory t) (t_FirstSeen t) (t_LastSeen t) (wrap64 (t_Blocked t + 1)) (t_AutoAggregated t)) c in
            (block_request c,
             mkResult false ("metric_cardinality_limit_" +:+ pretty (MaxSeriesPerMetric (config c)))
               (r_TransformedLabels res) (r_Quarantined res) false)
          else
            let '(c, transformed) := record_new now name key labels c (r_TransformedLabels res) in
            (close_half_open (updateStats now c), mkResult true "" transformed (r_Quarantined res) false)
      end.

(** ** The other operations *)

Definition GetStats (now : Time) (c : CardinalityController) : CardinalityController * CardinalityStats :=
  let c := updateStats now c in (c, stats c).

Definition SetAlertCallback (c : CardinalityController) : CardinalityController :=
  mkController (config c) (metricSeries c) (globalLabels c) (circuitBreaker c) (quarantined c)
    true (recentAlerts c) (maxAlerts c) (stats c) (dispatched c).

Definition ResetCircuitBreaker (c : CardinalityController) : CardinalityController :=
  let b := circuitBreaker c in
  set_breaker (mkBreaker CircuitClosed (cb_TotalSeries b) (cb_OpenedAt b) (cb_Cooldown b) (cb_Threshold b) 0) c.

Definition UnquarantineMetric (name : string) (c : CardinalityController) : CardinalityController :=
  set_quarantined (delete name (quarantined c)) c.

Definition SetQuarantineRules (name : string) (allowedLabels : list string) (c : CardinalityController)
    : CardinalityController :=
  match quarantined c !! name with
  | Some e => set_quarantined (<[name := mkQuarantine (q_MetricName e) (q_Reason e) (q_QuarantinedAt e) (q_ExpiresAt e)
                allowedLabels (q_AutoExpire e)]> (quarantined c)) c
  | None => c
  end.

Definition GetMetricCardinality (name : string) (c : CardinalityController) : option MetricSeriesTracker := metricSeries c !! name.
Definition GetLabelCardinality (key : string) (c : CardinalityController) : option LabelTracker := globalLabels c !! key.
Definition GetQuarantinedMetrics (c : CardinalityController) : list QuarantineEntry := (range _ 0%nat (quarantined c)).*2.

Definition sorted_metrics (c : CardinalityController) : list MetricSeriesTracker :=
  sort_Slice _ (λ a b, t_TotalSeries b <? t_TotalSeries a) (range _ 0%nat (metricSeries c)).*2.
Definition sorted_labels (c : CardinalityController) : list LabelTracker :=
  sort_Slice _ (λ a b, lt_UniqueValues b <? lt_UniqueValues a) (range _ 1%nat (globalLabels c)).*2.
Definition up_to {A} (limit : Z) (l : list A) : list A :=
  if (0 <? limit) && (limit <? Z.of_nat (length l)) then take (Z.to_nat limit) l else l.
Definition GetTopMetrics (limit : Z) (c : CardinalityController) : list MetricSeriesTracker := up_to limit (sorted_metrics c).
Definition GetTopLabels (limit : Z) (c : CardinalityController) : list LabelTracker := up_to limit (sorted_labels c).
Definition GetRecentAlerts (limit : Z) (c : CardinalityController) : list CardinalityAlert :=
  let limit := if (limit <=? 0) || (Z.of_nat (length (recentAlerts c)) <? limit) then Z.of_nat (length (recentAlerts c))
               else limit in
  lastn (Z.to_nat limit) (recentAlerts c).

(** The dashboard. *)
Record MetricSummary := mkMetricSummary {
  ms_Name : string; ms_TotalSeries : Z; ms_LabelCount : Z; ms_LastSeen : Time; ms_Quarantined : bool; ms_Blocked : Z }.
Record LabelSummary := mkLabelSummary {
  ls_Key : string; ls_UniqueValues : Z; ls_MetricCount : Z; ls_IsProblematic : bool }.
Record CardinalityTrends := mkTrends { GrowingMetrics : list string; StableMetrics : Z; DecliningMetrics : Z }.
Record CardinalityDashboard := mkDashboard {
  d_Stats : CardinalityStats;
  d_CircuitBreaker : CircuitBreaker;
  d_TopMetrics : list MetricSummary;
  d_TopLabels : list LabelSummary;
  d_QuarantinedCount : Z;
  d_RecentAlerts : list CardinalityAlert;
  d_Trends : CardinalityTrends;
}.

Definition getTopMetricsLocked (limit : nat) (c : CardinalityController) : list MetricSummary :=
  (λ m, mkMetricSummary (t_Name m) (t_TotalSeries m) (Z.of_nat (size (t_UniqueLabels m))) (t_LastSeen m)
          (bool_decide (is_Some (quarantined c !! t_Name m))) (t_Blocked m)) <$> take limit (sorted_metrics c).
Definition getTopLabelsLocked (limit : nat) (c : CardinalityController) : list LabelSummary :=
  (λ l, mkLabelSummary (lt_Key l) (lt_UniqueValues l) (Z.of_nat (size (lt_Metrics l)))
          (isProblematicLabel (config c) (lt_Key l))) <$> take limit (sorted_labels c).
Definition getRecentAlertsLocked (limit : nat) (c : CardinalityController) : list CardinalityAlert :=
  lastn limit (recentAlerts c).

Definition trend_of (trends : CardinalityTrends) (nt : string * MetricSeriesTracker) : CardinalityTrends :=
  let stable := mkTrends (GrowingMetrics trends) (wrap64 (StableMetrics trends + 1)) (DecliningMetrics trends) in
  match t_GrowthHistory nt.2, last (t_GrowthHistory nt.2) with
  | oldest :: _ :: _, Some newest =>
      let growth := wrap64 (cs_TotalSeries newest - cs_TotalSeries oldest) in
      if 100 <? growth then mkTrends (GrowingMetrics trends ++ [nt.1]) (StableMetrics trends) (DecliningMetrics trends)
      else if growth <? -10 then mkTrends (GrowingMetrics trends) (StableMetrics trends) (wrap64 (DecliningMetrics trends + 1))
      else stable
  | _, _ => stable
  end.
Definition calculateTrends (c : CardinalityController) : CardinalityTrends :=
  foldl trend_of (mkTrends [] 0 0) (range _ 2%nat (metricSeries c)).

Definition GetDashboardData (c : CardinalityController) : CardinalityDashboard :=
  mkDashboard (stats c) (circuitBreaker c) (getTopMetricsLocked 10 c) (getTopLabelsLocked 10 c)
    (Z.of_nat (size (quarantined c))) (getRecentAlertsLocked 10 c) (calculateTrends c).
End controller.

(** ** What each step keeps *)

(** A walk visits every entry once. *)
Definition walks (range : ∀ A, nat → gmap string A → list (string * A)) : Prop :=
  ∀ A n (m : gmap string A), range A n m ≡ₚ map_to_list m.

Lemma foldl_perm {A B} (R : relation B) `{!Equivalence R} (f : B → A → B) l l' b b' :
  (∀ x b b', R b b' → R (f b x) (f b' x)) → (∀ x y b, R (f (f b x) y) (f (f b y) x)) →
  l ≡ₚ l' → R b b' → R (foldl f b l) (foldl f b' l').
Proof.
  intros Hf Hc Hp. revert b b'.
  assert (Hr : ∀ l b b', R b b' → R (foldl f b l) (foldl f b' l)).
  { clear Hp. intros l0. induction l0 as [|x l0 IH]; intros b b' Hb; cbn; [done|]. by apply IH, Hf. }
  induction Hp as [|x l1 l2 _ IH|x y l1|l1 l2 l3 _ IH1 _ IH2]; intros b b' Hb; cbn; [done| | |].
  - by apply IH, Hf.
  - apply Hr. etrans; [apply Hc|]. by apply Hf, Hf.
  - etrans; [by apply IH1|]. by apply IH2.
Qed.

Lemma incr_comm k k' m : incr k (incr k' m) = incr k' (incr k m).
Proof.
  unfold incr. destruct (decide (k = k')) as [->|Hk]; [done|].
  rewrite !lookup_insert_ne by done. by apply insert_insert_ne.
Qed.

(** Two controllers that differ in the order of alerts and of allowed labels only. *)
Record same_entry (e e' : QuarantineEntry) : Prop := {
  se_name : q_MetricName e = q_MetricName e';
  se_reason : q_Reason e = q_Reason e';
  se_from : q_QuarantinedAt e = q_QuarantinedAt e';
  se_to : q_ExpiresAt e = q_ExpiresAt e';
  se_allowed : q_AllowedLabels e ≡ₚ q_AllowedLabels e';
  se_auto : q_AutoExpire e = q_AutoExpire e';
}.
Definition same_quarantine (m m' : gmap string QuarantineEntry) : Prop :=
  ∀ k, option_Forall2 same_entry (m !! k) (m' !! k).
Record same (c c' : CardinalityController) : Prop := {
  sm_config : config c = config c';
  sm_metrics : metricSeries c = metricSeries c';
  sm_labels : globalLabels c = globalLabels c';
  sm_breaker : circuitBreaker c = circuitBreaker c';
  sm_quarantined : same_quarantine (quarantined c) (quarantined c');
  sm_callback : alertCallback c = alertCallback c';
  sm_recent : length (recentAlerts c) = length (recentAlerts c');
  sm_max : maxAlerts c = maxAlerts c';
  sm_stats : stats c = stats c';
  sm_sent : length (dispatched c) = length (dispatched c');
}.

#[global] Instance same_entry_equiv : Equivalence same_entry.
Proof.
  split.
  - by intros e.
  - intros e e' []. by split.
  - intros e e' e'' [] []. split; etrans; eauto.
Qed.
#[global] Instance same_quarantine_equiv : Equivalence same_quarantine.
Proof.
  split.
  - intros m k. by destruct (m !! k); constructor.
  - intros m m' H k. destruct (H k); constructor. by symmetry.
  - intros m m' m'' H H' k. specialize (H k). specialize (H' k).
    destruct (m !! k), (m' !! k), (m'' !! k); inversion H; inversion H'; subst; constructor. by etrans.
Qed.
#[global] Instance same_equiv : Equivalence same.
Proof.
  split.
  - by intros c.
  - intros c c' []. by split.
  - intros c c' c'' [] []. split; by etrans.
Qed.

(** Closes goals about a field that a step leaves alone. *)
Ltac same_field := first [done | eassumption | congruence].
Ltac solve_same := split; cbn; try same_field.

Lemma same_set_metric name t c c' : same c c' → same (set_metric name t c) (set_metric name t c').
Proof. intros []. solve_same. Qed.
Lemma same_set_label key lt c c' : same c c' → same (set_label key lt c) (set_label key lt c').
Proof. intros []. solve_same. Qed.
Lemma same_set_breaker b c c' : same c c' → same (set_breaker b c) (set_breaker b c').
Proof. intros []. solve_same. Qed.
Lemma same_block_request c c' : same c c' → same (block_request c) (block_request c').
Proof. intros []. solve_same. Qed.

Lemma same_quarantine_insert k e e' m m' :
  same_entry e e' → same_quarantine m m' → same_quarantine (<[k := e]> m) (<[k := e']> m').
Proof.
  intros He Hm j. destruct (decide (j = k)) as [->|Hj].
  - rewrite !lookup_insert_eq. by constructor.
  - rewrite !lookup_insert_ne by done. apply Hm.
Qed.
Lemma same_quarantine_delete k m m' : same_quarantine m m' → same_quarantine (delete k m) (delete k m').
Proof.
  intros Hm j. destruct (decide (j = k)) as [->|Hj].
  - rewrite !lookup_delete_eq. constructor.
  - rewrite !lookup_delete_ne by done. apply Hm.
Qed.
Lemma same_set_quarantined q q' c c' :
  same_quarantine q q' → same c c' → same (set_quarantined q c) (set_quarantined q' c').
Proof. intros Hq []. solve_same. Qed.

Lemma same_size m m' : same_quarantine m m' → size m = size m'.
Proof.
  intros H. rewrite <- !size_dom. f_equal. apply set_eq. intros k. rewrite !elem_of_dom.
  specialize (H k). destruct H; split; intros [? ?]; eauto; done.
Qed.

Section order.
Context {F : Fmt}.
Implicit Types range : ∀ A, nat → gmap string A → list (string * A).

Lemma same_generateAlert now a a' c c' : same c c' → same (generateAlert now a c) (generateAlert now a' c').
Proof.
  intros [H1 H2 H3 H4 H5 H6 H7 H8 H9 H10]. unfold generateAlert. solve_same.
  - rewrite !length_app, H8, H7. cbn. case_match; rewrite ?length_drop, !length_app, H7; done.
  - rewrite H6. case_match; rewrite ?length_app; cbn; congruence.
Qed.

(** Alerts leave the rest alone. *)
Lemma generateAlert_frame now a c :
  let c' := generateAlert now a c in
  config c' = config c ∧ metricSeries c' = metricSeries c ∧ globalLabels c' = globalLabels c ∧
  circuitBreaker c' = circuitBreaker c ∧ quarantined c' = quarantined c ∧ maxAlerts c' = maxAlerts c.
Proof. repeat split. Qed.

Lemma same_updateStats range range' now c c' :
  walks range → walks range' → same c c' → same (updateStats range now c) (updateStats range' now c').
Proof.
  intros Hr Hr' [H1 H2 H3 H4 H5 H6 H7 H8 H9 H10]. unfold updateStats. solve_same.
  assert (Hp : range _ 4%nat (metricSeries c) ≡ₚ range' _ 4%nat (metricSeries c')) by (rewrite (Hr _ _ _), (Hr' _ _ _); by rewrite H2).
  rewrite H1, H2, H3, H4, H9, (same_size _ _ H5). f_equal.
  - apply (foldl_perm eq); [by intros x ? ? ->| |by rewrite H2 in Hp|done].
    intros x y b. cbn. rewrite !wrap64_add_l. f_equal. lia.
  - apply (foldl_perm eq); [by intros x ? ? ->| |by rewrite H2 in Hp|done].
    intros x y b. repeat case_match; done.
Qed.

Lemma same_checkRapidGrowth now name c c' :
  same c c' → same (checkRapidGrowth now name c) (checkRapidGrowth now name c').
Proof.
  intros Hs. unfold checkRapidGrowth. rewrite <- (sm_metrics _ _ Hs), <- (sm_config _ _ Hs).
  destruct (metricSeries c !! name) as [t|]; [|done]. cbn zeta.
  set (recent := filter _ _). destruct recent as [|s1 [|s2 recent]]; [by apply same_set_metric..|].
  destruct (last (s1 :: s2 :: recent)); [|by apply same_set_metric].
  cbn [config set_metric]. rewrite <- (sm_config _ _ Hs).
  repeat case_match; try by apply same_set_metric. by apply same_generateAlert, same_set_metric.
Qed.

Lemma allowed_labels_perm range range' cfg t :
  walks range → walks range' → allowed_labels range cfg t ≡ₚ allowed_labels range' cfg t.
Proof.
  intros Hr Hr'. unfold allowed_labels. destruct t as [t|]; [|done].
  apply fmap_Permutation. by rewrite (Hr _ _ _), (Hr' _ _ _).
Qed.

Lemma same_quarantineMetric range range' now name reason d c c' :
  walks range → walks range' → same c c' →
  same (quarantineMetric range now name reason d c) (quarantineMetric range' now name reason d c').
Proof.
  intros Hr Hr' Hs. unfold quarantineMetric. apply same_generateAlert, same_set_quarantined; [|done].
  apply same_quarantine_insert; [|apply Hs]. rewrite (sm_config _ _ Hs), (sm_metrics _ _ Hs).
  split; cbn; try done. by apply allowed_labels_perm.
Qed.

Lemma keep_allowed_perm allowed allowed' labels :
  allowed ≡ₚ allowed' → keep_allowed allowed labels = keep_allowed allowed' labels.
Proof.
  intros Hp. apply (foldl_perm eq); [by intros x ? ? ->| |done|done].
  intros x y b. destruct (decide (x = y)) as [->|Hxy]; [done|].
  repeat case_match; try done. by apply insert_insert_ne.
Qed.

Lemma same_check_breaker now c c' : same c c' →
  same (check_breaker now c).1 (check_breaker now c').1 ∧ (check_breaker now c).2 = (check_breaker now c').2.
Proof.
  intros Hs. unfold check_breaker. rewrite <- (sm_breaker _ _ Hs).
  repeat case_match; cbn; (split; [|done]); try done; by apply same_set_breaker.
Qed.

Lemma same_check_quarantine now name labels c c' : same c c' →
  same (check_quarantine now name labels c).1 (check_quarantine now name labels c').1 ∧
  (check_quarantine now name labels c).2 = (check_quarantine now name labels c').2.
Proof.
  intros Hs. pose proof (sm_quarantined _ _ Hs) as Hq. unfold check_quarantine.
  pose proof (Hq name) as Hn. destruct Hn as [e e' He|]; [|done].
  rewrite <- (se_to _ _ He), <- (se_auto _ _ He). pose proof (se_allowed _ _ He) as Ha.
  destruct (Before now (q_ExpiresAt e)).
  - destruct (q_AllowedLabels e) as [|a l].
    + apply Permutation_nil in Ha as ->. split; [by apply same_block_request|done].
    + destruct (q_AllowedLabels e') as [|a' l'].
      { by apply Permutation_sym, Permutation_nil in Ha. }
      split; [done|]. cbn [snd]. by rewrite (keep_allowed_perm _ _ labels Ha).
  - split; [|done]. cbn [fst]. case_match; [|done]. apply same_set_quarantined; [|done]. by apply same_quarantine_delete.
Qed.

(** The labels left, and the state up to the order of alerts. *)
Definition same_pair (st st' : CardinalityController * option (gmap string string)) : Prop :=
  same st.1 st'.1 ∧ st.2 = st'.2.
#[local] Instance same_pair_equiv : Equivalence same_pair.
Proof.
  split.
  - by intros [].
  - intros st st' [? ?]. by split.
  - intros st st' st'' [? ?] [? ?]. split; by etrans.
Qed.

Lemma same_strip_label now name labels st st' key :
  same_pair st st' → same_pair (strip_label now name labels st key) (strip_label now name labels st' key).
Proof.
  destruct st as [c m], st' as [c' m']. intros [Hs Hm]. cbn in Hs, Hm. subst m'. unfold strip_label.
  rewrite <- (sm_config _ _ Hs), <- (sm_labels _ _ Hs).
  repeat case_match; (split; [|done]); try done; by apply same_generateAlert.
Qed.

Lemma strip_label_comm now name labels st k k' :
  same_pair (strip_label now name labels (strip_label now name labels st k) k')
            (strip_label now name labels (strip_label now name labels st k') k).
Proof.
  destruct st as [c m]. unfold strip_label.
  destruct (isProblematicLabel (config c) k) eqn:E1; destruct (isProblematicLabel (config c) k') eqn:E2;
    rewrite ?E1, ?E2; try done.
  all: try (destruct (globalLabels c !! k) as [lt|] eqn:E3; rewrite ?E2, ?E3; try done).
  all: try (destruct (globalLabels c !! k') as [lt'|] eqn:E4; rewrite ?E1, ?E3, ?E4; try done).
  all: try (destruct (MaxLabelValues (config c) <=? lt_UniqueValues lt) eqn:E5).
  all: try (destruct (MaxLabelValues (config c) <=? lt_UniqueValues lt') eqn:E6).
  all: cbn [config globalLabels generateAlert set_alerts set_stats]; rewrite ?E1, ?E2, ?E3, ?E4, ?E5, ?E6; try done.
  split; cbn [fst snd]; [by apply same_generateAlert, same_generateAlert|]. f_equal.
  destruct m as [m|]; [apply delete_delete|].
  apply map_eq. intros j. apply option_eq. intros v. rewrite !lookup_delete_Some, !map_lookup_filter_Some. cbn. naive_solver.
Qed.

Lemma same_count_label now name c c' kv : same c c' → same (count_label now name c kv) (count_label now name c' kv).
Proof.
  intros Hs. unfold count_label. rewrite <- (sm_metrics _ _ Hs).
  destruct (metricSeries c !! name); cbn [globalLabels set_metric]; rewrite <- (sm_labels _ _ Hs);
    apply same_set_label; [by apply same_set_metric|done].
Qed.

Lemma count_value_comm now name k v v' lt :
  count_value now name k v' (Some (count_value now name k v lt)) = count_value now name k v (Some (count_value now name k v' lt)).
Proof. destruct lt as [lt|]; unfold count_value; cbn; by rewrite (incr_comm v v'). Qed.

Lemma count_label_comm now name c kv kv' :
  count_label now name (count_label now name c kv) kv' = count_label now name (count_label now name c kv') kv.
Proof.
  destruct kv as [k v], kv' as [k' v']. unfold count_label. cbn [fst snd].
  assert (Hl : ∀ m : gmap string LabelTracker,
    <[k':=count_value now name k' v' (<[k:=count_value now name k v (m !! k)]> m !! k')]> (<[k:=count_value now name k v (m !! k)]> m) =
    <[k:=count_value now name k v (<[k':=count_value now name k' v' (m !! k')]> m !! k)]> (<[k':=count_value now name k' v' (m !! k')]> m)).
  { intros m. destruct (decide (k = k')) as [->|Hk].
    - rewrite !lookup_insert_eq, !insert_insert_eq. by rewrite count_value_comm.
    - rewrite !lookup_insert_ne by done. by apply insert_insert_ne. }
  destruct (metricSeries c !! name) as [t|] eqn:Et; cbn [metricSeries set_metric set_label globalLabels].
  - rewrite !lookup_insert_eq. cbn [t_Name t_TotalSeries t_UniqueLabels t_SeriesKeys t_GrowthHistory t_FirstSeen t_LastSeen t_Blocked t_AutoAggregated].
    unfold set_label, set_metric. cbn. rewrite !insert_insert_eq, (incr_comm k k'). f_equal. apply Hl.
  - rewrite !Et. unfold set_label. cbn. f_equal. apply Hl.
Qed.

Lemma same_open_breaker now c c' : same c c' → same (open_breaker now c) (open_breaker now c').
Proof.
  intros Hs. unfold open_breaker. rewrite <- (sm_breaker _ _ Hs). case_match.
  - by apply same_generateAlert, same_set_breaker, same_set_breaker.
  - by apply same_set_breaker.
Qed.

Lemma same_close_half_open c c' : same c c' → same (close_half_open c) (close_half_open c').
Proof.
  intros Hs. unfold close_half_open. rewrite <- (sm_breaker _ _ Hs). case_match; [by apply same_set_breaker|done].
Qed.

Lemma same_record_new range range' now name key labels c c' m :
  walks range → walks range' → same c c' →
  same_pair (record_new range now name key labels c m) (record_new range' now name key labels c' m).
Proof.
  intros Hr Hr' Hs. unfold record_new.
  assert (Hstrip : same_pair (foldl (strip_label now name labels) (c, m) (range _ 0%nat labels).*1)
                             (foldl (strip_label now name labels) (c', m) (range' _ 0%nat labels).*1)).
  { apply foldl_perm; [apply _|intros; by apply same_strip_label|intros; apply strip_label_comm| |by split].
    apply fmap_Permutation. by rewrite (Hr _ _ _), (Hr' _ _ _). }
  destruct (foldl _ (c, m) _) as [c1 m1], (foldl _ (c', m) _) as [c1' m1']. destruct Hstrip as [H1 Hm]. cbn in H1, Hm. subst m1'.
  split; [|done]. cbn [fst].
  set (c2 := match metricSeries c1 !! name with Some _ => _ | None => _ end).
  set (c2' := match metricSeries c1' !! name with Some _ => _ | None => _ end).
  assert (H2 : same c2 c2').
  { unfold c2, c2'. rewrite <- (sm_metrics _ _ H1). case_match; [by apply same_set_metric|done]. }
  set (c3 := foldl _ c2 _). set (c3' := foldl _ c2' _).
  assert (H3 : same c3 c3').
  { apply foldl_perm; [apply _|intros; by apply same_count_label|intros; by rewrite count_label_comm| |done].
    by rewrite (Hr _ _ _), (Hr' _ _ _). }
  pose proof (same_checkRapidGrowth now name _ _ (same_open_breaker now _ _ H3)) as H4.
  set (c4 := checkRapidGrowth _ _ _) in *. set (c4' := checkRapidGrowth _ _ (open_breaker _ c3')) in *.
  rewrite <- (sm_config _ _ H4), <- (sm_metrics _ _ H4). set (total := from_option _ _ _).
  set (c5 := if _ && _ then _ else c4). set (c5' := if _ && _ then _ else c4').
  assert (H5 : same c5 c5').
  { unfold c5, c5'. case_match; [by apply same_quarantineMetric|done]. }
  rewrite <- (sm_config _ _ H5). case_match; [by apply same_generateAlert|done].
Qed.

Lemma same_RecordSeries range range' now name labels c c' :
  walks range → walks range' → same c c' →
  same (RecordSeries range now name labels c).1 (RecordSeries range' now name labels c').1 ∧
  (RecordSeries range now name labels c).2 = (RecordSeries range' now name labels c').2.
Proof.
  intros Hr Hr' Hs. unfold RecordSeries.
  destruct (same_check_breaker now c c' Hs) as [H1 E1].
  destruct (check_breaker now c) as [c1 b], (check_breaker now c') as [c1' b']. cbn in H1, E1. subst b'.
  destruct b; [done|].
  destruct (same_check_quarantine now name labels c1 c1' H1) as [H2 E2].
  destruct (check_quarantine now name labels c1) as [c2 r], (check_quarantine now name labels c1') as [c2' r'].
  cbn in H2, E2. subst r'. case_match; [done|].
  assert (Et : touch_tracker now name c2 = touch_tracker now name c2').
  { unfold touch_tracker. by rewrite (sm_metrics _ _ H2). }
  rewrite <- Et. set (t := touch_tracker now name c2).
  pose proof (same_set_metric name t _ _ H2) as H3. cbn [config set_metric]. rewrite <- (sm_config _ _ H2).
  repeat case_match.
  - split; [|done]. by apply same_close_half_open, same_updateStats.
  - split; [|done]. by apply same_block_request, same_set_metric.
  - pose proof (same_record_new range range' now name (buildSeriesKey name labels) labels _ _ (r_TransformedLabels r) Hr Hr' H3) as Hn.
    repeat match goal with E : record_new _ _ _ _ _ _ _ = _ |- _ => rewrite E in Hn; clear E end. destruct Hn as [Hn Em].
    cbn in Hn, Em. subst. split; [|done]. by apply same_close_half_open, same_updateStats.
Qed.
End order.

(** ** What recording changes *)

Section effects.
Context {F : Fmt} (range : ∀ A, nat → gmap string A → list (string * A)).

(** Everything but alerts and statistics. *)
Definition frame (c c' : CardinalityController) : Prop :=
  config c' = config c ∧ metricSeries c' = metricSeries c ∧ globalLabels c' = globalLabels c ∧
  circuitBreaker c' = circuitBreaker c ∧ quarantined c' = quarantined c ∧ maxAlerts c' = maxAlerts c.
Definition alerts_bounded (c : CardinalityController) : Prop := Z.of_nat (length (recentAlerts c)) ≤ maxAlerts c.

#[local] Instance frame_preorder : PreOrder frame.
Proof.
  split; [by intros c|]. intros c c' c'' (? & ? & ? & ? & ? & ?) (? & ? & ? & ? & ? & ?). repeat split; congruence.
Qed.

Lemma frame_alert now a c : frame c (generateAlert now a c).
Proof. repeat split. Qed.
Lemma frame_stats now c : frame c (updateStats range now c).
Proof. repeat split. Qed.
Lemma frame_block c : frame c (block_request c).
Proof. repeat split. Qed.

Lemma bounded_alert now a c : 0 ≤ maxAlerts c → alerts_bounded c → alerts_bounded (generateAlert now a c).
Proof.
  unfold alerts_bounded, generateAlert. cbn. intros Hm H. generalize (mkAlert ("card-" +:+ pretty (wrap64 now)) now
    (ca_AlertType a) (ca_Severity a) (ca_MetricName a) (ca_LabelKey a) (ca_CurrentValue a) (ca_Threshold a)
    (ca_GrowthRate a) (ca_Message a) (ca_Action a)); intros x.
  destruct (Z.ltb_spec (maxAlerts c) (Z.of_nat (length (recentAlerts c ++ [x])))); rewrite ?length_drop;
    rewrite length_app in *; cbn in *; lia.
Qed.

Lemma strip_effect now name labels ks c m :
  let st := foldl (strip_label now name labels) (c, m) ks in
  frame c st.1 ∧ (0 ≤ maxAlerts c → alerts_bounded c → alerts_bounded st.1).
Proof.
  revert c m. induction ks as [|k ks IH]; intros c m; cbn [foldl]; [by split|].
  assert (Hk : frame c (strip_label now name labels (c, m) k).1 ∧
    (0 ≤ maxAlerts c → alerts_bounded c → alerts_bounded (strip_label now name labels (c, m) k).1)).
  { unfold strip_label. repeat case_match; (split; [try done; apply frame_alert|try done; apply bounded_alert]). }
  destruct (strip_label now name labels (c, m) k) as [c1 m1]. destruct (IH c1 m1) as [Hf Hb]. destruct Hk as [Hf1 Hb1].
  cbn zeta. cbn in Hf1, Hb1. split; [by etrans|]. intros Hm H.
  apply Hb; [by destruct Hf1 as (_ & _ & _ & _ & _ & ->)|by apply Hb1].
Qed.

(** The fields of a tracker that recording a series does not touch later. *)
Definition tracked (t t' : MetricSeriesTracker) : Prop :=
  t_Name t' = t_Name t ∧ t_TotalSeries t' = t_TotalSeries t ∧ t_SeriesKeys t' = t_SeriesKeys t.

Definition label_ok (key : string) (lt : LabelTracker) : Prop :=
  lt_Key lt = key ∧ lt_UniqueValues lt = Z.of_nat (size (lt_Values lt)) ∧ lt_Values lt ≠ ∅.

(** Changes to one metric and to labels only. *)
Definition changes_metric (name : string) (t : MetricSeriesTracker) (c c' : CardinalityController) : Prop :=
  config c' = config c ∧ circuitBreaker c' = circuitBreaker c ∧
  quarantined c' = quarantined c ∧ maxAlerts c' = maxAlerts c ∧ recentAlerts c' = recentAlerts c ∧
  (∃ t', metricSeries c' = <[name := t']> (metricSeries c) ∧ tracked t t') ∧
  (map_Forall label_ok (globalLabels c) → map_Forall label_ok (globalLabels c')).

Lemma count_label_effect now name c kv t : metricSeries c !! name = Some t →
  changes_metric name t c (count_label now name c kv).
Proof.
  intros Ht. unfold count_label. rewrite Ht. unfold changes_metric. split_and!; try done.
  - eexists. split; [reflexivity|done].
  - cbn. intros Hall. apply map_Forall_insert_2; [|done]. unfold count_value. split; [|split; [done|]].
    + cbn. destruct (globalLabels c !! kv.1) as [lt|] eqn:E; [|done]. apply (Hall kv.1 lt E).
    + cbn. unfold incr. apply insert_non_empty.
Qed.

Lemma count_labels_effect now name kvs c t : metricSeries c !! name = Some t →
  changes_metric name t c (foldl (count_label now name) c kvs).
Proof.
  revert c t. induction kvs as [|kv kvs IH]; intros c t Ht; cbn [foldl].
  - unfold changes_metric. split_and!; try done. exists t. by rewrite insert_id.
  - destruct (count_label_effect now name c kv t Ht) as (? & ? & ? & ? & ? & (t1 & Hm1 & T1) & HL).
    destruct (IH (count_label now name c kv) t1) as (? & ? & ? & ? & ? & (t2 & Hm2 & T2) & HL2).
    { rewrite Hm1. by rewrite lookup_insert_eq. }
    unfold changes_metric. split_and!; try congruence; [|auto]. exists t2. split; [by rewrite Hm2, Hm1, insert_insert_eq|].
    destruct T1 as (? & ? & ?), T2 as (? & ? & ?). repeat split; congruence.
Qed.

(** The breaker after one more series. *)
Definition breaker_after (now : Time) (b b' : CircuitBreaker) : Prop :=
  cb_TotalSeries b' = wrap64 (cb_TotalSeries b + 1) ∧ cb_Cooldown b' = cb_Cooldown b ∧
  cb_Threshold b' = cb_Threshold b ∧
  (if decide (cb_State b = CircuitOpen) then cb_State b' = CircuitOpen
   else if cb_Threshold b <=? cb_TotalSeries b' then cb_State b' = CircuitOpen ∧ cb_OpenedAt b' = now
   else cb_State b' = cb_State b).

Lemma open_breaker_effect now c :
  let c' := open_breaker now c in
  config c' = config c ∧ metricSeries c' = metricSeries c ∧ globalLabels c' = globalLabels c ∧
  quarantined c' = quarantined c ∧ maxAlerts c' = maxAlerts c ∧
  breaker_after now (circuitBreaker c) (circuitBreaker c') ∧
  (0 ≤ maxAlerts c → alerts_bounded c → alerts_bounded c').
Proof.
  unfold open_breaker, breaker_after. cbn [cb_State cb_Threshold cb_TotalSeries].
  destruct (decide (cb_State (circuitBreaker c) = CircuitOpen)) as [Ho|Ho].
  - rewrite (bool_decide_eq_true_2 _ Ho). by repeat split.
  - rewrite (bool_decide_eq_false_2 _ Ho). cbn [negb andb]. destruct (cb_Threshold _ <=? wrap64 _) eqn:E.
    + cbn [circuitBreaker generateAlert set_breaker set_alerts set_stats cb_TotalSeries cb_Threshold cb_Cooldown]. rewrite E.
      repeat split. intros Hm Hb. by apply bounded_alert.
    + cbn [circuitBreaker set_breaker cb_TotalSeries]. rewrite E. by repeat split.
Qed.

Lemma rapid_growth_effect now name c t : metricSeries c !! name = Some t →
  let c' := checkRapidGrowth now name c in
  config c' = config c ∧ globalLabels c' = globalLabels c ∧ circuitBreaker c' = circuitBreaker c ∧
  quarantined c' = quarantined c ∧ maxAlerts c' = maxAlerts c ∧
  (∃ t', metricSeries c' = <[name := t']> (metricSeries c) ∧ tracked t t') ∧
  (0 ≤ maxAlerts c → alerts_bounded c → alerts_bounded c').
Proof.
  intros Ht. unfold checkRapidGrowth. rewrite Ht. cbn zeta. set (recent := filter _ _).
  set (t' := mkTracker _ _ _ _ _ _ _ _ _).
  assert (Hset : ∀ c', c' = set_metric name t' c ∨ (∃ a, c' = generateAlert now a (set_metric name t' c)) →
    config c' = config c ∧ globalLabels c' = globalLabels c ∧ circuitBreaker c' = circuitBreaker c ∧
    quarantined c' = quarantined c ∧ maxAlerts c' = maxAlerts c ∧
    (∃ t', metricSeries c' = <[name := t']> (metricSeries c) ∧ tracked t t') ∧
    (0 ≤ maxAlerts c → alerts_bounded c → alerts_bounded c')).
  { intros c' [->|[a ->]]; split_and!; try done; try (exists t'; by repeat split).
    intros Hm Hb. by apply bounded_alert. }
  destruct recent as [|s1 [|s2 recent']]; [by apply Hset; left..|].
  destruct (last (s1 :: s2 :: recent')); [|by apply Hset; left].
  apply Hset. repeat case_match; eauto.
Qed.

Definition entry_ok (name : string) (e : QuarantineEntry) : Prop := q_MetricName e = name ∧ q_AutoExpire e = true.

Lemma quarantine_effect now name reason d c :
  let c' := quarantineMetric range now name reason d c in
  config c' = config c ∧ metricSeries c' = metricSeries c ∧ globalLabels c' = globalLabels c ∧
  circuitBreaker c' = circuitBreaker c ∧ maxAlerts c' = maxAlerts c ∧
  (map_Forall entry_ok (quarantined c) → map_Forall entry_ok (quarantined c')) ∧
  (0 ≤ maxAlerts c → alerts_bounded c → alerts_bounded c').
Proof.
  unfold quarantineMetric. split_and!; try done.
  - cbn. intros Hq. by apply map_Forall_insert_2.
  - intros Hm Hb. by apply bounded_alert.
Qed.

Lemma record_new_effect now name key labels c m t : metricSeries c !! name = Some t →
  let c' := (record_new range now name key labels c m).1 in
  config c' = config c ∧ maxAlerts c' = maxAlerts c ∧
  (∃ t', metricSeries c' = <[name := t']> (metricSeries c) ∧ t_Name t' = t_Name t ∧
     t_TotalSeries t' = wrap64 (t_TotalSeries t + 1) ∧ t_SeriesKeys t' = <[key := now]> (t_SeriesKeys t)) ∧
  breaker_after now (circuitBreaker c) (circuitBreaker c') ∧
  (map_Forall label_ok (globalLabels c) → map_Forall label_ok (globalLabels c')) ∧
  (map_Forall entry_ok (quarantined c) → map_Forall entry_ok (quarantined c')) ∧
  (0 ≤ maxAlerts c → alerts_bounded c → alerts_bounded c').
Proof.
  intros Ht. unfold record_new.
  pose proof (strip_effect now name labels (range _ 0%nat labels).*1 c m) as Hst.
  destruct (foldl _ (c, m) _) as [c1 m1]. cbn in Hst. destruct Hst as [(Ec1 & Em1 & El1 & Eb1 & Eq1 & Ex1) Hb1].
  rewrite Em1, Ht. set (t2 := mkTracker _ _ _ _ _ _ _ _ _). set (c2 := set_metric name t2 c1). cbn zeta.
  destruct (count_labels_effect now name (range _ 1%nat labels) c2 t2) as (Ec3 & Eb3 & Eq3 & Ex3 & Er3 & (t3 & Em3 & T3) & L3).
  { cbn. by rewrite lookup_insert_eq. }
  set (c3 := foldl _ c2 _) in *.
  destruct (open_breaker_effect now c3) as (Ec4 & Em4 & El4 & Eq4 & Ex4 & B4 & Hb4). set (c4 := open_breaker now c3) in *.
  destruct (rapid_growth_effect now name c4 t3) as (Ec5 & El5 & Eb5 & Eq5 & Ex5 & (t5 & Em5 & T5) & Hb5).
  { rewrite Em4, Em3. by rewrite lookup_insert_eq. }
  set (c5 := checkRapidGrowth now name c4) in *. set (total := from_option _ _ _). cbn [fst].
  set (c6 := if _ && _ then _ else c5).
  assert (H6 : config c6 = config c5 ∧ metricSeries c6 = metricSeries c5 ∧ globalLabels c6 = globalLabels c5 ∧
    circuitBreaker c6 = circuitBreaker c5 ∧ maxAlerts c6 = maxAlerts c5 ∧
    (map_Forall entry_ok (quarantined c5) → map_Forall entry_ok (quarantined c6)) ∧
    (0 ≤ maxAlerts c5 → alerts_bounded c5 → alerts_bounded c6)).
  { unfold c6. case_match; [apply quarantine_effect|by split_and!]. }
  destruct H6 as (Ec6 & Em6 & El6 & Eb6 & Ex6 & Q6 & Hb6).
  assert (H7 : ∀ c', c' = c6 ∨ (∃ a, c' = generateAlert now a c6) → frame c6 c' ∧
    (0 ≤ maxAlerts c6 → alerts_bounded c6 → alerts_bounded c')).
  { intros c' [->|[a ->]]; [done|]. split; [apply frame_alert|apply bounded_alert]. }
  set (c7 := if _ <=? total then _ else c6).
  destruct (H7 c7) as [(Ec7 & Em7 & El7 & Eb7 & Eq7 & Ex7) Hb7]; [unfold c7; case_match; eauto|].
  split; [by rewrite Ec7, Ec6, Ec5, Ec4, Ec3|]. split; [by rewrite Ex7, Ex6, Ex5, Ex4, Ex3|].
  split; [|split; [|split; [|split]]].
  - exists t5. split.
    + rewrite Em7, Em6, Em5, Em4, Em3. unfold c2. cbn. by rewrite !insert_insert_eq, Em1.
    + destruct T3 as (E1 & E2 & E3). destruct T5 as (F1 & F2 & F3). split_and!; cbn in *; congruence.
  - rewrite Eb7, Eb6, Eb5. rewrite Eb3 in B4. cbn in B4. by rewrite Eb1 in B4.
  - rewrite El7, El6, El5, El4. intros HL. apply L3. unfold c2. cbn. by rewrite El1.
  - rewrite Eq7. intros HQ. apply Q6. rewrite Eq5, Eq4, Eq3. unfold c2. cbn. by rewrite Eq1.
  - intros Hm HB. apply Hb7; [rewrite Ex6, Ex5, Ex4, Ex3; cbn; by rewrite Ex1|].
    apply Hb6; [rewrite Ex5, Ex4, Ex3; cbn; by rewrite Ex1|].
    apply Hb5; [rewrite Ex4, Ex3; cbn; by rewrite Ex1|].
    apply Hb4; [rewrite Ex3; cbn; by rewrite Ex1|].
    unfold alerts_bounded. rewrite Er3, Ex3. by apply Hb1.
Qed.
End effects.

(** ** Answers *)

(** The series of a metric, and how many it counts. *)
Definition series (c : CardinalityController) (name : string) : gset string :=
  from_option (λ t, dom (t_SeriesKeys t)) ∅ (metricSeries c !! name).
Definition counted (c : CardinalityController) (name : string) : Z := from_option t_TotalSeries 0 (metricSeries c !! name).

Definition cooling (now : Time) (c : CardinalityController) : Prop :=
  cb_State (circuitBreaker c) = CircuitOpen ∧ Since now (cb_OpenedAt (circuitBreaker c)) ≤ cb_Cooldown (circuitBreaker c).
Definition shut_out (now : Time) (name : string) (c : CardinalityController) : Prop :=
  ∃ e, quarantined c !! name = Some e ∧ now < q_ExpiresAt e ∧ q_AllowedLabels e = [].

Section answers.
Context {F : Fmt} (range : ∀ A, nat → gmap string A → list (string * A)).

Lemma check_breaker_spec now c :
  let '(c', blocked) := check_breaker now c in
  config c' = config c ∧ metricSeries c' = metricSeries c ∧ globalLabels c' = globalLabels c ∧
  quarantined c' = quarantined c ∧ maxAlerts c' = maxAlerts c ∧ recentAlerts c' = recentAlerts c ∧
  cb_TotalSeries (circuitBreaker c') = cb_TotalSeries (circuitBreaker c) ∧
  cb_Threshold (circuitBreaker c') = cb_Threshold (circuitBreaker c) ∧
  (if blocked then cooling now c ∧ cb_State (circuitBreaker c') = CircuitOpen ∧
                   cb_OpenedAt (circuitBreaker c') = cb_OpenedAt (circuitBreaker c) ∧
                   cb_Cooldown (circuitBreaker c') = cb_Cooldown (circuitBreaker c)
   else ¬ cooling now c ∧ cb_State (circuitBreaker c') ≠ CircuitOpen).
Proof.
  unfold check_breaker, cooling. destruct (decide _) as [Ho|Ho]; cbn.
  - destruct (Z.ltb_spec (cb_Cooldown (circuitBreaker c)) (Since now (cb_OpenedAt (circuitBreaker c)))); cbn; split_and!; try done.
    lia.
  - split_and!; try done. by intros [].
Qed.

Lemma check_quarantine_spec now name labels c :
  let '(c', r) := check_quarantine now name labels c in
  config c' = config c ∧ metricSeries c' = metricSeries c ∧ globalLabels c' = globalLabels c ∧
  circuitBreaker c' = circuitBreaker c ∧ maxAlerts c' = maxAlerts c ∧ recentAlerts c' = recentAlerts c ∧
  (map_Forall entry_ok (quarantined c) → map_Forall entry_ok (quarantined c')) ∧
  (r_Accept r = false ↔ shut_out now name c) ∧ r_CircuitOpen r = false.
Proof.
  unfold check_quarantine, shut_out. destruct (quarantined c !! name) as [e|] eqn:E.
  2:{ split_and!; try done. split; [done|]. by intros (? & ? & ?). }
  unfold Before. destruct (Z.ltb_spec now (q_ExpiresAt e)).
  - destruct (q_AllowedLabels e) eqn:Ea; split_and!; try done; split; try done; [by exists e|].
    intros (e' & [= <-] & _ & ?). congruence.
  - assert (Hno : ¬ ∃ e', Some e = Some e' ∧ now < q_ExpiresAt e' ∧ q_AllowedLabels e' = []).
    { intros (e' & [= <-] & ? & _). lia. }
    destruct (q_AutoExpire e); split_and!; try done. intros Hq. by apply map_Forall_delete.
Qed.

Lemma touch_tracker_spec now name c :
  dom (t_SeriesKeys (touch_tracker now name c)) = series c name ∧ t_TotalSeries (touch_tracker now name c) = counted c name.
Proof. unfold touch_tracker, series, counted. by destruct (metricSeries c !! name). Qed.

Lemma close_half_open_spec c :
  let c' := close_half_open c in
  config c' = config c ∧ metricSeries c' = metricSeries c ∧ globalLabels c' = globalLabels c ∧
  quarantined c' = quarantined c ∧ maxAlerts c' = maxAlerts c ∧ recentAlerts c' = recentAlerts c ∧
  cb_TotalSeries (circuitBreaker c') = cb_TotalSeries (circuitBreaker c) ∧
  cb_Threshold (circuitBreaker c') = cb_Threshold (circuitBreaker c) ∧
  cb_State (circuitBreaker c') = if decide (cb_State (circuitBreaker c) = CircuitOpen) then CircuitOpen else CircuitClosed.
Proof.
  unfold close_half_open. destruct (decide (cb_State _ = CircuitHalfOpen)) as [Hh|Hh].
  - cbn. rewrite Hh. by split_and!.
  - split_and!; try done. case_decide; [done|]. by destruct (cb_State (circuitBreaker c)).
Qed.

(** What a call does, by the branch it takes. *)
Inductive outcome (now : Time) (name : string) (key : string) (c c' : CardinalityController) (r : RecordSeriesResult) : Prop :=
| Cooling :
    cooling now c → r_Accept r = false → r_CircuitOpen r = true → metricSeries c' = metricSeries c →
    globalLabels c' = globalLabels c → quarantined c' = quarantined c → recentAlerts c' = recentAlerts c →
    cb_State (circuitBreaker c') = CircuitOpen → cb_OpenedAt (circuitBreaker c') = cb_OpenedAt (circuitBreaker c) →
    cb_Cooldown (circuitBreaker c') = cb_Cooldown (circuitBreaker c) →
    cb_TotalSeries (circuitBreaker c') = cb_TotalSeries (circuitBreaker c) → outcome now name key c c' r
| ShutOut :
    ¬ cooling now c → shut_out now name c → r_Accept r = false → r_CircuitOpen r = false →
    metricSeries c' = metricSeries c → globalLabels c' = globalLabels c → recentAlerts c' = recentAlerts c →
    (map_Forall entry_ok (quarantined c) → map_Forall entry_ok (quarantined c')) →
    cb_TotalSeries (circuitBreaker c') = cb_TotalSeries (circuitBreaker c) → outcome now name key c c' r
| Known :
    ¬ cooling now c → ¬ shut_out now name c → key ∈ series c name → r_Accept r = true → r_CircuitOpen r = false →
    metricSeries c' = <[name := touch_tracker now name c]> (metricSeries c) →
    globalLabels c' = globalLabels c → recentAlerts c' = recentAlerts c →
    (map_Forall entry_ok (quarantined c) → map_Forall entry_ok (quarantined c')) →
    cb_TotalSeries (circuitBreaker c') = cb_TotalSeries (circuitBreaker c) →
    cb_State (circuitBreaker c') = CircuitClosed → outcome now name key c c' r
| Full t :
    ¬ cooling now c → ¬ shut_out now name c → key ∉ series c name → MaxSeriesPerMetric (config c) ≤ counted c name →
    r_Accept r = false → r_CircuitOpen r = false →
    metricSeries c' = <[name := t]> (metricSeries c) → tracked (touch_tracker now name c) t →
    globalLabels c' = globalLabels c → recentAlerts c' = recentAlerts c →
    (map_Forall entry_ok (quarantined c) → map_Forall entry_ok (quarantined c')) →
    cb_TotalSeries (circuitBreaker c') = cb_TotalSeries (circuitBreaker c) → outcome now name key c c' r
| New t :
    ¬ cooling now c → ¬ shut_out now name c → key ∉ series c name → counted c name < MaxSeriesPerMetric (config c) →
    r_Accept r = true → r_CircuitOpen r = false →
    metricSeries c' = <[name := t]> (metricSeries c) → t_Name t = t_Name (touch_tracker now name c) →
    t_TotalSeries t = wrap64 (counted c name + 1) →
    t_SeriesKeys t = <[key := now]> (t_SeriesKeys (touch_tracker now name c)) →
    (map_Forall label_ok (globalLabels c) → map_Forall label_ok (globalLabels c')) →
    (map_Forall entry_ok (quarantined c) → map_Forall entry_ok (quarantined c')) →
    (0 ≤ maxAlerts c → alerts_bounded c → alerts_bounded c') →
    cb_TotalSeries (circuitBreaker c') = wrap64 (cb_TotalSeries (circuitBreaker c) + 1) →
    cb_State (circuitBreaker c') =
      (if cb_Threshold (circuitBreaker c) <=? cb_TotalSeries (circuitBreaker c') then CircuitOpen else CircuitClosed) →
    outcome now name key c c' r.

Lemma RecordSeries_outcome now name labels c :
  let '(c', r) := RecordSeries range now name labels c in
  config c' = config c ∧ maxAlerts c' = maxAlerts c ∧ cb_Threshold (circuitBreaker c') = cb_Threshold (circuitBreaker c) ∧
  outcome now name (buildSeriesKey name labels) c c' r.
Proof.
  unfold RecordSeries. pose proof (check_breaker_spec now c) as Hb.
  destruct (check_breaker now c) as [c1 blocked].
  destruct Hb as (Ec1 & Em1 & El1 & Eq1 & Ex1 & Er1 & Et1 & Eth1 & Hb). destruct blocked.
  { destruct Hb as (Hc & ? & ? & ?). split_and!; try done. by apply Cooling. }
  destruct Hb as [Hcool Hs1]. pose proof (check_quarantine_spec now name labels c1) as Hq.
  destruct (check_quarantine now name labels c1) as [c2 r].
  destruct Hq as (Ec2 & Em2 & El2 & Eb2 & Ex2 & Er2 & Q2 & Hr & Ho).
  assert (Hshut : shut_out now name c1 ↔ shut_out now name c) by (unfold shut_out; by rewrite Eq1).
  rewrite Hshut in Hr. rewrite Eq1 in Q2.
  destruct (r_Accept r) eqn:Ea; cbn [negb].
  2:{ split_and!; [congruence..|]. apply ShutOut; try done; try congruence. by apply Hr. }
  assert (Hns : ¬ shut_out now name c) by (intros H; apply Hr in H; congruence).
  assert (Etr : touch_tracker now name c2 = touch_tracker now name c).
  { unfold touch_tracker. by rewrite Em2, Em1. }
  rewrite Etr. destruct (touch_tracker_spec now name c) as [Hdom Hcnt].
  set (t := touch_tracker now name c) in *. set (key := buildSeriesKey name labels).
  destruct (t_SeriesKeys t !! key) as [seen|] eqn:Ek.
  { destruct (close_half_open_spec (updateStats range now (set_metric name t c2))) as (H1 & H2 & H3 & H4 & H5 & H6 & H7 & H8 & H9).
    cbn in H1, H2, H3, H4, H5, H6, H7, H8, H9. split_and!; [congruence..|].
    apply Known; try done; try congruence.
    - rewrite <- Hdom. by apply elem_of_dom_2 in Ek.
    - by rewrite H2, Em2, Em1.
    - by rewrite H4.
    - rewrite H9. case_decide; congruence. }
  assert (Hnew : key ∉ series c name) by (rewrite <- Hdom; by apply not_elem_of_dom).
  cbn [config set_metric]. rewrite Ec2, Ec1, Hcnt.
  destruct (Z.leb_spec (MaxSeriesPerMetric (config c)) (counted c name)) as [Hle|Hlt].
  { split_and!; [cbn; congruence..|].
    eapply (Full now name key c _ _ (mkTracker (t_Name t) (t_TotalSeries t) (t_UniqueLabels t) (t_SeriesKeys t)
      (t_GrowthHistory t) (t_FirstSeen t) (t_LastSeen t) (wrap64 (t_Blocked t + 1)) (t_AutoAggregated t)));
      try done; cbn; try congruence.
    rewrite insert_insert_eq. by rewrite Em2, Em1, Hcnt. }
  pose proof (record_new_effect range now name key labels (set_metric name t c2) (r_TransformedLabels r) t) as Hn.
  destruct (record_new range now name key labels (set_metric name t c2) (r_TransformedLabels r)) as [c3 m3].
  cbn [fst config metricSeries globalLabels circuitBreaker quarantined maxAlerts set_metric] in Hn. destruct Hn as (Ec3 & Ex3 & (t3 & Em3 & N3 & T3 & K3) & (Bt & Bc & Bth & Bs) & L3 & Q3 & Hb3); [by rewrite lookup_insert_eq|].
  destruct (close_half_open_spec (updateStats range now c3)) as (H1 & H2 & H3 & H4 & H5 & H6 & H7 & H8 & H9).
  cbn in H1, H2, H3, H4, H5, H6, H7, H8, H9. split_and!; [congruence..|].
  eapply New; try done; try congruence.
  - rewrite H2, Em3, insert_insert_eq. by rewrite Em2, Em1.
  - rewrite H3. intros HL. apply L3. by rewrite El2, El1.
  - rewrite H4. auto.
  - unfold alerts_bounded in *. rewrite H5, H6. cbn in Hb3. rewrite Er2, Er1, Ex2, Ex1 in Hb3. auto.
  - rewrite H9, H7. rewrite Eb2 in Bs, Bth. rewrite Eth1 in Bs.
    destruct (decide (cb_State (circuitBreaker c1) = CircuitOpen)); [done|].
    destruct (_ <=? _) eqn:E.
    + destruct Bs as [Bs _]. by rewrite decide_True.
    + rewrite decide_False by congruence. done.
Qed.
End answers.

(** ** Runs of the controller *)

Definition total_series (m : gmap string MetricSeriesTracker) : Z := sum_Z (λ nt, t_TotalSeries nt.2) (map_to_list m).

Lemma total_insert name t m :
  total_series (<[name := t]> m) = total_series m - from_option t_TotalSeries 0 (m !! name) + t_TotalSeries t.
Proof.
  assert (Hnew : ∀ m : gmap string MetricSeriesTracker, m !! name = None → ∀ t, total_series (<[name := t]> m) = t_TotalSeries t + total_series m).
  { intros m' Hm t'. unfold total_series. by rewrite (sum_Z_perm _ _ _ (map_to_list_insert m' name t' Hm)). }
  destruct (m !! name) as [t0|] eqn:E.
  - rewrite <- (insert_id m name t0 E) at 2. rewrite <- (insert_delete_eq m name t), <- (insert_delete_eq m name t0).
    rewrite !Hnew by apply lookup_delete_eq. cbn. lia.
  - rewrite Hnew by done. cbn. lia.
Qed.

Definition tracker_ok (cfg : CardinalityConfig) (name : string) (t : MetricSeriesTracker) : Prop :=
  t_Name t = name ∧ t_TotalSeries t = Z.of_nat (size (t_SeriesKeys t)) ∧
  t_TotalSeries t ≤ Z.max 0 (MaxSeriesPerMetric cfg).

Record wf (cfg : CardinalityConfig) (c : CardinalityController) : Prop := {
  wf_config : config c = cfg;
  wf_max : maxAlerts c = 100;
  wf_threshold : cb_Threshold (circuitBreaker c) = CircuitBreakerThreshold cfg;
  wf_trackers : map_Forall (tracker_ok cfg) (metricSeries c);
  wf_labels : map_Forall label_ok (globalLabels c);
  wf_entries : map_Forall entry_ok (quarantined c);
  wf_total : cb_TotalSeries (circuitBreaker c) = wrap64 (total_series (metricSeries c));
  wf_alerts : alerts_bounded c;
}.

Inductive step {F : Fmt} (c : CardinalityController) : CardinalityController → Prop :=
| step_record range now name labels : walks range → step c (RecordSeries range now name labels c).1
| step_stats range now : walks range → step c (GetStats range now c).1
| step_callback : step c (SetAlertCallback c)
| step_reset : step c (ResetCircuitBreaker c)
| step_unquarantine name : step c (UnquarantineMetric name c)
| step_rules name allowed : step c (SetQuarantineRules name allowed c).

(** A field that is equal to one with the property. *)
Ltac carry :=
  auto; try match goal with E : metricSeries ?c' = metricSeries ?c |- map_Forall _ (metricSeries ?c') => by rewrite E end;
  try match goal with E : globalLabels ?c' = globalLabels ?c |- map_Forall _ (globalLabels ?c') => by rewrite E end;
  try match goal with E : quarantined ?c' = quarantined ?c |- map_Forall _ (quarantined ?c') => by rewrite E end.

Section runs.
Context {F : Fmt}.

Lemma wf_new cfg : wf cfg (NewCardinalityController cfg).
Proof. split; try done. Qed.

Lemma touch_tracker_ok cfg now name c : wf cfg c → tracker_ok cfg name (touch_tracker now name c).
Proof.
  intros Hw. unfold touch_tracker. destruct (metricSeries c !! name) as [t|] eqn:E.
  - apply (wf_trackers _ _ Hw name t E).
  - split; [done|]. split; [done|]. cbn. lia.
Qed.

Lemma wf_RecordSeries cfg range now name labels c :
  in_int64 (MaxSeriesPerMetric cfg) → wf cfg c → wf cfg (RecordSeries range now name labels c).1.
Proof.
  intros Hmax Hw. pose proof (RecordSeries_outcome range now name labels c) as H.
  destruct (RecordSeries range now name labels c) as [c' r]. cbn [fst].
  destruct H as (Ec & Ex & Eth & Ho). pose proof (touch_tracker_ok cfg now name c Hw) as Htt.
  destruct (touch_tracker_spec now name c) as [Hdom Hcnt].
  destruct Hw as [W1 W2 W3 W4 W5 W6 W7 W8]. unfold alerts_bounded in W8.
  assert (Hal : recentAlerts c' = recentAlerts c → alerts_bounded c').
  { intros Hr. unfold alerts_bounded. by rewrite Hr, Ex. }
  assert (Hone : ∀ t, tracked (touch_tracker now name c) t → metricSeries c' = <[name := t]> (metricSeries c) →
    map_Forall (tracker_ok cfg) (metricSeries c') ∧ total_series (metricSeries c') = total_series (metricSeries c)).
  { intros t (T1 & T2 & T3) Hm. rewrite Hm. split.
    - apply map_Forall_insert_2; [|done]. unfold tracker_ok. rewrite T1, T2, T3. exact Htt.
    - rewrite total_insert, T2, Hcnt. unfold counted. lia. }
  destruct Ho as [| |? ? ? ? ? Hm|t ? ? ? ? ? ? Hm|t ? ? ? Hlt ? ? Hm Hn Ht Hk L' Q' A' C' _].
  - split; try congruence; carry.
  - split; try congruence; carry.
  - destruct (Hone (touch_tracker now name c) ltac:(by repeat split) Hm) as [Ha Hb].
    split; try congruence; carry.
  - destruct (Hone t ltac:(done) Hm) as [Ha Hb]. split; try congruence; carry.
  - destruct Htt as (N & T & L). rewrite Hcnt in T, L.
    assert (Hw : wrap64 (counted c name + 1) = counted c name + 1).
    { apply wrap64_id. unfold in_int64, int64_min, int64_max in *. rewrite W1 in Hlt. lia. }
    split; try congruence; carry.
    + rewrite Hm. apply map_Forall_insert_2; [|done]. split; [congruence|]. rewrite Ht, Hw. split.
      * rewrite Hk, map_size_insert_None; [lia|]. apply not_elem_of_dom. by rewrite Hdom.
      * rewrite <- W1. lia.
    + rewrite C', W7, wrap64_add_l, Hm, total_insert, Ht, Hw. f_equal. unfold counted. lia.
    + apply A'; [lia|]. unfold alerts_bounded. lia.
Qed.

Lemma wf_step cfg c c' : in_int64 (MaxSeriesPerMetric cfg) → step c c' → wf cfg c → wf cfg c'.
Proof.
  intros Hmax Hs Hw. destruct Hs as [range now name labels _|range now _| | |name|name allowed].
  - by apply wf_RecordSeries.
  - by destruct Hw.
  - by destruct Hw.
  - by destruct Hw.
  - destruct Hw. split; try done. cbn. by apply map_Forall_delete.
  - unfold SetQuarantineRules. destruct (quarantined c !! name) as [e|] eqn:E; [|done].
    destruct Hw as [W1 W2 W3 W4 W5 W6 W7 W8]. split; try done. cbn. apply map_Forall_insert_2; [|done]. apply (W6 name e E).
Qed.

(** C24: limits. Whatever calls are made and whatever the order of map iteration, a metric
    never has more series than the limit, its counter is the number of its series, the
    breaker's total is the sum of the counters (as a 64-bit integer), a label's counter is
    the number of its values, and no more than a hundred alerts are kept. *)
Theorem limits_are_kept cfg c :
  in_int64 (MaxSeriesPerMetric cfg) → rtc step (NewCardinalityController cfg) c →
  (∀ name t, metricSeries c !! name = Some t →
     t_TotalSeries t = Z.of_nat (size (t_SeriesKeys t)) ∧ t_TotalSeries t ≤ Z.max 0 (MaxSeriesPerMetric cfg)) ∧
  cb_TotalSeries (circuitBreaker c) = wrap64 (total_series (metricSeries c)) ∧
  (∀ key lt, globalLabels c !! key = Some lt → lt_UniqueValues lt = Z.of_nat (size (lt_Values lt))) ∧
  (length (recentAlerts c) ≤ 100)%nat.
Proof.
  intros Hmax Hr. assert (Hw : wf cfg c).
  { revert Hr. generalize (wf_new cfg). generalize (NewCardinalityController cfg). intros c0 H0 Hr.
    induction Hr as [|c0 c1 c2 Hs _ IH]; [done|]. apply IH. by eapply wf_step. }
  destruct Hw as [W1 W2 W3 W4 W5 W6 W7 W8]. split; [|split; [done|split]].
  - intros name t Ht. by destruct (W4 name t Ht) as (_ & ? & ?).
  - intros key lt Hl. by destruct (W5 key lt Hl) as (_ & ? & _).
  - unfold alerts_bounded in W8. lia.
Qed.

(** The answer to a series. It is accepted exactly when the breaker is not cooling
    down, its metric is not shut out by a quarantine without allowed labels, and it is known
    or its metric is below the limit. An accepted series is added to its metric, a rejected one
    is not, no other metric changes; and an accepted series closes the breaker, unless it
    is new and brings the total to the threshold, which opens it. *)
Theorem record_series_answer range now name labels c :
  let key := buildSeriesKey name labels in
  let '(c', r) := RecordSeries range now name labels c in
  (r_Accept r = true ↔ ¬ cooling now c ∧ ¬ shut_out now name c ∧
     (key ∈ series c name ∨ counted c name < MaxSeriesPerMetric (config c))) ∧
  (r_CircuitOpen r = true ↔ cooling now c) ∧
  series c' name = (if r_Accept r then {[key]} else ∅) ∪ series c name ∧
  (∀ other, other ≠ name → metricSeries c' !! other = metricSeries c !! other) ∧
  (r_Accept r = true → cb_State (circuitBreaker c') =
     if bool_decide (key ∉ series c name) && (cb_Threshold (circuitBreaker c) <=? cb_TotalSeries (circuitBreaker c'))
     then CircuitOpen else CircuitClosed).
Proof.
  intros key. pose proof (RecordSeries_outcome range now name labels c) as H. fold key in H.
  destruct (RecordSeries range now name labels c) as [c' r]. destruct H as (_ & _ & _ & Ho).
  destruct (touch_tracker_spec now name c) as [Hdom Hcnt].
  assert (Hins : ∀ t, metricSeries c' = <[name := t]> (metricSeries c) → series c' name = dom (t_SeriesKeys t) ∧
    ∀ other, other ≠ name → metricSeries c' !! other = metricSeries c !! other).
  { intros t Hm. unfold series. rewrite Hm. split; [by rewrite lookup_insert_eq|]. intros o Hn. by rewrite lookup_insert_ne. }
  destruct Ho as [Hc Ha Hco Hm|Hc Hs Ha Hco Hm|Hc Hs Hk Ha Hco Hm ? ? ? ? Hst|t Hc Hs Hk Hle Ha Hco Hm Ht
                 |t Hc Hs Hk Hlt Ha Hco Hm Hn Ht Hkeys ? ? ? ? Hst]; rewrite Ha, Hco.
  - unfold series. rewrite Hm. split_and!; try done; try (split; [done|]); try tauto; set_solver.
  - unfold series. rewrite Hm. split_and!; try done; try (split; [done|]); try tauto; set_solver.
  - destruct (Hins _ Hm) as [Hs' Hoth]. rewrite Hs', Hdom. split_and!; try done; try tauto; [set_solver|].
    intros _. rewrite bool_decide_eq_false_2 by auto. done.
  - destruct (Hins _ Hm) as [Hs' Hoth]. destruct Ht as (_ & _ & Ht). rewrite Hs', Ht, Hdom.
    split_and!; try done; try tauto; [|set_solver]. split; [done|]. intros (_ & _ & [?|?]); [done|lia].
  - destruct (Hins _ Hm) as [Hs' Hoth]. rewrite Hs', Hkeys, dom_insert_L, Hdom. split_and!; try done; try tauto.
    intros _. by rewrite bool_decide_eq_true_2.
Qed.

(** A sequence of requests, each walking maps in an order of its own. *)
Definition request : Type := Time * string * gmap string string.
Inductive answers : CardinalityController → list request → list RecordSeriesResult → CardinalityController → Prop :=
| answers_nil c : answers c [] [] c
| answers_cons range now name labels c c1 r reqs rs c2 :
    walks range → RecordSeries range now name labels c = (c1, r) → answers c1 reqs rs c2 →
    answers c ((now, name, labels) :: reqs) (r :: rs) c2.

(** The random order of Go's map iteration shows nowhere but in the order of alerts and
    of allowed labels. Two runs of the same requests, from the same state and each walking
    its maps in any order, give the same answers and end in the same state up to that. *)
Theorem answers_do_not_depend_on_map_order c c' reqs rs rs' d d' :
  same c c' → answers c reqs rs d → answers c' reqs rs' d' → rs = rs' ∧ same d d'.
Proof.
  intros Hs H. revert c' Hs rs' d'.
  induction H as [c|range now name labels c c1 r reqs rs c2 Hr Hrec _ IH]; intros c' Hs rs' d' H'; inversion H'; subst; [done|].
  match goal with H : walks ?r, E : RecordSeries ?r _ _ _ c' = _ |- _ =>
    destruct (same_RecordSeries range r now name labels c c' Hr H Hs) as [H1 H2]; rewrite Hrec, E in H1, H2 end.
  cbn in H1, H2. subst. destruct (IH _ H1 _ _ ltac:(eassumption)) as [-> ?]. done.
Qed.

(** An open breaker protects the store. While the cooldown of an open breaker lasts,
    whatever is sent is rejected, and no metric, no label and no quarantine changes. *)
Theorem open_breaker_admits_nothing c reqs rs c' :
  cb_State (circuitBreaker c) = CircuitOpen →
  Forall (λ req, Since req.1.1 (cb_OpenedAt (circuitBreaker c)) ≤ cb_Cooldown (circuitBreaker c)) reqs →
  answers c reqs rs c' →
  Forall (λ r, r_Accept r = false ∧ r_CircuitOpen r = true) rs ∧
  metricSeries c' = metricSeries c ∧ globalLabels c' = globalLabels c ∧ quarantined c' = quarantined c ∧
  cb_State (circuitBreaker c') = CircuitOpen.
Proof.
  intros Ho Hall H. revert Ho Hall.
  induction H as [c|range now name labels c c1 r reqs rs c2 Hr Hrec _ IH]; intros Ho Hall; [done|].
  apply Forall_cons in Hall as [Hnow Hall]. cbn in Hnow.
  pose proof (RecordSeries_outcome range now name labels c) as Hout. rewrite Hrec in Hout.
  destruct Hout as (_ & _ & _ & Hout). assert (Hc : cooling now c) by done.
  destruct Hout as [_ Ha Hco Hm Hl Hq Hal Hs Hop Hcd _|Hn|Hn|? Hn|? Hn]; try done.
  rewrite <- Hop, <- Hcd in Hall. destruct (IH Hs Hall) as (? & ? & ? & ? & ?).
  split; [by constructor|]. split_and!; congruence.
Qed.
End runs.

(** ** Keys *)

(** The pairs of a key in its order. *)
Fixpoint render (kvs : list (string * string)) : string :=
  match kvs with [] => "" | (k, v) :: kvs => "|" +:+ (k +:+ ("=" +:+ (v +:+ render kvs))) end.
Definition plain_pair (kv : string * string) : Prop := avoids "=" kv.1 ∧ avoids "|" kv.1 ∧ avoids "|" kv.2.

Lemma render_ends kvs : ends_at "|" (render kvs).
Proof. by destruct kvs as [|[]]. Qed.

Lemma render_inj kvs kvs' : Forall plain_pair kvs → Forall plain_pair kvs' → render kvs = render kvs' → kvs = kvs'.
Proof.
  intros H. revert kvs'. induction H as [|[k v] kvs (Hk & _ & Hv) _ IH]; intros [|[k' v'] kvs'] H' E; try done.
  apply Forall_cons in H' as [(Hk' & _ & Hv') H']. cbn [render] in E. apply app_cancel in E.
  apply (cut_unique "=") in E as [-> E]; try done. apply app_cancel in E.
  apply (cut_unique "|") in E as [-> E]; try done; try apply render_ends. by rewrite (IH kvs').
Qed.

Lemma buildSeriesKey_render name labels : buildSeriesKey name labels = name +:+ render (sorted_pairs labels).
Proof.
  unfold buildSeriesKey, sorted_pairs. generalize (merge_sort String.le (map_to_list labels).*1). intros ks.
  revert name. induction ks as [|k ks IH]; intros name; cbn [foldl fmap list_fmap render]; [by rewrite app_nil_s|].
  rewrite IH. by rewrite !string_app_assoc.
Qed.

(** Keys identify series. When no label's name has a bar or an equals sign and no value
    a bar, two label sets of a metric have the same series key only when they are equal. *)
Theorem series_keys_identify_labels name l1 l2 :
  map_Forall (λ k v, plain_pair (k, v)) l1 → map_Forall (λ k v, plain_pair (k, v)) l2 →
  buildSeriesKey name l1 = buildSeriesKey name l2 → l1 = l2.
Proof.
  intros H1 H2. rewrite !buildSeriesKey_render. intros E%app_cancel.
  assert (Hp : ∀ l, map_Forall (λ k v, plain_pair (k, v)) l → Forall plain_pair (sorted_pairs l)).
  { intros l Hl. apply Forall_forall. intros [k v] Hin%sorted_pairs_elem. by apply Hl. }
  apply render_inj in E; [|by apply Hp..]. apply map_eq. intros k. apply option_eq. intros v.
  by rewrite <- !sorted_pairs_elem, E.
Qed.

(** ** A controller *)

#[local] Instance demo_fmt : Fmt := {|
  fmt_quote := id; fmt_float := λ _, ""; fmt_float1 := λ _, ""; fmt_float2 := λ _, ""; fmt_float6 := λ _, "";
  fmt_duration := λ _, ""; fmt_rfc3339 := λ _, "" |}.
Definition forward (A : Type) (n : nat) (m : gmap string A) : list (string * A) := map_to_list m.
Definition backward (A : Type) (n : nat) (m : gmap string A) : list (string * A) := reverse (map_to_list m).

Lemma forward_walks : walks forward.
Proof. by intros A n m. Qed.
Lemma backward_walks : walks backward.
Proof. intros A n m. apply reverse_Permutation. Qed.

Definition demo_config : CardinalityConfig := {|
  MaxSeriesPerMetric := 3; MaxLabelValues := 1; CircuitBreakerThreshold := 4; CircuitBreakerCooldown := 5 * Minute;
  AlertThreshold := 2; RapidGrowthWindow := 5 * Minute; RapidGrowthThreshold := f64_of_decimal 500 1;
  AutoAggregateThreshold := 2; ProblematicLabels := ["id"; "ip"]; EnableQuarantine := true |}.
Definition user (id : string) : gmap string string := {[ "user_id" := id; "method" := "GET" ]}.
Definition demo_new : CardinalityController := NewCardinalityController demo_config.
Definition demo_requests : list request := [(1, "http", user "a"); (2, "http", user "b"); (3, "http", user "a")].

Lemma limits_are_kept_witness :
  ∃ c, rtc step demo_new c ∧ size (metricSeries c) = 1%nat ∧ map_Forall (λ _ t, t_TotalSeries t ≤ 3) (metricSeries c).
Proof.
  exists (RecordSeries forward 1 "http" (user "a") demo_new).1.
  assert (Hr : rtc step demo_new (RecordSeries forward 1 "http" (user "a") demo_new).1)
    by (apply rtc_once, step_record, forward_walks).
  split; [exact Hr|]. split; [by vm_compute|].
  assert (Hmax : in_int64 (MaxSeriesPerMetric demo_config)) by by vm_compute.
  intros name t Ht. destruct (limits_are_kept demo_config _ Hmax Hr) as (H & _).
  apply (H name t Ht).
Defined.

(** Both runs give the second user without its label. *)
Lemma answers_do_not_depend_on_map_order_witness :
  ∃ rs rs' d d', answers demo_new demo_requests rs d ∧ answers demo_new demo_requests rs' d' ∧ rs = rs' ∧ same d d'.
Proof.
  assert (Hrun : ∀ range, walks range → ∃ rs d, answers demo_new demo_requests rs d).
  { intros range Hr. unfold demo_requests. do 2 eexists. repeat (eapply answers_cons; [exact Hr|apply surjective_pairing|]). constructor. }
  destruct (Hrun _ forward_walks) as (rs & d & H), (Hrun _ backward_walks) as (rs' & d' & H').
  exists rs, rs', d, d'. split; [exact H|]. split; [exact H'|].
  apply (answers_do_not_depend_on_map_order demo_new demo_new demo_requests rs rs' d d'); [reflexivity|exact H|exact H'].
Defined.

Definition open_controller : CardinalityController :=
  set_breaker (mkBreaker CircuitOpen 4 0 (5 * Minute) 4 0) demo_new.

Lemma open_breaker_admits_nothing_witness :
  ∃ rs c', answers open_controller demo_requests rs c' ∧ Forall (λ r, r_Accept r = false ∧ r_CircuitOpen r = true) rs.
Proof.
  assert (Hrun : ∃ rs d, answers open_controller demo_requests rs d).
  { unfold demo_requests. do 2 eexists. repeat (eapply answers_cons; [exact forward_walks|apply surjective_pairing|]). constructor. }
  destruct Hrun as (rs & d & H). exists rs, d. split; [exact H|].
  apply (open_breaker_admits_nothing open_controller demo_requests rs d); [reflexivity| |exact H].
  repeat constructor; by vm_compute.
Defined.

Lemma series_keys_identify_labels_witness : buildSeriesKey "http" (user "a") ≠ buildSeriesKey "http" (user "b").
Proof.
  intros E. assert (Hne : user "a" ≠ user "b") by (intros H; by apply (f_equal (λ m, m !! "user_id")) in H).
  apply Hne, (series_keys_identify_labels "http"); [..|exact E].
  all: apply map_Forall_to_list; vm_compute; repeat constructor; discriminate.
Defined.

(** ** What the controller does otherwise *)

(** A bar in a value: two different label sets have one key. *)
Lemma series_keys_collide :
  let l1 : gmap string string := {[ "a" := "1|b=2" ]} in
  let l2 : gmap string string := {[ "a" := "1"; "b" := "2" ]} in
  l1 ≠ l2 ∧ buildSeriesKey "m" l1 = buildSeriesKey "m" l2.
Proof. split; [|by vm_compute]. intros H. by apply (f_equal (λ m, m !! "b")) in H. Qed.

(** The total never falls, so that a breaker reset by hand opens with the next new series. *)
Lemma reset_breaker_opens_again range now name labels c :
  let c1 := ResetCircuitBreaker c in
  let '(c2, r) := RecordSeries range now name labels c1 in
  in_int64 (cb_TotalSeries (circuitBreaker c)) → cb_TotalSeries (circuitBreaker c) < int64_max →
  cb_Threshold (circuitBreaker c) ≤ cb_TotalSeries (circuitBreaker c) →
  buildSeriesKey name labels ∉ series c name → r_Accept r = true → cb_State (circuitBreaker c2) = CircuitOpen.
Proof.
  intros c1. pose proof (RecordSeries_outcome range now name labels c1) as H.
  destruct (RecordSeries range now name labels c1) as [c2 r]. destruct H as (_ & _ & _ & Ho).
  intros Hint Hmax Hth Hnew Ha. destruct Ho as [| |? ? Hk| |t ? ? ? ? ? ? ? ? ? ? ? ? ? Ht Hs]; try congruence; [done|].
  rewrite Hs, Ht. cbn [circuitBreaker ResetCircuitBreaker set_breaker cb_TotalSeries cb_Threshold c1].
  rewrite wrap64_id by (unfold in_int64, int64_max in *; lia). by replace (_ <=? _) with true by lia.
Qed.

(** The label that is removed from a series is counted all the same, past its limit, and the
    series is kept under its full labels. *)
Lemma removed_label_is_counted :
  let c1 := (RecordSeries forward 1 "http" (user "a") demo_new).1 in
  let '(c2, r) := RecordSeries forward 2 "http" (user "b") c1 in
  r_TransformedLabels r = Some {[ "method" := "GET" ]} ∧
  from_option lt_UniqueValues 0 (globalLabels c2 !! "user_id") = 2 ∧ counted c2 "http" = 2.
Proof. vm_compute. split_and!; reflexivity. Qed.

(** A quarantined metric keeps growing: the quarantine changes the labels of the answer and
    not the key that is counted. *)
Lemma quarantine_does_not_stop_growth :
  let c1 := (RecordSeries forward 1 "http" (user "a") demo_new).1 in
  let c2 := (RecordSeries forward 2 "http" (user "b") c1).1 in
  let '(c3, r) := RecordSeries forward 3 "http" (user "c") c2 in
  is_Some (quarantined c2 !! "http") ∧ r_Quarantined r = true ∧ r_Accept r = true ∧ counted c3 "http" = 3.
Proof. vm_compute. split_and!; [by eexists|reflexivity..]. Qed.

(** Any label that contains the letters of a problematic one is problematic. *)
Lemma problematic_by_substring :
  isProblematicLabel DefaultCardinalityConfig "provider" = true ∧
  isProblematicLabel DefaultCardinalityConfig "description" = true ∧
  isProblematicLabel DefaultCardinalityConfig "method" = false.
Proof. vm_compute. done. Qed.

(** The time of a series is that of its first appearance. *)
Lemma series_time_is_not_updated :
  let c1 := (RecordSeries forward 1 "http" (user "a") demo_new).1 in
  let c2 := (RecordSeries forward 2 "http" (user "a") c1).1 in
  (λ t, t_SeriesKeys t !! buildSeriesKey "http" (user "a")) <$> metricSeries c2 !! "http" = Some (Some 1).
Proof. vm_compute. reflexivity. Qed.
