(* ===== verification/Regex.v ===== *)
(** Regular expressions of package regexp on bytes, as far as the code uses them: whether a
    text has a match. The expressions of the code name ASCII characters, or whole runes by
    their bytes, so that matching bytes is matching runes. *)

From Stdlib Require Import String Ascii.
From stdpp Require Import base option list strings.
From S2P Require Import Prelude.

Inductive regex :=
| REmpty
| RChar (P : ascii → bool)
| RSeq (r1 r2 : regex)
| RAlt (r1 r2 : regex)
| RStar (r : regex)
| RBound.

(** A position in a text: the character before it, and the rest. *)
Definition pos : Type := option ascii * string.

Definition class (lo hi c : ascii) : bool :=
  (nat_of_ascii lo <=? nat_of_ascii c)%nat && (nat_of_ascii c <=? nat_of_ascii hi)%nat.
Definition one_of (s : string) (c : ascii) : bool := existsb (Ascii.eqb c) (list_ascii_of_string s).
Definition digit : ascii → bool := class "0" "9".
Definition letter (c : ascii) : bool := class "a" "z" c || class "A" "Z" c.
(** The classes \s and \w. *)
Definition space : ascii → bool := λ c, existsb (Ascii.eqb c) ["009"; "010"; "012"; "013"; " "]%char.
Definition word (c : ascii) : bool := digit c || letter c || Ascii.eqb c "_".

(** The assertion \b. *)
Definition at_boundary (p : pos) : bool :=
  xorb (from_option word false p.1) (match p.2 with String c _ => word c | EmptyString => false end).

(** A match from a position to another. *)
Inductive Match : regex → pos → pos → Prop :=
| MEmpty p : Match REmpty p p
| MChar P b c s : P c = true → Match (RChar P) (b, String c s) (Some c, s)
| MSeq r1 r2 p q q' : Match r1 p q → Match r2 q q' → Match (RSeq r1 r2) p q'
| MAltL r1 r2 p q : Match r1 p q → Match (RAlt r1 r2) p q
| MAltR r1 r2 p q : Match r2 p q → Match (RAlt r1 r2) p q
| MStar0 r p : Match (RStar r) p p
| MStarS r p q q' : Match r p q → Match (RStar r) q q' → Match (RStar r) p q'
| MBound p : at_boundary p = true → Match RBound p p.

(** The ends of the matches from a position. A round of a star that takes nothing adds
    nothing, so that there are no more rounds than characters. *)
Fixpoint star_ends (ends : pos → list pos) (n : nat) (p : pos) : list pos :=
  p :: match n with
       | O => []
       | S n => concat (star_ends ends n <$> filter (λ q, (String.length q.2 < String.length p.2)%nat) (ends p))
       end.
Fixpoint ends (r : regex) (p : pos) : list pos :=
  match r with
  | REmpty => [p]
  | RChar P => match p.2 with String c s => if P c then [(Some c, s)] else [] | EmptyString => [] end
  | RSeq r1 r2 => concat (ends r2 <$> ends r1 p)
  | RAlt r1 r2 => ends r1 p ++ ends r2 p
  | RStar r => star_ends (ends r) (String.length p.2) p
  | RBound => if at_boundary p then [p] else []
  end.

(** The positions of a text from one on. *)
Fixpoint positions (b : option ascii) (s : string) : list pos :=
  (b, s) :: match s with String c s => positions (Some c) s | EmptyString => [] end.

(** [r.MatchString(s)] *)
Definition MatchString (r : regex) (s : string) : bool :=
  existsb (λ p, match ends r p with [] => false | _ => true end) (positions None s).

(** ** Derived forms *)

Definition RPlus (r : regex) : regex := RSeq r (RStar r).
Definition ROpt (r : regex) : regex := RAlt r REmpty.
Fixpoint RTimes (n : nat) (r : regex) : regex := match n with O => REmpty | S n => RSeq r (RTimes n r) end.
Definition RAtLeast (n : nat) (r : regex) : regex := RSeq (RTimes n r) (RStar r).
Fixpoint RUpTo (n : nat) (r : regex) : regex := match n with O => REmpty | S n => ROpt (RSeq r (RUpTo n r)) end.
Definition RLit (s : string) : regex := foldr (λ c r, RSeq (RChar (Ascii.eqb c)) r) REmpty (list_ascii_of_string s).
Definition RWords (l : list string) : regex :=
  match l with [] => REmpty | w :: ws => foldl (λ r w, RAlt r (RLit w)) (RLit w) ws end.

(** ** The executable matcher finds the matches *)

Lemma ends_shrink r p q : Match r p q → (String.length q.2 ≤ String.length p.2)%nat.
Proof. induction 1; cbn in *; lia. Qed.

Lemma star_ends_sound (e : pos → list pos) r n p q :
  (∀ p q, q ∈ e p → Match r p q) → q ∈ star_ends e n p → Match (RStar r) p q.
Proof.
  intros He. revert p. induction n as [|n IH]; intros p; cbn [star_ends]; rewrite elem_of_cons.
  - intros [->|H%elem_of_nil]; [constructor|done].
  - intros [->|H]; [constructor|]. apply list_elem_of_In, in_concat in H as (l & Hl & Hq).
    apply list_elem_of_In, list_elem_of_fmap in Hl as (p1 & -> & Hp1).
    apply list_elem_of_filter in Hp1 as [_ Hp1]. econstructor; [by apply He|]. by apply IH, list_elem_of_In.
Qed.

Lemma ends_sound r p q : q ∈ ends r p → Match r p q.
Proof.
  revert p q. induction r as [|P|r1 IH1 r2 IH2|r1 IH1 r2 IH2|r IH|]; intros p q; cbn [ends].
  - intros ->%list_elem_of_singleton. constructor.
  - destruct p as [b [|c s]]; cbn; [by intros ?%elem_of_nil|]. destruct (P c) eqn:E; [|by intros ?%elem_of_nil].
    intros ->%list_elem_of_singleton. by constructor.
  - intros H%list_elem_of_In%in_concat. destruct H as (l & Hl & Hq).
    apply list_elem_of_In, list_elem_of_fmap in Hl as (p1 & -> & Hp1). econstructor; [by apply IH1|].
    by apply IH2, list_elem_of_In.
  - intros [H|H]%elem_of_app; [apply MAltL|apply MAltR]; auto.
  - by apply star_ends_sound.
  - destruct (at_boundary p) eqn:E; [|by intros ?%elem_of_nil]. intros ->%list_elem_of_singleton. by constructor.
Qed.

Lemma stay r p q : Match r p q → (String.length p.2 ≤ String.length q.2)%nat → q = p.
Proof.
  induction 1 as [|P b c s HP|r1 r2 p q q' H1 IH1 H2 IH2| | | |r p q q' H1 IH1 H2 IH2|]; cbn; intros Hle; auto; [lia|..].
  all: apply ends_shrink in H1 as ?; apply ends_shrink in H2 as ?; rewrite IH2 by lia; apply IH1; lia.
Qed.

(** Rounds that take nothing can be left out. *)
Lemma star_rounds r p q : Match (RStar r) p q →
  p = q ∨ ∃ p1, Match r p p1 ∧ (String.length p1.2 < String.length p.2)%nat ∧ Match (RStar r) p1 q.
Proof.
  remember (RStar r) as r' eqn:E. induction 1 as [| | | | | |r0 p p1 q H1 _ H2 IH|]; try done; [by left|].
  injection E as ->. destruct (decide (String.length p1.2 < String.length p.2)%nat) as [Hlt|Hge]; [right; by exists p1|].
  assert (p1 = p) as -> by (apply (stay r); [done|lia]). by apply IH.
Qed.

Lemma star_ends_complete e r n p q :
  (∀ p q, Match r p q → q ∈ e p) → (String.length p.2 ≤ n)%nat → Match (RStar r) p q → q ∈ star_ends e n p.
Proof.
  intros He. revert p. induction n as [|n IH]; intros p Hn H; cbn [star_ends]; apply elem_of_cons;
    destruct (star_rounds r p q H) as [->|(p1 & H1 & Hlt & Hs)]; auto; [lia|].
  right. apply list_elem_of_In, in_concat. exists (star_ends e n p1). split.
  - apply list_elem_of_In, list_elem_of_fmap. exists p1. split; [done|]. apply list_elem_of_filter. auto.
  - apply list_elem_of_In, IH; [lia|done].
Qed.

Lemma ends_complete r p q : Match r p q → q ∈ ends r p.
Proof.
  revert p q. induction r as [|P|r1 IH1 r2 IH2|r1 IH1 r2 IH2|r IH|]; intros p q H; cbn [ends].
  - inversion H; subst. by apply list_elem_of_singleton.
  - inversion H as [|? b c s HP| | | | | |]; subst. cbn. rewrite HP. by apply list_elem_of_singleton.
  - inversion H as [| |? ? ? q1 ? H1 H2| | | | |]; subst. apply list_elem_of_In, in_concat. exists (ends r2 q1).
    split; [apply list_elem_of_In, list_elem_of_fmap; by exists q1; split; [|apply IH1]|by apply list_elem_of_In, IH2].
  - inversion H; subst; apply elem_of_app; auto.
  - apply star_ends_complete with r; auto.
  - inversion H as [| | | | | | |? Hb]; subst. rewrite Hb. by apply list_elem_of_singleton.
Qed.

Lemma MatchString_spec r s : MatchString r s = true ↔ ∃ p q, p ∈ positions None s ∧ Match r p q.
Proof.
  unfold MatchString. rewrite existsb_exists. split.
  - intros (p & Hp & He). apply list_elem_of_In in Hp. destruct (ends r p) as [|q l] eqn:E; [done|].
    exists p, q. split; [done|]. apply ends_sound. rewrite E. apply list_elem_of_here.
  - intros (p & q & Hp & Hm). exists p. split; [by apply list_elem_of_In|]. apply ends_complete in Hm.
    destruct (ends r p); [by apply elem_of_nil in Hm|done].
Qed.
