(* ===== verification/Miner.v ===== *)
(** Log reduction (internal/logreduce): a message is cut into tokens (pattern.go) and joins
    the most similar pattern with as many tokens, or begins a new one (miner.go).

    A pattern is shared by the two maps of a miner and by its callers: patterns live in a
    heap, and the maps hold addresses. One operation reads the clock once. A loop over a map
    walks it in the order [range] gives. *)

From Stdlib Require Import String Ascii SpecFloat.
From stdpp Require Import base option list gmap sets strings sorting pretty.
From S2P Require Import Prelude Float64 Bytes Format Regex.
From Stdlib Require Import Permutation.

(** ** Patterns *)

Record Token := mkToken { tk_Value : string; tk_Variable : bool; tk_Position : Z }.

Definition TrendNew : string := "new".
Definition TrendIncreasing : string := "increasing".
Definition TrendStable : string := "stable".
Definition TrendDecreasing : string := "decreasing".
Definition TrendGone : string := "gone".

Record Pattern := mkPattern {
  pt_ID : string;
  pt_Template : string;
  pt_Tokens : list Token;
  pt_SampleMessage : string;
  pt_Count : Z;
  pt_FirstSeen : Time;
  pt_LastSeen : Time;
  pt_Level : string;
  pt_Service : string;
  pt_CountLastHour : Z;
  pt_CountLastDay : Z;
  pt_Trend : string;
  pt_TrendPercent : float64;
  pt_VariableCount : Z;
  pt_Variability : float64;
}.

Record LogEntry := mkLogEntry { le_Timestamp : Time; le_Level : string; le_Service : string; le_Message : string }.

Record PatternMatch := mkPatternMatch {
  pm_PatternID : string; pm_Message : string; pm_Variables : gmap string string; pm_Timestamp : Time;
  pm_Confidence : float64 }.

(** ** Tokens *)

Definition hex (c : ascii) : bool := digit c || class "a" "f" c || class "A" "F" c.
Definition RDigits : regex := RPlus (RChar digit).
Definition RFraction : regex := ROpt (RSeq (RLit ".") RDigits).
Definition between_bounds (r : regex) : regex := RSeq RBound (RSeq r RBound).
Definition RDigits13 : regex := RSeq (RChar digit) (RUpTo 2 (RChar digit)).
Definition path_char (c : ascii) : bool := letter c || digit c || one_of "._-" c.
Definition two_digits : regex := RTimes 2 (RChar digit).

Definition variablePatterns : list (string * regex) := [
  ("UUID", RSeq (RTimes 8 (RChar hex)) (RSeq (RLit "-") (RSeq (RTimes 4 (RChar hex)) (RSeq (RLit "-")
     (RSeq (RTimes 4 (RChar hex)) (RSeq (RLit "-") (RSeq (RTimes 4 (RChar hex)) (RSeq (RLit "-") (RTimes 12 (RChar hex))))))))));
  ("HEX32", between_bounds (RAtLeast 32 (RChar hex)));
  ("IP", between_bounds (RSeq RDigits13 (RSeq (RLit ".") (RSeq RDigits13 (RSeq (RLit ".") (RSeq RDigits13 (RSeq (RLit ".")
     (RSeq RDigits13 (ROpt (RSeq (RLit ":") RDigits))))))))));
  ("TIMESTAMP", RSeq (RTimes 4 (RChar digit)) (RSeq (RLit "-") (RSeq two_digits (RSeq (RLit "-") (RSeq two_digits
     (RSeq (RChar (one_of "T ")) (RSeq two_digits (RSeq (RLit ":") (RSeq two_digits (RSeq (RLit ":") (RSeq two_digits
     (RSeq RFraction (ROpt (RAlt (RLit "Z") (RSeq (RChar (one_of "+-")) (RSeq two_digits (RSeq (ROpt (RLit ":")) two_digits)))))))))))))))));
  ("DURATION", between_bounds (RSeq RDigits (RSeq RFraction (RWords ["ms"; "s"; "m"; "h"; "ns"; bytes_of [194; 181; 115]%nat]))));
  ("BYTES", between_bounds (RSeq RDigits (RSeq RFraction (RSeq (RStar (RChar space)) (RWords ["B"; "KB"; "MB"; "GB"; "TB"; "bytes"])))));
  ("PATH", RPlus (RSeq (RLit "/") (RPlus (RChar path_char))));
  ("URL", RSeq (RLit "http") (RSeq (ROpt (RLit "s")) (RSeq (RLit "://") (RPlus (RChar (λ c, negb (space c)))))));
  ("EMAIL", RSeq (RPlus (RChar (λ c, letter c || digit c || one_of "._%+-" c))) (RSeq (RLit "@")
     (RSeq (RPlus (RChar (λ c, letter c || digit c || one_of ".-" c))) (RSeq (RLit ".") (RAtLeast 2 (RChar letter))))));
  ("NUMBER", between_bounds RDigits)].

(** The delimiters [[\s,;:=\[\]{}()|]+]; the parts between runs of them that are not blank are the
    tokens, so that it does not matter that a run is one delimiter. *)
Definition delimiter (c : ascii) : bool := space c || one_of ",;:=[]{}()|" c.
Fixpoint split_at_delimiters (s : string) : list string :=
  match s with
  | EmptyString => [""]
  | String c s =>
      if delimiter c then "" :: split_at_delimiters s
      else match split_at_delimiters s with part :: parts => String c part :: parts | [] => [String c ""] end
  end.
Definition Tokenize (message : string) : list string :=
  filter (λ p, p ≠ "") (TrimSpace <$> split_at_delimiters message).

Definition star : string := "<*>".

Definition quoted_by (q : ascii) (token : string) : bool :=
  HasPrefix token (String q "") && HasSuffix token (String q "").
Definition NormalizeToken (token : string) : string * bool :=
  if existsb (λ vp, MatchString vp.2 token) variablePatterns then (star, true)
  else if quoted_by "034" token || quoted_by "'" token then (star, true)
  else (token, false).

Definition CreateTemplate (tokens : list string) : string := join " " ((λ t, (NormalizeToken t).1) <$> tokens).

(** The values of the variables, and how many tokens match. *)
Fixpoint match_tokens (ts ms : list string) (variables : gmap string string) (varCount matchCount : Z)
    : option (gmap string string * Z) :=
  match ts, ms with
  | t :: ts, m :: ms =>
      let bound := <["var" +:+ pretty varCount := m]> variables in
      if String.eqb t star then match_tokens ts ms bound (wrap64 (varCount + 1)) (wrap64 (matchCount + 1))
      else if String.eqb t m then match_tokens ts ms variables varCount (wrap64 (matchCount + 1))
      else
        let '(norm, isVar) := NormalizeToken m in
        if isVar && String.eqb t star then match_tokens ts ms bound (wrap64 (varCount + 1)) (wrap64 (matchCount + 1))
        else if String.eqb norm t then match_tokens ts ms variables varCount (wrap64 (matchCount + 1))
        else None
  | _, _ => Some (variables, matchCount)
  end.
Definition MatchPattern (message template : string) : bool * gmap string string * float64 :=
  let msgTokens := Tokenize message in
  let tmplTokens := split_byte " " template in
  if negb (length msgTokens =? length tmplTokens)%nat then (false, ∅, f64_zero)
  else match match_tokens tmplTokens msgTokens ∅ 0 0 with
       | Some (variables, matchCount) =>
           (true, variables, f64_div (f64_of_Z matchCount) (f64_of_Z (Z.of_nat (length tmplTokens))))
       | None => (false, ∅, f64_zero)
       end.

Definition CalculateVariability (template : string) : float64 :=
  let tokens := split_byte " " template in
  let varCount := Z.of_nat (length (filter (λ t, t = star) tokens)) in
  f64_div (f64_of_Z varCount) (f64_of_Z (Z.of_nat (length tokens))).

(** The characters * of a template. *)
Definition countVariables (template : string) : Z :=
  Z.of_nat (length (filter (λ c, c = "*"%char) (list_ascii_of_string template))).

Definition joinTokens (tokens : list string) : string := join " " tokens.

(** ** The miner *)

Record MinerConfig := mkMinerConfig { SimilarityThreshold : float64; MaxChildren : Z; MaxPatterns : Z }.
Definition DefaultMinerConfig : MinerConfig := mkMinerConfig (f64_of_decimal 5 1) 100 10000.

Record Miner := mkMiner {
  heap : list Pattern;
  patterns : gmap string nat;
  lengthIndex : gmap nat (list nat);
  similarityThreshold : float64;
  maxChildren : Z;
  maxPatterns : Z;
  totalProcessed : Z;
  lastUpdate : Time;
}.

Definition NewMiner (config : MinerConfig) : Miner :=
  let threshold := if f64_eq (SimilarityThreshold config) f64_zero then f64_of_decimal 5 1 else SimilarityThreshold config in
  let children := if MaxChildren config =? 0 then 100 else MaxChildren config in
  let most := if MaxPatterns config =? 0 then 10000 else MaxPatterns config in
  mkMiner [] ∅ ∅ threshold children most 0 zero_time.

Definition with_heap (h : list Pattern) (m : Miner) : Miner :=
  mkMiner h (patterns m) (lengthIndex m) (similarityThreshold m) (maxChildren m) (maxPatterns m) (totalProcessed m) (lastUpdate m).
Definition with_maps (ps : gmap string nat) (index : gmap nat (list nat)) (m : Miner) : Miner :=
  mkMiner (heap m) ps index (similarityThreshold m) (maxChildren m) (maxPatterns m) (totalProcessed m) (lastUpdate m).

Definition at_length (n : nat) (m : Miner) : list nat := default [] (lengthIndex m !! n).

(** Fields of a pattern that change. *)
Definition with_seen (count : Z) (first last : Time) (p : Pattern) : Pattern :=
  mkPattern (pt_ID p) (pt_Template p) (pt_Tokens p) (pt_SampleMessage p) count first last (pt_Level p) (pt_Service p)
    (pt_CountLastHour p) (pt_CountLastDay p) (pt_Trend p) (pt_TrendPercent p) (pt_VariableCount p) (pt_Variability p).
Definition with_template (template : string) (tokens : list Token) (p : Pattern) : Pattern :=
  mkPattern (pt_ID p) template tokens (pt_SampleMessage p) (pt_Count p) (pt_FirstSeen p) (pt_LastSeen p) (pt_Level p)
    (pt_Service p) (pt_CountLastHour p) (pt_CountLastDay p) (pt_Trend p) (pt_TrendPercent p)
    (countVariables template) (CalculateVariability template).
Definition with_trend (lastHour : Z) (trend : string) (percent : float64) (p : Pattern) : Pattern :=
  mkPattern (pt_ID p) (pt_Template p) (pt_Tokens p) (pt_SampleMessage p) (pt_Count p) (pt_FirstSeen p) (pt_LastSeen p)
    (pt_Level p) (pt_Service p) lastHour (pt_CountLastDay p) trend percent (pt_VariableCount p) (pt_Variability p).

(** A token of a message fits one of a pattern. *)
Definition fits (tk : Token) (token : string) : bool :=
  tk_Variable tk || String.eqb (tk_Value tk) token || (NormalizeToken token).2.
Definition calculateSimilarity (tokens : list string) (p : Pattern) : float64 :=
  if negb (length tokens =? length (pt_Tokens p))%nat then f64_zero
  else
    let matches := Z.of_nat (length (filter (λ tt, fits tt.1 tt.2 = true) (zip (pt_Tokens p) tokens))) in
    f64_div (f64_of_Z matches) (f64_of_Z (Z.of_nat (length tokens))).

Definition differs (tk : Token) (token : string) : bool := negb (tk_Variable tk) && negb (String.eqb (tk_Value tk) token).
Definition merge_token (tk : Token) (token : string) : Token :=
  if differs tk token then mkToken star true (tk_Position tk) else tk.
Definition mergeTemplate (p : Pattern) (tokens : list string) : Pattern :=
  if negb (length tokens =? length (pt_Tokens p))%nat then p
  else
    let merged := zip_with merge_token (pt_Tokens p) tokens in
    if existsb (λ tt, differs tt.1 tt.2) (zip (pt_Tokens p) tokens)
    then with_template (joinTokens (tk_Value <$> merged)) merged p
    else p.

Definition createTokens (tokens : list string) : list Token :=
  imap (λ i t, let '(norm, isVar) := NormalizeToken t in mkToken norm isVar (Z.of_nat i)) tokens.

(** The most similar candidate that is similar enough, the first of equals. *)
Definition better (h : list Pattern) (threshold : float64) (tokens : list string) (best : option nat * float64) (l : nat)
    : option nat * float64 :=
  match h !! l with
  | Some candidate =>
      let similarity := calculateSimilarity tokens candidate in
      if f64_gt similarity best.2 && f64_ge similarity threshold then (Some l, similarity) else best
  | None => best
  end.
Definition best_match (m : Miner) (tokens : list string) : option nat :=
  (foldl (better (heap m) (similarityThreshold m) tokens) (None, f64_zero) (at_length (length tokens) m)).1.

Section miner.
Context (md5_hex : string → string).
Context (range : ∀ A, gmap string A → list (string * A)).
Context (sort_Slice : ∀ A, (A → A → bool) → list A → list A).

(** The first sixteen digits of the hash. *)
Definition HashTemplate (template : string) : string := String.substring 0 16 (md5_hex template).

(** The least used pattern of those walked so far, and its count. *)
Definition less_used (h : list Pattern) (least : option Pattern * Z) (kl : string * nat) : option Pattern * Z :=
  match h !! kl.2 with
  | Some p => if (least.2 <? 0) || (pt_Count p <? least.2) then (Some p, pt_Count p) else least
  | None => least
  end.
Definition find_least (h : list Pattern) (ps : list (string * nat)) : option Pattern * Z :=
  foldl (less_used h) (None, -1) ps.

(** [append(patterns[:i], patterns[i+1:]...)] at the first pattern with the ID. *)
Fixpoint remove_id (h : list Pattern) (id : string) (ls : list nat) : list nat :=
  match ls with
  | [] => []
  | l :: ls => if decide (pt_ID <$> h !! l = Some id) then ls else l :: remove_id h id ls
  end.

Definition evictPattern (m : Miner) : Miner :=
  match (find_least (heap m) (range _ (patterns m))).1 with
  | Some p =>
      let n := length (pt_Tokens p) in
      with_maps (delete (pt_ID p) (patterns m)) (<[n := remove_id (heap m) (pt_ID p) (at_length n m)]> (lengthIndex m)) m
  | None => m
  end.

Definition new_pattern (id template : string) (tokens : list string) (entry : LogEntry) : Pattern :=
  mkPattern id template (createTokens tokens) (le_Message entry) 1 (le_Timestamp entry) (le_Timestamp entry)
    (le_Level entry) (le_Service entry) 0 0 TrendNew f64_zero (countVariables template) (CalculateVariability template).

(** The pattern an entry joins or begins. *)
Definition Process (now : Time) (entry : LogEntry) (m : Miner) : Miner * option nat :=
  let m := mkMiner (heap m) (patterns m) (lengthIndex m) (similarityThreshold m) (maxChildren m) (maxPatterns m)
             (wrap64 (totalProcessed m + 1)) now in
  let tokens := Tokenize (le_Message entry) in
  let n := length tokens in
  if (n =? 0)%nat then (m, None)
  else match best_match m tokens with
  | Some l =>
      let update p :=
        let first := if Before (le_Timestamp entry) (pt_FirstSeen p) then le_Timestamp entry else pt_FirstSeen p in
        mergeTemplate (with_seen (wrap64 (pt_Count p + 1)) first (le_Timestamp entry) p) tokens in
      (with_heap (alter update l (heap m)) m, Some l)
  | None =>
      let m := if maxPatterns m <=? Z.of_nat (size (patterns m)) then evictPattern m else m in
      let template := CreateTemplate tokens in
      let patternID := HashTemplate template in
      match patterns m !! patternID with
      | Some l =>
          (with_heap (alter (λ p, with_seen (wrap64 (pt_Count p + 1)) (pt_FirstSeen p) (le_Timestamp entry) p) l (heap m)) m,
           Some l)
      | None =>
          let l := length (heap m) in
          (with_maps (<[patternID := l]> (patterns m)) (<[n := at_length n m ++ [l]]> (lengthIndex m))
             (with_heap (heap m ++ [new_pattern patternID template tokens entry]) m), Some l)
      end
  end.

Definition SortPatternsByCount (ps : list Pattern) : list Pattern := sort_Slice _ (λ a b, pt_Count b <? pt_Count a) ps.
Definition stored (m : Miner) : list Pattern := omap (λ kl, heap m !! kl.2) (range _ (patterns m)).
Definition GetPatterns (m : Miner) : list Pattern := SortPatternsByCount (stored m).
Definition GetPattern (id : string) (m : Miner) : option Pattern := patterns m !! id ≫= λ l, heap m !! l.
Definition Export (m : Miner) : list Pattern := GetPatterns m.

Record ReduceResult := mkReduceResult {
  rr_InputCount : Z; rr_PatternCount : Z; rr_Reduction : float64; rr_Patterns : list Pattern; rr_Unmatched : Z }.

Definition process_one (now : Time) (st : Miner * gmap string Z * Z) (entry : LogEntry) : Miner * gmap string Z * Z :=
  let '(m, counts, unmatched) := st in
  let '(m, l) := Process now entry m in
  match l ≫= λ l, heap m !! l with
  | Some p => (m, <[pt_ID p := wrap64 (default 0 (counts !! pt_ID p) + 1)]> counts, unmatched)
  | None => (m, counts, wrap64 (unmatched + 1))
  end.
Definition ProcessBatch (now : Time) (entries : list LogEntry) (m : Miner) : Miner * ReduceResult :=
  let '(m, counts, unmatched) := foldl (process_one now) (m, ∅, 0) entries in
  let patternCount := Z.of_nat (size counts) in
  let input := Z.of_nat (length entries) in
  (m, mkReduceResult input patternCount
        (if 0 <? patternCount then f64_div (f64_of_Z input) (f64_of_Z patternCount) else f64_zero)
        (GetPatterns m) unmatched).

(** The first candidate with the highest confidence. *)
Definition match_better (h : list Pattern) (message : string)
    (best : option (Pattern * gmap string string) * float64) (l : nat) : option (Pattern * gmap string string) * float64 :=
  match h !! l with
  | Some candidate =>
      let '(matches, vars, confidence) := MatchPattern message (pt_Template candidate) in
      if matches && f64_gt confidence best.2 then (Some (candidate, vars), confidence) else best
  | None => best
  end.
Definition Miner_Match (now : Time) (message : string) (m : Miner) : option PatternMatch :=
  match foldl (match_better (heap m) message) (None, f64_zero) (at_length (length (Tokenize message)) m) with
  | (Some (p, vars), confidence) => Some (mkPatternMatch (pt_ID p) message vars now confidence)
  | (None, _) => None
  end.

Definition Search (query : string) (m : Miner) : list Pattern :=
  let queryLower := ToLower query in
  SortPatternsByCount (filter (λ p, Contains (ToLower (pt_Template p)) queryLower ||
    Contains (ToLower (pt_SampleMessage p)) queryLower = true) (stored m)).

Definition Clear (m : Miner) : Miner :=
  mkMiner (heap m) ∅ ∅ (similarityThreshold m) (maxChildren m) (maxPatterns m) 0 (lastUpdate m).

(** The patterns of the caller are new objects. *)
Definition import_one (m : Miner) (p : Pattern) : Miner :=
  let l := length (heap m) in
  let n := length (pt_Tokens p) in
  with_maps (<[pt_ID p := l]> (patterns m)) (<[n := at_length n m ++ [l]]> (lengthIndex m)) (with_heap (heap m ++ [p]) m).
Definition Import (ps : list Pattern) (m : Miner) : Miner := foldl import_one m ps.

(** ** Trends *)

(** [d.Hours()] *)
Definition Hours (d : Duration) : float64 :=
  f64_add (f64_of_Z (Z.quot d Hour)) (f64_div (f64_of_Z (Z.rem d Hour)) (f64_of_Z 3600000000000)).

Definition update_trend (now : Time) (lastHour : Z) (p : Pattern) : Pattern :=
  let hourAgo := now - Hour in
  if After (pt_FirstSeen p) hourAgo then with_trend lastHour TrendNew (f64_of_Z 100) p
  else if (lastHour =? 0) && Before (pt_LastSeen p) hourAgo then with_trend lastHour TrendGone (f64_of_Z (-100)) p
  else
    let avgPerHour := f64_div (f64_of_Z (pt_Count p)) (Hours (Since now (pt_FirstSeen p))) in
    if f64_gt avgPerHour f64_zero then
      let change := f64_mul (f64_div (f64_sub (f64_of_Z lastHour) avgPerHour) avgPerHour) (f64_of_Z 100) in
      with_trend lastHour
        (if f64_gt change (f64_of_Z 50) then TrendIncreasing
         else if f64_lt change (f64_of_Z (-50)) then TrendDecreasing else TrendStable) change p
    else with_trend lastHour (pt_Trend p) (pt_TrendPercent p) p.
Definition UpdateTrends (now : Time) (hourlyCountGetter : string → Z) (m : Miner) : Miner :=
  with_heap (foldl (λ h kl, alter (λ p, update_trend now (hourlyCountGetter (pt_ID p)) p) kl.2 h)
               (heap m) (range _ (patterns m))) m.

Definition trendOrder (trend : string) : Z :=
  if String.eqb trend TrendIncreasing then 1 else if String.eqb trend TrendStable then 2
  else if String.eqb trend TrendDecreasing then 3 else if String.eqb trend TrendGone then 4 else 0.
Definition SortPatternsByTrend (ps : list Pattern) : list Pattern :=
  sort_Slice _ (λ a b, if negb (trendOrder (pt_Trend a) =? trendOrder (pt_Trend b))
                       then trendOrder (pt_Trend a) <? trendOrder (pt_Trend b) else pt_Count b <? pt_Count a) ps.
Definition FilterPatternsByLevel (ps : list Pattern) (level : string) : list Pattern := filter (λ p, pt_Level p = level) ps.
Definition FilterPatternsByService (ps : list Pattern) (service : string) : list Pattern :=
  filter (λ p, pt_Service p = service) ps.
Definition GetTopPatterns (ps : list Pattern) (n : Z) : result (list Pattern) :=
  let sorted := SortPatternsByCount ps in
  let n := if Z.of_nat (length sorted) <? n then Z.of_nat (length sorted) else n in
  if n <? 0 then Panic "slice bounds out of range" else Ok (take (Z.to_nat n) sorted).
Definition GetNewPatterns (now : Time) (ps : list Pattern) (since : Duration) : list Pattern :=
  SortPatternsByCount (filter (λ p, After (pt_FirstSeen p) (now - since) = true) ps).
Definition GetTrendingPatterns (ps : list Pattern) : list Pattern :=
  sort_Slice _ (λ a b, f64_gt (pt_TrendPercent a) (pt_TrendPercent b))
    (filter (λ p, pt_Trend p = TrendIncreasing ∨ pt_Trend p = TrendNew) ps).

(** ** Statistics *)

Record PatternStats := mkPatternStats {
  ps_TotalPatterns : Z; ps_TotalLogs : Z; ps_NewPatterns : Z; ps_TopPatterns : list Pattern; ps_TrendingUp : list Pattern;
  ps_ByLevel : gmap string Z; ps_ByService : gmap string Z; ps_CoveragePercent : float64 }.

Definition tally (key : string) (m : gmap string Z) : gmap string Z :=
  if String.eqb key "" then m else <[key := wrap64 (default 0 (m !! key) + 1)]> m.
Definition GetStats (now : Time) (m : Miner) : PatternStats :=
  let ps := stored m in
  let hourAgo := now - Hour in
  let totalCount := foldl (λ n p, wrap64 (n + pt_Count p)) 0 ps in
  let sorted := GetPatterns m in
  mkPatternStats (Z.of_nat (size (patterns m))) (totalProcessed m)
    (Z.of_nat (length (filter (λ p, After (pt_FirstSeen p) hourAgo = true) ps)))
    (take 10 sorted) (take 5 (GetTrendingPatterns sorted))
    (foldl (λ t p, tally (pt_Level p) t) ∅ ps) (foldl (λ t p, tally (pt_Service p) t) ∅ ps)
    (if 0 <? totalProcessed m
     then f64_mul (f64_div (f64_of_Z totalCount) (f64_of_Z (totalProcessed m))) (f64_of_Z 100) else f64_zero).
End miner.

Example tokens_of_a_line : Tokenize "user=42 logged in: 10.0.0.1" = ["user"; "42"; "logged"; "in"; "10.0.0.1"].
Proof. vm_compute. reflexivity. Qed.
Example template_of_a_line : CreateTemplate (Tokenize "user=42 took 3.5ms at /var/log/x") = "user <*> took <*> at <*>".
Proof. vm_compute. reflexivity. Qed.

(** ** Tokens of a message *)

Definition plain (t : string) : Prop := t ≠ "" ∧ all_chars (λ c, delimiter c = false) t.

Lemma split_at_delimiters_plain s : Forall (all_chars (λ c, delimiter c = false)) (split_at_delimiters s).
Proof.
  induction s as [|c s IH]; cbn; [repeat constructor|]. destruct (delimiter c) eqn:E; [constructor; [constructor|done]|].
  destruct (split_at_delimiters s) as [|p ps]; [repeat constructor; done|].
  apply Forall_cons in IH as [? ?]. constructor; [|done]. by apply all_chars_cons.
Qed.

Lemma Tokenize_plain s : Forall plain (Tokenize s).
Proof.
  apply Forall_forall. intros t [Ht Hin]%list_elem_of_filter. split; [done|].
  apply list_elem_of_fmap in Hin as (p & -> & Hp). apply all_chars_TrimSpace.
  pose proof (split_at_delimiters_plain s) as H. rewrite Forall_forall in H. by apply H.
Qed.

Lemma all_chars_impl (P Q : ascii → Prop) s : (∀ c, P c → Q c) → all_chars P s → all_chars Q s.
Proof. unfold all_chars. intros H Hs. eapply Forall_impl; [exact Hs|exact H]. Qed.

Lemma plain_no_space t : plain t → all_chars (λ c, c ≠ " "%char) t.
Proof. intros [_ H]. eapply all_chars_impl; [|exact H]. by intros c Hc ->. Qed.
Lemma star_plain : plain star.
Proof. split; [done|]. repeat constructor. Qed.
Lemma NormalizeToken_plain t : plain t → plain (NormalizeToken t).1.
Proof. intros H. unfold NormalizeToken. repeat case_match; try done; apply star_plain. Qed.

(** A normalised token is a star, or the token itself. *)
Lemma NormalizeToken_cases t : (NormalizeToken t = (star, true)) ∨ NormalizeToken t = (t, false).
Proof. unfold NormalizeToken. repeat case_match; auto. Qed.

Lemma createTokens_lookup tokens i :
  createTokens tokens !! i = (λ t, mkToken (NormalizeToken t).1 (NormalizeToken t).2 (Z.of_nat i)) <$> tokens !! i.
Proof. unfold createTokens. rewrite list_lookup_imap. destruct (tokens !! i) as [t|]; cbn; [|done]. by destruct (NormalizeToken t). Qed.

Lemma createTokens_length tokens : length (createTokens tokens) = length tokens.
Proof. apply length_imap. Qed.

Lemma createTokens_values tokens : tk_Value <$> createTokens tokens = (λ t, (NormalizeToken t).1) <$> tokens.
Proof.
  apply list_eq. intros i. rewrite !list_lookup_fmap, createTokens_lookup. by destruct (tokens !! i).
Qed.

(** Every token of the message is under a variable or equal. *)
Definition covers (tks : list Token) (ts : list string) : Prop :=
  Forall2 (λ tk t, tk_Variable tk = true ∨ tk_Value tk = t) tks ts.
(** Tokens that may have become variables. *)
Definition generalises (tks old : list Token) : Prop :=
  Forall2 (λ tk tk0, tk_Variable tk = true ∨ tk = tk0) tks old.

#[global] Instance generalises_preorder : PreOrder generalises.
Proof.
  split.
  - intros l. apply Forall_Forall2_diag, Forall_forall. auto.
  - intros a b c H. revert c. induction H as [|x y a b Hxy _ IH]; intros c Hc; inversion Hc as [|? z ? c' Hyz Hc']; subst; [constructor|].
    constructor; [|by apply IH]. destruct Hxy as [?| ->]; auto.
Qed.

Lemma covers_generalises tks old ts : generalises tks old → covers old ts → covers tks ts.
Proof.
  intros H. revert ts. induction H as [|x y a b Hxy _ IH]; intros ts Hc; inversion Hc as [|? t ? ts' Hy Hts]; subst; [constructor|].
  constructor; [|by apply IH]. destruct Hxy as [?| ->]; auto.
Qed.

Lemma merge_generalises tks ts : length tks = length ts →
  generalises (zip_with merge_token tks ts) tks ∧ covers (zip_with merge_token tks ts) ts.
Proof.
  revert ts. induction tks as [|tk tks IH]; intros [|t ts] Hl; try done; [split; constructor|].
  injection Hl as Hl. destruct (IH ts Hl) as [Hg Hc]. cbn.
  assert (Hm : (tk_Variable (merge_token tk t) = true ∨ merge_token tk t = tk) ∧
    (tk_Variable (merge_token tk t) = true ∨ tk_Value (merge_token tk t) = t)).
  { unfold merge_token, differs. destruct (tk_Variable tk) eqn:Ev; cbn; [by auto|].
    destruct (String.eqb_spec (tk_Value tk) t); cbn; auto. }
  split; constructor; by try apply Hm.
Qed.

Lemma no_difference_merge tks ts : length tks = length ts →
  existsb (λ tt, differs tt.1 tt.2) (zip tks ts) = false → zip_with merge_token tks ts = tks.
Proof.
  revert ts. induction tks as [|tk tks IH]; intros [|t ts] Hl; try done. injection Hl as Hl.
  cbn. rewrite orb_false_iff. intros [Hd Ht]. rewrite IH by done. unfold merge_token. by rewrite Hd.
Qed.

Lemma mergeTemplate_tokens p ts : length ts = length (pt_Tokens p) →
  pt_Tokens (mergeTemplate p ts) = zip_with merge_token (pt_Tokens p) ts.
Proof.
  intros Hl. unfold mergeTemplate. rewrite Hl, Nat.eqb_refl. cbn [negb]. case_match eqn:E; [done|].
  by rewrite no_difference_merge.
Qed.

Lemma mergeTemplate_kept p ts :
  pt_ID (mergeTemplate p ts) = pt_ID p ∧ pt_Count (mergeTemplate p ts) = pt_Count p.
Proof. unfold mergeTemplate. by repeat case_match. Qed.

(** ** Well-formed patterns *)

Section proofs.
Context (md5_hex : string → string).
Notation HashTemplate := (HashTemplate md5_hex).

Definition tokens_ok (tks : list Token) : Prop :=
  tks ≠ [] ∧ Forall (λ tk, plain (tk_Value tk) ∧ (tk_Variable tk = true → tk_Value tk = star)) tks.
(** The template is the tokens, and they generalise those of a message seen, whose hash is
    the identifier. *)
Definition wf_pattern (seen : gset string) (p : Pattern) : Prop :=
  tokens_ok (pt_Tokens p) ∧ pt_Template p = join " " (tk_Value <$> pt_Tokens p) ∧
  pt_VariableCount p = countVariables (pt_Template p) ∧ pt_Variability p = CalculateVariability (pt_Template p) ∧
  ∃ ts, Forall plain ts ∧ generalises (pt_Tokens p) (createTokens ts) ∧ pt_ID p = HashTemplate (CreateTemplate ts) ∧
    CreateTemplate ts ∈ seen.

Lemma createTokens_ok ts : ts ≠ [] → Forall plain ts → tokens_ok (createTokens ts).
Proof.
  intros Hne Hp. split.
  - intros H. apply (f_equal length) in H. rewrite createTokens_length in H. by destruct ts.
  - apply Forall_lookup. intros i tk Hi. rewrite createTokens_lookup in Hi.
    destruct (ts !! i) as [t|] eqn:Et; [|done]. injection Hi as <-. rewrite Forall_lookup in Hp.
    cbn. split; [by apply NormalizeToken_plain, (Hp i)|]. by destruct (NormalizeToken_cases t) as [-> | ->].
Qed.

Lemma new_pattern_wf seen ts entry : ts ≠ [] → Forall plain ts → CreateTemplate ts ∈ seen →
  wf_pattern seen (new_pattern (HashTemplate (CreateTemplate ts)) (CreateTemplate ts) ts entry).
Proof.
  intros Hne Hp Hin. split; [by apply createTokens_ok|]. split_and!; try done.
  - cbn. unfold CreateTemplate. by rewrite createTokens_values.
  - exists ts. by split_and!.
Qed.

Lemma merge_ok tks ts : tokens_ok tks → length tks = length ts → tokens_ok (zip_with merge_token tks ts).
Proof.
  intros [Hne Hall] Hl. split.
  - destruct tks, ts; try done.
  - clear Hne. revert ts Hl. induction Hall as [|tk tks Htk Hall IH]; intros [|t ts] Hl; try done.
    injection Hl as Hl. constructor; [|by apply IH]. unfold merge_token. case_match; [|done]. split; [apply star_plain|done].
Qed.

Lemma mergeTemplate_wf seen p ts :
  length ts = length (pt_Tokens p) → wf_pattern seen p → wf_pattern seen (mergeTemplate p ts).
Proof.
  intros Hl (Hok & Ht & Hc & Hv & bs & Hb & Hg & Hid & Hin). unfold mergeTemplate. rewrite Hl, Nat.eqb_refl. cbn [negb].
  case_match; [|by split_and!; eauto]. split; [by apply merge_ok|]. split_and!; try done.
  exists bs. split_and!; try done. etrans; [by apply merge_generalises|done].
Qed.

(** ** Similarity *)

(** A message whose normal form is the pattern's birth certificate is as similar as can be. *)
Lemma filter_true_length {A} (P : A → Prop) `{∀ x, Decision (P x)} l : Forall P l → length (filter P l) = length l.
Proof. induction 1 as [|x l Hx _ IH]; [done|]. rewrite filter_cons_True by done. cbn. by rewrite IH. Qed.

Lemma similarity_full p ts : ts ≠ [] → Z.of_nat (length ts) < 2 ^ 53 →
  Forall2 (λ tk t, fits tk t = true) (pt_Tokens p) ts → calculateSimilarity ts p = f64_of_Z 1.
Proof.
  intros Hne Hlt H. unfold calculateSimilarity. pose proof (Forall2_length _ _ _ H) as Hl.
  rewrite <- Hl, Nat.eqb_refl. cbn [negb]. rewrite filter_true_length.
  - rewrite length_zip_with, <- Hl, Nat.min_id. apply f64_div_self. rewrite Hl. destruct ts; [done|]. cbn in *. lia.
  - clear Hne Hlt Hl. induction H; cbn; constructor; auto.
Qed.

Lemma CreateTemplate_inj ts ts' : ts ≠ [] → ts' ≠ [] → Forall plain ts → Forall plain ts' →
  CreateTemplate ts = CreateTemplate ts' → (λ t, (NormalizeToken t).1) <$> ts = (λ t, (NormalizeToken t).1) <$> ts'.
Proof.
  assert (Hs : ∀ ts, ts ≠ [] → Forall plain ts → split_byte " " (CreateTemplate ts) = (λ t, (NormalizeToken t).1) <$> ts).
  { intros l Hne Hp. unfold CreateTemplate. change " "%string with (String " " ""). apply split_join; [by destruct l|].
    apply Forall_fmap. eapply Forall_impl; [exact Hp|]. intros t Ht. by apply plain_no_space, NormalizeToken_plain. }
  intros H1 H2 H3 H4 E. by rewrite <- !Hs, E.
Qed.

Lemma birth_fits tks bs ts : generalises tks (createTokens bs) →
  (λ t, (NormalizeToken t).1) <$> ts = (λ t, (NormalizeToken t).1) <$> bs → Forall2 (λ tk t, fits tk t = true) tks ts.
Proof.
  intros Hg E. assert (Hl : length ts = length bs).
  { apply (f_equal length) in E. by rewrite !length_fmap in E. }
  apply Forall2_same_length_lookup. split.
  { apply Forall2_length in Hg. by rewrite Hg, createTokens_length. }
  intros i tk t Htk Ht. apply Forall2_lookup_l with (i := i) (x := tk) in Hg as (tk0 & Htk0 & Hor); [|done].
  rewrite createTokens_lookup in Htk0. destruct (bs !! i) as [b|] eqn:Eb; [|done]. injection Htk0 as <-.
  assert (En : (NormalizeToken t).1 = (NormalizeToken b).1).
  { apply (f_equal (λ l, l !! i)) in E. rewrite !list_lookup_fmap, Ht, Eb in E. by injection E. }
  unfold fits. destruct Hor as [-> | ->]; [done|]. cbn [tk_Variable tk_Value].
  destruct (NormalizeToken_cases t) as [Et|Et]; rewrite Et in *; cbn [fst snd] in *; [by rewrite orb_true_r|].
  rewrite <- En, String.eqb_refl. by rewrite orb_true_r.
Qed.


(** ** The maps of a miner *)

(** The two maps hold the same patterns: by identifier, and by the number of tokens. *)
Record coherent (seen : gset string) (m : Miner) : Prop := {
  co_wf : Forall (wf_pattern seen) (heap m);
  co_map : ∀ id l, patterns m !! id = Some l →
    ∃ p, heap m !! l = Some p ∧ pt_ID p = id ∧ l ∈ at_length (length (pt_Tokens p)) m;
  co_index : ∀ n l, l ∈ at_length n m →
    ∃ p, heap m !! l = Some p ∧ length (pt_Tokens p) = n ∧ patterns m !! pt_ID p = Some l;
  co_nodup : ∀ n, NoDup (at_length n m);
}.

Lemma wf_pattern_mono seen seen' p : seen ⊆ seen' → wf_pattern seen p → wf_pattern seen' p.
Proof. intros Hs (H1 & H2 & H3 & H4 & ts & H5 & H6 & H7 & H8). split_and!; try done. exists ts. split_and!; auto. Qed.

Lemma coherent_mono seen seen' m : seen ⊆ seen' → coherent seen m → coherent seen' m.
Proof.
  intros Hs [H1 H2 H3 H4]. split; try done. eapply Forall_impl; [exact H1|]. intros p. by apply wf_pattern_mono.
Qed.

Lemma coherent_empty seen h thr ch mx n t :
  Forall (wf_pattern seen) h → coherent seen (mkMiner h ∅ ∅ thr ch mx n t).
Proof.
  intros Hwf. split; try done; cbn.
  - intros n' l Hl. unfold at_length in Hl. cbn [lengthIndex] in Hl. rewrite lookup_empty in Hl. by apply elem_of_nil in Hl.
  - intros n'. unfold at_length. cbn [lengthIndex]. rewrite lookup_empty. constructor.
Qed.

(** Patterns that keep their identifier and number of tokens stay where they are. *)
Definition refreshes (h h' : list Pattern) : Prop :=
  ∀ l p, h !! l = Some p → ∃ p', h' !! l = Some p' ∧ pt_ID p' = pt_ID p ∧ generalises (pt_Tokens p') (pt_Tokens p).

Lemma refreshes_refl h : refreshes h h.
Proof. intros l p Hp. by exists p. Qed.
Lemma refreshes_trans h h' h'' : refreshes h h' → refreshes h' h'' → refreshes h h''.
Proof.
  intros H H' l p Hp. destruct (H l p Hp) as (p' & Hp' & E & G). destruct (H' l p' Hp') as (p'' & Hp'' & E' & G').
  exists p''. split; [done|]. split; [congruence|]. by etrans.
Qed.
Lemma refreshes_app h h' : refreshes h (h ++ h').
Proof. intros l p Hp. exists p. split; [|done]. by apply lookup_app_l_Some. Qed.
Lemma refreshes_alter (f : Pattern → Pattern) l h :
  (∀ p, h !! l = Some p → pt_ID (f p) = pt_ID p ∧ generalises (pt_Tokens (f p)) (pt_Tokens p)) → refreshes h (alter f l h).
Proof.
  intros Hf l' p Hp. destruct (decide (l' = l)) as [->|Hne].
  - exists (f p). rewrite list_lookup_alter_eq, Hp. split; [done|]. by apply Hf.
  - exists p. by rewrite list_lookup_alter_ne.
Qed.

Lemma coherent_refresh seen h' m :
  coherent seen m → refreshes (heap m) h' → Forall (wf_pattern seen) h' → coherent seen (with_heap h' m).
Proof.
  intros [H1 H2 H3 H4] Hr Hwf. split; [done|..|done].
  - intros id l Hl. destruct (H2 id l Hl) as (p & Hp & Hid & Hin). destruct (Hr l p Hp) as (p' & Hp' & Hid' & Hg).
    exists p'. split; [done|]. split; [congruence|]. by rewrite (Forall2_length _ _ _ Hg).
  - intros n l Hl. destruct (H3 n l Hl) as (p & Hp & Hn & Hid). destruct (Hr l p Hp) as (p' & Hp' & Hid' & Hg).
    exists p'. split; [done|]. split; [by rewrite (Forall2_length _ _ _ Hg)|]. by rewrite Hid'.
Qed.

Lemma at_length_insert n n' ls m : at_length n (with_maps (patterns m) (<[n' := ls]> (lengthIndex m)) m) = if decide (n = n') then ls else at_length n m.
Proof.
  unfold at_length, with_maps. cbn. case_decide; subst; [by rewrite lookup_insert_eq|by rewrite lookup_insert_ne].
Qed.

Lemma coherent_add seen p m :
  coherent seen m → wf_pattern seen p → patterns m !! pt_ID p = None → coherent seen (import_one m p).
Proof.
  intros [H1 H2 H3 H4] Hp Hnew.
  assert (Hat : ∀ n, at_length n (import_one m p) =
    if decide (n = length (pt_Tokens p)) then at_length n m ++ [length (heap m)] else at_length n m).
  { intros n. unfold import_one, at_length, with_maps, with_heap. cbn. case_decide as E; [|by rewrite lookup_insert_ne].
    subst n. by rewrite lookup_insert_eq. }
  assert (Hold : ∀ n l, l ∈ at_length n m → (l < length (heap m))%nat).
  { intros n l Hl. destruct (H3 n l Hl) as (q & Hq & _). by apply lookup_lt_Some in Hq. }
  split; cbn [import_one with_maps with_heap heap patterns].
  - apply Forall_app. split; [done|]. by constructor.
  - intros id l. rewrite lookup_insert_Some. intros [[<- <-]|[Hne Hl]].
    + exists p. rewrite list_lookup_middle by done. split; [done|]. split; [done|]. rewrite Hat, decide_True by done. set_solver.
    + destruct (H2 id l Hl) as (q & Hq & Hid & Hin). exists q. split; [by apply lookup_app_l_Some|]. split; [done|].
      rewrite Hat. case_decide; [|done]. apply elem_of_app. by left.
  - intros n l. rewrite Hat. intros Hl.
    assert (Hcase : l ∈ at_length n m ∨ l = length (heap m) ∧ n = length (pt_Tokens p)).
    { case_decide; [|by left]. apply elem_of_app in Hl as [?|?%list_elem_of_singleton]; auto. }
    destruct Hcase as [Hin|[-> ->]].
    + destruct (H3 n l Hin) as (q & Hq & Hn & Hid). exists q. split; [by apply lookup_app_l_Some|]. split; [done|].
      rewrite lookup_insert_ne; [done|]. intros E. congruence.
    + exists p. rewrite list_lookup_middle by done. split; [done|]. split; [done|]. by rewrite lookup_insert_eq.
  - intros n. rewrite Hat. case_decide; [|done]. apply NoDup_app. split; [done|]. split; [|apply NoDup_singleton].
    intros l Hl ->%list_elem_of_singleton. apply Hold in Hl. lia.
Qed.

(** ** Eviction *)

Lemma less_used_fold h ps best :
  (∀ q, best.1 = Some q → best.2 = pt_Count q) →
  let r := foldl (less_used h) best ps in
  ∀ q, r.1 = Some q → r.2 = pt_Count q ∧ (best.1 = Some q ∨ ∃ kl, kl ∈ ps ∧ h !! kl.2 = Some q).
Proof.
  revert best. induction ps as [|kl ps IH]; intros best Hb r q Hq; [auto|]. unfold r in *. cbn [foldl] in *.
  destruct (IH (less_used h best kl)) with (q := q) as (E & Hor); [|done|].
  { unfold less_used. destruct (h !! kl.2); [|done]. case_match; [|done]. by intros ? [= <-]. }
  split; [done|]. destruct Hor as [Hor|(kl' & Hin & Hkl)]; [|right; exists kl'; set_solver].
  unfold less_used in Hor. destruct (h !! kl.2) as [p|] eqn:Ep; [|by left]. case_match; [|by left].
  right. exists kl. cbn in Hor. rewrite Ep. split; [set_solver|done].
Qed.

Lemma less_used_keeps h ps best : is_Some best.1 → is_Some (foldl (less_used h) best ps).1.
Proof.
  revert best. induction ps as [|kl ps IH]; intros best Hb; [done|]. cbn [foldl]. apply IH.
  unfold less_used. repeat case_match; done.
Qed.

Lemma find_least_spec h ps p n : find_least h ps = (Some p, n) →
  n = pt_Count p ∧ ∃ kl, kl ∈ ps ∧ h !! kl.2 = Some p.
Proof.
  unfold find_least. intros E. pose proof (less_used_fold h ps (None, -1) ltac:(done) p) as H. rewrite E in H.
  cbn in H. destruct (H eq_refl) as [? [?|?]]; done.
Qed.

Lemma find_least_some h ps kl p : kl ∈ ps → h !! kl.2 = Some p → is_Some (find_least h ps).1.
Proof.
  intros Hin Hp. unfold find_least. apply list_elem_of_split in Hin as (ps1 & ps2 & ->). rewrite foldl_app. cbn [foldl].
  apply less_used_keeps. destruct (foldl (less_used h) (None, -1) ps1) as [[q|] n] eqn:E; unfold less_used; rewrite Hp; cbn.
  - case_match; done.
  - assert (Hneg : ∀ ps best, best.1 = None → best.2 = -1 → (foldl (less_used h) best ps).1 = None → (foldl (less_used h) best ps).2 = -1).
    { clear. induction ps as [|kl ps IH]; intros best H1 H2 H3; [done|]. cbn [foldl] in *. unfold less_used in H3 at 2. unfold less_used at 2.
      destruct (h !! kl.2) as [q|]; [|by apply IH]. rewrite H2 in *. cbn in *.
      pose proof (less_used_keeps h ps (Some q, pt_Count q) ltac:(done)) as [? Hs]. rewrite Hs in H3. done. }
    specialize (Hneg ps1 (None, -1) eq_refl eq_refl). rewrite E in Hneg. cbn in Hneg. rewrite Hneg by done. done.
Qed.

Lemma remove_id_spec h id l ls : NoDup ls → (∀ l', l' ∈ ls → pt_ID <$> h !! l' = Some id ↔ l' = l) →
  NoDup (remove_id h id ls) ∧ ∀ l', l' ∈ remove_id h id ls ↔ l' ∈ ls ∧ l' ≠ l.
Proof.
  intros Hnd. induction Hnd as [|x ls Hx Hnd IH]; intros Hl; cbn [remove_id].
  - split; [constructor|]. intros l'. split; [by intros ?%elem_of_nil|]. by intros [?%elem_of_nil _].
  - case_decide as Hd.
    + apply Hl in Hd as ->; [|set_solver]. split; [done|]. intros l'. split; [intros Hin; split; [set_solver|by intros ->]|set_solver].
    + destruct IH as [IH1 IH2]; [set_solver|]. split.
      * constructor; [|done]. rewrite IH2. by intros [? _].
      * intros l'. rewrite !elem_of_cons, IH2. assert (x ≠ l) by (intros ->; apply Hd; apply Hl; [set_solver|done]). naive_solver.
Qed.

Definition walks_map (range : ∀ A, gmap string A → list (string * A)) : Prop :=
  ∀ A (m : gmap string A), range A m ≡ₚ map_to_list m.

Section with_range.
Context (range : ∀ A, gmap string A → list (string * A)) (Hwalk : walks_map range).

(** The evicted pattern leaves both maps, and nothing else does. *)
Lemma evict_spec seen m : coherent seen m →
  (evictPattern range m = m ∧ patterns m = ∅) ∨
  ∃ p l, heap m !! l = Some p ∧ patterns m !! pt_ID p = Some l ∧
    heap (evictPattern range m) = heap m ∧ patterns (evictPattern range m) = delete (pt_ID p) (patterns m) ∧
    (∀ n, NoDup (at_length n (evictPattern range m))) ∧
    ∀ n l', l' ∈ at_length n (evictPattern range m) ↔ l' ∈ at_length n m ∧ l' ≠ l.
Proof.
  intros [H1 H2 H3 H4]. unfold evictPattern. destruct (find_least (heap m) (range _ (patterns m))) as [[p|] n] eqn:E.
  - right. destruct (find_least_spec _ _ _ _ E) as (_ & [id l] & Hin & Hp). cbn in Hp.
    rewrite (Hwalk _ _) in Hin. apply elem_of_map_to_list in Hin. destruct (H2 id l Hin) as (p' & Hp' & Hid & Hl).
    rewrite Hp in Hp'. injection Hp' as <-. subst id. exists p, l. split; [done|]. split; [done|]. split; [done|]. split; [done|].
    assert (Hat : ∀ n, at_length n (with_maps (delete (pt_ID p) (patterns m)) (<[length (pt_Tokens p) :=
      remove_id (heap m) (pt_ID p) (at_length (length (pt_Tokens p)) m)]> (lengthIndex m)) m) =
      if decide (n = length (pt_Tokens p)) then remove_id (heap m) (pt_ID p) (at_length n m) else at_length n m).
    { intros n'. unfold at_length, with_maps. cbn. case_decide; subst; [by rewrite lookup_insert_eq|by rewrite lookup_insert_ne]. }
    destruct (remove_id_spec (heap m) (pt_ID p) l (at_length (length (pt_Tokens p)) m)) as [Hnd Hrm]; [done|..].
    { intros l' Hl'. destruct (H3 _ _ Hl') as (q & Hq & _ & Hqid). rewrite Hq. cbn. split.
      - intros [= E']. rewrite E' in Hqid. congruence.
      - intros ->. congruence. }
    cbn [fst]. split.
    + intros n'. rewrite Hat. case_decide as Hn; [by rewrite Hn|done].
    + intros n' l'. rewrite Hat. case_decide as Hn; [by rewrite Hn|].
      split; [|by intros []]. intros Hl'. split; [done|]. intros ->. destruct (H3 n' l Hl') as (q & Hq & Hn' & _). congruence.
  - left. cbn. split; [done|]. apply map_empty. intros id. apply eq_None_not_Some. intros [l Hl].
    destruct (H2 id l Hl) as (p & Hp & _). assert (Hin : (id, l) ∈ range _ (patterns m)).
    { rewrite (Hwalk _ _). by apply elem_of_map_to_list. }
    destruct (find_least_some (heap m) _ (id, l) p Hin Hp) as [? Hs]. rewrite E in Hs. done.
Qed.

Lemma coherent_evict seen m : coherent seen m → coherent seen (evictPattern range m).
Proof.
  intros Hc. destruct (evict_spec seen m Hc) as [[-> _]|(p & l & Hp & Hl & Hh & Hps & Hnd & Hat)]; [done|].
  destruct Hc as [H1 H2 H3 H4]. split; [by rewrite Hh|..|done].
  - intros id l'. rewrite Hps, lookup_delete_Some. intros [Hne Hl']. destruct (H2 id l' Hl') as (q & Hq & Hid & Hin).
    exists q. rewrite Hh. split; [done|]. split; [done|]. apply Hat. split; [done|]. intros ->. congruence.
  - intros n l'. rewrite Hat. intros [Hin Hne]. destruct (H3 n l' Hin) as (q & Hq & Hn & Hid).
    exists q. rewrite Hh, Hps. split; [done|]. split; [done|]. rewrite lookup_delete_ne; [done|]. intros E. congruence.
Qed.
End with_range.

(** ** Processing *)

Section process.
Context (range : ∀ A, gmap string A → list (string * A)) (Hwalk : walks_map range).
Notation Process := (Process md5_hex range).

Lemma better_keeps h thr ts ls best : is_Some best.1 → is_Some (foldl (better h thr ts) best ls).1.
Proof.
  revert best. induction ls as [|l ls IH]; intros best Hb; [done|]. cbn [foldl]. apply IH.
  unfold better. repeat case_match; done.
Qed.

Lemma best_match_in m ts l : best_match m ts = Some l → l ∈ at_length (length ts) m ∧ is_Some (heap m !! l).
Proof.
  unfold best_match. generalize (at_length (length ts) m) as ls. intros ls.
  assert (H : ∀ best, (foldl (better (heap m) (similarityThreshold m) ts) best ls).1 = Some l →
    best.1 = Some l ∨ l ∈ ls ∧ is_Some (heap m !! l)).
  { induction ls as [|x ls IH]; intros best; cbn [foldl]; [by left|]. intros Hl. apply IH in Hl as [Hl|[Hl ?]]; [|set_solver].
    unfold better in Hl. destruct (heap m !! x) as [p|] eqn:E; [|by left]. case_match; [|by left].
    cbn in Hl. injection Hl as ->. right. rewrite E. split; [set_solver|done]. }
  intros Hl. by destruct (H _ Hl).
Qed.

(** A candidate that is fully similar is not passed over. *)
Lemma best_match_some m ts l p : f64_le (similarityThreshold m) (f64_of_Z 1) = true →
  l ∈ at_length (length ts) m → heap m !! l = Some p → calculateSimilarity ts p = f64_of_Z 1 → best_match m ts ≠ None.
Proof.
  intros Hthr Hin Hp Hsim. unfold best_match. apply list_elem_of_split in Hin as (l1 & l2 & ->).
  rewrite foldl_app. cbn [foldl].
  assert (Hstart : ∀ ls best, best.1 = None → best.2 = f64_zero →
    is_Some (foldl (better (heap m) (similarityThreshold m) ts) best ls).1 ∨
    (foldl (better (heap m) (similarityThreshold m) ts) best ls).2 = f64_zero).
  { induction ls as [|x ls IH]; intros best H1 H2; cbn [foldl]; [by right|]. unfold better at 2 4.
    destruct (heap m !! x); [|by apply IH]. case_match; [|by apply IH]. left. by apply better_keeps. }
  destruct (Hstart l1 (None, f64_zero) eq_refl eq_refl) as [Hs|Hz].
  - intros E. destruct (better_keeps (heap m) (similarityThreshold m) ts (l :: l2) _ Hs) as [? Hk]. cbn [foldl] in Hk. congruence.
  - assert (Hb : is_Some (better (heap m) (similarityThreshold m) ts
      (foldl (better (heap m) (similarityThreshold m) ts) (None, f64_zero) l1) l).1).
    { unfold better at 1. rewrite Hp, Hsim, Hz. unfold f64_ge. fold (f64_le (similarityThreshold m) (f64_of_Z 1)).
      rewrite Hthr. done. }
    destruct (better_keeps (heap m) (similarityThreshold m) ts l2 _ Hb) as [? Hk]. congruence.
Qed.

(** A pattern counts a message: the counter goes up by one and nothing else loses generality. *)
Definition joins (ts : list string) (old : option Pattern) (p : Pattern) : Prop :=
  match old with
  | Some q => pt_ID p = pt_ID q ∧ pt_Count p = wrap64 (pt_Count q + 1) ∧ generalises (pt_Tokens p) (pt_Tokens q)
  | None => pt_Count p = 1 ∧ pt_ID p = HashTemplate (CreateTemplate ts)
  end.

Definition separates (seen : gset string) : Prop :=
  ∀ T T', T ∈ seen → T' ∈ seen → HashTemplate T = HashTemplate T' → T = T'.

Lemma generalises_nil_inv tks old : generalises tks old → tks ≠ [] → old ≠ [].
Proof. intros H. by destruct H. Qed.

(** The whole of one call, on a coherent miner. *)
Lemma process_spec seen now entry m :
  coherent seen m →
  let ts := Tokenize (le_Message entry) in
  let seen' := {[CreateTemplate ts]} ∪ seen in
  let '(m', r) := Process now entry m in
  similarityThreshold m' = similarityThreshold m ∧ maxPatterns m' = maxPatterns m ∧
  coherent seen' m' ∧ refreshes (heap m) (heap m') ∧
  match r with
  | None => ts = [] ∧ heap m' = heap m
  | Some l => ts ≠ [] ∧ ∃ p, heap m' !! l = Some p ∧ patterns m' !! pt_ID p = Some l ∧ joins ts (heap m !! l) p ∧
      (∀ l', l' ≠ l → heap m' !! l' = heap m !! l') ∧
      (f64_le (similarityThreshold m) (f64_of_Z 1) = true → Z.of_nat (length ts) < 2 ^ 53 → separates seen' →
         covers (pt_Tokens p) ts)
  end.
Proof.
  intros Hco ts seen'. unfold Process. cbn zeta. fold ts.
  set (m0 := mkMiner _ _ _ _ _ _ _ _).
  assert (Hco0 : coherent seen' m0).
  { apply (coherent_mono seen); [set_solver|]. destruct Hco. by split. }
  clear Hco. change (heap m) with (heap m0). change (similarityThreshold m) with (similarityThreshold m0).
  change (maxPatterns m) with (maxPatterns m0). clearbody m0. clear m. pose proof (Tokenize_plain (le_Message entry)) as Hpl. fold ts in Hpl.
  destruct (Nat.eqb_spec (length ts) 0) as [Hn|Hn].
  { destruct ts; [|done]. split_and!; try done. apply refreshes_refl. }
  assert (Hne : ts ≠ []) by (by intros ->). clear Hn.
  assert (Hex : ∀ f (l : nat) q, heap m0 !! l = Some q → ∀ l', l' ≠ l → alter f l (heap m0) !! l' = heap m0 !! l').
  { intros f l q Hq l' Hl'. by rewrite list_lookup_alter_ne. }
  destruct (best_match m0 ts) as [l|] eqn:Ebest.
  - destruct (best_match_in _ _ _ Ebest) as [Hin _].
    destruct (co_index _ _ Hco0 _ _ Hin) as (q & Hq & Hlen & Hid). cbn [heap with_heap patterns].
    set (f := λ p, mergeTemplate (with_seen (wrap64 (pt_Count p + 1)) _ (le_Timestamp entry) p) ts).
    assert (Hf : pt_ID (f q) = pt_ID q ∧ pt_Count (f q) = wrap64 (pt_Count q + 1) ∧
      generalises (pt_Tokens (f q)) (pt_Tokens q) ∧ covers (pt_Tokens (f q)) ts).
    { unfold f. destruct (mergeTemplate_kept (with_seen (wrap64 (pt_Count q + 1))
        (if Before (le_Timestamp entry) (pt_FirstSeen q) then le_Timestamp entry else pt_FirstSeen q) (le_Timestamp entry) q) ts) as [-> ->].
      rewrite mergeTemplate_tokens by (symmetry; exact Hlen). split; [done|]. split; [done|]. by apply merge_generalises. }
    assert (Hr : refreshes (heap m0) (alter f l (heap m0))).
    { apply refreshes_alter. intros p Hp. rewrite Hq in Hp. injection Hp as <-. by split_and!; apply Hf. }
    destruct Hf as (F1 & F2 & F3 & F4).
    split_and!; try done.
    + apply coherent_refresh; [done|done|]. apply Forall_lookup. intros l' p Hp.
      pose proof (co_wf _ _ Hco0) as Hwf. rewrite Forall_lookup in Hwf.
      destruct (decide (l' = l)) as [->|Hl'].
      * rewrite list_lookup_alter_eq, Hq in Hp. injection Hp as <-. apply mergeTemplate_wf; [symmetry; exact Hlen|]. exact (Hwf l q Hq).
      * rewrite list_lookup_alter_ne in Hp by done. by apply (Hwf l').
    + exists (f q). rewrite list_lookup_alter_eq, Hq, F1. split_and!; try done. by eapply Hex.
  - set (m1 := if _ <=? _ then _ else m0).
    assert (Hm1 : coherent seen' m1 ∧ heap m1 = heap m0 ∧ similarityThreshold m1 = similarityThreshold m0 ∧
      maxPatterns m1 = maxPatterns m0 ∧ ∀ n l, l ∈ at_length n m1 → l ∈ at_length n m0).
    { unfold m1. case_match; [|by split_and!]. split; [by apply coherent_evict|].
      destruct (evict_spec range Hwalk _ _ Hco0) as [[-> _]|(p & l & _ & _ & Hh & _ & _ & Hat)]; [by split_and!|].
      split; [done|]. split_and!; [unfold evictPattern; by case_match..|]. intros n l'. rewrite Hat. by intros []. }
    clearbody m1. destruct Hm1 as (Hco1 & Hh1 & Hs1 & Hx1 & Hat1).
    destruct (patterns m1 !! HashTemplate (CreateTemplate ts)) as [l|] eqn:Eid.
    + destruct (co_map _ _ Hco1 _ _ Eid) as (q & Hq & Hqid & Hqin). cbn [heap with_heap patterns similarityThreshold maxPatterns].
      set (f := λ p, with_seen (wrap64 (pt_Count p + 1)) (pt_FirstSeen p) (le_Timestamp entry) p).
      assert (Hr : refreshes (heap m1) (alter f l (heap m1))) by (apply refreshes_alter; by intros p _).
      pose proof (co_wf _ _ Hco1) as Hwf. rewrite Forall_lookup in Hwf.
      assert (Hcov : f64_le (similarityThreshold m0) (f64_of_Z 1) = true → Z.of_nat (length ts) < 2 ^ 53 → separates seen' → False).
      { intros Hthr Hlt Hsep. destruct (Hwf l q Hq) as ((Hqne & _) & _ & _ & _ & bs & Hbs & Hg & Hbid & Hbin).
        assert (Hbne : bs ≠ []). { intros ->. by apply generalises_nil_inv in Hg. }
        assert (HT : CreateTemplate ts = CreateTemplate bs).
        { apply Hsep; [set_solver|done|]. by rewrite <- Hbid, Hqid. }
        apply CreateTemplate_inj in HT; [|done..].
        pose proof (birth_fits _ _ _ Hg HT) as Hfit. apply (best_match_some m0 ts l q Hthr); [|by rewrite <- Hh1|by apply similarity_full|done].
        rewrite <- (Forall2_length _ _ _ Hfit). by apply Hat1. }
      assert (Hwf' : Forall (wf_pattern seen') (alter f l (heap m1))).
      { apply Forall_lookup. intros l' p Hp. destruct (decide (l' = l)) as [->|Hl'].
        - rewrite list_lookup_alter_eq, Hq in Hp. injection Hp as <-. exact (Hwf l q Hq).
        - rewrite list_lookup_alter_ne in Hp by done. by apply (Hwf l'). }
      split_and!; try done; [by apply coherent_refresh|by rewrite <- Hh1|].
      exists (f q). rewrite list_lookup_alter_eq, <- Hh1, Hq. change (pt_ID (f q)) with (pt_ID q). rewrite Hqid.
      split_and!; try done; [by intros l' Hl'; rewrite list_lookup_alter_ne|]. intros. exfalso. auto.
    + set (p := new_pattern _ _ _ _).
      assert (Hwfp : wf_pattern seen' p) by (apply new_pattern_wf; [done|done|set_solver]).
      pose proof (coherent_add seen' p m1 Hco1 Hwfp Eid) as Hadd.
      assert (Himp : import_one m1 p = with_maps (<[HashTemplate (CreateTemplate ts) := length (heap m1)]> (patterns m1))
        (<[length ts := at_length (length ts) m1 ++ [length (heap m1)]]> (lengthIndex m1)) (with_heap (heap m1 ++ [p]) m1)).
      { unfold import_one. cbn [pt_ID pt_Tokens p new_pattern]. by rewrite createTokens_length. }
      rewrite Himp in Hadd. cbn [heap with_maps with_heap patterns similarityThreshold maxPatterns].
      split_and!; try done; [by rewrite <- Hh1; apply refreshes_app|].
      exists p. rewrite list_lookup_middle by done. cbn [pt_ID p new_pattern]. rewrite lookup_insert_eq.
      split_and!; try done.
      * rewrite <- Hh1. rewrite lookup_ge_None_2 by lia. done.
      * intros l' Hl'. rewrite <- Hh1. destruct (decide (l' < length (heap m1))%nat) as [Hlt|Hge]; [by apply lookup_app_l|].
        rewrite !lookup_ge_None_2; [done|lia|rewrite length_app; cbn; lia].
      * intros _ _ _. cbn [pt_Tokens p new_pattern]. apply Forall2_same_length_lookup. split; [apply createTokens_length|].
        intros i tk t Htk Ht. rewrite createTokens_lookup, Ht in Htk. injection Htk as <-. cbn.
        destruct (NormalizeToken_cases t) as [-> | ->]; auto.
Qed.
End process.

(** ** Runs of a miner *)

Definition walk : Type := ∀ A, gmap string A → list (string * A).

(** The operations, with the templates of the messages seen so far. *)
Inductive step : gset string * Miner → gset string * Miner → Prop :=
| step_process (range : walk) now entry seen m : walks_map range →
    step (seen, m) ({[CreateTemplate (Tokenize (le_Message entry))]} ∪ seen, (Process md5_hex range now entry m).1)
| step_trends (range : walk) now counts seen m : walks_map range → step (seen, m) (seen, UpdateTrends range now counts m)
| step_clear seen m : step (seen, m) (seen, Clear m)
| step_import ps seen m : Forall (wf_pattern seen) ps → NoDup (pt_ID <$> ps) →
    Forall (λ p, patterns m !! pt_ID p = None) ps → step (seen, m) (seen, Import ps m).

Lemma update_trend_kept now n p : pt_ID (update_trend now n p) = pt_ID p ∧ pt_Tokens (update_trend now n p) = pt_Tokens p.
Proof. unfold update_trend. by repeat case_match. Qed.
Lemma update_trend_wf seen now n p : wf_pattern seen p → wf_pattern seen (update_trend now n p).
Proof. unfold update_trend. intros H. repeat case_match; exact H. Qed.

Lemma alter_all (f : Pattern → Pattern) (Q : Pattern → Prop) (ls : list (string * nat)) h :
  (∀ p, pt_ID (f p) = pt_ID p ∧ pt_Tokens (f p) = pt_Tokens p) → (∀ p, Q p → Q (f p)) → Forall Q h →
  let h' := foldl (λ h kl, alter f kl.2 h) h ls in refreshes h h' ∧ Forall Q h'.
Proof.
  intros Hf HQ. revert h. induction ls as [|kl ls IH]; intros h Hh; cbn [foldl]; [split; [apply refreshes_refl|done]|].
  destruct (IH (alter f kl.2 h)) as [Hr Hall].
  { apply Forall_lookup. intros i p Hp. rewrite Forall_lookup in Hh. destruct (decide (i = kl.2)) as [->|Hi].
    - rewrite list_lookup_alter_eq in Hp. destruct (h !! kl.2) eqn:E; [|done]. injection Hp as <-. eauto.
    - rewrite list_lookup_alter_ne in Hp by done. eauto. }
  split; [|done]. eapply refreshes_trans; [|exact Hr]. apply refreshes_alter. intros p _. destruct (Hf p) as [-> ->]. done.
Qed.

Lemma import_spec ps seen m : coherent seen m → Forall (wf_pattern seen) ps → NoDup (pt_ID <$> ps) →
  Forall (λ p, patterns m !! pt_ID p = None) ps → coherent seen (Import ps m) ∧ refreshes (heap m) (heap (Import ps m)).
Proof.
  intros Hco Hwf. revert m Hco. unfold Import. induction Hwf as [|p ps Hp Hps IH]; intros m Hco Hnd Hnew; cbn [foldl]; [split; [done|apply refreshes_refl]|].
  apply Forall_cons in Hnew as [Hn Hnew]. cbn in Hnd. apply NoDup_cons in Hnd as [Hnin Hnd].
  destruct (IH (import_one m p)) as [H1 H2]; [by apply coherent_add|done| |].
  { apply Forall_forall. intros q Hq. cbn. rewrite Forall_forall in Hnew. rewrite lookup_insert_ne; [by apply Hnew|].
    intros E. apply Hnin. rewrite E. by apply list_elem_of_fmap_2. }
  split; [done|]. eapply refreshes_trans; [|exact H2]. apply refreshes_app.
Qed.

Lemma step_spec st st' : step st st' → coherent st.1 st.2 → coherent st'.1 st'.2 ∧ refreshes (heap st.2) (heap st'.2).
Proof.
  intros Hs Hco. destruct Hs as [range now entry seen m Hw|range now counts seen m Hw|seen m|ps seen m H1 H2 H3]; cbn [fst snd] in *.
  - pose proof (process_spec range Hw seen now entry m Hco) as H.
    destruct (Process md5_hex range now entry m) as [m' r]. by destruct H as (_ & _ & ? & ? & _).
  - unfold UpdateTrends.
    destruct (alter_all (λ p, update_trend now (counts (pt_ID p)) p) (wf_pattern seen) (range _ (patterns m)) (heap m)) as [Hr Hall].
    + intros p. apply update_trend_kept.
    + intros p. apply update_trend_wf.
    + apply Hco.
    + split; [by apply coherent_refresh|done].
  - split; [|apply refreshes_refl]. apply coherent_empty, Hco.
  - by apply import_spec.
Qed.

Lemma steps_spec st st' : rtc step st st' → coherent st.1 st.2 → coherent st'.1 st'.2 ∧ refreshes (heap st.2) (heap st'.2).
Proof.
  induction 1 as [st|st st1 st2 H1 _ IH]; intros Hco; [split; [done|apply refreshes_refl]|].
  destruct (step_spec _ _ H1 Hco) as [Hc1 Hr1]. destruct (IH Hc1) as [Hc2 Hr2]. split; [done|]. by eapply refreshes_trans.
Qed.

Lemma coherent_new cfg : coherent ∅ (NewMiner cfg).
Proof. by apply coherent_empty. Qed.

(** The two maps of a miner always hold the same patterns. After any operations, a
    pattern found by its identifier has that identifier and is in the group of its number of
    tokens, once, and a pattern of a group is the one found by its identifier; its template is
    the text of its tokens, and its counts are those of the template. *)
Theorem maps_agree cfg seen m :
  rtc step (∅, NewMiner cfg) (seen, m) →
  (∀ id l, patterns m !! id = Some l →
     ∃ p, heap m !! l = Some p ∧ pt_ID p = id ∧ l ∈ at_length (length (pt_Tokens p)) m ∧
       split_byte " " (pt_Template p) = tk_Value <$> pt_Tokens p ∧ pt_VariableCount p = countVariables (pt_Template p)) ∧
  (∀ n l, l ∈ at_length n m → ∃ p, heap m !! l = Some p ∧ length (pt_Tokens p) = n ∧ patterns m !! pt_ID p = Some l) ∧
  ∀ n, NoDup (at_length n m).
Proof.
  intros H. destruct (steps_spec _ _ H (coherent_new cfg)) as [[H1 H2 H3 H4] _]. cbn [fst snd] in *.
  split; [|by split]. intros id l Hl. destruct (H2 id l Hl) as (p & Hp & Hid & Hin). exists p. split_and!; try done.
  - rewrite Forall_lookup in H1. destruct (H1 l p Hp) as ((Hne & Hok) & -> & _).
    change " "%string with (String " " ""). apply split_join; [by destruct (pt_Tokens p)|].
    apply Forall_fmap. eapply Forall_impl; [exact Hok|]. intros tk [Hpl _]. by apply plain_no_space.
  - rewrite Forall_lookup in H1. by destruct (H1 l p Hp) as (_ & _ & ? & _).
Qed.

(** ** Matching *)

(** The template covers a token: it has a star there, or the token itself. *)
Definition template_covers (ts ms : list string) : Prop := Forall2 (λ t m, t = star ∨ t = m) ts ms.

Lemma match_tokens_spec ts ms vars vc mc : length ts = length ms → 0 ≤ mc → mc + Z.of_nat (length ts) < 2 ^ 63 →
  (template_covers ts ms → ∃ vars', match_tokens ts ms vars vc mc = Some (vars', mc + Z.of_nat (length ts))) ∧
  (match_tokens ts ms vars vc mc ≠ None → template_covers ts ms).
Proof.
  revert ms vars vc mc. induction ts as [|t ts IH]; intros [|m ms] vars vc mc Hl Hmc Hb; try done.
  { split; [intros _; exists vars; cbn; by rewrite Z.add_0_r|constructor]. }
  injection Hl as Hl. cbn [length] in Hb. cbn [match_tokens].
  assert (Hw : wrap64 (mc + 1) = mc + 1) by (apply wrap64_id; unfold in_int64, int64_min, int64_max; lia).
  rewrite Hw. pose proof (λ vars vc, IH ms vars vc (mc + 1) Hl ltac:(lia) ltac:(lia)) as IH'.
  replace (mc + Z.of_nat (length (t :: ts))) with (mc + 1 + Z.of_nat (length ts)) by (cbn [length]; lia).
  destruct (String.eqb_spec t star) as [->|Hts].
  { split; intros H; [inversion H; subst; by apply IH'|]. constructor; [by left|]. by apply IH' in H. }
  destruct (String.eqb_spec t m) as [->|Htm].
  { split; intros H; [inversion H; subst; by apply IH'|]. constructor; [by right|]. by apply IH' in H. }
  assert (Hnone : (let '(norm, isVar) := NormalizeToken m in
     if isVar && false then match_tokens ts ms (<["var" +:+ pretty vc := m]> vars) (wrap64 (vc + 1)) (mc + 1)
     else if String.eqb norm t then match_tokens ts ms vars vc (mc + 1) else None) = None).
  { destruct (NormalizeToken_cases m) as [-> | ->]; cbn [andb].
    - by destruct (String.eqb_spec star t).
    - by destruct (String.eqb_spec m t). }
  rewrite Hnone. split; [|done]. intros H. inversion H as [|? ? ? ? [?|?]]; done.
Qed.

Lemma MatchPattern_spec msg p seen : wf_pattern seen p → Z.of_nat (length (pt_Tokens p)) < 2 ^ 53 →
  let '(matches, vars, confidence) := MatchPattern msg (pt_Template p) in
  (matches = true ↔ template_covers (tk_Value <$> pt_Tokens p) (Tokenize msg)) ∧ (matches = true → confidence = f64_of_Z 1).
Proof.
  intros ((Hne & Hok) & Ht & _) Hlt. unfold MatchPattern.
  assert (Hs : split_byte " " (pt_Template p) = tk_Value <$> pt_Tokens p).
  { rewrite Ht. change " "%string with (String " " ""). apply split_join; [by destruct (pt_Tokens p)|].
    apply Forall_fmap. eapply Forall_impl; [exact Hok|]. intros tk [Hpl _]. by apply plain_no_space. }
  rewrite Hs. set (vs := tk_Value <$> pt_Tokens p). assert (Hlen : length vs = length (pt_Tokens p)) by apply length_fmap.
  destruct (Nat.eqb_spec (length (Tokenize msg)) (length vs)) as [E|E]; cbn [negb].
  - destruct (match_tokens_spec vs (Tokenize msg) ∅ 0 0) as [H1 H2]; [done|lia|lia|].
    destruct (match_tokens vs (Tokenize msg) ∅ 0 0) as [[vars n]|] eqn:Em.
    + split; [split; [intros _; by apply H2|done]|]. intros _. destruct (H1 (H2 ltac:(done))) as (v' & [= _ ->]).
      apply f64_div_self. destruct (pt_Tokens p); [done|]. cbn in *. lia.
    + split; [|done]. split; [done|]. intros Hc. destruct (H1 Hc) as (? & ?). done.
  - split; [|done]. split; [done|]. intros H. apply Forall2_length in H. congruence.
Qed.

Lemma match_better_keeps h msg ls best : is_Some best.1 → is_Some (foldl (match_better h msg) best ls).1.
Proof.
  revert best. induction ls as [|l ls IH]; intros best Hb; [done|]. cbn [foldl]. apply IH. unfold match_better.
  repeat case_match; done.
Qed.

(** Matching and mining agree. A message is matched exactly when a stored pattern with as
    many tokens has, in each place, a star or the token of the message; the confidence is
    then always 1. *)
Theorem match_finds_what_is_covered cfg seen m now msg :
  rtc step (∅, NewMiner cfg) (seen, m) → Z.of_nat (length (Tokenize msg)) < 2 ^ 53 →
  (is_Some (Miner_Match now msg m) ↔ ∃ id p, GetPattern id m = Some p ∧
     template_covers (tk_Value <$> pt_Tokens p) (Tokenize msg)) ∧
  ∀ pm, Miner_Match now msg m = Some pm → pm_Confidence pm = f64_of_Z 1.
Proof.
  intros H Hlt. destruct (steps_spec _ _ H (coherent_new cfg)) as [[H1 H2 H3 H4] _]. cbn [fst snd] in *. clear H.
  rewrite Forall_lookup in H1. unfold Miner_Match. set (n := length (Tokenize msg)) in *.
  assert (Hin : ∀ l, l ∈ at_length n m → ∃ p, heap m !! l = Some p ∧ GetPattern (pt_ID p) m = Some p ∧
    let '(matches, vars, confidence) := MatchPattern msg (pt_Template p) in
    (matches = true ↔ template_covers (tk_Value <$> pt_Tokens p) (Tokenize msg)) ∧ (matches = true → confidence = f64_of_Z 1)).
  { intros l Hl. destruct (H3 n l Hl) as (p & Hp & Hn & Hid). exists p. split; [done|].
    split; [unfold GetPattern; rewrite Hid; cbn; done|]. apply (MatchPattern_spec msg p seen); [by eapply H1|lia]. }
  assert (Hfold : ∀ ls best, (∀ l, l ∈ ls → l ∈ at_length n m) →
    (∀ p vars, best.1 = Some (p, vars) → best.2 = f64_of_Z 1 ∧ GetPattern (pt_ID p) m = Some p ∧ template_covers (tk_Value <$> pt_Tokens p) (Tokenize msg)) →
    (best.1 = None → best.2 = f64_zero) →
    let best' := foldl (match_better (heap m) msg) best ls in
    (∀ p vars, best'.1 = Some (p, vars) → best'.2 = f64_of_Z 1 ∧ GetPattern (pt_ID p) m = Some p ∧ template_covers (tk_Value <$> pt_Tokens p) (Tokenize msg)) ∧
    (best'.1 = None → best.1 = None ∧ ∀ l p, l ∈ ls → heap m !! l = Some p → ¬ template_covers (tk_Value <$> pt_Tokens p) (Tokenize msg))).
  { induction ls as [|l ls IH]; intros best Hls Hb Hz; cbn [foldl]; [split; [done|]; intros Hn; split; [done|]; intros l p Hl; by apply elem_of_nil in Hl|].
    destruct (Hin l ltac:(apply Hls; set_solver)) as (p & Hp & Hg & Hm).
    assert (Hstep : (∀ q vars, (match_better (heap m) msg best l).1 = Some (q, vars) → (match_better (heap m) msg best l).2 = f64_of_Z 1 ∧
        GetPattern (pt_ID q) m = Some q ∧ template_covers (tk_Value <$> pt_Tokens q) (Tokenize msg)) ∧
      ((match_better (heap m) msg best l).1 = None → (match_better (heap m) msg best l).2 = f64_zero ∧ best.1 = None ∧
         ¬ template_covers (tk_Value <$> pt_Tokens p) (Tokenize msg))).
    { unfold match_better. rewrite Hp. destruct (MatchPattern msg (pt_Template p)) as [[matches vars] confidence].
      destruct Hm as [Hm1 Hm2]. destruct matches; cbn [andb].
      - rewrite (Hm2 eq_refl). destruct (f64_gt (f64_of_Z 1) best.2) eqn:Egt.
        + split; [|done]. intros q v [= <- <-]. split_and!; [done..|by apply Hm1].
        + split; [done|]. intros Hn. rewrite (Hz Hn) in Egt. done.
      - split; [done|]. intros Hn. split_and!; auto. intros Hc. by apply Hm1 in Hc. }
    destruct Hstep as [Hs1 Hs2]. destruct (IH (match_better (heap m) msg best l)) as [I1 I2]; [set_solver|done|by intros ?; apply Hs2|].
    split; [done|]. intros Hn. destruct (I2 Hn) as [Hn' Hno]. destruct (Hs2 Hn') as (_ & Hbn & Hnp). split; [done|].
    intros l' p' [->|Hl']%elem_of_cons Hp'; [congruence|by eapply Hno]. }
  destruct (Hfold (at_length n m) (None, f64_zero)) as [F1 F2]; [done|done|done|].
  destruct (foldl _ _ (at_length n m)) as [[[p vars]|] c] eqn:E; cbn in F1, F2.
  - destruct (F1 p vars eq_refl) as (-> & Hg & Hc). split; [|by intros pm [= <-]].
    split; [|by eauto]. intros _. by exists (pt_ID p), p.
  - split; [|done]. split; [by intros [? ?]|]. intros (id & p & Hg & Hc). exfalso. unfold GetPattern in Hg.
    destruct (patterns m !! id) as [l|] eqn:El; cbn in Hg; [|done]. destruct (H2 id l El) as (p' & Hp' & _ & Hat).
    assert (p' = p) as -> by congruence. apply (proj2 (F2 eq_refl) l p); [|done|done].
    unfold n. rewrite <- (Forall2_length _ _ _ Hc), length_fmap. done.
Qed.

Lemma covers_template tks ts : tokens_ok tks → covers tks ts → template_covers (tk_Value <$> tks) ts.
Proof.
  intros [_ Hok] H. induction H as [|tk t tks ts Ht _ IH]; [constructor|]. apply Forall_cons in Hok as [[_ Hv] Hok].
  constructor; [|by apply IH]. destruct Ht as [Ht|Ht]; [left; by apply Hv|by right].
Qed.

(** C25: mining loses nothing. A message with tokens joins or begins a pattern: its pattern is
    stored, counts one more message, and covers the message, so that the message can be
    matched at once; and whatever is processed, imported or cleared later, the pattern keeps
    its identifier and covers the message still. The similarity threshold is at most 1 and no
    two templates seen have the same hash. *)
Theorem processed_messages_stay_covered cfg seen m (range : walk) now entry st' :
  rtc step (∅, NewMiner cfg) (seen, m) → walks_map range →
  let ts := Tokenize (le_Message entry) in
  let seen1 := {[CreateTemplate ts]} ∪ seen in
  ts ≠ [] → Z.of_nat (length ts) < 2 ^ 53 → f64_le (similarityThreshold m) (f64_of_Z 1) = true → separates seen1 →
  let m1 := (Process md5_hex range now entry m).1 in
  rtc step (seen1, m1) st' →
  ∃ l p p', (Process md5_hex range now entry m).2 = Some l ∧ heap m1 !! l = Some p ∧ GetPattern (pt_ID p) m1 = Some p ∧
    joins ts (heap m !! l) p ∧ covers (pt_Tokens p) ts ∧ template_covers (tk_Value <$> pt_Tokens p) ts ∧
    heap st'.2 !! l = Some p' ∧ pt_ID p' = pt_ID p ∧ covers (pt_Tokens p') ts.
Proof.
  intros H Hw ts seen1 Hne Hlt Hthr Hsep m1 H'. destruct (steps_spec _ _ H (coherent_new cfg)) as [Hco _]. cbn [fst snd] in Hco.
  pose proof (process_spec range Hw seen now entry m Hco) as Hp. fold ts seen1 in Hp. unfold m1 in *.
  destruct (Process md5_hex range now entry m) as [m' r]. destruct Hp as (_ & _ & Hco1 & _ & Hr). cbn [fst snd] in *.
  destruct r as [l|]; [|by destruct Hr]. destruct Hr as (_ & p & Hp & Hid & Hj & _ & Hcov). specialize (Hcov Hthr Hlt Hsep).
  destruct (steps_spec _ _ H' Hco1) as [_ Hrf]. cbn [fst snd] in Hrf. destruct (Hrf l p Hp) as (p' & Hp' & Hid' & Hg).
  pose proof (co_wf _ _ Hco1) as Hwf. rewrite Forall_lookup in Hwf. destruct (Hwf l p Hp) as (Hok & _).
  exists l, p, p'. split_and!; try done.
  - unfold GetPattern. rewrite Hid. done.
  - by apply covers_template.
  - by eapply covers_generalises.
Qed.

(** ** Limits *)

Lemma less_used_least h ps best :
  (∀ kl q, kl ∈ ps → h !! kl.2 = Some q → 0 ≤ pt_Count q) → (best.1 = None → best.2 < 0) →
  (∀ q, best.1 = Some q → best.2 = pt_Count q ∧ 0 ≤ best.2) →
  ∀ q, (foldl (less_used h) best ps).1 = Some q → (∀ q0, best.1 = Some q0 → pt_Count q ≤ pt_Count q0) ∧
    ∀ kl q', kl ∈ ps → h !! kl.2 = Some q' → pt_Count q ≤ pt_Count q'.
Proof.
  revert best. induction ps as [|kl ps IH]; intros best Hpos Hn Hb q Hq; cbn [foldl] in Hq.
  { split; [|intros kl q' Hin; by apply elem_of_nil in Hin]. intros q0 Hq0. rewrite Hq in Hq0. injection Hq0 as ->. lia. }
  destruct (IH (less_used h best kl)) with (q := q) as [I1 I2]; [set_solver| | |done|].
  { unfold less_used. destruct (h !! kl.2); [|done]. by case_match. }
  { unfold less_used. destruct (h !! kl.2) as [p|] eqn:E; [|done]. case_match; [|done].
    intros ? [= <-]. split; [done|]. apply (Hpos kl); [set_solver|done]. }
  unfold less_used in I1. destruct (h !! kl.2) as [p|] eqn:E.
  - destruct ((best.2 <? 0) || (pt_Count p <? best.2)) eqn:Ec; cbn in I1.
    + specialize (I1 p eq_refl). split.
      * intros q0 Hq0. destruct (Hb q0 Hq0). lia.
      * intros kl' q' [->|Hin]%elem_of_cons Hq'; [congruence|by eapply I2].
    + split; [done|]. intros kl' q' [->|Hin]%elem_of_cons Hq'; [|by eapply I2].
      assert (q' = p) as -> by congruence. destruct best.1 as [q0|] eqn:Eb.
      * specialize (I1 q0 eq_refl). destruct (Hb q0 eq_refl). lia.
      * specialize (Hn eq_refl). lia.
  - split; [done|]. intros kl' q' [->|Hin]%elem_of_cons Hq'; [congruence|by eapply I2].
Qed.

(** The limit on patterns. A miner that has no more patterns than its limit has no more
    after any message; when it is full and a message begins a pattern, one stored pattern makes
    room, one that no stored pattern was used less than. *)
Theorem eviction_keeps_the_limit cfg seen m (range : walk) now entry :
  rtc step (∅, NewMiner cfg) (seen, m) → walks_map range →
  0 < maxPatterns m → Z.of_nat (size (patterns m)) ≤ maxPatterns m → Forall (λ p, 0 ≤ pt_Count p) (heap m) →
  let m' := (Process md5_hex range now entry m).1 in
  Z.of_nat (size (patterns m')) ≤ maxPatterns m' ∧
  ∀ id l p, patterns m !! id = Some l → patterns m' !! id ≠ Some l → heap m !! l = Some p →
    ∀ id' q, GetPattern id' m = Some q → pt_Count p ≤ pt_Count q.
Proof.
  intros H Hw Hpos Hsz Hcnt m'. destruct (steps_spec _ _ H (coherent_new cfg)) as [Hco _]. cbn [fst snd] in Hco. clear H.
  unfold m', Process. cbn zeta. set (ts := Tokenize (le_Message entry)). set (m0 := mkMiner _ _ _ _ _ _ _ _).
  destruct (length ts =? 0)%nat; [cbn; by split_and!|]. destruct (best_match m0 ts) as [l0|]; [cbn; by split_and!|].
  change (maxPatterns m0) with (maxPatterns m). change (patterns m0) with (patterns m).
  assert (Hco0 : coherent seen m0) by (destruct Hco; by split).
  set (m1 := if _ <=? _ then _ else m0).
  assert (Hm1 : Z.of_nat (size (patterns m1)) < maxPatterns m1 ∧ maxPatterns m1 = maxPatterns m ∧
    (∀ id l, patterns m1 !! id = Some l → patterns m !! id = Some l) ∧
    ∀ id l p, patterns m !! id = Some l → patterns m1 !! id ≠ Some l → heap m !! l = Some p →
      ∀ id' q, GetPattern id' m = Some q → pt_Count p ≤ pt_Count q).
  { unfold m1. destruct (Z.leb_spec (maxPatterns m) (Z.of_nat (size (patterns m)))) as [Hfull|Hroom]; [|by split_and!].
    destruct (evict_spec range Hw _ _ Hco0) as [[_ Hempty]|(p & l & Hp & Hl & Hh & Hps & _ & _)].
    { change (patterns m0) with (patterns m) in Hempty. rewrite Hempty, map_size_empty in Hfull. lia. }
    change (heap m !! l = Some p) in Hp. change (patterns m !! pt_ID p = Some l) in Hl.
    assert (Hx : maxPatterns (evictPattern range m0) = maxPatterns m) by (unfold evictPattern; by case_match).
    change (patterns m0) with (patterns m) in Hps. rewrite Hx, Hps.
    split_and!; [|done|intros id l'; rewrite lookup_delete_Some; by intros []|].
    - rewrite map_size_delete, Hl. cbn. assert (size (patterns m) ≠ 0%nat); [|lia].
      intros E. apply map_size_empty_inv in E. rewrite E, lookup_empty in Hl. done.
    - intros id l' p' Hl' Hgone Hp' id' q Hq. destruct (decide (id = pt_ID p)) as [->|Hne]; [|by rewrite lookup_delete_ne in Hgone].
      assert (p' = p) as -> by congruence. unfold evictPattern in Hps.
      destruct (find_least (heap m0) (range _ (patterns m0))) as [[p'|] n] eqn:E; cbn in Hps.
      2:{ apply (f_equal (λ ps, ps !! pt_ID p)) in Hps. rewrite lookup_delete_eq in Hps. change (patterns m0) with (patterns m) in *. congruence. }
      destruct (find_least_spec _ _ _ _ E) as (_ & [id1 l1] & Hin1 & Hp1). cbn in Hp1.
      assert (p' = p) as ->.
      { rewrite (Hw _ _) in Hin1. apply elem_of_map_to_list in Hin1. destruct (co_map _ _ Hco0 _ _ Hin1) as (r & Hr & Hrid & _).
        change (heap m !! l1 = Some r) in Hr. change (patterns m !! id1 = Some l1) in Hin1.
        change (patterns m0) with (patterns m) in Hps.
        assert (r = p') as -> by congruence. apply (f_equal (λ ps, ps !! pt_ID p)) in Hps. rewrite lookup_delete_eq in Hps.
        destruct (decide (pt_ID p' = pt_ID p)) as [Eid|Eid].
        - rewrite <- Hrid, Eid, Hl in Hin1. injection Hin1 as ->. congruence.
        - rewrite lookup_delete_ne in Hps by done. congruence. }
      unfold GetPattern in Hq. destruct (patterns m !! id') as [l2|] eqn:E2; cbn in Hq; [|done].
      pose proof (less_used_least (heap m) (range _ (patterns m)) (None, -1)) as Hle.
      rewrite Forall_lookup in Hcnt. destruct (Hle) with (q := p) as [_ Hle']; try done.
      + intros kl r _ Hr. by eapply Hcnt.
      + unfold find_least in E. change (heap m0) with (heap m) in E. change (patterns m0) with (patterns m) in E. by rewrite E.
      + apply (Hle' (id', l2)); [|done]. rewrite (Hw _ _). by apply elem_of_map_to_list. }
  clearbody m1. destruct Hm1 as (Hroom & Hx & Hsub & Hleast).
  destruct (patterns m1 !! HashTemplate (CreateTemplate ts)) as [l|] eqn:Eid; cbn [fst patterns maxPatterns with_heap with_maps].
  - split; [lia|done].
  - split; [rewrite map_size_insert_None by done; lia|]. intros id l p Hl Hgone. apply Hleast with id; [done|].
    intros Hl1. apply Hgone. rewrite lookup_insert_ne; [done|]. intros <-. congruence.
Qed.
End proofs.

(** ** A miner *)

Definition by_text : walk := λ A m, map_to_list m.
Lemma by_text_walks : walks_map by_text.
Proof. by intros A m. Qed.

(** Short texts stand for hashes. *)
Definition demo_hash (s : string) : string := s.
Definition line (msg : string) : LogEntry := mkLogEntry 5 "info" "web" msg.
Definition demo_miner : Miner := NewMiner DefaultMinerConfig.
Definition first_line : LogEntry := line "user 42 logged in".
Definition second_line : LogEntry := line "user ann logged in".
Definition mined : Miner := (Process demo_hash by_text 6 first_line demo_miner).1.

Lemma mined_reached : rtc (step demo_hash) (∅, demo_miner) ({[CreateTemplate (Tokenize (le_Message first_line))]} ∪ ∅, mined).
Proof. apply rtc_once. by apply step_process, by_text_walks. Qed.

Lemma maps_agree_witness : ∃ p, heap mined !! 0%nat = Some p ∧ split_byte " " (pt_Template p) = tk_Value <$> pt_Tokens p.
Proof.
  destruct (maps_agree demo_hash DefaultMinerConfig _ _ mined_reached) as (H & _).
  destruct (H "user <*> logged "%string 0%nat) as (p & Hp & _ & _ & Ht & _); [vm_compute; reflexivity|].
  exists p. split; [exact Hp|exact Ht].
Defined.

Definition mined_pattern : Pattern := Eval vm_compute in default (new_pattern "" "" [] first_line) (heap mined !! 0%nat).
Lemma mined_stores : GetPattern "user <*> logged " mined = Some mined_pattern.
Proof. vm_compute. reflexivity. Qed.
Lemma mined_covers : template_covers (tk_Value <$> pt_Tokens mined_pattern) (Tokenize "user eve logged in").
Proof.
  assert (E : Tokenize "user eve logged in" = ["user"; "eve"; "logged"; "in"]%string) by (vm_compute; reflexivity).
  rewrite E. unfold template_covers. apply (bool_decide_unpack _). vm_compute. exact I.
Qed.

Lemma match_finds_what_is_covered_witness : is_Some (Miner_Match 7 "user eve logged in" mined).
Proof.
  assert (Hlt : Z.of_nat (length (Tokenize "user eve logged in")) < 2 ^ 53) by by vm_compute.
  destruct (match_finds_what_is_covered demo_hash DefaultMinerConfig _ mined 7 "user eve logged in" mined_reached Hlt) as [H _].
  apply H. exists "user <*> logged "%string, mined_pattern. split; [exact mined_stores|exact mined_covers].
Defined.

Definition twice_seen : gset string * Miner :=
  ({[CreateTemplate (Tokenize (le_Message second_line))]} ∪ ({[CreateTemplate (Tokenize (le_Message first_line))]} ∪ ∅),
   (Process demo_hash by_text 7 second_line mined).1).

Lemma processed_messages_stay_covered_witness :
  ∃ l p, (Process demo_hash by_text 7 second_line mined).2 = Some l ∧ covers (pt_Tokens p) ["user"; "ann"; "logged"; "in"].
Proof.
  destruct (processed_messages_stay_covered demo_hash DefaultMinerConfig _ mined by_text 7 second_line twice_seen mined_reached by_text_walks)
    as (l & p & p' & Hl & Hp & _ & _ & Hc & _); [done| | | |apply rtc_refl|].
  - by vm_compute.
  - by vm_compute.
  - intros T T' HT HT'. vm_compute in HT, HT'.
    assert (Hall : ∀ T, T ∈ ({[CreateTemplate (Tokenize (le_Message second_line))]} ∪ ({[CreateTemplate (Tokenize (le_Message first_line))]} ∪ ∅) : gset string) →
      T = "user ann logged in"%string ∨ T = "user <*> logged in"%string).
    { intros T0 [->%elem_of_singleton|[->%elem_of_singleton|H]%elem_of_union]%elem_of_union; [left; vm_compute; reflexivity|right; vm_compute; reflexivity|].
      by apply not_elem_of_empty in H. }
    destruct (Hall T HT) as [-> | ->], (Hall T' HT') as [-> | ->]; done.
  - exists l, p. split; [exact Hl|exact Hc].
Defined.

Lemma eviction_keeps_the_limit_witness :
  Z.of_nat (size (patterns (Process demo_hash by_text 7 second_line mined).1)) ≤ 10000.
Proof.
  destruct (eviction_keeps_the_limit demo_hash DefaultMinerConfig _ mined by_text 7 second_line mined_reached by_text_walks) as [H _].
  - by vm_compute.
  - by vm_compute.
  - repeat constructor; by vm_compute.
  - exact H.
Defined.

(** ** What the miner does otherwise *)

Definition small_miner (children most : Z) : Miner := NewMiner (mkMinerConfig (f64_of_decimal 5 1) children most).
Definition mine (msgs : list string) (m : Miner) : Miner :=
  foldl (λ m msg, (Process demo_hash by_text 6 (line msg) m).1) m msgs.

(** The number of patterns of a length is not limited by maxChildren. *)
Lemma max_children_is_ignored :
  length (at_length 2 (mine ["a b"; "c d"; "e f"] (small_miner 1 0))) = 3%nat.
Proof. vm_compute. reflexivity. Qed.

(** A message of numbers is fully similar to any pattern of its length, and makes it all
    variables: every message of that length joins it from then on. *)
Lemma numbers_swallow_a_pattern :
  let m := mine ["server started"; "42 43"; "user deleted"] (small_miner 0 0) in
  pt_Template <$> heap m = ["<*> <*>"] ∧ pt_Count <$> heap m = [3].
Proof. vm_compute. split; reflexivity. Qed.

(** Variables are counted by asterisks. *)
Lemma asterisks_count_as_variables : countVariables (CreateTemplate ["select"; "count(*)"; "a**b"]) = 3.
Proof. vm_compute. reflexivity. Qed.

(** Patterns imported twice stay in their group when they are evicted: messages then join a
    pattern that no operation lists. *)
Lemma imported_twice_is_never_forgotten :
  let p := new_pattern "id" "user logged" ["user"; "logged"] (line "user logged") in
  let m := mine ["something else entirely"] (Import [p] (Import [p] (small_miner 0 1))) in
  let '(m', l) := Process demo_hash by_text 7 (line "user logged") m in
  (∃ q, l ≫= (λ l, heap m' !! l) = Some q ∧ pt_ID q = "id"%string) ∧ GetPattern "id" m' = None.
Proof. vm_compute. split; [eexists; split; reflexivity|reflexivity]. Qed.
