(* ===== verification/PromValue.v ===== *)
(** The values PromQL computes with (internal/promql/functions.go): samples, series, the
    four kinds of values, and the functions of the registry with their signatures. *)

From Stdlib Require Import String SpecFloat.
From stdpp Require Import base list gmap strings.
From S2P Require Import Prelude Float64.

Inductive ValueType :=
| ValueTypeNone | ValueTypeScalar | ValueTypeVector | ValueTypeMatrix | ValueTypeString.

#[global] Instance ValueType_eq_dec : EqDecision ValueType.
Proof. solve_decision. Defined.

Definition ValueType_String (v : ValueType) : string :=
  match v with
  | ValueTypeNone => "none" | ValueTypeScalar => "scalar" | ValueTypeVector => "vector"
  | ValueTypeMatrix => "matrix" | ValueTypeString => "string"
  end.

Abbreviation Labels := (gmap string string) (only parsing).

Record Sample := mkSample { s_Timestamp : Time; s_Value : float64 }.
Record Series := mkSeries { se_Labels : Labels; se_Samples : list Sample }.
Record VectorSample := mkVectorSample { v_Labels : Labels; v_Value : float64; v_Timestamp : Time }.

(** The implementations of the interface [Value]. *)
Inductive Value :=
| Scalar (Val : float64) (Timestamp : Time)
| Vector (samples : list VectorSample)
| Matrix (series : list Series)
| Str (Val : string) (Timestamp : Time).

Definition Value_Type (v : Value) : ValueType :=
  match v with
  | Scalar _ _ => ValueTypeScalar
  | Vector _ => ValueTypeVector
  | Matrix _ => ValueTypeMatrix
  | Str _ _ => ValueTypeString
  end.

(** %T of a value. *)
Definition Value_name (v : Value) : string :=
  match v with
  | Scalar _ _ => "promql.Scalar" | Vector _ => "promql.Vector"
  | Matrix _ => "promql.Matrix" | Str _ _ => "promql.String"
  end.

Record EvalContext := mkEvalContext { ec_Start : Time; ec_End : Time; ec_Interval : Duration }.

Definition FunctionCall : Type := list Value → EvalContext → result Value.

Record Function := mkFunction {
  f_Name : string;
  f_ArgTypes : list ValueType;
  f_Variadic : Z;
  f_ReturnType : ValueType;
  f_Call : option FunctionCall;
}.
