(* ===== verification/PromFunctions.v ===== *)
(** The functions of PromQL (internal/promql/functions.go): rates and aggregations over the
    samples of a series, histograms, labels, arithmetic of a vector, clocks. Each takes the
    values of its arguments and gives a value; a wrong value or too few panic. *)

From Stdlib Require Import String Ascii SpecFloat.
From stdpp Require Import base option list gmap strings sorting.
From S2P Require Import Prelude Float64 Bytes Format Calendar Grouping Values PromValue.

(** ** What the functions take from Go's standard library *)

(** Package math, the verb %f of [fmt.Sscanf] ([None] where nothing was scanned), and
    [Regexp.ReplaceAllString]. *)
Class Mathematics := {
  math_Log2 : float64 → float64; math_Exp : float64 → float64;
  math_Acos : float64 → float64; math_Acosh : float64 → float64;
  math_Asin : float64 → float64; math_Asinh : float64 → float64;
  math_Atan : float64 → float64; math_Atanh : float64 → float64;
  math_Cos : float64 → float64; math_Cosh : float64 → float64;
  math_Sin : float64 → float64; math_Sinh : float64 → float64;
  math_Tan : float64 → float64; math_Tanh : float64 → float64;
  Sscanf_f : string → option float64;
}.

Definition NaN : float64 := S754_nan.
Definition Inf : float64 := S754_infinity false.
Definition math_Pi : float64 := S754_finite false 7074237752028440 (-51).
Definition f64_one : float64 := f64_of_Z 1.

(** [Duration.Seconds]. *)
Definition Seconds (d : Duration) : float64 :=
  f64_add (f64_of_Z (Z.quot d Second)) (f64_div (f64_of_Z (Z.rem d Second)) (f64_of_Z (10 ^ 9))).

Definition len {A} (l : list A) : float64 := f64_of_Z (Z.of_nat (length l)).

(** ** Arguments *)

Definition arg (args : list Value) (i : nat) : result Value :=
  match args !! i with Some v => Ok v | None => Panic "index out of range" end.
Definition conversion {A} (v : Value) (to : string) : result A :=
  Panic ("interface conversion: promql.Value is " +:+ Value_name v +:+ ", not promql." +:+ to).
Definition as_vector (v : Value) : result (list VectorSample) :=
  match v with Vector l => Ok l | _ => conversion v "Vector" end.
Definition as_matrix (v : Value) : result (list Series) :=
  match v with Matrix m => Ok m | _ => conversion v "Matrix" end.
Definition as_scalar (v : Value) : result float64 :=
  match v with Scalar x _ => Ok x | _ => conversion v "Scalar" end.
Definition as_string (v : Value) : result string :=
  match v with Str s _ => Ok s | _ => conversion v "String" end.

Definition vector_arg (args : list Value) (i : nat) := res_bind (arg args i) as_vector.
Definition matrix_arg (args : list Value) (i : nat) := res_bind (arg args i) as_matrix.
Definition scalar_arg (args : list Value) (i : nat) := res_bind (arg args i) as_scalar.
Definition string_arg (args : list Value) (i : nat) := res_bind (arg args i) as_string.

(** [values[i]]. *)
Definition index (values : list float64) (i : Z) : result float64 :=
  if i <? 0 then Panic "index out of range"
  else match values !! Z.to_nat i with Some v => Ok v | None => Panic "index out of range" end.

(** ** Loops *)

(** The samples of a vector with other values. *)
Definition with_value (f : VectorSample → float64) (s : VectorSample) : VectorSample :=
  mkVectorSample (v_Labels s) (f s) (v_Timestamp s).
Definition with_labels (f : Labels → Labels) (s : VectorSample) : VectorSample :=
  mkVectorSample (f (v_Labels s)) (v_Value s) (v_Timestamp s).
Definition each_value (f : float64 → float64) (l : list VectorSample) : Value :=
  Vector (with_value (λ s, f (v_Value s)) <$> l).

(** A vector with one sample for each series that [f] gives a value and a time. *)
Definition each_series (f : list Sample → option (float64 * Time)) (m : list Series) : Value :=
  Vector (omap (λ se, (λ vt, mkVectorSample (se_Labels se) vt.1 vt.2) <$> f (se_Samples se)) m).

(** Two neighbours in a row, the first and the last, the last two. *)
Definition neighbours (l : list Sample) : list (Sample * Sample) := zip l (tail l).
Definition ends (l : list Sample) : option (Sample * Sample) :=
  match l with first :: _ :: _ => (λ last, (first, last)) <$> last l | _ => None end.
Definition last_two (l : list Sample) : option (Sample * Sample) :=
  match reverse l with last :: prev :: _ => Some (prev, last) | _ => None end.

Definition sum_values (l : list Sample) : float64 := foldl (λ a s, f64_add a (s_Value s)) f64_zero l.
Definition interval (t u : Sample) : float64 := Seconds (time_Sub (s_Timestamp u) (s_Timestamp t)).

(** ** Rates *)

Definition irate (samples : list Sample) : option (float64 * Time) :=
  match last_two samples with
  | Some (prev, last) =>
      let dt := interval prev last in
      if f64_eq dt f64_zero then None
      else
        let rate :=
          if f64_lt (s_Value last) (s_Value prev) then f64_div (s_Value last) dt
          else f64_div (f64_sub (s_Value last) (s_Value prev)) dt in
        Some (rate, s_Timestamp last)
  | None => None
  end.
Definition funcIrate : FunctionCall := λ args _, let! m := matrix_arg args 0 in Ok (each_series irate m).

Definition idelta (samples : list Sample) : option (float64 * Time) :=
  (λ pl, (f64_sub (s_Value pl.2) (s_Value pl.1), s_Timestamp pl.2)) <$> last_two samples.
Definition funcIdelta : FunctionCall := λ args _, let! m := matrix_arg args 0 in Ok (each_series idelta m).

(** What the resets of a counter took away. *)
Definition counterCorrection (samples : list Sample) : float64 :=
  foldl (λ c pn, if f64_lt (s_Value pn.2) (s_Value pn.1) then f64_add c (s_Value pn.1) else c) f64_zero
    (neighbours samples).

(** The start of the series is taken from its first sample, so that nothing is
    extrapolated before it. *)
Definition extrapolated (isCounter isRate : bool) (samples : list Sample) : option (float64 * Time) :=
  match ends samples with
  | None => None
  | Some (first, last) =>
      let correction := if isCounter then counterCorrection samples else f64_zero in
      let durationToStart := interval first first in
      let sampledInterval := interval first last in
      let averageDuration := f64_div sampledInterval (f64_of_Z (Z.of_nat (length samples) - 1)) in
      let durationToEnd :=
        if isCounter && f64_lt (s_Value last) (s_Value first) then averageDuration else interval first last in
      let half := f64_div averageDuration (f64_of_Z 2) in
      let e := f64_add sampledInterval (if f64_lt durationToStart averageDuration then durationToStart else half) in
      let e := f64_add e (if f64_lt durationToEnd averageDuration then durationToEnd else half) in
      let factor := f64_div e sampledInterval in
      let factor := if isRate then f64_div factor sampledInterval else factor in
      Some (f64_mul (f64_add (f64_sub (s_Value last) (s_Value first)) correction) factor, s_Timestamp last)
  end.
Definition extrapolatedRate (m : list Series) (isCounter isRate : bool) : Value :=
  each_series (extrapolated isCounter isRate) m.
Definition funcRate : FunctionCall := λ args _, let! m := matrix_arg args 0 in Ok (extrapolatedRate m true true).
Definition funcIncrease : FunctionCall := λ args _, let! m := matrix_arg args 0 in Ok (extrapolatedRate m true false).
Definition funcDelta : FunctionCall := λ args _, let! m := matrix_arg args 0 in Ok (extrapolatedRate m false false).

(** The sums of x, y, xy and x^2, seconds counted from the first sample. *)
Definition regression_sums (first : Sample) (samples : list Sample) : float64 * float64 * float64 * float64 :=
  foldl (λ '(sx, sy, sxy, sxx) s,
    let x := interval first s in let y := s_Value s in
    (f64_add sx x, f64_add sy y, f64_add sxy (f64_mul x y), f64_add sxx (f64_mul x x)))
    (f64_zero, f64_zero, f64_zero, f64_zero) samples.
Definition linearRegression (first : Sample) (samples : list Sample) : float64 * float64 :=
  let n := len samples in
  let '(sx, sy, sxy, sxx) := regression_sums first samples in
  let slope := f64_div (f64_sub (f64_mul n sxy) (f64_mul sx sy)) (f64_sub (f64_mul n sxx) (f64_mul sx sx)) in
  (slope, f64_div (f64_sub sy (f64_mul slope sx)) n).

(** A function of slope and intercept, for series of two samples or more. *)
Definition regress (f : float64 → float64 → float64) (samples : list Sample) : option (float64 * Time) :=
  (λ fl, let '(slope, intercept) := linearRegression fl.1 samples in (f slope intercept, s_Timestamp fl.2)) <$>
  ends samples.
Definition funcDeriv : FunctionCall := λ args _,
  let! m := matrix_arg args 0 in Ok (each_series (regress (λ slope _, slope)) m).
Definition funcPredictLinear : FunctionCall := λ args _,
  let! m := matrix_arg args 0 in
  let! t := scalar_arg args 1 in
  Ok (each_series (regress (λ slope intercept, f64_add (f64_mul slope t) intercept)) m).

(** The number of neighbours that satisfy a test, at the time of the last sample. *)
Definition count_steps (test : float64 → float64 → bool) (samples : list Sample) : option (float64 * Time) :=
  (λ l, (foldl (λ n pn, if test (s_Value pn.1) (s_Value pn.2) then f64_add n f64_one else n) f64_zero
           (neighbours samples), s_Timestamp l)) <$> last samples.
Definition funcResets : FunctionCall := λ args _,
  let! m := matrix_arg args 0 in Ok (each_series (count_steps (λ prev cur, f64_lt cur prev)) m).
Definition funcChanges : FunctionCall := λ args _,
  let! m := matrix_arg args 0 in Ok (each_series (count_steps (λ prev cur, f64_neq cur prev)) m).

(** ** Aggregations over time *)

(** A value for each series, NaN for none; a series without samples has the zero time. *)
Definition aggregate_series (f : list Sample → result float64) (se : Series) : result (option VectorSample) :=
  let! val := f (se_Samples se) in
  Ok (if is_nan val then None
      else Some (mkVectorSample (se_Labels se) val (default zero_time (s_Timestamp <$> last (se_Samples se))))).
Definition aggregateOverTime (m : list Series) (f : list Sample → result float64) : result Value :=
  let! l := res_mapM (aggregate_series f) m in Ok (Vector (omap id l)).
Definition over_time (f : list Sample → float64) : FunctionCall := λ args _,
  let! m := matrix_arg args 0 in aggregateOverTime m (λ l, Ok (f l)).

Definition average (samples : list Sample) : float64 :=
  match samples with [] => NaN | _ => f64_div (sum_values samples) (len samples) end.
Definition funcAvgOverTime : FunctionCall := over_time average.
Definition funcSumOverTime : FunctionCall := over_time sum_values.

(** The first of the best values. *)
Definition extreme (better : float64 → float64 → bool) (first : float64) (l : list float64) : float64 :=
  foldl (λ best v, if better v best then v else best) first l.
Definition extreme_sample (better : float64 → float64 → bool) (samples : list Sample) : float64 :=
  match samples with [] => NaN | s :: l => extreme better (s_Value s) (s_Value <$> l) end.
Definition funcMinOverTime : FunctionCall := over_time (extreme_sample f64_lt).
Definition funcMaxOverTime : FunctionCall := over_time (extreme_sample f64_gt).
Definition funcCountOverTime : FunctionCall := over_time len.

(** The mean of the squares of the distances to the mean. *)
Definition variance (values : list float64) : float64 :=
  let n := len values in
  let mean := f64_div (foldl f64_add f64_zero values) n in
  f64_div (foldl (λ a v, let d := f64_sub v mean in f64_add a (f64_mul d d)) f64_zero values) n.
Definition stdvar (samples : list Sample) : float64 :=
  match samples with _ :: _ :: _ => variance (s_Value <$> samples) | _ => NaN end.
Definition funcStddevOverTime : FunctionCall := over_time (λ l, math_Sqrt (stdvar l)).
Definition funcStdvarOverTime : FunctionCall := over_time stdvar.

Definition funcLastOverTime : FunctionCall := over_time (λ l, default NaN (s_Value <$> last l)).
Definition funcPresentOverTime : FunctionCall := over_time (λ l, match l with [] => NaN | _ => f64_one end).

(** The value at a rank of sorted values. *)
Definition quantile (q : float64) (values : list float64) : result float64 :=
  match values with
  | [] => Ok NaN
  | first :: _ =>
      let greatest := default first (last values) in
      if is_nan q || f64_lt q f64_zero || f64_gt q f64_one then Ok NaN
      else if f64_eq q f64_zero then Ok first
      else if f64_eq q f64_one then Ok greatest
      else
        let rank := f64_mul q (f64_sub (len values) f64_one) in
        let lower := f64_to_int rank in
        let upper := wrap64 (lower + 1) in
        if Z.of_nat (length values) <=? upper then Ok greatest
        else
          let frac := f64_sub rank (f64_of_Z lower) in
          let! a := index values lower in
          let! b := index values upper in
          Ok (f64_add (f64_mul a (f64_sub f64_one frac)) (f64_mul b frac))
  end.

Section functions.
Context {RT : Runtime} {MT : Mathematics}.

Definition quantile_samples (q : float64) (samples : list Sample) : result float64 :=
  match samples with [] => Ok NaN | _ => quantile q (Float64s (s_Value <$> samples)) end.
Definition funcQuantileOverTime : FunctionCall := λ args _,
  let! q := scalar_arg args 0 in
  let! m := matrix_arg args 1 in aggregateOverTime m (quantile_samples q).

(** ** Keys of label sets *)

Definition sorted_names (names : list string) : list string := merge_sort String.le names.

(** "name=value," for each name; a label that is not there has the empty value. *)
Definition key_of (labels : Labels) (names : list string) : string :=
  String.concat "" ((λ k, k +:+ "=" +:+ default "" (labels !! k) +:+ ",") <$> names).
Definition label_names (labels : Labels) : list string := (map_to_list labels).*1.
Definition labelsWithout (labels : Labels) (exclude : string) : string :=
  key_of labels (sorted_names (filter (λ k, k ≠ exclude) (label_names labels))).
Definition labelsToKey (labels : Labels) : string := key_of labels (sorted_names (label_names labels)).

(** ** Histograms *)

Record bucket := mkBucket { b_bound : float64; b_count : float64 }.
Definition sort_buckets (l : list bucket) : list bucket := sort_Slice (λ x y, f64_lt (b_bound x) (b_bound y)) l.

(** The first bucket of the rank, between its bound and the one before. *)
Fixpoint quantile_bucket (rank lower lowerCount : float64) (l : list bucket) : option float64 :=
  match l with
  | [] => None
  | b :: l =>
      if f64_ge (b_count b) rank then
        Some (if f64_eq (b_count b) lowerCount then lower
              else f64_add lower (f64_div (f64_mul (f64_sub (b_bound b) lower) (f64_sub rank lowerCount))
                                    (f64_sub (b_count b) lowerCount)))
      else quantile_bucket rank (b_bound b) (b_count b) l
  end.

(** The buckets of samples with a bound; a bound that is no number is 0. *)
Definition quantile_bound (le : string) : float64 :=
  if String.eqb le "+Inf" then Inf else default f64_zero (Sscanf_f le).
Definition histogramQuantile (q : float64) (samples : list VectorSample) : float64 :=
  if is_nan q || f64_lt q f64_zero || f64_gt q f64_one then NaN
  else
    let b := sort_buckets
      (omap (λ s, (λ le, mkBucket (quantile_bound le) (v_Value s)) <$> v_Labels s !! "le"%string) samples) in
    match last b with
    | None => NaN
    | Some l =>
        let total := b_count l in
        if f64_eq total f64_zero then NaN
        else default (b_bound l) (quantile_bucket (f64_mul q total) f64_zero f64_zero b)
    end.

(** One sample for each histogram: the samples that differ in the label "le" only. *)
Definition histogram_sample (f : list VectorSample → float64) (buckets : list VectorSample) : option VectorSample :=
  (λ s, mkVectorSample (delete "le"%string (v_Labels s)) (f buckets) (v_Timestamp s)) <$> head buckets.
Definition histograms (f : list VectorSample → float64) (vec : list VectorSample) : list VectorSample :=
  omap (λ kg, histogram_sample f kg.2) (map_order (group_by (λ s, labelsWithout (v_Labels s) "le") vec)).
Definition funcHistogramQuantile : FunctionCall := λ args _,
  let! q := scalar_arg args 0 in
  let! vec := vector_arg args 1 in Ok (Vector (histograms (histogramQuantile q) vec)).

(** ** Labels *)

Definition funcLabelReplace : FunctionCall := λ args _,
  let! vec := vector_arg args 0 in
  let! dst := string_arg args 1 in
  let! replacement := string_arg args 2 in
  let! src := string_arg args 3 in
  let! regexStr := string_arg args 4 in
  let replace (labels : Labels) : Labels :=
    if String.eqb (default "" (labels !! src)) regexStr || String.eqb regexStr ".*"
    then <[dst := replacement]> labels else labels in
  Ok (Vector (with_labels replace <$> vec)).

Definition funcLabelJoin : FunctionCall := λ args _,
  let! vec := vector_arg args 0 in
  let! dst := string_arg args 1 in
  let! sep := string_arg args 2 in
  let! srcs := res_mapM as_string (drop 3 args) in
  Ok (Vector (with_labels (λ labels, <[dst := join sep (omap (λ src, labels !! src) srcs)]> labels) <$> vec)).

(** ** Absence *)

Definition funcAbsent : FunctionCall := λ args ctx,
  let! vec := vector_arg args 0 in
  Ok (Vector (match vec with [] => [mkVectorSample ∅ f64_one (ec_End ctx)] | _ => [] end)).
Definition funcAbsentOverTime : FunctionCall := λ args ctx,
  let! m := matrix_arg args 0 in
  Ok (Vector (if existsb (λ se, negb (bool_decide (se_Samples se = []))) m then []
              else [mkVectorSample ∅ f64_one (ec_End ctx)])).

(** ** Arithmetic *)

Definition makeSimpleMathFunc (f : float64 → float64) : FunctionCall := λ args _,
  let! vec := vector_arg args 0 in Ok (each_value f vec).

Definition funcAbs : FunctionCall := makeSimpleMathFunc math_Abs.
Definition funcCeil : FunctionCall := makeSimpleMathFunc math_Ceil.
Definition funcFloor : FunctionCall := makeSimpleMathFunc math_Floor.
Definition funcRound : FunctionCall := λ args _,
  let! vec := vector_arg args 0 in
  let! toNearest := if (1 <? length args)%nat then scalar_arg args 1 else Ok f64_one in
  Ok (each_value (λ v, f64_mul (math_Round (f64_div v toNearest)) toNearest) vec).
Definition funcSqrt : FunctionCall := makeSimpleMathFunc math_Sqrt.
Definition funcLn : FunctionCall := makeSimpleMathFunc math_Log.
Definition funcLog2 : FunctionCall := makeSimpleMathFunc math_Log2.
Definition funcLog10 : FunctionCall := makeSimpleMathFunc math_Log10.
Definition funcExp : FunctionCall := makeSimpleMathFunc math_Exp.
Definition sgn (v : float64) : float64 :=
  if f64_gt v f64_zero then f64_one else if f64_lt v f64_zero then f64_of_Z (-1) else f64_zero.
Definition funcSgn : FunctionCall := makeSimpleMathFunc sgn.

Definition at_least (min v : float64) : float64 := if f64_lt v min then min else v.
Definition at_most (max v : float64) : float64 := if f64_gt v max then max else v.
Definition funcClamp : FunctionCall := λ args _,
  let! vec := vector_arg args 0 in
  let! min := scalar_arg args 1 in
  let! max := scalar_arg args 2 in Ok (each_value (λ v, at_most max (at_least min v)) vec).
Definition funcClampMin : FunctionCall := λ args _,
  let! vec := vector_arg args 0 in
  let! min := scalar_arg args 1 in Ok (each_value (at_least min) vec).
Definition funcClampMax : FunctionCall := λ args _,
  let! vec := vector_arg args 0 in
  let! max := scalar_arg args 1 in Ok (each_value (at_most max) vec).

Definition funcScalar : FunctionCall := λ args ctx,
  let! vec := vector_arg args 0 in
  Ok (match vec with [s] => Scalar (v_Value s) (v_Timestamp s) | _ => Scalar NaN (ec_End ctx) end).
Definition funcVector : FunctionCall := λ args _,
  let! v := arg args 0 in
  match v with
  | Scalar x t => Ok (Vector [mkVectorSample ∅ x t])
  | _ => conversion v "Scalar"
  end.
Definition funcPi : FunctionCall := λ _ ctx, Ok (Scalar math_Pi (ec_End ctx)).
Definition funcSort : FunctionCall := λ args _,
  let! vec := vector_arg args 0 in Ok (Vector (sort_Slice (λ x y, f64_lt (v_Value x) (v_Value y)) vec)).
Definition funcSortDesc : FunctionCall := λ args _,
  let! vec := vector_arg args 0 in Ok (Vector (sort_Slice (λ x y, f64_gt (v_Value x) (v_Value y)) vec)).

(** ** Clocks

    The times of samples are read in the location they have. *)

Definition funcTime : FunctionCall := λ _ ctx, Ok (Scalar (f64_of_Z (time_Unix (ec_End ctx))) (ec_End ctx)).
Definition clock (f : Time → Z) : FunctionCall := λ args _,
  let! vec := vector_arg args 0 in Ok (Vector (with_value (λ s, f64_of_Z (f (v_Timestamp s))) <$> vec)).
Definition funcTimestamp : FunctionCall := clock time_Unix.

Context (loc : Location).

Definition civil (t : Time) : Civil := civil_of_day (local_day loc t).
Definition funcDayOfMonth : FunctionCall := clock (λ t, c_Day (civil t)).
Definition funcDayOfWeek : FunctionCall := clock (Weekday loc).
Definition funcDayOfYear : FunctionCall := clock (λ t, YearDay (local_day loc t)).
(** The day before the first of the next month. *)
Definition days_in_month (t : Time) : Z :=
  let c := civil t in
  let nextMonth := Date loc (day_of_civil (mkCivil (c_Year c) (c_Month c + 1) 1)) 0 in
  c_Day (civil (AddDays loc (-1) nextMonth)).
Definition funcDaysInMonth : FunctionCall := clock days_in_month.
Definition funcHour : FunctionCall := clock (λ t, local_sec loc t / 3600).
Definition funcMinute : FunctionCall := clock (λ t, local_minutes loc t mod 60).
Definition funcMonth : FunctionCall := clock (λ t, c_Month (civil t)).
Definition funcYear : FunctionCall := clock (λ t, c_Year (civil t)).

(** ** The registry of functions.go *)

Definition fn (name : string) (argTypes : list ValueType) (variadic : Z) (ret : ValueType) (call : FunctionCall) :
    Function := mkFunction name argTypes variadic ret (Some call).
Definition sample_functions : list Function := ([
  fn "rate" [ValueTypeMatrix] 0 ValueTypeVector funcRate;
  fn "irate" [ValueTypeMatrix] 0 ValueTypeVector funcIrate;
  fn "increase" [ValueTypeMatrix] 0 ValueTypeVector funcIncrease;
  fn "delta" [ValueTypeMatrix] 0 ValueTypeVector funcDelta;
  fn "idelta" [ValueTypeMatrix] 0 ValueTypeVector funcIdelta;
  fn "deriv" [ValueTypeMatrix] 0 ValueTypeVector funcDeriv;
  fn "predict_linear" [ValueTypeMatrix; ValueTypeScalar] 0 ValueTypeVector funcPredictLinear;
  fn "resets" [ValueTypeMatrix] 0 ValueTypeVector funcResets;
  fn "changes" [ValueTypeMatrix] 0 ValueTypeVector funcChanges;
  fn "avg_over_time" [ValueTypeMatrix] 0 ValueTypeVector funcAvgOverTime;
  fn "sum_over_time" [ValueTypeMatrix] 0 ValueTypeVector funcSumOverTime;
  fn "min_over_time" [ValueTypeMatrix] 0 ValueTypeVector funcMinOverTime;
  fn "max_over_time" [ValueTypeMatrix] 0 ValueTypeVector funcMaxOverTime;
  fn "count_over_time" [ValueTypeMatrix] 0 ValueTypeVector funcCountOverTime;
  fn "stddev_over_time" [ValueTypeMatrix] 0 ValueTypeVector funcStddevOverTime;
  fn "stdvar_over_time" [ValueTypeMatrix] 0 ValueTypeVector funcStdvarOverTime;
  fn "quantile_over_time" [ValueTypeScalar; ValueTypeMatrix] 0 ValueTypeVector funcQuantileOverTime;
  fn "last_over_time" [ValueTypeMatrix] 0 ValueTypeVector funcLastOverTime;
  fn "present_over_time" [ValueTypeMatrix] 0 ValueTypeVector funcPresentOverTime])%string.
Definition vector_functions : list Function := ([
  fn "histogram_quantile" [ValueTypeScalar; ValueTypeVector] 0 ValueTypeVector funcHistogramQuantile;
  fn "label_replace" [ValueTypeVector; ValueTypeString; ValueTypeString; ValueTypeString; ValueTypeString] 0 ValueTypeVector funcLabelReplace;
  fn "label_join" [ValueTypeVector; ValueTypeString; ValueTypeString] (-1) ValueTypeVector funcLabelJoin;
  fn "absent" [ValueTypeVector] 0 ValueTypeVector funcAbsent;
  fn "absent_over_time" [ValueTypeMatrix] 0 ValueTypeVector funcAbsentOverTime;
  fn "abs" [ValueTypeVector] 0 ValueTypeVector funcAbs;
  fn "ceil" [ValueTypeVector] 0 ValueTypeVector funcCeil;
  fn "floor" [ValueTypeVector] 0 ValueTypeVector funcFloor;
  fn "round" [ValueTypeVector] 1 ValueTypeVector funcRound;
  fn "sqrt" [ValueTypeVector] 0 ValueTypeVector funcSqrt;
  fn "ln" [ValueTypeVector] 0 ValueTypeVector funcLn;
  fn "log2" [ValueTypeVector] 0 ValueTypeVector funcLog2;
  fn "log10" [ValueTypeVector] 0 ValueTypeVector funcLog10;
  fn "exp" [ValueTypeVector] 0 ValueTypeVector funcExp;
  fn "sgn" [ValueTypeVector] 0 ValueTypeVector funcSgn;
  fn "clamp" [ValueTypeVector; ValueTypeScalar; ValueTypeScalar] 0 ValueTypeVector funcClamp;
  fn "clamp_min" [ValueTypeVector; ValueTypeScalar] 0 ValueTypeVector funcClampMin;
  fn "clamp_max" [ValueTypeVector; ValueTypeScalar] 0 ValueTypeVector funcClampMax;
  fn "scalar" [ValueTypeVector] 0 ValueTypeScalar funcScalar;
  fn "vector" [ValueTypeScalar] 0 ValueTypeVector funcVector])%string.
Definition clock_functions : list Function := ([
  fn "time" [] 0 ValueTypeScalar funcTime;
  fn "timestamp" [ValueTypeVector] 0 ValueTypeVector funcTimestamp;
  fn "day_of_month" [ValueTypeVector] 1 ValueTypeVector funcDayOfMonth;
  fn "day_of_week" [ValueTypeVector] 1 ValueTypeVector funcDayOfWeek;
  fn "day_of_year" [ValueTypeVector] 1 ValueTypeVector funcDayOfYear;
  fn "days_in_month" [ValueTypeVector] 1 ValueTypeVector funcDaysInMonth;
  fn "hour" [ValueTypeVector] 1 ValueTypeVector funcHour;
  fn "minute" [ValueTypeVector] 1 ValueTypeVector funcMinute;
  fn "month" [ValueTypeVector] 1 ValueTypeVector funcMonth;
  fn "year" [ValueTypeVector] 1 ValueTypeVector funcYear;
  fn "sort" [ValueTypeVector] 0 ValueTypeVector funcSort;
  fn "sort_desc" [ValueTypeVector] 0 ValueTypeVector funcSortDesc])%string.
Definition trigonometric_functions : list Function := ([
  fn "acos" [ValueTypeVector] 0 ValueTypeVector (makeSimpleMathFunc math_Acos);
  fn "acosh" [ValueTypeVector] 0 ValueTypeVector (makeSimpleMathFunc math_Acosh);
  fn "asin" [ValueTypeVector] 0 ValueTypeVector (makeSimpleMathFunc math_Asin);
  fn "asinh" [ValueTypeVector] 0 ValueTypeVector (makeSimpleMathFunc math_Asinh);
  fn "atan" [ValueTypeVector] 0 ValueTypeVector (makeSimpleMathFunc math_Atan);
  fn "atanh" [ValueTypeVector] 0 ValueTypeVector (makeSimpleMathFunc math_Atanh);
  fn "cos" [ValueTypeVector] 0 ValueTypeVector (makeSimpleMathFunc math_Cos);
  fn "cosh" [ValueTypeVector] 0 ValueTypeVector (makeSimpleMathFunc math_Cosh);
  fn "sin" [ValueTypeVector] 0 ValueTypeVector (makeSimpleMathFunc math_Sin);
  fn "sinh" [ValueTypeVector] 0 ValueTypeVector (makeSimpleMathFunc math_Sinh);
  fn "tan" [ValueTypeVector] 0 ValueTypeVector (makeSimpleMathFunc math_Tan);
  fn "tanh" [ValueTypeVector] 0 ValueTypeVector (makeSimpleMathFunc math_Tanh);
  fn "deg" [ValueTypeVector] 0 ValueTypeVector (makeSimpleMathFunc (λ v, f64_div (f64_mul v (f64_of_Z 180)) math_Pi));
  fn "rad" [ValueTypeVector] 0 ValueTypeVector (makeSimpleMathFunc (λ v, f64_div (f64_mul v math_Pi) (f64_of_Z 180)));
  fn "pi" [] 0 ValueTypeScalar funcPi])%string.
Definition Functions_go : list Function := sample_functions ++ vector_functions ++ clock_functions ++ trigonometric_functions.
End functions.
