(* ===== verification/PromMetricsql.v ===== *)
(** The functions of PromQL that extend Prometheus (internal/promql/metricsql.go): labels by
    pairs and by expression, unions, running aggregations, outliers, histograms, shares of
    the samples over a threshold. *)

From Stdlib Require Import String Ascii SpecFloat.
From stdpp Require Import base option list gmap sets strings sorting.
From S2P Require Import Prelude Float64 Bytes Format Calendar Grouping Values PromValue PromFunctions.

(** Package regexp, as far as the other parts do not use it. *)
Class Regexps {RT : Runtime} := { ReplaceAllString : Regexp → string → string → string }.

Section functions.
Context {RT : Runtime} {MT : Mathematics} {RX : Regexps}.

(** ** Labels *)

(** The arguments two by two, from the second on; one that is left over is not read. *)
Fixpoint label_pairs (f : string → string → Labels → Labels) (args : list Value) (labels : Labels) :
    result Labels :=
  match args with
  | a :: b :: args =>
      let! x := as_string a in
      let! y := as_string b in label_pairs f args (f x y labels)
  | _ => Ok labels
  end.

(** The arguments are read for every sample. *)
Definition each_labels (f : Labels → result Labels) (vec : list VectorSample) : result Value :=
  let! l := res_mapM (λ s, let! labels := f (v_Labels s) in Ok (with_labels (λ _, labels) s)) vec in
  Ok (Vector l).
Definition by_pairs (f : string → string → Labels → Labels) : FunctionCall := λ args _,
  let! vec := vector_arg args 0 in each_labels (label_pairs f (drop 1 args)) vec.

Definition set_label (label value : string) (labels : Labels) : Labels :=
  if String.eqb value "" then delete label labels else <[label := value]> labels.
Definition copy_label (src dst : string) (labels : Labels) : Labels :=
  match labels !! src with Some v => <[dst := v]> labels | None => labels end.
Definition move_label (src dst : string) (labels : Labels) : Labels :=
  match labels !! src with Some v => delete src (<[dst := v]> labels) | None => labels end.
Definition funcLabelSet : FunctionCall := by_pairs set_label.
Definition funcLabelCopy : FunctionCall := by_pairs copy_label.
Definition funcLabelMove : FunctionCall := by_pairs move_label.

(** The names in the arguments after the vector. *)
Definition names_after (args : list Value) : result (gset string) :=
  let! names := res_mapM as_string (drop 1 args) in Ok (list_to_set names).
Definition funcLabelDel : FunctionCall := λ args _,
  let! vec := vector_arg args 0 in
  let! names := names_after args in
  Ok (Vector (with_labels (filter (λ kv, kv.1 ∉ names)) <$> vec)).
Definition funcLabelKeep : FunctionCall := λ args _,
  let! vec := vector_arg args 0 in
  let! names := names_after args in
  Ok (Vector (with_labels (filter (λ kv, kv.1 ∈ names ∪ {["__name__"%string]})) <$> vec)).

Definition compile (regexStr : string) : result Regexp :=
  match regexp_Compile regexStr with inl re => Ok re | inr e => Err e end.

Definition funcLabelTransform : FunctionCall := λ args _,
  let! vec := vector_arg args 0 in
  let! label := string_arg args 1 in
  let! regexStr := string_arg args 2 in
  let! replacement := string_arg args 3 in
  let! re := compile regexStr in
  Ok (Vector (with_labels (alter (λ val, ReplaceAllString re val replacement) label) <$> vec)).

Definition label_matches (re : Regexp) (label : string) (s : VectorSample) : bool :=
  match v_Labels s !! label with Some val => MatchString re val | None => false end.
Definition funcLabelMatch : FunctionCall := λ args _,
  let! vec := vector_arg args 0 in
  let! label := string_arg args 1 in
  let! regexStr := string_arg args 2 in
  let! re := compile regexStr in
  Ok (Vector (filter (λ s, label_matches re label s = true) vec)).
Definition funcLabelMismatch : FunctionCall := λ args _,
  let! vec := vector_arg args 0 in
  let! label := string_arg args 1 in
  let! regexStr := string_arg args 2 in
  let! re := compile regexStr in
  Ok (Vector (filter (λ s, label_matches re label s = false) vec)).

(** ** Vectors *)

(** The first sample of each label set. *)
Definition union_step (st : gset string * list VectorSample) (s : VectorSample) : gset string * list VectorSample :=
  let '(seen, result) := st in
  let key := labelsToKey (v_Labels s) in
  if decide (key ∈ seen) then st else ({[key]} ∪ seen, result ++ [s]).
Definition union_vectors (vecs : list (list VectorSample)) : list VectorSample :=
  (foldl union_step (∅, []) (concat vecs)).2.
Definition funcUnion : FunctionCall := λ args _,
  let! vecs := res_mapM as_vector args in Ok (Vector (union_vectors vecs)).

Definition by_labels (vec : list VectorSample) : gmap string VectorSample :=
  foldl (λ m s, <[labelsToKey (v_Labels s) := s]> m) ∅ vec.
Definition funcRU : FunctionCall := λ args _,
  let! freeVec := vector_arg args 0 in
  let! maxVec := vector_arg args 1 in
  Ok (Vector (omap (λ free,
    match by_labels maxVec !! labelsToKey (v_Labels free) with
    | Some max =>
        if f64_neq (v_Value max) f64_zero
        then Some (with_value (λ _, f64_div (f64_sub (v_Value max) (v_Value free)) (v_Value max)) free)
        else None
    | None => None
    end) freeVec)).

(** ** Series *)

Definition timeToFill (slope intercept : float64) : float64 :=
  if f64_ge slope f64_zero then Inf
  else
    let ttf := f64_div (f64_neg intercept) slope in
    if f64_lt ttf f64_zero then f64_zero else ttf.
Definition funcTTF : FunctionCall := λ args _,
  let! m := matrix_arg args 0 in Ok (each_series (regress timeToFill) m).

Definition half : float64 := f64_of_decimal 5 1.
Definition funcRangeMedian : FunctionCall := λ args _,
  let! m := matrix_arg args 0 in aggregateOverTime m (quantile_samples half).
Definition funcRangeFirst : FunctionCall := over_time (λ l, default NaN (s_Value <$> head l)).
Definition funcRangeLast : FunctionCall := over_time (λ l, default NaN (s_Value <$> last l)).

(** The samples of a series with the values an accumulator gives. *)
Fixpoint running {S} (step : S → float64 → S) (out : S → float64) (s : S) (l : list Sample) : list Sample :=
  match l with
  | [] => []
  | x :: l => let s := step s (s_Value x) in mkSample (s_Timestamp x) (out s) :: running step out s l
  end.
Definition over_series (f : list Sample → list Sample) (m : list Series) : Value :=
  Matrix ((λ se, mkSeries (se_Labels se) (f (se_Samples se))) <$> m).
Definition negInf : float64 := S754_infinity true.

Definition funcRunningSum : FunctionCall := λ args _,
  let! m := matrix_arg args 0 in Ok (over_series (running f64_add id f64_zero) m).
Definition funcRunningMax : FunctionCall := λ args _,
  let! m := matrix_arg args 0 in Ok (over_series (running (λ best v, if f64_gt v best then v else best) id negInf) m).
Definition funcRunningMin : FunctionCall := λ args _,
  let! m := matrix_arg args 0 in Ok (over_series (running (λ best v, if f64_lt v best then v else best) id Inf) m).
Definition funcRunningAvg : FunctionCall := λ args _,
  let! m := matrix_arg args 0 in
  Ok (over_series (running (λ '(sum, n) v, (f64_add sum v, n + 1)) (λ '(sum, n), f64_div sum (f64_of_Z n))
                     (f64_zero, 0)) m).

Definition smooth (sf : float64) (l : list Sample) : list Sample :=
  match l with
  | [] => []
  | x :: _ =>
      running (λ smoothed v, f64_add (f64_mul sf v) (f64_mul (f64_sub f64_one sf) smoothed)) id (s_Value x) l
  end.
Definition funcSmoothExponential : FunctionCall := λ args _,
  let! m := matrix_arg args 0 in
  let! sf := scalar_arg args 1 in
  let sf := if f64_lt sf f64_zero || f64_gt sf f64_one then half else sf in
  Ok (over_series (smooth sf) m).

(** ** Outliers *)

Definition funcOutliersMAD : FunctionCall := λ args _,
  let! vec := vector_arg args 0 in
  let! threshold := scalar_arg args 1 in
  match vec with
  | [] => Ok (Vector [])
  | _ =>
      let values := Float64s (v_Value <$> vec) in
      let! median := quantile half values in
      let! mad := quantile half (Float64s ((λ v, math_Abs (f64_sub v median)) <$> values)) in
      let score (s : VectorSample) : float64 :=
        f64_div (f64_mul (f64_of_decimal 6745 4) (math_Abs (f64_sub (v_Value s) median))) mad in
      Ok (Vector (if f64_eq mad f64_zero then [] else filter (λ s, f64_gt (score s) threshold = true) vec))
  end.

Definition funcOutliersIQR : FunctionCall := λ args _,
  let! vec := vector_arg args 0 in
  let! threshold := scalar_arg args 1 in
  match vec with
  | [] => Ok (Vector [])
  | _ =>
      let values := Float64s (v_Value <$> vec) in
      let! q1 := quantile (f64_of_decimal 25 2) values in
      let! q3 := quantile (f64_of_decimal 75 2) values in
      let iqr := f64_sub q3 q1 in
      let lower := f64_sub q1 (f64_mul threshold iqr) in
      let upper := f64_add q3 (f64_mul threshold iqr) in
      Ok (Vector (filter (λ s, f64_lt (v_Value s) lower || f64_gt (v_Value s) upper = true) vec))
  end.

(** ** Histograms *)

(** A value for each histogram, NaN for none. *)
Definition number_histograms (f : list VectorSample → float64) (vec : list VectorSample) : list VectorSample :=
  filter (λ s, is_nan (v_Value s) = false) (histograms f vec).

(** The buckets with a bound that is a number. *)
Definition finite_buckets (samples : list VectorSample) : list bucket :=
  sort_buckets (omap (λ s,
    match v_Labels s !! "le"%string with
    | Some le => if String.eqb le "+Inf" then None else (λ bound, mkBucket bound (v_Value s)) <$> Sscanf_f le
    | None => None
    end) samples).

(** The buckets with the last one, and its count; the last of several counts. *)
Definition share_bucket (s : VectorSample) : option bucket :=
  match v_Labels s !! "le"%string with
  | Some le =>
      if String.eqb le "+Inf" then Some (mkBucket Inf (v_Value s))
      else (λ bound, mkBucket bound (v_Value s)) <$> Sscanf_f le
  | None => None
  end.
Definition share_total (samples : list VectorSample) : float64 :=
  foldl (λ total s, if bool_decide (v_Labels s !! "le"%string = Some "+Inf"%string) then v_Value s else total)
    f64_zero samples.
Fixpoint share_below (le total : float64) (prev : option bucket) (l : list bucket) : float64 :=
  match l with
  | [] => f64_one
  | b :: l =>
      if f64_ge (b_bound b) le then
        match prev with
        | None => f64_div (b_count b) total
        | Some p =>
            if f64_eq (b_bound b) (b_bound p) then f64_div (b_count b) total
            else
              let fraction := f64_div (f64_sub le (b_bound p)) (f64_sub (b_bound b) (b_bound p)) in
              f64_div (f64_add (b_count p) (f64_mul fraction (f64_sub (b_count b) (b_count p)))) total
        end
      else share_below le total (Some b) l
  end.
Definition histogramShare (le : float64) (samples : list VectorSample) : float64 :=
  let total := share_total samples in
  if f64_eq total f64_zero then NaN
  else share_below le total None (sort_buckets (omap share_bucket samples)).
Definition funcHistogramShare : FunctionCall := λ args _,
  let! vec := vector_arg args 0 in
  let! le := scalar_arg args 1 in Ok (Vector (number_histograms (histogramShare le) vec)).

(** The sum over the buckets of a function of their midpoints, weighted by their counts,
    and the count of them all. *)
Definition midpoint_sums (f : float64 → float64) (l : list bucket) : float64 * float64 :=
  let '(sum, total, _, _) :=
    foldl (λ '(sum, total, prevBound, prevCount) b,
      let countInBucket := f64_sub (b_count b) prevCount in
      let midpoint := f64_div (f64_add prevBound (b_bound b)) (f64_of_Z 2) in
      (f64_add sum (f64_mul (f midpoint) countInBucket), f64_add total countInBucket, b_bound b, b_count b))
      (f64_zero, f64_zero, f64_zero, f64_zero) l in
  (sum, total).
Definition midpoint_mean (f : float64 → float64) (l : list bucket) : float64 :=
  let '(sum, total) := midpoint_sums f l in if f64_eq total f64_zero then NaN else f64_div sum total.

Definition histogramAverage (samples : list VectorSample) : float64 :=
  match finite_buckets samples with [] => NaN | b => midpoint_mean id b end.
Definition funcHistogramAvg : FunctionCall := λ args _,
  let! vec := vector_arg args 0 in Ok (Vector (number_histograms histogramAverage vec)).

Definition histogramVariance (samples : list VectorSample) : float64 :=
  let avg := histogramAverage samples in
  if is_nan avg then NaN
  else midpoint_mean (λ midpoint, let diff := f64_sub midpoint avg in f64_mul diff diff) (finite_buckets samples).
Definition funcHistogramStdvar : FunctionCall := λ args _,
  let! vec := vector_arg args 0 in Ok (Vector (number_histograms histogramVariance vec)).

(** ** Thresholds *)

(** A function of a threshold and the samples of each series. *)
Definition threshold_function (f : float64 → list Sample → float64) : FunctionCall := λ args _,
  let! m := matrix_arg args 0 in
  let! threshold := scalar_arg args 1 in aggregateOverTime m (λ l, Ok (f threshold l)).

(** The time after samples over the threshold; 0 for fewer than two samples. *)
Definition duration_over (threshold : float64) (samples : list Sample) : float64 :=
  foldl (λ d pn, if f64_gt (s_Value pn.1) threshold then f64_add d (interval pn.1 pn.2) else d) f64_zero
    (neighbours samples).
Definition funcDurationOverTime : FunctionCall := threshold_function duration_over.

Definition count_over (test : float64 → float64 → bool) (threshold : float64) (samples : list Sample) : Z :=
  Z.of_nat (length (filter (λ s, test (s_Value s) threshold = true) samples)).
Definition share_over (test : float64 → float64 → bool) (threshold : float64) (samples : list Sample) : float64 :=
  match samples with [] => NaN | _ => f64_div (f64_of_Z (count_over test threshold samples)) (len samples) end.
Definition funcShareGTOverTime : FunctionCall := threshold_function (share_over f64_gt).
Definition funcShareLEOverTime : FunctionCall := threshold_function (share_over f64_le).
Definition funcCountGTOverTime : FunctionCall := threshold_function (λ t l, f64_of_Z (count_over f64_gt t l)).
Definition funcCountLEOverTime : FunctionCall := threshold_function (λ t l, f64_of_Z (count_over f64_le t l)).

(** ** Intervals *)

Definition funcLag : FunctionCall := λ args ctx,
  let! m := matrix_arg args 0 in
  Ok (each_series (λ l, (λ x, (Seconds (time_Sub (ec_End ctx) (s_Timestamp x)), ec_End ctx)) <$> last l) m).
Definition funcLifetime : FunctionCall := λ args _,
  let! m := matrix_arg args 0 in
  Ok (each_series (λ l, (λ fl, (interval fl.1 fl.2, s_Timestamp fl.2)) <$> ends l) m).
Definition funcScrapeInterval : FunctionCall := λ args _,
  let! m := matrix_arg args 0 in
  Ok (each_series (λ l,
    (λ fl, (f64_div (interval fl.1 fl.2) (f64_of_Z (Z.of_nat (length l) - 1)), s_Timestamp fl.2)) <$> ends l) m).

(** ** The registry, with what the initialisation of metricsql.go adds; a name of an alias
    is that of the alias *)
Definition label_functions : list Function := ([
  fn "label_set" [ValueTypeVector; ValueTypeString; ValueTypeString] (-1) ValueTypeVector funcLabelSet;
  fn "label_del" [ValueTypeVector; ValueTypeString] (-1) ValueTypeVector funcLabelDel;
  fn "label_keep" [ValueTypeVector; ValueTypeString] (-1) ValueTypeVector funcLabelKeep;
  fn "label_copy" [ValueTypeVector; ValueTypeString; ValueTypeString] (-1) ValueTypeVector funcLabelCopy;
  fn "label_move" [ValueTypeVector; ValueTypeString; ValueTypeString] (-1) ValueTypeVector funcLabelMove;
  fn "label_transform" [ValueTypeVector; ValueTypeString; ValueTypeString; ValueTypeString] 0 ValueTypeVector funcLabelTransform;
  fn "label_match" [ValueTypeVector; ValueTypeString; ValueTypeString] 0 ValueTypeVector funcLabelMatch;
  fn "label_mismatch" [ValueTypeVector; ValueTypeString; ValueTypeString] 0 ValueTypeVector funcLabelMismatch])%string.
Definition series_functions : list Function := ([
  fn "union" [ValueTypeVector] (-1) ValueTypeVector funcUnion;
  fn "ru" [ValueTypeVector; ValueTypeVector] 0 ValueTypeVector funcRU;
  fn "ttf" [ValueTypeMatrix] 0 ValueTypeVector funcTTF;
  fn "range_median" [ValueTypeMatrix] 0 ValueTypeVector funcRangeMedian;
  fn "range_first" [ValueTypeMatrix] 0 ValueTypeVector funcRangeFirst;
  fn "range_last" [ValueTypeMatrix] 0 ValueTypeVector funcRangeLast;
  fn "running_sum" [ValueTypeMatrix] 0 ValueTypeMatrix funcRunningSum;
  fn "running_max" [ValueTypeMatrix] 0 ValueTypeMatrix funcRunningMax;
  fn "running_min" [ValueTypeMatrix] 0 ValueTypeMatrix funcRunningMin;
  fn "running_avg" [ValueTypeMatrix] 0 ValueTypeMatrix funcRunningAvg;
  fn "smooth_exponential" [ValueTypeMatrix; ValueTypeScalar] 0 ValueTypeMatrix funcSmoothExponential])%string.
Definition distribution_functions : list Function := ([
  fn "outliers_mad" [ValueTypeVector; ValueTypeScalar] 0 ValueTypeVector funcOutliersMAD;
  fn "outliers_iqr" [ValueTypeVector; ValueTypeScalar] 0 ValueTypeVector funcOutliersIQR;
  fn "histogram_share" [ValueTypeVector; ValueTypeScalar] 0 ValueTypeVector funcHistogramShare;
  fn "histogram_avg" [ValueTypeVector] 0 ValueTypeVector funcHistogramAvg;
  fn "histogram_stdvar" [ValueTypeVector] 0 ValueTypeVector funcHistogramStdvar;
  fn "duration_over_time" [ValueTypeMatrix; ValueTypeScalar] 0 ValueTypeVector funcDurationOverTime;
  fn "share_gt_over_time" [ValueTypeMatrix; ValueTypeScalar] 0 ValueTypeVector funcShareGTOverTime;
  fn "share_le_over_time" [ValueTypeMatrix; ValueTypeScalar] 0 ValueTypeVector funcShareLEOverTime;
  fn "count_gt_over_time" [ValueTypeMatrix; ValueTypeScalar] 0 ValueTypeVector funcCountGTOverTime;
  fn "count_le_over_time" [ValueTypeMatrix; ValueTypeScalar] 0 ValueTypeVector funcCountLEOverTime;
  fn "lag" [ValueTypeMatrix] 0 ValueTypeVector funcLag;
  fn "lifetime" [ValueTypeMatrix] 0 ValueTypeVector funcLifetime;
  fn "scrape_interval" [ValueTypeMatrix] 0 ValueTypeVector funcScrapeInterval;
  fn "first_over_time" [ValueTypeMatrix] 0 ValueTypeVector funcRangeFirst;
  fn "median_over_time" [ValueTypeMatrix] 0 ValueTypeVector funcRangeMedian])%string.
Definition Functions_metricsql : list Function := label_functions ++ series_functions ++ distribution_functions.

Definition registered (loc : Location) : list Function := Functions_go loc ++ Functions_metricsql.
Definition Functions (loc : Location) : gmap string Function :=
  list_to_map ((λ f, (f_Name f, f)) <$> registered loc).
Definition GetFunction (loc : Location) (name : string) : option Function := Functions loc !! name.

(** No name is registered twice, so that the order of the registration does not matter. *)
Lemma registered_names loc : NoDup (f_Name <$> registered loc).
Proof. apply (bool_decide_unpack _). vm_compute. exact I. Qed.

Lemma GetFunction_spec loc name f : GetFunction loc name = Some f ↔ f ∈ registered loc ∧ f_Name f = name.
Proof.
  unfold GetFunction, Functions. split.
  - intros (g & [= -> <-] & Hg)%elem_of_list_to_map_2%list_elem_of_fmap. done.
  - intros [Hf <-]. apply elem_of_list_to_map_1.
    + rewrite <- list_fmap_compose. apply registered_names.
    + apply list_elem_of_fmap. by exists f.
Qed.
End functions.
