(* ===== verification/PromTypes.v ===== *)
(** The types of the functions of PromQL: every function of the registry, applied to values
    of its signature, gives a value of its type or an error, and does not panic. *)

From Stdlib Require Import String Ascii SpecFloat.
From stdpp Require Import base option list gmap numbers strings.
From S2P Require Import Prelude Float64 FloatFacts Calendar Grouping Values PromValue PromFunctions PromMetricsql.

(** ** Quantiles *)

Lemma f64_trichotomy x y : is_nan x = false → is_nan y = false →
  f64_lt x y = false → f64_eq x y = false → f64_lt y x = true.
Proof.
  intros Hx Hy. unfold f64_lt, f64_eq, SFltb, SFeqb. rewrite (SFcompare_swap x y).
  destruct (SFcompare x y) as [[]|] eqn:E; try done. by destruct x as [[]|[]| |[]], y as [[]|[]| |[]].
Qed.

Lemma f64_to_int_mag x b : mag_le x b → f64_unsigned x → 0 ≤ b ≤ 62 → 0 ≤ f64_to_int x < 2 ^ b.
Proof.
  intros Hm Hs Hb. assert (Hp : 0 < 2 ^ b) by (apply Z.pow_pos_nonneg; lia).
  destruct x as [s|s| |s m e]; [cbn; lia|done|done|]. rewrite (Hs _ _ _ eq_refl). cbn [mag_le f64_to_int] in *.
  pose proof (digits2_pos_upper m) as Hd. set (d := Z.pos (digits2_pos m)) in *.
  set (v := if 0 <=? e then Z.pos m * 2 ^ e else Z.pos m / 2 ^ (- e)).
  assert (Hv : 0 ≤ v < 2 ^ b).
  { subst v. destruct (Z.leb_spec 0 e) as [He|He].
    - assert (0 < 2 ^ e) by (apply Z.pow_pos_nonneg; lia).
      assert (2 ^ (d + e) ≤ 2 ^ b) by (apply Z.pow_le_mono_r; lia). rewrite Z.pow_add_r in * by lia. nia.
    - assert (0 < 2 ^ - e) by (apply Z.pow_pos_nonneg; lia). split; [apply Z.div_pos; lia|].
      apply Z.div_lt_upper_bound; [done|]. rewrite <- Z.pow_add_r by lia.
      assert (2 ^ d ≤ 2 ^ (- e + b)) by (apply Z.pow_le_mono_r; lia). lia. }
  assert (2 ^ b ≤ 2 ^ 62) by (apply Z.pow_le_mono_r; lia).
  replace ((int64_min <=? v) && (v <=? int64_max)) with true by (unfold int64_min, int64_max; lia). done.
Qed.

Lemma index_ok values i : 0 ≤ i < Z.of_nat (length values) → ∃ v, index values i = Ok v.
Proof.
  intros Hi. unfold index. replace (i <? 0) with false by lia.
  destruct (lookup_lt_is_Some_2 values (Z.to_nat i)) as [v ->]; [lia|]. by exists v.
Qed.

Lemma quantile_ok q values :
  f64_valid q → Z.of_nat (length values) < 2 ^ 53 → ∃ v, quantile q values = Ok v.
Proof.
  intros Hq Hl. destruct values as [|first values]; [by eexists|]. unfold quantile.
  set (l := first :: values) in *. destruct (is_nan q) eqn:Hn; [by eexists|].
  destruct (f64_lt q f64_zero) eqn:H0; [by eexists|]. destruct (f64_gt q f64_one) eqn:H1; [by eexists|]. cbn [orb].
  destruct (f64_eq q f64_zero) eqn:E0; [by eexists|]. destruct (f64_eq q f64_one) eqn:E1; [by eexists|].
  pose proof (f64_trichotomy q f64_zero Hn eq_refl H0 E0) as Hpos.
  assert (Hone : f64_lt q f64_one = true).
  { apply f64_trichotomy; [done..| |]; [exact H1|]. unfold f64_eq, SFeqb in *. rewrite SFcompare_swap.
    by destruct (SFcompare q f64_one) as [[]|]. }
  assert (Hn0 : 0 < Z.of_nat (length l) < 2 ^ 53) by (cbn [length l] in *; lia).
  destruct (rank_bounds q (Z.of_nat (length l)) Hq Hpos Hone Hn0) as (_ & Hm & Hs).
  unfold len. change f64_one with (f64_of_Z 1). set (rank := f64_mul q _) in *.
  pose proof (f64_to_int_mag rank 55 Hm Hs ltac:(lia)) as Hr. set (lower := f64_to_int rank) in *.
  rewrite wrap64_id by (unfold in_int64, int64_min, int64_max; lia).
  destruct (Z.leb_spec (Z.of_nat (length l)) (lower + 1)); [by eexists|].
  destruct (index_ok l lower ltac:(lia)) as [a ->]. destruct (index_ok l (lower + 1) ltac:(lia)) as [b ->].
  by eexists.
Qed.

(** ** Signatures *)

(** The types a function is called with: those it names, and after them nothing, one
    scalar ([Variadic] 1), or any number of the last. *)
Definition accepts (f : Function) (types : list ValueType) : Prop :=
  ∃ extra, types = f_ArgTypes f ++ extra ∧
    match f_Variadic f with
    | 0 => extra = []
    | 1 => extra = [] ∨ extra = [ValueTypeScalar]
    | _ => Forall (λ t, last (f_ArgTypes f) = Some t) extra
    end.

Definition acceptsb (f : Function) (types : list ValueType) : bool :=
  let n := length (f_ArgTypes f) in
  let extra := drop n types in
  bool_decide (take n types = f_ArgTypes f) &&
  match f_Variadic f with
  | 0 => bool_decide (extra = [])
  | 1 => bool_decide (extra = []) || bool_decide (extra = [ValueTypeScalar])
  | _ => bool_decide (Forall (λ t, last (f_ArgTypes f) = Some t) extra)
  end.
Lemma acceptsb_spec f types : acceptsb f types = true → accepts f types.
Proof.
  unfold acceptsb. intros [Ht He]%andb_true_iff. apply bool_decide_eq_true in Ht.
  exists (drop (length (f_ArgTypes f)) types). split; [by rewrite <- Ht at 1; rewrite take_drop|].
  destruct (f_Variadic f) as [|[]|]; rewrite ?orb_true_iff, ?bool_decide_eq_true in He; done.
Qed.

(** What quantiles need: a canonical rank, and less than 2^53 samples. *)
Definition small (v : Value) : Prop :=
  match v with
  | Scalar x _ => f64_valid x
  | Vector l => Z.of_nat (length l) < 2 ^ 53
  | Matrix m => Forall (λ se, Z.of_nat (length (se_Samples se)) < 2 ^ 53) m
  | Str _ _ => True
  end.

(** No panic, and a value of the type. *)
Definition yields (t : ValueType) (r : result Value) : Prop :=
  match r with Ok v => Value_Type v = t | Err _ => True | Panic _ => False end.

(** The functions that compute quantiles. *)
Definition ranked (f : Function) : bool :=
  bool_decide (f_Name f ∈ ["quantile_over_time"; "range_median"; "median_over_time"; "outliers_mad"; "outliers_iqr"]%string).

Definition well_typed (f : Function) : Prop :=
  ∀ args ctx, accepts f (Value_Type <$> args) → (ranked f = true → Forall small args) →
    match f_Call f with Some call => yields (f_ReturnType f) (call args ctx) | None => False end.

Lemma typed_vector v : Value_Type v = ValueTypeVector → ∃ l, v = Vector l.
Proof. destruct v; try done. by eexists. Qed.
Lemma typed_matrix v : Value_Type v = ValueTypeMatrix → ∃ l, v = Matrix l.
Proof. destruct v; try done. by eexists. Qed.
Lemma typed_scalar v : Value_Type v = ValueTypeScalar → ∃ x t, v = Scalar x t.
Proof. destruct v; try done. by do 2 eexists. Qed.
Lemma typed_string v : Value_Type v = ValueTypeString → ∃ s t, v = Str s t.
Proof. destruct v; try done. by do 2 eexists. Qed.

Lemma types_cons args t ts : Value_Type <$> args = t :: ts →
  ∃ v args', args = v :: args' ∧ Value_Type v = t ∧ Value_Type <$> args' = ts.
Proof. intros (v & args' & -> & -> & ->)%fmap_cons_inv. by exists v, args'. Qed.

(** The arguments of a list of types. *)
Ltac shape_args H :=
  repeat match type of H with
  | Value_Type <$> ?args = _ :: _ => apply types_cons in H as (? & ? & -> & ? & H)
  | Value_Type <$> ?args = [] => apply fmap_nil_inv in H; subst args
  end;
  repeat match goal with
  | E : Value_Type ?v = ValueTypeVector |- _ => destruct (typed_vector v E) as (? & ->); clear E
  | E : Value_Type ?v = ValueTypeMatrix |- _ => destruct (typed_matrix v E) as (? & ->); clear E
  | E : Value_Type ?v = ValueTypeScalar |- _ => destruct (typed_scalar v E) as (? & ? & ->); clear E
  | E : Value_Type ?v = ValueTypeString |- _ => destruct (typed_string v E) as (? & ? & ->); clear E
  end.

Section types.
Context {RT : Runtime} {MT : Mathematics} {RX : Regexps}.

Lemma aggregate_pure m f : yields ValueTypeVector (aggregateOverTime m (λ l, Ok (f l))).
Proof.
  unfold aggregateOverTime. assert (H : ∀ l, is_ok (res_mapM (aggregate_series (λ l, Ok (f l))) l) = true).
  { induction l as [|se l IH]; [done|]. cbn. by destruct (res_mapM _ l). }
  specialize (H m). by destruct (res_mapM _ m).
Qed.

(** Sorting keeps the elements. *)
Definition sorts : Prop := ∀ A (less : A → A → bool) l, sort_Slice less l ≡ₚ l.
Hypothesis Hsort : sorts.

Lemma Float64s_length l : length (Float64s l) = length l.
Proof. apply Permutation_length, Hsort. Qed.

Lemma quantile_sorted q l : f64_valid q → Z.of_nat (length l) < 2 ^ 53 → ∃ v, quantile q (Float64s l) = Ok v.
Proof. intros Hq Hl. apply quantile_ok; [done|]. by rewrite Float64s_length. Qed.

Lemma aggregate_quantile q m : f64_valid q → small (Matrix m) →
  yields ValueTypeVector (aggregateOverTime m (quantile_samples q)).
Proof.
  intros Hq Hm. unfold aggregateOverTime.
  pose proof (res_mapM_safe (aggregate_series (quantile_samples q)) (λ _, True) m) as H.
  destruct (res_mapM _ m); cbn; try done. apply H. intros se Hse. unfold aggregate_series.
  cbn in Hm. rewrite Forall_forall in Hm. specialize (Hm se Hse). unfold quantile_samples.
  destruct (se_Samples se) as [|s l] eqn:E; [done|]. rewrite <- E in *.
  destruct (quantile_sorted q (s_Value <$> se_Samples se) Hq) as [v ->]; [by rewrite length_fmap|done].
Qed.

Lemma strings_after args : Forall (λ t, Some ValueTypeString = Some t) (Value_Type <$> args) →
  ∃ l, res_mapM as_string args = Ok l.
Proof.
  induction args as [|v args IH]; intros H; [by eexists|]. cbn in H. apply Forall_cons in H as [[= Hv] H].
  destruct (typed_string v (eq_sym Hv)) as (s & t & ->). destruct (IH H) as [l Hl]. cbn. rewrite Hl. by eexists.
Qed.

Lemma pairs_ok f args labels : Forall (λ t, Some ValueTypeString = Some t) (Value_Type <$> args) →
  ∃ l, label_pairs f args labels = Ok l.
Proof.
  revert labels. induction args as [args IH] using (well_founded_induction (Wf_nat.well_founded_ltof _ length)).
  intros labels H. destruct args as [|a [|b args]]; [by eexists..|]. cbn in H.
  apply Forall_cons in H as [[= Ha] H]. apply Forall_cons in H as [[= Hb] H].
  destruct (typed_string a (eq_sym Ha)) as (? & ? & ->). destruct (typed_string b (eq_sym Hb)) as (? & ? & ->).
  cbn. apply IH; [unfold Wf_nat.ltof; cbn; lia|done].
Qed.

Lemma each_labels_typed f vec : (∀ labels, ∃ l, f labels = Ok l) → yields ValueTypeVector (each_labels f vec).
Proof.
  intros Hf. unfold each_labels. set (g := λ s, _). assert (H : ∃ ys, res_mapM g vec = Ok ys).
  { subst g. induction vec as [|s vec [ys IH]]; [by eexists|]. cbn. destruct (Hf (v_Labels s)) as [l ->]. cbn.
    rewrite IH. by eexists. }
  by destruct H as [ys ->].
Qed.

Lemma half_valid : f64_valid half ∧ f64_valid (f64_of_decimal 25 2) ∧ f64_valid (f64_of_decimal 75 2).
Proof. split_and!; apply (bool_decide_unpack _); vm_compute; exact I. Qed.

Lemma vectors_all args : Forall (λ t, Some ValueTypeVector = Some t) (Value_Type <$> args) →
  ∃ l, res_mapM as_vector args = Ok l.
Proof.
  induction args as [|v args IH]; intros H; [by eexists|]. cbn in H. apply Forall_cons in H as [[= Hv] H].
  destruct (typed_vector v (eq_sym Hv)) as (s & ->). destruct (IH H) as [l Hl]. cbn. rewrite Hl. by eexists.
Qed.

(** *** The functions that are more than a map over their first argument *)

Lemma outliers_typed vec x t ctx : small (Vector vec) →
  yields ValueTypeVector (funcOutliersMAD [Vector vec; Scalar x t] ctx) ∧
  yields ValueTypeVector (funcOutliersIQR [Vector vec; Scalar x t] ctx).
Proof.
  intros Hs. destruct half_valid as (H1 & H2 & H3). destruct vec as [|s vec]; [done|].
  unfold funcOutliersMAD, funcOutliersIQR, vector_arg, scalar_arg, arg.
  cbn [lookup list_lookup res_bind as_vector as_scalar]. set (values := Float64s _).
  assert (Hl : Z.of_nat (length values) < 2 ^ 53) by (unfold values; by rewrite Float64s_length, length_fmap).
  destruct (quantile_ok _ values H1 Hl) as [median ->]. destruct (quantile_ok _ values H2 Hl) as [q1 ->].
  destruct (quantile_ok _ values H3 Hl) as [q3 ->]. cbn [res_bind]. split; [|done].
  destruct (quantile_sorted half ((λ v, math_Abs (f64_sub v median)) <$> values) H1) as [mad ->];
    [by rewrite length_fmap|done].
Qed.

Lemma names_typed args (k : gset string → result Value) :
  Forall (λ t, Some ValueTypeString = Some t) (Value_Type <$> drop 1 args) →
  (∀ names, yields ValueTypeVector (k names)) → yields ValueTypeVector (let! n := names_after args in k n).
Proof. intros H Hk. unfold names_after. destruct (strings_after _ H) as [l ->]. apply Hk. Qed.

Lemma scalar_typed l ctx : yields ValueTypeScalar (funcScalar [Vector l] ctx).
Proof. by destruct l as [|s [|? ?]]. Qed.

Lemma compiled_typed regexStr (k : Regexp → result Value) :
  (∀ re, yields ValueTypeVector (k re)) → yields ValueTypeVector (let! re := compile regexStr in k re).
Proof. intros Hk. unfold compile. destruct (regexp_Compile regexStr); [apply Hk|done]. Qed.

Abbreviation all_strings args := (Forall (λ t, Some ValueTypeString = Some t) (Value_Type <$> args)).

Lemma label_join_typed vec x t y u args ctx :
  all_strings args → yields ValueTypeVector (funcLabelJoin (Vector vec :: Str x t :: Str y u :: args) ctx).
Proof.
  intros H. destruct (strings_after _ H) as [l Hl].
  change (yields ValueTypeVector (let! srcs := res_mapM as_string args in
    Ok (Vector (with_labels (λ labels, <[x := Format.join y (omap (λ src, labels !! src) srcs)]> labels) <$> vec)))).
  by rewrite Hl.
Qed.

Lemma by_pairs_typed f vec args ctx : all_strings args → yields ValueTypeVector (by_pairs f (Vector vec :: args) ctx).
Proof. intros H. apply each_labels_typed. intros labels. by apply pairs_ok. Qed.

Lemma by_names_typed vec args ctx : all_strings args →
  yields ValueTypeVector (funcLabelDel (Vector vec :: args) ctx) ∧
  yields ValueTypeVector (funcLabelKeep (Vector vec :: args) ctx).
Proof. intros H. by split; apply names_typed. Qed.

Lemma union_typed args ctx : Forall (λ t, Some ValueTypeVector = Some t) (Value_Type <$> args) →
  yields ValueTypeVector (funcUnion args ctx).
Proof. intros H. unfold funcUnion. by destruct (vectors_all _ H) as [l ->]. Qed.

(** The last arguments are strings. *)
Ltac strings_tail := cbn; repeat (apply Forall_cons; split; [done|]); assumption.

Ltac yields_atom :=
  first [ reflexivity | apply aggregate_pure
        | apply aggregate_quantile; [first [assumption|apply half_valid]|assumption]
        | apply outliers_typed; assumption | apply scalar_typed
        | apply compiled_typed; intros; reflexivity ].
Ltac variadic_atom :=
  first [ apply label_join_typed; strings_tail | apply by_pairs_typed; strings_tail
        | apply by_names_typed; strings_tail | apply union_typed; strings_tail ].

(** One function: its arguments have the shapes of its types. *)
Ltac typed_function :=
  let args := fresh in let ctx := fresh in let Ht := fresh in let He := fresh in let Hs := fresh in
  intros args ctx (? & Ht & He) Hs; try specialize (Hs eq_refl); cbn [f_ArgTypes f_Variadic f_ReturnType f_Call fn app] in *;
  first
    [ subst; shape_args Ht; try rewrite ?Forall_cons in Hs; destruct_and?; yields_atom
    | destruct He as [-> | ->]; shape_args Ht; reflexivity
    | shape_args Ht; rewrite <- Ht in He; cbn [last] in He; variadic_atom ].

Lemma registry_typed loc : Forall well_typed (registered loc).
Proof.
  unfold registered, Functions_go, Functions_metricsql. repeat (apply Forall_app; split).
  all: repeat (apply Forall_cons; split); [..|by apply Forall_nil]; typed_function.
Qed.

(** Every function of the registry has its type: called with values of the types its
    entry names (one scalar more where it takes an optional argument, any number of the last
    where it takes any number), with ranks that are canonical floats and less than 2^53
    samples, it returns a value of its return type or an error; no index, conversion or
    slice panics. The registry finds every function under its name. *)
Theorem functions_have_their_types loc name f args ctx :
  GetFunction loc name = Some f → accepts f (Value_Type <$> args) → Forall small args →
  f_Name f = name ∧ ∃ call, f_Call f = Some call ∧ yields (f_ReturnType f) (call args ctx).
Proof.
  intros [Hg Hn]%GetFunction_spec Ha Hs. split; [done|]. pose proof (registry_typed loc) as H. rewrite Forall_forall in H.
  specialize (H f Hg args ctx Ha (λ _, Hs)). destruct (f_Call f) as [call|]; [|done]. by exists call.
Qed.
End types.
