(* ===== verification/PromLexer.v ===== *)
(** The lexer of PromQL (internal/promql/lexer.go): token types and keywords, the scanner
    on runes, and what each call of [NextItem] consumes. *)

From Stdlib Require Import String Ascii.
From stdpp Require Import base option list gmap strings pretty.
From S2P Require Import Prelude Chars Parsing.

(** ** Token types *)

Inductive ItemType :=
| ItemError | ItemEOF
| ItemIdentifier | ItemMetricIdentifier | ItemNumber | ItemString | ItemDuration
| ItemAdd | ItemSub | ItemMul | ItemDiv | ItemMod | ItemPow
| ItemEql | ItemNeq | ItemLss | ItemGtr | ItemLte | ItemGte | ItemEqlMatch | ItemNeqMatch | ItemAssign
| ItemLeftParen | ItemRightParen | ItemLeftBracket | ItemRightBracket | ItemLeftBrace | ItemRightBrace
| ItemComma | ItemColon | ItemAt
| ItemSum | ItemAvg | ItemMin | ItemMax | ItemCount | ItemStddev | ItemStdvar | ItemTopK | ItemBottomK
| ItemCountValues | ItemQuantile | ItemGroup
| ItemBy | ItemWithout
| ItemAnd | ItemOr | ItemUnless | ItemAtan2
| ItemOn | ItemIgnoring | ItemGroupLeft | ItemGroupRight
| ItemBool | ItemOffset | ItemStart | ItemEnd.

#[global] Instance ItemType_eq_dec : EqDecision ItemType.
Proof. solve_decision. Defined.

(** The table has every constant. *)
Definition itemTypeStr (t : ItemType) : string :=
  match t with
  | ItemError => "error" | ItemEOF => "EOF"
  | ItemIdentifier => "identifier" | ItemMetricIdentifier => "metric" | ItemNumber => "number"
  | ItemString => "string" | ItemDuration => "duration"
  | ItemAdd => "+" | ItemSub => "-" | ItemMul => "*" | ItemDiv => "/" | ItemMod => "%" | ItemPow => "^"
  | ItemEql => "==" | ItemNeq => "!=" | ItemLss => "<" | ItemGtr => ">" | ItemLte => "<=" | ItemGte => ">="
  | ItemEqlMatch => "=~" | ItemNeqMatch => "!~" | ItemAssign => "="
  | ItemLeftParen => "(" | ItemRightParen => ")" | ItemLeftBracket => "[" | ItemRightBracket => "]"
  | ItemLeftBrace => "{" | ItemRightBrace => "}" | ItemComma => "," | ItemColon => ":" | ItemAt => "@"
  | ItemSum => "sum" | ItemAvg => "avg" | ItemMin => "min" | ItemMax => "max" | ItemCount => "count"
  | ItemStddev => "stddev" | ItemStdvar => "stdvar" | ItemTopK => "topk" | ItemBottomK => "bottomk"
  | ItemCountValues => "count_values" | ItemQuantile => "quantile" | ItemGroup => "group"
  | ItemBy => "by" | ItemWithout => "without"
  | ItemAnd => "and" | ItemOr => "or" | ItemUnless => "unless" | ItemAtan2 => "atan2"
  | ItemOn => "on" | ItemIgnoring => "ignoring" | ItemGroupLeft => "group_left" | ItemGroupRight => "group_right"
  | ItemBool => "bool" | ItemOffset => "offset" | ItemStart => "start" | ItemEnd => "end"
  end.
Definition ItemType_String (t : ItemType) : string := itemTypeStr t.

Definition IsOperator (t : ItemType) : bool := bool_decide (t ∈
  [ItemAdd; ItemSub; ItemMul; ItemDiv; ItemMod; ItemPow; ItemEql; ItemNeq; ItemLss; ItemGtr; ItemLte; ItemGte;
   ItemAnd; ItemOr; ItemUnless; ItemAtan2]).

Definition aggregators : list ItemType :=
  [ItemSum; ItemAvg; ItemMin; ItemMax; ItemCount; ItemStddev; ItemStdvar; ItemTopK; ItemBottomK;
   ItemCountValues; ItemQuantile; ItemGroup].
Definition IsAggregator (t : ItemType) : bool := bool_decide (t ∈ aggregators).

Definition keyword_list : list (string * ItemType) := [
  ("sum", ItemSum); ("avg", ItemAvg); ("min", ItemMin); ("max", ItemMax); ("count", ItemCount);
  ("stddev", ItemStddev); ("stdvar", ItemStdvar); ("topk", ItemTopK); ("bottomk", ItemBottomK);
  ("count_values", ItemCountValues); ("quantile", ItemQuantile); ("group", ItemGroup);
  ("by", ItemBy); ("without", ItemWithout); ("and", ItemAnd); ("or", ItemOr); ("unless", ItemUnless);
  ("atan2", ItemAtan2); ("on", ItemOn); ("ignoring", ItemIgnoring); ("group_left", ItemGroupLeft);
  ("group_right", ItemGroupRight); ("bool", ItemBool); ("offset", ItemOffset); ("start", ItemStart);
  ("end", ItemEnd)]%string.
Definition keywords : gmap string ItemType := list_to_map keyword_list.

Record Pos := mkPos { p_Offset : nat; p_Line : Z; p_Column : Z }.
Record Item := mkItem { Typ : ItemType; ItemPos : Pos; Val : string }.

(** ** Runes *)

Definition RuneError : Z := 65533.
Definition eof : Z := -1.

(** The rune [utf8.DecodeRuneInString] returns, with the size [rune_size]. *)
Definition rune_at (s : text) : Z :=
  let bits (n : Z) (c : ascii) : Z := Z.land (Z.of_nat (byte_val c)) n in
  match rune_size s, s with
  | 1%nat, c :: _ => if is_ascii c then Z.of_nat (byte_val c) else RuneError
  | 2%nat, c :: c1 :: _ => Z.lor (Z.shiftl (bits 31 c) 6) (bits 63 c1)
  | 3%nat, c :: c1 :: c2 :: _ => Z.lor (Z.shiftl (Z.lor (Z.shiftl (bits 15 c) 6) (bits 63 c1)) 6) (bits 63 c2)
  | 4%nat, c :: c1 :: c2 :: c3 :: _ =>
      Z.lor (Z.shiftl (Z.lor (Z.shiftl (Z.lor (Z.shiftl (bits 7 c) 6) (bits 63 c1)) 6) (bits 63 c2)) 6) (bits 63 c3)
  | _, _ => RuneError
  end.

Definition byte_of (z : Z) : ascii := ascii_of_nat (Z.to_nat z).

(** [Builder.WriteRune]: the encoding of the rune; what is no rune is written as
    [RuneError]. *)
Definition WriteRune (r : Z) : text :=
  let cont (k : Z) : ascii := byte_of (Z.lor 128 (Z.land (Z.shiftr r k) 63)) in
  if (0 <=? r) && (r <? 128) then [byte_of r]
  else if (0 <=? r) && (r <? 2048) then [byte_of (Z.lor 192 (Z.shiftr r 6)); cont 0]
  else if (r <? 0) || ((55296 <=? r) && (r <=? 57343)) || (1114111 <? r)
  then [byte_of 239; byte_of 191; byte_of 189]
  else if r <? 65536 then [byte_of (Z.lor 224 (Z.shiftr r 12)); cont 6; cont 0]
  else [byte_of (Z.lor 240 (Z.shiftr r 18)); cont 12; cont 6; cont 0].

(** The tables of package unicode outside ASCII, and %q of a rune. *)
Class Unicode := {
  unicode_letter : Z → bool;
  unicode_digit : Z → bool;
  quote_rune : Z → string;
}.

(** The code of an ASCII character. *)
Definition code (c : ascii) : Z := Z.of_nat (byte_val c).
Definition one_of_codes (s : string) (r : Z) : bool := existsb (λ c, r =? code c) (list_ascii_of_string s).
Definition digit_rune (r : Z) : bool := (48 <=? r) && (r <=? 57).

(** ** The scanner *)

Record Lexer := mkLexer { input : text; pos : nat; width : nat; line : Z; col : Z }.

Definition NewLexer (s : string) : Lexer := mkLexer (list_ascii_of_string s) 0 0 1 1.
(** [l.input[l.pos:]] *)
Definition rest (l : Lexer) : text := drop (pos l) (input l).

Definition position (l : Lexer) : Pos := mkPos (pos l) (line l) (col l).

Definition peek (l : Lexer) : Z := match rest l with [] => eof | s => rune_at s end.

Definition next (l : Lexer) : Z * Lexer :=
  match rest l with
  | [] => (eof, mkLexer (input l) (pos l) 0 (line l) (col l))
  | s =>
      let w := rune_size s in
      (rune_at s,
       if rune_at s =? 10 then mkLexer (input l) (pos l + w) w (line l + 1) 1
       else mkLexer (input l) (pos l + w) w (line l) (col l + 1))
  end.
Definition skip (l : Lexer) : Lexer := (next l).2.

(** The column after the last newline of a text. *)
Definition column_of (s : text) : Z :=
  match list_find (λ c, c = "010"%char) (reverse s) with
  | Some (i, _) => Z.of_nat i + 1
  | None => Z.of_nat (length s) + 1
  end.

Definition backup (l : Lexer) : result Lexer :=
  let p := (pos l - width l)%nat in
  match input l !! p with
  | None => Panic "index out of range"
  | Some c =>
      Ok (if Ascii.eqb c "010"
          then mkLexer (input l) p (width l) (line l - 1) (column_of (take p (input l)))
          else mkLexer (input l) p (width l) (line l) (col l - 1))
  end.

(** A [for] loop; the fuel is the number of bytes. *)
Fixpoint while (fuel : nat) (body : Lexer → option Lexer) (l : Lexer) : Lexer :=
  match fuel with
  | O => l
  | S fuel => match body l with None => l | Some l' => while fuel body l' end
  end.
Definition run (body : Lexer → option Lexer) (l : Lexer) : Lexer := while (S (length (rest l))) body l.

(** [l.input[start:l.pos]] *)
Definition slice (start : nat) (l : Lexer) : string :=
  string_of_list_ascii (take (pos l - start) (drop start (input l))).

(** Up to the end of the line. *)
Definition comment_body (l : Lexer) : option Lexer :=
  if (peek l =? 10) || (peek l =? eof) then None else Some (skip l).
Definition whitespace_body (l : Lexer) : option Lexer :=
  let r := peek l in
  if (r =? 32) || (r =? 9) || (r =? 10) || (r =? 13) then Some (skip l)
  else if r =? code "#" then Some (skip (run comment_body l))
  else None.
Definition skipWhitespace (l : Lexer) : Lexer := run whitespace_body l.

Definition singleChar (typ : ItemType) (l : Lexer) : Item * Lexer :=
  (mkItem typ (position l) (itemTypeStr typ), skip l).

(** [scanEquals], [scanBang], [scanLess] and [scanGreater]: a second character that
    makes a longer token of the first. *)
Definition scanEquals (l : Lexer) : Item * Lexer :=
  let p := position l in let l1 := skip l in
  if peek l1 =? code "=" then (mkItem ItemEql p "==", skip l1)
  else if peek l1 =? code "~" then (mkItem ItemEqlMatch p "=~", skip l1)
  else (mkItem ItemAssign p "=", l1).
Definition scanBang (l : Lexer) : Item * Lexer :=
  let p := position l in let l1 := skip l in
  if peek l1 =? code "=" then (mkItem ItemNeq p "!=", skip l1)
  else if peek l1 =? code "~" then (mkItem ItemNeqMatch p "!~", skip l1)
  else (mkItem ItemError p "unexpected character after '!'", l1).
Definition scanLess (l : Lexer) : Item * Lexer :=
  let p := position l in let l1 := skip l in
  if peek l1 =? code "=" then (mkItem ItemLte p "<=", skip l1) else (mkItem ItemLss p "<", l1).
Definition scanGreater (l : Lexer) : Item * Lexer :=
  let p := position l in let l1 := skip l in
  if peek l1 =? code "=" then (mkItem ItemGte p ">=", skip l1) else (mkItem ItemGtr p ">", l1).

(** What the character after a backslash stands for. *)
Definition escape (r : Z) : text :=
  if r =? code "n" then ["010"%char]
  else if r =? code "t" then ["009"%char]
  else if r =? code "r" then ["013"%char]
  else if r =? code "\" then ["\"%char]
  else if r =? 34 then ["034"%char]
  else if r =? code "'" then ["'"%char]
  else "\"%char :: WriteRune r.

(** The loop of [scanString]: the text, or [None] at the end of the input. *)
Fixpoint string_loop (fuel : nat) (quote : Z) (b : text) (l : Lexer) : option text * Lexer :=
  match fuel with
  | O => (None, l)
  | S fuel =>
      let '(r, l1) := next l in
      if r =? eof then (None, l1)
      else if r =? quote then (Some b, l1)
      else if (r =? code "\") && negb (quote =? code "`") then
        let '(r2, l2) := next l1 in string_loop fuel quote (b ++ escape r2) l2
      else string_loop fuel quote (b ++ WriteRune r) l1
  end.

Definition scanString (l : Lexer) : Item * Lexer :=
  let p := position l in
  let '(quote, l1) := next l in
  match string_loop (S (length (rest l1))) quote [] l1 with
  | (Some b, l2) => (mkItem ItemString p (string_of_list_ascii b), l2)
  | (None, l2) => (mkItem ItemError p "unterminated string", l2)
  end.

Definition digit_body (l : Lexer) : option Lexer := if digit_rune (peek l) then Some (skip l) else None.
(** [acceptRun] of the digits: whether one was there, and the lexer behind them. *)
Definition acceptDigits (l : Lexer) : bool * Lexer := (digit_rune (peek l), run digit_body l).

Definition duration_unit (r : Z) : bool := one_of_codes "ywdhms" r.

(** The loop of [scanDuration]: a unit, then digits, as long as there are both. *)
Definition skip_unit (l : Lexer) : Lexer :=
  let l1 := skip l in
  if (peek l =? code "m") && (peek l1 =? code "s") then skip l1 else l1.
Fixpoint duration_loop (fuel : nat) (l : Lexer) : Lexer :=
  match fuel with
  | O => l
  | S fuel =>
      if duration_unit (peek l) then
        let '(more, l1) := acceptDigits (skip_unit l) in
        if more then duration_loop fuel l1 else l1
      else l
  end.

Definition scanDuration (p : Pos) (start : nat) (l : Lexer) : Item * Lexer :=
  let l1 := duration_loop (S (length (rest l))) l in (mkItem ItemDuration p (slice start l1), l1).

Definition number_fraction (l : Lexer) : Lexer :=
  if peek l =? code "." then (acceptDigits (skip l)).2 else l.
Definition number_exponent (l : Lexer) : Lexer :=
  if (peek l =? code "e") || (peek l =? code "E") then
    let l1 := skip l in
    (acceptDigits (if (peek l1 =? code "+") || (peek l1 =? code "-") then skip l1 else l1)).2
  else l.

Definition scanNumber (l : Lexer) : Item * Lexer :=
  let p := position l in
  let start := pos l in
  let l1 := number_exponent (number_fraction (acceptDigits l).2) in
  let val := slice start l1 in
  let lw := string_of_list_ascii (ToLower_words (list_ascii_of_string val)) in
  if String.eqb lw "inf" || String.eqb lw "nan" then (mkItem ItemNumber p val, l1)
  else if duration_unit (peek l1) then scanDuration p start l1
  else (mkItem ItemNumber p val, l1).

Section lexer.
Context {U : Unicode}.

Definition IsLetter_rune (r : Z) : bool :=
  if r <? 128 then ((65 <=? r) && (r <=? 90)) || ((97 <=? r) && (r <=? 122)) else unicode_letter r.
Definition IsDigit_rune (r : Z) : bool := if r <? 128 then digit_rune r else unicode_digit r.
Definition isIdentifierStart (r : Z) : bool := (r =? code "_") || IsLetter_rune r.
Definition isIdentifierChar (r : Z) : bool :=
  (r =? code "_") || (r =? code ":") || IsLetter_rune r || IsDigit_rune r.

Definition ident_body (l : Lexer) : option Lexer := if isIdentifierChar (peek l) then Some (skip l) else None.

Definition scanIdentifier (l : Lexer) : Item * Lexer :=
  let p := position l in
  let l1 := run ident_body l in
  let val := slice (pos l) l1 in
  let lower := string_of_list_ascii (ToLower_words (list_ascii_of_string val)) in
  match keywords !! lower with
  | Some typ => (mkItem typ p val, l1)
  | None =>
      if String.eqb lower "inf" || String.eqb lower "nan" then (mkItem ItemNumber p val, l1)
      else (mkItem ItemIdentifier p val, l1)
  end.

Definition single_chars : list (ascii * ItemType) := [
  ("+", ItemAdd); ("-", ItemSub); ("*", ItemMul); ("/", ItemDiv); ("%", ItemMod); ("^", ItemPow);
  ("(", ItemLeftParen); (")", ItemRightParen); ("[", ItemLeftBracket); ("]", ItemRightBracket);
  ("{", ItemLeftBrace); ("}", ItemRightBrace); (",", ItemComma); (":", ItemColon); ("@", ItemAt)]%char.
Definition single_char (r : Z) : option ItemType :=
  snd <$> find (λ ct, r =? code ct.1) single_chars.

(** [r == '.'] and the byte after it is a digit. *)
Definition starts_fraction (r : Z) (l : Lexer) : bool :=
  (r =? code ".") && match rest l with _ :: c :: _ => IsDigit c | _ => false end.

Definition NextItem (l0 : Lexer) : Item * Lexer :=
  let l := skipWhitespace l0 in
  match rest l with
  | [] => (mkItem ItemEOF (position l) "", l)
  | _ =>
      let r := peek l in
      match single_char r with
      | Some typ => singleChar typ l
      | None =>
          if r =? code "=" then scanEquals l
          else if r =? code "!" then scanBang l
          else if r =? code "<" then scanLess l
          else if r =? code ">" then scanGreater l
          else if (r =? 34) || (r =? code "'") || (r =? code "`") then scanString l
          else if IsDigit_rune r || starts_fraction r l then scanNumber l
          else if isIdentifierStart r then scanIdentifier l
          else (mkItem ItemError (position l) ("unexpected character: " +:+ quote_rune r), l)
      end
  end.

(** [Lex]; [None] when the fuel runs out. *)
Fixpoint lex_loop (fuel : nat) (items : list Item) (l : Lexer) : option (list Item) :=
  match fuel with
  | O => None
  | S fuel =>
      let '(item, l1) := NextItem l in
      if bool_decide (Typ item = ItemEOF ∨ Typ item = ItemError) then Some (items ++ [item])
      else lex_loop fuel (items ++ [item]) l1
  end.
Definition Lex (fuel : nat) (s : string) : option (list Item) := lex_loop fuel [] (NewLexer s).
End lexer.

(** ** What is consumed *)

(** From [l] to [l'] the lexer only moved forward. *)
Definition forward (l l' : Lexer) : Prop :=
  input l' = input l ∧ (pos l ≤ pos l')%nat ∧ (length (rest l') ≤ length (rest l))%nat.

#[global] Instance forward_preorder : PreOrder forward.
Proof.
  split; [by intros l; unfold forward|]. intros l l1 l2 (? & ? & ?) (? & ? & ?). split_and!; [congruence|lia..].
Qed.

Lemma length_rest l : length (rest l) = (length (input l) - pos l)%nat.
Proof. unfold rest. by rewrite length_drop. Qed.

Lemma skip_forward l : forward l (skip l).
Proof.
  unfold skip, next. destruct (rest l) as [|c s] eqn:E; cbn [snd].
  - split_and!; [done..|]. unfold rest in *. cbn. by rewrite E.
  - destruct (_ =? 10); split_and!; try done; rewrite ?length_rest; cbn [input pos]; lia.
Qed.

Lemma skip_lt l : rest l ≠ [] → (pos l < pos (skip l))%nat ∧ (length (rest (skip l)) < length (rest l))%nat.
Proof.
  intros H. unfold skip, next. destruct (rest l) as [|c s] eqn:E; [done|]. pose proof (rune_size_pos c s).
  assert (Hl := length_rest l). rewrite E in Hl. cbn [length] in Hl.
  destruct (_ =? 10); cbn [snd]; rewrite length_rest; cbn [input pos length] in *; lia.
Qed.

Lemma peek_some l : peek l ≠ eof → rest l ≠ [].
Proof. unfold peek. by destruct (rest l). Qed.

Lemma peek_code l r : 0 ≤ r → (peek l =? r) = true → rest l ≠ [].
Proof. intros Hr H%Z.eqb_eq. apply peek_some. unfold eof. lia. Qed.

Lemma code_pos c : 0 ≤ code c.
Proof. unfold code. lia. Qed.

Lemma while_forward body : (∀ l l', body l = Some l' → forward l l') → ∀ fuel l, forward l (while fuel body l).
Proof.
  intros Hb. induction fuel as [|fuel IH]; intros l; [done|]. cbn [while].
  destruct (body l) as [l'|] eqn:E; [|done]. etrans; [by apply Hb|apply IH].
Qed.

(** A loop that moves while the rune satisfies [P]. *)
Lemma run_forward (P : Z → bool) body :
  (∀ l, body l = if P (peek l) then Some (skip l) else None) → ∀ l, forward l (run body l).
Proof.
  intros Hb l. apply while_forward. intros l1 l2. rewrite Hb. destruct (P (peek l1)); [|done].
  intros [= <-]. apply skip_forward.
Qed.

Lemma run_lt (P : Z → bool) body :
  (∀ l, body l = if P (peek l) then Some (skip l) else None) →
  ∀ l, P (peek l) = true → rest l ≠ [] →
  (pos l < pos (run body l))%nat ∧ (length (rest (run body l)) < length (rest l))%nat.
Proof.
  intros Hb l HP Hr. unfold run. cbn [while]. rewrite Hb, HP.
  destruct (skip_lt l Hr) as [Hp Hl].
  destruct (while_forward body) with (fuel := length (rest l)) (l := skip l) as (_ & ? & ?).
  { intros l1 l2. rewrite Hb. destruct (P (peek l1)); [|done]. intros [= <-]. apply skip_forward. }
  lia.
Qed.

Lemma comment_forward l : forward l (run comment_body l).
Proof.
  apply (run_forward (λ r, negb ((r =? 10) || (r =? eof)))). intros l1. unfold comment_body. by destruct (_ || _).
Qed.

Lemma whitespace_forward l : forward l (skipWhitespace l).
Proof.
  apply while_forward. intros l1 l2. unfold whitespace_body.
  destruct ((peek l1 =? 32) || _ || _ || _); [intros [= <-]; apply skip_forward|].
  destruct (peek l1 =? code "#"); [|done]. intros [= <-]. etrans; [apply comment_forward|apply skip_forward].
Qed.

Lemma digits_forward l : forward l (acceptDigits l).2.
Proof. apply (run_forward digit_rune). done. Qed.

Lemma skip_unit_forward l : forward l (skip_unit l).
Proof.
  unfold skip_unit. destruct (_ && _); [|apply skip_forward]. etrans; apply skip_forward.
Qed.

Lemma duration_forward fuel l : forward l (duration_loop fuel l).
Proof.
  revert l. induction fuel as [|fuel IH]; intros l; [done|]. cbn [duration_loop].
  destruct (duration_unit _); [|done]. unfold acceptDigits.
  assert (H : forward l (run digit_body (skip_unit l))).
  { etrans; [apply skip_unit_forward|]. by apply (run_forward digit_rune). }
  destruct (digit_rune _); [|done]. etrans; [exact H|apply IH].
Qed.

Lemma fraction_forward l : forward l (number_fraction l).
Proof.
  unfold number_fraction. destruct (_ =? _); [|done]. etrans; [apply skip_forward|apply digits_forward].
Qed.

Lemma exponent_forward l : forward l (number_exponent l).
Proof.
  unfold number_exponent. destruct (_ || _); [|done].
  etrans; [apply skip_forward|]. destruct (_ || _); [|apply digits_forward].
  etrans; [apply skip_forward|apply digits_forward].
Qed.

Lemma string_loop_forward fuel q b l : forward l (string_loop fuel q b l).2.
Proof.
  revert b l. induction fuel as [|fuel IH]; intros b l; [done|]. cbn [string_loop].
  pose proof (skip_forward l) as H1. unfold skip in H1. destruct (next l) as [r l1] eqn:E. cbn [snd] in H1.
  destruct (r =? eof); [done|]. destruct (r =? q); [done|]. destruct (_ && _).
  - pose proof (skip_forward l1) as H2. unfold skip in H2. destruct (next l1) as [r2 l2]. cbn [snd] in H2.
    etrans; [exact H1|]. etrans; [exact H2|apply IH].
  - etrans; [exact H1|apply IH].
Qed.

(** A token from which the lexer moves on. An error is returned again and again, and so is
    the empty number of a digit outside ASCII. *)
Definition moves (t : Item) : bool :=
  match Typ t with ItemEOF | ItemError => false | ItemNumber => negb (String.eqb (Val t) "") | _ => true end.

(** The lexer moved forward, and past a byte if the token says so. *)
Definition consumes (l : Lexer) (tl : Item * Lexer) : Prop :=
  forward l tl.2 ∧ (moves tl.1 = true → (length (rest tl.2) < length (rest l))%nat).

Lemma consumes_skip l t l' : rest l ≠ [] → forward (skip l) l' → consumes l (t, l').
Proof.
  intros Hr H. split; [cbn; etrans; [apply skip_forward|done]|]. intros _. cbn.
  destruct (skip_lt l Hr) as [_ ?]. destruct H as (_ & _ & ?). lia.
Qed.

Lemma two_chars l : rest l ≠ [] →
  consumes l (scanEquals l) ∧ consumes l (scanBang l) ∧ consumes l (scanLess l) ∧ consumes l (scanGreater l).
Proof.
  intros Hr. unfold scanEquals, scanBang, scanLess, scanGreater.
  split_and!; repeat case_match; apply consumes_skip; try done; apply skip_forward.
Qed.

Lemma slice_forward l l' : slice (pos l) l' ≠ ""%string → input l' = input l → (length (rest l') < length (rest l))%nat.
Proof.
  intros Hs Hi. unfold slice in Hs. rewrite !length_rest, Hi in *.
  destruct (Nat.le_gt_cases (pos l') (pos l)) as [Hle|Hlt].
  - exfalso. apply Hs. by replace (pos l' - pos l)%nat with 0%nat by lia.
  - destruct (Nat.le_gt_cases (length (input l)) (pos l)) as [Hle|?]; [|lia].
    exfalso. apply Hs. by rewrite drop_ge, take_nil by lia.
Qed.

Lemma scanNumber_consumes l : consumes l (scanNumber l).
Proof.
  unfold scanNumber. set (l1 := number_exponent _).
  assert (H : forward l l1).
  { etrans; [apply digits_forward|]. etrans; [apply fraction_forward|apply exponent_forward]. }
  pose proof H as (Hi & _ & _).
  assert (Hn : consumes l (mkItem ItemNumber (position l) (slice (pos l) l1), l1)).
  { split; [done|]. cbn. intros Hm%negb_true_iff. apply slice_forward; [|done].
    intros E. rewrite E in Hm. done. }
  destruct (_ || _); [exact Hn|]. destruct (duration_unit (peek l1)) eqn:Ed; [|exact Hn].
  unfold scanDuration. split; cbn [fst snd]; [etrans; [exact H|apply duration_forward]|]. intros _.
  assert (Hr : rest l1 ≠ []).
  { intros E. unfold peek in Ed. rewrite E in Ed. done. }
  cbn [duration_loop]. rewrite Ed. unfold acceptDigits.
  assert (Hs : (length (rest (run digit_body (skip_unit l1))) < length (rest l1))%nat).
  { destruct (run_forward digit_rune digit_body (λ _, eq_refl) (skip_unit l1)) as (_ & _ & ?).
    destruct (skip_lt l1 Hr). unfold skip_unit in *. destruct (_ && _); [|lia].
    destruct (skip_forward (skip l1)) as (_ & _ & ?). lia. }
  destruct H as (_ & _ & H). destruct (digit_rune _); [|lia].
  destruct (duration_forward (length (rest l1)) (run digit_body (skip_unit l1))) as (_ & _ & ?). lia.
Qed.

Section consumption.
Context {U : Unicode}.

Lemma scanIdentifier_consumes l : rest l ≠ [] → isIdentifierStart (peek l) = true → consumes l (scanIdentifier l).
Proof.
  intros Hr Hs. unfold scanIdentifier. set (l1 := run ident_body l).
  assert (H : forward l l1 ∧ (length (rest l1) < length (rest l))%nat).
  { split; [by apply (run_forward isIdentifierChar)|]. apply (run_lt isIdentifierChar); [done| |done].
    unfold isIdentifierStart, isIdentifierChar in *. apply orb_true_iff in Hs as [-> | ->]; [done|].
    by rewrite orb_true_r. }
  destruct H as [H Hlt]. destruct (keywords !! _); [by split|]. by destruct (_ || _).
Qed.

Lemma scanString_consumes l : rest l ≠ [] → consumes l (scanString l).
Proof.
  intros Hr. unfold scanString. pose proof (skip_lt l Hr) as [_ Hlt]. pose proof (skip_forward l) as Hf.
  unfold skip in *. destruct (next l) as [q l1]. cbn [snd] in *.
  pose proof (string_loop_forward (S (length (rest l1))) q [] l1) as Hl.
  destruct (string_loop _ _ _ _) as [[b|] l2]; cbn [snd] in Hl.
  all: split; [etrans; [exact Hf|exact Hl]|]; intros _; cbn; destruct Hl as (_ & _ & ?); lia.
Qed.

Lemma NextItem_consumes l : consumes l (NextItem l).
Proof.
  unfold NextItem. pose proof (whitespace_forward l) as Hw. set (l0 := skipWhitespace l) in *.
  assert (Hup : ∀ tl, consumes l0 tl → consumes l tl).
  { intros tl [Hf Hm]. split; [by etrans|]. intros Ht%Hm. destruct Hw as (_ & _ & ?). lia. }
  apply Hup. destruct (rest l0) as [|c s] eqn:Er; [by split|].
  assert (Hr : rest l0 ≠ []) by congruence. destruct (two_chars l0 Hr) as (? & ? & ? & ?).
  destruct (single_char (peek l0)); [by apply consumes_skip|].
  repeat (case_match; [done|]).
  match goal with |- context [if ?b then _ else _] => destruct b end; [by apply scanString_consumes|].
  match goal with |- context [if ?b then _ else _] => destruct b end; [apply scanNumber_consumes|].
  destruct (isIdentifierStart _) eqn:Hi; [by apply scanIdentifier_consumes|]. by split.
Qed.
End consumption.

(** ** What is read *)

(** [l'] is [l] moved past [s]. *)
Definition reads_to (l : Lexer) (s : text) (l' : Lexer) : Prop :=
  input l' = input l ∧ pos l' = (pos l + length s)%nat ∧ rest l = s ++ rest l'.

Lemma reads_to_refl l : reads_to l [] l.
Proof. split_and!; [done|cbn; lia|done]. Qed.

Lemma reads_to_trans l s l1 s1 l2 : reads_to l s l1 → reads_to l1 s1 l2 → reads_to l (s ++ s1) l2.
Proof.
  intros (Hi & Hp & Hr) (Hi1 & Hp1 & Hr1). split_and!; [congruence|rewrite length_app; lia|].
  by rewrite Hr, Hr1, app_assoc.
Qed.

Lemma slice_reads l s l' : reads_to l s l' → slice (pos l) l' = string_of_list_ascii s.
Proof.
  intros (Hi & Hp & Hr). unfold slice. rewrite Hi, Hp. fold (rest l).
  rewrite Hr, Nat.add_comm, Nat.add_sub. by rewrite take_app_length.
Qed.

(** One rune. *)
Lemma reads_to_skip l : reads_to l (take (rune_size (rest l)) (rest l)) (skip l).
Proof.
  unfold skip, next. destruct (rest l) as [|c s] eqn:E.
  - split_and!; [done|cbn; lia|]. unfold rest in *. cbn. by rewrite E.
  - pose proof (rune_size_le (c :: s)) as Hle.
    destruct (_ =? 10); split_and!; try done; cbn [snd input pos]; rewrite ?length_take; try lia.
    all: unfold rest in *; cbn [input pos snd]; by rewrite <- drop_drop, E, take_drop.
Qed.

(** The bytes of identifiers: letters, digits, "_" and ":", and what is not ASCII. *)
Definition word_char (c : ascii) : bool :=
  negb (is_ascii c) || Ascii.eqb c "_" || Ascii.eqb c ":" || in_range 65 90 c || in_range 97 122 c || IsDigit c.
Definition identifier (s : string) : Prop :=
  s ≠ ""%string ∧ Forall (λ c, word_char c = true) (list_ascii_of_string s).

Section words.
Context {U : Unicode}.

Lemma word_char_code c : is_ascii c = true → isIdentifierChar (code c) = word_char c.
Proof.
  intros Hc. pose proof (byte_cases (λ c, implb (is_ascii c) (Bool.eqb (isIdentifierChar (code c)) (word_char c)))
    eq_refl c) as H. cbn beta in H. rewrite Hc in H. by apply Bool.eqb_prop.
Qed.

Lemma word_rune c s : isIdentifierChar (rune_at (c :: s)) = true →
  Forall (λ c, word_char c = true) (take (rune_size (c :: s)) (c :: s)).
Proof.
  intros H. destruct (is_ascii c) eqn:Hc.
  - unfold rune_at in H. rewrite rune_size_ascii, Hc in H by done. rewrite rune_size_ascii by done.
    constructor; [|done]. by rewrite <- word_char_code.
  - pose proof (rune_tail c s) as Ht. pose proof (rune_size_pos c s).
    destruct (rune_size (c :: s)) as [|n]; [lia|]. cbn [take]. cbn in Ht. rewrite Nat.sub_0_r in Ht.
    constructor; [unfold word_char; by rewrite Hc|].
    eapply Forall_impl; [exact Ht|]. intros b Hb. unfold word_char. by rewrite Hb.
Qed.

Lemma while_word fuel l : ∃ s, reads_to l s (while fuel ident_body l) ∧ Forall (λ c, word_char c = true) s.
Proof.
  revert l. induction fuel as [|fuel IH]; intros l; [by exists []; split; [apply reads_to_refl|]|].
  cbn [while]. unfold ident_body at 1. destruct (isIdentifierChar (peek l)) eqn:Hi;
    [|exists []; split; [apply reads_to_refl|done]].
  destruct (IH (skip l)) as (s & Hs & Hw). exists (take (rune_size (rest l)) (rest l) ++ s).
  split; [by eapply reads_to_trans; [apply reads_to_skip|]|]. apply Forall_app; split; [|done].
  unfold peek in Hi. destruct (rest l) as [|c t]; [done|]. by apply word_rune.
Qed.

(** The text of an identifier token is an identifier. *)
Definition word_item (t : Item) : Prop := Typ t = ItemIdentifier → identifier (Val t).

Lemma scanIdentifier_word l : rest l ≠ [] → isIdentifierStart (peek l) = true → word_item (scanIdentifier l).1.
Proof.
  intros Hr Hs. pose proof (scanIdentifier_consumes l Hr Hs) as [_ Hm]. unfold scanIdentifier in *.
  destruct (while_word (S (length (rest l))) l) as (s & Hrd & Hw). fold (run ident_body l) in *.
  assert (Hid : (length (rest (run ident_body l)) < length (rest l))%nat → identifier (slice (pos l) (run ident_body l))).
  { intros Hlt. rewrite (slice_reads l s) by done. split.
    - destruct Hrd as (_ & _ & E). rewrite E, length_app in Hlt. by destruct s; cbn in *; [lia|].
    - by rewrite list_ascii_of_string_of_list_ascii. }
  destruct (keywords !! _) as [typ|]; [|destruct (_ || _); [done|]]; intros Ht; cbn in Ht |- *; apply Hid.
  - apply Hm. unfold moves. cbn. by rewrite Ht.
  - by apply Hm.
Qed.

Lemma NextItem_word l : word_item (NextItem l).1.
Proof.
  unfold NextItem. set (l0 := skipWhitespace l). destruct (rest l0) as [|c s] eqn:Er; [done|].
  destruct (single_char (peek l0)) as [typ|] eqn:Es.
  { unfold single_char in Es. destruct (find _ _) as [ct|] eqn:Ef; [|done]. injection Es as <-.
    apply find_some in Ef as [Hin _]. cbn in Hin. unfold word_item. cbn. by destruct_or! Hin; subst ct. }
  destruct (peek l0 =? _); [unfold scanEquals; by repeat case_match|].
  destruct (peek l0 =? _); [unfold scanBang; by repeat case_match|].
  destruct (peek l0 =? _); [unfold scanLess; by repeat case_match|].
  destruct (peek l0 =? _); [unfold scanGreater; by repeat case_match|].
  destruct (_ || _); [unfold scanString; by repeat case_match|].
  destruct (_ || _); [unfold scanNumber, scanDuration; by repeat case_match|].
  destruct (isIdentifierStart _) eqn:Hi; [|done]. apply scanIdentifier_word; [by rewrite Er|done].
Qed.
End words.
