(* ===== verification/PromAst.v ===== *)
(** The syntax tree of PromQL (internal/promql/ast.go): nodes, matchers of labels, the
    text of a tree, and its traversal. *)

From Stdlib Require Import String Ascii SpecFloat.
From stdpp Require Import base option list gmap strings pretty.
From S2P Require Import Prelude Float64 Bytes Format PromLexer PromValue.

Inductive NodeType :=
| NodeVectorSelector | NodeMatrixSelector | NodeNumberLiteral | NodeStringLiteral | NodeUnaryExpr
| NodeBinaryExpr | NodeAggregateExpr | NodeCall | NodeSubquery | NodeParenExpr.

Inductive LabelMatchType := MatchEqual | MatchNotEqual | MatchRegexp | MatchNotRegexp.
#[global] Instance LabelMatchType_eq_dec : EqDecision LabelMatchType.
Proof. solve_decision. Defined.

Definition LabelMatchType_String (m : LabelMatchType) : string :=
  match m with MatchEqual => "=" | MatchNotEqual => "!=" | MatchRegexp => "=~" | MatchNotRegexp => "!~" end.

(** The compiled expression is a cache of what [Value] determines. *)
Record LabelMatcher := mkLabelMatcher { lm_Type : LabelMatchType; lm_Name : string; lm_Value : string }.

Record VectorSelectorNode := mkVectorSelector {
  vs_Name : string;
  vs_LabelMatchers : list LabelMatcher;
  vs_Offset : Duration;
  vs_Timestamp : option Z;
  vs_StartOrEnd : Z;
  vs_PosRange : Pos;
}.

Inductive BinaryOp :=
| OpAdd | OpSub | OpMul | OpDiv | OpMod | OpPow | OpEql | OpNeq | OpLss | OpGtr | OpLte | OpGte
| OpAnd | OpOr | OpUnless | OpAtan2.
#[global] Instance BinaryOp_eq_dec : EqDecision BinaryOp.
Proof. solve_decision. Defined.

Definition BinaryOp_String (op : BinaryOp) : string :=
  match op with
  | OpAdd => "+" | OpSub => "-" | OpMul => "*" | OpDiv => "/" | OpMod => "%" | OpPow => "^"
  | OpEql => "==" | OpNeq => "!=" | OpLss => "<" | OpGtr => ">" | OpLte => "<=" | OpGte => ">="
  | OpAnd => "and" | OpOr => "or" | OpUnless => "unless" | OpAtan2 => "atan2"
  end.
Definition IsComparisonOp (op : BinaryOp) : bool :=
  match op with OpEql | OpNeq | OpLss | OpGtr | OpLte | OpGte => true | _ => false end.
Definition IsSetOp (op : BinaryOp) : bool := match op with OpAnd | OpOr | OpUnless => true | _ => false end.

Inductive VectorMatchCardinality := CardOneToOne | CardManyToOne | CardOneToMany | CardManyToMany.
#[global] Instance VectorMatchCardinality_eq_dec : EqDecision VectorMatchCardinality.
Proof. solve_decision. Defined.
Definition VectorMatchCardinality_String (c : VectorMatchCardinality) : string :=
  match c with
  | CardOneToOne => "one-to-one" | CardManyToOne => "many-to-one"
  | CardOneToMany => "one-to-many" | CardManyToMany => "many-to-many"
  end.

Record VectorMatching := mkVectorMatching {
  vm_Card : VectorMatchCardinality;
  vm_MatchingLabels : list string;
  vm_On : bool;
  vm_Include : list string;
}.

(** Nodes; a matrix selector holds a vector selector. *)
Inductive Expr :=
| VectorSelector (vs : VectorSelectorNode)
| MatrixSelector (vs : VectorSelectorNode) (Range : Duration) (PosRange : Pos)
| NumberLiteral (v : float64) (PosRange : Pos)
| StringLiteral (v : string) (PosRange : Pos)
| UnaryExpr (Op : ItemType) (e : Expr) (PosRange : Pos)
| BinaryExpr (Op : BinaryOp) (LHS RHS : Expr) (matching : option VectorMatching) (ReturnBool : bool) (PosRange : Pos)
| AggregateExpr (Op : ItemType) (e : Expr) (Param : option Expr) (Grouping : list string) (Without : bool)
    (PosRange : Pos)
| Call (Func : Function) (Args : list Expr) (PosRange : Pos)
| Subquery (e : Expr) (Range Step Offset : Duration) (PosRange : Pos)
| ParenExpr (e : Expr) (PosRange : Pos).

Definition Expr_Type (e : Expr) : NodeType :=
  match e with
  | VectorSelector _ => NodeVectorSelector
  | MatrixSelector _ _ _ => NodeMatrixSelector
  | NumberLiteral _ _ => NodeNumberLiteral
  | StringLiteral _ _ => NodeStringLiteral
  | UnaryExpr _ _ _ => NodeUnaryExpr
  | BinaryExpr _ _ _ _ _ _ => NodeBinaryExpr
  | AggregateExpr _ _ _ _ _ _ => NodeAggregateExpr
  | Call _ _ _ => NodeCall
  | Subquery _ _ _ _ _ => NodeSubquery
  | ParenExpr _ _ => NodeParenExpr
  end.

Definition Expr_Position (e : Expr) : Pos :=
  match e with
  | VectorSelector vs => vs_PosRange vs
  | MatrixSelector _ _ p | NumberLiteral _ p | StringLiteral _ p | UnaryExpr _ _ p | BinaryExpr _ _ _ _ _ p
  | AggregateExpr _ _ _ _ _ p | Call _ _ p | Subquery _ _ _ _ p | ParenExpr _ p => p
  end.

(** ** Text *)

(** One unit of [formatDuration]: its count, if there is one, and what is left. *)
Definition duration_part (unit : Duration) (name : string) (st : string * Duration) : string * Duration :=
  let '(b, d) := st in
  if unit <=? d then (b +:+ fmt_0wd 0 (d / unit) +:+ name, d - d / unit * unit) else (b, d).

Definition Day : Duration := 24 * Hour.
Definition Week : Duration := 7 * Day.
Definition Year : Duration := 365 * Day.

Definition duration_units : list (Duration * string) :=
  [(Year, "y"); (Week, "w"); (Day, "d"); (Hour, "h"); (Minute, "m"); (Second, "s"); (Millisecond, "ms")]%string.

Definition formatDuration (d : Duration) : string :=
  if d =? 0 then "0s"
  else (foldl (λ st u, duration_part u.1 u.2 st) ("", d) duration_units).1.

Section text.
(** %q of a text and %g of a float. *)
Context (quote : string → string) (fmt_g : float64 → string).

Definition LabelMatcher_String (m : LabelMatcher) : string :=
  lm_Name m +:+ LabelMatchType_String (lm_Type m) +:+ quote (lm_Value m).

Definition VectorSelector_String (v : VectorSelectorNode) : string :=
  vs_Name v +:+
  (if bool_decide (vs_LabelMatchers v = []) then ""
   else "{" +:+ join "," (LabelMatcher_String <$> vs_LabelMatchers v) +:+ "}") +:+
  (if vs_Offset v =? 0 then "" else " offset " +:+ formatDuration (vs_Offset v)) +:+
  match vs_Timestamp v with None => "" | Some ts => " @ " +:+ fmt_0wd 0 ts end.

Definition VectorMatching_String (m : option VectorMatching) : string :=
  match m with
  | None => ""
  | Some vm =>
      (if vm_On vm then " on(" +:+ join "," (vm_MatchingLabels vm) +:+ ")"
       else if bool_decide (vm_MatchingLabels vm = []) then ""
       else " ignoring(" +:+ join "," (vm_MatchingLabels vm) +:+ ")") +:+
      (if bool_decide (vm_Include vm = []) then ""
       else match vm_Card vm with
            | CardManyToOne => " group_left(" +:+ join "," (vm_Include vm) +:+ ")"
            | CardOneToMany => " group_right(" +:+ join "," (vm_Include vm) +:+ ")"
            | _ => ""
            end)
  end.

Fixpoint Expr_String (e : Expr) : string :=
  match e with
  | VectorSelector vs => VectorSelector_String vs
  | MatrixSelector vs range _ => VectorSelector_String vs +:+ "[" +:+ formatDuration range +:+ "]"
  | NumberLiteral v _ => fmt_g v
  | StringLiteral v _ => quote v
  | UnaryExpr op e _ => ItemType_String op +:+ Expr_String e
  | BinaryExpr op l r vm b _ =>
      Expr_String l +:+ " " +:+ BinaryOp_String op +:+ (if b then " bool" else "") +:+
      VectorMatching_String vm +:+ " " +:+ Expr_String r
  | AggregateExpr op e param grouping without _ =>
      ItemType_String op +:+
      (if bool_decide (grouping = []) then ""
       else (if without then " without(" else " by(") +:+ join "," grouping +:+ ")") +:+
      "(" +:+ match param with None => "" | Some p => Expr_String p +:+ "," end +:+ Expr_String e +:+ ")"
  | Call f args _ => f_Name f +:+ "(" +:+ join "," (Expr_String <$> args) +:+ ")"
  | Subquery e range step offset _ =>
      Expr_String e +:+ "[" +:+ formatDuration range +:+
      (if 0 <? step then ":" +:+ formatDuration step else "") +:+ "]" +:+
      (if 0 <? offset then " offset " +:+ formatDuration offset else "")
  | ParenExpr e _ => "(" +:+ Expr_String e +:+ ")"
  end.
End text.

(** [LabelMatcher.Matches]; the expression of a matcher is anchored. [regexp_match] is
    [None] where it does not compile, which the code does not expect. *)
Definition Matches (regexp_match : string → string → option bool) (m : LabelMatcher) (val : string) : result bool :=
  let re := regexp_match ("^(?:" +:+ lm_Value m +:+ ")$") val in
  match lm_Type m with
  | MatchEqual => Ok (String.eqb val (lm_Value m))
  | MatchNotEqual => Ok (negb (String.eqb val (lm_Value m)))
  | MatchRegexp => match re with Some b => Ok b | None => Panic "nil pointer dereference" end
  | MatchNotRegexp => match re with Some b => Ok (negb b) | None => Panic "nil pointer dereference" end
  end.

(** ** Traversal

    [Inspect] calls [f] on a node, and on the nodes below it while [f] says so; here it
    gives the nodes in the order of the calls. *)

Fixpoint Inspect (f : Expr → bool) (e : Expr) : list Expr :=
  e :: if f e then
    match e with
    | VectorSelector _ | NumberLiteral _ _ | StringLiteral _ _ => []
    | MatrixSelector vs _ _ => [VectorSelector vs]
    | UnaryExpr _ e1 _ | Subquery e1 _ _ _ _ | ParenExpr e1 _ => Inspect f e1
    | BinaryExpr _ l r _ _ _ => Inspect f l ++ Inspect f r
    | AggregateExpr _ e1 param _ _ _ =>
        match param with None => [] | Some p => Inspect f p end ++ Inspect f e1
    | Call _ args _ => concat (Inspect f <$> args)
    end
  else [].

(** All nodes. *)
Definition nodes (e : Expr) : list Expr := Inspect (λ _, true) e.

(** ** Induction with the arguments of calls and the parameters of aggregations *)

Section induction.
Context (P : Expr → Prop).
Hypothesis P_vector : ∀ vs, P (VectorSelector vs).
Hypothesis P_matrix : ∀ vs r p, P (MatrixSelector vs r p).
Hypothesis P_number : ∀ v p, P (NumberLiteral v p).
Hypothesis P_string : ∀ v p, P (StringLiteral v p).
Hypothesis P_unary : ∀ op e p, P e → P (UnaryExpr op e p).
Hypothesis P_binary : ∀ op l r vm b p, P l → P r → P (BinaryExpr op l r vm b p).
Hypothesis P_aggregate : ∀ op e param g w p, P e → (∀ q, param = Some q → P q) → P (AggregateExpr op e param g w p).
Hypothesis P_call : ∀ f args p, Forall P args → P (Call f args p).
Hypothesis P_subquery : ∀ e r s o p, P e → P (Subquery e r s o p).
Hypothesis P_paren : ∀ e p, P e → P (ParenExpr e p).

Fixpoint Expr_rect' (e : Expr) : P e :=
  match e with
  | VectorSelector vs => P_vector vs
  | MatrixSelector vs r p => P_matrix vs r p
  | NumberLiteral v p => P_number v p
  | StringLiteral v p => P_string v p
  | UnaryExpr op e p => P_unary op e p (Expr_rect' e)
  | BinaryExpr op l r vm b p => P_binary op l r vm b p (Expr_rect' l) (Expr_rect' r)
  | AggregateExpr op e param g w p =>
      P_aggregate op e param g w p (Expr_rect' e)
        (match param return ∀ q, param = Some q → P q with
         | None => λ q H, match H with end
         | Some p0 => λ q H, match H in _ = o return match o with Some q => P q | None => True end with
                             | eq_refl => Expr_rect' p0 end
         end)
  | Call f args p =>
      P_call f args p
        ((fix go (l : list Expr) : Forall P l :=
            match l with [] => Forall_nil_2 P | e :: l => Forall_cons_2 P e l (Expr_rect' e) (go l) end) args)
  | Subquery e r s o p => P_subquery e r s o p (Expr_rect' e)
  | ParenExpr e p => P_paren e p (Expr_rect' e)
  end.
End induction.
