(* ===== verification/PromParser.v ===== *)
(** The parser of PromQL (internal/promql/parser.go): recursive descent over the lexer, one
    token ahead. Every text is parsed to a tree or an error ([prom_parse_total]). *)

From Stdlib Require Import String Ascii SpecFloat.
From stdpp Require Import base option list gmap strings pretty.
From S2P Require Import Prelude Float64 Bytes Chars Parsing Values PromLexer PromValue PromAst.

(** ** State and errors *)

Record Parser := mkParser { p_lexer : Lexer; p_token : Item }.

(** [ParseError.Error]. *)
Definition ParseError_Error (p : Pos) (msg : string) : string :=
  "parse error at line " +:+ pretty (p_Line p) +:+ ", column " +:+ pretty (p_Column p) +:+ ": " +:+ msg.

#[global] Instance promql_cursor : Cursor Parser :=
  λ p, (length (rest (p_lexer p)) + if moves (p_token p) then 1 else 0)%nat.

Abbreviation P := (M Parser).

Definition errorf {A} (msg : string) : P A := λ p, Some (Err (ParseError_Error (ItemPos (p_token p)) msg)).
Definition the_token : P Item := λ p, Some (Ok (p_token p, p)).
Definition lift {A} (r : result A) : P A :=
  match r with Ok a => ret a | Err e => λ _, Some (Err e) | Panic w => λ _, Some (Panic w) end.

(** The numbers of [ParseDuration]: digits and points. *)
Definition number_char (c : ascii) : bool := IsDigit c || Ascii.eqb c ".".
Fixpoint span_number (s : string) : string * string :=
  match s with
  | EmptyString => ("", "")
  | String c s' => if number_char c then let '(n, r) := span_number s' in (String c n, r) else ("", s)
  end.

Definition unit_of (c : ascii) : option Duration :=
  if Ascii.eqb c "y" then Some Year else if Ascii.eqb c "w" then Some Week
  else if Ascii.eqb c "d" then Some Day else if Ascii.eqb c "h" then Some Hour
  else if Ascii.eqb c "m" then Some Minute else if Ascii.eqb c "s" then Some Second else None.

(** [time.Duration(num * float64(unit))]. *)
Definition scaled (num : float64) (unit : Duration) : Duration := f64_to_int (f64_mul num (f64_of_Z unit)).

Section parser.
(** [strconv.ParseFloat(s, 64)]; [None] is an error. The registry of functions. *)
Context {U : Unicode} (ParseFloat : string → option float64) (GetFunction : string → option Function).

(** The loop of [ParseDuration], on what is left of the text. *)
Fixpoint duration_terms (fuel : nat) (orig : string) (total : Duration) (s : string) : result Duration :=
  match fuel, s with
  | O, _ | _, EmptyString => Ok total
  | S fuel, _ =>
      let '(numStr, r) := span_number s in
      if String.eqb numStr "" then Err ("invalid duration: " +:+ orig)
      else match ParseFloat numStr with
      | None => Err ("invalid duration number: " +:+ numStr)
      | Some num =>
          match r with
          | EmptyString => Ok (scaled num Second)
          | String u r1 =>
              match (if Ascii.eqb u "m" then match r1 with String "s" r2 => Some r2 | _ => None end else None) with
              | Some r2 => duration_terms fuel orig (wrap64 (total + scaled num Millisecond)) r2
              | None =>
                  match unit_of u with
                  | Some d => duration_terms fuel orig (wrap64 (total + scaled num d)) r1
                  | None => Err ("invalid duration unit: " +:+ print_rune u)
                  end
              end
          end
      end
  end.
Definition ParseDuration (s : string) : result Duration := duration_terms (String.length s) s 0 s.

Definition advance : P unit := λ p,
  let '(t, l) := NextItem (p_lexer p) in Some (Ok (tt, mkParser l t)).

Definition expect (typ : ItemType) : P unit :=
  let? t := the_token in
  if bool_decide (Typ t = typ) then advance
  else errorf ("expected " +:+ ItemType_String typ +:+ ", got " +:+ ItemType_String (Typ t)).

(** Move past the token if it has the type. *)
Definition accept (typ : ItemType) : P bool :=
  let? t := the_token in
  if bool_decide (Typ t = typ) then advance ;? ret true else ret false.
Definition at_item (typ : ItemType) : P bool :=
  let? t := the_token in ret (bool_decide (Typ t = typ)).

Definition parseDuration : P Duration :=
  let? t := the_token in
  if bool_decide (Typ t = ItemDuration ∨ Typ t = ItemNumber) then advance ;? lift (ParseDuration (Val t))
  else errorf ("expected duration, got " +:+ ItemType_String (Typ t)).

(** ** Labels *)

Definition label_name : P string :=
  let? t := the_token in
  if bool_decide (Typ t = ItemIdentifier) then advance ;? ret (Val t)
  else errorf ("expected label name, got " +:+ ItemType_String (Typ t)).

Definition parseGrouping : P (list string) :=
  expect ItemLeftParen ;?
  let? empty := accept ItemRightParen in
  if (empty : bool) then ret []
  else
    let? labels := loop (λ l,
      let? name := label_name in
      let? more := accept ItemComma in ret (l ++ [name], more)) [] in
    expect ItemRightParen ;? ret labels.

Definition match_type (t : ItemType) : option LabelMatchType :=
  match t with
  | ItemAssign => Some MatchEqual | ItemNeq => Some MatchNotEqual
  | ItemEqlMatch => Some MatchRegexp | ItemNeqMatch => Some MatchNotRegexp
  | _ => None
  end.

Definition parseLabelMatcher : P LabelMatcher :=
  let? name := label_name in
  let? t := the_token in
  match match_type (Typ t) with
  | None => errorf ("expected label match operator, got " +:+ ItemType_String (Typ t))
  | Some ty =>
      advance ;?
      let? v := the_token in
      if bool_decide (Typ v = ItemString) then advance ;? ret (mkLabelMatcher ty name (Val v))
      else errorf ("expected string, got " +:+ ItemType_String (Typ v))
  end.

Definition parseLabelMatchers : P (list LabelMatcher) :=
  expect ItemLeftBrace ;?
  let? empty := accept ItemRightBrace in
  if (empty : bool) then ret []
  else
    let? ms := loop (λ l,
      let? m := parseLabelMatcher in
      let? comma := accept ItemComma in
      if (comma : bool) then let? close := at_item ItemRightBrace in ret (l ++ [m], negb close)
      else ret (l ++ [m], false)) [] in
    expect ItemRightBrace ;? ret ms.

Definition parseVectorMatching : P (option VectorMatching) :=
  let? t := the_token in
  if bool_decide (Typ t = ItemOn ∨ Typ t = ItemIgnoring) then
    let on := bool_decide (Typ t = ItemOn) in
    advance ;?
    let? labels := parseGrouping in
    let? gl := accept ItemGroupLeft in
    let? gr := if (gl : bool) then ret false else accept ItemGroupRight in
    if (gl || gr : bool) then
      let? paren := at_item ItemLeftParen in
      let? incl := if (paren : bool) then parseGrouping else ret [] in
      ret (Some (mkVectorMatching (if gl then CardManyToOne else CardOneToMany) labels on incl))
    else ret (Some (mkVectorMatching CardOneToOne labels on []))
  else ret None.

(** ** Selectors *)

Definition with_offset (d : Duration) (vs : VectorSelectorNode) : VectorSelectorNode :=
  mkVectorSelector (vs_Name vs) (vs_LabelMatchers vs) d (vs_Timestamp vs) (vs_StartOrEnd vs) (vs_PosRange vs).
Definition with_start_or_end (n : Z) (vs : VectorSelectorNode) : VectorSelectorNode :=
  mkVectorSelector (vs_Name vs) (vs_LabelMatchers vs) (vs_Offset vs) (vs_Timestamp vs) n (vs_PosRange vs).
Definition with_timestamp (ts : Z) (vs : VectorSelectorNode) : VectorSelectorNode :=
  mkVectorSelector (vs_Name vs) (vs_LabelMatchers vs) (vs_Offset vs) (Some ts) (vs_StartOrEnd vs) (vs_PosRange vs).

(** The offset after a selector, if there is one. *)
Definition offset_modifier : P (option Duration) :=
  let? o := accept ItemOffset in
  if (o : bool) then let? d := parseDuration in ret (Some d) else ret None.

(** "@ start()", "@ end()" or "@ seconds" after a selector. *)
Definition at_modifier (vs : VectorSelectorNode) : P VectorSelectorNode :=
  let? a := accept ItemAt in
  if (a : bool) then
    let? t := the_token in
    match Typ t with
    | ItemStart => advance ;? expect ItemLeftParen ;? expect ItemRightParen ;? ret (with_start_or_end 1 vs)
    | ItemEnd => advance ;? expect ItemLeftParen ;? expect ItemRightParen ;? ret (with_start_or_end 2 vs)
    | ItemNumber =>
        match ParseInt (Val t) with
        | Some ts => advance ;? ret (with_timestamp ts vs)
        | None => errorf ("invalid timestamp: " +:+ Val t)
        end
    | _ => errorf "expected timestamp or start()/end() after @"
    end
  else ret vs.

Definition parseMatrixSelector (vs : VectorSelectorNode) : P Expr :=
  let? t := the_token in
  let pos := ItemPos t in
  expect ItemLeftBracket ;?
  let? rangeDur := parseDuration in
  let? colon := accept ItemColon in
  if (colon : bool) then
    let? d := at_item ItemDuration in
    let? step := if (d : bool) then parseDuration else ret 0 in
    expect ItemRightBracket ;?
    let? offset := offset_modifier in
    ret (Subquery (VectorSelector vs) rangeDur step (default 0 offset) pos)
  else
    expect ItemRightBracket ;?
    let? offset := offset_modifier in
    let? vs := at_modifier (match offset with Some d => with_offset d vs | None => vs end) in
    ret (MatrixSelector vs rangeDur pos).

Definition parseVectorSelector (name : string) (pos : Pos) : P Expr :=
  let? brace := at_item ItemLeftBrace in
  let? matchers := if (brace : bool) then parseLabelMatchers else ret [] in
  let vs := mkVectorSelector name matchers 0 None 0 pos in
  let? bracket := at_item ItemLeftBracket in
  if (bracket : bool) then parseMatrixSelector vs
  else
    let? offset := offset_modifier in
    let? vs := at_modifier (match offset with Some d => with_offset d vs | None => vs end) in
    ret (VectorSelector vs).

(** ** Literals *)

Definition positiveInf : float64 := S754_infinity false.
Definition negativeInf : float64 := S754_infinity true.
Definition nan : float64 := S754_nan.

Definition parseNumber : P Expr :=
  let? t := the_token in
  let lw := string_of_list_ascii (ToLower_words (list_ascii_of_string (Val t))) in
  let val :=
    match ParseFloat (Val t) with
    | Some v => Some v
    | None =>
        if String.eqb lw "inf" || String.eqb lw "+inf" then Some positiveInf
        else if String.eqb lw "-inf" then Some negativeInf
        else if String.eqb lw "nan" then Some nan
        else None
    end in
  match val with
  | Some v => advance ;? ret (NumberLiteral v (ItemPos t))
  | None => errorf ("invalid number: " +:+ Val t)
  end.

Definition parseString : P Expr :=
  let? t := the_token in advance ;? ret (StringLiteral (Val t) (ItemPos t)).

(** ** Expressions, over the parser of expressions one level of nesting down *)

Section levels.
Context (parseExpr : P Expr).

Definition parseParen : P Expr :=
  let? t := the_token in
  expect ItemLeftParen ;?
  let? e := parseExpr in
  expect ItemRightParen ;? ret (ParenExpr e (ItemPos t)).

Definition parseCallArgs : P (list Expr) :=
  let? close := at_item ItemRightParen in
  if (close : bool) then ret []
  else loop (λ l, let? e := parseExpr in let? more := accept ItemComma in ret (l ++ [e], more)) [].

Definition parseFunctionCall (name : string) (pos : Pos) : P Expr :=
  match GetFunction name with
  | None => errorf ("unknown function: " +:+ name)
  | Some fn =>
      expect ItemLeftParen ;?
      let? args := parseCallArgs in
      expect ItemRightParen ;? ret (Call fn args pos)
  end.

Definition parseVectorSelectorOrFunction : P Expr :=
  let? t := the_token in
  advance ;?
  let? paren := at_item ItemLeftParen in
  if (paren : bool) then parseFunctionCall (Val t) (ItemPos t) else parseVectorSelector (Val t) (ItemPos t).

(** The aggregations with a parameter. *)
Definition takes_param (op : ItemType) : bool :=
  match op with ItemTopK | ItemBottomK | ItemQuantile | ItemCountValues => true | _ => false end.

(** "by" or "without" and its labels: whether it is there, the labels, and "without". *)
Definition grouping_clause : P (option (list string * bool)) :=
  let? t := the_token in
  if bool_decide (Typ t = ItemBy ∨ Typ t = ItemWithout) then
    advance ;? let? g := parseGrouping in ret (Some (g, bool_decide (Typ t = ItemWithout)))
  else ret None.

Definition parseAggregateExpr : P Expr :=
  let? t := the_token in
  let op := Typ t in
  advance ;?
  let? before := grouping_clause in
  let '(grouping, without) := default ([], false) before in
  expect ItemLeftParen ;?
  let? param :=
    if takes_param op then let? e := parseExpr in expect ItemComma ;? ret (Some e) else ret None in
  let? e := parseExpr in
  expect ItemRightParen ;?
  let? after := if bool_decide (grouping = []) then grouping_clause else ret None in
  let '(grouping, without) := default (grouping, without) after in
  ret (AggregateExpr op e param grouping without (ItemPos t)).

Definition parsePrimaryExpr : P Expr :=
  let? t := the_token in
  match Typ t with
  | ItemNumber => parseNumber
  | ItemString => parseString
  | ItemLeftParen => parseParen
  | ItemIdentifier => parseVectorSelectorOrFunction
  | _ =>
      if IsAggregator (Typ t) then parseAggregateExpr
      else errorf ("unexpected token " +:+ ItemType_String (Typ t))
  end.

Fixpoint unary_expr (fuel : nat) : P Expr := λ p,
  match fuel with
  | O => None
  | S fuel =>
      (let? t := the_token in
       if bool_decide (Typ t = ItemAdd ∨ Typ t = ItemSub) then
         advance ;? let? e := unary_expr fuel in ret (UnaryExpr (Typ t) e (ItemPos t))
       else parsePrimaryExpr) p
  end.
Definition parseUnaryExpr : P Expr := λ p, unary_expr (S (remaining p)) p.

(** Power is right-associative. *)
Fixpoint power_expr (fuel : nat) : P Expr := λ p,
  match fuel with
  | O => None
  | S fuel =>
      (let? lhs := parseUnaryExpr in
       let? t := the_token in
       if bool_decide (Typ t = ItemPow) then
         advance ;?
         let? vm := parseVectorMatching in
         let? rhs := power_expr fuel in ret (BinaryExpr OpPow lhs rhs vm false (ItemPos t))
       else ret lhs) p
  end.
Definition parsePower : P Expr := λ p, power_expr (S (remaining p)) p.

Definition multiplicative_op (t : ItemType) : option BinaryOp :=
  match t with
  | ItemMul => Some OpMul | ItemDiv => Some OpDiv | ItemMod => Some OpMod | ItemAtan2 => Some OpAtan2
  | _ => None
  end.
Definition additive_op (t : ItemType) : option BinaryOp :=
  match t with ItemAdd => Some OpAdd | ItemSub => Some OpSub | _ => None end.
Definition comparison_op (t : ItemType) : option BinaryOp :=
  match t with
  | ItemEql => Some OpEql | ItemNeq => Some OpNeq | ItemLss => Some OpLss
  | ItemGtr => Some OpGtr | ItemLte => Some OpLte | ItemGte => Some OpGte
  | _ => None
  end.
Definition unless_op (t : ItemType) : option BinaryOp :=
  match t with ItemUnless => Some OpUnless | _ => None end.
Definition and_op (t : ItemType) : option BinaryOp := match t with ItemAnd => Some OpAnd | _ => None end.
Definition or_op (t : ItemType) : option BinaryOp := match t with ItemOr => Some OpOr | _ => None end.

(** The loop of a left-associative level; comparisons may have "bool". *)
Definition binary_loop (ops : ItemType → option BinaryOp) (operand : P Expr) (lhs : Expr) : P Expr :=
  loop (λ lhs,
    let? t := the_token in
    match ops (Typ t) with
    | None => ret (lhs, false)
    | Some op =>
        advance ;?
        let? returnBool := if IsComparisonOp op then accept ItemBool else ret false in
        let? vm := parseVectorMatching in
        let? rhs := operand in
        ret (BinaryExpr op lhs rhs vm returnBool (ItemPos t), true)
    end) lhs.

Definition parseMultiplicative : P Expr :=
  let? lhs := parsePower in binary_loop multiplicative_op parsePower lhs.
Definition parseAdditive : P Expr :=
  let? lhs := parseMultiplicative in binary_loop additive_op parseMultiplicative lhs.
Definition parseComparison : P Expr :=
  let? lhs := parseAdditive in binary_loop comparison_op parseAdditive lhs.
Definition parseUnless : P Expr :=
  let? lhs := parseComparison in binary_loop unless_op parseComparison lhs.
Definition parseAnd : P Expr :=
  let? lhs := parseUnless in binary_loop and_op parseUnless lhs.
Definition parseOr : P Expr :=
  let? lhs := parseAnd in binary_loop or_op parseAnd lhs.
End levels.

(** [parseExpr]; a nested expression comes after a token. *)
Fixpoint parseExpr (fuel : nat) : P Expr :=
  match fuel with
  | O => λ _, None
  | S fuel => parseOr (parseExpr fuel)
  end.

(** [Parse]: what follows the expression is not looked at. *)
Definition Parse (query : string) : option (result Expr) :=
  let '(t, l) := NextItem (NewLexer query) in
  let p := mkParser l t in
  match parseExpr (S (remaining p)) p with
  | None => None
  | Some r => Some (let! (e, _) := r in Ok e)
  end.
End parser.

(** ** Progress *)

(** As [runs], from a parser whose token is [t]. *)
Definition runs_on {A} (t : Item) (k : nat) (Q : A → nat) (c : P A) : Prop := ∀ p, p_token p = t →
  (remaining p ≤ k)%nat →
  match c p with
  | Some (Ok (a, p')) => (remaining p' + Q a ≤ remaining p)%nat
  | Some (Err _) => True
  | Some (Panic _) | None => False
  end.

Lemma runs_on_runs {A} t k (Q : A → nat) c : runs k Q c → runs_on t k Q c.
Proof. intros H p _. apply H. Qed.

Lemma runs_the_token {A} k (Q : A → nat) f : (∀ t, runs_on t k Q (f t)) → runs k Q (bind the_token f).
Proof. intros H p Hp. by apply H. Qed.

Lemma runs_errorf {A} k (Q : A → nat) msg : runs k Q (errorf msg).
Proof. done. Qed.

Lemma prom_runs_lift {A} k (Q : A → nat) r : is_panic r = false → (∀ a, Q a = 0%nat) → runs k Q (lift r).
Proof. intros Hr HQ. destruct r; [by apply runs_ret|done|done]. Qed.

Section progress.
Context {U : Unicode} (ParseFloat : string → option float64) (GetFunction : string → option Function).

Lemma advance_on {A} t k (Q : A → nat) (f : unit → P A) :
  let n := (if moves t then 1 else 0)%nat in
  (n ≤ k → runs (k - n) (λ a, Q a - n)%nat (f tt))%nat → runs_on t k Q (bind advance f).
Proof.
  intros n Hf p Ht Hp. unfold bind, advance. pose proof (NextItem_consumes (p_lexer p)) as [Hfw Hm].
  destruct (NextItem (p_lexer p)) as [t' l']. cbn [fst snd] in *.
  assert (Hr : (remaining (mkParser l' t') + n ≤ remaining p)%nat).
  { unfold remaining, promql_cursor. cbn. rewrite Ht. fold n. destruct Hfw as (_ & _ & ?).
    destruct (moves t') eqn:Em; [specialize (Hm eq_refl)|]; lia. }
  specialize (Hf ltac:(lia) (mkParser l' t') ltac:(lia)).
  destruct (f tt _) as [[[a p2]|e|w]|]; [lia|done..].
Qed.

Lemma advance_one {A} t k (Q : A → nat) (f : unit → P A) :
  moves t = true → (1 ≤ k → runs (k - 1) (λ a, Q a - 1)%nat (f tt))%nat → runs_on t k Q (bind advance f).
Proof. intros Ht Hf. apply advance_on. by rewrite Ht. Qed.

Lemma advance_any {A} t k (Q : A → nat) (f : unit → P A) :
  runs k Q (f tt) → runs_on t k Q (bind advance f).
Proof.
  intros Hf p Ht Hp. unfold bind, advance. pose proof (NextItem_consumes (p_lexer p)) as [Hfw Hm].
  destruct (NextItem (p_lexer p)) as [t' l']. cbn [fst snd] in *.
  assert (Hr : (remaining (mkParser l' t') ≤ remaining p)%nat).
  { unfold remaining, promql_cursor. cbn. destruct Hfw as (_ & _ & ?).
    destruct (moves t') eqn:Em; [specialize (Hm eq_refl)|]; lia. }
  specialize (Hf (mkParser l' t') ltac:(lia)). destruct (f tt _) as [[[a p2]|e|w]|]; [lia|done..].
Qed.

Definition solid (typ : ItemType) : bool :=
  match typ with ItemEOF | ItemError | ItemNumber => false | _ => true end.
Lemma solid_moves t : solid (Typ t) = true → moves t = true.
Proof. unfold solid, moves. by destruct (Typ t). Qed.

Lemma prom_runs_advance k : runs k any advance.
Proof.
  intros p Hp. pose proof (advance_any (p_token p) k any ret) as H.
  specialize (H ltac:(by apply runs_ret) p eq_refl Hp). unfold bind in H.
  destruct (advance p) as [[[[] p1]|e|w]|]; [|done..]. unfold ret in H. lia.
Qed.

Lemma prom_runs_expect k typ : solid typ = true → runs k one (expect typ).
Proof.
  intros Hs. apply runs_the_token. intros t. case_bool_decide as E; [|by apply runs_on_runs].
  subst typ. assert (H : runs_on t k one (advance ;? ret tt)).
  { apply advance_one; [by apply solid_moves|]. intros _. by apply runs_ret. }
  intros p Ht Hp. specialize (H p Ht Hp). unfold bind in H.
  destruct (advance p) as [[[[] p1]|e|w]|]; done.
Qed.

Lemma runs_accept k typ : solid typ = true → runs k if_true (accept typ).
Proof.
  intros Hs. apply runs_the_token. intros t. case_bool_decide as E; [|by apply runs_on_runs, runs_ret].
  subst typ. apply advance_one; [by apply solid_moves|]. intros _. by apply runs_ret.
Qed.

Lemma runs_at_item k typ : runs k any (at_item typ).
Proof. apply runs_the_token. intros t. by apply runs_on_runs, runs_ret. Qed.

Lemma duration_terms_no_panic fuel orig total s : is_panic (duration_terms ParseFloat fuel orig total s) = false.
Proof.
  revert total s. induction fuel as [|fuel IH]; intros total s; [done|]. cbn [duration_terms].
  destruct s as [|c s]; [done|]. destruct (span_number (String c s)) as [n r]. destruct (String.eqb n ""); [done|].
  destruct (ParseFloat n); [|done]. destruct r as [|u r]; [done|].
  destruct (if Ascii.eqb u "m" then _ else _); [apply IH|]. destruct (unit_of u); [apply IH|done].
Qed.

Lemma runs_parseDuration k : runs k any (parseDuration ParseFloat).
Proof.
  apply runs_the_token. intros t. case_bool_decide; [|by apply runs_on_runs].
  apply advance_any, prom_runs_lift; [apply duration_terms_no_panic|done].
Qed.

Lemma runs_label_name k : runs k one label_name.
Proof.
  apply runs_the_token. intros t. case_bool_decide as E; [|by apply runs_on_runs].
  apply advance_one; [apply solid_moves; by rewrite E|]. intros _. by apply runs_ret.
Qed.

#[local] Hint Resolve prom_runs_advance prom_runs_expect runs_accept runs_at_item runs_parseDuration runs_label_name
  runs_errorf : dogwatch.
#[local] Hint Extern 1 (solid _ = true) => reflexivity : dogwatch.
#[local] Hint Extern 2 (moves _ = true) =>
  apply solid_moves; match goal with H : Typ ?t = _ |- solid (Typ ?t) = true => rewrite H; reflexivity end : dogwatch.

(** One step through a parsing function. *)
Ltac prom_atom :=
  lazymatch goal with
  | |- runs _ _ (ret _) => apply runs_ret; unfold any, one, if_true; cbn; repeat case_match; lia
  | |- runs _ _ (errorf _) => apply runs_errorf
  | |- runs ?k _ _ =>
      eapply (runs_mono k k); [solve [eauto 4 with dogwatch]|lia|intros ?; unfold any, one; cbn; lia]
  end.
Ltac prom_step :=
  lazymatch goal with
  | |- runs _ _ (bind the_token _) => apply runs_the_token; intros ?
  | |- runs _ _ (bind _ _) =>
      first [eapply runs_bind; [solve [eauto 4 with dogwatch]|] | apply (runs_bind _ any)];
      [..|let H := fresh in intros ? H; unfold any, one, if_true in H |- *]
  | |- runs _ _ (if ?b then _ else _) => destruct b
  | |- runs _ _ (match ?o with _ => _ end) => destruct o eqn:?
  | |- runs_on _ _ _ (if bool_decide _ then _ else _) => case_bool_decide
  | |- runs_on _ _ _ (bind advance _) =>
      first [apply advance_one; [solve [eauto 2 with dogwatch]|intros _] | apply advance_any]
  | |- runs_on _ _ _ (match ?o with _ => _ end) => destruct o eqn:?
  | |- runs_on _ _ _ _ => apply runs_on_runs
  | |- runs ?k _ (loop _ _) =>
      apply (runs_mono k k any); [apply runs_loop; intros ?|lia|intros ?; unfold any; cbn; lia]
  | |- _ => prom_atom
  end.
Ltac prom_auto := cbn beta iota zeta; repeat (prom_step; cbn beta iota zeta).

Lemma runs_parseGrouping k : runs k one parseGrouping.
Proof. unfold parseGrouping. prom_auto. Qed.
#[local] Hint Resolve runs_parseGrouping : dogwatch.

Lemma runs_parseLabelMatcher k : runs k one parseLabelMatcher.
Proof. unfold parseLabelMatcher. prom_auto. Qed.
#[local] Hint Resolve runs_parseLabelMatcher : dogwatch.

Lemma runs_parseLabelMatchers k : runs k one parseLabelMatchers.
Proof. unfold parseLabelMatchers. prom_auto. Qed.
#[local] Hint Resolve runs_parseLabelMatchers : dogwatch.

Lemma runs_parseVectorMatching k : runs k any parseVectorMatching.
Proof. unfold parseVectorMatching. prom_auto. Qed.
#[local] Hint Resolve runs_parseVectorMatching : dogwatch.

Lemma runs_offset_modifier k : runs k any (offset_modifier ParseFloat).
Proof. unfold offset_modifier. prom_auto. Qed.
#[local] Hint Resolve runs_offset_modifier : dogwatch.

Lemma runs_at_modifier k vs : runs k any (at_modifier vs).
Proof. unfold at_modifier. prom_auto. Qed.
#[local] Hint Resolve runs_at_modifier : dogwatch.

Lemma runs_parseMatrixSelector k vs : runs k any (parseMatrixSelector ParseFloat vs).
Proof. unfold parseMatrixSelector. prom_auto. Qed.
#[local] Hint Resolve runs_parseMatrixSelector : dogwatch.

Lemma runs_parseVectorSelector k name pos : runs k any (parseVectorSelector ParseFloat name pos).
Proof. unfold parseVectorSelector. prom_auto. Qed.
#[local] Hint Resolve runs_parseVectorSelector : dogwatch.

Section levels_progress.
Context (sub : P Expr).

Lemma runs_parseNumber k : runs k any (parseNumber ParseFloat).
Proof. unfold parseNumber. prom_auto. Qed.
Lemma runs_parseString k : runs k any parseString.
Proof. unfold parseString. prom_auto. Qed.
#[local] Hint Resolve runs_parseNumber runs_parseString : dogwatch.

(** The parser of nested expressions, after a token. *)
Section primary.
Context (k : nat).
Hypothesis Hsub : ∀ k', (k' < k)%nat → runs k' any sub.

Lemma sub_lt k' : (k' < k)%nat → runs k' any sub.
Proof. apply Hsub. Qed.
#[local] Hint Resolve sub_lt : dogwatch.

Lemma runs_parseParen : runs k any (parseParen sub).
Proof. unfold parseParen. prom_auto. Qed.

Lemma runs_parseCallArgs k' : (k' < k)%nat → runs k' any (parseCallArgs sub).
Proof. intros Hk. unfold parseCallArgs. prom_auto. Qed.
#[local] Hint Resolve runs_parseCallArgs : dogwatch.

Lemma runs_parseFunctionCall name pos k' :
  (k' ≤ k)%nat → runs k' any (parseFunctionCall GetFunction sub name pos).
Proof. intros Hk. unfold parseFunctionCall. prom_auto. Qed.
#[local] Hint Resolve runs_parseFunctionCall : dogwatch.

Lemma runs_parseVectorSelectorOrFunction :
  runs k any (parseVectorSelectorOrFunction ParseFloat GetFunction sub).
Proof.
  apply runs_the_token. intros t. apply advance_any. prom_auto.
Qed.

Lemma runs_grouping_clause k' : runs k' any grouping_clause.
Proof. unfold grouping_clause. prom_auto. Qed.
#[local] Hint Resolve runs_grouping_clause : dogwatch.

Lemma runs_parseAggregateExpr : runs k any (parseAggregateExpr sub).
Proof.
  apply runs_the_token. intros t. apply advance_any.
  eapply (runs_bind _ any); [apply runs_grouping_clause|]. intros before _.
  destruct (default ([], false) before) as [grouping without]. cbn beta iota.
  eapply runs_bind; [by apply (prom_runs_expect _ ItemLeftParen)|]. intros ? Hk. unfold one in Hk |- *.
  prom_auto.
Qed.
#[local] Hint Resolve runs_parseParen runs_parseVectorSelectorOrFunction runs_parseAggregateExpr : dogwatch.

Lemma runs_parsePrimaryExpr : runs k any (parsePrimaryExpr ParseFloat GetFunction sub).
Proof.
  apply runs_the_token. intros t. apply runs_on_runs.
  destruct (Typ t); try (destruct (IsAggregator _)); eauto with dogwatch.
Qed.
End primary.

Lemma runs_unary_expr fuel k : (k < fuel)%nat → (∀ k', (k' < k)%nat → runs k' any sub) →
  runs k any (unary_expr ParseFloat GetFunction sub fuel).
Proof.
  revert k. induction fuel as [|fuel IH]; intros k Hk Hs; [lia|]. cbn [unary_expr].
  apply runs_the_token. intros t. case_bool_decide as E.
  - apply advance_one; [apply solid_moves; by destruct E as [-> | ->]|]. intros ?.
    assert (Hr : runs (k - 1) any (unary_expr ParseFloat GetFunction sub fuel)).
    { apply IH; [lia|]. intros k' Hk'. apply Hs. lia. }
    eapply (runs_bind _ any); [exact Hr|]. intros e _. by apply runs_ret.
  - by apply runs_on_runs, runs_parsePrimaryExpr.
Qed.

Lemma runs_parseUnaryExpr k : (∀ k', (k' < k)%nat → runs k' any sub) →
  runs k any (parseUnaryExpr ParseFloat GetFunction sub).
Proof.
  intros Hs p Hp. apply (runs_unary_expr (S (remaining p)) (remaining p)); [lia| |done].
  intros k' Hk'. apply Hs. lia.
Qed.

Lemma runs_power_expr fuel k : (k < fuel)%nat → (∀ k', (k' < k)%nat → runs k' any sub) →
  runs k any (power_expr ParseFloat GetFunction sub fuel).
Proof.
  revert k. induction fuel as [|fuel IH]; intros k Hk Hs; [lia|]. cbn [power_expr].
  eapply (runs_bind _ any); [by apply runs_parseUnaryExpr|]. intros lhs _.
  apply runs_the_token. intros t. case_bool_decide as E; [|by apply runs_on_runs, runs_ret].
  apply advance_one; [apply solid_moves; by rewrite E|]. intros ?. unfold any.
  eapply (runs_bind _ any); [apply runs_parseVectorMatching|]. intros vm _. unfold any.
  assert (Hr : runs (k - 0 - 1 - 0) any (power_expr ParseFloat GetFunction sub fuel)).
  { apply IH; [lia|]. intros k' Hk'. apply Hs. lia. }
  eapply (runs_bind _ any); [exact Hr|]. intros e _. by apply runs_ret.
Qed.

Lemma runs_parsePower k : (∀ k', (k' < k)%nat → runs k' any sub) →
  runs k any (parsePower ParseFloat GetFunction sub).
Proof.
  intros Hs p Hp. apply (runs_power_expr (S (remaining p)) (remaining p)); [lia| |done].
  intros k' Hk'. apply Hs. lia.
Qed.

(** A level of left-associative operators. *)
Lemma prom_runs_binary_loop k ops operand e :
  (∀ t op, ops t = Some op → solid t = true) → runs k any operand → runs k any (binary_loop ops operand e).
Proof.
  intros Hops Ho. apply runs_loop. intros lhs. apply runs_the_token. intros t.
  destruct (ops (Typ t)) as [op|] eqn:E; [|by apply runs_on_runs, runs_ret].
  apply advance_one; [by apply solid_moves, (Hops _ op)|]. intros ?.
  eapply (runs_bind _ any).
  { destruct (IsComparisonOp op); [|by apply runs_ret].
    eapply runs_mono; [by apply runs_accept|done|]. intros a. unfold any. lia. }
  intros b _. unfold any. eapply (runs_bind _ any); [apply runs_parseVectorMatching|]. intros vm _. unfold any.
  eapply (runs_bind _ any); [eapply runs_le; [exact Ho|lia]|]. intros r _. apply runs_ret. unfold any, if_true. cbn. lia.
Qed.

Lemma prom_runs_level k ops operand :
  (∀ t op, ops t = Some op → solid t = true) → runs k any operand →
  runs k any (let? lhs := operand in binary_loop ops operand lhs).
Proof.
  intros Hops Ho. eapply (runs_bind _ any); [exact Ho|]. intros e _. apply prom_runs_binary_loop; [done|].
  eapply runs_le; [exact Ho|lia].
Qed.

Lemma runs_parseOr k : (∀ k', (k' < k)%nat → runs k' any sub) →
  runs k any (parseOr ParseFloat GetFunction sub).
Proof.
  intros Hs. do 6 (apply prom_runs_level; [by intros []|]). by apply runs_parsePower.
Qed.
End levels_progress.


Lemma runs_parseExpr fuel : ∀ k, (k < fuel)%nat → runs k any (parseExpr ParseFloat GetFunction fuel).
Proof.
  induction fuel as [|fuel IH]; intros k Hk; [lia|]. cbn [parseExpr].
  apply runs_parseOr. intros k' Hk'. apply IH. lia.
Qed.
End progress.

(** Every text is parsed: to an expression or to an error, without a panic and within
    the fuel, the bytes of the text. *)
Theorem prom_parse_total {U : Unicode} ParseFloat GetFunction query :
  match Parse ParseFloat GetFunction query with
  | Some (Ok _) | Some (Err _) => True
  | Some (Panic _) | None => False
  end.
Proof.
  unfold Parse. destruct (NextItem (NewLexer query)) as [t l].
  pose proof (runs_parseExpr ParseFloat GetFunction (S (remaining (mkParser l t))) (remaining (mkParser l t))
    (Nat.lt_succ_diag_r _) _ (le_n _)) as H.
  by destruct (parseExpr _ _ _ _) as [[[e p]|e|w]|].
Qed.
