(* ===== verification/PromParsed.v ===== *)
(** What the parser of PromQL makes: the invariant of its state is that an identifier token
    is a word, and every tree it returns is formed by the grammar. *)

From Stdlib Require Import String Ascii SpecFloat.
From stdpp Require Import base option list strings.
From S2P Require Import Prelude Float64 Bytes Chars Parsing Values PromLexer PromValue PromAst PromParser.

(** ** Trees of the grammar *)

(** How tightly an operator binds. *)
Definition level_of (op : BinaryOp) : nat :=
  match op with
  | OpOr => 1 | OpAnd => 2 | OpUnless => 3
  | OpEql | OpNeq | OpLss | OpGtr | OpLte | OpGte => 4
  | OpAdd | OpSub => 5 | OpMul | OpDiv | OpMod | OpAtan2 => 6 | OpPow => 7
  end.
Definition binds (n : nat) (e : Expr) : Prop :=
  match e with BinaryExpr op _ _ _ _ _ => (n ≤ level_of op)%nat | _ => True end.
(** The levels of the operands of an operator: all but the power associate to the left. *)
Definition operands (op : BinaryOp) : nat * nat :=
  if bool_decide (op = OpPow) then (8%nat, 7%nat) else (level_of op, S (level_of op)).

Definition formed_selector (vs : VectorSelectorNode) : Prop :=
  identifier (vs_Name vs) ∧ Forall (λ m, identifier (lm_Name m)) (vs_LabelMatchers vs) ∧
  (vs_StartOrEnd vs = 0 ∨ vs_Timestamp vs = None ∧ (vs_StartOrEnd vs = 1 ∨ vs_StartOrEnd vs = 2)).
Definition formed_matching (vm : VectorMatching) : Prop :=
  Forall identifier (vm_MatchingLabels vm) ∧ Forall identifier (vm_Include vm) ∧
  (vm_Card vm = CardOneToOne ∧ vm_Include vm = [] ∨ vm_Card vm = CardManyToOne ∨ vm_Card vm = CardOneToMany).

Section formed.
Context (GetFunction : string → option Function).

Definition formed_node (e : Expr) : Prop :=
  match e with
  | VectorSelector vs | MatrixSelector vs _ _ => formed_selector vs
  | UnaryExpr op e _ => (op = ItemAdd ∨ op = ItemSub) ∧ binds 8 e
  | BinaryExpr op l r vm b _ =>
      binds (operands op).1 l ∧ binds (operands op).2 r ∧ from_option formed_matching True vm ∧
      (b = true → IsComparisonOp op = true)
  | AggregateExpr op _ param grouping _ _ =>
      IsAggregator op = true ∧ (is_Some param ↔ takes_param op = true) ∧ Forall identifier grouping
  | Call f _ _ => ∃ name, identifier name ∧ GetFunction name = Some f
  | Subquery e _ _ _ _ => ∃ vs, e = VectorSelector vs
  | NumberLiteral _ _ | StringLiteral _ _ | ParenExpr _ _ => True
  end.
Definition formed (n : nat) (e : Expr) : Prop := binds n e ∧ Forall formed_node (nodes e).
End formed.

(** ** Computations that return what satisfies a predicate *)

Definition returns {A} (Q : A → Prop) (c : P A) : Prop := ∀ p, word_item (p_token p) →
  match c p with Some (Ok (a, p')) => word_item (p_token p') ∧ Q a | _ => True end.

Lemma returns_mono {A} (Q Q' : A → Prop) c : returns Q c → (∀ a, Q a → Q' a) → returns Q' c.
Proof. intros Hc HQ p Hp. specialize (Hc p Hp). destruct (c p) as [[[a p']|e|w]|]; naive_solver. Qed.

Lemma returns_ret {A} (Q : A → Prop) a : Q a → returns Q (ret a).
Proof. by intros H p Hp. Qed.

Lemma returns_bind {A B} (Q1 : A → Prop) (Q : B → Prop) c f :
  returns Q1 c → (∀ a, Q1 a → returns Q (f a)) → returns Q (bind c f).
Proof.
  intros Hc Hf p Hp. unfold bind. specialize (Hc p Hp). destruct (c p) as [[[a p1]|e|w]|]; [|done..].
  destruct Hc as [Hp1 Ha]. by apply (Hf a Ha).
Qed.

Lemma returns_token {A} (Q : A → Prop) f : (∀ t, word_item t → returns Q (f t)) → returns Q (bind the_token f).
Proof. intros Hf p Hp. by apply Hf. Qed.

(** As [returns], from a parser whose token is [t]. *)
Definition returns_on {A} (t : Item) (Q : A → Prop) (c : P A) : Prop := ∀ p, p_token p = t → word_item t →
  match c p with Some (Ok (a, p')) => word_item (p_token p') ∧ Q a | _ => True end.

Lemma returns_on_token {A} t (Q : A → Prop) f : (word_item t → returns Q (f t)) → returns_on t Q (bind the_token f).
Proof. intros Hf p <- Hp. by apply Hf. Qed.
Lemma returns_by_token {A} (Q : A → Prop) f : (∀ t, returns_on t Q (f t)) → returns Q (bind the_token f).
Proof. intros Hf p Hp. by apply Hf. Qed.
Lemma returns_on_returns {A} t (Q : A → Prop) c : returns Q c → returns_on t Q c.
Proof. intros Hc p <- Hp. by apply Hc. Qed.

Lemma returns_errorf {A} (Q : A → Prop) msg : returns Q (errorf msg).
Proof. done. Qed.

Lemma returns_lift {A} (Q : A → Prop) r : (∀ a, r = Ok a → Q a) → returns Q (lift r).
Proof. intros H p Hp. destruct r; [by split; [|apply H]|done|done]. Qed.

Lemma returns_loop {A} (Inv : A → Prop) body a :
  (∀ a, Inv a → returns (λ x, Inv x.1) (body a)) → Inv a → returns Inv (loop body a).
Proof.
  intros Hb Ha p Hp. unfold loop. generalize (S (remaining p)). intros fuel. revert a p Ha Hp.
  induction fuel as [|fuel IH]; intros a p Ha Hp; [done|]. cbn [iterate]. unfold bind.
  specialize (Hb a Ha p Hp). destruct (body a p) as [[[[a' go] p1]|e|w]|]; [|done..].
  destruct Hb as [Hp1 Ha']. destruct go; [by apply IH|by split].
Qed.

Section parsed.
Context {U : Unicode} (ParseFloat : string → option float64) (GetFunction : string → option Function).

Definition anything {A} : A → Prop := λ _, True.

Lemma returns_advance : returns anything advance.
Proof.
  intros p Hp. unfold advance. pose proof (NextItem_word (p_lexer p)) as H.
  by destruct (NextItem (p_lexer p)) as [t l].
Qed.

Lemma returns_expect typ : returns anything (expect typ).
Proof. apply returns_token. intros t _. case_bool_decide; [apply returns_advance|done]. Qed.

Lemma returns_at_item typ : returns anything (at_item typ).
Proof. apply returns_token. intros t _. by apply returns_ret. Qed.

#[local] Hint Resolve returns_advance returns_expect returns_at_item returns_errorf : dogwatch.

(** One step through a parsing function; what is bound satisfies what a hint says of it. *)
Ltac ret_step :=
  lazymatch goal with
  | |- returns _ (ret _) => apply returns_ret
  | |- returns _ (errorf _) => apply returns_errorf
  | |- returns _ (bind the_token _) => apply returns_token; intros ? ?
  | |- returns _ (bind _ _) =>
      eapply returns_bind; [solve [eauto 3 with dogwatch]|]; intros ? ?
  | |- returns _ (if bool_decide _ then _ else _) => case_bool_decide
  | |- returns _ (if ?b then _ else _) => destruct b eqn:?
  | |- returns _ (match ?o with _ => _ end) => destruct o eqn:?
  end.
Ltac ret_auto := cbn beta iota zeta; repeat (ret_step; cbn beta iota zeta).

Lemma returns_accept typ : returns anything (accept typ).
Proof. unfold accept. by ret_auto. Qed.
#[local] Hint Resolve returns_accept : dogwatch.

Lemma returns_parseDuration : returns anything (parseDuration ParseFloat).
Proof. unfold parseDuration. ret_auto. by apply returns_lift. Qed.

Lemma returns_label_name : returns identifier label_name.
Proof. unfold label_name. ret_auto. auto. Qed.
#[local] Hint Resolve returns_parseDuration returns_label_name : dogwatch.

Lemma returns_labels : returns (Forall identifier) (loop (λ l,
  let? name := label_name in let? more := accept ItemComma in ret (l ++ [name], more)) []).
Proof. apply returns_loop; [|done]. intros l Hl. ret_auto. cbn. by apply Forall_app; split; [|constructor]. Qed.
#[local] Hint Resolve returns_labels : dogwatch.

Lemma returns_parseGrouping : returns (Forall identifier) parseGrouping.
Proof. unfold parseGrouping. ret_auto; [done|]. assumption. Qed.
#[local] Hint Resolve returns_parseGrouping : dogwatch.
Lemma returns_matchers : returns (Forall (λ m, identifier (lm_Name m))) parseLabelMatchers.
Proof.
  unfold parseLabelMatchers. ret_auto; [done|]. eapply (returns_bind (Forall (λ m, identifier (lm_Name m)))).
  - apply returns_loop; [|done]. intros l Hl.
    assert (Hm : returns (λ m, identifier (lm_Name m)) parseLabelMatcher).
    { unfold parseLabelMatcher. by ret_auto. }
    ret_auto. all: cbn; by apply Forall_app; split; [|constructor].
  - intros ms Hms. by ret_auto.
Qed.

Lemma returns_matching : returns (from_option formed_matching True) parseVectorMatching.
Proof.
  unfold parseVectorMatching. ret_auto; [|done].
  eapply (returns_bind anything); [by ret_auto; eauto with dogwatch|]. intros gr _. ret_auto.
  - eapply (returns_bind (Forall identifier)); [by ret_auto; eauto with dogwatch|]. intros incl Hi. ret_auto.
    cbn. split_and!; [done..|]. right. match goal with |- context [if ?b then _ else _] => destruct b end; auto.
  - cbn. split_and!; [done..|]. by left.
Qed.
#[local] Hint Resolve returns_matchers returns_matching : dogwatch.

(** ** Selectors *)

Definition fresh (vs : VectorSelectorNode) : Prop :=
  formed_selector vs ∧ vs_StartOrEnd vs = 0 ∧ vs_Timestamp vs = None.

Lemma returns_offset : returns anything (offset_modifier ParseFloat).
Proof. unfold offset_modifier. by ret_auto. Qed.
#[local] Hint Resolve returns_offset : dogwatch.

Lemma returns_at vs : fresh vs → returns formed_selector (at_modifier vs).
Proof.
  intros ((Hn & Hm & _) & Hse & Hts). unfold at_modifier. ret_auto. all: split_and!; try done; cbn; rewrite ?Hse; auto.
Qed.

Lemma returns_at_offset vs o : fresh vs →
  returns formed_selector (at_modifier (match o with Some d => with_offset d vs | None => vs end)).
Proof. intros Hvs. apply returns_at. by destruct o. Qed.
#[local] Hint Resolve returns_at_offset : dogwatch.

(** The nodes of a tree whose operands are known. *)
Ltac leaves := unfold nodes; cbn; repeat (apply Forall_cons; split); try apply Forall_nil; cbn; auto.

Lemma formed_vector vs : formed_selector vs → formed GetFunction 8 (VectorSelector vs).
Proof. intros H. split; [done|]. leaves. Qed.

Lemma returns_matrix vs : fresh vs → returns (formed GetFunction 8) (parseMatrixSelector ParseFloat vs).
Proof.
  intros Hvs. unfold parseMatrixSelector. ret_auto.
  - eapply (returns_bind anything); [by ret_auto; eauto with dogwatch|]. intros step _. ret_auto.
    destruct Hvs as [Hvs _]. split; [done|]. leaves. by eexists.
  - split; [done|]. leaves.
Qed.

Lemma returns_vector name pos : identifier name → returns (formed GetFunction 8) (parseVectorSelector ParseFloat name pos).
Proof.
  intros Hn. unfold parseVectorSelector. ret_auto.
  eapply (returns_bind (Forall (λ m, identifier (lm_Name m)))); [by ret_auto; eauto with dogwatch|].
  intros ms Hms. assert (Hvs : fresh (mkVectorSelector name ms 0 None 0 pos)) by (split; [split; [done|split; [done|by left]]|done]).
  ret_auto; [by apply returns_matrix|]. by apply formed_vector.
Qed.
#[local] Hint Resolve returns_vector : dogwatch.

(** ** Expressions *)

Lemma formed_weaken n m e : (m ≤ n)%nat → formed GetFunction n e → formed GetFunction m e.
Proof. intros Hm [Hb Hn]. split; [|done]. destruct e; try done. cbn in *. lia. Qed.

Lemma returns_number : returns (formed GetFunction 8) (parseNumber ParseFloat).
Proof. unfold parseNumber. ret_auto. split; [done|]. leaves. Qed.
Lemma returns_string : returns (formed GetFunction 8) parseString.
Proof. unfold parseString. ret_auto. split; [done|]. leaves. Qed.

Section levels.
Context (sub : P Expr).
Hypothesis Hsub : returns (formed GetFunction 0) sub.
#[local] Hint Resolve Hsub : dogwatch.

Lemma returns_paren : returns (formed GetFunction 8) (parseParen sub).
Proof. unfold parseParen. ret_auto. match goal with H : formed _ 0 _ |- _ => destruct H end. split; [done|]. by constructor. Qed.

Lemma returns_args : returns (Forall (formed GetFunction 0)) (parseCallArgs sub).
Proof.
  unfold parseCallArgs. ret_auto; [done|]. apply returns_loop; [|done]. intros l Hl. ret_auto. cbn.
  by apply Forall_app; split; [|constructor].
Qed.
#[local] Hint Resolve returns_args : dogwatch.

Lemma returns_call name pos : identifier name → returns (formed GetFunction 8) (parseFunctionCall GetFunction sub name pos).
Proof.
  intros Hn. unfold parseFunctionCall. ret_auto. split; [done|]. cbn. constructor; [by eexists|].
  match goal with H : Forall (formed _ 0) ?l |- _ => induction H as [|e l [_ He] _ IH] end; [done|].
  cbn. by apply Forall_app.
Qed.
#[local] Hint Resolve returns_call : dogwatch.

Lemma returns_selector_or_call t : Typ t = ItemIdentifier →
  returns_on t (formed GetFunction 8) (parseVectorSelectorOrFunction ParseFloat GetFunction sub).
Proof. intros Ht. apply returns_on_token. intros Hw. pose proof (Hw Ht). ret_auto; auto with dogwatch. Qed.

Lemma returns_clause : returns (λ o, Forall identifier (default ([], false) o).1) grouping_clause.
Proof. unfold grouping_clause. by ret_auto. Qed.
#[local] Hint Resolve returns_clause : dogwatch.

Lemma returns_aggregate t : IsAggregator (Typ t) = true → returns_on t (formed GetFunction 8) (parseAggregateExpr sub).
Proof.
  intros Ha. apply returns_on_token. intros _.
  ret_auto. match goal with H : (λ o, _) ?b |- _ => rename b into before; rename H into Hbefore end.
  match goal with H : _ = (?g, ?w) |- _ => cbn beta in Hbefore; rewrite H in Hbefore; rename g into grouping, w into without end.
  eapply (returns_bind (λ param, (is_Some param ↔ takes_param (Typ t) = true) ∧
    Forall (formed_node GetFunction) (match param with Some q => nodes q | None => [] end))).
  { ret_auto; (split; [|done || by match goal with H : formed _ _ _ |- _ => destruct H end]); by split. }
  intros param [Hp Hpn]. ret_auto.
  eapply (returns_bind (λ o, Forall identifier (default (grouping, without) o).1)).
  { ret_auto; [|done]. eapply returns_mono; [apply returns_clause|]. by intros []. }
  intros after Hafter. ret_auto.
  split; [done|]. unfold nodes. cbn. constructor; [by split_and!|].
  match goal with H : formed _ 0 _ |- _ => destruct H end. apply Forall_app; split; [|done]. by destruct param.
Qed.

Lemma returns_primary : returns (formed GetFunction 8) (parsePrimaryExpr ParseFloat GetFunction sub).
Proof.
  apply returns_by_token. intros t. destruct (IsAggregator (Typ t)) eqn:Ea.
  - pose proof (returns_aggregate t Ea) as H. by destruct (Typ t).
  - destruct (Typ t) eqn:Et; try by apply returns_on_returns.
    + by apply returns_selector_or_call.
    + apply returns_on_returns, returns_number.
    + apply returns_on_returns, returns_string.
    + apply returns_on_returns, returns_paren.
Qed.

Lemma returns_unary fuel : returns (formed GetFunction 8) (unary_expr ParseFloat GetFunction sub fuel).
Proof.
  induction fuel as [|fuel IH]; intros p Hp; [done|]. cbn [unary_expr].
  revert p Hp. fold (returns (formed GetFunction 8)
    (let? t := the_token in
     if bool_decide (Typ t = ItemAdd ∨ Typ t = ItemSub) then
       advance ;? let? e := unary_expr ParseFloat GetFunction sub fuel in ret (UnaryExpr (Typ t) e (ItemPos t))
     else parsePrimaryExpr ParseFloat GetFunction sub)).
  ret_auto; [|apply returns_primary]. match goal with H : formed _ 8 _ |- _ => destruct H end.
  split; [done|]. unfold nodes. cbn. by constructor.
Qed.

Lemma returns_power fuel : returns (formed GetFunction 7) (power_expr ParseFloat GetFunction sub fuel).
Proof.
  induction fuel as [|fuel IH]; intros p Hp; [done|]. cbn [power_expr]. revert p Hp.
  match goal with |- ∀ p, _ → match ?c p with _ => _ end => change (returns (formed GetFunction 7) c) end.
  eapply (returns_bind (formed GetFunction 8)); [intros p Hp; by apply returns_unary|]. intros l Hl. ret_auto.
  - match goal with H : formed _ 7 _ |- _ => destruct H end. destruct Hl as [Hl Hln].
    split; [by cbn|]. unfold nodes. cbn. constructor; [by split_and!|]. by apply Forall_app.
  - apply (formed_weaken 8); [lia|done].
Qed.

Lemma returns_level n ops operand :
  (∀ t op, ops t = Some op → level_of op = n ∧ op ≠ OpPow) →
  returns (formed GetFunction (S n)) operand →
  returns (formed GetFunction n) (let? lhs := operand in binary_loop ops operand lhs).
Proof.
  intros Hops Ho. eapply returns_bind; [exact Ho|]. intros l0 Hl0. apply returns_loop; [|apply (formed_weaken (S n)); auto with lia].
  intros l [Hl Hln]. ret_auto; [|done]. match goal with H : ops _ = Some ?op |- _ => destruct (Hops _ _ H) as [<- Hop]; rename op into o end.
  eapply (returns_bind (λ b, b = true → IsComparisonOp o = true)).
  { destruct (IsComparisonOp o); [|by ret_auto]. eapply returns_mono; [apply returns_accept|done]. }
  intros b Hb. ret_auto. match goal with H : formed _ (S _) _ |- _ => destruct H end.
  split; [by cbn|]. unfold nodes. cbn. constructor; [|by apply Forall_app].
  cbn. unfold operands. by rewrite bool_decide_eq_false_2.
Qed.

Lemma returns_or : returns (formed GetFunction 1) (parseOr ParseFloat GetFunction sub).
Proof.
  do 6 (apply returns_level; [by intros [] op [= <-]|]). intros p Hp. by apply returns_power.
Qed.
End levels.

Lemma returns_expr fuel : returns (formed GetFunction 1) (parseExpr ParseFloat GetFunction fuel).
Proof.
  induction fuel as [|fuel IH]; [done|]. cbn [parseExpr]. apply returns_or.
  eapply returns_mono; [exact IH|]. intros e. apply formed_weaken. lia.
Qed.
End parsed.

Lemma parse_formed {U : Unicode} ParseFloat GetFunction query e :
  Parse ParseFloat GetFunction query = Some (Ok e) → formed GetFunction 1 e.
Proof.
  unfold Parse. pose proof (NextItem_word (NewLexer query)) as Hw. destruct (NextItem (NewLexer query)) as [t l].
  pose proof (returns_expr ParseFloat GetFunction (S (remaining (mkParser l t))) (mkParser l t) Hw) as H.
  destruct (parseExpr _ _ _ _) as [[[e' p]|m|w]|]; intros [= <-]. by destruct H.
Qed.

(** What holds of the selectors of a tree of the grammar. *)
Lemma formed_selectors GetFunction n e : formed GetFunction n e →
  ∀ vs, VectorSelector vs ∈ nodes e → formed_selector vs.
Proof. intros [_ H] vs Hvs. rewrite Forall_forall in H. by apply (H (VectorSelector vs)). Qed.

(** What the parser returns is a tree of the grammar: names and labels are words,
    operators associate and bind as their levels say, a sign applies to no operator, "bool"
    is on comparisons only, vector matching is on one side, an aggregation has a parameter
    exactly when its operator takes one, a call is of a function the registry has under a
    word, and a subquery is of a selector. *)
Theorem parsed_is_formed {U : Unicode} ParseFloat GetFunction query e :
  Parse ParseFloat GetFunction query = Some (Ok e) → formed GetFunction 1 e.
Proof. apply parse_formed. Qed.
