(* ===== verification/PromEval.v ===== *)
(** The evaluator of PromQL (internal/promql/translate.go from [Evaluator] on): selectors
    against a store of metrics, operators, vector matching, aggregations, calls and
    subqueries. *)

From Stdlib Require Import String Ascii SpecFloat.
From stdpp Require Import base option list gmap sets strings sorting.
From S2P Require Import Prelude Float64 Bytes Format Grouping Values PromValue PromFunctions PromLexer PromAst.

(** ** Stores

    What the evaluator asks of a store; the state is what a store may change, such as a
    cache. The argument [labels] of the code is nil in every call. *)
Class MetricsStore (St : Type) := {
  ScanRange : string → list LabelMatcher → Time → Time → St → result (list Series) * St;
  ListMetrics : St → result (list string);
  ListLabels : string → St → result (list string);
  ListLabelValues : string → string → St → result (list string);
}.

(** ** Computations over a store

    The store keeps its changes when a computation fails; [None] says that the fuel of a
    loop ran out. *)
Definition E (St A : Type) : Type := St → option (result A * St).

Definition eret {St A} (a : A) : E St A := λ st, Some (Ok a, st).
Definition elift {St A} (r : result A) : E St A := λ st, Some (r, st).
Definition ebind {St A B} (c : E St A) (k : A → E St B) : E St B := λ st,
  match c st with
  | Some (Ok a, st') => k a st'
  | Some (Err e, st') => Some (Err e, st')
  | Some (Panic w, st') => Some (Panic w, st')
  | None => None
  end.
Notation "'let&' x ':=' c 'in' k" := (ebind c (λ x, k))
  (at level 10, x pattern, c at level 100, k at level 200) : go_scope.

(** An error is dropped. *)
Definition etry {St A} (c : E St A) : E St (option A) := λ st,
  match c st with
  | Some (Ok a, st') => Some (Ok (Some a), st')
  | Some (Err _, st') => Some (Ok None, st')
  | Some (Panic w, st') => Some (Panic w, st')
  | None => None
  end.

Fixpoint e_mapM {St A B} (f : A → E St B) (l : list A) : E St (list B) :=
  match l with
  | [] => eret []
  | x :: l => let& y := f x in let& ys := e_mapM f l in eret (y :: ys)
  end.

(** [for t := start; !t.After(end); t = t.Add(step)] *)
Fixpoint time_loop {St A} (fuel : nat) (step : Duration) (end_ : Time) (body : Time → A → E St A) (t : Time) (a : A) :
    E St A :=
  match fuel with
  | O => λ _, None
  | S fuel =>
      if After t end_ then eret a
      else let& a := body t a in time_loop fuel step end_ body (t + step) a
  end.
(** One round for each step, and the test that ends the loop. *)
Definition loop_fuel (start end_ : Time) (step : Duration) : nat :=
  if 0 <? step then (Z.to_nat ((end_ - start) / step) + 2)%nat else 1%nat.

(** ** Operators *)

(** The power is a product: the exponent is cut to an integer, a negative one gives 1. *)
Definition pow (base exp : float64) : float64 :=
  Nat.iter (Z.to_nat (f64_to_int exp)) (λ r, f64_mul r base) f64_one.

(** Newton's method, ten rounds from half of the number; 0 divides by 0. *)
Definition sqrt (x : float64) : float64 :=
  if f64_lt x f64_zero then f64_zero
  else Nat.iter 10 (λ z, f64_div (f64_add z (f64_div x z)) (f64_of_Z 2)) (f64_div x (f64_of_Z 2)).

Definition f64_bool (b : bool) : float64 := if b then f64_one else f64_zero.
Definition computeBinop (op : BinaryOp) (lhs rhs : float64) : result float64 :=
  match op with
  | OpAdd => Ok (f64_add lhs rhs)
  | OpSub => Ok (f64_sub lhs rhs)
  | OpMul => Ok (f64_mul lhs rhs)
  | OpDiv => Ok (f64_div lhs rhs)
  | OpMod =>
      if f64_to_int rhs =? 0 then Panic "integer divide by zero"
      else Ok (f64_of_Z (Z.rem (f64_to_int lhs) (f64_to_int rhs)))
  | OpPow => Ok (pow lhs rhs)
  | OpEql => Ok (f64_bool (f64_eq lhs rhs))
  | OpNeq => Ok (f64_bool (f64_neq lhs rhs))
  | OpLss => Ok (f64_bool (f64_lt lhs rhs))
  | OpGtr => Ok (f64_bool (f64_gt lhs rhs))
  | OpLte => Ok (f64_bool (f64_le lhs rhs))
  | OpGte => Ok (f64_bool (f64_ge lhs rhs))
  | OpAnd | OpOr => Ok lhs
  | OpUnless | OpAtan2 => Ok f64_zero
  end.

Definition filters (op : BinaryOp) (returnBool : bool) : bool := IsComparisonOp op && negb returnBool.

Definition scalarBinop (op : BinaryOp) (l r : float64) (t : Time) : result Value :=
  let! val := computeBinop op l r in Ok (Scalar val t).

(** A comparison keeps the samples that satisfy it, with their values. *)
Definition scalarVectorBinop (op : BinaryOp) (scalar : float64) (vec : list VectorSample) (scalarOnLeft returnBool : bool) :
    result (list VectorSample) :=
  let! l := res_mapM (λ s,
    let! val := if scalarOnLeft then computeBinop op scalar (v_Value s) else computeBinop op (v_Value s) scalar in
    Ok (if filters op returnBool then (if f64_eq val f64_zero then None else Some s)
        else Some (with_value (λ _, val) s))) vec in
  Ok (omap id l).

Definition matchingKey (labels : Labels) (m : VectorMatching) : string :=
  key_of labels (sorted_names
    (if vm_On m then vm_MatchingLabels m
     else filter (λ k, k ∉ vm_MatchingLabels m) (label_names labels))).

Definition mergeLabels (lhs rhs : Labels) (m : VectorMatching) : Labels :=
  foldl (λ r l, match rhs !! l with Some v => <[l := v]> r | None => r end) lhs (vm_Include m).

(** One pair of samples with the same key. *)
Definition match_pair (op : BinaryOp) (m : VectorMatching) (returnBool : bool) (l r : VectorSample) :
    result (option VectorSample) :=
  let! val := computeBinop op (v_Value l) (v_Value r) in
  Ok (if filters op returnBool then
        if f64_eq val f64_zero then None
        else Some (mkVectorSample (mergeLabels (v_Labels l) (v_Labels r) m) (v_Value l) (v_Timestamp l))
      else if IsSetOp op then
        if f64_neq val f64_zero then Some l else None
      else Some (mkVectorSample (mergeLabels (v_Labels l) (v_Labels r) m) val (v_Timestamp l))).

Definition one_to_one : VectorMatching := mkVectorMatching CardOneToOne [] false [].
Definition vectorVectorBinop (op : BinaryOp) (lhs rhs : list VectorSample) (matching : option VectorMatching)
    (returnBool : bool) : result (list VectorSample) :=
  let m := default one_to_one matching in
  let rhsMap := group_by (λ s, matchingKey (v_Labels s) m) rhs in
  let! rows := res_mapM (λ l,
    res_mapM (match_pair op m returnBool l) (default [] (rhsMap !! matchingKey (v_Labels l) m))) lhs in
  Ok (omap id (concat rows)).

Definition evalBinop (op : BinaryOp) (matching : option VectorMatching) (returnBool : bool) (lhs rhs : Value) :
    result Value :=
  match lhs, rhs with
  | Scalar l t, Scalar r _ => scalarBinop op l r t
  | Scalar l _, Vector r => let! v := scalarVectorBinop op l r true returnBool in Ok (Vector v)
  | Vector l, Scalar r _ => let! v := scalarVectorBinop op r l false returnBool in Ok (Vector v)
  | Vector l, Vector r => let! v := vectorVectorBinop op l r matching returnBool in Ok (Vector v)
  | _, _ => Err ("invalid operand types: " +:+ Value_name lhs +:+ " and " +:+ Value_name rhs)
  end.

Definition evalNegate (val : Value) : result Value :=
  match val with
  | Scalar v t => Ok (Scalar (f64_neg v) t)
  | Vector l => Ok (each_value f64_neg l)
  | _ => Err ("cannot negate " +:+ Value_name val)
  end.

(** ** Aggregations *)

(** The code sorts the grouping of the node in place, which changes no key. *)
Definition groupKey (grouping : list string) (without : bool) (labels : Labels) : string :=
  if without then key_of labels (sorted_names (filter (λ k, k ∉ grouping) (label_names labels)))
  else match grouping with [] => "" | _ => key_of labels (sorted_names grouping) end.
Definition groupLabelSet (grouping : list string) (without : bool) (labels : Labels) : Labels :=
  if without then filter (λ kv, kv.1 ∉ grouping) labels else filter (λ kv, kv.1 ∈ grouping) labels.

Definition sample_sum (l : list VectorSample) : float64 := foldl (λ a s, f64_add a (v_Value s)) f64_zero l.

(** How often each value occurs; a key that is equal to one that is there replaces it
    (the two zeros), and NaN is equal to no key. *)
Fixpoint count_value (v : float64) (counts : list (float64 * Z)) : list (float64 * Z) :=
  match counts with
  | [] => [(v, 1)]
  | (w, n) :: counts => if f64_eq v w then (v, n + 1) :: counts else (w, n) :: count_value v counts
  end.
Definition count_values (l : list VectorSample) : list (float64 * Z) :=
  foldl (λ counts s, count_value (v_Value s) counts) [] l.

(** [samples[:k]], with [k] cut to the length. *)
Definition first_k (k : Z) (samples : list VectorSample) : result (list VectorSample) :=
  if k <? 0 then Panic "slice bounds out of range" else Ok (take (Z.to_nat k) samples).

(** The order in which Go visits a map whose keys are floats. *)
Class FloatMaps := { float_map_order : list (float64 * Z) → list (float64 * Z) }.

Section evaluator.
Context {RT : Runtime} {FM : FloatMaps} {St : Type} {store : MetricsStore St}.

(** The last sample before [End], or before the time of the modifiers. *)
Definition selector_end (vs : VectorSelectorNode) (ctx : EvalContext) : Time :=
  match vs_Timestamp vs with
  | Some ts => from_Unix ts
  | None =>
      if vs_StartOrEnd vs =? 1 then ec_Start ctx
      else if vs_StartOrEnd vs =? 2 then ec_End ctx
      else if vs_Offset vs =? 0 then ec_End ctx else ec_End ctx + wrap64 (- vs_Offset vs)
  end.

Definition latest (se : Series) : option VectorSample :=
  (λ s, mkVectorSample (se_Labels se) (s_Value s) (s_Timestamp s)) <$> last (se_Samples se).
Definition evalVectorSelector (vs : VectorSelectorNode) (ctx : EvalContext) : E St Value := λ st,
  let queryEnd := selector_end vs ctx in
  let '(r, st) := ScanRange (vs_Name vs) (vs_LabelMatchers vs) (queryEnd - 5 * Minute) queryEnd st in
  Some (let! series := r in Ok (Vector (omap latest series)), st).
Definition evalMatrixSelector (vs : VectorSelectorNode) (range : Duration) (ctx : EvalContext) : E St Value := λ st,
  let queryEnd := selector_end vs ctx in
  let '(r, st) := ScanRange (vs_Name vs) (vs_LabelMatchers vs) (queryEnd + wrap64 (- range)) queryEnd st in
  Some (let! series := r in Ok (Matrix series), st).

(** The number a parameter evaluates to, or another where it does not. *)
Definition param_scalar (c : option (E St Value)) (otherwise : float64) : E St float64 :=
  match c with
  | None => eret otherwise
  | Some c =>
      let& v := etry c in
      eret (match v with Some (Scalar x _) => x | _ => otherwise end)
  end.

(** The samples an aggregation makes of one group; [param] is its parameter, evaluated for
    every group, and [text] the parameter when it is a text. *)
Definition aggregate_group (op : ItemType) (param : option (E St Value)) (text : option string) (labels : Labels)
    (samples : list VectorSample) : E St (list VectorSample) :=
  let ts := default zero_time (v_Timestamp <$> head samples) in
  let one (v : float64) : E St (list VectorSample) := eret [mkVectorSample labels v ts] in
  let values := v_Value <$> samples in
  match op with
  | ItemSum => one (sample_sum samples)
  | ItemAvg => one (f64_div (sample_sum samples) (len samples))
  | ItemMin => match values with [] => elift (Panic "index out of range") | v :: l => one (extreme f64_lt v l) end
  | ItemMax => match values with [] => elift (Panic "index out of range") | v :: l => one (extreme f64_gt v l) end
  | ItemCount => one (len samples)
  | ItemStddev => one (sqrt (variance values))
  | ItemStdvar => one (variance values)
  | ItemTopK | ItemBottomK =>
      let& k := param_scalar param f64_one in
      let less (a b : VectorSample) : bool :=
        if bool_decide (op = ItemTopK) then f64_gt (v_Value a) (v_Value b) else f64_lt (v_Value a) (v_Value b) in
      elift (first_k (f64_to_int k) (sort_Slice less samples))
  | ItemQuantile =>
      let& q := param_scalar param (f64_of_decimal 5 1) in
      let& v := elift (quantile q (Float64s values)) in one v
  | ItemCountValues =>
      eret ((λ vn, mkVectorSample
                     (match text with Some name => <[name := fmt_float vn.1]> labels | None => labels end)
                     (f64_of_Z vn.2) ts)
            <$> float_map_order (count_values samples))
  | ItemGroup => one f64_one
  | _ => one f64_zero
  end.

Definition string_literal (e : Expr) : option string :=
  match e with StringLiteral s _ => Some s | _ => None end.

(** [evalAggregate] after its operand. *)
Definition aggregate_value (op : ItemType) (param : option (E St Value)) (text : option string)
    (grouping : list string) (without : bool) (val : Value) : E St Value :=
  match val with
  | Vector vec =>
      let groups := group_by (λ s, groupKey grouping without (v_Labels s)) vec in
      let& l := e_mapM (λ kg,
        aggregate_group op param text
          (default ∅ (groupLabelSet grouping without <$> (v_Labels <$> head kg.2))) kg.2) (map_order groups) in
      eret (Vector (concat l))
  | _ => elift (Err ("aggregate requires vector input, got " +:+ Value_name val))
  end.

(** A sample added to the series with its labels. *)
Definition add_sample (t : VectorSample → Time) (m : gmap string Series) (s : VectorSample) : gmap string Series :=
  let key := labelsToKey (v_Labels s) in
  let se := default (mkSeries (v_Labels s) []) (m !! key) in
  <[key := mkSeries (se_Labels se) (se_Samples se ++ [mkSample (t s) (v_Value s)])]> m.
Definition series_of (m : gmap string Series) : list Series := (map_order m).*2.

Definition call_function (f : Function) (args : list Value) (ctx : EvalContext) : result Value :=
  match f_Call f with
  | None => Err ("function " +:+ f_Name f +:+ " not implemented")
  | Some call => call args ctx
  end.

Definition subquery_step (step : Duration) (ctx : EvalContext) : Duration :=
  if step =? 0 then (if ec_Interval ctx =? 0 then Minute else ec_Interval ctx) else step.

Fixpoint eval (e : Expr) (ctx : EvalContext) : E St Value :=
  match e with
  | VectorSelector vs => evalVectorSelector vs ctx
  | MatrixSelector vs range _ => evalMatrixSelector vs range ctx
  | NumberLiteral v _ => eret (Scalar v (ec_End ctx))
  | StringLiteral v _ => eret (Str v (ec_End ctx))
  | UnaryExpr op e _ =>
      let& val := eval e ctx in
      if bool_decide (op = ItemAdd) then eret val else elift (evalNegate val)
  | BinaryExpr op l r vm b _ =>
      let& lhs := eval l ctx in
      let& rhs := eval r ctx in elift (evalBinop op vm b lhs rhs)
  | AggregateExpr op e param grouping without _ =>
      let& val := eval e ctx in
      aggregate_value op (match param with Some p => Some (eval p ctx) | None => None end)
        (param ≫= string_literal) grouping without val
  | Call f args _ =>
      let& vals := e_mapM (λ a, eval a ctx) args in elift (call_function f vals ctx)
  | ParenExpr e _ => eval e ctx
  | Subquery e range step offset _ =>
      let step := subquery_step step ctx in
      let end_ := if offset =? 0 then ec_End ctx else ec_End ctx + wrap64 (- offset) in
      let start := end_ + wrap64 (- range) in
      let& m := time_loop (loop_fuel start end_ step) step end_ (λ t m,
        let& val := eval e (mkEvalContext (t + wrap64 (- step)) t step) in
        eret (match val with Vector vec => foldl (add_sample v_Timestamp) m vec | _ => m end)) start ∅ in
      eret (Matrix (series_of m))
  end.
End evaluator.
