(* ===== verification/PromDemo.v ===== *)
(** Implementations of the classes of PromQL, a store in memory, and small queries, with
    which the examples and the witnesses of its theorems are evaluated. *)

From Stdlib Require Import String Ascii SpecFloat.
From stdpp Require Import base option list gmap strings.
From S2P Require Import Prelude Float64 Bytes Format Strconv Calendar Keys Values Demo PromValue PromFunctions PromMetricsql PromTypes PromLexer PromAst PromParser PromEval.

#[export] Instance demo_values : Runtime := demo_runtime.
#[export] Instance demo_unicode : Unicode :=
  {| unicode_letter := λ _, false; unicode_digit := λ _, false; quote_rune := λ _, "rune" |}.
#[export] Instance demo_float_maps : FloatMaps := {| float_map_order := id |}.
#[export] Instance demo_mathematics : Mathematics := {|
  math_Log2 := id; math_Exp := id; math_Acos := id; math_Acosh := id; math_Asin := id; math_Asinh := id;
  math_Atan := id; math_Atanh := id; math_Cos := id; math_Cosh := id; math_Sin := id; math_Sinh := id;
  math_Tan := id; math_Tanh := id;
  Sscanf_f := λ s, match Atoi s with (n, None) => Some (f64_of_Z n) | _ => None end |}.
#[export] Instance demo_regexps : Regexps := {| ReplaceAllString := λ _ s _, s |}.

Definition demo_number (s : string) : option float64 :=
  match Atoi s with (n, None) => Some (f64_of_Z n) | _ => None end.
Definition demo_functions : string → option Function := GetFunction UTC.
Definition demo_parse (query : string) : option (result Expr) := Parse demo_number demo_functions query.
Definition parsed_query (query : string) : Expr :=
  match demo_parse query with Some (Ok e) => e | _ => StringLiteral "" (mkPos 0 0 0) end.

(** Series in memory, found by their names. *)
Definition memory_scan (metric : string) (start end_ : Time) (l : list Series) : list Series :=
  omap (λ se,
    if bool_decide (se_Labels se !! "__name__"%string = Some metric) then
      match filter (λ s, start ≤ s_Timestamp s ≤ end_) (se_Samples se) with
      | [] => None
      | samples => Some (mkSeries (se_Labels se) samples)
      end
    else None) l.
#[export] Instance memory_store : MetricsStore (list Series) := {|
  ScanRange metric ms start end_ st := (Ok (memory_scan metric start end_ st), st);
  ListMetrics st := Ok []; ListLabels metric st := Ok []; ListLabelValues label metric st := Ok [];
|}.

Definition labels_of (l : list (string * string)) : Labels := list_to_map l.
Definition sample_at (sec v : Z) : Sample := mkSample (from_Unix sec) (f64_of_Z v).
Definition demo_series : list Series := [
  mkSeries (labels_of [("__name__", "up"); ("job", "api"); ("instance", "a")]%string) [sample_at 600 1; sample_at 660 2; sample_at 720 4];
  mkSeries (labels_of [("__name__", "up"); ("job", "api"); ("instance", "b")]%string) [sample_at 600 3; sample_at 660 5; sample_at 720 7];
  mkSeries (labels_of [("__name__", "up"); ("job", "web"); ("instance", "c")]%string) [sample_at 600 8; sample_at 660 8; sample_at 720 9]].

Definition at_time (sec : Z) : EvalContext := mkEvalContext (from_Unix sec) (from_Unix sec) 0.
Definition run_instant (query : string) (sec : Z) : option (result Value) :=
  match eval (parsed_query query) (at_time sec) demo_series with Some (r, _) => Some r | None => None end.

Lemma demo_sort_permutes : sorts.
Proof. intros A less l. apply insertion_sort_perm. Qed.

Lemma memory_scans metric ms start end_ (st : list Series) w : (ScanRange metric ms start end_ st).1 ≠ Panic w.
Proof. done. Qed.

Example sum_by_job : run_instant "sum by (job) (up)" 720 = Some (Ok (Vector [
  mkVectorSample (labels_of [("job", "web")]%string) (f64_of_Z 9) (from_Unix 720);
  mkVectorSample (labels_of [("job", "api")]%string) (f64_of_Z 11) (from_Unix 720)])).
Proof. vm_compute. reflexivity. Qed.
