(* ===== verification/PromSound.v ===== *)
(** What a PromQL expression evaluates to: an expression with a type ends with a value of
    that type or an error, over every store; aggregations and vector matching against
    their specifications. *)

From Stdlib Require Import String Ascii SpecFloat.
From stdpp Require Import base option list gmap sets numbers strings sorting.
From S2P Require Import Prelude Float64 FloatFacts Bytes Format Calendar Grouping Values PromValue PromFunctions PromMetricsql PromTypes PromLexer PromAst PromParser PromParsed PromEval PromDemo.

(** ** Types of expressions *)

Definition is_number (t : ValueType) : bool := bool_decide (t = ValueTypeScalar ∨ t = ValueTypeVector).
Definition binary_type (l r : ValueType) : option ValueType :=
  if is_number l && is_number r then
    Some (if bool_decide (l = ValueTypeScalar ∧ r = ValueTypeScalar) then ValueTypeScalar else ValueTypeVector)
  else None.

Fixpoint type_of (e : Expr) : option ValueType :=
  match e with
  | VectorSelector _ => Some ValueTypeVector
  | MatrixSelector _ _ _ => Some ValueTypeMatrix
  | NumberLiteral _ _ => Some ValueTypeScalar
  | StringLiteral _ _ => Some ValueTypeString
  | UnaryExpr op e _ =>
      match type_of e with
      | Some t => if bool_decide (op = ItemAdd) || is_number t then Some t else None
      | None => None
      end
  | BinaryExpr _ l r _ _ _ =>
      match type_of l, type_of r with Some tl, Some tr => binary_type tl tr | _, _ => None end
  | AggregateExpr _ e param _ _ _ =>
      match type_of e, match param with Some p => type_of p | None => Some ValueTypeNone end with
      | Some ValueTypeVector, Some _ => Some ValueTypeVector
      | _, _ => None
      end
  | Call f args _ =>
      match (fix types (l : list Expr) : option (list ValueType) :=
               match l with
               | [] => Some []
               | a :: l => match type_of a, types l with Some t, Some ts => Some (t :: ts) | _, _ => None end
               end) args with
      | Some ts => if acceptsb f ts then Some (f_ReturnType f) else None
      | None => None
      end
  | Subquery e _ _ _ _ => match type_of e with Some _ => Some ValueTypeMatrix | None => None end
  | ParenExpr e _ => type_of e
  end.

(** ** Computations that end without a panic *)

Section sound.
Context {St : Type}.

Definition ends_in {A} (Q : A → Prop) (c : E St A) : Prop :=
  ∀ st, ∃ r st', c st = Some (r, st') ∧ match r with Ok a => Q a | Err _ => True | Panic _ => False end.

Lemma ends_ret {A} (Q : A → Prop) a : Q a → ends_in Q (eret a).
Proof. intros H st. by exists (Ok a), st. Qed.

Lemma ends_lift {A} (Q : A → Prop) (r : result A) :
  match r with Ok a => Q a | Err _ => True | Panic _ => False end → ends_in Q (elift r).
Proof. intros H st. by exists r, st. Qed.

Lemma ends_bind {A B} (Q1 : A → Prop) (Q : B → Prop) (c : E St A) (k : A → E St B) :
  ends_in Q1 c → (∀ a, Q1 a → ends_in Q (k a)) → ends_in Q (ebind c k).
Proof.
  intros Hc Hk st. unfold ebind. destruct (Hc st) as (r & st' & -> & Hr). destruct r as [a|e|w]; [by apply Hk| |done].
  by exists (Err e), st'.
Qed.

Lemma ends_mono {A} (Q Q' : A → Prop) (c : E St A) : ends_in Q c → (∀ a, Q a → Q' a) → ends_in Q' c.
Proof. intros Hc HQ st. destruct (Hc st) as (r & st' & E & Hr). exists r, st'. split; [done|]. destruct r; auto. Qed.

Lemma ends_try {A} (Q : A → Prop) (c : E St A) : ends_in Q c → ends_in (λ _, True) (etry c).
Proof.
  intros Hc st. unfold etry. destruct (Hc st) as (r & st' & -> & Hr). destruct r; [by eexists _, _..|done].
Qed.

Lemma ends_mapM {A B} (Q : A → B → Prop) (f : A → E St B) l :
  (∀ x, x ∈ l → ends_in (Q x) (f x)) → ends_in (Forall2 Q l) (e_mapM f l).
Proof.
  induction l as [|x l IH]; intros Hf; cbn [e_mapM]; [by apply ends_ret|].
  eapply ends_bind; [apply Hf; set_solver|]. intros y Hy.
  eapply ends_bind; [apply IH; set_solver|]. intros ys Hys. apply ends_ret. by constructor.
Qed.

(** A loop over time ends: every round is a step nearer to the end. *)
Lemma ends_loop {A} (Q : A → Prop) step end_ (body : Time → A → E St A) :
  0 < step → (∀ t a, Q a → ends_in Q (body t a)) →
  ∀ start a, Q a → ends_in Q (time_loop (loop_fuel start end_ step) step end_ body start a).
Proof.
  intros Hs Hb start a Ha. unfold loop_fuel. replace (0 <? step) with true by lia.
  assert (H : ∀ fuel t a, Q a → (1 ≤ fuel)%nat → (t ≤ end_ → (Z.to_nat ((end_ - t) / step) + 2 ≤ fuel)%nat) →
    ends_in Q (time_loop fuel step end_ body t a)); [|apply H; [done|lia|lia]].
  clear a Ha. induction fuel as [|fuel IH]; intros t a Ha H1 Hf; [lia|]. cbn [time_loop]. unfold After.
  destruct (Z.ltb_spec end_ t); [by apply ends_ret|].
  eapply ends_bind; [by apply Hb|]. intros a' Ha'. specialize (Hf ltac:(lia)). apply IH; [done|lia|]. intros Ht.
  assert (Hd : (end_ - t) / step = (end_ - (t + step)) / step + 1).
  { replace (end_ - t) with (end_ - (t + step) + 1 * step) by lia. by rewrite Z.div_add by lia. }
  pose proof (Z.div_pos (end_ - (t + step)) step ltac:(lia) Hs). lia.
Qed.
End sound.

(** ** Soundness of types *)

(** The nodes whose evaluation cannot panic: no remainder, which divides by an integer; no
    rank that is computed; "topk" and "bottomk" with a count that is not negative. *)
Definition counted (param : option Expr) : bool :=
  match param with
  | None => true
  | Some (NumberLiteral v _) => 0 <=? f64_to_int v
  | Some _ => false
  end.
Definition safe_node (e : Expr) : bool :=
  match e with
  | BinaryExpr op _ _ _ _ _ => negb (bool_decide (op = OpMod))
  | AggregateExpr op _ param _ _ _ =>
      match op with ItemTopK | ItemBottomK => counted param | ItemQuantile => false | _ => true end
  | Call f _ _ => negb (ranked f)
  | Subquery _ _ step _ _ => 0 <=? step
  | _ => true
  end.
Definition node_typed (e : Expr) : Prop := match e with Call f _ _ => well_typed f | _ => True end.

Section soundness.
Context {RT : Runtime} {FM : FloatMaps} {St : Type} {store : MetricsStore St}.
Hypothesis Hvisits : visits_maps.
Hypothesis Hsorts : sorts.
(** A scan of the store does not panic. *)
Hypothesis Hscan : ∀ metric ms start end_ st w, (ScanRange metric ms start end_ st).1 ≠ Panic w.

Abbreviation has_type t := (λ v, Value_Type v = t).

Lemma ends_selectors vs range ctx :
  ends_in (has_type ValueTypeVector) (evalVectorSelector vs ctx) ∧
  ends_in (has_type ValueTypeMatrix) (evalMatrixSelector vs range ctx).
Proof.
  split; intros st; unfold evalVectorSelector, evalMatrixSelector.
  all: match goal with |- context [ScanRange ?m ?l ?s ?e ?x] =>
    pose proof (Hscan m l s e x) as H; destruct (ScanRange m l s e x) as [[a|e'|w] st'] end.
  all: first [by eexists _, _|by destruct (H w)].
Qed.

Lemma binop_safe op l r : op ≠ OpMod → ∃ v, computeBinop op l r = Ok v.
Proof. intros H. destruct op; try done; by eexists. Qed.

Lemma scalarVector_safe op x vec left b : op ≠ OpMod → ∃ l, scalarVectorBinop op x vec left b = Ok l.
Proof.
  intros Ho. unfold scalarVectorBinop.
  match goal with |- context [res_mapM ?f vec] => destruct (res_mapM_total f vec) as [ys ->]; [|by eexists] end.
  intros s. destruct left.
  - destruct (binop_safe op x (v_Value s) Ho) as [v ->]. by eexists.
  - destruct (binop_safe op (v_Value s) x Ho) as [v ->]. by eexists.
Qed.

Lemma vectorVector_safe op l r vm b : op ≠ OpMod → ∃ v, vectorVectorBinop op l r vm b = Ok v.
Proof.
  intros Ho. unfold vectorVectorBinop.
  match goal with |- context [res_mapM ?f l] => destruct (res_mapM_total f l) as [rows ->]; [|by eexists] end.
  intros s. apply res_mapM_total. intros x. unfold match_pair.
  destruct (binop_safe op (v_Value s) (v_Value x) Ho) as [v ->]. by eexists.
Qed.

Lemma binop_typed op vm b l r t : op ≠ OpMod → binary_type (Value_Type l) (Value_Type r) = Some t →
  yields t (evalBinop op vm b l r).
Proof.
  intros Ho. destruct l as [x tx|l|l|l tl], r as [y ty|r|r|r tr]; try discriminate; intros [= <-]; cbn [evalBinop].
  - unfold scalarBinop. by destruct (binop_safe op x y Ho) as [v ->].
  - by destruct (scalarVector_safe op x r true b Ho) as [v ->].
  - by destruct (scalarVector_safe op y l false b Ho) as [v ->].
  - by destruct (vectorVector_safe op l r vm b Ho) as [v ->].
Qed.

Lemma ends_param (param : option (E St Value)) d Q :
  match param with Some c => ends_in Q c | None => True end → ends_in (λ _, True) (param_scalar param d).
Proof.
  intros H. destruct param as [c|]; [|by apply ends_ret]. unfold param_scalar.
  eapply ends_bind; [by eapply ends_try|]. intros v _. by apply ends_ret.
Qed.

(** A parameter that is a number is that number. *)
Lemma first_k_safe (param : option (E St Value)) samples :
  match param with
  | None => True
  | Some c => ∃ v t, c = eret (Scalar v t) ∧ 0 ≤ f64_to_int v
  end →
  ends_in (λ _, True) (let& k := param_scalar param f64_one in elift (first_k (f64_to_int k) samples)).
Proof.
  intros H st. destruct param as [c|].
  - destruct H as (v & t & -> & Hv). unfold param_scalar, ebind, etry, eret, elift, first_k.
    replace (f64_to_int v <? 0) with false by lia. by eexists _, _.
  - unfold param_scalar, ebind, eret, elift, first_k. change (f64_to_int f64_one <? 0) with false. by eexists _, _.
Qed.

Lemma aggregate_ends op (param : option (E St Value)) text grouping without vec Q :
  match param with Some c => ends_in Q c | None => True end →
  match op with
  | ItemTopK | ItemBottomK =>
      match param with None => True | Some c => ∃ v t, c = eret (Scalar v t) ∧ 0 ≤ f64_to_int v end
  | ItemQuantile => False
  | _ => True
  end →
  ends_in (has_type ValueTypeVector) (aggregate_value op param text grouping without (Vector vec)).
Proof.
  intros Hp Hk. unfold aggregate_value.
  eapply (ends_bind (Forall2 (λ _ _, True) _)); [|intros l _; by apply ends_ret].
  apply ends_mapM. intros [key g] Hg.
  assert (Hne : g ≠ []).
  { rewrite (Hvisits _ _), elem_of_map_to_list in Hg. by apply group_by_nonempty in Hg as [? _]. }
  unfold aggregate_group. cbn [snd].
  destruct op; try (by apply ends_ret); try done; try (by apply first_k_safe).
  all: destruct g; [done|]; by apply ends_ret.
Qed.

Lemma eval_typed e : ∀ t ctx, type_of e = Some t → Forall (λ n, safe_node n = true) (nodes e) →
  Forall node_typed (nodes e) → 0 ≤ ec_Interval ctx → ends_in (has_type t) (eval e ctx).
Proof.
  induction e as [vs|vs range p|v p|v p|op e p IH|op l r vm b p IHl IHr|op e param g w p IH IHp|f args p IH
    |e range step offset p IH|e p IH] using Expr_rect';
    intros t ctx Ht Hs Hn Hi; unfold nodes in *; cbn [Inspect] in Hs, Hn;
    apply Forall_cons in Hs as [Hs0 Hs]; apply Forall_cons in Hn as [Hn0 Hn]; cbn [type_of eval] in *.
  - injection Ht as <-. apply (ends_selectors vs 0).
  - injection Ht as <-. by apply ends_selectors.
  - injection Ht as <-. by apply ends_ret.
  - injection Ht as <-. by apply ends_ret.
  - destruct (type_of e) as [te|] eqn:Ee; [|done].
    eapply ends_bind; [by apply (IH te)|]. intros v Hv. cbn beta in Hv.
    case_bool_decide; cbn [orb] in Ht; [injection Ht as <-; by apply ends_ret|].
    destruct (is_number te) eqn:Hnum; [injection Ht as <-|done]. apply ends_lift.
    unfold is_number in Hnum. apply bool_decide_eq_true in Hnum. by destruct v, Hnum as [-> | ->].
  - destruct (type_of l) as [tl|] eqn:El; [|done]. destruct (type_of r) as [tr|] eqn:Er; [|done].
    apply Forall_app in Hs as [Hsl Hsr]. apply Forall_app in Hn as [Hnl Hnr].
    eapply ends_bind; [by apply (IHl tl)|]. intros vl Hvl. eapply ends_bind; [by apply (IHr tr)|]. intros vr Hvr.
    apply ends_lift. cbn beta in Hvl, Hvr. subst tl tr. apply (binop_typed op vm b vl vr t); [|done].
    apply negb_true_iff, bool_decide_eq_false in Hs0. exact Hs0.
  - destruct (type_of e) as [te|] eqn:Ee; [|done]. apply Forall_app in Hs as [Hsp Hse]. apply Forall_app in Hn as [Hnp Hne].
    destruct te; try done. destruct (match param with Some p0 => type_of p0 | None => _ end) as [tp|] eqn:Ep; [|done].
    injection Ht as <-. eapply ends_bind; [by apply (IH ValueTypeVector)|]. intros v Hv. cbn beta in Hv.
    destruct v as [|vec| |]; try done. eapply (aggregate_ends _ _ _ _ _ _ (has_type tp)).
    + destruct param as [q|]; [|done]. by apply (IHp q eq_refl tp).
    + cbn [safe_node] in Hs0. destruct op; try done; destruct param as [[]|]; try done; cbn in Hs0; apply Z.leb_le in Hs0;
        by eexists _, _.
  - set (types := fix types (l : list Expr) := _) in Ht. destruct (types args) as [ts|] eqn:Ets; [|done].
    destruct (acceptsb f ts) eqn:Ha; [|done]. injection Ht as <-.
    assert (Hargs : Forall2 (λ a ty, ends_in (has_type ty) (eval a ctx)) args ts).
    { clear Ha Hs0 Hn0. revert ts Ets. induction IH as [|a args Ha IH IHl]; intros ts Ets; [by injection Ets as <-|].
      cbn in Ets. destruct (type_of a) as [ta|] eqn:Ea; [|done]. destruct (types args) as [ts'|] eqn:Ets'; [|done].
      injection Ets as <-. cbn in Hs, Hn. apply Forall_app in Hs as [Hsa Hs]. apply Forall_app in Hn as [Hna Hn].
      constructor; [by apply (Ha ta)|]. by apply IHl. }
    assert (Hvals : ends_in (λ vs, Value_Type <$> vs = ts) (e_mapM (λ a, eval a ctx) args)).
    { clear -Hargs. induction Hargs as [|a ta args ts Ha Hargs IH]; [by apply ends_ret|]. cbn [e_mapM].
      eapply ends_bind; [exact Ha|]. intros v <-. eapply ends_bind; [exact IH|]. intros vs <-. by apply ends_ret. }
    eapply ends_bind; [exact Hvals|]. intros vs Hvs. cbn beta in Hvs. apply ends_lift. unfold call_function.
    specialize (Hn0 vs ctx). rewrite Hvs in Hn0. specialize (Hn0 (acceptsb_spec f ts Ha)).
    cbn [safe_node] in Hs0. apply negb_true_iff in Hs0. rewrite Hs0 in Hn0. specialize (Hn0 ltac:(done)).
    by destruct (f_Call f).
  - destruct (type_of e) as [te|] eqn:Ee; [|done]. injection Ht as <-. cbn [safe_node] in Hs0. apply Z.leb_le in Hs0.
    set (step' := subquery_step step ctx).
    assert (Hstep : 0 < step').
    { unfold step', subquery_step. destruct (Z.eqb_spec step 0); [|lia].
      destruct (Z.eqb_spec (ec_Interval ctx) 0); [reflexivity|lia]. }
    eapply (ends_bind (λ _, True)); [|intros m _; by apply ends_ret].
    apply ends_loop; [done| |done]. intros t m _.
    eapply ends_bind; [apply (IH te); [done..|cbn; lia]|]. intros v _. by apply ends_ret.
  - by apply IH.
Qed.

(** Its functions are those of the registry. *)
Definition registered_call {MT : Mathematics} {RX : Regexps} (loc : Location) (e : Expr) : Prop :=
  match e with Call f _ _ => f ∈ registered loc | _ => True end.

Lemma parsed_calls {MT : Mathematics} {RX : Regexps} {U : Unicode} ParseNumber loc query e :
  Parse ParseNumber (GetFunction loc) query = Some (Ok e) → Forall (registered_call loc) (nodes e).
Proof.
  intros [_ H]%parse_formed. eapply Forall_impl; [exact H|]. intros n Hn. destruct n; try done.
  destruct Hn as (name & _ & Hf). by apply GetFunction_spec in Hf as [Hf _].
Qed.

(** C27: a query that is parsed to an expression with a type evaluates to a value of that type
    or to an error: the evaluation ends and does not panic, at every time, in every state of
    every store whose scans do not panic, whatever order Go visits its maps in. The
    expression has no remainder, no computed quantile, no negative "topk" and no subquery
    with a negative step, and the interval is not negative. *)
Theorem evaluation_keeps_types {MT : Mathematics} {RX : Regexps} {U : Unicode} ParseNumber loc query e t ctx st :
  Parse ParseNumber (GetFunction loc) query = Some (Ok e) →
  type_of e = Some t → Forall (λ n, safe_node n = true) (nodes e) →
  0 ≤ ec_Interval ctx → ∃ r st', eval e ctx st = Some (r, st') ∧ yields t r.
Proof.
  intros Hp Ht Hs Hi. apply (eval_typed e t ctx); [done..| |done].
  eapply Forall_impl; [exact (parsed_calls _ loc query e Hp)|].
  intros n Hf. destruct n; try done. pose proof (registry_typed Hsorts loc) as H. rewrite Forall_forall in H. by apply H.
Qed.
End soundness.
