(* ===== verification/PromVectors.v ===== *)
(** Vectors of PromQL against their specifications: the text keys of label sets tell the
    sets apart, a binary operator on two vectors is a join on the labels it matches, and an
    aggregation partitions its operand by the labels it groups by. *)

From Stdlib Require Import String Ascii SpecFloat.
From stdpp Require Import base option list gmap sets numbers strings sorting.
From S2P Require Import Prelude Float64 Bytes Format Keys Grouping Values PromValue PromFunctions PromLexer PromAst PromEval Demo.
From Stdlib Require Import Permutation.
From stdpp Require Import list.

(** ** Keys *)

(** Names without an equals sign, values without a comma. *)
Definition clean (labels : Labels) : Prop := map_Forall (λ k v, avoids "=" k ∧ avoids "," v) labels.

#[export] Instance clean_dec labels : Decision (clean labels).
Proof. unfold clean. apply _. Defined.

Lemma key_of_cons labels k ks :
  key_of labels (k :: ks) = k +:+ ("=" +:+ (default "" (labels !! k) +:+ ("," +:+ key_of labels ks))).
Proof.
  unfold key_of. cbn [fmap list_fmap String.concat]. destruct ks as [|k' ks].
  - cbn [String.concat fmap list_fmap]. by rewrite ?string_app_assoc.
  - cbn [fmap list_fmap]. by rewrite !string_app_assoc.
Qed.

Lemma key_of_nil labels : key_of labels [] = "".
Proof. done. Qed.

Lemma clean_value l k : clean l → avoids "," (default "" (l !! k)).
Proof. intros H. destruct (l !! k) as [v|] eqn:E; [|done]. by apply (H k v). Qed.

(** The same names: the keys are equal when the values are. *)
Lemma key_of_values l1 l2 names : clean l1 → clean l2 →
  key_of l1 names = key_of l2 names ↔ Forall (λ k, default "" (l1 !! k) = default "" (l2 !! k)) names.
Proof.
  intros H1 H2. induction names as [|k names IH]; [by rewrite Forall_nil|]. rewrite !key_of_cons, Forall_cons. split.
  - intros E. apply app_cancel in E. apply app_cancel in E.
    apply (cut_unique ",") in E as [-> E]; try done; try by apply clean_value. apply app_cancel in E. by rewrite <- IH.
  - intros [-> ->%IH]. done.
Qed.

(** Names that are in the sets. *)
Lemma key_of_inj l1 l2 names1 names2 : clean l1 → clean l2 →
  Forall (λ k, is_Some (l1 !! k)) names1 → Forall (λ k, is_Some (l2 !! k)) names2 →
  key_of l1 names1 = key_of l2 names2 →
  (λ k, (k, default "" (l1 !! k))) <$> names1 = (λ k, (k, default "" (l2 !! k))) <$> names2.
Proof.
  intros H1 H2 Hn1. revert names2. induction Hn1 as [|k1 names1 [v1 E1] Hn1 IH]; intros [|k2 names2] Hn2 E.
  - done.
  - rewrite key_of_cons, key_of_nil in E. by destruct k2.
  - rewrite key_of_cons, key_of_nil in E. by destruct k1.
  - apply Forall_cons in Hn2 as [[v2 E2] Hn2]. rewrite !key_of_cons in E.
    destruct (H1 k1 v1 E1) as [Hk1 _]. destruct (H2 k2 v2 E2) as [Hk2 _].
    apply (cut_unique "=") in E as [-> E]; try done. apply app_cancel in E.
    apply (cut_unique ",") in E as [Ev E]; try done; try by apply clean_value. apply app_cancel in E.
    cbn [fmap list_fmap]. rewrite Ev. f_equal. by apply IH.
Qed.

Lemma sorted_names_perm l : sorted_names l ≡ₚ l.
Proof. apply merge_sort_Permutation. Qed.

Lemma label_names_elem (l : Labels) k : k ∈ label_names l ↔ is_Some (l !! k).
Proof.
  unfold label_names. rewrite list_elem_of_fmap. split.
  - intros ([k' v] & -> & H%elem_of_map_to_list). by exists v.
  - intros [v H]. exists (k, v). split; [done|]. by apply elem_of_map_to_list.
Qed.

(** Some of the labels of a set, chosen by their names. *)
Lemma chosen_pairs (P : string → Prop) `{∀ k, Decision (P k)} (l : Labels) k v :
  (k, v) ∈ ((λ k, (k, default "" (l !! k))) <$> sorted_names (filter P (label_names l))) ↔ P k ∧ l !! k = Some v.
Proof.
  rewrite list_elem_of_fmap. setoid_rewrite (sorted_names_perm (filter P (label_names l))).
  setoid_rewrite list_elem_of_filter. setoid_rewrite label_names_elem. split.
  - intros (k' & [= <- ->] & Hk & [v' Hv']). by rewrite Hv'.
  - intros [Hk Hv]. exists k. rewrite Hv. split_and!; [done..|by exists v].
Qed.

Lemma chosen_names_key (P : string → Prop) `{∀ k, Decision (P k)} l1 l2 : clean l1 → clean l2 →
  key_of l1 (sorted_names (filter P (label_names l1))) = key_of l2 (sorted_names (filter P (label_names l2))) ↔
  ∀ k, P k → l1 !! k = l2 !! k.
Proof.
  intros H1 H2. assert (Hin : ∀ (l : Labels) k, k ∈ sorted_names (filter P (label_names l)) ↔ P k ∧ is_Some (l !! k)).
  { intros l k. by rewrite (sorted_names_perm _), list_elem_of_filter, label_names_elem. }
  assert (Hall : ∀ l : Labels, Forall (λ k, is_Some (l !! k)) (sorted_names (filter P (label_names l)))).
  { intros l. apply Forall_forall. by intros k [_ Hk]%Hin. }
  split.
  - intros E k Hk. apply (key_of_inj l1 l2) in E; [|done..].
    assert (Hv : ∀ v, l1 !! k = Some v ↔ l2 !! k = Some v); [|by apply option_eq].
    intros v. pose proof (chosen_pairs P l1 k v) as Hp1. pose proof (chosen_pairs P l2 k v) as Hp2.
    rewrite E in Hp1. tauto.
  - intros Hk. assert (Hn : sorted_names (filter P (label_names l1)) = sorted_names (filter P (label_names l2))).
    { unfold sorted_names. apply (Sorted_unique String.le); try apply (Sorted_merge_sort _).
      rewrite !(merge_sort_Permutation String.le). apply NoDup_Permutation.
      - apply NoDup_filter. unfold label_names. apply NoDup_fst_map_to_list.
      - apply NoDup_filter. unfold label_names. apply NoDup_fst_map_to_list.
      - intros k. rewrite !list_elem_of_filter, !label_names_elem. split; intros [Hp Hs]; (split; [done|]).
        + by rewrite <- Hk.
        + by rewrite Hk. }
    rewrite Hn. apply key_of_values; [done..|]. apply Forall_forall. intros k [Hp _]%Hin. by rewrite Hk.
Qed.

Lemma labelsToKey_inj l1 l2 : clean l1 → clean l2 → labelsToKey l1 = labelsToKey l2 → l1 = l2.
Proof.
  intros H1 H2 E. apply map_eq. intros k. apply (chosen_names_key (λ _, True)); [done..| |done].
  assert (Hf : ∀ l : Labels, filter (λ _, True) (label_names l) = label_names l) by (intros l; by apply list_filter_all).
  unfold labelsToKey in E. by rewrite !Hf.
Qed.

(** ** Vector matching *)

(** The labels that are matched are equal: those of "on", a missing one being empty, or all
    but those of "ignoring". *)
Definition agrees (m : VectorMatching) (l1 l2 : Labels) : Prop :=
  if vm_On m then Forall (λ k, default "" (l1 !! k) = default "" (l2 !! k)) (vm_MatchingLabels m)
  else filter (λ kv, kv.1 ∉ vm_MatchingLabels m) l1 = filter (λ kv, kv.1 ∉ vm_MatchingLabels m) l2.
#[export] Instance agrees_dec m l1 l2 : Decision (agrees m l1 l2).
Proof. unfold agrees. destruct (vm_On m); apply _. Defined.

Lemma filter_names_eq (names : list string) (l1 l2 : Labels) :
  filter (λ kv, kv.1 ∉ names) l1 = filter (λ kv, kv.1 ∉ names) l2 ↔ ∀ k, k ∉ names → l1 !! k = l2 !! k.
Proof.
  split.
  - intros E k Hk. apply (f_equal (λ m : Labels, m !! k)) in E. apply option_eq. intros v.
    assert (Hv : ∀ l : Labels, filter (λ kv, kv.1 ∉ names) l !! k = Some v ↔ l !! k = Some v).
    { intros l. rewrite map_lookup_filter_Some. cbn. tauto. }
    by rewrite <- (Hv l1), <- (Hv l2), E.
  - intros Hk. apply map_eq. intros k. apply option_eq. intros v. rewrite !map_lookup_filter_Some. cbn.
    split; intros [Hl Hp]; (split; [|done]); [by rewrite <- Hk|by rewrite Hk].
Qed.

Lemma matchingKey_agrees m l1 l2 : clean l1 → clean l2 → matchingKey l1 m = matchingKey l2 m ↔ agrees m l1 l2.
Proof.
  intros H1 H2. unfold matchingKey, agrees. destruct (vm_On m).
  - etrans; [by apply key_of_values|]. rewrite !Forall_forall. split; intros H k Hk; apply H;
      [by rewrite (sorted_names_perm _)|by rewrite (sorted_names_perm _) in Hk].
  - etrans; [by apply (chosen_names_key (λ k, k ∉ vm_MatchingLabels m))|]. symmetry.
    apply filter_names_eq.
Qed.

(** The keys quote nothing: labels that are not clean may have one key and be different. *)
Lemma unclean_labels_meet :
  let l1 : Labels := {[ "a" := "1,b=2" ]} in
  let l2 : Labels := {[ "a" := "1"; "b" := "2" ]} in
  matchingKey l1 one_to_one = matchingKey l2 one_to_one ∧ ¬ agrees one_to_one l1 l2.
Proof. split; [vm_compute; reflexivity|]. apply (bool_decide_unpack _). vm_compute. exact I. Qed.

(** C29: a binary operator on two vectors is the join the matching asks for: each sample of
    the left side, in order, meets each sample of the right side, in order, that agrees with
    it on the matched labels, and no other; what a pair gives is the operator's ([match_pair]).
    This is for samples whose label names have no equals sign (no label of PromQL has one) and whose
    label values have no comma: the keys that are compared quote nothing, and with commas in values
    samples that disagree may meet (unclean_labels_meet). *)
Theorem vector_matching_is_a_join op lhs rhs matching returnBool :
  Forall (λ s, clean (v_Labels s)) lhs → Forall (λ s, clean (v_Labels s)) rhs →
  let m := default one_to_one matching in
  vectorVectorBinop op lhs rhs matching returnBool =
  (let! rows := res_mapM (λ l,
     res_mapM (match_pair op m returnBool l) (filter (λ r, agrees m (v_Labels r) (v_Labels l)) rhs)) lhs in
   Ok (omap id (concat rows))).
Proof.
  intros Hl Hr m. unfold vectorVectorBinop. fold m.
  assert (E : ∀ l, clean (v_Labels l) →
    default [] (group_by (λ s, matchingKey (v_Labels s) m) rhs !! matchingKey (v_Labels l) m) =
    filter (λ r, agrees m (v_Labels r) (v_Labels l)) rhs).
  { intros l Hcl. rewrite group_by_default.
    assert (Hf : filter (λ s, matchingKey (v_Labels s) m = matchingKey (v_Labels l) m) rhs =
      filter (λ r, agrees m (v_Labels r) (v_Labels l)) rhs).
    { clear -Hcl Hr. induction Hr as [|r rhs Hr _ IH]; [done|]. rewrite !filter_cons, IH.
      pose proof (matchingKey_agrees m (v_Labels r) (v_Labels l) Hr Hcl). do 2 case_decide; try done; tauto. }
    exact Hf. }
  assert (Hrows : res_mapM (λ l, res_mapM (match_pair op m returnBool l)
      (default [] (group_by (λ s, matchingKey (v_Labels s) m) rhs !! matchingKey (v_Labels l) m))) lhs =
    res_mapM (λ l, res_mapM (match_pair op m returnBool l) (filter (λ r, agrees m (v_Labels r) (v_Labels l)) rhs)) lhs).
  { induction Hl as [|l lhs Hcl _ IH]; [done|]. cbn [res_mapM]. by rewrite IH, E. }
  by rewrite Hrows.
Qed.

(** ** Aggregation *)

(** Samples in one group: the grouping labels are equal. *)
Definition same_group (grouping : list string) (without : bool) (l1 l2 : Labels) : Prop :=
  if without then filter (λ kv, kv.1 ∉ grouping) l1 = filter (λ kv, kv.1 ∉ grouping) l2
  else Forall (λ k, default "" (l1 !! k) = default "" (l2 !! k)) grouping.

Lemma groupKey_same grouping without l1 l2 : clean l1 → clean l2 →
  groupKey grouping without l1 = groupKey grouping without l2 ↔ same_group grouping without l1 l2.
Proof.
  intros H1 H2. unfold groupKey, same_group. destruct without.
  - etrans; [by apply (chosen_names_key (λ k, k ∉ grouping))|]. symmetry. apply filter_names_eq.
  - destruct grouping as [|g gs]; [by rewrite Forall_nil|].
    etrans; [by apply key_of_values|]. rewrite !Forall_forall. split; intros H k Hk; apply H;
      [by rewrite (sorted_names_perm _)|by rewrite (sorted_names_perm _) in Hk].
Qed.

(** The value of a group, for the aggregations that have one. *)
Definition group_value (op : ItemType) (g : list VectorSample) : option float64 :=
  let values := v_Value <$> g in
  match op with
  | ItemSum => Some (sample_sum g)
  | ItemAvg => Some (f64_div (sample_sum g) (len g))
  | ItemMin => match values with v :: l => Some (extreme f64_lt v l) | [] => None end
  | ItemMax => match values with v :: l => Some (extreme f64_gt v l) | [] => None end
  | ItemCount => Some (len g)
  | ItemStddev => Some (sqrt (variance values))
  | ItemStdvar => Some (variance values)
  | ItemGroup => Some f64_one
  | _ => None
  end.
Definition one_value (op : ItemType) : bool := bool_decide (op ∈
  [ItemSum; ItemAvg; ItemMin; ItemMax; ItemCount; ItemStddev; ItemStdvar; ItemGroup]).

(** The sample of a group: its labels are those of its first sample that are grouped by. *)
Definition group_sample (op : ItemType) (grouping : list string) (without : bool) (g : list VectorSample) :
    option VectorSample :=
  match g, group_value op g with
  | s :: _, Some v => Some (mkVectorSample (groupLabelSet grouping without (v_Labels s)) v (v_Timestamp s))
  | _, _ => None
  end.

Section aggregation.
Context {RT : Runtime} {FM : FloatMaps} {St : Type}.

Lemma e_mapM_pure {A B} (f : A → E St B) (g : A → B) l st :
  (∀ x, x ∈ l → f x = eret (g x)) → e_mapM f l st = Some (Ok (g <$> l), st).
Proof.
  induction l as [|x l IH]; intros Hf; [done|]. cbn [e_mapM]. unfold ebind at 1. rewrite Hf by set_solver.
  unfold eret at 1. unfold ebind. rewrite IH by set_solver. done.
Qed.

(** An aggregation with one value per group puts every sample of its operand in exactly
    one group, whatever order Go visits its groups in: samples are in one group when they
    have the same labels to group by, and each group gives one sample, with those labels
    and the aggregate of its values in their order. *)
Theorem aggregation_partitions_its_operand op param text grouping without vec (st : St) :
  visits_maps → one_value op = true → Forall (λ s, clean (v_Labels s)) vec →
  ∃ groups out,
    aggregate_value op param text grouping without (Vector vec) st = Some (Ok (Vector out), st) ∧
    concat groups ≡ₚ vec ∧ Forall2 (λ g s, group_sample op grouping without g = Some s) groups out ∧
    (∀ g s s', g ∈ groups → s ∈ g → s' ∈ vec → s' ∈ g ↔ same_group grouping without (v_Labels s) (v_Labels s')).
Proof.
  intros Hv Hop Hc. set (key := λ s, groupKey grouping without (v_Labels s)). set (m := group_by key vec).
  assert (Hm : ∀ k g, (k, g) ∈ map_order m ↔ m !! k = Some g) by (intros k g; by rewrite (Hv _ m), elem_of_map_to_list).
  set (sample := λ kg : string * list VectorSample,
    match group_sample op grouping without kg.2 with Some s => [s] | None => [] end).
  assert (Hs : ∀ kg, kg ∈ map_order m → ∃ s, group_sample op grouping without kg.2 = Some s ∧
    aggregate_group op param text
      (default ∅ (groupLabelSet grouping without <$> (v_Labels <$> head kg.2))) kg.2 = eret [s]).
  { intros [k g] Hkg%Hm. apply group_by_nonempty in Hkg as [Hne _]. cbn [snd]. destruct g as [|s g]; [done|].
    unfold one_value in Hop. apply bool_decide_eq_true in Hop. rewrite !elem_of_cons, elem_of_nil in Hop.
    destruct_or! Hop; subst op; try done; by eexists. }
  exists (map_order m).*2, (concat (sample <$> map_order m)). split_and!.
  - unfold aggregate_value. fold key m. unfold ebind.
    rewrite (e_mapM_pure _ sample); [done|]. intros kg Hkg. destruct (Hs kg Hkg) as (s & Es & ->).
    unfold sample. by rewrite Es.
  - pose proof (group_by_concat key vec) as Hg. fold m in Hg. rewrite <- Hg, <- (Hv _ m).
    clear. induction (map_order m) as [|[k g] l IH]; [done|]. cbn. by rewrite IH.
  - clear -Hs. induction (map_order m) as [|kg l IH]; [constructor|].
    destruct (Hs kg ltac:(set_solver)) as (s & Es & _). cbn. unfold sample at 1. rewrite Es. cbn.
    constructor; [done|]. apply IH. intros kg' Hkg'. apply Hs. set_solver.
  - intros g s s' Hg Hsg Hs'. apply list_elem_of_fmap in Hg as ([k g'] & -> & Hkg%Hm). cbn [snd] in *.
    apply group_by_nonempty in Hkg as [_ ->]. rewrite list_elem_of_filter in Hsg. destruct Hsg as [<- Hsv].
    rewrite list_elem_of_filter. rewrite Forall_forall in Hc.
    rewrite <- (groupKey_same grouping without (v_Labels s) (v_Labels s')) by auto. subst key. cbn beta.
    split; [by intros [<- _]|by intros ->].
Qed.
End aggregation.
