(* ===== verification/CustomMetrics.v ===== *)
(** The store of metrics (internal/custommetrics/store.go): its tables, the recording of
    points with interned series and an index of their labels, and its queries. *)

From Stdlib Require Import String Ascii.
From stdpp Require Import base option list gmap sets strings sorting.
From S2P Require Import Prelude Float64 Format Values PromValue PromFunctions.

(** ** Tables *)

Record DataPoint := mkDataPoint {
  dp_Timestamp : Time; dp_Name : string; dp_Type : string; dp_Value : float64; dp_Tags : Labels }.
Record TimeValue := mkTimeValue { tv_Timestamp : Time; tv_Value : float64 }.
Record MetricSeries := mkMetricSeries {
  ms_Name : string; ms_Type : string; ms_Tags : Labels; ms_Points : list TimeValue }.
Record MetricInfo := mkMetricInfo {
  mi_Name : string; mi_Type : string; mi_TagKeys : list string; mi_LastValue : float64; mi_LastSeen : Time }.

Record MetricRow := mkMetricRow {
  m_timestamp : Time; m_name : string; m_type : string; m_value : float64; m_tags : string;
  m_series_id : option Z }.
Record SeriesRow := mkSeriesRow { sr_id : Z; sr_name : string; sr_fingerprint : string; sr_tags_json : string }.
Record LabelRow := mkLabelRow { lr_series_id : Z; lr_key : string; lr_value : string }.
Record InfoRow := mkInfoRow { ir_type : string; ir_tag_keys : string; ir_last_value : float64; ir_last_seen : Time }.

(** [last_id] is the last key the series table gave out. *)
Record DB := mkDB {
  metrics : list MetricRow;
  series : list SeriesRow;
  label_index : list LabelRow;
  metric_info : gmap string InfoRow;
  last_id : Z;
}.
Definition NewDB : DB := mkDB [] [] [] ∅ 0.

(** JSON of label sets and of lists of names; reading a text gives the map it is read into
    ([None] is the nil map) and whether there was no error. The digest in hexadecimal, and
    ORDER BY. *)
Class Encodings := {
  json_labels : Labels → string;
  unmarshal_labels : string → option Labels * bool;
  json_names : list string → string;
  unmarshal_names : string → list string;
  sha256_hex : string → string;
  order_by : ∀ {A}, (A → A → bool) → list A → list A;
}.

(** What an ordering by names, and by times, asks. *)
Definition name_before (a b : string) : bool := match String.compare a b with Lt => true | _ => false end.

Section store.
Context {RT : Runtime} {EN : Encodings}.

(** ** Interned series *)

Definition nul : string := String "000" "".
(** What is hashed: the name and the labels in the order of their keys. *)
Definition fingerprint_text (name : string) (tags : Labels) : string :=
  let keys := sorted_names (filter (λ k, k ≠ "__name__"%string) (label_names tags)) in
  name +:+ String.concat "" ((λ k, nul +:+ k +:+ nul +:+ default "" (tags !! k)) <$> keys).
Definition seriesFingerprint (name : string) (tags : Labels) : string :=
  String.substring 0 16 (sha256_hex (fingerprint_text name tags)).

(** INSERT OR IGNORE under UNIQUE(series_id, label_key). *)
Definition insert_label (row : LabelRow) (rows : list LabelRow) : list LabelRow :=
  if existsb (λ r, (lr_series_id r =? lr_series_id row) && String.eqb (lr_key r) (lr_key row)) rows then rows
  else rows ++ [row].

Definition find_series (fp : string) (db : DB) : option SeriesRow :=
  find (λ r, String.eqb (sr_fingerprint r) fp) (series db).

(** The store holds its lock and a transaction, so that the row that is looked for and not
    found is inserted. *)
Definition internSeries (name : string) (tags : Labels) (db : DB) : Z * DB :=
  let fp := seriesFingerprint name tags in
  match find_series fp db with
  | Some r => (sr_id r, db)
  | None =>
      let id := last_id db + 1 in
      let index := foldl (λ rows kv,
        if String.eqb kv.1 "__name__" then rows else insert_label (mkLabelRow id kv.1 kv.2) rows)
        (label_index db) (map_order tags) in
      (id, mkDB (metrics db) (series db ++ [mkSeriesRow id name fp (json_labels tags)]) index (metric_info db) id)
  end.

(** ** Recording *)

Definition tagsToKey (name : string) (tags : Labels) : string :=
  if bool_decide (tags = ∅) then name
  else join "," (name :: ((λ k, k +:+ "=" +:+ default "" (tags !! k)) <$> sorted_names (label_names tags))).

(** The rows of one point: the point with its series, and what is known of the metric. *)
Definition insert_point (dp : DataPoint) (db : DB) : DB :=
  let tagged := negb (bool_decide (dp_Tags dp = ∅)) in
  let '(sid, db) :=
    if tagged then let '(id, db) := internSeries (dp_Name dp) (dp_Tags dp) db in
                   (if 0 <? id then Some id else None, db)
    else (None, db) in
  let row := mkMetricRow (dp_Timestamp dp) (dp_Name dp) (dp_Type dp) (dp_Value dp)
               (if tagged then json_labels (dp_Tags dp) else "") sid in
  let info := mkInfoRow (dp_Type dp) (json_names (sorted_names (label_names (dp_Tags dp)))) (dp_Value dp)
                (dp_Timestamp dp) in
  mkDB (metrics db ++ [row]) (series db) (label_index db) (<[dp_Name dp := info]> (metric_info db)) (last_id db).
Definition recordPoint : DataPoint → DB → DB := insert_point.

(** The store, with what its cardinality hook keeps. *)
Section recording.
Context {H : Type}.
Record Store := mkStore { db : DB; counters : gmap string float64; hook_state : H }.

Context (cardinalityHook : option (string → Labels → H → H)).
Context (shapingHook : option (string → Labels → bool * option Labels)).

Definition track (name : string) (tags : Labels) (s : Store) : Store :=
  match cardinalityHook with
  | Some hook => mkStore (db s) (counters s) (hook name tags (hook_state s))
  | None => s
  end.
Definition count (dp : DataPoint) (s : Store) : Store :=
  if String.eqb (dp_Type dp) "counter" then
    let key := tagsToKey (dp_Name dp) (dp_Tags dp) in
    mkStore (db s) (<[key := f64_add (default f64_zero (counters s !! key)) (dp_Value dp)]> (counters s)) (hook_state s)
  else s.
Definition put_db (d : DB) (s : Store) : Store := mkStore d (counters s) (hook_state s).
Definition with_tags (tags : Labels) (dp : DataPoint) : DataPoint :=
  mkDataPoint (dp_Timestamp dp) (dp_Name dp) (dp_Type dp) (dp_Value dp) tags.
Definition with_time (now : Time) (dp : DataPoint) : DataPoint :=
  mkDataPoint (if IsZero (dp_Timestamp dp) then now else dp_Timestamp dp) (dp_Name dp) (dp_Type dp) (dp_Value dp)
    (dp_Tags dp).

Definition Record_ (now : Time) (dp : DataPoint) (s : Store) : Store :=
  let dp := with_time now dp in
  let '(keep, tags) :=
    match shapingHook with Some f => f (dp_Name dp) (dp_Tags dp) | None => (true, None) end in
  if (keep : bool) then
    let dp := match tags with Some tags => with_tags tags dp | None => dp end in
    let s := count dp (track (dp_Name dp) (dp_Tags dp) s) in
    put_db (recordPoint dp (db s)) s
  else s.

(** Points are not shaped here. *)
Definition RecordBatch (now : Time) (points : list DataPoint) (s : Store) : Store :=
  let s := foldl (λ s dp, track (dp_Name dp) (dp_Tags dp) s) s points in
  foldl (λ s dp, let dp := with_time now dp in count dp (put_db (insert_point dp (db s)) s)) s points.

Definition GetCounterValue (name : string) (tags : Labels) (s : Store) : float64 :=
  default f64_zero (counters s !! tagsToKey name tags).
End recording.

(** ** Queries *)

Definition by_time (a b : MetricRow) : bool := m_timestamp a <? m_timestamp b.

(** The tags are those asked for; the rows are not filtered by them. *)
Definition Query (now : Time) (name : string) (tags : Labels) (since : Duration) (d : DB) : MetricSeries :=
  let cutoff := now + wrap64 (- since) in
  let rows := order_by by_time (filter (λ r, m_name r = name ∧ cutoff ≤ m_timestamp r) (metrics d)) in
  mkMetricSeries name (default "" (m_type <$> last rows)) tags
    ((λ r, mkTimeValue (m_timestamp r) (m_value r)) <$> rows).

Definition List (d : DB) : list MetricInfo :=
  (λ ni, mkMetricInfo ni.1 (ir_type ni.2) (unmarshal_names (ir_tag_keys ni.2)) (ir_last_value ni.2)
           (ir_last_seen ni.2))
  <$> order_by (λ a b, name_before a.1 b.1) (map_to_list (metric_info d)).

Definition row_tags (tags : string) : Labels := if String.eqb tags "" then ∅ else default ∅ (unmarshal_labels tags).1.
Definition GetLatest (limit : Z) (d : DB) : list DataPoint :=
  let limit := if limit <=? 0 then 100 else limit in
  (λ r, mkDataPoint (m_timestamp r) (m_name r) (m_type r) (m_value r) (row_tags (m_tags r)))
  <$> take (Z.to_nat limit) (order_by (λ a b, by_time b a) (metrics d)).

Definition Cleanup (now : Time) (maxAge : Duration) (d : DB) : Z * DB :=
  let cutoff := now + wrap64 (- maxAge) in
  let kept := filter (λ r, cutoff ≤ m_timestamp r) (metrics d) in
  (Z.of_nat (length (metrics d)) - Z.of_nat (length kept),
   mkDB kept (series d) (label_index d) (metric_info d) (last_id d)).
End store.
