(* ===== verification/PromStore.v ===== *)
(** The store PromQL reads (SQLMetricsStore of internal/promql/translate.go) over the tables
    of CustomMetrics.v: a scan through the label index and a full scan, and the names and
    values of labels. On the tables the store of metrics writes both scans find the same. *)

From Stdlib Require Import String Ascii.
From stdpp Require Import base option list gmap sets strings sorting.
From S2P Require Import Prelude Float64 Format Grouping Values PromValue PromFunctions PromLexer PromAst PromEval CustomMetrics.

(** The statements that can fail. *)
Inductive statement := SelectIndexed | SelectFull | SelectNames | SelectIndexLabels | SelectTags.

(** The handle of a database, which may be nil; an old one has no index. *)
Record SQLMetricsStore := mkSQLMetricsStore {
  sq_db : option DB;
  sq_has_index : bool;
  sq_error : statement → option string;
}.

Section store.
Context {RT : Runtime} {EN : Encodings}.

(** The matching of a regular expression, [None] where it does not compile. *)
Definition regexp_match (pattern val : string) : option bool :=
  match regexp_Compile pattern with inl re => Some (MatchString re val) | inr _ => None end.

Fixpoint matchLabels (labels : Labels) (matchers : list LabelMatcher) : result bool :=
  match matchers with
  | [] => Ok true
  | m :: ms =>
      let! b := Matches regexp_match m (default "" (labels !! lm_Name m)) in
      if (b : bool) then matchLabels labels ms else Ok false
  end.

(** The matchers that the index can answer, and the others. *)
Definition is_equality (m : LabelMatcher) : bool :=
  bool_decide (lm_Type m = MatchEqual) && negb (String.eqb (lm_Name m) "__name__").
Definition extractEqualityMatchers (ms : list LabelMatcher) : list LabelMatcher := filter (λ m, is_equality m = true) ms.
Definition filterOutEquality (ms : list LabelMatcher) : list LabelMatcher := filter (λ m, is_equality m = false) ms.

(** The labels of a row; a text that makes the map nil panics at the name. *)
Definition scan_tags (name tags : string) : result Labels :=
  if String.eqb tags "" then Ok {["__name__"%string := name]}
  else match (unmarshal_labels tags).1 with
       | Some l => Ok (<["__name__"%string := name]> (l ∪ {["__name__"%string := name]}))
       | None => Panic "assignment to entry in nil map"
       end.

(** The samples of the rows that match. *)
Definition scan_row (ms : list LabelMatcher) (r : MetricRow) : result (option VectorSample) :=
  let! labels := scan_tags (m_name r) (m_tags r) in
  let! b := matchLabels labels ms in
  Ok (if (b : bool) then Some (mkVectorSample labels (m_value r) (m_timestamp r)) else None).
Definition collect (ms : list LabelMatcher) (rows : list MetricRow) : result (list Series) :=
  let! samples := res_mapM (scan_row ms) rows in
  Ok (series_of (foldl (add_sample v_Timestamp) ∅ (omap id samples))).

(** ORDER BY name, timestamp. *)
Definition by_name_time (a b : MetricRow) : bool :=
  name_before (m_name a) (m_name b) || (String.eqb (m_name a) (m_name b) && (m_timestamp a <? m_timestamp b)).

Definition in_range (start end_ : Time) (r : MetricRow) : bool :=
  (start <=? m_timestamp r) && (m_timestamp r <=? end_).
Definition full_where (metric : string) (start end_ : Time) (r : MetricRow) : bool :=
  in_range start end_ r && (String.eqb metric "" || String.eqb (m_name r) metric).

Definition scanRangeFull (s : SQLMetricsStore) (d : DB) (metric : string) (ms : list LabelMatcher) (start end_ : Time) :
    result (list Series) :=
  match sq_error s SelectFull with
  | Some e => Err ("query error: " +:+ e)
  | None => collect ms (order_by by_name_time (filter (λ r, full_where metric start end_ r = true) (metrics d)))
  end.

(** The rows of the series that have all the labels, with the name in the series table. *)
Definition has_label (d : DB) (id : Z) (m : LabelMatcher) : bool :=
  existsb (λ r, (lr_series_id r =? id) && String.eqb (lr_key r) (lm_Name m) && String.eqb (lr_value r) (lm_Value m))
    (label_index d).
Definition indexed_where (d : DB) (metric : string) (eqs : list LabelMatcher) (start end_ : Time) (r : MetricRow) : bool :=
  match m_series_id r with
  | None => false
  | Some id =>
      existsb (λ s, (sr_id s =? id) && (String.eqb metric "" || String.eqb (sr_name s) metric)) (series d) &&
      forallb (has_label d id) eqs && in_range start end_ r
  end.
Definition scanRangeIndexed (s : SQLMetricsStore) (d : DB) (metric : string) (eqs all : list LabelMatcher)
    (start end_ : Time) : result (list Series) :=
  match sq_error s SelectIndexed with
  | Some _ => scanRangeFull s d metric all start end_
  | None =>
      collect (filterOutEquality all)
        (order_by by_name_time (filter (λ r, indexed_where d metric eqs start end_ r = true) (metrics d)))
  end.

Definition SQL_ScanRange (s : SQLMetricsStore) (metric : string) (ms : list LabelMatcher) (start end_ : Time) :
    result (list Series) :=
  match sq_db s with
  | None => Err "database not configured"
  | Some d =>
      let eqs := extractEqualityMatchers ms in
      if negb (bool_decide (eqs = [])) && sq_has_index s then scanRangeIndexed s d metric eqs ms start end_
      else scanRangeFull s d metric ms start end_
  end.

Definition SQL_ListMetrics (s : SQLMetricsStore) : result (list string) :=
  match sq_db s with
  | None => Ok []
  | Some d =>
      match sq_error s SelectNames with
      | Some e => Err e
      | None => Ok (order_by name_before (remove_dups (m_name <$> metrics d)))
      end
  end.

(** The index rows of the series of a metric, of all where it is empty. *)
Definition index_rows (metric : string) (d : DB) : list LabelRow :=
  filter (λ r, String.eqb metric "" ||
    existsb (λ s, (sr_id s =? lr_series_id r) && String.eqb (sr_name s) metric) (series d) = true) (label_index d).
(** The label sets of the first rows; a text with an error is left out. *)
Definition scanned_labels (metric : string) (distinct : bool) (limit : nat) (d : DB) : list Labels :=
  let tags := m_tags <$> filter (λ r, String.eqb metric "" || String.eqb (m_name r) metric = true) (metrics d) in
  omap (λ t, if String.eqb t "" then None
             else match unmarshal_labels t with (Some l, true) => Some l | _ => None end)
    (take limit (if distinct then remove_dups tags else tags)).

Definition through_index (s : SQLMetricsStore) : bool :=
  sq_has_index s && bool_decide (sq_error s SelectIndexLabels = None).
Definition SQL_ListLabels (s : SQLMetricsStore) (metric : string) : result (list string) :=
  match sq_db s with
  | None => Ok []
  | Some d =>
      if through_index s then Ok (sorted_names ("__name__"%string :: remove_dups (lr_key <$> index_rows metric d)))
      else match sq_error s SelectTags with
      | Some e => Err e
      | None =>
          Ok (sorted_names (remove_dups ("__name__"%string :: concat (label_names <$> scanned_labels metric true 1000 d))))
      end
  end.
Definition SQL_ListLabelValues (s : SQLMetricsStore) (label metric : string) : result (list string) :=
  match sq_db s with
  | None => Ok []
  | Some d =>
      if String.eqb label "__name__" then SQL_ListMetrics s
      else if through_index s then
        Ok (sorted_names (remove_dups (lr_value <$> filter (λ r, lr_key r = label) (index_rows metric d))))
      else match sq_error s SelectTags with
      | Some e => Err e
      | None => Ok (sorted_names (remove_dups (omap (λ l : Labels, l !! label) (scanned_labels metric false 10000 d))))
      end
  end.

#[export] Instance SQL_store : MetricsStore SQLMetricsStore := {|
  ScanRange metric ms start end_ s := (SQL_ScanRange s metric ms start end_, s);
  ListMetrics := SQL_ListMetrics;
  ListLabels metric s := SQL_ListLabels s metric;
  ListLabelValues label metric s := SQL_ListLabelValues s label metric;
|}.
End store.
