(* ===== verification/PromEngine.v ===== *)
(** The engine of PromQL (internal/promql/engine.go): instant and range queries, the cache
    a range query reads through, and the queries for series, labels and metadata. *)

From Stdlib Require Import String Ascii SpecFloat.
From stdpp Require Import base option list gmap sets strings sorting.
From S2P Require Import Prelude Float64 Bytes Format Grouping Values PromValue PromFunctions PromLexer PromAst PromParser PromEval.

(** ** The cache of a range query *)

(** The store below it is [inner]. *)
Record prefetchStore (St : Type) := mkPrefetchStore {
  inner : St;
  fullStart : Time;
  fullEnd : Time;
  cache : gmap string (list Series);
}.
Arguments mkPrefetchStore {St}.
Arguments inner {St}. Arguments fullStart {St}. Arguments fullEnd {St}. Arguments cache {St}.

Definition newPrefetchStore {St} (st : St) (start end_ : Time) : prefetchStore St := mkPrefetchStore st start end_ ∅.

(** The samples in a window, and the series that have some. *)
Definition in_window (start end_ : Time) (s : Sample) : Prop := start ≤ s_Timestamp s ≤ end_.
#[export] Instance in_window_dec start end_ s : Decision (in_window start end_ s).
Proof. unfold in_window. apply _. Defined.
Definition window_series (start end_ : Time) (se : Series) : option Series :=
  match filter (in_window start end_) (se_Samples se) with
  | [] => None
  | l => Some (mkSeries (se_Labels se) l)
  end.
Definition window (start end_ : Time) (l : list Series) : list Series := omap (window_series start end_) l.

Section prefetch.
Context {FM : Fmt} {St : Type} {store : MetricsStore St}.

Definition cache_key (metric : string) (ms : list LabelMatcher) : string :=
  metric +:+ String.concat "" ((λ m, "|" +:+ LabelMatcher_String fmt_quote m) <$> ms).

Definition prefetch_ScanRange (metric : string) (ms : list LabelMatcher) (start end_ : Time) (s : prefetchStore St) :
    result (list Series) * prefetchStore St :=
  let key := cache_key metric ms in
  match cache s !! key with
  | Some l => (Ok (window start end_ l), s)
  | None =>
      let '(r, st) := ScanRange metric ms (fullStart s) (fullEnd s) (inner s) in
      match r with
      | Ok l => (Ok (window start end_ l), mkPrefetchStore st (fullStart s) (fullEnd s) (<[key := l]> (cache s)))
      | Err e => (Err e, mkPrefetchStore st (fullStart s) (fullEnd s) (cache s))
      | Panic w => (Panic w, mkPrefetchStore st (fullStart s) (fullEnd s) (cache s))
      end
  end.

#[export] Instance prefetch_store : MetricsStore (prefetchStore St) := {|
  ScanRange := prefetch_ScanRange;
  ListMetrics s := ListMetrics (inner s);
  ListLabels metric s := ListLabels metric (inner s);
  ListLabelValues label metric s := ListLabelValues label metric (inner s);
|}.
End prefetch.

(** ** Queries *)

Record QueryResult := mkQueryResult { ResultType : string; Result : Value }.

Definition resultType (v : Value) : string :=
  match v with Scalar _ _ => "scalar" | Vector _ => "vector" | Matrix _ => "matrix" | Str _ _ => "string" end.

Section engine.
Context {RT : Runtime} {UN : Unicode} {FM : FloatMaps} {St : Type} {store : MetricsStore St}.
(** [strconv.ParseFloat] with its error, and the registry. *)
Context (ParseNumber : string → option float64) (GetFunction : string → option Function).

Abbreviation parse := (Parse ParseNumber GetFunction).

Definition EvalAt {St} {store : MetricsStore St} (expr : Expr) (start end_ : Time) (interval : Duration) : E St Value :=
  eval expr (mkEvalContext start end_ interval).

(** [None] where the parser or a loop has no fuel left. *)
Definition parsed {A} (query : string) (k : Expr → E St A) : E St A := λ st,
  match parse query with
  | Some (Ok e) => k e st
  | Some (Err e) => Some (Err e, st)
  | Some (Panic w) => Some (Panic w, st)
  | None => None
  end.

Definition Engine_Query (query : string) (ts : Time) : E St QueryResult :=
  parsed query (λ expr,
    let& v := EvalAt expr ts ts 0 in eret (mkQueryResult (resultType v) v)).

(** The result of a step, at the time of the step; strings and matrices are dropped. *)
Definition collect_step (t : Time) (m : gmap string Series) (v : Value) : gmap string Series :=
  match v with
  | Scalar x _ =>
      let se := default (mkSeries ∅ []) (m !! ""%string) in
      <[""%string := mkSeries (se_Labels se) (se_Samples se ++ [mkSample t x])]> m
  | Vector vec => foldl (add_sample (λ _, t)) m vec
  | _ => m
  end.

(** The loop of a range query over any store. *)
Definition range_loop {St} {store : MetricsStore St} (expr : Expr) (start end_ : Time) (step : Duration) :
    E St (gmap string Series) :=
  time_loop (loop_fuel start end_ step) step end_ (λ t m,
    let& v := EvalAt expr start t step in eret (collect_step t m v)) start ∅.

Definition Engine_QueryRange (query : string) (start end_ : Time) (step : Duration) : E St QueryResult :=
  parsed query (λ expr st,
    match range_loop expr start end_ step (newPrefetchStore st start end_) with
    | Some (r, s) => Some (let! m := r in Ok (mkQueryResult "matrix" (Matrix (series_of m))), inner s)
    | None => None
    end).

(** ** Metadata *)

(** The selectors among texts that are parsed; the others are skipped. *)
Definition selector_of (matcher : string) : option VectorSelectorNode :=
  match parse matcher with Some (Ok (VectorSelector vs)) => Some vs | _ => None end.

(** The first name is looked up, the matchers of all are asked for. *)
Definition Engine_Series (matchers : list string) (start end_ : Time) : E St (list Labels) := λ st,
  let sels := omap selector_of matchers in
  let metricName := default "" (head (filter (λ n, n ≠ ""%string) (vs_Name <$> sels))) in
  let '(r, st) := ScanRange metricName (concat (vs_LabelMatchers <$> sels)) start end_ st in
  Some (let! series := r in Ok (se_Labels <$> series), st).

Definition first_name (matchers : list string) : string := default "" (vs_Name <$> head (omap selector_of matchers)).
Definition Engine_LabelNames (matchers : list string) : E St (list string) := λ st,
  Some (ListLabels (first_name matchers) st, st).
Definition Engine_LabelValues (label : string) (matchers : list string) : E St (list string) := λ st,
  Some (ListLabelValues label (first_name matchers) st, st).

Record MetricMetadata := mkMetricMetadata { md_Metric : string; md_Type : string; md_Help : string; md_Unit : string }.

Definition inferMetricType (name : string) : string :=
  let lower := ToLower name in
  if HasSuffix lower "_total" || HasSuffix lower "_count" then "counter"
  else if HasSuffix lower "_bucket" then "histogram"
  else if HasSuffix lower "_sum" then "counter"
  else "gauge".

Definition Engine_Metadata (metric : string) (limit : Z) : E St (list MetricMetadata) := λ st,
  Some (let! names := ListMetrics st in
        let wanted := filter (λ m, String.eqb metric "" || String.eqb m metric = true) names in
        Ok ((λ m, mkMetricMetadata m (inferMetricType m) "" "")
            <$> (if 0 <? limit then take (Z.to_nat limit) wanted else wanted)), st).

(** ** Parameters of requests *)

Context (now : Time) (ParseRFC3339 ParseLocal : string → option Time).

(** Seconds with a fraction, cut to nanoseconds. *)
Definition unix_time (f : float64) : Time :=
  let sec := f64_to_int f in
  let nsec := f64_to_int (f64_mul (f64_sub f (f64_of_Z sec)) (f64_of_Z (10 ^ 9))) in
  from_Unix sec + nsec.

Definition ParseTime (s : string) : result Time :=
  if String.eqb s "" then Ok now
  else match ParseNumber s with
  | Some f => Ok (unix_time f)
  | None =>
      match ParseRFC3339 s with
      | Some t => Ok t
      | None =>
          match ParseLocal s with
          | Some t => Ok t
          | None =>
              match s with
              | String "-" rest => let! d := ParseDuration ParseNumber rest in Ok (now + wrap64 (- d))
              | _ => Err ("cannot parse time: " +:+ s)
              end
          end
      end
  end.

Definition ParseDurationParam (s : string) (defaultVal : Duration) : result Duration :=
  if String.eqb s "" then Ok defaultVal
  else match ParseNumber s with
  | Some f => Ok (scaled f Second)
  | None => ParseDuration ParseNumber s
  end.

(** ** Responses *)

(** The elements of a result: a time with a value, one or many of them under labels. *)
Inductive formatted :=
| FormattedValue (value : float64 * string)
| FormattedSample (metric : Labels) (value : float64 * string)
| FormattedSeries (metric : Labels) (values : list (float64 * string)).
Record QueryData := mkQueryData { qd_ResultType : string; qd_Result : list formatted }.
Record PrometheusResponse := mkPrometheusResponse {
  pr_Status : string; pr_Data : option QueryData; pr_ErrorType : string; pr_Error : string; pr_Warnings : list string }.

(** [strconv.FormatFloat(v, 'f', -1, 64)]. *)
Context (FormatFloat : float64 → string).
Definition formatFloat (v : float64) : string :=
  if is_nan v then "NaN" else if f64_eq v Inf then "+Inf" else if f64_eq v negativeInf then "-Inf" else FormatFloat v.

Definition seconds_of (t : Time) : float64 := f64_of_Z (time_Unix t).
Definition formatValue (v : Value) : list formatted :=
  match v with
  | Scalar x t => [FormattedValue (seconds_of t, formatFloat x)]
  | Vector l => (λ s, FormattedSample (v_Labels s) (seconds_of (v_Timestamp s), formatFloat (v_Value s))) <$> l
  | Matrix m =>
      (λ se, FormattedSeries (se_Labels se)
               ((λ s, (seconds_of (s_Timestamp s), formatFloat (s_Value s))) <$> se_Samples se)) <$> m
  | Str s t => [FormattedValue (seconds_of t, s)]
  end.
Definition FormatQueryResult (r : QueryResult) : PrometheusResponse :=
  mkPrometheusResponse "success" (Some (mkQueryData (ResultType r) (formatValue (Result r)))) "" "" [].
Definition ErrorResponse (errorType msg : string) : PrometheusResponse :=
  mkPrometheusResponse "error" None errorType msg [].
End engine.
