(* ===== verification/PromCache.v ===== *)
(** The cache of range queries (internal/promql/engine.go): two stores whose scans agree
    give every expression the same value, and so a range query that reads through its cache
    computes what it would on the samples of the range. *)

From Stdlib Require Import String Ascii SpecFloat.
From stdpp Require Import base option list gmap sets numbers strings.
From S2P Require Import Prelude Float64 Bytes Chars Format Keys Grouping Values PromValue PromFunctions PromLexer PromAst PromParser PromParsed PromEval PromSound PromEngine Demo.

(** ** Two stores *)

Section simulation.
Context {RT : Runtime} {FM : FloatMaps}.
Context {St1 St2 : Type} {store1 : MetricsStore St1} {store2 : MetricsStore St2}.
(** States of the stores that answer alike, for the selectors [K] admits. *)
Context (R : St1 → St2 → Prop) (K : string → list LabelMatcher → Prop).

Definition alike {A} (o1 : option (result A * St1)) (o2 : option (result A * St2)) : Prop :=
  match o1, o2 with
  | Some (r1, st1), Some (r2, st2) => r1 = r2 ∧ R st1 st2
  | None, None => True
  | _, _ => False
  end.
Definition simulates {A} (c1 : E St1 A) (c2 : E St2 A) : Prop := ∀ st1 st2, R st1 st2 → alike (c1 st1) (c2 st2).

Hypothesis Hscan : ∀ metric ms start end_, K metric ms →
  simulates (λ st, Some (ScanRange metric ms start end_ st)) (λ st, Some (ScanRange metric ms start end_ st)).

Lemma sim_ret {A} (a : A) : simulates (eret a) (eret a).
Proof. by intros st1 st2 HR. Qed.
Lemma sim_lift {A} (r : result A) : simulates (elift r) (elift r).
Proof. by intros st1 st2 HR. Qed.

Lemma sim_bind {A B} (c1 : E St1 A) (c2 : E St2 A) (k1 : A → E St1 B) (k2 : A → E St2 B) :
  simulates c1 c2 → (∀ a, simulates (k1 a) (k2 a)) → simulates (ebind c1 k1) (ebind c2 k2).
Proof.
  intros Hc Hk st1 st2 HR. specialize (Hc st1 st2 HR). unfold ebind, alike in *.
  destruct (c1 st1) as [[r1 st1']|], (c2 st2) as [[r2 st2']|]; try done. destruct Hc as [-> HR'].
  destruct r2 as [a|e|w]; [by apply Hk|done..].
Qed.

Lemma sim_try {A} (c1 : E St1 A) (c2 : E St2 A) : simulates c1 c2 → simulates (etry c1) (etry c2).
Proof.
  intros Hc st1 st2 HR. specialize (Hc st1 st2 HR). unfold etry, alike in *.
  destruct (c1 st1) as [[r1 st1']|], (c2 st2) as [[r2 st2']|]; try done. destruct Hc as [-> HR']. by destruct r2.
Qed.

Lemma sim_mapM {A B} (f1 : A → E St1 B) (f2 : A → E St2 B) l :
  (∀ x, x ∈ l → simulates (f1 x) (f2 x)) → simulates (e_mapM f1 l) (e_mapM f2 l).
Proof.
  induction l as [|x l IH]; intros Hf; cbn [e_mapM]; [apply sim_ret|].
  apply sim_bind; [apply Hf; set_solver|]. intros y. apply sim_bind; [apply IH; set_solver|]. intros ys. apply sim_ret.
Qed.

Lemma sim_loop {A} fuel step end_ (b1 : Time → A → E St1 A) (b2 : Time → A → E St2 A) :
  (∀ t a, simulates (b1 t a) (b2 t a)) →
  ∀ t a, simulates (time_loop fuel step end_ b1 t a) (time_loop fuel step end_ b2 t a).
Proof.
  intros Hb. induction fuel as [|fuel IH]; intros t a; cbn [time_loop]; [by intros st1 st2 HR|].
  destruct (After t end_); [apply sim_ret|]. apply sim_bind; [apply Hb|]. intros a'. apply IH.
Qed.

Definition sim_option (p1 : option (E St1 Value)) (p2 : option (E St2 Value)) : Prop :=
  match p1, p2 with Some c1, Some c2 => simulates c1 c2 | None, None => True | _, _ => False end.

Lemma sim_param p1 p2 d : sim_option p1 p2 → simulates (param_scalar p1 d) (param_scalar p2 d).
Proof.
  destruct p1 as [c1|], p2 as [c2|]; intros H; try done.
  apply sim_bind; [by apply sim_try|]. intros v. apply sim_ret.
Qed.

Lemma sim_aggregate op p1 p2 text grouping without val :
  sim_option p1 p2 → simulates (aggregate_value op p1 text grouping without val) (aggregate_value op p2 text grouping without val).
Proof.
  intros Hp. unfold aggregate_value. destruct val; try apply sim_lift.
  apply sim_bind; [|intros l; apply sim_ret]. apply sim_mapM. intros [key g] _. unfold aggregate_group. cbn [snd].
  destruct op; try apply sim_ret; try (apply sim_bind; [by apply sim_param|intros k; apply sim_lift]);
    try (destruct (v_Value <$> g); [apply sim_lift|apply sim_ret]).
  apply sim_bind; [by apply sim_param|]. intros q. apply sim_bind; [apply sim_lift|]. intros v. apply sim_ret.
Qed.

Definition admitted_selector (e : Expr) : Prop :=
  match e with VectorSelector vs => K (vs_Name vs) (vs_LabelMatchers vs) | _ => True end.

Lemma sim_selectors vs range ctx : K (vs_Name vs) (vs_LabelMatchers vs) →
  simulates (evalVectorSelector vs ctx) (evalVectorSelector vs ctx) ∧
  simulates (evalMatrixSelector vs range ctx) (evalMatrixSelector vs range ctx).
Proof.
  intros HK. split; intros st1 st2 HR; unfold evalVectorSelector, evalMatrixSelector.
  all: match goal with HR : R ?x ?y |- context [ScanRange ?m ?l ?s ?e ?x] =>
    pose proof (Hscan m l s e HK x y HR) as H; unfold alike in *;
    destruct (ScanRange m l s e x) as [r1 x'], (ScanRange m l s e y) as [r2 y'] end.
  all: by destruct H as [-> HR'].
Qed.

(** An expression has the same value over both. *)
Lemma eval_simulates e : ∀ ctx, Forall admitted_selector (nodes e) → simulates (eval e ctx) (eval e ctx).
Proof.
  induction e as [vs|vs range p|v p|v p|op e p IH|op l r vm b p IHl IHr|op e param g w p IH IHp|f args p IH
    |e range step offset p IH|e p IH] using Expr_rect';
    intros ctx Hn; unfold nodes in *; cbn [Inspect] in Hn; apply Forall_cons in Hn as [Hn0 Hn]; cbn [eval].
  - by apply (sim_selectors vs 0).
  - apply Forall_cons in Hn as [Hvs _]. by apply sim_selectors.
  - apply sim_ret.
  - apply sim_ret.
  - apply sim_bind; [by apply IH|]. intros v. destruct (bool_decide _); [apply sim_ret|apply sim_lift].
  - apply Forall_app in Hn as [Hl Hr]. apply sim_bind; [by apply IHl|]. intros vl.
    apply sim_bind; [by apply IHr|]. intros vr. apply sim_lift.
  - apply Forall_app in Hn as [Hp He]. apply sim_bind; [by apply IH|]. intros v. apply sim_aggregate.
    destruct param as [q|]; [|done]. by apply (IHp q eq_refl).
  - apply sim_bind; [|intros vs; apply sim_lift]. apply sim_mapM. intros a Ha. rewrite Forall_forall in IH.
    apply IH; [done|]. rewrite Forall_forall in Hn |- *. intros n Hna. apply Hn. apply list_elem_of_In, in_concat.
    exists (Inspect (λ _, true) a). split; [|by apply list_elem_of_In]. apply list_elem_of_In, list_elem_of_fmap.
    by exists a.
  - apply sim_bind; [|intros m; apply sim_ret]. apply sim_loop. intros t m.
    apply sim_bind; [by apply IH|]. intros v. apply sim_ret.
  - by apply IH.
Qed.

Lemma range_simulates e start end_ step : Forall admitted_selector (nodes e) →
  simulates (range_loop e start end_ step) (range_loop e start end_ step).
Proof.
  intros Hn. unfold range_loop. apply sim_loop. intros t m. apply sim_bind; [by apply eval_simulates|].
  intros v. apply sim_ret.
Qed.
End simulation.

(** ** The cache *)

(** The store seen through the cache: every scan is cut from the scan of the whole range. *)
Definition clipped {St} {store : MetricsStore St} (st : St) (start end_ : Time) : MetricsStore unit := {|
  ScanRange metric ms s e u := (let! l := (ScanRange metric ms start end_ st).1 in Ok (window s e l), u);
  ListMetrics u := ListMetrics st;
  ListLabels metric u := ListLabels metric st;
  ListLabelValues label metric u := ListLabelValues label metric st;
|}.

(** What %q is relied on for: a quoted text begins with a quote, and where it ends is known. *)
Record quoting (quote : string → string) : Prop := {
  quote_opens : ∀ s, ∃ t, quote s = String "034" t;
  quote_cut : ∀ a b r s, quote a +:+ r = quote b +:+ s → a = b ∧ r = s;
}.

Definition is_op_char (c : ascii) : bool := Ascii.eqb c "=" || Ascii.eqb c "!".
(** The names of a selector are identifiers, as far as the key needs it. *)
Definition plain_selector (metric : string) (ms : list LabelMatcher) : Prop :=
  avoids "|" metric ∧ Forall (λ m, free_of is_op_char (lm_Name m)) ms.

Section cache.
Context {FM : Fmt}.
Hypothesis Hquote : quoting fmt_quote.

Lemma op_quote_cut t1 t2 v1 v2 r1 r2 :
  LabelMatchType_String t1 +:+ (fmt_quote v1 +:+ r1) = LabelMatchType_String t2 +:+ (fmt_quote v2 +:+ r2) →
  t1 = t2 ∧ v1 = v2 ∧ r1 = r2.
Proof.
  intros E. assert (Ht : t1 = t2).
  { destruct (quote_opens _ Hquote v1) as [q1 E1], (quote_opens _ Hquote v2) as [q2 E2]. rewrite E1, E2 in E.
    by destruct t1, t2. }
  subst t2. split; [done|]. apply app_cancel in E. by apply (quote_cut _ Hquote).
Qed.

Lemma matchers_text_cut ms1 ms2 :
  Forall (λ m, free_of is_op_char (lm_Name m)) ms1 → Forall (λ m, free_of is_op_char (lm_Name m)) ms2 →
  String.concat "" ((λ m, "|" +:+ LabelMatcher_String fmt_quote m) <$> ms1) =
  String.concat "" ((λ m, "|" +:+ LabelMatcher_String fmt_quote m) <$> ms2) → ms1 = ms2.
Proof.
  assert (Hc : ∀ m ms, String.concat "" ((λ m, "|" +:+ LabelMatcher_String fmt_quote m) <$> m :: ms) =
    "|" +:+ (lm_Name m +:+ (LabelMatchType_String (lm_Type m) +:+ (fmt_quote (lm_Value m) +:+
      String.concat "" ((λ m, "|" +:+ LabelMatcher_String fmt_quote m) <$> ms))))).
  { intros m ms. cbn [fmap list_fmap String.concat]. unfold LabelMatcher_String.
    destruct ms as [|m' ms]; cbn [fmap list_fmap]; [by rewrite app_nil_s|].
    by rewrite !string_app_assoc. }
  intros H. revert ms2. induction H as [|m1 ms1 Hm1 H IH]; intros [|m2 ms2] H2 E; [done|rewrite Hc in E; done..|].
  apply Forall_cons in H2 as [Hm2 H2]. rewrite !Hc in E. apply app_cancel in E.
  apply (cut_class is_op_char) in E as [En E]; [|done|done|by destruct (lm_Type m1)|by destruct (lm_Type m2)].
  apply op_quote_cut in E as (Et & Ev & E). destruct m1, m2; cbn in *. subst. f_equal. by apply IH.
Qed.

(** The key of the cache tells selectors apart. *)
Lemma cache_key_inj metric1 metric2 ms1 ms2 : plain_selector metric1 ms1 → plain_selector metric2 ms2 →
  cache_key metric1 ms1 = cache_key metric2 ms2 → metric1 = metric2 ∧ ms1 = ms2.
Proof.
  intros [H1 Hm1] [H2 Hm2] E. unfold cache_key in E.
  assert (Hb : ∀ ms, ends_at "|" (String.concat "" ((λ m, "|" +:+ LabelMatcher_String fmt_quote m) <$> ms))).
  { intros [|m [|m' ms]]; done. }
  apply (cut_unique "|") in E as [-> E]; [|done..]. split; [done|]. by apply matchers_text_cut.
Qed.

Context {St : Type} {store : MetricsStore St} (st : St) (start end_ : Time).
(** Scanning leaves the store as it is. *)
Hypothesis Hpure : ∀ metric ms s e, (ScanRange metric ms s e st).2 = st.

Definition caches (p : prefetchStore St) (_ : unit) : Prop :=
  inner p = st ∧ fullStart p = start ∧ fullEnd p = end_ ∧
  ∀ metric ms l, plain_selector metric ms → cache p !! cache_key metric ms = Some l →
    (ScanRange metric ms start end_ st).1 = Ok l.

Lemma cache_scans metric ms s e : plain_selector metric ms →
  simulates caches
    (λ p, Some (prefetch_ScanRange metric ms s e p))
    (λ u, Some (@ScanRange unit (clipped st start end_) metric ms s e u)).
Proof.
  intros Hk p [] (Hi & Hs & He & Hc). unfold alike, prefetch_ScanRange. cbn [ScanRange clipped].
  destruct (cache p !! cache_key metric ms) as [l|] eqn:El.
  - by rewrite (Hc metric ms l Hk El).
  - rewrite Hi, Hs, He. pose proof (Hpure metric ms start end_) as Hp.
    destruct (ScanRange metric ms start end_ st) as [r st'] eqn:Er. cbn [snd fst] in *. subst st'.
    destruct r as [l|m|w]; cbn [res_bind]; split; try done.
    split_and!; [done..|]. cbn [cache]. intros metric' ms' l' Hk' Hl'.
    destruct (decide (cache_key metric ms = cache_key metric' ms')) as [Ek|Ek].
    + destruct (cache_key_inj _ _ _ _ Hk Hk' Ek) as [-> ->]. rewrite lookup_insert_eq in Hl'.
      injection Hl' as ->. by rewrite Er.
    + rewrite lookup_insert_ne in Hl' by done. by apply Hc.
Qed.
End cache.

(** The names of the selectors of an expression are identifiers. *)
Definition plain_nodes (e : Expr) : Prop := Forall (admitted_selector plain_selector) (nodes e).

Lemma identifier_plain s : identifier s → avoids "|" s ∧ free_of is_op_char s.
Proof.
  intros [_ H]. induction s as [|c s IH]; [done|]. apply Forall_cons in H as [Hc H].
  pose proof (byte_cases (λ c, implb (word_char c) (negb (Ascii.eqb c "|") && negb (is_op_char c))) eq_refl c) as Hb.
  cbn beta in Hb. rewrite Hc in Hb. cbn in Hb. apply andb_true_iff in Hb as [Hb%negb_true_iff Ho%negb_true_iff].
  apply Ascii.eqb_neq in Hb. cbn. naive_solver.
Qed.

(** The selectors of a query that is parsed. *)
Lemma parsed_plain {U : Unicode} ParseNumber GetFunction query e :
  Parse ParseNumber GetFunction query = Some (Ok e) → plain_nodes e.
Proof.
  intros He%parse_formed. apply Forall_forall. intros n Hn. destruct n as [vs| | | | | | | | |]; try done. cbn.
  destruct (formed_selectors _ _ _ He vs Hn) as (Hname & Hms & _). split; [by apply identifier_plain|].
  eapply Forall_impl; [exact Hms|]. intros m Hm. by apply identifier_plain.
Qed.

