(* ===== verification/PromIndex.v ===== *)
(** The index of labels: the recording of points (CustomMetrics.v) keeps it in step with the
    rows, and a scan through it (PromStore.v) finds what a scan of all rows finds. *)

From Stdlib Require Import String Ascii.
From stdpp Require Import base option list gmap sets numbers strings sorting.
From S2P Require Import Prelude Float64 Bytes Format Keys Grouping Values PromValue PromFunctions PromLexer PromAst PromEval PromVectors CustomMetrics PromStore.
From Stdlib Require Import Permutation.
From stdpp Require Import list.

#[local] Open Scope list_scope.
#[local] Open Scope Z_scope.

(** ** Fingerprints *)

Section fingerprint.
Context {RT : Runtime} {EN : Encodings}.

Definition nul_free (name : string) (tags : Labels) : Prop :=
  avoids "000" name ∧ map_Forall (λ k v, avoids "000" k ∧ avoids "000" v) tags.

Definition pairs_text (l : list (string * string)) : string :=
  String.concat "" ((λ kv, nul +:+ kv.1 +:+ nul +:+ kv.2) <$> l).

Lemma pairs_text_cons kv l : pairs_text (kv :: l) = nul +:+ (kv.1 +:+ (nul +:+ (kv.2 +:+ pairs_text l))).
Proof.
  unfold pairs_text. cbn [fmap list_fmap String.concat]. destruct l as [|kv' l]; cbn [fmap list_fmap].
  - cbn [String.concat]. by rewrite app_nil_s.
  - by rewrite !string_app_assoc.
Qed.

Lemma pairs_text_ends l : ends_at "000" (pairs_text l).
Proof. destruct l as [|kv l]; [done|]. by rewrite pairs_text_cons. Qed.

Lemma pairs_text_inj l1 l2 :
  Forall (λ kv, avoids "000" kv.1 ∧ avoids "000" kv.2) l1 → Forall (λ kv, avoids "000" kv.1 ∧ avoids "000" kv.2) l2 →
  pairs_text l1 = pairs_text l2 → l1 = l2.
Proof.
  intros H1. revert l2. induction H1 as [|[k1 v1] l1 [Hk1 Hv1] H1 IH]; intros [|[k2 v2] l2] H2 E.
  - done.
  - by rewrite pairs_text_cons in E.
  - by rewrite pairs_text_cons in E.
  - apply Forall_cons in H2 as [[Hk2 Hv2] H2]. rewrite !pairs_text_cons in E. cbn [fst snd] in E.
    apply app_cancel in E. cbn [fst snd] in *. apply (cut_unique "000") in E as [-> E]; [|done..]. apply app_cancel in E.
    apply (cut_unique "000") in E as [-> E]; [|done|done|apply pairs_text_ends..]. f_equal. by apply IH.
Qed.

(** The labels without the name of the metric. *)
Definition unnamed (tags : Labels) : Labels := delete "__name__"%string tags.

Lemma fingerprint_text_inj n1 t1 n2 t2 : nul_free n1 t1 → nul_free n2 t2 →
  fingerprint_text n1 t1 = fingerprint_text n2 t2 → n1 = n2 ∧ unnamed t1 = unnamed t2.
Proof.
  assert (Hp : ∀ (t : Labels), String.concat "" ((λ k, nul +:+ k +:+ nul +:+ default "" (t !! k)) <$>
    sorted_names (filter (λ k, k ≠ "__name__"%string) (label_names t))) =
    pairs_text ((λ k, (k, default "" (t !! k))) <$> sorted_names (filter (λ k, k ≠ "__name__"%string) (label_names t)))).
  { intros t. unfold pairs_text. by rewrite <- list_fmap_compose. }
  assert (Hf : ∀ n t, nul_free n t → Forall (λ kv, avoids "000" kv.1 ∧ avoids "000" kv.2)
    ((λ k, (k, default "" (t !! k))) <$> sorted_names (filter (λ k, k ≠ "__name__"%string) (label_names t)))).
  { intros n t [_ H]. apply Forall_forall. intros [k v] [_ Hkv]%chosen_pairs. by apply (H k v). }
  intros H1 H2 E. unfold fingerprint_text in E. rewrite !Hp in E.
  apply (cut_unique "000") in E as [-> E]; [|apply H1|apply H2|apply pairs_text_ends..]. split; [done|].
  apply pairs_text_inj in E; [|by eapply Hf..]. apply map_eq. intros k. apply option_eq. intros v. unfold unnamed.
  rewrite !lookup_delete_Some. pose proof (chosen_pairs (λ k, k ≠ "__name__"%string) t1 k v) as P1.
  pose proof (chosen_pairs (λ k, k ≠ "__name__"%string) t2 k v) as P2. rewrite E in P1. cbn beta in *. naive_solver.
Qed.
End fingerprint.

(** ** The index in step with the rows *)

Section index.
Context {RT : Runtime} {EN : Encodings}.

Lemma insert_label_fresh row rows :
  (∀ r, r ∈ rows → lr_series_id r = lr_series_id row → lr_key r ≠ lr_key row) → insert_label row rows = rows ++ [row].
Proof.
  intros H. unfold insert_label. destruct (existsb _ rows) eqn:E; [|done]. exfalso.
  apply existsb_exists in E as (r & Hr & Hb). apply andb_true_iff in Hb as [Hi%Z.eqb_eq Hk%String.eqb_eq].
  apply (H r); [by apply list_elem_of_In|done..].
Qed.

Definition index_step (id : Z) (rows : list LabelRow) (kv : string * string) : list LabelRow :=
  if String.eqb kv.1 "__name__" then rows else insert_label (mkLabelRow id kv.1 kv.2) rows.

Lemma index_fold id l rows :
  NoDup l.*1 → (∀ r, r ∈ rows → lr_series_id r = id → lr_key r ∉ l.*1) → ∀ r,
  r ∈ foldl (index_step id) rows l ↔ r ∈ rows ∨ ∃ k v, (k, v) ∈ l ∧ k ≠ "__name__"%string ∧ r = mkLabelRow id k v.
Proof.
  revert rows. induction l as [|[k v] l IH]; intros rows Hd Hr r; cbn [foldl].
  - split; [auto|]. intros [?|(k & v & Hkv & _)]; [done|]. by apply elem_of_nil in Hkv.
  - cbn in Hd. apply NoDup_cons in Hd as [Hk Hd]. unfold index_step at 2. cbn [fst snd].
    destruct (String.eqb_spec k "__name__") as [->|Hn].
    + rewrite IH; [|done|set_solver]. setoid_rewrite elem_of_cons. naive_solver.
    + rewrite insert_label_fresh.
      * rewrite IH; [|done|].
        -- setoid_rewrite elem_of_cons. rewrite elem_of_app, list_elem_of_singleton. naive_solver.
        -- intros r' [Hr'|Hr'%list_elem_of_singleton]%elem_of_app Hid; [|by subst r']. specialize (Hr r' Hr' Hid). set_solver.
      * cbn. intros r' Hr' Hid Hkey. apply (Hr r' Hr' Hid). rewrite Hkey. set_solver.
Qed.

(** The rows of a series in the index are its labels. *)
Definition index_of (d : DB) (id : Z) (tags : Labels) : Prop :=
  ∀ k v, mkLabelRow id k v ∈ label_index d ↔ unnamed tags !! k = Some v.

(** Names and labels that are recorded: their texts are read back, they have no NUL, and
    their digests are different where they are. *)
Record recordable (points : list (string * Labels)) : Prop := {
  rec_text : ∀ n t, (n, t) ∈ points → nul_free n t ∧
    (t ≠ ∅ → json_labels t ≠ ""%string ∧ (unmarshal_labels (json_labels t)).1 = Some t);
  rec_digest : ∀ n1 t1 n2 t2, (n1, t1) ∈ points → (n2, t2) ∈ points →
    seriesFingerprint n1 t1 = seriesFingerprint n2 t2 → fingerprint_text n1 t1 = fingerprint_text n2 t2;
}.

Context (points : list (string * Labels)).

Definition row_indexed (d : DB) (r : MetricRow) : Prop :=
  match m_series_id r with
  | None => m_tags r = ""%string
  | Some id => ∃ s tags, s ∈ series d ∧ sr_id s = id ∧ sr_name s = m_name r ∧ (m_name r, tags) ∈ points ∧
      tags ≠ ∅ ∧ m_tags r = json_labels tags ∧ index_of d id tags
  end.
Definition series_indexed (d : DB) (s : SeriesRow) : Prop :=
  0 < sr_id s ≤ last_id d ∧ ∃ tags, (sr_name s, tags) ∈ points ∧
    sr_fingerprint s = seriesFingerprint (sr_name s) tags ∧ index_of d (sr_id s) tags.
Record indexed (d : DB) : Prop := {
  ix_series : ∀ s, s ∈ series d → series_indexed d s;
  ix_ids : NoDup (sr_id <$> series d);
  ix_labels : ∀ r, r ∈ label_index d → lr_series_id r ≤ last_id d;
  ix_last : 0 ≤ last_id d;
  ix_rows : ∀ r, r ∈ metrics d → row_indexed d r;
}.

Lemma indexed_new : indexed NewDB.
Proof. split; try done; [by intros s ?%elem_of_nil|constructor|by intros r ?%elem_of_nil|by intros r ?%elem_of_nil]. Qed.

Hypothesis Hvisits : visits_maps.
Hypothesis Hpoints : recordable points.

(** A series that is interned: the one that is found, or a new one. *)
Lemma internSeries_indexed n t d : indexed d → (n, t) ∈ points →
  let '(id, d') := internSeries n t d in
  indexed d' ∧ metrics d' = metrics d ∧ metric_info d' = metric_info d ∧ 0 < id ∧
  (∃ s, s ∈ series d' ∧ sr_id s = id ∧ sr_name s = n ∧ index_of d' id t).
Proof.
  intros Hd Hnt. unfold internSeries, find_series. destruct (find _ (series d)) as [s|] eqn:Ef.
  - apply find_some in Ef as [Hs Hfp%String.eqb_eq]. apply list_elem_of_In in Hs.
    destruct (ix_series _ Hd s Hs) as (Hid & tags & Htags & Efp & Hix). rewrite Hfp in Efp.
    apply (rec_digest _ Hpoints) in Efp; [|done..]. apply fingerprint_text_inj in Efp as [En Et];
      [|by apply (rec_text _ Hpoints)..]. split_and!; [done..|lia|]. exists s. split_and!; [done..|].
    intros k v. by rewrite Et.
  - clear Ef. set (id := last_id d + 1).
    assert (Hfold : ∀ r, r ∈ foldl (index_step id) (label_index d) (map_order t) ↔
      r ∈ label_index d ∨ ∃ k v, unnamed t !! k = Some v ∧ r = mkLabelRow id k v).
    { intros r. rewrite index_fold.
      - setoid_rewrite (Hvisits _ t). setoid_rewrite elem_of_map_to_list. unfold unnamed.
        setoid_rewrite lookup_delete_Some. naive_solver.
      - rewrite (Hvisits _ t). apply NoDup_fst_map_to_list.
      - intros r' Hr' Hid. pose proof (ix_labels _ Hd r' Hr'). lia. }
    change (foldl _ (label_index d) (map_order t)) with (foldl (index_step id) (label_index d) (map_order t)).
    set (row := mkSeriesRow id n _ _).
    set (d' := mkDB _ _ _ _ _).
    assert (Hold : ∀ id' tags, id' ≤ last_id d → index_of d id' tags → index_of d' id' tags).
    { intros id' tags Hle Hix k v. cbn [label_index d']. rewrite Hfold, (Hix k v). split; [|auto].
      intros [?|(k' & v' & _ & [= E])]; [done|]. lia. }
    assert (Hnew : index_of d' id t).
    { intros k v. cbn [label_index d']. rewrite Hfold. split; [|eauto].
      intros [H|(k' & v' & Hkv & [= -> ->])]; [|done]. pose proof (ix_labels _ Hd _ H) as Hle. cbn in Hle. lia. }
    pose proof (ix_last _ Hd). split_and!; [|done|done|lia|].
    + split.
      * cbn [series d']. intros s [Hs|Hs%list_elem_of_singleton]%elem_of_app.
        -- destruct (ix_series _ Hd s Hs) as (Hid & tags & ? & ? & Hix). split; [cbn; lia|].
           exists tags. split_and!; [done..|]. apply Hold; [lia|done].
        -- subst s. split; [cbn; lia|]. by exists t.
      * cbn [series d']. rewrite fmap_app. apply NoDup_app. split_and!; [apply (ix_ids _ Hd)| |by apply NoDup_singleton].
        intros i (s & -> & Hs)%list_elem_of_fmap Hi%list_elem_of_singleton.
        destruct (ix_series _ Hd s Hs) as [Hid _]. cbn in Hi. lia.
      * cbn. intros r [Hr|(k & v & _ & ->)]%Hfold; [|cbn; lia]. pose proof (ix_labels _ Hd r Hr). lia.
      * cbn. lia.
      * cbn [metrics d']. intros r Hr. pose proof (ix_rows _ Hd r Hr) as Hrow. unfold row_indexed in *.
        destruct (m_series_id r) as [i|]; [|done]. destruct Hrow as (s & tags & Hs & <- & ? & ? & ? & ? & Hix).
        exists s, tags. split_and!; try done; [cbn; set_solver|]. apply Hold; [|done].
        destruct (ix_series _ Hd s Hs) as [Hid _]. lia.
    + exists row. split_and!; [cbn; set_solver|done..].
Qed.

Definition recorded_key (dp : DataPoint) : string * Labels := (dp_Name dp, dp_Tags dp).

Lemma insert_point_indexed dp d : indexed d → recorded_key dp ∈ points → indexed (insert_point dp d).
Proof.
  intros Hd Hdp. unfold insert_point. case_bool_decide as Ht; cbn [negb].
  - split; cbn; [apply (ix_series _ Hd)|apply (ix_ids _ Hd)|apply (ix_labels _ Hd)|apply (ix_last _ Hd)|].
    intros r [Hr|Hr%list_elem_of_singleton]%elem_of_app; [by apply (ix_rows _ Hd)|]. by subst r.
  - pose proof (internSeries_indexed (dp_Name dp) (dp_Tags dp) d Hd Hdp) as H.
    destruct (internSeries _ _ d) as [id d']. destruct H as (Hd' & Hm & _ & Hid & s & Hs & <- & Hn & Hix).
    replace (0 <? sr_id s) with true by lia.
    split; cbn; [apply (ix_series _ Hd')|apply (ix_ids _ Hd')|apply (ix_labels _ Hd')|apply (ix_last _ Hd')|].
    intros r [Hr|Hr%list_elem_of_singleton]%elem_of_app; [by apply (ix_rows _ Hd')|]. subst r.
    by exists s, (dp_Tags dp).
Qed.

Lemma Cleanup_indexed now maxAge d : indexed d → indexed (Cleanup now maxAge d).2.
Proof.
  intros Hd. split; cbn; [apply (ix_series _ Hd)|apply (ix_ids _ Hd)|apply (ix_labels _ Hd)|apply (ix_last _ Hd)|].
  intros r [_ Hr]%list_elem_of_filter. by apply (ix_rows _ Hd).
Qed.

(** *** The store of metrics *)

Context {H : Type} (cardinalityHook : option (string → Labels → H → H)).
Context (shapingHook : option (string → Labels → bool * option Labels)).

(** The point that [Record_] writes, if its shaping keeps it. *)
Definition kept_point (now : Time) (dp : DataPoint) : option DataPoint :=
  let dp := with_time now dp in
  match (match shapingHook with Some f => f (dp_Name dp) (dp_Tags dp) | None => (true, None) end) with
  | (true, Some tags) => Some (with_tags tags dp)
  | (true, None) => Some dp
  | (false, _) => None
  end.

Lemma count_db dp (s : @Store H) : db (count dp s) = db s.
Proof. unfold count. by destruct (String.eqb _ _). Qed.
Lemma track_db name tags (s : @Store H) : db (track cardinalityHook name tags s) = db s.
Proof. unfold track. by destruct cardinalityHook. Qed.

Lemma Record_db now dp (s : @Store H) : db (Record_ cardinalityHook shapingHook now dp s) =
  match kept_point now dp with Some dp' => insert_point dp' (db s) | None => db s end.
Proof.
  unfold Record_, kept_point. destruct (match shapingHook with Some f => _ | None => _ end) as [[] [tags|]]; try done.
  all: cbn [db put_db]; unfold recordPoint; by rewrite count_db, track_db.
Qed.

Lemma RecordBatch_db now pts (s : @Store H) : db (RecordBatch cardinalityHook now pts s) =
  foldl (λ d dp, insert_point (with_time now dp) d) (db s) pts.
Proof.
  unfold RecordBatch. set (s0 := foldl _ s pts). assert (Hs : db s0 = db s).
  { unfold s0. clear s0. revert s. induction pts as [|dp pts IH]; intros s; [done|]. cbn [foldl]. by rewrite IH, track_db. }
  rewrite <- Hs. clearbody s0. clear Hs s. revert s0. induction pts as [|dp pts IH]; intros s; [done|].
  cbn [foldl]. rewrite IH, count_db. done.
Qed.

(** What changes a store: recording, alone or in a batch, and removing old rows. *)
Inductive store_step : @Store H → @Store H → Prop :=
| step_Record now dp s : (∀ dp', kept_point now dp = Some dp' → recorded_key dp' ∈ points) →
    store_step s (Record_ cardinalityHook shapingHook now dp s)
| step_RecordBatch now pts s : Forall (λ dp, recorded_key dp ∈ points) pts →
    store_step s (RecordBatch cardinalityHook now pts s)
| step_Cleanup now maxAge s : store_step s (put_db (Cleanup now maxAge (db s)).2 s).

Lemma store_step_indexed s s' : store_step s s' → indexed (db s) → indexed (db s').
Proof.
  intros Hstep Hs. destruct Hstep as [now dp s Hdp|now pts s Hpts|now maxAge s].
  - rewrite Record_db. destruct (kept_point now dp); [|done]. apply insert_point_indexed; auto.
  - rewrite RecordBatch_db. revert Hs. generalize (db s). induction Hpts as [|dp pts Hdp Hpts IH]; intros d Hd; [done|].
    cbn [foldl]. by apply IH, insert_point_indexed.
  - by apply Cleanup_indexed.
Qed.

Lemma reachable_indexed s s' : rtc store_step s s' → indexed (db s) → indexed (db s').
Proof. induction 1; eauto using store_step_indexed. Qed.

(** *** Scans *)

(** The expressions of the matchers compile; equality is asked of a label with a value. *)
Definition compiles (ms : list LabelMatcher) : Prop := Forall (λ m, ∀ v, ∃ b, Matches regexp_match m v = Ok b) ms.
Definition asks_values (ms : list LabelMatcher) : Prop := Forall (λ m, is_equality m = true → lm_Value m ≠ ""%string) ms.

Definition holds (labels : Labels) (m : LabelMatcher) : bool :=
  match Matches regexp_match m (default "" (labels !! lm_Name m)) with Ok b => b | _ => false end.
Lemma matchLabels_holds labels ms : compiles ms → matchLabels labels ms = Ok (forallb (holds labels) ms).
Proof.
  induction 1 as [|m ms Hm _ IH]; [done|]. cbn [matchLabels forallb]. unfold holds at 1.
  destruct (Hm (default "" (labels !! lm_Name m))) as [b ->]. cbn. by destruct b.
Qed.

Lemma forallb_split (f : LabelMatcher → bool) ms :
  forallb f ms = forallb f (extractEqualityMatchers ms) && forallb f (filterOutEquality ms).
Proof.
  unfold extractEqualityMatchers, filterOutEquality. induction ms as [|m ms IH]; [done|]. cbn [forallb]. rewrite IH.
  destruct (is_equality m) eqn:E.
  - rewrite filter_cons_True, filter_cons_False by congruence. cbn. by rewrite andb_assoc.
  - rewrite filter_cons_False, filter_cons_True by congruence. cbn.
    by destruct (f m), (forallb f (filter _ ms)).
Qed.

(** The sample of a row whose labels are known. *)
Definition row_labels (r : MetricRow) : Labels :=
  match scan_tags (m_name r) (m_tags r) with Ok l => l | _ => ∅ end.
Definition row_sample (ms : list LabelMatcher) (r : MetricRow) : option VectorSample :=
  if forallb (holds (row_labels r)) ms then Some (mkVectorSample (row_labels r) (m_value r) (m_timestamp r)) else None.

Lemma row_scanned d r : row_indexed d r → scan_tags (m_name r) (m_tags r) = Ok (row_labels r).
Proof.
  intros Hr. unfold row_labels, scan_tags. destruct (String.eqb_spec (m_tags r) "") as [_|Ht]; [done|].
  unfold row_indexed in Hr. destruct (m_series_id r); [|done]. destruct Hr as (s & tags & _ & _ & _ & Hin & Hne & Ej & _).
  destruct (rec_text _ Hpoints _ _ Hin) as [_ Htext]. destruct (Htext Hne) as [_ Eu]. by rewrite Ej, Eu.
Qed.

Lemma collect_rows d ms rows : compiles ms → Forall (row_indexed d) rows →
  collect ms rows = Ok (series_of (foldl (add_sample v_Timestamp) ∅ (omap (row_sample ms) rows))).
Proof.
  intros Hms Hrows. unfold collect. assert (E : res_mapM (scan_row ms) rows = Ok (row_sample ms <$> rows)).
  { induction Hrows as [|r rows Hr Hrows IH]; [done|]. cbn [res_mapM fmap list_fmap]. unfold scan_row at 1.
    rewrite (row_scanned d r Hr). cbn [res_bind]. rewrite (matchLabels_holds _ _ Hms). cbn [res_bind]. by rewrite IH. }
  rewrite E. cbn [res_bind]. do 3 f_equal. clear. induction rows as [|r rows IH]; [done|].
  cbn. destruct (row_sample ms r); cbn; by rewrite IH.
Qed.

(** An equality holds of an indexed row when the index has it. *)
Lemma equality_indexed d r id m : row_indexed d r → m_series_id r = Some id →
  is_equality m = true → lm_Value m ≠ ""%string → holds (row_labels r) m = has_label d id m.
Proof.
  intros Hr Eid Hm Hv. pose proof Hr as Hr'. unfold row_indexed in Hr'. rewrite Eid in Hr'.
  destruct Hr' as (s & tags & Hs & _ & _ & Hin & Hne & Ej & Hix).
  destruct (rec_text _ Hpoints _ _ Hin) as [_ Htext]. destruct (Htext Hne) as [Hnj Eu].
  unfold is_equality in Hm. apply andb_true_iff in Hm as [Ht%bool_decide_eq_true Hn%negb_true_iff%String.eqb_neq].
  assert (El : row_labels r !! lm_Name m = tags !! lm_Name m).
  { unfold row_labels, scan_tags. rewrite Ej, Eu. destruct (String.eqb_spec (json_labels tags) ""); [done|]. cbn.
    rewrite lookup_insert_ne, lookup_union_l by (rewrite ?lookup_singleton_ne; done). done. }
  unfold holds, Matches. rewrite Ht, El. unfold has_label. apply eq_true_iff_eq. rewrite String.eqb_eq, existsb_exists.
  split.
  - intros E. destruct (tags !! lm_Name m) as [v|] eqn:Ek; [|by cbn in E]. cbn in E. subst v.
    exists (mkLabelRow id (lm_Name m) (lm_Value m)). split.
    + apply list_elem_of_In, Hix. unfold unnamed. by rewrite lookup_delete_ne.
    + cbn. by rewrite Z.eqb_refl, !String.eqb_refl.
  - intros (row & Hrow%list_elem_of_In & Hb). apply andb_true_iff in Hb as [Hb Ev%String.eqb_eq].
    apply andb_true_iff in Hb as [Ei%Z.eqb_eq Ek%String.eqb_eq]. destruct row as [i k v]. cbn in *. subst.
    apply Hix in Hrow. unfold unnamed in Hrow. rewrite lookup_delete_ne in Hrow by done. by rewrite Hrow.
Qed.

(** A row that is found through the index is a row the full scan finds. *)
Lemma row_found d r metric ms start end_ :
  indexed d → r ∈ metrics d → asks_values ms → extractEqualityMatchers ms ≠ [] →
  indexed_where d metric (extractEqualityMatchers ms) start end_ r && forallb (holds (row_labels r)) (filterOutEquality ms) =
  full_where metric start end_ r && forallb (holds (row_labels r)) ms.
Proof.
  intros Hd Hin Hms Hne. pose proof (ix_rows _ Hd r Hin) as Hr. rewrite (forallb_split _ ms).
  assert (Heq : Forall (λ m, is_equality m = true ∧ lm_Value m ≠ ""%string) (extractEqualityMatchers ms)).
  { apply Forall_forall. intros m [Hm Hmin]%list_elem_of_filter. unfold asks_values in Hms. rewrite Forall_forall in Hms. auto. }
  unfold indexed_where. destruct (m_series_id r) as [id|] eqn:Eid.
  - assert (Hall : forallb (holds (row_labels r)) (extractEqualityMatchers ms) = forallb (has_label d id) (extractEqualityMatchers ms)).
    { clear Hne. induction Heq as [|m l [Hm Hv] _ IH]; [done|]. cbn. by rewrite (equality_indexed d r id m), IH. }
    assert (Hname : existsb (λ s, (sr_id s =? id) && (String.eqb metric "" || String.eqb (sr_name s) metric)) (series d) =
      String.eqb metric "" || String.eqb (m_name r) metric).
    { unfold row_indexed in Hr. rewrite Eid in Hr. destruct Hr as (s & tags & Hs & Es & En & _).
      apply eq_true_iff_eq. rewrite existsb_exists. split.
      - intros (s' & Hs' & [Ei%Z.eqb_eq Hb]%andb_true_iff). apply list_elem_of_In in Hs'. rewrite <- En.
        assert (Ess : s' = s); [|by subst s'].
        apply list_elem_of_lookup in Hs as [i Hi]. apply list_elem_of_lookup in Hs' as [j Hj].
        assert (i = j).
        { apply (NoDup_lookup (sr_id <$> series d) i j id (ix_ids _ Hd)); rewrite list_lookup_fmap.
          - rewrite Hi. cbn. by rewrite Es.
          - rewrite Hj. cbn. by rewrite Ei. }
        subst j. congruence.
      - intros Hb. exists s. split; [by apply list_elem_of_In|]. by rewrite Es, Z.eqb_refl, En. }
    rewrite Hname, Hall. unfold full_where.
    by destruct (in_range start end_ r), (String.eqb metric "" || String.eqb (m_name r) metric), (forallb (has_label d id) _).
  - unfold row_indexed in Hr. rewrite Eid in Hr. cbn [andb].
    destruct (extractEqualityMatchers ms) as [|m l]; [done|]. apply Forall_cons in Heq as [[Hm Hv] _].
    unfold is_equality in Hm. apply andb_true_iff in Hm as [Ht%bool_decide_eq_true Hn%negb_true_iff%String.eqb_neq].
    assert (Eh : holds (row_labels r) m = false).
    { unfold holds, Matches, row_labels, scan_tags. rewrite Hr, Ht. cbn. rewrite lookup_singleton_ne by done. cbn.
      by destruct (lm_Value m). }
    cbn [forallb]. rewrite Eh. cbn. by rewrite andb_false_r.
Qed.

Lemma omap_filter_perm {B} (P1 P2 : MetricRow → bool) (f1 f2 : MetricRow → option B) (order : list MetricRow → list MetricRow) l :
  (∀ l, order l ≡ₚ l) → (∀ r, r ∈ l → (if P1 r then f1 r else None) = (if P2 r then f2 r else None)) →
  omap f1 (order (filter (λ r, P1 r = true) l)) ≡ₚ omap f2 (order (filter (λ r, P2 r = true) l)).
Proof.
  intros Ho Hf. rewrite (Ho (filter (λ r, P1 r = true) l)), (Ho (filter (λ r, P2 r = true) l)).
  assert (Hof : ∀ (P : MetricRow → bool) (f : MetricRow → option B),
    omap f (filter (λ r, P r = true) l) = omap (λ r, if P r then f r else None) l).
  { intros P f. clear. induction l as [|r l IH]; [done|]. rewrite filter_cons. cbn [omap list_omap].
    destruct (decide (P r = true)) as [E|E].
    - rewrite E. cbn [omap list_omap]. by destruct (f r); rewrite IH.
    - apply not_true_is_false in E. rewrite E. exact IH. }
  rewrite !Hof. replace (omap (λ r, if P1 r then f1 r else None) l) with (omap (λ r, if P2 r then f2 r else None) l); [done|].
  clear -Hf. induction l as [|r l IH]; [done|]. cbn. rewrite (Hf r), IH by set_solver. done.
Qed.

(** C28: on a store of metrics, with the index or without it, a scan finds the same samples
    in series, whichever samples come first: the index answers the matchers that ask for a
    label with a value as the labels in the text of the row do.  This is for stores that start
    empty and are changed by the operations of the store ([store_step]): rows from before the index,
    whose series_id is null although they have labels, are not in it and are missed.  What is
    recorded is drawn from points that are [recordable]: their names and labels have no NUL, the text
    of their labels is read back as the labels, and the digests (the first bytes of a SHA-256) of
    different ones are different.  The regular expressions of the matchers compile, a matcher for an
    equal value asks for one that is not empty (empty_label_value), ORDER BY permutes the rows, and
    the full scan does not fail. *)
Theorem index_finds_what_a_full_scan_finds counters h s metric ms start end_ err :
  rtc store_step (mkStore NewDB counters h) s → (∀ A (less : A → A → bool) l, order_by less l ≡ₚ l) →
  compiles ms → asks_values ms → err SelectFull = None →
  ∃ l1 l2, l1 ≡ₚ l2 ∧
    SQL_ScanRange (mkSQLMetricsStore (Some (db s)) true err) metric ms start end_ =
      Ok (series_of (foldl (add_sample v_Timestamp) ∅ l1)) ∧
    SQL_ScanRange (mkSQLMetricsStore (Some (db s)) false err) metric ms start end_ =
      Ok (series_of (foldl (add_sample v_Timestamp) ∅ l2)).
Proof.
  intros Hs Ho Hc Hv He. pose proof (reachable_indexed _ _ Hs indexed_new) as Hd. cbn in Hd. set (d := db s) in *.
  assert (Hrows : ∀ P : MetricRow → bool, Forall (row_indexed d) (order_by by_name_time (filter (λ r, P r = true) (metrics d)))).
  { intros P. apply Forall_forall. intros r Hr. rewrite (Ho _ _ _) in Hr. apply list_elem_of_filter in Hr as [_ Hr].
    by apply (ix_rows _ Hd). }
  assert (Hfull : scanRangeFull (mkSQLMetricsStore (Some d) true err) d metric ms start end_ = Ok (series_of
    (foldl (add_sample v_Timestamp) ∅ (omap (row_sample ms) (order_by by_name_time
      (filter (λ r, full_where metric start end_ r = true) (metrics d))))))).
  { unfold scanRangeFull. cbn [sq_error]. rewrite He. by apply (collect_rows d). }
  unfold SQL_ScanRange. cbn [sq_db sq_has_index]. rewrite andb_false_r, andb_true_r.
  case_bool_decide as Heqs; cbn [negb]; [by eexists _, _|]. unfold scanRangeIndexed. cbn [sq_error].
  destruct (err SelectIndexed); [by eexists _, _|].
  eexists _, _. split_and!; [|apply (collect_rows d); [|apply Hrows]|exact Hfull].
  - apply (omap_filter_perm _ _ (row_sample (filterOutEquality ms)) (row_sample ms)); [intros l; apply Ho|].
    intros r Hr. pose proof (row_found d r metric ms start end_ Hd Hr Hv Heqs) as E. unfold row_sample.
    destruct (indexed_where _ _ _ _ _ r), (full_where _ _ _ r); cbn [andb] in E; by rewrite ?E, <- ?E.
  - apply Forall_forall. intros m [_ Hm]%list_elem_of_filter. unfold compiles in Hc. rewrite Forall_forall in Hc. auto.
Qed.

(** Whatever a store records, point by point or in batches, and whatever it removes, the
    index stays in step: the identifiers of series are distinct, the rows of the index with
    an identifier are the labels of its series, and each row of a point with labels has the
    series of its name and labels. *)
Theorem recording_keeps_the_index counters h s :
  rtc store_step (mkStore NewDB counters h) s → indexed (db s).
Proof. intros Hs. eapply reachable_indexed; [exact Hs|apply indexed_new]. Qed.
End index.
