(* ===== verification/PromExamples.v ===== *)
(** The theorems on PromQL at work: queries against a store in memory that are parsed, typed
    and evaluated. *)

From Stdlib Require Import String Ascii SpecFloat.
From stdpp Require Import base option list gmap sets numbers strings.
From S2P Require Import Prelude Float64 FloatFacts Bytes Chars Format Keys Calendar Grouping Values Demo PromValue PromFunctions PromMetricsql PromTypes PromLexer PromAst PromParser PromParsed PromEval PromDemo PromSound PromVectors PromEngine PromCache CustomMetrics PromStore PromIndex.

(** ** Types *)

Lemma functions_have_their_types_witness : ∃ f,
  demo_functions "rate" = Some f ∧
  (f_Name f = "rate"%string ∧ ∃ call, f_Call f = Some call ∧
    yields (f_ReturnType f) (call [Matrix demo_series] (at_time 720))).
Proof.
  exists (fn "rate" [ValueTypeMatrix] 0 ValueTypeVector funcRate).
  assert (H : demo_functions "rate" = Some (fn "rate" [ValueTypeMatrix] 0 ValueTypeVector funcRate)).
  { apply GetFunction_spec. split; [|reflexivity]. unfold registered, Functions_go. rewrite !elem_of_app. do 2 left.
    repeat first [apply list_elem_of_here | apply list_elem_of_further]. }
  split; [exact H|].
  apply (functions_have_their_types demo_sort_permutes UTC "rate" _ [Matrix demo_series] (at_time 720) H).
  - by exists [].
  - constructor; [|done]. cbn [small]. apply (bool_decide_unpack _). vm_compute. exact I.
Defined.

Definition is_parsed (r : option (result Expr)) : bool := match r with Some (Ok _) => true | _ => false end.
Lemma demo_parsed query : is_parsed (demo_parse query) = true → demo_parse query = Some (Ok (parsed_query query)).
Proof. unfold parsed_query. by destruct (demo_parse query) as [[e|m|w]|]. Qed.

Definition formed_query : string := "topk(2, rate(up[5m])) + on(job) group_left sum by (job) (up) ^ 2".
Lemma parsed_is_formed_witness : formed demo_functions 1 (parsed_query formed_query).
Proof.
  apply (parsed_is_formed demo_number demo_functions formed_query (parsed_query formed_query)), demo_parsed.
  vm_compute. reflexivity.
Defined.

(** ** Evaluation *)

Definition typed_query : string := "sum by (job) (rate(up[5m])) > bool 0".
Lemma evaluation_keeps_types_witness :
  ∃ r st', eval (parsed_query typed_query) (at_time 720) demo_series = Some (r, st') ∧ yields ValueTypeVector r.
Proof.
  apply (evaluation_keeps_types demo_visits demo_sort_permutes memory_scans demo_number UTC typed_query).
  - apply (demo_parsed typed_query). vm_compute. reflexivity.
  - vm_compute. reflexivity.
  - apply (bool_decide_unpack _). vm_compute. exact I.
  - reflexivity.
Defined.

Definition labelled (l : list (string * string)) (v : Z) : VectorSample :=
  mkVectorSample (labels_of l) (f64_of_Z v) (from_Unix 600).
Definition requests : list VectorSample := [
  labelled [("job", "api"); ("code", "500")]%string 3; labelled [("job", "web"); ("code", "200")]%string 8].
Definition totals : list VectorSample := [labelled [("job", "web")]%string 2; labelled [("job", "api")]%string 6].
Definition on_job : VectorMatching := mkVectorMatching CardManyToOne ["job"%string] true [].

Ltac clean_by_cases := apply (bool_decide_unpack _); vm_compute; exact I.

Lemma vector_matching_is_a_join_witness :
  vectorVectorBinop OpDiv requests totals (Some on_job) false =
  (let! rows := res_mapM (λ l, res_mapM (match_pair OpDiv on_job false l)
     (filter (λ r, agrees on_job (v_Labels r) (v_Labels l)) totals)) requests in
   Ok (omap id (concat rows))).
Proof. apply (vector_matching_is_a_join OpDiv requests totals (Some on_job) false); clean_by_cases. Defined.

Lemma aggregation_partitions_its_operand_witness :
  ∃ groups out,
    aggregate_value ItemSum None None ["job"%string] false (Vector (requests ++ totals)) demo_series =
      Some (Ok (Vector out), demo_series) ∧
    concat groups ≡ₚ requests ++ totals ∧
    Forall2 (λ g s, group_sample ItemSum ["job"%string] false g = Some s) groups out ∧
    (∀ g s s', g ∈ groups → s ∈ g → s' ∈ requests ++ totals →
      s' ∈ g ↔ same_group ["job"%string] false (v_Labels s) (v_Labels s')).
Proof.
  apply (aggregation_partitions_its_operand ItemSum None None ["job"%string] false (requests ++ totals) demo_series).
  - exact demo_visits.
  - reflexivity.
  - clean_by_cases.
Defined.

(** ** Range queries *)

Lemma escape_cut a b r s :
  escape_text a +:+ String "034" r = escape_text b +:+ String "034" s → a = b ∧ r = s.
Proof.
  revert b. induction a as [|x a IH]; intros [|y b] E; cbn [escape_text] in E.
  - by injection E as ->.
  - destruct (Ascii.eqb_spec y "034") as [->|Hy]; [done|]. cbn [orb] in E. destruct (Ascii.eqb y "\"); [done|].
    change (String "034" r = String y (escape_text b +:+ String "034" s)) in E. congruence.
  - destruct (Ascii.eqb_spec x "034") as [->|Hx]; [done|]. cbn [orb] in E. destruct (Ascii.eqb x "\"); [done|].
    change (String x (escape_text a +:+ String "034" r) = String "034" s) in E. congruence.
  - destruct (Ascii.eqb x "034" || Ascii.eqb x "\") eqn:Hx, (Ascii.eqb y "034" || Ascii.eqb y "\") eqn:Hy.
    + injection E as <- E. by destruct (IH b E) as [-> ->].
    + injection E as <- E. by rewrite orb_true_r in Hy.
    + injection E as -> E. by rewrite orb_true_r in Hx.
    + injection E as <- E. by destruct (IH b E) as [-> ->].
Qed.

Lemma demo_quoting : quoting demo_quote.
Proof.
  split; [by eexists|]. intros a b r s E. unfold demo_quote in E.
  change (String "034" ((escape_text a +:+ String "034" "") +:+ r) = String "034" ((escape_text b +:+ String "034" "") +:+ s)) in E.
  injection E as E. rewrite !string_app_assoc in E. by apply escape_cut.
Qed.


(** ** The tables of the store *)

(** Labels as text that can be read back when their names and values have no "=" and ",". *)
Fixpoint read_labels (s : string) (key : option string) (cur : string) (labels : Labels) : Labels :=
  match s with
  | EmptyString => labels
  | String c s =>
      match key with
      | None => if Ascii.eqb c "=" then read_labels s (Some cur) "" labels
                else read_labels s None (cur +:+ String c "") labels
      | Some k => if Ascii.eqb c "," then read_labels s None "" (<[k := cur]> labels)
                  else read_labels s key (cur +:+ String c "") labels
      end
  end.
#[export] Instance demo_encodings : Encodings := {|
  json_labels l := String.concat "" ((λ kv, kv.1 +:+ "=" +:+ kv.2 +:+ ",") <$> map_to_list l);
  unmarshal_labels s := (Some (read_labels s None "" ∅), true);
  json_names l := join "," l; unmarshal_names s := [s];
  sha256_hex s := s;
  order_by A less l := insertion_sort less l;
|}.

Definition api_labels : Labels := labels_of [("job", "api")]%string.
Definition web_labels : Labels := labels_of [("job", "web")]%string.
Definition demo_points : list (string * Labels) := [("up"%string, api_labels); ("up"%string, web_labels)].

Lemma demo_recordable : recordable demo_points.
Proof.
  split.
  - intros n t. unfold demo_points. rewrite !elem_of_cons, elem_of_nil. intros [[= -> ->]|[[= -> ->]|[]]].
    all: split; [split; apply (bool_decide_unpack _); vm_compute; exact I|]; intros _; by vm_compute.
  - intros n1 t1 n2 t2. unfold demo_points. rewrite !elem_of_cons, !elem_of_nil.
    intros [[= -> ->]|[[= -> ->]|[]]] [[= -> ->]|[[= -> ->]|[]]]; try reflexivity; intros E; vm_compute in E; discriminate.
Qed.

Definition point_of (labels : Labels) (sec v : Z) : DataPoint :=
  mkDataPoint (from_Unix sec) "up" "gauge" (f64_of_Z v) labels.
Definition new_store : Store := mkStore NewDB ∅ tt.
Definition recorded_store : Store :=
  RecordBatch None 0 [point_of web_labels 660 8; point_of api_labels 660 2]
    (Record_ None None 0 (point_of api_labels 600 1) new_store).

Lemma demo_reachable : rtc (store_step demo_points None None) new_store recorded_store.
Proof.
  eapply rtc_l; [apply step_Record|eapply rtc_l; [apply step_RecordBatch|apply rtc_refl]].
  - intros dp' E. vm_compute in E. injection E as <-. apply (bool_decide_unpack _). vm_compute. exact I.
  - apply (bool_decide_unpack _). vm_compute. exact I.
Qed.

Lemma recording_keeps_the_index_witness : indexed demo_points (db recorded_store).
Proof.
  apply (recording_keeps_the_index demo_points demo_visits demo_recordable None None ∅ tt recorded_store), demo_reachable.
Defined.

Definition job_is (job : string) : list LabelMatcher := [mkLabelMatcher MatchEqual "job" job].
Definition no_errors : statement → option string := λ _, None.
Lemma index_finds_what_a_full_scan_finds_witness : ∃ l1 l2, l1 ≡ₚ l2 ∧
  SQL_ScanRange (mkSQLMetricsStore (Some (db recorded_store)) true no_errors) "up" (job_is "api") 0 (from_Unix 700) =
    Ok (series_of (foldl (add_sample v_Timestamp) ∅ l1)) ∧
  SQL_ScanRange (mkSQLMetricsStore (Some (db recorded_store)) false no_errors) "up" (job_is "api") 0 (from_Unix 700) =
    Ok (series_of (foldl (add_sample v_Timestamp) ∅ l2)).
Proof.
  apply (index_finds_what_a_full_scan_finds demo_points demo_visits demo_recordable None None ∅ tt recorded_store).
  - exact demo_reachable.
  - intros A less l. apply insertion_sort_perm.
  - constructor; [|constructor]. intros v. by eexists.
  - constructor; [|constructor]. done.
  - reflexivity.
Defined.

(** An empty value is found by the full scan only. *)
Lemma empty_label_value :
  SQL_ScanRange (mkSQLMetricsStore (Some (db recorded_store)) true no_errors) "up" [mkLabelMatcher MatchEqual "dc" ""] 0
    (from_Unix 620) = Ok [] ∧
  SQL_ScanRange (mkSQLMetricsStore (Some (db recorded_store)) false no_errors) "up" [mkLabelMatcher MatchEqual "dc" ""] 0
    (from_Unix 620) = Ok [mkSeries (<["__name__"%string := "up"%string]> api_labels) [sample_at 600 1]].
Proof. split; vm_compute; reflexivity. Qed.

(** ** What does not go as meant *)

Definition values_of (query : string) (sec : Z) : option (list Z) :=
  match run_instant query sec with
  | Some (Ok (Vector l)) => Some ((λ s, f64_to_int (v_Value s)) <$> l)
  | Some (Ok (Scalar x _)) => Some [f64_to_int x]
  | _ => None
  end.
Definition panics (query : string) : bool :=
  match run_instant query 720 with Some (Panic _) => true | _ => false end.
Definition parse_error (query : string) : option string :=
  match demo_parse query with Some (Err e) => Some e | _ => None end.

(** At 11 minutes less ten seconds an instant query finds the samples of the tenth minute. *)
Lemma range_query_loses_the_lookback :
  values_of "up" 650 = Some [1; 3; 8] ∧
  match Engine_QueryRange demo_number demo_functions "up" (from_Unix 650) (from_Unix 650) Minute demo_series with
  | Some (Ok r, _) => Result r = Matrix []
  | _ => False
  end.
Proof. split; vm_compute; reflexivity. Qed.

Lemma set_operators_need_a_match :
  values_of "up unless missing" 720 = Some [] ∧ values_of "missing or up" 720 = Some [] ∧
  values_of "(up * 0) and up" 720 = Some [].
Proof. vm_compute. done. Qed.

Lemma promql_queries_that_panic :
  Forall (λ q, panics q = true) ["5 % 0"; "topk(-1, up)"; "rate()"; "rate(up)"; "day_of_month()"]%string.
Proof. repeat constructor. Qed.

Lemma sign_binds_tighter_than_power : values_of "-2^2" 720 = Some [4].
Proof. vm_compute. reflexivity. Qed.

Lemma negative_powers_are_one : values_of "2 ^ -1" 720 = Some [1].
Proof. vm_compute. reflexivity. Qed.

Lemma atan2_is_zero : values_of "1 atan2 1" 720 = Some [0].
Proof. vm_compute. reflexivity. Qed.

(** The counter rose from 2 to 4, from 5 to 7, and from 8 to 9. *)
Lemma increase_is_half_more : values_of "increase(up[1m])" 720 = Some [3; 3; 1].
Proof. vm_compute. reflexivity. Qed.

Lemma deviation_of_equal_values :
  match run_instant "stddev(up * 0)" 720 with Some (Ok (Vector [s])) => is_nan (v_Value s) = true | _ => False end.
Proof. vm_compute. reflexivity. Qed.

(** Two series on each side have the label. *)
Lemma one_to_one_is_not_checked : values_of "up + on(job) up" 720 = Some [8; 11; 11; 14; 18].
Proof. vm_compute. reflexivity. Qed.

Lemma rest_of_a_query_is_ignored :
  match demo_parse "rate(up[1m])[5m:1m]" with Some (Ok (Call f _ _)) => f_Name f = "rate"%string | _ => False end.
Proof. vm_compute. reflexivity. Qed.

Lemma keywords_are_no_labels :
  parse_error "sum by (end) (up)" = Some "parse error at line 1, column 9: expected label name, got end"%string.
Proof. vm_compute. reflexivity. Qed.

Lemma selectors_need_a_name :
  parse_error "{job='api'}" = Some "parse error at line 1, column 1: unexpected token {"%string.
Proof. vm_compute. reflexivity. Qed.

Lemma last_number_is_the_duration : ParseDuration demo_number "1h30" = Ok (30 * Second).
Proof. vm_compute. reflexivity. Qed.

Lemma label_replace_takes_no_expression :
  run_instant "label_replace(up, 'to', 'y', 'job', 'a.*')" 720 = run_instant "up" 720.
Proof. vm_compute. reflexivity. Qed.

(** A rule that drops every point. *)
Definition drop_all : string → Labels → bool * option Labels := λ _ _, (false, None).
Lemma batches_are_not_shaped :
  metrics (db (Record_ None (Some drop_all) 0 (point_of api_labels 600 1) new_store)) = [] ∧
  length (metrics (db (RecordBatch None 0 [point_of api_labels 600 1] new_store))) = 1%nat.
Proof. vm_compute. done. Qed.

Lemma query_ignores_its_tags :
  length (ms_Points (Query (from_Unix 700) "up" api_labels Hour (db recorded_store))) = 3%nat.
Proof. vm_compute. reflexivity. Qed.

(** A digit that is not ASCII is a number without digits, again and again. *)
#[local] Instance digits_everywhere : Unicode :=
  {| unicode_letter := λ _, false; unicode_digit := λ _, true; quote_rune := λ _, "rune" |}.
Lemma lexing_never_ends fuel : Lex fuel "٣" = None.
Proof.
  assert (H : ∀ items, lex_loop fuel items (NewLexer "٣") = None); [|apply H].
  induction fuel as [|fuel IH]; intros items; [done|]. cbn [lex_loop].
  replace (NextItem (NewLexer "٣")) with (mkItem ItemNumber (mkPos 0 1 1) "", NewLexer "٣") by (vm_compute; reflexivity).
  apply IH.
Qed.
