(* ===== verification/DataShaping.v ===== *)
(** Data shaping (internal/datashaping): rules that drop, sample or rewrite data before it is
    stored, the engine that holds them in the order of their priorities (rules.go), the
    table they are kept in (store.go), and the adapter that lets the store of metrics ask
    the engine (cmd/dogwatch/main.go). *)

From Stdlib Require Import String.
From stdpp Require Import base option list numbers gmap strings sorting.
From S2P Require Import Prelude Float64 Values PromValue CustomMetrics.

(** ** Data *)

Abbreviation RuleAction := string (only parsing).
Definition ActionDrop : RuleAction := "drop".
Definition ActionSample : RuleAction := "sample".
Definition ActionAggregate : RuleAction := "aggregate".
Definition ActionKeep : RuleAction := "keep".
Definition ActionTransform : RuleAction := "transform".

Abbreviation DataType := string (only parsing).
Definition DataTypeMetric : DataType := "metric".
Definition DataTypeLog : DataType := "log".
Definition DataTypeTrace : DataType := "trace".
Definition DataTypeAll : DataType := "all".

Section shaping.
Context {RT : Runtime}.

(** The compiled patterns are the last three fields; [None] is a nil expression. *)
Record Rule := mkRule {
  ID : string; Name : string; Description : string; Enabled : bool; Priority : Z;
  r_DataType : DataType; Action : RuleAction;
  NamePattern : string; TagMatches : gmap string string; TagPatterns : gmap string string;
  LevelMatch : string; ServiceMatch : string;
  SampleRate : float64; AggregateBy : list string; DropTags : list string; AddTags : gmap string string;
  CreatedAt : Time; UpdatedAt : Time; CreatedBy : string;
  nameRegex : option Regexp; tagRegexes : gmap string Regexp; serviceRegex : option Regexp }.

Record RuleStats := mkRuleStats {
  rs_RuleID : string; rs_RuleName : string; rs_TotalMatched : Z; rs_TotalDropped : Z; rs_TotalSampled : Z;
  rs_TotalKept : Z; rs_BytesSaved : Z; rs_LastMatched : Time }.

(** Of [RuleStats], the map of the statistics of rules, see [Engine]. *)
Record EngineStats := mkEngineStats {
  TotalProcessed : Z; TotalDropped : Z; TotalSampled : Z; TotalTransformed : Z; TotalKept : Z; BytesSavedEst : Z;
  es_RuleStats : gmap string RuleStats; ProcessedByType : gmap string Z; DroppedByType : gmap string Z }.

Record Decision := mkDecision {
  d_Action : RuleAction; d_RuleID : string; d_RuleName : string; d_SampleRate : float64;
  d_DropTags : list string; d_AddTags : gmap string string; d_AggregateBy : list string }.

(** The maps [ruleStats] and [stats.RuleStats] hold the same pointers: what is written through
    one is written in both. *)
Record Engine := mkEngine {
  rules : list Rule; stats : EngineStats; ruleStats : gmap string RuleStats; sampleCounter : Z }.

Definition NoStats : EngineStats := mkEngineStats 0 0 0 0 0 0 ∅ ∅ ∅.
Definition NewEngine : Engine := mkEngine [] NoStats ∅ 0.

Definition with_rules (rs : list Rule) (e : Engine) : Engine := mkEngine rs (stats e) (ruleStats e) (sampleCounter e).
Definition with_stats (st : EngineStats) (e : Engine) : Engine := mkEngine (rules e) st (ruleStats e) (sampleCounter e).

(** What a function of the map of rule statistics does to both maps. *)
Definition upd_rule_stats (f : gmap string RuleStats → gmap string RuleStats) (e : Engine) : Engine :=
  let st := stats e in
  mkEngine (rules e)
    (mkEngineStats (TotalProcessed st) (TotalDropped st) (TotalSampled st) (TotalTransformed st) (TotalKept st)
       (BytesSavedEst st) (f (es_RuleStats st)) (ProcessedByType st) (DroppedByType st))
    (f (ruleStats e)) (sampleCounter e).

(** ** Rules *)

(** A pattern that is not empty is compiled; else the field stays what it was. *)
Definition compile_pattern (pattern : string) (old : option Regexp) : result (option Regexp) :=
  if String.eqb pattern "" then Ok old
  else match regexp_Compile pattern with inl re => Ok (Some re) | inr e => Err e end.
Fixpoint compile_tags (patterns : list (string * string)) (m : gmap string Regexp) : result (gmap string Regexp) :=
  match patterns with
  | [] => Ok m
  | (k, v) :: patterns =>
      match regexp_Compile v with inl re => compile_tags patterns (<[k := re]> m) | inr e => Err e end
  end.
Definition with_regexes (name : option Regexp) (tags : gmap string Regexp) (service : option Regexp) (r : Rule) : Rule :=
  mkRule (ID r) (Name r) (Description r) (Enabled r) (Priority r) (r_DataType r) (Action r) (NamePattern r)
    (TagMatches r) (TagPatterns r) (LevelMatch r) (ServiceMatch r) (SampleRate r) (AggregateBy r) (DropTags r)
    (AddTags r) (CreatedAt r) (UpdatedAt r) (CreatedBy r) name tags service.

(** A rule that does not compile is not used, so that what was compiled of it is left out. *)
Definition compile (r : Rule) : result Rule :=
  let! name := compile_pattern (NamePattern r) (nameRegex r) in
  let! service := compile_pattern (ServiceMatch r) (serviceRegex r) in
  let! tags := compile_tags (map_order (TagPatterns r)) ∅ in
  Ok (with_regexes name tags service r).

Definition unmatched (re : option Regexp) (s : string) : bool :=
  match re with Some re => negb (MatchString re s) | None => false end.
Definition matches (r : Rule) (dataType name : string) (tags : gmap string string) (level service : string) : bool :=
  if negb (String.eqb (r_DataType r) DataTypeAll) && negb (String.eqb (r_DataType r) dataType) then false
  else if unmatched (nameRegex r) name then false
  else if unmatched (serviceRegex r) service then false
  else if negb (String.eqb (LevelMatch r) "") && negb (String.eqb (LevelMatch r) level) then false
  else if negb (forallb (λ kv, String.eqb (default "" (tags !! kv.1)) kv.2) (map_order (TagMatches r))) then false
  else forallb (λ kv, match tags !! kv.1 with Some v => MatchString kv.2 v | None => false end)
         (map_order (tagRegexes r)).

(** ** The order of rules *)

Definition swap (i j : nat) (l : list Rule) : list Rule :=
  match l !! i, l !! j with Some a, Some b => <[i := b]> (<[j := a]> l) | _, _ => l end.
Definition exchange (i : nat) (l : list Rule) (j : nat) : list Rule :=
  match l !! i, l !! j with
  | Some a, Some b => if Priority b <? Priority a then swap i j l else l
  | _, _ => l
  end.
(** The loops over [i < len-1] and [i+1 ≤ j < len]. *)
Definition sort_step (l : list Rule) (i : nat) : list Rule :=
  foldl (exchange i) l (seq (S i) (length l - S i)).
Definition sortRulesLocked (l : list Rule) : list Rule := foldl sort_step l (seq 0 (length l - 1)).

(** ** Adding and removing *)

Definition removeRuleLocked (id : string) (e : Engine) : bool * Engine :=
  match list_find (λ r, ID r = id) (rules e) with
  | Some (i, _) => (true, upd_rule_stats (delete id) (with_rules (take i (rules e) ++ drop (S i) (rules e)) e))
  | None => (false, e)
  end.
Definition RemoveRule : string → Engine → bool * Engine := removeRuleLocked.

Definition fresh_stats (id name : string) : RuleStats := mkRuleStats id name 0 0 0 0 0 zero_time.
Definition AddRule (rule : Rule) (e : Engine) : result Engine :=
  let! rule := compile rule in
  let e := (removeRuleLocked (ID rule) e).2 in
  let e := with_rules (sortRulesLocked (rules e ++ [rule])) e in
  Ok (upd_rule_stats <[ID rule := fresh_stats (ID rule) (Name rule)]> e).

Definition GetRules (e : Engine) : list Rule := rules e.
Definition GetRule (id : string) (e : Engine) : option Rule := find (λ r, String.eqb (ID r) id) (rules e).

(** A rule is a pointer: who gets it can write to the rule of the engine. *)
Definition with_enabled (b : bool) (r : Rule) : Rule :=
  mkRule (ID r) (Name r) (Description r) b (Priority r) (r_DataType r) (Action r) (NamePattern r)
    (TagMatches r) (TagPatterns r) (LevelMatch r) (ServiceMatch r) (SampleRate r) (AggregateBy r) (DropTags r)
    (AddTags r) (CreatedAt r) (UpdatedAt r) (CreatedBy r) (nameRegex r) (tagRegexes r) (serviceRegex r).
Definition set_enabled (id : string) (b : bool) (e : Engine) : Engine :=
  match list_find (λ r, ID r = id) (rules e) with
  | Some (i, r) => with_rules (<[i := with_enabled b r]> (rules e)) e
  | None => e
  end.

(** ** Decisions *)

Definition f64_one : float64 := f64_of_Z 1.
(** [uint64(rate*100)], of a rate between 0 and 1. *)
Definition threshold (rate : float64) : Z := f64_to_int (f64_mul rate (f64_of_Z 100)).
Definition ShouldSample (rate : float64) (e : Engine) : bool * Engine :=
  if f64_ge rate f64_one then (true, e)
  else if f64_le rate f64_zero then (false, e)
  else
    let counter := uwrap64 (sampleCounter e + 1) in
    (counter mod 100 <? threshold rate, mkEngine (rules e) (stats e) (ruleStats e) counter).

Definition decide_keep : Decision := mkDecision ActionKeep "" "" f64_zero [] ∅ [].
Definition applyRule (rule : Rule) (sizeBytes : Z) (e : Engine) : Decision * Engine :=
  let plain := mkDecision (Action rule) (ID rule) (Name rule) f64_zero [] ∅ [] in
  if String.eqb (Action rule) ActionSample then
    let '(kept, e) := ShouldSample (SampleRate rule) e in
    (mkDecision (if kept : bool then Action rule else ActionDrop) (ID rule) (Name rule) (SampleRate rule) [] ∅ [], e)
  else if String.eqb (Action rule) ActionTransform then
    (mkDecision (Action rule) (ID rule) (Name rule) f64_zero (DropTags rule) (AddTags rule) [], e)
  else if String.eqb (Action rule) ActionAggregate then
    (mkDecision (Action rule) (ID rule) (Name rule) f64_zero [] ∅ (AggregateBy rule), e)
  else (plain, e).

Definition incr (z : Z) : Z := wrap64 (z + 1).
Definition incr_at (k : string) (m : gmap string Z) : gmap string Z := <[k := incr (default 0 (m !! k))]> m.

Definition count_processed (dataType : DataType) (st : EngineStats) : EngineStats :=
  mkEngineStats (incr (TotalProcessed st)) (TotalDropped st) (TotalSampled st) (TotalTransformed st) (TotalKept st)
    (BytesSavedEst st) (es_RuleStats st) (incr_at dataType (ProcessedByType st)) (DroppedByType st).

(** The statistics of the rule that decided. *)
Definition count_rule (now : Time) (action : RuleAction) (sizeBytes : Z) (s : RuleStats) : RuleStats :=
  let s := mkRuleStats (rs_RuleID s) (rs_RuleName s) (incr (rs_TotalMatched s)) (rs_TotalDropped s)
             (rs_TotalSampled s) (rs_TotalKept s) (rs_BytesSaved s) now in
  if String.eqb action ActionDrop then
    mkRuleStats (rs_RuleID s) (rs_RuleName s) (rs_TotalMatched s) (incr (rs_TotalDropped s))
      (rs_TotalSampled s) (rs_TotalKept s) (wrap64 (rs_BytesSaved s + sizeBytes)) (rs_LastMatched s)
  else if String.eqb action ActionSample then
    mkRuleStats (rs_RuleID s) (rs_RuleName s) (rs_TotalMatched s) (rs_TotalDropped s)
      (incr (rs_TotalSampled s)) (rs_TotalKept s) (rs_BytesSaved s) (rs_LastMatched s)
  else if String.eqb action ActionKeep then
    mkRuleStats (rs_RuleID s) (rs_RuleName s) (rs_TotalMatched s) (rs_TotalDropped s)
      (rs_TotalSampled s) (incr (rs_TotalKept s)) (rs_BytesSaved s) (rs_LastMatched s)
  else s.

(** The statistics of the engine. *)
Definition count_decision (dataType : DataType) (action : RuleAction) (sizeBytes : Z) (st : EngineStats) : EngineStats :=
  if String.eqb action ActionDrop then
    mkEngineStats (TotalProcessed st) (incr (TotalDropped st)) (TotalSampled st) (TotalTransformed st) (TotalKept st)
      (wrap64 (BytesSavedEst st + sizeBytes)) (es_RuleStats st) (ProcessedByType st)
      (incr_at dataType (DroppedByType st))
  else if String.eqb action ActionSample then
    mkEngineStats (TotalProcessed st) (TotalDropped st) (incr (TotalSampled st)) (TotalTransformed st) (TotalKept st)
      (BytesSavedEst st) (es_RuleStats st) (ProcessedByType st) (DroppedByType st)
  else if String.eqb action ActionTransform then
    mkEngineStats (TotalProcessed st) (TotalDropped st) (TotalSampled st) (incr (TotalTransformed st)) (TotalKept st)
      (BytesSavedEst st) (es_RuleStats st) (ProcessedByType st) (DroppedByType st)
  else if String.eqb action ActionKeep then
    mkEngineStats (TotalProcessed st) (TotalDropped st) (TotalSampled st) (TotalTransformed st) (incr (TotalKept st))
      (BytesSavedEst st) (es_RuleStats st) (ProcessedByType st) (DroppedByType st)
  else st.

(** What is asked of the engine. *)
Record Query := mkQuery {
  q_dataType : DataType; q_name : string; q_tags : gmap string string; q_level : string; q_service : string;
  q_sizeBytes : Z }.

Definition applies (q : Query) (r : Rule) : bool :=
  Enabled r && matches r (q_dataType q) (q_name q) (q_tags q) (q_level q) (q_service q).

(** The loop ends at the first rule that is enabled and matches. *)
Definition Evaluate (now : Time) (q : Query) (e : Engine) : Decision * Engine :=
  let e := with_stats (count_processed (q_dataType q) (stats e)) e in
  let '(decision, e) :=
    match find (applies q) (rules e) with
    | Some rule =>
        let '(decision, e) := applyRule rule (q_sizeBytes q) e in
        (decision, upd_rule_stats (alter (count_rule now (d_Action decision) (q_sizeBytes q)) (ID rule)) e)
    | None => (decide_keep, e)
    end in
  (decision, with_stats (count_decision (q_dataType q) (d_Action decision) (q_sizeBytes q) (stats e)) e).

Definition EvaluateMetric (now : Time) (name : string) (tags : gmap string string) (sizeBytes : Z) :=
  Evaluate now (mkQuery DataTypeMetric name tags "" "" sizeBytes).
Definition EvaluateLog (now : Time) (service level : string) (tags : gmap string string) (sizeBytes : Z) :=
  Evaluate now (mkQuery DataTypeLog "" tags level service sizeBytes).
Definition EvaluateTrace (now : Time) (service : string) (tags : gmap string string) (sizeBytes : Z) :=
  Evaluate now (mkQuery DataTypeTrace "" tags "" service sizeBytes).

(** The copy has the statistics of the rules in [ruleStats]. *)
Definition GetStats (e : Engine) : EngineStats :=
  let st := stats e in
  mkEngineStats (TotalProcessed st) (TotalDropped st) (TotalSampled st) (TotalTransformed st) (TotalKept st)
    (BytesSavedEst st) (ruleStats e) (ProcessedByType st) (DroppedByType st).

Definition ResetStats (e : Engine) : Engine :=
  let fresh := (λ s, fresh_stats (rs_RuleID s) (rs_RuleName s)) <$> ruleStats e in
  mkEngine (rules e) (mkEngineStats 0 0 0 0 0 0 fresh ∅ ∅) fresh (sampleCounter e).

(** *** Common rules *)

Definition common_rule (now : Time) (id name : string) (dataType : DataType) (action : RuleAction) (namePattern : string)
    (rate : float64) (dropTags : list string) : Rule :=
  mkRule id name "" true 100 dataType action namePattern ∅ ∅ "" "" rate [] dropTags ∅ now now "" None ∅ None.
Definition NewDropRule (now : Time) (id name : string) (dataType : DataType) (namePattern : string) : Rule :=
  common_rule now id name dataType ActionDrop namePattern f64_zero [].
Definition NewSampleRule (now : Time) (id name : string) (dataType : DataType) (namePattern : string) (rate : float64) : Rule :=
  common_rule now id name dataType ActionSample namePattern rate [].
Definition NewDropTagRule (now : Time) (id name : string) (dataType : DataType) (namePattern : string)
    (dropTags : list string) : Rule :=
  common_rule now id name dataType ActionTransform namePattern f64_zero dropTags.
End shaping.
