(* ===== verification/ShapingSpec.v ===== *)
(** What data shaping promises, and that the engine of DataShaping.v keeps it: the engine is a
    table of rules, a decision is that of an enabled rule that selects the data and has the
    least priority, the statistics tally the decisions, and sampling keeps its share. *)

From Stdlib Require Import String.
From stdpp Require Import base option list numbers gmap strings sorting relations.
From S2P Require Import Prelude Float64 Values DataShaping.

(** ** The exchange sort *)

Section sorting.
Context {RT : Runtime}.

Definition below (a b : Rule) : Prop := Priority a ≤ Priority b.

(** Positions before [i] hold what is no greater than anything after them. *)
Definition sorted_upto (i : nat) (l : list Rule) : Prop :=
  ∀ a b x y, (a < b)%nat → (a < i)%nat → l !! a = Some x → l !! b = Some y → below x y.
(** Position [i] holds what is no greater than what is between [i] and [j]. *)
Definition least_upto (i j : nat) (l : list Rule) : Prop :=
  ∀ k x y, (i < k < j)%nat → l !! i = Some x → l !! k = Some y → below x y.

Lemma swap_perm i j l : swap i j l ≡ₚ l.
Proof.
  unfold swap. destruct (l !! i) as [a|] eqn:Ha; [|done]. destruct (l !! j) as [b|] eqn:Hb; [|done].
  by apply Permutation_insert_swap.
Qed.
Lemma exchange_perm i l j : exchange i l j ≡ₚ l.
Proof.
  unfold exchange. destruct (l !! i); [|done]. destruct (l !! j); [|done]. case_match; [apply swap_perm|done].
Qed.

Lemma lookup_swap i j l a b k : (i < j)%nat → l !! i = Some a → l !! j = Some b →
  swap i j l !! k = if decide (k = i) then Some b else if decide (k = j) then Some a else l !! k.
Proof.
  intros Hij Ha Hb. unfold swap. rewrite Ha, Hb.
  pose proof (lookup_lt_Some _ _ _ Ha). pose proof (lookup_lt_Some _ _ _ Hb).
  repeat case_decide; subst.
  - rewrite list_lookup_insert_eq; [done|]. rewrite length_insert. lia.
  - rewrite list_lookup_insert_ne, list_lookup_insert_eq; [done|lia|lia].
  - by rewrite !list_lookup_insert_ne by lia.
Qed.

Lemma exchange_sorted i j l : (i < j < length l)%nat → sorted_upto i l → least_upto i j l →
  sorted_upto i (exchange i l j) ∧ least_upto i (S j) (exchange i l j).
Proof.
  intros Hj Hs Hl. unfold exchange.
  destruct (lookup_lt_is_Some_2 l i ltac:(lia)) as [a Ha]. destruct (lookup_lt_is_Some_2 l j ltac:(lia)) as [b Hb].
  rewrite Ha, Hb. destruct (Priority b <? Priority a) eqn:E.
  - split.
    + intros p q x y Hpq Hp. rewrite !(lookup_swap i j l a b) by (done || lia).
      rewrite (decide_False (P := p = i)), (decide_False (P := p = j)) by lia. intros Hx Hy.
      repeat case_decide; simplify_eq; [apply (Hs p j)|apply (Hs p i)|apply (Hs p q)]; done || lia.
    + intros k x y Hk. rewrite !(lookup_swap i j l a b) by (done || lia).
      rewrite (decide_True (P := i = i)) by done. rewrite (decide_False (P := k = i)) by lia.
      intros [= <-]. case_decide; [intros [= <-]; unfold below; lia|]. intros Hy.
      assert (below a y) by (apply (Hl k); [lia|done|done]). unfold below in *. lia.
  - split; [done|]. intros k x y Hk Hx Hy. simplify_eq. destruct (decide (k = j)) as [->|].
    + simplify_eq. unfold below. lia.
    + apply (Hl k); [lia|done|done].
Qed.

Lemma exchange_length i l j : length (exchange i l j) = length l.
Proof. by rewrite exchange_perm. Qed.

Lemma exchanges_sorted i n j l : (i < j)%nat → (j + n = length l)%nat → sorted_upto i l → least_upto i j l →
  let l' := foldl (exchange i) l (seq j n) in l' ≡ₚ l ∧ sorted_upto i l' ∧ least_upto i (j + n) l'.
Proof.
  revert j l. induction n as [|n IH]; intros j l Hij Hn Hs Hl l'.
  - subst l'. cbn. by rewrite Nat.add_0_r.
  - subst l'. cbn [seq foldl]. destruct (exchange_sorted i j l ltac:(lia) Hs Hl) as [Hs' Hl'].
    destruct (IH (S j) (exchange i l j)) as (Hp & H1 & H2); [lia|rewrite exchange_length; lia|done|done|].
    rewrite <- Nat.add_succ_comm. split_and!; [by rewrite Hp, exchange_perm|done|done].
Qed.

Lemma sort_step_sorted i l : (i < length l)%nat → sorted_upto i l →
  sort_step l i ≡ₚ l ∧ sorted_upto (S i) (sort_step l i).
Proof.
  intros Hi Hs. unfold sort_step.
  destruct (exchanges_sorted i (length l - S i) (S i) l) as (Hp & H1 & H2); [lia|lia|done|intros k x y; lia|].
  split; [done|]. intros a b x y Hab Ha Hx Hy. destruct (decide (a = i)) as [->|]; [|apply (H1 a b); done || lia].
  apply (H2 b); [|done|done]. apply lookup_lt_Some in Hy. rewrite Hp in Hy. lia.
Qed.

Lemma sort_steps_sorted n i l : (i + n < length l ∨ n = 0)%nat → sorted_upto i l →
  let l' := foldl sort_step l (seq i n) in l' ≡ₚ l ∧ sorted_upto (i + n) l'.
Proof.
  revert i l. induction n as [|n IH]; intros i l Hn Hs l'; subst l'.
  - cbn. by rewrite Nat.add_0_r.
  - cbn [seq foldl]. destruct (sort_step_sorted i l ltac:(lia) Hs) as [Hp Hs'].
    destruct (IH (S i) (sort_step l i)) as [Hp' Hs'']; [rewrite Hp; lia|done|].
    split; [by rewrite Hp'|]. by rewrite <- Nat.add_succ_comm.
Qed.

Lemma sorted_by_position l :
  (∀ a b x y, (a < b)%nat → l !! a = Some x → l !! b = Some y → below x y) → StronglySorted below l.
Proof.
  induction l as [|x l IH]; intros H; constructor.
  - apply IH. intros a b y z Hab. apply (H (S a) (S b)). lia.
  - apply Forall_lookup. intros i y Hy. by apply (H 0%nat (S i)); [lia| |].
Qed.

Lemma sort_sorts l : sortRulesLocked l ≡ₚ l ∧ StronglySorted below (sortRulesLocked l).
Proof.
  unfold sortRulesLocked. destruct (sort_steps_sorted (length l - 1) 0 l) as [Hp Hs]; [lia|intros a b x y; lia|].
  split; [done|]. set (l' := foldl sort_step l _) in *. apply Permutation_length in Hp. rewrite <- Hp in Hs.
  clearbody l'. clear Hp l. apply sorted_by_position. intros a b x y Hab Hx Hy.
  apply (Hs a b); [done| |done|done]. apply lookup_lt_Some in Hy. lia.
Qed.
End sorting.

(** ** The specification: a table of rules *)

Section specification.
Context {RT : Runtime}.

Definition accepts (pattern s : string) : Prop := ∃ re, regexp_Compile pattern = inl re ∧ MatchString re s = true.

(** A rule selects the data it is written for: what it leaves empty it does not ask. *)
Record selects (q : Query) (r : Rule) : Prop := {
  sel_type : r_DataType r = DataTypeAll ∨ r_DataType r = q_dataType q;
  sel_name : NamePattern r = ""%string ∨ accepts (NamePattern r) (q_name q);
  sel_service : ServiceMatch r = ""%string ∨ accepts (ServiceMatch r) (q_service q);
  sel_level : LevelMatch r = ""%string ∨ LevelMatch r = q_level q;
  sel_tags k v : TagMatches r !! k = Some v → default "" (q_tags q !! k) = v;
  sel_patterns k p : TagPatterns r !! k = Some p → ∃ v, q_tags q !! k = Some v ∧ accepts p v;
}.

(** What a rule decides; a rule that samples drops what it does not keep. *)
Inductive decides (r : Rule) : Decision → Prop :=
| decides_sampled (kept : bool) : Action r = ActionSample →
    decides r (mkDecision (if kept then ActionSample else ActionDrop) (ID r) (Name r) (SampleRate r) [] ∅ [])
| decides_transform : Action r = ActionTransform →
    decides r (mkDecision ActionTransform (ID r) (Name r) f64_zero (DropTags r) (AddTags r) [])
| decides_aggregate : Action r = ActionAggregate →
    decides r (mkDecision ActionAggregate (ID r) (Name r) f64_zero [] ∅ (AggregateBy r))
| decides_plain : Action r ≠ ActionSample → Action r ≠ ActionTransform → Action r ≠ ActionAggregate →
    decides r (mkDecision (Action r) (ID r) (Name r) f64_zero [] ∅ []).

(** All the patterns of a rule compile. *)
Record compiles (r : Rule) : Prop := {
  com_name : NamePattern r = ""%string ∨ ∃ re, regexp_Compile (NamePattern r) = inl re;
  com_service : ServiceMatch r = ""%string ∨ ∃ re, regexp_Compile (ServiceMatch r) = inl re;
  com_tags k p : TagPatterns r !! k = Some p → ∃ re, regexp_Compile p = inl re;
}.

Inductive Op :=
| OpAdd (r : Rule)
| OpRemove (id : string)
| OpEnable (id : string) (b : bool)
| OpEvaluate (now : Time) (q : Query)
| OpReset.
Inductive Answer := Done | Refused (e : string) | Removed (b : bool) | Decided (d : Decision).

(** The operations on a table of rules under their identifiers. *)
Inductive table_step (T : gmap string Rule) : Op → Answer → gmap string Rule → Prop :=
| table_add r : compiles r → table_step T (OpAdd r) Done (<[ID r := r]> T)
| table_refuse r e : ¬ compiles r → table_step T (OpAdd r) (Refused e) T
| table_remove id : table_step T (OpRemove id) (Removed (bool_decide (is_Some (T !! id)))) (delete id T)
| table_enable id b : table_step T (OpEnable id b) Done (alter (with_enabled b) id T)
| table_decide now q id r d :
    T !! id = Some r → Enabled r = true → selects q r →
    (∀ id' r', T !! id' = Some r' → Enabled r' = true → selects q r' → Priority r ≤ Priority r') →
    decides r d → table_step T (OpEvaluate now q) (Decided d) T
| table_default now q :
    (∀ id r, T !! id = Some r → Enabled r = true → ¬ selects q r) →
    table_step T (OpEvaluate now q) (Decided decide_keep) T
| table_reset : table_step T OpReset Done T.

Inductive table_run : gmap string Rule → list Op → list Answer → gmap string Rule → Prop :=
| table_run_nil T : table_run T [] [] T
| table_run_cons T T' T'' op ops a answers :
    table_step T op a T' → table_run T' ops answers T'' → table_run T (op :: ops) (a :: answers) T''.

(** The operations on the engine. *)
Definition step (op : Op) (e : Engine) : Answer * Engine :=
  match op with
  | OpAdd r => match AddRule r e with Ok e' => (Done, e') | Err m => (Refused m, e) | Panic m => (Refused m, e) end
  | OpRemove id => let '(b, e') := RemoveRule id e in (Removed b, e')
  | OpEnable id b => (Done, set_enabled id b e)
  | OpEvaluate now q => let '(d, e') := Evaluate now q e in (Decided d, e')
  | OpReset => (Done, ResetStats e)
  end.
Fixpoint steps (ops : list Op) (e : Engine) : list Answer * Engine :=
  match ops with
  | [] => ([], e)
  | op :: ops => let '(a, e) := step op e in let '(answers, e) := steps ops e in (a :: answers, e)
  end.

(** A rule as it is written, without what was compiled of it; rules are added so. *)
Definition source (r : Rule) : Rule := with_regexes None ∅ None r.
Definition written (op : Op) : Prop := match op with OpAdd r => source r = r | _ => True end.

Definition table_of (l : list Rule) : gmap string Rule := list_to_map ((λ r, (ID r, source r)) <$> l).
Definition table (e : Engine) : gmap string Rule := table_of (rules e).

(** ** Compiled rules *)

Definition compiled_pattern (pattern : string) (re : option Regexp) : Prop :=
  if String.eqb pattern "" then re = None else ∃ x, re = Some x ∧ regexp_Compile pattern = inl x.
Record compiled (r : Rule) : Prop := {
  cd_name : compiled_pattern (NamePattern r) (nameRegex r);
  cd_service : compiled_pattern (ServiceMatch r) (serviceRegex r);
  cd_tags k : match TagPatterns r !! k with
              | Some p => ∃ re, tagRegexes r !! k = Some re ∧ regexp_Compile p = inl re
              | None => tagRegexes r !! k = None
              end;
}.

Lemma compile_pattern_spec pattern :
  match compile_pattern pattern None with
  | Ok re => compiled_pattern pattern re
  | _ => pattern ≠ ""%string ∧ ∀ re, regexp_Compile pattern ≠ inl re
  end.
Proof.
  unfold compile_pattern, compiled_pattern. destruct (String.eqb_spec pattern "") as [->|Hp]; [done|].
  destruct (regexp_Compile pattern) as [re|e]; [eauto|done].
Qed.

Lemma compile_tags_spec l : NoDup l.*1 → ∀ m, (∀ k, k ∈ l.*1 → m !! k = None) →
  match compile_tags l m with
  | Ok m' => ∀ k, match (list_to_map l : gmap string string) !! k with
                  | Some p => ∃ re, m' !! k = Some re ∧ regexp_Compile p = inl re
                  | None => m' !! k = m !! k
                  end
  | _ => ∃ k p, (k, p) ∈ l ∧ ∀ re, regexp_Compile p ≠ inl re
  end.
Proof.
  induction l as [|[k p] l IH]; intros Hl m Hm; [done|]. cbn [compile_tags fmap list_fmap fst] in *.
  apply NoDup_cons in Hl as [Hk Hl]. destruct (regexp_Compile p) as [re|e] eqn:Hc.
  - specialize (IH Hl (<[k := re]> m)).
    assert (Hfresh : ∀ j, j ∈ l.*1 → <[k := re]> m !! j = None).
    { intros j Hj. rewrite lookup_insert_ne by (intros ->; done). apply Hm. by constructor. }
    specialize (IH Hfresh). destruct (compile_tags l _) as [m'|e|e].
    + intros k'. specialize (IH k'). cbn [list_to_map foldr uncurry fst snd].
      destruct (decide (k' = k)) as [->|].
      * rewrite lookup_insert_eq. rewrite (not_elem_of_list_to_map_1 l k Hk), lookup_insert_eq in IH. eauto.
      * rewrite lookup_insert_ne by done. rewrite (lookup_insert_ne m) in IH by done. done.
    + destruct IH as (k' & p' & ? & ?). exists k', p'. split; [by constructor|done].
    + destruct IH as (k' & p' & ? & ?). exists k', p'. split; [by constructor|done].
  - exists k, p. split; [constructor|congruence].
Qed.

Context (Hvisits : visits_maps).

Lemma visited_keys {A} (m : gmap string A) : NoDup (map_order m).*1.
Proof. rewrite (Hvisits A m). apply NoDup_fst_map_to_list. Qed.
Lemma visited_elem {A} (m : gmap string A) k x : (k, x) ∈ map_order m ↔ m !! k = Some x.
Proof. rewrite (Hvisits A m). apply elem_of_map_to_list. Qed.
Lemma visited_map {A} (m : gmap string A) : list_to_map (map_order m) = m.
Proof.
  rewrite (list_to_map_proper (map_order m) (map_to_list m)); [apply list_to_map_to_list|apply visited_keys|apply Hvisits].
Qed.

Lemma compile_spec r : source r = r →
  match compile r with
  | Ok r' => compiles r ∧ compiled r' ∧ source r' = r
  | _ => ¬ compiles r
  end.
Proof.
  intros Hr. assert (nameRegex r = None ∧ serviceRegex r = None) as [Hn Hs] by (rewrite <- Hr; done).
  unfold compile. rewrite Hn, Hs.
  pose proof (compile_pattern_spec (NamePattern r)) as H1.
  destruct (compile_pattern (NamePattern r) None) as [n|e|e]; cbn [res_bind];
    [|destruct H1 as [H1 H1']; intros [[?|[re ?]] _ _]; [done|by eapply H1']..].
  pose proof (compile_pattern_spec (ServiceMatch r)) as H2.
  destruct (compile_pattern (ServiceMatch r) None) as [s|e|e]; cbn [res_bind];
    [|destruct H2 as [H2 H2']; intros [_ [?|[re ?]] _]; [done|by eapply H2']..].
  pose proof (compile_tags_spec (map_order (TagPatterns r)) (visited_keys _) ∅ (λ k _, lookup_empty k)) as H3.
  destruct (compile_tags _ ∅) as [t|e|e]; cbn [res_bind];
    [|destruct H3 as (k & p & H3%visited_elem & H3'); intros [_ _ H]; destruct (H _ _ H3); by eapply H3'..].
  rewrite visited_map in H3. split_and!.
  - split.
    + unfold compiled_pattern in H1. destruct (String.eqb_spec (NamePattern r) ""); [by left|]. destruct H1 as (x & _ & ?). eauto.
    + unfold compiled_pattern in H2. destruct (String.eqb_spec (ServiceMatch r) ""); [by left|]. destruct H2 as (x & _ & ?). eauto.
    + intros k p Hk. specialize (H3 k). rewrite Hk in H3. destruct H3 as (re & _ & ?). eauto.
  - split; [done|done|]. intros k. cbn. specialize (H3 k). destruct (TagPatterns r !! k); [done|by rewrite H3].
  - rewrite <- Hr at 2. done.
Qed.

Lemma unmatched_spec pattern re s : compiled_pattern pattern re →
  unmatched re s = false ↔ pattern = ""%string ∨ accepts pattern s.
Proof.
  unfold compiled_pattern, unmatched, accepts. destruct (String.eqb_spec pattern "") as [->|Hp].
  - intros ->. split; auto.
  - intros (x & -> & Hx). rewrite negb_false_iff. split; [eauto|]. intros [?|(y & Hy & ?)]; [done|]. congruence.
Qed.

(** What is compiled selects what is written. *)
Lemma matches_selects q r : compiled r →
  matches r (q_dataType q) (q_name q) (q_tags q) (q_level q) (q_service q) = true ↔ selects q r.
Proof.
  intros [Hn Hs Ht]. unfold matches.
  assert (Hty : negb (String.eqb (r_DataType r) DataTypeAll) && negb (String.eqb (r_DataType r) (q_dataType q)) = false
                ↔ r_DataType r = DataTypeAll ∨ r_DataType r = q_dataType q).
  { destruct (String.eqb_spec (r_DataType r) DataTypeAll), (String.eqb_spec (r_DataType r) (q_dataType q)); naive_solver. }
  assert (Hlv : negb (String.eqb (LevelMatch r) "") && negb (String.eqb (LevelMatch r) (q_level q)) = false
                ↔ LevelMatch r = ""%string ∨ LevelMatch r = q_level q).
  { destruct (String.eqb_spec (LevelMatch r) ""), (String.eqb_spec (LevelMatch r) (q_level q)); naive_solver. }
  assert (Htg : forallb (λ kv, String.eqb (default "" (q_tags q !! kv.1)) kv.2) (map_order (TagMatches r)) = true
                ↔ ∀ k v, TagMatches r !! k = Some v → default "" (q_tags q !! k) = v).
  { rewrite forallb_forall. split.
    - intros H k v Hk%visited_elem%list_elem_of_In. by apply (H (k, v)) in Hk as Hk%String.eqb_eq.
    - intros H [k v] Hk%list_elem_of_In%visited_elem. apply String.eqb_eq. by apply H. }
  assert (Htp : forallb (λ kv, match q_tags q !! kv.1 with Some v => MatchString kv.2 v | None => false end)
                  (map_order (tagRegexes r)) = true
                ↔ ∀ k p, TagPatterns r !! k = Some p → ∃ v, q_tags q !! k = Some v ∧ accepts p v).
  { rewrite forallb_forall. split.
    - intros H k p Hk. specialize (Ht k). rewrite Hk in Ht. destruct Ht as (re & Hre & Hc).
      apply visited_elem, list_elem_of_In, H in Hre. cbn [fst snd] in Hre.
      destruct (q_tags q !! k) as [v|]; [|done]. exists v. split; [done|]. by exists re.
    - intros H [k re] Hk%list_elem_of_In%visited_elem. cbn [fst snd]. specialize (Ht k).
      destruct (TagPatterns r !! k) as [p|] eqn:Hp; [|congruence].
      destruct Ht as (re' & Hre' & Hc). destruct (H k p Hp) as (v & -> & re'' & ? & ?). congruence. }
  pose proof (unmatched_spec _ _ (q_name q) Hn) as Hnm. pose proof (unmatched_spec _ _ (q_service q) Hs) as Hsv.
  split.
  - intros H. repeat (case_match; try done). rewrite negb_false_iff in *. split; tauto.
  - intros [? ? ? ? ? ?]. rewrite (proj2 Hty), (proj2 Hnm), (proj2 Hsv), (proj2 Hlv), (proj2 Htg) by done. cbn [negb]. tauto.
Qed.

(** ** The invariant of the engine *)

Definition ids (e : Engine) : list string := ID <$> rules e.
Record engine_ok (e : Engine) : Prop := {
  ok_sorted : StronglySorted below (rules e);
  ok_ids : NoDup (ids e);
  ok_compiled : Forall compiled (rules e);
  ok_stats id : rs_RuleID <$> ruleStats e !! id = if decide (id ∈ ids e) then Some id else None;
  ok_shared : es_RuleStats (stats e) = ruleStats e;
}.

Lemma NewEngine_ok : engine_ok NewEngine.
Proof. split; cbn; [constructor..| |done]. done. Qed.

(** Where the rule of an identifier is, the list around it. *)
Lemma rule_at id e : NoDup (ids e) →
  match list_find (λ r, ID r = id) (rules e) with
  | Some (i, r) => ∃ l1 l2, rules e = l1 ++ r :: l2 ∧ i = length l1 ∧ ID r = id ∧ id ∉ ID <$> l1 ∧ id ∉ ID <$> l2
  | None => id ∉ ids e
  end.
Proof.
  intros Hnd. destruct (list_find _ (rules e)) as [[i r]|] eqn:Hf.
  - apply list_find_Some in Hf as (Hi & <- & _). apply list_elem_of_split_length in Hi as (l1 & l2 & E & ->).
    exists l1, l2. unfold ids in Hnd. rewrite E in Hnd. rewrite fmap_app, fmap_cons in Hnd.
    apply NoDup_app in Hnd as (_ & Hd & [H2 _]%NoDup_cons). split_and!; try done.
    intros H. by apply (Hd _ H), list_elem_of_here.
  - apply list_find_None in Hf. unfold ids. rewrite list_elem_of_fmap. intros (r & -> & Hr).
    rewrite Forall_forall in Hf. by apply (Hf r).
Qed.

Lemma table_perm l l' : NoDup (ID <$> l) → l ≡ₚ l' → table_of l = table_of l'.
Proof.
  intros Hnd Hp. unfold table_of. apply list_to_map_proper; [by rewrite <- list_fmap_compose|by rewrite Hp].
Qed.
Lemma table_lookup l id s : NoDup (ID <$> l) → table_of l !! id = Some s ↔ ∃ r, r ∈ l ∧ ID r = id ∧ source r = s.
Proof.
  intros Hnd. unfold table_of. rewrite <- elem_of_list_to_map by (rewrite <- list_fmap_compose; done).
  rewrite list_elem_of_fmap. split.
  - intros (r & [= -> ->] & Hr). eauto.
  - intros (r & Hr & <- & <-). eauto.
Qed.
Lemma table_none l id : id ∉ ID <$> l → table_of l !! id = None.
Proof. intros H. apply not_elem_of_list_to_map_1. by rewrite <- list_fmap_compose. Qed.
Lemma table_middle l1 r l2 : ID r ∉ ID <$> l1 → table_of (l1 ++ r :: l2) = <[ID r := source r]> (table_of (l1 ++ l2)).
Proof.
  unfold table_of. induction l1 as [|x l1 IH]; cbn; intros H; [done|]. apply not_elem_of_cons in H as [Hx H].
  cbn in IH. rewrite IH by done. by rewrite insert_insert_ne by done.
Qed.

(** *** Removing *)

Lemma take_drop_middle_out {A} (l1 : list A) x l2 :
  take (length l1) (l1 ++ x :: l2) ++ drop (S (length l1)) (l1 ++ x :: l2) = l1 ++ l2.
Proof.
  rewrite take_app_length. f_equal. rewrite (cons_middle x l1 l2), (assoc_L (++)).
  apply drop_app_length'. rewrite length_app. cbn. lia.
Qed.

Lemma remove_rules id e : engine_ok e → let '(b, e') := removeRuleLocked id e in
  engine_ok e' ∧ id ∉ ids e' ∧ table e' = delete id (table e) ∧ b = bool_decide (is_Some (table e !! id)).
Proof.
  intros He. destruct e as [l st rst c]. pose proof (rule_at id _ (ok_ids _ He)) as H.
  unfold removeRuleLocked. destruct (list_find _ _) as [[i r]|].
  - destruct H as (l1 & l2 & E & -> & <- & H1 & H2). cbn [rules] in *. subst l.
    unfold table. cbn [rules upd_rule_stats with_rules]. rewrite take_drop_middle_out, table_middle by done.
    assert (Hout : ID r ∉ ID <$> (l1 ++ l2)) by (rewrite fmap_app, not_elem_of_app; done).
    destruct He as [Hs Hi Hc Hst Hsh]. unfold ids in Hi, Hst. cbn in Hs, Hi, Hc, Hst, Hsh.
    split_and!.
    + split; unfold ids; cbn.
      * apply StronglySorted_app in Hs as (Hx & Hs1 & [_ Hs2]%StronglySorted_cons). apply StronglySorted_app. split_and!; [|done|done].
        intros x y Hx1 Hy. apply Hx; [done|by constructor].
      * rewrite fmap_app in Hi |- *. cbn in Hi. apply NoDup_app in Hi as (? & Hd & [_ ?]%NoDup_cons).
        apply NoDup_app. split_and!; [done| |done]. intros x Hx Hy. apply (Hd x); [done|by constructor].
      * rewrite Forall_app, Forall_cons in Hc. rewrite Forall_app. tauto.
      * intros id. destruct (decide (id = ID r)) as [->|].
        -- by rewrite lookup_delete_eq, decide_False.
        -- rewrite lookup_delete_ne, Hst by done. apply decide_ext.
           rewrite !fmap_app, !elem_of_app, fmap_cons, elem_of_cons. naive_solver.
      * by rewrite Hsh.
    + done.
    + rewrite delete_insert_id; [done|]. by apply table_none.
    + symmetry. apply bool_decide_eq_true_2. by rewrite lookup_insert_eq.
  - unfold table. cbn [rules]. rewrite delete_id by (by apply table_none). rewrite table_none by done. done.
Qed.

(** *** Adding *)

Lemma AddRule_ok r e : engine_ok e → source r = r →
  match AddRule r e with
  | Ok e' => compiles r ∧ engine_ok e' ∧ table e' = <[ID r := r]> (table e)
  | _ => ¬ compiles r
  end.
Proof.
  intros He Hr. unfold AddRule. pose proof (compile_spec r Hr) as Hc.
  destruct (compile r) as [r'|m|m]; cbn [res_bind]; [|done|done]. destruct Hc as (Hc & Hcd & Hsr).
  assert (Hid : ID r' = ID r) by (by rewrite <- Hsr). rewrite Hid.
  pose proof (remove_rules (ID r) e He) as H. destruct (removeRuleLocked (ID r) e) as [b e1]. cbn [snd].
  destruct H as (He1 & Hn & Ht & _). split; [done|]. destruct (sort_sorts (rules e1 ++ [r'])) as [Hp Hs].
  destruct He1 as [_ Hi1 Hc1 Hst1 Hsh1].
  assert (Hnd : NoDup (ID <$> (rules e1 ++ [r']))).
  { rewrite fmap_app. apply NoDup_app. split_and!; [done| |apply NoDup_singleton].
    intros x Hx ->%list_elem_of_singleton. by rewrite Hid in Hx. }
  split.
  - split; unfold ids; cbn [rules upd_rule_stats with_rules ruleStats stats es_RuleStats].
    + done.
    + by rewrite Hp.
    + rewrite Hp. apply Forall_app. split; [done|by apply Forall_singleton].
    + assert (Hin : ∀ id, id ∈ ID <$> sortRulesLocked (rules e1 ++ [r']) ↔ id ∈ ids e1 ∨ id = ID r).
      { intros id. rewrite Hp, fmap_app, elem_of_app. cbn. by rewrite list_elem_of_singleton, Hid. }
      intros id. destruct (decide (id = ID r)) as [->|].
      * rewrite lookup_insert_eq, decide_True; [done|]. apply Hin. by right.
      * rewrite lookup_insert_ne, Hst1 by done. apply decide_ext. rewrite Hin. naive_solver.
    + by rewrite Hsh1.
  - unfold table. cbn [rules upd_rule_stats with_rules]. rewrite (table_perm _ (rules e1 ++ [r'])) by (rewrite Hp; done).
    rewrite table_middle by (rewrite Hid; done). rewrite app_nil_r, Hid, Hsr. fold (table e1). rewrite Ht.
    apply insert_delete_eq.
Qed.

(** *** Enabling *)

Lemma set_enabled_ok id b e : engine_ok e →
  engine_ok (set_enabled id b e) ∧ table (set_enabled id b e) = alter (with_enabled b) id (table e).
Proof.
  intros He. destruct e as [l st rst c]. pose proof (rule_at id _ (ok_ids _ He)) as H.
  unfold set_enabled. destruct (list_find _ _) as [[i r]|].
  - destruct H as (l1 & l2 & E & -> & <- & H1 & H2). cbn [rules] in *. subst l.
    unfold table. cbn [rules with_rules]. rewrite insert_app_r_alt, Nat.sub_diag by lia. cbn [insert list_insert].
    destruct He as [Hs Hi Hc Hst Hsh]. unfold ids in Hi, Hst. cbn in Hs, Hi, Hc, Hst, Hsh.
    split; [split; unfold ids; cbn|].
    + apply StronglySorted_app in Hs as (Hx & Hs1 & [Hf Hs2]%StronglySorted_cons).
      apply StronglySorted_app. rewrite StronglySorted_cons. split_and!; [|done|done|done].
      intros x y Hx1 [->|Hy]%elem_of_cons; [apply (Hx x r Hx1); constructor|apply Hx; [done|by constructor]].
    + by rewrite fmap_app in *.
    + rewrite Forall_app, Forall_cons in *. destruct Hc as (? & [] & ?). done.
    + intros id. rewrite Hst. apply decide_ext. by rewrite !fmap_app.
    + done.
    + rewrite !table_middle by done. by rewrite alter_insert_eq.
  - split; [done|]. unfold table. cbn [rules] in *. rewrite alter_id; [done|].
    intros x Hx. by rewrite (table_none l id H) in Hx.
Qed.

(** *** Evaluating *)

Lemma find_first (f : Rule → bool) l :
  match find f l with
  | Some r => ∃ l1 l2, l = l1 ++ r :: l2 ∧ f r = true ∧ ∀ x, x ∈ l1 → f x = false
  | None => ∀ x, x ∈ l → f x = false
  end.
Proof.
  induction l as [|y l IH]; cbn [find]; [by intros x ?%not_elem_of_nil|]. destruct (f y) eqn:Hy.
  - exists [], l. split_and!; try done. by intros x ?%not_elem_of_nil.
  - destruct (find f l) as [r|].
    + destruct IH as (l1 & l2 & -> & Hr & Hl). exists (y :: l1), l2. split_and!; try done.
      intros x [->|Hx]%elem_of_cons; auto.
    + intros x [->|Hx]%elem_of_cons; auto.
Qed.

(** The first of the rules that apply has the least priority of them. *)
Lemma first_is_least f l r : StronglySorted below l → find f l = Some r →
  r ∈ l ∧ f r = true ∧ ∀ x, x ∈ l → f x = true → Priority r ≤ Priority x.
Proof.
  intros Hs Hf. pose proof (find_first f l) as H. rewrite Hf in H. destruct H as (l1 & l2 & -> & Hr & Hl).
  split_and!; [set_solver|done|]. intros x [Hx|[->|Hx]%elem_of_cons]%elem_of_app Hfx.
  - rewrite Hl in Hfx; done.
  - done.
  - apply StronglySorted_app in Hs as (_ & _ & [Hfr _]%StronglySorted_cons). rewrite Forall_forall in Hfr. by apply Hfr.
Qed.

Lemma ShouldSample_frame rate e : let e' := (ShouldSample rate e).2 in
  rules e' = rules e ∧ stats e' = stats e ∧ ruleStats e' = ruleStats e.
Proof. unfold ShouldSample. by repeat case_match. Qed.

Lemma applyRule_spec r size e : let '(d, e') := applyRule r size e in
  decides r d ∧ rules e' = rules e ∧ stats e' = stats e ∧ ruleStats e' = ruleStats e.
Proof.
  unfold applyRule. destruct (String.eqb_spec (Action r) ActionSample) as [E|].
  - pose proof (ShouldSample_frame (SampleRate r) e) as H. destruct (ShouldSample (SampleRate r) e) as [kept e'].
    split; [|done]. rewrite E. by apply decides_sampled.
  - destruct (String.eqb_spec (Action r) ActionTransform) as [E|]; [rewrite E; split; [by constructor|done]|].
    destruct (String.eqb_spec (Action r) ActionAggregate) as [E|]; [rewrite E; split; [by constructor|done]|].
    split; [by constructor|done].
Qed.

Lemma decides_source r d : decides r d → decides (source r) d.
Proof.
  destruct 1; [by apply (decides_sampled (source r))|by apply (decides_transform (source r))
    |by apply (decides_aggregate (source r))|by apply (decides_plain (source r))].
Qed.

(** An engine that differs in its counters is as good. *)
Lemma counted_ok e e' : rules e' = rules e → (∀ id, rs_RuleID <$> ruleStats e' !! id = rs_RuleID <$> ruleStats e !! id) →
  es_RuleStats (stats e') = ruleStats e' → engine_ok e → engine_ok e'.
Proof. intros Hr Hs Hsh [? ? ? Hst _]. split; unfold ids in *; rewrite ?Hr; try done. intros id. by rewrite Hs, Hst. Qed.

Lemma count_decision_shared dataType action size st :
  es_RuleStats (count_decision dataType action size st) = es_RuleStats st.
Proof. unfold count_decision. by repeat case_match. Qed.

Lemma count_rule_id now a n s : rs_RuleID (count_rule now a n s) = rs_RuleID s.
Proof. unfold count_rule. by repeat case_match. Qed.

(** What an evaluation decides and what it leaves as it was. *)
Lemma Evaluate_decides now q e : es_RuleStats (stats e) = ruleStats e → let '(d, e') := Evaluate now q e in
  rules e' = rules e ∧ es_RuleStats (stats e') = ruleStats e' ∧
  match find (applies q) (rules e) with
  | Some r => decides r d ∧ ruleStats e' = alter (count_rule now (d_Action d) (q_sizeBytes q)) (ID r) (ruleStats e)
  | None => d = decide_keep ∧ ruleStats e' = ruleStats e
  end.
Proof.
  intros Hsh. unfold Evaluate. cbn [rules with_stats]. destruct (find (applies q) (rules e)) as [r|].
  - pose proof (applyRule_spec r (q_sizeBytes q) (with_stats (count_processed (q_dataType q) (stats e)) e)) as H.
    destruct (applyRule _ _ _) as [d e']. destruct H as (Hd & Hr & Hst & Hrs).
    cbn [rules stats ruleStats with_stats upd_rule_stats] in *. rewrite count_decision_shared. cbn [es_RuleStats].
    rewrite Hst, Hrs. cbn [es_RuleStats count_processed]. by rewrite Hsh.
  - cbn [rules stats ruleStats with_stats]. rewrite count_decision_shared. done.
Qed.

Lemma Evaluate_ok now q e : engine_ok e → let '(d, e') := Evaluate now q e in
  engine_ok e' ∧ table e' = table e ∧ table_step (table e) (OpEvaluate now q) (Decided d) (table e).
Proof.
  intros He. pose proof (Evaluate_decides now q e (ok_shared _ He)) as H.
  destruct (Evaluate now q e) as [d e']. destruct H as (Hr & Hsh & H). split_and!.
  - apply (counted_ok e); try done. intros id. destruct (find _ _) as [r|]; destruct H as [_ ->]; [|done].
    destruct (decide (id = ID r)) as [->|]; [|by rewrite lookup_alter_ne].
    rewrite lookup_alter_eq. destruct (ruleStats e !! ID r) as [s|]; [|done]. cbn. f_equal. apply count_rule_id.
  - unfold table. by rewrite Hr.
  - assert (Hap : ∀ r, r ∈ rules e → applies q r = true ↔ Enabled (source r) = true ∧ selects q (source r)).
    { intros r Hin. pose proof (ok_compiled _ He) as Hc. rewrite Forall_forall in Hc.
      unfold applies. rewrite andb_true_iff, (matches_selects q r (Hc _ Hin)). split; (intros [? []]; split; [done|by split]). }
    destruct (find (applies q) (rules e)) as [r|] eqn:Hf.
    + destruct H as [Hd _]. apply first_is_least in Hf as (Hin & Hfr & Hleast); [|apply (ok_sorted _ He)].
      apply (Hap r Hin) in Hfr as [Hen Hsel].
      eapply (table_decide _ _ _ (ID r) (source r)); try done.
      * apply table_lookup; [apply (ok_ids _ He)|eauto].
      * intros id' r' Hr' Hen' Hsel'. apply table_lookup in Hr' as (x & Hx & _ & <-); [|apply (ok_ids _ He)].
        apply (Hleast x Hx). apply Hap; done.
      * by apply decides_source.
    + destruct H as [-> _]. constructor. intros id r Hr' Hen Hsel.
      apply table_lookup in Hr' as (x & Hx & _ & <-); [|apply (ok_ids _ He)].
      pose proof (find_first (applies q) (rules e)) as Hn. rewrite Hf in Hn.
      specialize (Hn x Hx). rewrite (proj2 (Hap x Hx)) in Hn; done.
Qed.

(** ** Refinement *)

Lemma step_refines op e : engine_ok e → written op → let '(a, e') := step op e in
  engine_ok e' ∧ table_step (table e) op a (table e').
Proof.
  intros He Hw. destruct op as [r|id|id b|now q|]; cbn [step written] in *.
  - pose proof (AddRule_ok r e He Hw) as H. destruct (AddRule r e) as [e'|m|m].
    + destruct H as (Hc & He' & ->). split; [done|by constructor].
    + split; [done|by constructor].
    + split; [done|by constructor].
  - pose proof (remove_rules id e He) as H. unfold RemoveRule. destruct (removeRuleLocked id e) as [b e'].
    destruct H as (He' & _ & -> & ->). split; [done|constructor].
  - destruct (set_enabled_ok id b e He) as [He' ->]. split; [done|constructor].
  - pose proof (Evaluate_ok now q e He) as H. destruct (Evaluate now q e) as [d e']. by destruct H as (? & -> & ?).
  - split; [|constructor]. apply (counted_ok e); [done| |done|done]. intros id. cbn. rewrite lookup_fmap. by destruct (ruleStats e !! id).
Qed.

Lemma steps_refine ops e : engine_ok e → Forall written ops → let '(answers, e') := steps ops e in
  engine_ok e' ∧ table_run (table e) ops answers (table e').
Proof.
  revert e. induction ops as [|op ops IH]; intros e He Hw; [split; [done|constructor]|].
  apply Forall_cons in Hw as [Hop Hw]. cbn [steps]. pose proof (step_refines op e He Hop) as H.
  destruct (step op e) as [a e1]. destruct H as [He1 H1]. specialize (IH e1 He1 Hw).
  destruct (steps ops e1) as [answers e2]. destruct IH as [He2 H2]. split; [done|by econstructor].
Qed.

(** C30: The engine is a table of rules. Whatever is added, removed, enabled, evaluated or reset,
    every answer of the engine is one a table of rules under their identifiers gives: a rule is
    refused if and only if one of its patterns does not compile, adding one replaces the rule of
    its identifier, and data is decided by an enabled rule that selects it and has the least
    priority of all that do, or kept when there is none; the rules are listed by their
    priorities, and each is found under its identifier. *)
Theorem engine_refines_rule_table ops : Forall written ops → let '(answers, e) := steps ops NewEngine in
  table_run ∅ ops answers (table e) ∧ StronglySorted below (GetRules e) ∧
  ∀ id, source <$> GetRule id e = table e !! id.
Proof.
  intros Hw. pose proof (steps_refine ops NewEngine NewEngine_ok Hw) as H.
  destruct (steps ops NewEngine) as [answers e]. destruct H as [He Hrun].
  split_and!; [done|apply (ok_sorted _ He)|]. intros id. unfold GetRule.
  pose proof (find_first (λ r, String.eqb (ID r) id) (rules e)) as Hf. destruct (find _ _) as [r|].
  - destruct Hf as (l1 & l2 & E & Hid%String.eqb_eq & _). symmetry. apply table_lookup; [apply (ok_ids _ He)|].
    exists r. rewrite E. split; [apply elem_of_app; right; constructor|done].
  - symmetry. apply table_none. rewrite list_elem_of_fmap. intros (r & -> & Hr). specialize (Hf r Hr).
    by rewrite String.eqb_refl in Hf.
Qed.

(** ** The statistics *)

Fixpoint evaluate_all (qs : list (Time * Query)) (e : Engine) : list (Query * Decision) * Engine :=
  match qs with
  | [] => ([], e)
  | (now, q) :: qs =>
      let '(d, e) := Evaluate now q e in let '(log, e) := evaluate_all qs e in ((q, d) :: log, e)
  end.

(** How many entries of a log there are of a kind, and how large they are together. *)
Definition tally (P : Query * Decision → bool) (log : list (Query * Decision)) : Z :=
  Z.of_nat (length (List.filter P log)).
Definition bytes (P : Query * Decision → bool) (log : list (Query * Decision)) : Z :=
  foldr (λ x n, q_sizeBytes x.1 + n) 0 (List.filter P log).

Definition of_action (a : RuleAction) (x : Query * Decision) : bool := String.eqb (d_Action x.2) a.
Definition of_type (t : DataType) (x : Query * Decision) : bool := String.eqb t (q_dataType x.1).
Definition of_rule (id : string) (x : Query * Decision) : bool := String.eqb id (d_RuleID x.2).
Definition both (P P' : Query * Decision → bool) (x : Query * Decision) : bool := P x && P' x.

(** The counters of the engine hold what a log has. *)
Record totals (log : list (Query * Decision)) (st : EngineStats) : Prop := {
  tot_processed : TotalProcessed st = wrap64 (Z.of_nat (length log));
  tot_dropped : TotalDropped st = wrap64 (tally (of_action ActionDrop) log);
  tot_sampled : TotalSampled st = wrap64 (tally (of_action ActionSample) log);
  tot_transformed : TotalTransformed st = wrap64 (tally (of_action ActionTransform) log);
  tot_kept : TotalKept st = wrap64 (tally (of_action ActionKeep) log);
  tot_bytes : BytesSavedEst st = wrap64 (bytes (of_action ActionDrop) log);
  tot_by_type t : default 0 (ProcessedByType st !! t) = wrap64 (tally (of_type t) log);
  tot_dropped_by_type t : default 0 (DroppedByType st !! t) = wrap64 (tally (both (of_type t) (of_action ActionDrop)) log);
}.
(** So do those of a rule, for its decisions. *)
Record rule_totals (id : string) (log : list (Query * Decision)) (s : RuleStats) : Prop := {
  rt_matched : rs_TotalMatched s = wrap64 (tally (of_rule id) log);
  rt_dropped : rs_TotalDropped s = wrap64 (tally (both (of_rule id) (of_action ActionDrop)) log);
  rt_sampled : rs_TotalSampled s = wrap64 (tally (both (of_rule id) (of_action ActionSample)) log);
  rt_kept : rs_TotalKept s = wrap64 (tally (both (of_rule id) (of_action ActionKeep)) log);
  rt_bytes : rs_BytesSaved s = wrap64 (bytes (both (of_rule id) (of_action ActionDrop)) log);
}.

Lemma tally_cons P x log : tally P (x :: log) = (if P x then 1 else 0) + tally P log.
Proof. unfold tally. cbn. destruct (P x); cbn [length]; lia. Qed.
Lemma tally_snoc P log x : tally P (log ++ [x]) = tally P log + (if P x then 1 else 0).
Proof. unfold tally. rewrite List.filter_app, length_app. cbn. destruct (P x); cbn [length]; lia. Qed.
Lemma bytes_snoc P log x : bytes P (log ++ [x]) = bytes P log + (if P x then q_sizeBytes x.1 else 0).
Proof.
  unfold bytes. rewrite List.filter_app, foldr_app. cbn. generalize (List.filter P log). intros l.
  destruct (P x); cbn; induction l as [|y l IH]; cbn; lia.
Qed.
Lemma incr_wrap n : incr (wrap64 n) = wrap64 (n + 1).
Proof. apply wrap64_add_l. Qed.

(** A counter that counts an event or not. *)
Definition bump (b : bool) (z : Z) : Z := if b then incr z else z.
Lemma bump_wrap P log x z : z = wrap64 (tally P log) → bump (P x) z = wrap64 (tally P (log ++ [x])).
Proof. intros ->. rewrite tally_snoc. unfold bump. destruct (P x); [apply incr_wrap|by rewrite Z.add_0_r]. Qed.
Lemma bytes_wrap P log x z : z = wrap64 (bytes P log) →
  (if P x then wrap64 (z + q_sizeBytes x.1) else z) = wrap64 (bytes P (log ++ [x])).
Proof. intros ->. rewrite bytes_snoc. destruct (P x); [apply wrap64_add_l|by rewrite Z.add_0_r]. Qed.

(** The tests of an action are made one after the other. *)
Ltac action_cases a :=
  cbv zeta; repeat (match goal with |- context [String.eqb a ?b] => destruct (String.eqb_spec a b) as [->|_] end;
                    try (reflexivity || (split_and!; reflexivity))).

Lemma count_decision_spec t a n st : let st' := count_decision t a n st in
  TotalProcessed st' = TotalProcessed st ∧
  TotalDropped st' = bump (String.eqb a ActionDrop) (TotalDropped st) ∧
  TotalSampled st' = bump (String.eqb a ActionSample) (TotalSampled st) ∧
  TotalTransformed st' = bump (String.eqb a ActionTransform) (TotalTransformed st) ∧
  TotalKept st' = bump (String.eqb a ActionKeep) (TotalKept st) ∧
  BytesSavedEst st' = (if String.eqb a ActionDrop then wrap64 (BytesSavedEst st + n) else BytesSavedEst st) ∧
  ProcessedByType st' = ProcessedByType st ∧
  DroppedByType st' = (if String.eqb a ActionDrop then incr_at t (DroppedByType st) else DroppedByType st).
Proof. unfold count_decision, bump. action_cases a. Qed.

Lemma count_rule_spec now a n s : let s' := count_rule now a n s in
  rs_TotalMatched s' = incr (rs_TotalMatched s) ∧
  rs_TotalDropped s' = bump (String.eqb a ActionDrop) (rs_TotalDropped s) ∧
  rs_TotalSampled s' = bump (String.eqb a ActionSample) (rs_TotalSampled s) ∧
  rs_TotalKept s' = bump (String.eqb a ActionKeep) (rs_TotalKept s) ∧
  rs_BytesSaved s' = (if String.eqb a ActionDrop then wrap64 (rs_BytesSaved s + n) else rs_BytesSaved s).
Proof. unfold count_rule, bump. action_cases a. Qed.

Lemma incr_at_lookup k m t : default 0 (incr_at k m !! t) = bump (String.eqb t k) (default 0 (m !! t)).
Proof.
  unfold incr_at. destruct (String.eqb_spec t k) as [->|]; [by rewrite lookup_insert_eq|by rewrite lookup_insert_ne].
Qed.

Lemma totals_event log st q d : totals log st →
  totals (log ++ [(q, d)])
    (count_decision (q_dataType q) (d_Action d) (q_sizeBytes q) (count_processed (q_dataType q) st)).
Proof.
  intros [H1 H2 H3 H4 H5 H6 H7 H8].
  destruct (count_decision_spec (q_dataType q) (d_Action d) (q_sizeBytes q) (count_processed (q_dataType q) st))
    as (E1 & E2 & E3 & E4 & E5 & E6 & E7 & E8).
  split; [rewrite E1|rewrite E2|rewrite E3|rewrite E4|rewrite E5|rewrite E6|intros t; rewrite E7|intros t; rewrite E8].
  - cbn. rewrite H1, incr_wrap, length_app. f_equal. cbn. lia.
  - by apply (bump_wrap (of_action ActionDrop) log (q, d)).
  - by apply (bump_wrap (of_action ActionSample) log (q, d)).
  - by apply (bump_wrap (of_action ActionTransform) log (q, d)).
  - by apply (bump_wrap (of_action ActionKeep) log (q, d)).
  - by apply (bytes_wrap (of_action ActionDrop) log (q, d)).
  - cbn [ProcessedByType count_processed]. rewrite incr_at_lookup. by apply (bump_wrap (of_type t) log (q, d)).
  - rewrite <- (bump_wrap _ log (q, d) _ (H8 t)). unfold both, of_type, of_action. cbn [fst snd].
    destruct (String.eqb (d_Action d) ActionDrop); [|by rewrite andb_false_r].
    rewrite andb_true_r. apply incr_at_lookup.
Qed.

Lemma rule_totals_event id now log s q d : d_RuleID d = id → rule_totals id log s →
  rule_totals id (log ++ [(q, d)]) (count_rule now (d_Action d) (q_sizeBytes q) s).
Proof.
  intros Hd [H1 H2 H3 H4 H5].
  assert (Hof : of_rule id (q, d) = true) by (unfold of_rule; cbn; rewrite Hd; apply String.eqb_refl).
  assert (Hb : ∀ P, both (of_rule id) P (q, d) = P (q, d)) by (intros P; unfold both; by rewrite Hof).
  destruct (count_rule_spec now (d_Action d) (q_sizeBytes q) s) as (E1 & E2 & E3 & E4 & E5).
  split; [rewrite E1|rewrite E2|rewrite E3|rewrite E4|rewrite E5].
  - rewrite <- (bump_wrap _ _ (q, d) _ H1), Hof. done.
  - by rewrite <- (bump_wrap _ _ (q, d) _ H2), Hb.
  - by rewrite <- (bump_wrap _ _ (q, d) _ H3), Hb.
  - by rewrite <- (bump_wrap _ _ (q, d) _ H4), Hb.
  - by rewrite <- (bytes_wrap _ _ (q, d) _ H5), Hb.
Qed.
Lemma rule_totals_other id log s q d : d_RuleID d ≠ id → rule_totals id log s → rule_totals id (log ++ [(q, d)]) s.
Proof.
  intros Hd [H1 H2 H3 H4 H5].
  assert (Hof : of_rule id (q, d) = false) by (unfold of_rule; cbn; by apply String.eqb_neq).
  assert (Hb : ∀ P, both (of_rule id) P (q, d) = false) by (intros P; unfold both; by rewrite Hof).
  split; [rewrite <- (bump_wrap _ _ (q, d) _ H1), Hof|rewrite <- (bump_wrap _ _ (q, d) _ H2), Hb
    |rewrite <- (bump_wrap _ _ (q, d) _ H3), Hb|rewrite <- (bump_wrap _ _ (q, d) _ H4), Hb
    |rewrite <- (bytes_wrap _ _ (q, d) _ H5), Hb]; done.
Qed.

(** The statistics of an engine hold a log. *)
Record tallied (log : list (Query * Decision)) (e : Engine) : Prop := {
  ta_totals : totals log (stats e);
  ta_rules id : id ∈ ids e → id ≠ ""%string → ∃ s, ruleStats e !! id = Some s ∧ rs_RuleID s = id ∧ rule_totals id log s;
}.

Definition put_rule_stats (m : gmap string RuleStats) (st : EngineStats) : EngineStats :=
  mkEngineStats (TotalProcessed st) (TotalDropped st) (TotalSampled st) (TotalTransformed st) (TotalKept st)
    (BytesSavedEst st) m (ProcessedByType st) (DroppedByType st).
Lemma put_totals log m st : totals log st → totals log (put_rule_stats m st).
Proof. intros []. by split. Qed.

Lemma Evaluate_stats now q e : let '(d, e') := Evaluate now q e in
  ∃ m, stats e' = count_decision (q_dataType q) (d_Action d) (q_sizeBytes q)
                    (count_processed (q_dataType q) (put_rule_stats m (stats e))).
Proof.
  unfold Evaluate. cbn [rules with_stats]. destruct (find (applies q) (rules e)) as [r|].
  - pose proof (applyRule_spec r (q_sizeBytes q) (with_stats (count_processed (q_dataType q) (stats e)) e)) as H.
    destruct (applyRule _ _ _) as [d e']. destruct H as (_ & _ & Hst & _).
    cbn [stats with_stats upd_rule_stats]. rewrite Hst. eexists. reflexivity.
  - exists (es_RuleStats (stats e)). cbn [stats with_stats]. by destruct (stats e).
Qed.

Lemma decides_id r d : decides r d → d_RuleID d = ID r.
Proof. by destruct 1. Qed.

Lemma Evaluate_tallied now q e log : engine_ok e → tallied log e → let '(d, e') := Evaluate now q e in
  tallied (log ++ [(q, d)]) e' ∧ engine_ok e' ∧ rules e' = rules e.
Proof.
  intros He [Ht Hr]. pose proof (Evaluate_stats now q e) as Hst. pose proof (Evaluate_ok now q e He) as Hok.
  pose proof (Evaluate_decides now q e (ok_shared _ He)) as H.
  destruct (Evaluate now q e) as [d e']. destruct Hst as [m Hst], H as (Hrs & _ & H), Hok as [Hok _].
  split_and!; [|done|done]. split; [rewrite Hst; by apply totals_event, put_totals|].
  intros id Hin Hne. unfold ids in *. rewrite Hrs in Hin. destruct (Hr id Hin Hne) as (s & Hs & Hid & Hrt).
  destruct (find (applies q) (rules e)) as [r|]; destruct H as [Hd ->].
  - apply decides_id in Hd. destruct (decide (id = ID r)) as [->|].
    + eexists. rewrite lookup_alter_eq, Hs. split_and!; [done|by rewrite count_rule_id|by apply rule_totals_event].
    + rewrite lookup_alter_ne by done. exists s. split_and!; [done..|]. apply rule_totals_other; congruence.
  - exists s. split_and!; [done..|]. apply rule_totals_other; [|done]. rewrite Hd. cbn. congruence.
Qed.

Lemma evaluate_all_tallied qs : ∀ e log, engine_ok e → tallied log e → let '(log', e') := evaluate_all qs e in
  tallied (log ++ log') e' ∧ engine_ok e' ∧ rules e' = rules e.
Proof.
  induction qs as [|[now q] qs IH]; intros e log He Ht; [cbn; by rewrite app_nil_r|]. cbn [evaluate_all].
  pose proof (Evaluate_tallied now q e log He Ht) as H. destruct (Evaluate now q e) as [d e1].
  destruct H as (Ht1 & He1 & Hr1). specialize (IH e1 _ He1 Ht1). destruct (evaluate_all qs e1) as [log' e2].
  destruct IH as (Ht2 & He2 & Hr2). rewrite (cons_middle _ log log'), (assoc_L (++)). by rewrite Hr2.
Qed.

Lemma reset_tallied e : engine_ok e → tallied [] (ResetStats e) ∧ engine_ok (ResetStats e).
Proof.
  intros He. split; [split|].
  - split; try done; intros t; cbn; by rewrite lookup_empty.
  - intros id Hin _. pose proof (ok_stats _ He id) as Hs. rewrite decide_True in Hs by done.
    destruct (ruleStats e !! id) as [s|] eqn:E; [|done]. injection Hs as Hs. eexists. cbn. rewrite lookup_fmap, E.
    split_and!; [done|done|by split].
  - apply (counted_ok e); [done| |done|done]. intros id. cbn. rewrite lookup_fmap. by destruct (ruleStats e !! id).
Qed.

Lemma evaluate_all_queries qs e : (evaluate_all qs e).1.*1 = qs.*2.
Proof.
  revert e. induction qs as [|[now q] qs IH]; intros e; [done|]. cbn [evaluate_all].
  destruct (Evaluate now q e) as [d e1]. specialize (IH e1). destruct (evaluate_all qs e1) as [log e2].
  cbn in *. by rewrite IH.
Qed.

(** Decisions to aggregate, and those of a rule with an action of none of the constants. *)
Definition uncounted (x : Query * Decision) : bool :=
  negb (of_action ActionDrop x || of_action ActionSample x || of_action ActionTransform x || of_action ActionKeep x).
Lemma tally_split log : Z.of_nat (length log) =
  tally (of_action ActionDrop) log + tally (of_action ActionSample) log + tally (of_action ActionTransform) log +
  tally (of_action ActionKeep) log + tally uncounted log.
Proof.
  induction log as [|[q d] log IH]; [done|]. rewrite !tally_cons. cbn [length]. rewrite Nat2Z.inj_succ, IH.
  enough (1 = (if of_action ActionDrop (q, d) then 1 else 0) + (if of_action ActionSample (q, d) then 1 else 0) +
    (if of_action ActionTransform (q, d) then 1 else 0) + (if of_action ActionKeep (q, d) then 1 else 0) +
    (if uncounted (q, d) then 1 else 0)) by lia.
  unfold uncounted, of_action. cbn [snd]. generalize (d_Action d). intros a. action_cases a.
Qed.

(** The statistics tally the decisions. In any engine that is reached, after a reset and any
    data, the counters are the numbers of the decisions of each action, of the data of each
    type and of the bytes that were dropped, modulo 2^64; those of each rule are the numbers of
    its decisions; and every datum is counted once, as dropped, sampled, transformed or kept,
    but for decisions to aggregate. *)
Theorem statistics_tally ops qs : Forall written ops → let e := (steps ops NewEngine).2 in
  let '(log, e') := evaluate_all qs (ResetStats e) in
  log.*1 = qs.*2 ∧ totals log (GetStats e') ∧
  (∀ id, id ≠ ""%string → is_Some (table e !! id) →
     ∃ s, es_RuleStats (GetStats e') !! id = Some s ∧ rs_RuleID s = id ∧ rule_totals id log s) ∧
  Z.of_nat (length log) =
    tally (of_action ActionDrop) log + tally (of_action ActionSample) log + tally (of_action ActionTransform) log +
    tally (of_action ActionKeep) log + tally uncounted log.
Proof.
  intros Hw. pose proof (steps_refine ops NewEngine NewEngine_ok Hw) as H.
  destruct (steps ops NewEngine) as [answers e]. destruct H as [He _]. cbn [snd].
  destruct (reset_tallied e He) as [Ht Hok]. pose proof (evaluate_all_tallied qs _ [] Hok Ht) as H.
  pose proof (evaluate_all_queries qs (ResetStats e)) as Hq.
  destruct (evaluate_all qs (ResetStats e)) as [log e']. destruct H as ([Hto Hru] & _ & Hrs).
  split_and!; [done|by destruct Hto| |apply tally_split].
  intros id Hne [r Hr]. apply (Hru id); [|done]. apply table_lookup in Hr as (x & Hx & <- & _); [|apply (ok_ids _ He)].
  unfold ids. rewrite Hrs. cbn. rewrite list_elem_of_fmap. eauto.
Qed.

(** ** Sampling *)

(** What is kept of the next [n] data at a rate, the counter at [c]. *)
Definition kept_at (c t n : Z) : list bool := (λ k, ((c + k) mod 100 <? t)) <$> seqZ 1 n.
Definition kept (l : list bool) : Z := Z.of_nat (length (List.filter (λ b, b) l)).

Lemma kept_app l l' : kept (l ++ l') = kept l + kept l'.
Proof. unfold kept. rewrite List.filter_app, length_app. lia. Qed.
Lemma kept_cons b l : kept (b :: l) = (if b then 1 else 0) + kept l.
Proof. unfold kept. destruct b; cbn [List.filter length]; lia. Qed.

(** A window of a hundred begins anywhere. *)
Lemma kept_window t c : -1 ≤ c → kept (kept_at c t 100) = kept (kept_at (-1) t 100).
Proof.
  intros Hc. replace c with (-1 + Z.of_nat (Z.to_nat (c + 1))) by lia. generalize (Z.to_nat (c + 1)). clear c Hc.
  intros n. induction n as [|n IH]; [done|]. rewrite <- IH. unfold kept_at.
  set (c := -1 + Z.of_nat n). replace (-1 + Z.of_nat (S n)) with (c + 1) by (unfold c; lia).
  assert (E : seqZ 1 100 = [1] ++ seqZ 2 99) by done. rewrite E at 2.
  assert (E' : seqZ 1 100 = (Z.add (-1) <$> seqZ 2 99) ++ [100]) by done. rewrite E' at 1.
  rewrite !fmap_app, !kept_app, <- list_fmap_compose. cbn [fmap list_fmap]. rewrite !kept_cons.
  replace ((c + 1 + 100) mod 100) with ((c + 1) mod 100) by (symmetry; apply (Z_mod_plus_full (c + 1) 1 100)).
  rewrite Z.add_comm. f_equal. f_equal. apply list_fmap_ext. intros _ k _. cbn. by replace (c + 1 + (-1 + k)) with (c + k) by lia.
Qed.

Lemma kept_below t n : kept ((λ k, k <? t) <$> seqZ 0 (Z.of_nat n)) = Z.min (Z.of_nat n) (Z.max 0 t).
Proof.
  induction n as [|n IH]; [change (0 = Z.min 0 (Z.max 0 t)); lia|]. rewrite seqZ_S, fmap_app, kept_app, IH, Nat2Z.inj_succ.
  cbn [fmap list_fmap]. rewrite kept_cons. change (kept []) with 0.
  destruct (Z.ltb_spec (0 + Z.of_nat n) t); lia.
Qed.

Lemma kept_hundred t c : -1 ≤ c → kept (kept_at c t 100) = Z.min 100 (Z.max 0 t).
Proof.
  intros Hc. rewrite kept_window by done. pose proof (kept_below t 100) as H.
  change (Z.of_nat 100) with 100 in H. rewrite <- H. reflexivity.
Qed.

Lemma ShouldSample_counts rate e : f64_lt f64_zero rate = true → f64_lt rate f64_one = true →
  0 ≤ sampleCounter e → sampleCounter e + 1 < 2 ^ 64 →
  (ShouldSample rate e).1 = ((sampleCounter e + 1) mod 100 <? threshold rate) ∧
  sampleCounter (ShouldSample rate e).2 = sampleCounter e + 1.
Proof.
  intros H0 H1 Hc Hn. unfold ShouldSample.
  assert (f64_ge rate f64_one = false) as -> by (by apply f64_gt_not_le).
  assert (f64_le rate f64_zero = false) as -> by (by apply f64_gt_not_le).
  cbn [fst snd sampleCounter]. unfold uwrap64. by rewrite (Z.mod_small (sampleCounter e + 1) (2 ^ 64)) by lia.
Qed.

(** One datum for a rule that samples. *)
Lemma Evaluate_samples now q r e : find (applies q) (rules e) = Some r → Action r = ActionSample →
  f64_lt f64_zero (SampleRate r) = true → f64_lt (SampleRate r) f64_one = true →
  0 ≤ sampleCounter e → sampleCounter e + 1 < 2 ^ 64 →
  let '(d, e') := Evaluate now q e in
  d = mkDecision (if (sampleCounter e + 1) mod 100 <? threshold (SampleRate r) then ActionSample else ActionDrop)
        (ID r) (Name r) (SampleRate r) [] ∅ [] ∧
  sampleCounter e' = sampleCounter e + 1 ∧ rules e' = rules e.
Proof.
  intros Hf Ha H0 H1 Hc Hn. unfold Evaluate. cbn [rules with_stats]. rewrite Hf. unfold applyRule. rewrite Ha.
  cbn [String.eqb Ascii.eqb Bool.eqb ActionSample].
  set (e1 := with_stats _ e). destruct (ShouldSample_counts (SampleRate r) e1 H0 H1 Hc Hn) as [Hs Hc'].
  destruct (ShouldSample_frame (SampleRate r) e1) as [Hr _].
  destruct (ShouldSample (SampleRate r) e1) as [k e2]. cbn [fst snd] in *. subst k.
  cbn [rules sampleCounter with_stats upd_rule_stats]. done.
Qed.

Definition sampled (x : Query * Decision) : bool := of_action ActionSample x.

Lemma evaluate_all_samples r qs : ∀ e, Action r = ActionSample →
  f64_lt f64_zero (SampleRate r) = true → f64_lt (SampleRate r) f64_one = true →
  0 ≤ sampleCounter e → sampleCounter e + Z.of_nat (length qs) < 2 ^ 64 →
  Forall (λ tq, find (applies tq.2) (rules e) = Some r) qs →
  (λ x, d_Action x.2) <$> (evaluate_all qs e).1 =
    (λ b : bool, if b then ActionSample else ActionDrop) <$>
      kept_at (sampleCounter e) (threshold (SampleRate r)) (Z.of_nat (length qs)).
Proof.
  induction qs as [|[now q] qs IH]; intros e Ha H0 H1 Hc Hn Hq; [done|]. apply Forall_cons in Hq as [Hq Hqs].
  cbn [length] in Hn. rewrite Nat2Z.inj_succ in Hn. cbn [evaluate_all].
  pose proof (Evaluate_samples now q r e Hq Ha H0 H1 Hc ltac:(lia)) as H.
  destruct (Evaluate now q e) as [d e1]. destruct H as (-> & Hc1 & Hr1).
  specialize (IH e1 Ha H0 H1 ltac:(lia) ltac:(lia)). rewrite Hr1, Hc1 in IH. specialize (IH Hqs).
  destruct (evaluate_all qs e1) as [log e2]. cbn [fst snd fmap list_fmap d_Action] in *. rewrite IH.
  cbn [length]. rewrite Nat2Z.inj_succ. unfold kept_at. rewrite (seqZ_cons 1 (Z.succ _)) by lia.
  cbn [fmap list_fmap]. f_equal. rewrite Z.pred_succ, <- !list_fmap_compose.
  change (Z.succ 1) with (1 + 1). rewrite <- fmap_add_seqZ, <- list_fmap_compose.
  apply list_fmap_ext. intros _ k _. cbn. by rewrite Z.add_assoc.
Qed.

Lemma kept_actions log l : (λ x : Query * Decision, d_Action x.2) <$> log =
    (λ b : bool, if b then ActionSample else ActionDrop) <$> l →
  tally sampled log = kept l ∧ tally (of_action ActionDrop) log = Z.of_nat (length l) - kept l.
Proof.
  revert l. induction log as [|[q d] log IH]; intros [|b l] H; try done.
  cbn [fmap list_fmap snd] in H. injection H as Hd H. destruct (IH l H) as [I1 I2].
  rewrite kept_cons. cbn [length]. rewrite Nat2Z.inj_succ. rewrite !tally_cons, I1, I2.
  unfold sampled, of_action. cbn [snd]. rewrite Hd. clear. destruct b; cbn -[kept]; lia.
Qed.

(** Sampling keeps its share. Of any hundred data in a row that a rule sampling at a rate
    between 0 and 1 decides, wherever the counter is, exactly as many are kept as hundredths
    the rate has, and the others are dropped. *)
Theorem sampling_keeps_its_share e r qs :
  Action r = ActionSample → f64_lt f64_zero (SampleRate r) = true → f64_lt (SampleRate r) f64_one = true →
  0 ≤ sampleCounter e → sampleCounter e + 100 < 2 ^ 64 → length qs = 100%nat →
  Forall (λ tq, find (applies tq.2) (rules e) = Some r) qs →
  let log := (evaluate_all qs e).1 in
  tally (of_action ActionSample) log = Z.min 100 (Z.max 0 (threshold (SampleRate r))) ∧
  tally (of_action ActionDrop) log = 100 - Z.min 100 (Z.max 0 (threshold (SampleRate r))).
Proof.
  intros Ha H0 H1 Hc Hn Hl Hq. cbv zeta.
  pose proof (evaluate_all_samples r qs e Ha H0 H1 Hc ltac:(lia) Hq) as H. rewrite Hl in H.
  apply kept_actions in H as [Hs Hd]. rewrite kept_hundred in Hs, Hd by lia. split; [done|].
  rewrite Hd. unfold kept_at. by rewrite length_fmap, length_seqZ.
Qed.
End specification.
