(* ===== verification/ShapingStore.v ===== *)
(** The table that data shaping keeps its rules in (internal/datashaping/store.go), the handlers
    that change it (internal/web/datashaping_handlers.go) and the adapter through which the
    store of metrics asks it (cmd/dogwatch/main.go); a restart restores the rules, and what is
    recorded is what the rules leave. *)

From Stdlib Require Import String.
From stdpp Require Import base option list numbers gmap strings sorting relations.
From S2P Require Import Prelude Float64 Values PromValue CustomMetrics PromIndex DataShaping ShapingSpec.

Section store.
Context {RT : Runtime}.

(** ** Rows *)

Record ruleConfig := mkConfig {
  cf_NamePattern : string; cf_TagMatches : gmap string string; cf_TagPatterns : gmap string string;
  cf_LevelMatch : string; cf_ServiceMatch : string; cf_SampleRate : float64; cf_AggregateBy : list string;
  cf_DropTags : list string; cf_AddTags : gmap string string }.
Definition config_of (r : Rule) : ruleConfig :=
  mkConfig (NamePattern r) (TagMatches r) (TagPatterns r) (LevelMatch r) (ServiceMatch r) (SampleRate r)
    (AggregateBy r) (DropTags r) (AddTags r).
Definition no_config : ruleConfig := mkConfig "" ∅ ∅ "" "" f64_zero [] [] ∅.

Record RuleRow := mkRuleRow {
  row_id : string; row_name : string; row_description : string; row_enabled : Z; row_priority : Z;
  row_data_type : string; row_action : string; row_config : string; row_created_at : Time; row_updated_at : Time;
  row_created_by : string }.

(** The JSON of a configuration ([""] when it has none), and ORDER BY priority ASC. *)
Class RuleTable := {
  json_config : ruleConfig → string;
  unmarshal_config : string → option ruleConfig;
  rows_by_priority : list RuleRow → list RuleRow;
}.
Context {TB : RuleTable}.

Definition enabled_int (b : bool) : Z := if b then 1 else 0.
Definition row_of (r : Rule) : RuleRow :=
  mkRuleRow (ID r) (Name r) (Description r) (enabled_int (Enabled r)) (Priority r) (r_DataType r) (Action r)
    (json_config (config_of r)) (CreatedAt r) (UpdatedAt r) (CreatedBy r).
Definition row_rule_config (row : RuleRow) : ruleConfig :=
  if String.eqb (row_config row) "" then no_config else default no_config (unmarshal_config (row_config row)).
Definition rule_of_row (row : RuleRow) : Rule :=
  let c := row_rule_config row in
  mkRule (row_id row) (row_name row) (row_description row) (row_enabled row =? 1) (row_priority row)
    (row_data_type row) (row_action row) (cf_NamePattern c) (cf_TagMatches c) (cf_TagPatterns c) (cf_LevelMatch c)
    (cf_ServiceMatch c) (cf_SampleRate c) (cf_AggregateBy c) (cf_DropTags c) (cf_AddTags c) (row_created_at row)
    (row_updated_at row) (row_created_by row) None ∅ None.

(** ** The store *)

Record ShapingStore := mkShapingStore { sh_db : list RuleRow; engine : Engine }.

(** A rule that does not compile is passed over. *)
Definition load_rule (e : Engine) (row : RuleRow) : Engine :=
  match AddRule (rule_of_row row) e with Ok e => e | _ => e end.
Definition loadRules (rows : list RuleRow) (e : Engine) : Engine := foldl load_rule e (rows_by_priority rows).
Definition NewStore (rows : list RuleRow) : ShapingStore := mkShapingStore rows (loadRules rows NewEngine).

(** The error of the engine, if there is one, and its new state. *)
Definition add_to_engine (rows : list RuleRow) (r : Rule) (s : ShapingStore) : option string * ShapingStore :=
  match AddRule r (engine s) with
  | Ok e => (None, mkShapingStore rows e)
  | Err m | Panic m => (Some m, mkShapingStore rows (engine s))
  end.
Definition with_times (created updated : Time) (r : Rule) : Rule :=
  mkRule (ID r) (Name r) (Description r) (Enabled r) (Priority r) (r_DataType r) (Action r) (NamePattern r)
    (TagMatches r) (TagPatterns r) (LevelMatch r) (ServiceMatch r) (SampleRate r) (AggregateBy r) (DropTags r)
    (AddTags r) created updated (CreatedBy r) (nameRegex r) (tagRegexes r) (serviceRegex r).

Definition has_row (id : string) (rows : list RuleRow) : bool := existsb (λ row, String.eqb (row_id row) id) rows.
Definition unique_failed : string := "UNIQUE constraint failed: shaping_rules.id".

(** The identifier is the primary key. *)
Definition CreateRule (now : Time) (r : Rule) (s : ShapingStore) : option string * ShapingStore :=
  let r := with_times (if IsZero (CreatedAt r) then now else CreatedAt r) now r in
  if has_row (ID r) (sh_db s) then (Some unique_failed, s)
  else add_to_engine (sh_db s ++ [row_of r]) r s.

Definition update_row (r : Rule) (row : RuleRow) : RuleRow :=
  if String.eqb (row_id row) (ID r) then
    mkRuleRow (row_id row) (Name r) (Description r) (enabled_int (Enabled r)) (Priority r) (r_DataType r) (Action r)
      (json_config (config_of r)) (row_created_at row) (UpdatedAt r) (row_created_by row)
  else row.
Definition UpdateRule (now : Time) (r : Rule) (s : ShapingStore) : option string * ShapingStore :=
  let r := with_times (CreatedAt r) now r in
  add_to_engine (update_row r <$> sh_db s) r s.

Definition DeleteRule (id : string) (s : ShapingStore) : ShapingStore :=
  mkShapingStore (filter (λ row, row_id row ≠ id) (sh_db s)) (RemoveRule id (engine s)).2.

Definition enable_row (now : Time) (id : string) (b : bool) (row : RuleRow) : RuleRow :=
  if String.eqb (row_id row) id then
    mkRuleRow (row_id row) (row_name row) (row_description row) (enabled_int b) (row_priority row) (row_data_type row)
      (row_action row) (row_config row) (row_created_at row) now (row_created_by row)
  else row.
Definition EnableRule (now : Time) (id : string) (b : bool) (s : ShapingStore) : ShapingStore :=
  mkShapingStore (enable_row now id b <$> sh_db s) (set_enabled id b (engine s)).

Definition put_engine (e : Engine) (s : ShapingStore) : ShapingStore := mkShapingStore (sh_db s) e.
Definition Store_Evaluate (now : Time) (q : DataShaping.Query) (s : ShapingStore) : Decision * ShapingStore :=
  let '(d, e) := Evaluate now q (engine s) in (d, put_engine e s).
Definition Store_EvaluateMetric (now : Time) (name : string) (tags : gmap string string) (sizeBytes : Z)
    (s : ShapingStore) : Decision * ShapingStore :=
  let '(d, e) := EvaluateMetric now name tags sizeBytes (engine s) in (d, put_engine e s).
Definition Store_ResetStats (s : ShapingStore) : ShapingStore := put_engine (ResetStats (engine s)) s.

(** ** The adapter of the store of metrics *)

(** The tags that are not dropped, under those that are added. *)
Definition applyTagTransforms (tags : Labels) (dropTags : list string) (addTags : gmap string string) : Labels :=
  addTags ∪ filter (λ kv, kv.1 ∉ dropTags) tags.

Definition adapter_answer (tags : Labels) (d : Decision) : bool * option Labels :=
  if String.eqb (d_Action d) ActionDrop then (false, None)
  else if String.eqb (d_Action d) ActionTransform then (true, Some (applyTagTransforms tags (d_DropTags d) (d_AddTags d)))
  else (true, Some tags).
Definition adapter_EvaluateMetric (now : Time) (name : string) (tags : Labels) (sizeBytes : Z)
    (store : option ShapingStore) : (bool * option Labels) * option ShapingStore :=
  match store with
  | None => ((true, Some tags), None)
  | Some s => let '(d, s) := Store_EvaluateMetric now name tags sizeBytes s in (adapter_answer tags d, Some s)
  end.

(** Recording through the adapter: the rules are asked once, with a size of 100 bytes. *)
Definition record_shaped {EN : Encodings} {H : Type} (cardinalityHook : option (string → Labels → H → H))
    (now : Time) (dp : DataPoint) (ms : @Store H) (ss : option ShapingStore) : @Store H * option ShapingStore :=
  let ask := λ name tags, adapter_EvaluateMetric now name tags 100 ss in
  (Record_ cardinalityHook (Some (λ name tags, (ask name tags).1)) now dp ms,
   (ask (dp_Name dp) (dp_Tags dp)).2).

(** ** The handlers *)

(** Whether data is kept, and the decision when there is a store. *)
Definition ApplyDataShaping (now : Time) (q : DataShaping.Query) (store : option ShapingStore) :
    bool * option Decision * option ShapingStore :=
  match store with
  | None => (true, None, None)
  | Some s =>
      let '(d, s) := Store_Evaluate now q s in (negb (String.eqb (d_Action d) ActionDrop), Some d, Some s)
  end.
Definition ApplyMetricShaping (now : Time) (name : string) (tags : Labels) (sizeBytes : Z) (store : option ShapingStore) :
    (bool * option Labels) * option ShapingStore :=
  let '(keep, decision, store) := ApplyDataShaping now (mkQuery DataTypeMetric name tags "" "" sizeBytes) store in
  if negb keep then ((false, None), store)
  else
    ((true, Some match decision with
                 | Some d => if String.eqb (d_Action d) ActionTransform
                             then applyTagTransforms tags (d_DropTags d) (d_AddTags d) else tags
                 | None => tags
                 end), store).
Definition ApplyLogShaping (now : Time) (service level : string) (tags : Labels) (sizeBytes : Z)
    (store : option ShapingStore) : bool * option ShapingStore :=
  let '(keep, _, store) := ApplyDataShaping now (mkQuery DataTypeLog "" tags level service sizeBytes) store in
  (keep, store).
Definition ApplyTraceShaping (now : Time) (service : string) (tags : Labels) (sizeBytes : Z)
    (store : option ShapingStore) : bool * option ShapingStore :=
  let '(keep, _, store) := ApplyDataShaping now (mkQuery DataTypeTrace "" tags "" service sizeBytes) store in
  (keep, store).

(** What a handler answers: the status, and the text of an error. *)
Record Response := mkResponse { status : Z; error_text : string }.

Definition with_ID (id : string) (r : Rule) : Rule :=
  mkRule id (Name r) (Description r) (Enabled r) (Priority r) (r_DataType r) (Action r) (NamePattern r)
    (TagMatches r) (TagPatterns r) (LevelMatch r) (ServiceMatch r) (SampleRate r) (AggregateBy r) (DropTags r)
    (AddTags r) (CreatedAt r) (UpdatedAt r) (CreatedBy r) (nameRegex r) (tagRegexes r) (serviceRegex r).
Definition known_action (a : string) : bool :=
  existsb (String.eqb a) [ActionDrop; ActionSample; ActionAggregate; ActionKeep; ActionTransform].

(** A new rule is checked ([None] is no objection). *)
Definition rule_objection (r : Rule) : option string :=
  if String.eqb (Name r) "" then Some "name is required"
  else if String.eqb (r_DataType r) "" then Some "data_type is required"
  else if String.eqb (Action r) "" then Some "action is required"
  else if negb (known_action (Action r)) then Some ("invalid action: " +:+ Action r)
  else if String.eqb (Action r) ActionSample && (f64_le (SampleRate r) f64_zero || f64_gt (SampleRate r) f64_one)
       then Some "sample_rate must be between 0 and 1"
  else None.

(** POST of data to try the rules on, and whether it would be kept. *)
Definition would_keep (d : Decision) : bool :=
  String.eqb (d_Action d) ActionKeep || String.eqb (d_Action d) ActionTransform || String.eqb (d_Action d) ActionAggregate.
Definition test_rules (now : Time) (q : DataShaping.Query) (s : ShapingStore) : bool * Decision * ShapingStore :=
  let q := if q_sizeBytes q =? 0 then mkQuery (q_dataType q) (q_name q) (q_tags q) (q_level q) (q_service q) 100 else q in
  let '(d, s) := Store_Evaluate now q s in (would_keep d, d, s).

(** POST of a rule that was read, [generated] an identifier for one without. *)
Definition post_rule (now : Time) (generated : string) (r : Rule) (s : ShapingStore) : Response * ShapingStore :=
  let r := if String.eqb (ID r) "" then with_ID generated r else r in
  match rule_objection r with
  | Some e => (mkResponse 400 e, s)
  | None =>
      match CreateRule now r s with
      | (None, s) => (mkResponse 201 "", s)
      | (Some e, s) => (mkResponse 500 ("Failed to create rule: " +:+ e), s)
      end
  end.
(** PUT: the rule is not checked. *)
Definition put_rule (now : Time) (id : string) (r : Rule) (s : ShapingStore) : Response * ShapingStore :=
  match UpdateRule now (with_ID id r) s with
  | (None, s) => (mkResponse 200 "", s)
  | (Some e, s) => (mkResponse 500 ("Failed to update rule: " +:+ e), s)
  end.

(** ** A restart *)

(** What decides about data: a rule without its times and its author, nor what was compiled. *)
Definition content (r : Rule) : Rule :=
  mkRule (ID r) (Name r) (Description r) (Enabled r) (Priority r) (r_DataType r) (Action r) (NamePattern r)
    (TagMatches r) (TagPatterns r) (LevelMatch r) (ServiceMatch r) (SampleRate r) (AggregateBy r) (DropTags r)
    (AddTags r) zero_time zero_time "" None ∅ None.

Definition rows_table (rows : list RuleRow) : gmap string Rule :=
  list_to_map ((λ row, (row_id row, content (rule_of_row row))) <$> rows).

(** The JSON of the configuration of a rule reads back. *)
Definition storable (r : Rule) : Prop :=
  json_config (config_of r) ≠ ""%string ∧ unmarshal_config (json_config (config_of r)) = Some (config_of r).

Context (Hvisits : visits_maps) (Hrows : ∀ rows, rows_by_priority rows ≡ₚ rows).

Lemma row_config_of r row : storable r → row_config row = json_config (config_of r) → row_rule_config row = config_of r.
Proof.
  intros [Hne Hu] E. unfold row_rule_config. rewrite E, Hu. by apply String.eqb_neq in Hne as ->.
Qed.
Lemma content_row_of r : storable r → content (rule_of_row (row_of r)) = content r.
Proof.
  intros Hr. unfold rule_of_row. rewrite (row_config_of r) by done. unfold content; cbn.
  by destruct (Enabled r).
Qed.
Lemma content_update_row r row : storable r → row_id row = ID r → content (rule_of_row (update_row r row)) = content r.
Proof.
  intros Hr Hid. unfold update_row. rewrite Hid, String.eqb_refl. unfold rule_of_row.
  rewrite (row_config_of r) by done. unfold content; cbn. by destruct (Enabled r).
Qed.
Lemma content_enable_row now id b row : row_id row = id →
  content (rule_of_row (enable_row now id b row)) = with_enabled b (content (rule_of_row row)).
Proof.
  intros <-. unfold enable_row. rewrite String.eqb_refl. unfold content, rule_of_row, row_rule_config; cbn.
  by destruct b.
Qed.

Lemma compiles_content r : compiles (content r) ↔ compiles r.
Proof. by split; intros []. Qed.
Lemma content_source r : content (source r) = content r.
Proof. done. Qed.

(** Every rule of the table compiles, is under its identifier, and the engine has it; of the rules of
    the engine the table has all but those under some identifiers. *)
Record stored (gone : gset string) (s : ShapingStore) : Prop := {
  st_ok : engine_ok (engine s);
  st_ids : NoDup (row_id <$> sh_db s);
  st_same id : rows_table (sh_db s) !! id = if decide (id ∈ gone) then None else content <$> table (engine s) !! id;
  st_compiles : Forall (λ row, compiles (rule_of_row row)) (sh_db s);
}.

Lemma has_row_spec id rows : has_row id rows = true ↔ id ∈ row_id <$> rows.
Proof.
  unfold has_row. rewrite existsb_exists, list_elem_of_fmap. split.
  - intros (row & Hin%list_elem_of_In & <-%String.eqb_eq). eauto.
  - intros (row & -> & Hin%list_elem_of_In). exists row. by rewrite String.eqb_refl.
Qed.
Lemma has_row_none id rows : has_row id rows = false ↔ id ∉ row_id <$> rows.
Proof. rewrite <- has_row_spec. by destruct (has_row id rows). Qed.

Lemma rows_table_none id rows : id ∉ row_id <$> rows → rows_table rows !! id = None.
Proof. intros H. apply not_elem_of_list_to_map_1. by rewrite <- list_fmap_compose. Qed.
Lemma rows_table_perm rows rows' : NoDup (row_id <$> rows) → rows ≡ₚ rows' → rows_table rows = rows_table rows'.
Proof. intros Hnd Hp. apply list_to_map_proper; [by rewrite <- list_fmap_compose|by rewrite Hp]. Qed.
Lemma rows_table_cons row rows : rows_table (row :: rows) = <[row_id row := content (rule_of_row row)]> (rows_table rows).
Proof. done. Qed.
Lemma rows_table_snoc rows row : row_id row ∉ row_id <$> rows →
  rows_table (rows ++ [row]) = <[row_id row := content (rule_of_row row)]> (rows_table rows).
Proof.
  induction rows as [|x rows IH]; [done|]. intros [Hx H]%not_elem_of_cons. rewrite <- app_comm_cons, !rows_table_cons, IH by done.
  by rewrite insert_insert_ne.
Qed.
(** A function of one row is the function of the entry of its identifier. *)
Lemma rows_table_fmap f g id rows : NoDup (row_id <$> rows) → (∀ row, row_id (f row) = row_id row) →
  (∀ row, row_id row ≠ id → f row = row) →
  (∀ row, row ∈ rows → row_id row = id → content (rule_of_row (f row)) = g (content (rule_of_row row))) →
  rows_table (f <$> rows) = alter g id (rows_table rows).
Proof.
  intros Hnd Hf Hne Hg. induction rows as [|x rows IH]; [symmetry; apply (alter_id g (∅ : gmap string Rule)); intros y; by rewrite lookup_empty|].
  cbn [fmap list_fmap] in *. apply NoDup_cons in Hnd as [Hx Hnd]. rewrite !rows_table_cons, Hf.
  destruct (decide (row_id x = id)) as [<-|Hid].
  - rewrite Hg by (done || constructor). rewrite alter_insert_eq. f_equal.
    assert (E : f <$> rows = rows); [|by rewrite E].
    clear IH Hg Hnd. induction rows as [|y rows IH]; [done|]. apply not_elem_of_cons in Hx as [Hxy Hx]. cbn [fmap list_fmap].
    rewrite IH, Hne; done.
  - rewrite Hne by done. rewrite alter_insert_ne by done. f_equal. apply IH; [done|]. intros row Hr. apply Hg. by constructor.
Qed.
Lemma rows_table_delete id rows : rows_table (filter (λ row, row_id row ≠ id) rows) = delete id (rows_table rows).
Proof.
  induction rows as [|x rows IH]; [by rewrite delete_id|]. rewrite filter_cons, rows_table_cons. case_decide as Hx.
  - by rewrite rows_table_cons, IH, delete_insert_ne.
  - by rewrite Hx, IH, delete_insert_eq.
Qed.

Lemma rows_table_has id rows : NoDup (row_id <$> rows) → id ∈ row_id <$> rows → is_Some (rows_table rows !! id).
Proof.
  intros Hnd (row & -> & Hrow)%list_elem_of_fmap. exists (content (rule_of_row row)).
  apply elem_of_list_to_map; [by rewrite <- list_fmap_compose|]. apply list_elem_of_fmap. eauto.
Qed.

(** Adding to the engine what was written to the table. *)
Lemma add_stored gone rows r s s' : stored gone s → source r = r → add_to_engine rows r s = (None, s') →
  (compiles r → NoDup (row_id <$> rows) ∧ rows_table rows = <[ID r := content r]> (rows_table (sh_db s)) ∧
     Forall (λ row, compiles (rule_of_row row)) rows) → stored (gone ∖ {[ID r]}) s'.
Proof.
  intros Hs Hr Hadd Hrow. unfold add_to_engine in Hadd. pose proof (AddRule_ok Hvisits r _ (st_ok _ _ Hs) Hr) as H.
  destruct (AddRule r (engine s)) as [e|m|m]; [|done|done]. destruct H as (Hc & He & Ht). injection Hadd as <-.
  destruct (Hrow Hc) as (Hnd & Hrt & Hcs). split; [done|done| |done]. cbn [engine sh_db]. intros id.
  rewrite Ht, Hrt. destruct (decide (id = ID r)) as [->|Hid].
  - rewrite !lookup_insert_eq, decide_False by set_solver. done.
  - rewrite !lookup_insert_ne, (st_same _ _ Hs) by done. by do 2 case_decide; set_solver.
Qed.

Lemma source_with_times t u r : source r = r → source (with_times t u r) = with_times t u r.
Proof. intros H. by rewrite <- H. Qed.
Lemma NoDup_ids_filter id rows :
  NoDup (row_id <$> rows) → NoDup (row_id <$> filter (λ row, row_id row ≠ id) rows).
Proof.
  induction rows as [|x rows IH]; [done|]. intros [Hx Hnd]%NoDup_cons. rewrite filter_cons. case_decide; [|auto].
  apply NoDup_cons. split; [|auto]. intros (row & E & [_ Hrow]%list_elem_of_filter)%list_elem_of_fmap.
  apply Hx. rewrite E. by apply list_elem_of_fmap_2.
Qed.

Lemma CreateRule_stored gone now r s s' : stored gone s → source r = r → storable r →
  CreateRule now r s = (None, s') → stored (gone ∖ {[ID r]}) s'.
Proof.
  intros Hs Hr Hst. unfold CreateRule. set (r' := with_times _ now r).
  assert (Hr' : source r' = r') by (by apply source_with_times).
  destruct (has_row (ID r') (sh_db s)) eqn:Hnew; [done|]. apply has_row_none in Hnew.
  intros Hadd. eapply (add_stored _ _ r'); [done|done|done|]. intros Hc. split_and!.
  - rewrite fmap_app. apply NoDup_app. split_and!; [apply (st_ids _ _ Hs)| |apply NoDup_singleton].
    by intros x Hx ->%list_elem_of_singleton.
  - rewrite rows_table_snoc by done. by rewrite (content_row_of r').
  - apply Forall_app. split; [apply (st_compiles _ _ Hs)|]. apply Forall_singleton, compiles_content.
    rewrite (content_row_of r') by done. by apply compiles_content.
Qed.

Lemma update_row_id r row : row_id (update_row r row) = row_id row.
Proof. unfold update_row. by case_match. Qed.
Lemma enable_row_id now id b row : row_id (enable_row now id b row) = row_id row.
Proof. unfold enable_row. by case_match. Qed.
Lemma fmap_row_ids f (rows : list RuleRow) : (∀ row, row_id (f row) = row_id row) → row_id <$> (f <$> rows) = row_id <$> rows.
Proof. intros Hf. rewrite <- list_fmap_compose. apply list_fmap_ext. intros _ row _. apply Hf. Qed.

Lemma UpdateRule_stored gone now r s s' : stored gone s → source r = r → storable r → ID r ∈ row_id <$> sh_db s →
  UpdateRule now r s = (None, s') → stored (gone ∖ {[ID r]}) s'.
Proof.
  intros Hs Hr Hst Hin. unfold UpdateRule. set (r' := with_times _ now r).
  assert (Hr' : source r' = r') by (by apply source_with_times).
  assert (Hst' : storable r') by done.
  intros Hadd. eapply (add_stored _ _ r'); [done|done|done|]. intros Hc. split_and!.
  - rewrite fmap_row_ids by apply update_row_id. apply (st_ids _ _ Hs).
  - rewrite (rows_table_fmap (update_row r') (λ _, content r') (ID r)).
    + apply map_eq. intros id. destruct (decide (id = ID r)) as [->|].
      * rewrite lookup_alter_eq, lookup_insert_eq.
        by destruct (rows_table_has _ _ (st_ids _ _ Hs) Hin) as [x ->].
      * by rewrite lookup_alter_ne, lookup_insert_ne.
    + apply (st_ids _ _ Hs).
    + apply update_row_id.
    + intros row Hid. unfold update_row. change (ID r') with (ID r). by apply String.eqb_neq in Hid as ->.
    + intros row _ Hid. by apply (content_update_row r').
  - apply Forall_fmap, (Forall_impl _ _ _ (st_compiles _ _ Hs)). intros row Hrow. cbn.
    destruct (decide (row_id row = ID r)) as [Hid|Hid].
    + apply compiles_content. rewrite (content_update_row r') by done. by apply compiles_content.
    + unfold update_row. change (ID r') with (ID r). by apply String.eqb_neq in Hid as ->.
Qed.

(** An update of a rule that has no row: the engine has the rule, and the table does not. *)
Lemma UpdateRule_gone gone now r s s' : stored gone s → source r = r → ID r ∉ row_id <$> sh_db s →
  UpdateRule now r s = (None, s') → stored (gone ∪ {[ID r]}) s'.
Proof.
  intros Hs Hr Hno. unfold UpdateRule. set (r' := with_times _ now r).
  assert (Hr' : source r' = r') by (by apply source_with_times).
  assert (Hrows' : update_row r' <$> sh_db s = sh_db s).
  { clear -Hno. induction (sh_db s) as [|row rows IH]; [done|]. apply not_elem_of_cons in Hno as [Hne Hno].
    cbn [fmap list_fmap]. f_equal; [|by apply IH]. unfold update_row. change (ID r') with (ID r).
    destruct (String.eqb_spec (row_id row) (ID r)); congruence. }
  rewrite Hrows'. unfold add_to_engine. pose proof (AddRule_ok Hvisits r' _ (st_ok _ _ Hs) Hr') as H.
  destruct (AddRule r' (engine s)) as [e|m|m]; [|done|done]. destruct H as (_ & He & Ht). intros [= <-].
  split; cbn [engine sh_db]; [done|apply (st_ids _ _ Hs)| |apply (st_compiles _ _ Hs)]. intros id. rewrite Ht.
  change (ID r') with (ID r). destruct (decide (id = ID r)) as [->|Hid].
  - rewrite decide_True by set_solver. by apply rows_table_none.
  - rewrite lookup_insert_ne, (st_same _ _ Hs) by done. by do 2 case_decide; set_solver.
Qed.

Lemma DeleteRule_stored gone id s : stored gone s → stored (gone ∖ {[id]}) (DeleteRule id s).
Proof.
  intros Hs. pose proof (remove_rules id _ (st_ok _ _ Hs)) as H. unfold DeleteRule, RemoveRule.
  destruct (removeRuleLocked id (engine s)) as [b e]. destruct H as (He & _ & Ht & _). split; cbn [engine sh_db snd].
  - done.
  - apply NoDup_ids_filter, (st_ids _ _ Hs).
  - intros k. rewrite Ht, rows_table_delete. destruct (decide (k = id)) as [->|Hk].
    + rewrite !lookup_delete_eq. by case_decide.
    + rewrite !lookup_delete_ne, (st_same _ _ Hs) by done. by do 2 case_decide; set_solver.
  - apply Forall_forall. intros row [_ Hrow]%list_elem_of_filter. pose proof (st_compiles _ _ Hs) as H.
    rewrite Forall_forall in H. by apply H.
Qed.

Lemma EnableRule_stored gone now id b s : stored gone s → stored gone (EnableRule now id b s).
Proof.
  intros Hs. destruct (set_enabled_ok id b _ (st_ok _ _ Hs)) as [He Ht]. split; cbn [engine sh_db EnableRule].
  - done.
  - rewrite fmap_row_ids by apply enable_row_id. apply (st_ids _ _ Hs).
  - intros k. rewrite Ht, (rows_table_fmap _ (with_enabled b) id).
    + destruct (decide (k = id)) as [->|].
      * rewrite !lookup_alter_eq, (st_same _ _ Hs). case_decide; [done|]. by destruct (table _ !! id).
      * by rewrite !lookup_alter_ne, (st_same _ _ Hs) by done.
    + apply (st_ids _ _ Hs).
    + apply enable_row_id.
    + intros row Hid. unfold enable_row. by apply String.eqb_neq in Hid as ->.
    + intros row _. apply content_enable_row.
  - apply Forall_fmap, (Forall_impl _ _ _ (st_compiles _ _ Hs)). intros row [? ? ?]. cbn.
    unfold enable_row. case_match; by split.
Qed.

(** The operations that succeed, and the identifiers that are updated without a row: an update of a
    rule that has no row adds it to the engine only. A rule is in the table again when it is
    created, and is nowhere when it is deleted; data may be evaluated in between. *)
Inductive kept_step : ShapingStore * gset string → ShapingStore * gset string → Prop :=
| kept_create now r s s' gone : source r = r → storable r → CreateRule now r s = (None, s') →
    kept_step (s, gone) (s', gone ∖ {[ID r]})
| kept_update now r s s' gone : source r = r → storable r → ID r ∈ row_id <$> sh_db s →
    UpdateRule now r s = (None, s') → kept_step (s, gone) (s', gone ∖ {[ID r]})
| kept_update_gone now r s s' gone : source r = r → ID r ∉ row_id <$> sh_db s →
    UpdateRule now r s = (None, s') → kept_step (s, gone) (s', gone ∪ {[ID r]})
| kept_delete id s gone : kept_step (s, gone) (DeleteRule id s, gone ∖ {[id]})
| kept_enable now id b s gone : kept_step (s, gone) (EnableRule now id b s, gone)
| kept_evaluate now q s gone : kept_step (s, gone) ((Store_Evaluate now q s).2, gone)
| kept_reset s gone : kept_step (s, gone) (Store_ResetStats s, gone).

Lemma stored_engine gone s e : stored gone s → engine_ok e → table e = table (engine s) → stored gone (put_engine e s).
Proof. intros [? ? ? ?] He Ht. split; cbn; [done|done|by rewrite Ht|done]. Qed.

Lemma kept_step_stored t t' : kept_step t t' → stored t.2 t.1 → stored t'.2 t'.1.
Proof.
  intros H Hs. destruct H; cbn [fst snd] in *.
  - by eapply CreateRule_stored.
  - by eapply UpdateRule_stored.
  - by eapply UpdateRule_gone.
  - by apply DeleteRule_stored.
  - by apply EnableRule_stored.
  - unfold Store_Evaluate. pose proof (Evaluate_ok Hvisits now q _ (st_ok _ _ Hs)) as H.
    destruct (Evaluate now q (engine s)) as [d e]. destruct H as (He & Ht & _). by apply stored_engine.
  - destruct (reset_tallied _ (st_ok _ _ Hs)) as [_ He]. by apply stored_engine.
Qed.

(** Loading rows with different identifiers. *)
Lemma load_rows rows : ∀ e, engine_ok e → Forall (λ row, compiles (rule_of_row row)) rows →
  NoDup (row_id <$> rows) →
  let e' := foldl load_rule e rows in
  engine_ok e' ∧ content <$> table e' = rows_table rows ∪ (content <$> table e).
Proof.
  induction rows as [|row rows IH]; intros e He Hc Hnd e'; subst e'; cbn [foldl].
  - split; [done|]. symmetry. apply (left_id_L ∅ (∪)).
  - apply Forall_cons in Hc as [Hrow Hc]. cbn [fmap list_fmap] in Hnd. apply NoDup_cons in Hnd as [Hid Hnd].
    unfold load_rule at 2 4. pose proof (AddRule_ok Hvisits (rule_of_row row) e He eq_refl) as H.
    destruct (AddRule (rule_of_row row) e) as [e1|m|m]; [|done|done]. destruct H as (_ & He1 & Ht1).
    destruct (IH e1 He1 Hc Hnd) as [He' Ht']. split; [done|]. rewrite Ht', Ht1, fmap_insert, rows_table_cons.
    rewrite <- insert_union_r, insert_union_l; [done|]. by apply rows_table_none.
Qed.

Lemma NewStore_stored rows : Forall (λ row, compiles (rule_of_row row)) rows → NoDup (row_id <$> rows) →
  stored ∅ (NewStore rows).
Proof.
  intros Hc Hnd. unfold NewStore, loadRules.
  destruct (load_rows (rows_by_priority rows) NewEngine NewEngine_ok) as [He Ht]; [by rewrite Hrows|by rewrite Hrows|].
  split; cbn [engine sh_db]; [done|done| |done]. intros id. rewrite decide_False by set_solver. rewrite <- lookup_fmap, Ht.
  change (content <$> table NewEngine) with (content <$> (∅ : gmap string Rule)).
  rewrite fmap_empty, map_union_empty. f_equal. apply rows_table_perm; [done|]. by rewrite Hrows.
Qed.

(** Rules of the same content decide alike. *)
Lemma decides_content r r' d : content r = content r' → decides r d → decides r' d.
Proof.
  intros E H.
  assert (E0 : decides (content r) d).
  { destruct H; [by apply (decides_sampled (content r))|by apply (decides_transform (content r))
      |by apply (decides_aggregate (content r))|by apply (decides_plain (content r))]. }
  rewrite E in E0. inversion E0; subst; [by apply (decides_sampled r')|by apply (decides_transform r')
      |by apply (decides_aggregate r')|by apply (decides_plain r')].
Qed.
Lemma selects_content q r : selects q (content r) ↔ selects q r.
Proof. by split; intros []. Qed.

Lemma same_content (T T' : gmap string Rule) id r : content <$> T = content <$> T' → T !! id = Some r →
  ∃ r', T' !! id = Some r' ∧ content r' = content r.
Proof.
  intros E Hr. apply (f_equal (λ m, m !! id)) in E. rewrite !lookup_fmap, Hr in E.
  destruct (T' !! id) as [r'|]; [|done]. apply (inj Some) in E. eauto.
Qed.

Lemma same_decisions (T T' : gmap string Rule) now q d : content <$> T = content <$> T' →
  table_step T (OpEvaluate now q) (Decided d) T → table_step T' (OpEvaluate now q) (Decided d) T'.
Proof.
  intros E H. inversion H as [| | | |? ? id r ? Hr Hen Hsel Hleast Hd|? ? Hno|]; subst.
  - destruct (same_content _ _ _ _ E Hr) as (r' & Hr' & Ec).
    apply (table_decide _ _ _ id r'); [done| | | |by eapply decides_content].
    + pose proof (f_equal Enabled Ec). cbn in *. congruence.
    + by apply selects_content; rewrite Ec; apply selects_content.
    + intros id2 r2 Hr2 Hen2 Hsel2. symmetry in E. destruct (same_content _ _ _ _ E Hr2) as (r3 & Hr3 & Ec3).
      assert (Priority r' = Priority r) as -> by exact (f_equal Priority Ec).
      assert (Priority r2 = Priority r3) as -> by exact (eq_sym (f_equal Priority Ec3)).
      apply (Hleast id2 r3 Hr3); [pose proof (f_equal Enabled Ec3); cbn in *; congruence|]. by apply selects_content; rewrite Ec3; apply selects_content.
  - constructor. intros id r Hr Hen Hsel. symmetry in E. destruct (same_content _ _ _ _ E Hr) as (r' & Hr' & Ec).
    apply (Hno id r' Hr'); [pose proof (f_equal Enabled Ec); cbn in *; congruence|]. by apply selects_content; rewrite Ec; apply selects_content.
Qed.

(** The rules that a restart remembers. *)
Definition remembered (gone : gset string) (T : gmap string Rule) : gmap string Rule :=
  filter (λ kv, kv.1 ∉ gone) T.


(** ** Recording through the adapter *)

Lemma applyTagTransforms_lookup tags drop add k v : applyTagTransforms tags drop add !! k = Some v ↔
  add !! k = Some v ∨ (add !! k = None ∧ k ∉ drop ∧ tags !! k = Some v).
Proof.
  unfold applyTagTransforms. rewrite lookup_union_Some_raw, map_lookup_filter_Some. naive_solver.
Qed.
Lemma with_same_tags dp : with_tags (dp_Tags dp) dp = dp.
Proof. by destruct dp. Qed.

(** C32: What the store of metrics records is what the rules leave. Recording a point through the
    adapter asks the rules once, and they answer as the table of rules does: a point that is
    dropped changes nothing; one that is transformed is written with the tags that are added and
    those of its own that are neither dropped nor replaced; any other is written as it came. *)
Theorem recording_is_shaped {EN : Encodings} {H : Type} (hook : option (string → Labels → H → H)) now dp
    (ms : @Store H) ss : engine_ok (engine ss) →
  let '(ms', ss') := record_shaped hook now dp ms (Some ss) in
  ∃ d e', ss' = Some (put_engine e' ss) ∧ engine_ok e' ∧ table e' = table (engine ss) ∧
    table_step (table (engine ss)) (OpEvaluate now (mkQuery DataTypeMetric (dp_Name dp) (dp_Tags dp) "" "" 100))
      (Decided d) (table e') ∧
    (d_Action d = ActionDrop → ms' = ms) ∧
    (d_Action d = ActionTransform → ∃ tags,
       db ms' = insert_point (with_tags tags (with_time now dp)) (db ms) ∧
       ∀ k v, tags !! k = Some v ↔
         d_AddTags d !! k = Some v ∨ (d_AddTags d !! k = None ∧ k ∉ d_DropTags d ∧ dp_Tags dp !! k = Some v)) ∧
    (d_Action d ≠ ActionDrop → d_Action d ≠ ActionTransform → db ms' = insert_point (with_time now dp) (db ms)).
Proof.
  intros He. unfold record_shaped, adapter_EvaluateMetric, Store_EvaluateMetric, EvaluateMetric.
  set (q := mkQuery DataTypeMetric (dp_Name dp) (dp_Tags dp) "" "" 100).
  pose proof (Evaluate_ok Hvisits now q _ He) as Hev.
  assert (Hrec := λ f, Record_db hook (Some f) now dp ms). unfold kept_point in Hrec.
  change (dp_Name (with_time now dp)) with (dp_Name dp) in Hrec.
  change (dp_Tags (with_time now dp)) with (dp_Tags dp) in Hrec.
  match goal with |- context [Record_ hook (Some ?f) now dp ms] => specialize (Hrec f) end.
  cbn beta in Hrec. fold q in Hrec. fold q. destruct (Evaluate now q (engine ss)) as [d e'] eqn:Eq.
  destruct Hev as (He' & Ht & Hstep). exists d, e'. rewrite Ht. cbn [fst snd] in *. unfold adapter_answer in *.
  split_and!; [done|done|done|done| | |].
  - intros Hd. unfold Record_. change (dp_Name (with_time now dp)) with (dp_Name dp).
    change (dp_Tags (with_time now dp)) with (dp_Tags dp). fold q. rewrite Eq. cbn [fst]. by rewrite Hd.
  - intros Hd. rewrite Hd in Hrec. exists (applyTagTransforms (dp_Tags dp) (d_DropTags d) (d_AddTags d)).
    split; [done|]. apply applyTagTransforms_lookup.
  - intros Hd Hd'. apply String.eqb_neq in Hd. apply String.eqb_neq in Hd'. rewrite Hd, Hd' in Hrec.
    rewrite Hrec. by rewrite <- (with_same_tags (with_time now dp)) at 2.
Qed.
End store.
