(* ===== verification/ShapingExamples.v ===== *)
(** Data shaping on small rules: the theorems of ShapingSpec.v and ShapingStore.v applied to
    them, and the places where the code does not do what it means to. *)

From Stdlib Require Import String Ascii SpecFloat.
From stdpp Require Import base option list numbers gmap strings sorting relations pretty.
From S2P Require Import Prelude Float64 Values Demo PromValue CustomMetrics PromIndex DataShaping ShapingSpec ShapingStore.

(** A pattern matches itself, ["*"] everything, and ["("] does not compile. *)
#[local] Instance shaping_runtime : Runtime := {|
  runtime_fmt := @runtime_fmt demo_runtime; ParseFloat := @ParseFloat demo_runtime;
  fmt_value := @fmt_value demo_runtime;
  Regexp := string;
  regexp_Compile := λ p, if String.eqb p "(" then inr "missing closing )" else inl p;
  MatchString := λ p s, String.eqb p "*" || String.eqb p s;
  FindStringSubmatch := λ _ _, None; FindAllStringSubmatch := λ _ _, []; SubexpNames := λ _, [];
  ReplaceAllStringFunc := λ _ _ s, s; ToUpper := λ s, s; ReplaceAll := λ s _ _, s; Split := λ s _, [s];
  math_Round := λ x, x; math_Floor := λ x, x; math_Ceil := λ x, x; math_Log := λ x, x;
  math_Log10 := λ x, x; math_Pow := λ x _, x;
  sort_Slice := λ A less, insertion_sort less; map_order := λ A, map_to_list |}.
Lemma shaping_visits : visits_maps.
Proof. intros A m. reflexivity. Qed.

(** The configuration of a rule that asks for a name only and samples at a rate. *)
#[local] Instance demo_rule_table : RuleTable := {|
  json_config := λ c, "name=" +:+ cf_NamePattern c;
  unmarshal_config := λ s, Some (mkConfig (String.substring 5 (String.length s - 5) s) ∅ ∅ "" "" f64_zero [] [] ∅);
  rows_by_priority := insertion_sort (λ a b, row_priority a <? row_priority b) |}.
Lemma demo_rows rows : rows_by_priority rows ≡ₚ rows.
Proof. apply insertion_sort_perm. Qed.
#[local] Instance demo_label_encodings : Encodings := {|
  json_labels := λ m, String.concat "," ((λ kv, kv.1 +:+ "=" +:+ kv.2) <$> map_to_list m);
  unmarshal_labels := λ _, (None, true);
  json_names := String.concat ","; unmarshal_names := λ _, []; sha256_hex := λ s, s;
  order_by := λ A before, insertion_sort before |}.

Definition half : float64 := f64_div (f64_of_Z 1) (f64_of_Z 2).
Definition at_priority (p : Z) (r : Rule) : Rule :=
  mkRule (ID r) (Name r) (Description r) (Enabled r) p (r_DataType r) (Action r) (NamePattern r) (TagMatches r)
    (TagPatterns r) (LevelMatch r) (ServiceMatch r) (SampleRate r) (AggregateBy r) (DropTags r) (AddTags r)
    (CreatedAt r) (UpdatedAt r) (CreatedBy r) (nameRegex r) (tagRegexes r) (serviceRegex r).
Definition drop_debug : Rule := NewDropRule 1 "d" "drop debug" DataTypeMetric "debug".
Definition sample_all : Rule := at_priority 200 (NewSampleRule 1 "s" "sample" DataTypeMetric "*" half).
Definition strip_user : Rule := at_priority 50 (NewDropTagRule 1 "t" "strip" DataTypeMetric "requests" ["user"%string]).
Definition broken : Rule := NewDropRule 1 "b" "broken" DataTypeMetric "(".

Definition ask (name : string) : DataShaping.Query := mkQuery DataTypeMetric name {["user"%string := "ann"%string]} "" "" 10.
Definition demo_ops : list Op :=
  [OpAdd sample_all; OpAdd drop_debug; OpAdd strip_user; OpAdd broken; OpEvaluate 5 (ask "debug");
   OpEvaluate 6 (ask "requests"); OpEnable "d" false; OpEvaluate 7 (ask "debug"); OpRemove "s"; OpEvaluate 8 (ask "debug")].

Example engine_answers : (steps demo_ops NewEngine).1 =
  [Done; Done; Done; Refused "missing closing )";
   Decided (mkDecision ActionDrop "d" "drop debug" f64_zero [] ∅ []);
   Decided (mkDecision ActionTransform "t" "strip" f64_zero ["user"%string] ∅ []);
   Done; Decided (mkDecision ActionSample "s" "sample" half [] ∅ []); Removed true; Decided decide_keep].
Proof. vm_compute. reflexivity. Qed.

Lemma demo_ops_written : Forall written demo_ops.
Proof. repeat constructor. Qed.

Lemma engine_refines_rule_table_witness : let '(answers, e) := steps demo_ops NewEngine in
  table_run ∅ demo_ops answers (table e) ∧ StronglySorted below (GetRules e) ∧
  ∀ id, source <$> GetRule id e = table e !! id.
Proof. apply (engine_refines_rule_table shaping_visits demo_ops). apply demo_ops_written. Defined.

Definition demo_data : list (Time * DataShaping.Query) := [(1, ask "debug"); (2, ask "requests"); (3, ask "debug"); (4, ask "cpu")].
Lemma statistics_tally_witness : let e := (steps (take 3 demo_ops) NewEngine).2 in
  let '(log, e') := evaluate_all demo_data (ResetStats e) in
  log.*1 = demo_data.*2 ∧ totals log (GetStats e') ∧
  (∀ id, id ≠ ""%string → is_Some (table e !! id) →
     ∃ s, es_RuleStats (GetStats e') !! id = Some s ∧ rs_RuleID s = id ∧ rule_totals id log s) ∧
  Z.of_nat (length log) =
    tally (of_action ActionDrop) log + tally (of_action ActionSample) log + tally (of_action ActionTransform) log +
    tally (of_action ActionKeep) log + tally uncounted log.
Proof. apply (statistics_tally shaping_visits (take 3 demo_ops) demo_data). repeat constructor. Defined.

Example demo_statistics : let st := GetStats (evaluate_all demo_data (steps (take 3 demo_ops) NewEngine).2).2 in
  (TotalProcessed st, TotalDropped st, TotalSampled st, TotalTransformed st, BytesSavedEst st) = (4, 2, 1, 1, 20).
Proof. vm_compute. reflexivity. Qed.

Definition compiled_sample : Rule := with_regexes (Some "*"%string) ∅ None sample_all.
Definition hundred_data : list (Time * DataShaping.Query) := repeat (1, ask "cpu") 100.
Definition sampling_engine : Engine := (steps [OpAdd sample_all] NewEngine).2.
Lemma sampling_keeps_its_share_witness : let log := (evaluate_all hundred_data sampling_engine).1 in
  tally (of_action ActionSample) log = Z.min 100 (Z.max 0 (threshold (SampleRate compiled_sample))) ∧
  tally (of_action ActionDrop) log = 100 - Z.min 100 (Z.max 0 (threshold (SampleRate compiled_sample))).
Proof.
  apply (sampling_keeps_its_share sampling_engine compiled_sample hundred_data).
  - reflexivity.
  - vm_compute. reflexivity.
  - vm_compute. reflexivity.
  - vm_compute. discriminate.
  - vm_compute. reflexivity.
  - reflexivity.
  - apply Forall_forall. intros x Hx. apply list_elem_of_In, repeat_spec in Hx as ->. reflexivity.
Defined.
Example half_is_fifty : threshold half = 50.
Proof. vm_compute. reflexivity. Qed.

(** ** A store *)

Definition drop_trace : Rule := NewDropRule 1 "u" "drop trace" DataTypeMetric "trace".
Definition drop_trace_later : Rule := at_priority 300 drop_trace.
Definition store1 : ShapingStore := (CreateRule 2 drop_debug (NewStore [])).2.
Definition store2 : ShapingStore := (CreateRule 3 drop_trace store1).2.
Definition store3 : ShapingStore := (UpdateRule 4 drop_trace_later store2).2.
Definition store4 : ShapingStore := EnableRule 5 "d" false store3.
Definition store5 : ShapingStore := (Store_Evaluate 6 (ask "trace") store4).2.

Lemma pair_split {A B} (p : A * B) a : p.1 = a → p = (a, p.2).
Proof. intros <-. by destruct p. Qed.
Lemma store5_reached : rtc kept_step (NewStore [], ∅) (store5, ∅).
Proof.
  assert (Hc : ∀ id : string, (∅ : gset string) = ∅ ∖ {[id]}) by (intros id; set_solver).
  apply (rtc_l _ _ (store1, ∅)); [rewrite (Hc "d"%string) at 2; apply (kept_create 2 drop_debug); [done|split; [done|vm_compute; reflexivity]|apply pair_split; vm_compute; reflexivity]|].
  apply (rtc_l _ _ (store2, ∅)); [rewrite (Hc "u"%string) at 2; apply (kept_create 3 drop_trace); [done|split; [done|vm_compute; reflexivity]|apply pair_split; vm_compute; reflexivity]|].
  apply (rtc_l _ _ (store3, ∅)); [rewrite (Hc "u"%string) at 2; apply (kept_update 4 drop_trace_later);
    [done|split; [done|vm_compute; reflexivity]|apply (bool_decide_unpack _); vm_compute; exact I|apply pair_split; vm_compute; reflexivity]|].
  apply (rtc_l _ _ (store4, ∅)); [apply kept_enable|]. apply (rtc_l _ _ (store5, ∅)); [apply kept_evaluate|apply rtc_refl].
Qed.


Example restarted_rules : (λ r, (ID r, Enabled r, Priority r)) <$> GetRules (engine (NewStore (sh_db store5))) =
  [("d"%string, false, 100); ("u"%string, true, 300)].
Proof. vm_compute. reflexivity. Qed.

Definition strip_store : ShapingStore := mkShapingStore [] (steps (take 3 demo_ops) NewEngine).2.
Lemma strip_store_ok : engine_ok (engine strip_store).
Proof.
  pose proof (steps_refine shaping_visits (take 3 demo_ops) NewEngine NewEngine_ok ltac:(repeat constructor)) as H.
  unfold strip_store. cbn [engine]. destruct (steps (take 3 demo_ops) NewEngine) as [answers e]. apply H.
Qed.
Definition request_point : DataPoint :=
  mkDataPoint 7 "requests" "gauge" f64_zero (<["job"%string := "api"%string]> {["user"%string := "ann"%string]}).
Definition empty_metrics : @CustomMetrics.Store unit := CustomMetrics.mkStore NewDB ∅ tt.

Lemma recording_is_shaped_witness :
  let '(ms', ss') := record_shaped None 8 request_point empty_metrics (Some strip_store) in
  ∃ d e', ss' = Some (put_engine e' strip_store) ∧ engine_ok e' ∧ table e' = table (engine strip_store) ∧
    table_step (table (engine strip_store))
      (OpEvaluate 8 (mkQuery DataTypeMetric (dp_Name request_point) (dp_Tags request_point) "" "" 100))
      (Decided d) (table e') ∧
    (d_Action d = ActionDrop → ms' = empty_metrics) ∧
    (d_Action d = ActionTransform → ∃ tags,
       db ms' = insert_point (with_tags tags (with_time 8 request_point)) (db empty_metrics) ∧
       ∀ k v, tags !! k = Some v ↔
         d_AddTags d !! k = Some v ∨ (d_AddTags d !! k = None ∧ k ∉ d_DropTags d ∧ dp_Tags request_point !! k = Some v)) ∧
    (d_Action d ≠ ActionDrop → d_Action d ≠ ActionTransform →
       db ms' = insert_point (with_time 8 request_point) (db empty_metrics)).
Proof.
  apply (recording_is_shaped shaping_visits None 8 request_point empty_metrics strip_store). apply strip_store_ok.
Defined.

Example stripped_point : (λ r, (m_name r, m_tags r)) <$> metrics (db (record_shaped None 8 request_point empty_metrics (Some strip_store)).1)
  = [("requests", "job=api")]%string.
Proof. vm_compute. reflexivity. Qed.

(** ** What the code does not do *)

(** The rate is cut to hundredths, of a product that is rounded: a rate below one hundredth keeps
    nothing, and 0.29 keeps 28 of a hundred. *)
Lemma rates_are_cut_to_hundredths :
  threshold (f64_of_decimal 5 3) = 0 ∧ threshold (f64_of_decimal 29 2) = 28.
Proof. vm_compute. done. Qed.

(** One counter serves all rules. Of two rules that keep half of their data, the one that is asked
    for the first half of each hundred keeps nearly all of it, the other one datum of its fifty. *)
Definition sample_cpu : Rule := NewSampleRule 1 "c" "cpu" DataTypeMetric "cpu" half.
Definition sample_disk : Rule := NewSampleRule 1 "k" "disk" DataTypeMetric "disk" half.
Lemma one_counter_for_all_rules :
  let e := (steps [OpAdd sample_cpu; OpAdd sample_disk] NewEngine).2 in
  let log := (evaluate_all (repeat (1, ask "cpu") 50 ++ repeat (2, ask "disk") 50) e).1 in
  tally (both (of_rule "c") (of_action ActionSample)) log = 49 ∧
  tally (both (of_rule "k") (of_action ActionSample)) log = 1.
Proof. vm_compute. done. Qed.

(** A decision to aggregate is processed and counted nowhere. *)
Definition aggregate_all : Rule :=
  mkRule "a" "aggregate" "" true 1 DataTypeAll ActionAggregate "" ∅ ∅ "" "" f64_zero ["job"%string] [] ∅ 1 1 "" None ∅ None.
Lemma aggregates_are_not_counted :
  let st := GetStats (evaluate_all [(1, ask "cpu")] (steps [OpAdd aggregate_all] NewEngine).2).2 in
  TotalProcessed st = 1 ∧ TotalDropped st + TotalSampled st + TotalTransformed st + TotalKept st = 0.
Proof. vm_compute. done. Qed.

(** A rule that does not compile is refused after its row was written: it cannot be created again. *)
Lemma refused_rule_stays_in_the_table :
  let '(e, s) := CreateRule 1 broken (NewStore []) in
  e = Some "missing closing )"%string ∧ ID <$> GetRules (engine s) = [] ∧ row_id <$> sh_db s = ["b"%string] ∧
  (CreateRule 2 (with_ID "b" drop_debug) s).1 = Some unique_failed.
Proof. vm_compute. done. Qed.

(** An update that is refused changes the row: the rule works until a restart, and is gone then. *)
Lemma refused_update_loses_the_rule :
  let '(e, s) := UpdateRule 3 (with_ID "d" broken) store1 in
  e = Some "missing closing )"%string ∧ ID <$> GetRules (engine s) = ["d"%string] ∧
  ID <$> GetRules (engine (NewStore (sh_db s))) = [].
Proof. vm_compute. done. Qed.

(** An update of a rule that the table does not have succeeds, and is forgotten by a restart. *)
Lemma update_of_no_rule_is_forgotten :
  let '(response, s) := put_rule 3 "x" drop_debug (NewStore []) in
  response = mkResponse 200 "" ∧ ID <$> GetRules (engine s) = ["x"%string] ∧
  ID <$> GetRules (engine (NewStore (sh_db s))) = [].
Proof. vm_compute. done. Qed.

(** What is refused of a new rule is accepted of an update: an unknown action keeps the data and
    counts it nowhere. *)
Definition unknown_action : Rule :=
  mkRule "d" "" "" true 1 DataTypeAll "dorp" "" ∅ ∅ "" "" f64_zero [] [] ∅ 1 1 "" None ∅ None.
Lemma updates_are_not_checked :
  rule_objection (with_ID "d" unknown_action) = Some "name is required"%string ∧
  (put_rule 3 "d" unknown_action store1).1 = mkResponse 200 "" ∧
  adapter_answer ∅ (Evaluate 4 (ask "debug") (engine (put_rule 3 "d" unknown_action store1).2)).1 = (true, Some ∅).
Proof. vm_compute. done. Qed.

(** Data that a sampling rule keeps is said to be lost, though the adapter keeps it. *)
Lemma kept_sample_would_not_be_kept :
  let s := mkShapingStore [] sampling_engine in
  let '(kept, d, _) := test_rules 1 (ask "cpu") s in
  kept = false ∧ d_Action d = ActionSample ∧ (adapter_answer ∅ d).1 = true.
Proof. vm_compute. done. Qed.

(** Trying the rules is counted as data, and moves the counter of sampling. *)
Lemma tests_are_counted :
  let s := (test_rules 1 (ask "cpu") (mkShapingStore [] sampling_engine)).2 in
  TotalProcessed (GetStats (engine s)) = 1 ∧ sampleCounter (engine s) = 1.
Proof. vm_compute. done. Qed.
