(* ===== verification/Sampling.v ===== *)
(** Sampling of traces (internal/sampling): the decision by a hash of the trace (head.go, tail.go
    and adaptive.go share it), the sampler by rules that decides on the first span (head.go), the
    sampler that buffers the spans of a trace (types.go, tail.go), the sampler that adapts its
    rate to the traffic (adaptive.go), and the chain of them behind the receiver of spans
    (manager.go, adapter.go, internal/otlp/traces.go). *)

From Stdlib Require Import String Ascii SpecFloat.
From stdpp Require Import base option list numbers gmap strings.
From S2P Require Import Prelude Float64 Values PromFunctions.

(** ** Spans (internal/trace/trace.go) *)

Record Span := mkSpan {
  sp_TraceID : string; sp_SpanID : string; sp_ParentSpanID : string; sp_Name : string; sp_ServiceName : string;
  sp_Kind : string; sp_StartTime : Time; sp_EndTime : Time; sp_DurationMs : float64; sp_Status : string;
  sp_StatusMsg : string; sp_Attributes : gmap string string; sp_ProcessID : Z; sp_Hostname : string;
  sp_ContainerID : string }.

(** ** Decisions and configurations *)

Inductive Decision := DecisionKeep | DecisionDrop | DecisionDefer.
#[export] Instance Decision_eq_dec : EqDecision Decision.
Proof. solve_decision. Defined.
Definition Decision_String (d : Decision) : string :=
  match d with DecisionKeep => "keep" | DecisionDrop => "drop" | DecisionDefer => "defer" end.

Record RuleCondition := mkRuleCondition {
  Service : string; Operation : string; MinLatencyMs : float64; HasError : option bool; SpanKind : string;
  Attributes : gmap string string }.
Record Rule := mkRule {
  ru_ID : string; ru_Name : string; ru_Description : string; ru_Enabled : bool; ru_Priority : Z;
  Condition : RuleCondition; Action : Decision; SampleRate : float64; ru_CreatedAt : Time; ru_UpdatedAt : Time }.
Record HeadSamplerConfig := mkHeadConfig {
  h_Enabled : bool; h_Rules : list Rule; DecisionTTL : Duration; MaxCachedDecisions : Z }.
Record TailSamplerConfig := mkTailConfig {
  t_Enabled : bool; BufferTimeout : Duration; MaxBufferedTraces : Z; MaxSpansPerTrace : Z;
  ErrorSampleRate : float64; LatencyThresholdMs : float64; LatencySampleRate : float64;
  PriorityServices : list string; t_DefaultSampleRate : float64 }.
Record AdaptiveSamplerConfig := mkAdaptiveConfig {
  a_Enabled : bool; TargetTracesPerSecond : float64; MinSampleRate : float64; MaxSampleRate : float64;
  AdjustmentInterval : Duration; SmoothingFactor : float64; PerServiceRates : bool }.
Record SamplerStats := mkSamplerStats {
  TotalSpans : Z; SampledSpans : Z; DroppedSpans : Z; DeferredSpans : Z; CurrentRate : float64 }.

(** The share of the spans that were sampled. *)
Definition sampled_share (sampled total : Z) : float64 :=
  if 0 <? total then f64_div (f64_of_Z sampled) (f64_of_Z total) else f64_zero.

(** ** The hash *)

Definition fnv_offset : Z := 14695981039346656037.
Definition fnv_prime : Z := 1099511628211.
Definition byte_value (c : ascii) : Z := Z.of_N (N_of_ascii c).
(** FNV-1a with 64 bits. *)
Fixpoint fnv1a (h : Z) (s : string) : Z :=
  match s with EmptyString => h | String c s => fnv1a (uwrap64 (Z.lxor h (byte_value c) * fnv_prime)) s end.
Definition normalized (key : string) : float64 :=
  f64_div (f64_of_Z (fnv1a fnv_offset key)) (f64_of_Z (2 ^ 64 - 1)).

Definition shouldSampleByRate (key : string) (rate : float64) : bool :=
  if f64_ge rate f64_one then true
  else if f64_le rate f64_zero then false
  else f64_lt (normalized key) rate.

(** ** The sampler by rules *)

Section head.
Context {RT : Runtime}.

Record cachedDecision := mkCached { c_decision : Decision; c_reason : string; c_ruleID : string; c_timestamp : Time }.
Record compiledRule := mkCompiled {
  cr_rule : Rule; servicePattern : option Regexp; operationPattern : option Regexp }.
Record SamplingResult := mkResult {
  r_Decision : Decision; r_Reason : string; r_RuleID : string; r_SampleRate : float64; r_Timestamp : Time }.
Record HeadSampler := mkHead {
  h_config : HeadSamplerConfig; decisions : gmap string cachedDecision; decisionCount : Z;
  h_totalSpans : Z; h_sampledSpans : Z; h_droppedSpans : Z; compiledRules : list compiledRule }.

(** [regexp.QuoteMeta]. *)
Definition special_byte (c : ascii) : bool :=
  existsb (Ascii.eqb c) ["\"; "."; "+"; "*"; "?"; "("; ")"; "|"; "["; "]"; "{"; "}"; "^"; "$"]%char.
Fixpoint QuoteMeta (s : string) : string :=
  match s with
  | EmptyString => EmptyString
  | String c s => if special_byte c then String "\" (String c (QuoteMeta s)) else String c (QuoteMeta s)
  end.
Definition wildcardToRegex (pattern : string) : string :=
  "^" +:+ ReplaceAll (QuoteMeta pattern) "\*" ".*" +:+ "$".

(** A pattern that does not compile is nil. *)
Definition compile_wildcard (pattern : string) : option Regexp :=
  if String.eqb pattern "" then None
  else match regexp_Compile (wildcardToRegex pattern) with inl re => Some re | inr _ => None end.
Definition compile_rule (r : Rule) : compiledRule :=
  mkCompiled r (compile_wildcard (Service (Condition r))) (compile_wildcard (Operation (Condition r))).
Definition compileRules (rules : list Rule) : list compiledRule :=
  compile_rule <$> List.filter ru_Enabled (sort_Slice (λ a b, ru_Priority b <? ru_Priority a) rules).

Definition NewHeadSampler (config : HeadSamplerConfig) : HeadSampler :=
  mkHead config ∅ 0 0 0 0 (compileRules (h_Rules config)).

Definition unmatched_pattern (re : option Regexp) (s : string) : bool :=
  match re with Some re => negb (MatchString re s) | None => false end.
Definition has_error (s : Span) : bool := String.eqb (sp_Status s) "ERROR".
Definition matchesRule (s : Span) (cr : compiledRule) : bool :=
  let cond := Condition (cr_rule cr) in
  if unmatched_pattern (servicePattern cr) (sp_ServiceName s) then false
  else if unmatched_pattern (operationPattern cr) (sp_Name s) then false
  else if f64_gt (MinLatencyMs cond) f64_zero && f64_lt (sp_DurationMs s) (MinLatencyMs cond) then false
  else if match HasError cond with Some b => negb (Bool.eqb b (has_error s)) | None => false end then false
  else if negb (String.eqb (SpanKind cond) "") && negb (String.eqb (sp_Kind s) (SpanKind cond)) then false
  else forallb (λ kv, match sp_Attributes s !! kv.1 with Some v => String.eqb v kv.2 | None => false end)
         (map_order (Attributes cond)).

(** 0.1, the rate when no rule matches. *)
Definition default_rate : float64 := f64_of_decimal 1 1.
Definition head_makeDecision (now : Time) (s : Span) (hs : HeadSampler) : SamplingResult :=
  match find (matchesRule s) (compiledRules hs) with
  | Some cr =>
      let rule := cr_rule cr in
      let decision :=
        if bool_decide (Action rule = DecisionKeep) && f64_lt (SampleRate rule) f64_one &&
           negb (shouldSampleByRate (sp_TraceID s) (SampleRate rule))
        then DecisionDrop else Action rule in
      mkResult decision ("rule:" +:+ ru_Name rule) (ru_ID rule) (SampleRate rule) now
  | None =>
      mkResult (if shouldSampleByRate (sp_TraceID s) default_rate then DecisionKeep else DecisionDrop)
        "default" "" default_rate now
  end.

Definition evictOldDecisions (now : Time) (config : HeadSamplerConfig) (m : gmap string cachedDecision) :
    gmap string cachedDecision :=
  filter (λ kv, time_Sub now (c_timestamp kv.2) ≤ DecisionTTL config) m.

Definition put_decisions (m : gmap string cachedDecision) (hs : HeadSampler) : HeadSampler :=
  mkHead (h_config hs) m (decisionCount hs) (h_totalSpans hs) (h_sampledSpans hs) (h_droppedSpans hs) (compiledRules hs).
Definition cacheDecision (now : Time) (traceID : string) (r : SamplingResult) (hs : HeadSampler) : HeadSampler :=
  let m := if MaxCachedDecisions (h_config hs) <=? Z.of_nat (size (decisions hs))
           then evictOldDecisions now (h_config hs) (decisions hs) else decisions hs in
  mkHead (h_config hs) (<[traceID := mkCached (r_Decision r) (r_Reason r) (r_RuleID r) (r_Timestamp r)]> m)
    (wrap64 (decisionCount hs + 1)) (h_totalSpans hs) (h_sampledSpans hs) (h_droppedSpans hs) (compiledRules hs).

Definition count_span (hs : HeadSampler) : HeadSampler :=
  mkHead (h_config hs) (decisions hs) (decisionCount hs) (wrap64 (h_totalSpans hs + 1)) (h_sampledSpans hs)
    (h_droppedSpans hs) (compiledRules hs).
Definition count_head_decision (d : Decision) (hs : HeadSampler) : HeadSampler :=
  if bool_decide (d = DecisionKeep) then
    mkHead (h_config hs) (decisions hs) (decisionCount hs) (h_totalSpans hs) (wrap64 (h_sampledSpans hs + 1))
      (h_droppedSpans hs) (compiledRules hs)
  else
    mkHead (h_config hs) (decisions hs) (decisionCount hs) (h_totalSpans hs) (h_sampledSpans hs)
      (wrap64 (h_droppedSpans hs + 1)) (compiledRules hs).

(** [ShouldSample] of an enabled sampler takes the lock twice: the cached decision is looked up, and
    without one a decision is made and then cached. *)
Definition lookup_decision (s : Span) (hs : HeadSampler) : option Decision * HeadSampler :=
  let hs := count_span hs in
  match decisions hs !! sp_TraceID s with
  | Some cached => (Some (c_decision cached), count_head_decision (c_decision cached) hs)
  | None => (None, hs)
  end.
Definition head_cache (now : Time) (traceID : string) (r : SamplingResult) (hs : HeadSampler) : HeadSampler :=
  count_head_decision (r_Decision r) (cacheDecision now traceID r hs).
(** Without another call in between. *)
Definition head_ShouldSample (now : Time) (s : Span) (hs : HeadSampler) : Decision * HeadSampler :=
  if negb (h_Enabled (h_config hs)) then (DecisionKeep, hs)
  else
    match lookup_decision s hs with
    | (Some d, hs) => (d, hs)
    | (None, hs) =>
        let r := head_makeDecision now s hs in
        (r_Decision r, head_cache now (sp_TraceID s) r hs)
    end.

(** The tick of the clean-up. *)
Definition head_cleanup (now : Time) (hs : HeadSampler) : HeadSampler :=
  put_decisions (evictOldDecisions now (h_config hs) (decisions hs)) hs.

Definition head_GetStats (hs : HeadSampler) : SamplerStats :=
  mkSamplerStats (h_totalSpans hs) (h_sampledSpans hs) (h_droppedSpans hs) 0
    (sampled_share (h_sampledSpans hs) (h_totalSpans hs)).

(** Decisions that are cached are kept when the rules change. *)
Definition head_UpdateConfig (config : HeadSamplerConfig) (hs : HeadSampler) : HeadSampler :=
  mkHead config (decisions hs) (decisionCount hs) (h_totalSpans hs) (h_sampledSpans hs) (h_droppedSpans hs)
    (compileRules (h_Rules config)).
Definition with_head_rules (rules : list Rule) (c : HeadSamplerConfig) : HeadSamplerConfig :=
  mkHeadConfig (h_Enabled c) rules (DecisionTTL c) (MaxCachedDecisions c).
Definition put_rules (rules : list Rule) (hs : HeadSampler) : HeadSampler :=
  head_UpdateConfig (with_head_rules rules (h_config hs)) hs.
Definition head_GetRules (hs : HeadSampler) : list Rule := h_Rules (h_config hs).
Definition head_AddRule (r : Rule) (hs : HeadSampler) : HeadSampler := put_rules (head_GetRules hs ++ [r]) hs.
Definition head_RemoveRule (id : string) (hs : HeadSampler) : bool * HeadSampler :=
  match list_find (λ r, ru_ID r = id) (head_GetRules hs) with
  | Some (i, _) => (true, put_rules (delete i (head_GetRules hs)) hs)
  | None => (false, hs)
  end.
Definition head_UpdateRule (r : Rule) (hs : HeadSampler) : bool * HeadSampler :=
  match list_find (λ x, ru_ID x = ru_ID r) (head_GetRules hs) with
  | Some (i, _) => (true, put_rules (<[i := r]> (head_GetRules hs)) hs)
  | None => (false, hs)
  end.
Definition GetDecision (traceID : string) (hs : HeadSampler) : option SamplingResult :=
  (λ c, mkResult (c_decision c) (c_reason c) (c_ruleID c) f64_zero (c_timestamp c)) <$> decisions hs !! traceID.
End head.

(** ** The sampler of whole traces *)

Record TraceBuffer := mkBuffer {
  tb_TraceID : string; Spans : list Span; FirstSeen : Time; LastUpdated : Time; tb_HasError : bool;
  MaxLatency : float64; RootService : string }.
Definition SpanCount (b : TraceBuffer) : Z := Z.of_nat (length (Spans b)).
Definition AddSpan (now : Time) (s : Span) (b : TraceBuffer) : TraceBuffer :=
  mkBuffer (tb_TraceID b) (Spans b ++ [s]) (FirstSeen b) now
    (if has_error s then true else tb_HasError b)
    (if f64_gt (sp_DurationMs s) (MaxLatency b) then sp_DurationMs s else MaxLatency b)
    (if String.eqb (sp_ParentSpanID s) "" && String.eqb (RootService b) "" then sp_ServiceName s else RootService b).

(** What is done with a trace: [onKeep] is called with its spans, or [onDrop] with its
    identifier and their number; and the reason that is logged. *)
Inductive Verdict := Kept (traceID : string) (spans : list Span) (reason : string)
                   | Dropped (traceID : string) (spans : list Span) (reason : string).

Record TailSampler := mkTail {
  t_config : TailSamplerConfig; traces : gmap string TraceBuffer; priorityServices : gset string;
  t_totalSpans : Z; t_sampledSpans : Z; t_droppedSpans : Z; t_deferredSpans : Z; bufferedTraces : Z }.

Section tail.
Context {RT : Runtime}.

Definition NewTailSampler (config : TailSamplerConfig) : TailSampler :=
  mkTail config ∅ (list_to_set (PriorityServices config)) 0 0 0 0 0.

Definition tail_makeDecision (ts : TailSampler) (hasError : bool) (maxLatency : float64) (rootService traceID : string) :
    Decision * string :=
  let c := t_config ts in
  if hasError && f64_gt (ErrorSampleRate c) f64_zero && shouldSampleByRate (traceID +:+ "error") (ErrorSampleRate c)
  then (DecisionKeep, "has_error")
  else if f64_ge maxLatency (LatencyThresholdMs c) && f64_gt (LatencySampleRate c) f64_zero &&
          shouldSampleByRate (traceID +:+ "latency") (LatencySampleRate c)
  then (DecisionKeep, "high_latency")
  else if bool_decide (rootService ∈ priorityServices ts) then (DecisionKeep, "priority_service")
  else if shouldSampleByRate traceID (t_DefaultSampleRate c) then (DecisionKeep, "default_sample")
  else (DecisionDrop, "not_sampled")%string.

Definition count_kept (n : Z) (ts : TailSampler) : TailSampler :=
  mkTail (t_config ts) (traces ts) (priorityServices ts) (t_totalSpans ts) (wrap64 (t_sampledSpans ts + n))
    (t_droppedSpans ts) (wrap64 (t_deferredSpans ts - n)) (bufferedTraces ts).
Definition count_dropped (n : Z) (ts : TailSampler) : TailSampler :=
  mkTail (t_config ts) (traces ts) (priorityServices ts) (t_totalSpans ts) (t_sampledSpans ts)
    (wrap64 (t_droppedSpans ts + n)) (wrap64 (t_deferredSpans ts - n)) (bufferedTraces ts).

Definition finalizeTrace (b : TraceBuffer) (ts : TailSampler) : Verdict * TailSampler :=
  let '(decision, reason) := tail_makeDecision ts (tb_HasError b) (MaxLatency b) (RootService b) (tb_TraceID b) in
  if bool_decide (decision = DecisionKeep) then (Kept (tb_TraceID b) (Spans b) reason, count_kept (SpanCount b) ts)
  else (Dropped (tb_TraceID b) (Spans b) reason, count_dropped (SpanCount b) ts).
Fixpoint finalize_all (bs : list TraceBuffer) (ts : TailSampler) : list Verdict * TailSampler :=
  match bs with
  | [] => ([], ts)
  | b :: bs => let '(v, ts) := finalizeTrace b ts in let '(vs, ts) := finalize_all bs ts in (v :: vs, ts)
  end.

Definition put_traces (m : gmap string TraceBuffer) (n : Z) (ts : TailSampler) : TailSampler :=
  mkTail (t_config ts) m (priorityServices ts) (t_totalSpans ts) (t_sampledSpans ts) (t_droppedSpans ts)
    (t_deferredSpans ts) n.
Definition remove_trace (id : string) (ts : TailSampler) : TailSampler :=
  put_traces (delete id (traces ts)) (wrap64 (bufferedTraces ts - 1)) ts.

(** The identifier that the loop ends with, [""] before a trace is seen. *)
Definition older (best : string * Time) (kb : string * TraceBuffer) : string * Time :=
  if String.eqb best.1 "" || Before (FirstSeen kb.2) best.2 then (kb.1, FirstSeen kb.2) else best.
Definition oldest (m : gmap string TraceBuffer) : string := (foldl older (""%string, zero_time) (map_order m)).1.
Definition evictOldestTrace (ts : TailSampler) : list Verdict * TailSampler :=
  let id := oldest (traces ts) in
  if String.eqb id "" then ([], ts)
  else match traces ts !! id with
       | Some b => let '(v, ts) := finalizeTrace b (remove_trace id ts) in ([v], ts)
       | None => ([], ts)
       end.

Definition bufferSpan (now : Time) (s : Span) (ts : TailSampler) : list Verdict * TailSampler :=
  let id := sp_TraceID s in
  let '(verdicts, b, ts) :=
    match traces ts !! id with
    | Some b => ([], b, ts)
    | None =>
        let '(verdicts, ts) :=
          if MaxBufferedTraces (t_config ts) <=? Z.of_nat (size (traces ts)) then evictOldestTrace ts else ([], ts) in
        let b := mkBuffer id [] now zero_time false f64_zero "" in
        (verdicts, b, put_traces (<[id := b]> (traces ts)) (wrap64 (bufferedTraces ts + 1)) ts)
    end in
  if MaxSpansPerTrace (t_config ts) <=? SpanCount b then (verdicts, ts)
  else (verdicts, put_traces (<[id := AddSpan now s b]> (traces ts)) (bufferedTraces ts) ts).

Definition count_deferred (ts : TailSampler) : TailSampler :=
  mkTail (t_config ts) (traces ts) (priorityServices ts) (wrap64 (t_totalSpans ts + 1)) (t_sampledSpans ts)
    (t_droppedSpans ts) (wrap64 (t_deferredSpans ts + 1)) (bufferedTraces ts).
Definition tail_ShouldSample (now : Time) (s : Span) (ts : TailSampler) : Decision * list Verdict * TailSampler :=
  if negb (t_Enabled (t_config ts)) then (DecisionKeep, [], ts)
  else let '(verdicts, ts) := bufferSpan now s (count_deferred ts) in (DecisionDefer, verdicts, ts).

(** The traces that are visited and taken out, and what is left. *)
Definition take_traces (P : TraceBuffer → bool) (ts : TailSampler) : list TraceBuffer * TailSampler :=
  foldl (λ acc kb, if P kb.2 then (acc.1 ++ [kb.2], remove_trace kb.1 acc.2) else acc) ([], ts) (map_order (traces ts)).
Definition processTimedOutTraces (now : Time) (ts : TailSampler) : list Verdict * TailSampler :=
  let '(bs, ts) := take_traces (λ b, BufferTimeout (t_config ts) <? time_Sub now (LastUpdated b)) ts in
  finalize_all bs ts.
Definition ForceFlush (ts : TailSampler) : list Verdict * TailSampler :=
  let '(bs, ts) := take_traces (λ _, true) ts in finalize_all bs ts.

Definition tail_GetStats (ts : TailSampler) : SamplerStats :=
  mkSamplerStats (t_totalSpans ts) (t_sampledSpans ts) (t_droppedSpans ts) (t_deferredSpans ts)
    (sampled_share (t_sampledSpans ts) (t_totalSpans ts)).
Definition GetBufferedTraces (ts : TailSampler) : gmap string Z := SpanCount <$> traces ts.

Definition put_config (c : TailSamplerConfig) (services : gset string) (ts : TailSampler) : TailSampler :=
  mkTail c (traces ts) services (t_totalSpans ts) (t_sampledSpans ts) (t_droppedSpans ts) (t_deferredSpans ts)
    (bufferedTraces ts).
Definition tail_UpdateConfig (c : TailSamplerConfig) (ts : TailSampler) : TailSampler :=
  put_config c (list_to_set (PriorityServices c)) ts.
Definition with_services (services : list string) (c : TailSamplerConfig) : TailSamplerConfig :=
  mkTailConfig (t_Enabled c) (BufferTimeout c) (MaxBufferedTraces c) (MaxSpansPerTrace c) (ErrorSampleRate c)
    (LatencyThresholdMs c) (LatencySampleRate c) services (t_DefaultSampleRate c).
Definition AddPriorityService (service : string) (ts : TailSampler) : TailSampler :=
  put_config (with_services (PriorityServices (t_config ts) ++ [service]) (t_config ts))
    ({[service]} ∪ priorityServices ts) ts.
Definition RemovePriorityService (service : string) (ts : TailSampler) : TailSampler :=
  put_config (with_services (filter (λ svc, svc ≠ service) (PriorityServices (t_config ts))) (t_config ts))
    (priorityServices ts ∖ {[service]}) ts.
End tail.
