(* ===== verification/SamplingChain.v ===== *)
(** The sampler that adapts its rate to the traffic (internal/sampling/adaptive.go), the chain of
    samplers (manager.go), and how the receiver of spans asks it (adapter.go,
    internal/otlp/traces.go). *)

From Stdlib Require Import String SpecFloat.
From stdpp Require Import base option list numbers gmap strings.
From S2P Require Import Prelude Float64 Values PromFunctions Sampling.

(** ** Rates *)

(** [math.Max] and [math.Min]: infinities first, then NaN, then the sign of zeros. *)
Definition math_Max (x y : float64) : float64 :=
  match x, y with
  | S754_infinity false, _ | _, S754_infinity false => S754_infinity false
  | S754_nan, _ | _, S754_nan => S754_nan
  | S754_zero s, S754_zero s' => S754_zero (s && s')
  | _, _ => if f64_gt x y then x else y
  end.
Definition math_Min (x y : float64) : float64 :=
  match x, y with
  | S754_infinity true, _ | _, S754_infinity true => S754_infinity true
  | S754_nan, _ | _, S754_nan => S754_nan
  | S754_zero s, S754_zero s' => S754_zero (s || s')
  | _, _ => if f64_lt x y then x else y
  end.
Definition clamp (c : AdaptiveSamplerConfig) (rate : float64) : float64 :=
  math_Max (MinSampleRate c) (math_Min (MaxSampleRate c) rate).

Record serviceRate := mkServiceRate {
  sr_rate : float64; spanCount : Z; sampledCount : Z; lastSeen : Time; sr_windowStart : Time }.
Record AdaptiveSampler := mkAdaptive {
  as_config : AdaptiveSamplerConfig; currentRate : float64; serviceRates : gmap string serviceRate;
  spanCounter : Z; sampledCounter : Z; lastAdjustment : Time; windowStart : Time; historicalRates : list float64;
  as_totalSpans : Z; as_sampledSpans : Z; as_droppedSpans : Z }.

Section adaptive.
Context {RT : Runtime}.

Definition NewAdaptiveSampler (now : Time) (c : AdaptiveSamplerConfig) : AdaptiveSampler :=
  mkAdaptive c (MaxSampleRate c) ∅ 0 0 now now [] 0 0 0.

Definition put_rate (rate : float64) (s : AdaptiveSampler) : AdaptiveSampler :=
  mkAdaptive (as_config s) rate (serviceRates s) (spanCounter s) (sampledCounter s) (lastAdjustment s) (windowStart s)
    (historicalRates s) (as_totalSpans s) (as_sampledSpans s) (as_droppedSpans s).
Definition put_services (m : gmap string serviceRate) (s : AdaptiveSampler) : AdaptiveSampler :=
  mkAdaptive (as_config s) (currentRate s) m (spanCounter s) (sampledCounter s) (lastAdjustment s) (windowStart s)
    (historicalRates s) (as_totalSpans s) (as_sampledSpans s) (as_droppedSpans s).

Definition getEffectiveRate (service : string) (s : AdaptiveSampler) : float64 :=
  if negb (PerServiceRates (as_config s)) then currentRate s
  else match serviceRates s !! service with Some sr => sr_rate sr | None => currentRate s end.

Definition recordServiceSample (now : Time) (service : string) (sampled : bool) (s : AdaptiveSampler) : AdaptiveSampler :=
  if negb (PerServiceRates (as_config s)) then s
  else
    let sr := default (mkServiceRate (currentRate s) 0 0 zero_time now) (serviceRates s !! service) in
    let sr := mkServiceRate (sr_rate sr) (wrap64 (spanCount sr + 1))
                (if sampled then wrap64 (sampledCount sr + 1) else sampledCount sr) now (sr_windowStart sr) in
    put_services (<[service := sr]> (serviceRates s)) s.

Definition count_seen (s : AdaptiveSampler) : AdaptiveSampler :=
  mkAdaptive (as_config s) (currentRate s) (serviceRates s) (wrap64 (spanCounter s + 1)) (sampledCounter s)
    (lastAdjustment s) (windowStart s) (historicalRates s) (wrap64 (as_totalSpans s + 1)) (as_sampledSpans s)
    (as_droppedSpans s).
Definition count_adaptive (kept : bool) (s : AdaptiveSampler) : AdaptiveSampler :=
  if kept then
    mkAdaptive (as_config s) (currentRate s) (serviceRates s) (spanCounter s) (wrap64 (sampledCounter s + 1))
      (lastAdjustment s) (windowStart s) (historicalRates s) (as_totalSpans s) (wrap64 (as_sampledSpans s + 1))
      (as_droppedSpans s)
  else
    mkAdaptive (as_config s) (currentRate s) (serviceRates s) (spanCounter s) (sampledCounter s) (lastAdjustment s)
      (windowStart s) (historicalRates s) (as_totalSpans s) (as_sampledSpans s) (wrap64 (as_droppedSpans s + 1)).
Definition adaptive_ShouldSample (now : Time) (sp : Span) (s : AdaptiveSampler) : Decision * AdaptiveSampler :=
  if negb (a_Enabled (as_config s)) then (DecisionKeep, s)
  else
    let s := count_seen s in
    let kept := shouldSampleByRate (sp_TraceID sp) (getEffectiveRate (sp_ServiceName sp) s) in
    (if kept then DecisionKeep else DecisionDrop,
     recordServiceSample now (sp_ServiceName sp) kept (count_adaptive kept s)).

(** ** Adjusting *)

Definition smoothed (c : AdaptiveSamplerConfig) (old desired : float64) : float64 :=
  clamp c (f64_add old (f64_mul (f64_sub desired old) (SmoothingFactor c))).

(** One service of the loop; stale ones are deleted ([None]). *)
Definition stale_after : Duration := 5 * 60 * Second.
Definition adjust_service (now : Time) (c : AdaptiveSamplerConfig) (targetTotal globalRate : float64) (totalSpans : Z)
    (sr : serviceRate) : option serviceRate :=
  if stale_after <? time_Sub now (lastSeen sr) then None
  else
    let share := f64_div (f64_of_Z (spanCount sr)) (f64_of_Z totalSpans) in
    let serviceTarget := f64_mul targetTotal share in
    let desired := if 0 <? spanCount sr then f64_div serviceTarget (f64_of_Z (spanCount sr)) else globalRate in
    Some (mkServiceRate (smoothed c (sr_rate sr) (clamp c desired)) 0 0 (lastSeen sr) now).
Definition adjustServiceRates (now : Time) (windowDuration : float64) (s : AdaptiveSampler) : AdaptiveSampler :=
  let c := as_config s in
  let totalSpans := foldl (λ n kv, wrap64 (n + spanCount kv.2)) 0 (map_order (serviceRates s)) in
  if totalSpans =? 0 then s
  else
    let targetTotal := f64_mul (TargetTracesPerSecond c) windowDuration in
    put_services (omap (adjust_service now c targetTotal (currentRate s) totalSpans) (serviceRates s)) s.

Definition window_seconds (now : Time) (s : AdaptiveSampler) : float64 :=
  let w := Seconds (time_Sub now (windowStart s)) in if f64_lt w f64_one then f64_one else w.
Definition desired_rate (c : AdaptiveSamplerConfig) (spans : Z) (window : float64) : float64 :=
  let tps := f64_div (f64_of_Z spans) window in
  clamp c (if f64_gt tps f64_zero then f64_div (TargetTracesPerSecond c) tps else MaxSampleRate c).

(** The history has the last sixty rates. *)
Definition add_history (rate : float64) (l : list float64) : list float64 :=
  let l := l ++ [rate] in if Nat.ltb 60 (length l) then drop 1 l else l.
Definition adjustRates (now : Time) (s : AdaptiveSampler) : AdaptiveSampler :=
  let c := as_config s in
  let window := window_seconds now s in
  let newRate := smoothed c (currentRate s) (desired_rate c (spanCounter s) window) in
  let s := put_rate newRate s in
  let s := if PerServiceRates c then adjustServiceRates now window s else s in
  mkAdaptive c (currentRate s) (serviceRates s) 0 0 now now (add_history newRate (historicalRates s))
    (as_totalSpans s) (as_sampledSpans s) (as_droppedSpans s).

Definition SetRate (rate : float64) (s : AdaptiveSampler) : AdaptiveSampler := put_rate (clamp (as_config s) rate) s.
Definition SetServiceRate (now : Time) (service : string) (rate : float64) (s : AdaptiveSampler) : AdaptiveSampler :=
  let sr := default (mkServiceRate f64_zero 0 0 zero_time now) (serviceRates s !! service) in
  put_services (<[service := mkServiceRate (clamp (as_config s) rate) (spanCount sr) (sampledCount sr) now
                               (sr_windowStart sr)]> (serviceRates s)) s.
(** The rates of services are left as they are. *)
Definition adaptive_UpdateConfig (c : AdaptiveSamplerConfig) (s : AdaptiveSampler) : AdaptiveSampler :=
  mkAdaptive c (clamp c (currentRate s)) (serviceRates s) (spanCounter s) (sampledCounter s) (lastAdjustment s)
    (windowStart s) (historicalRates s) (as_totalSpans s) (as_sampledSpans s) (as_droppedSpans s).
Definition GetServiceRates (s : AdaptiveSampler) : gmap string float64 := sr_rate <$> serviceRates s.

Record RateStatistics := mkRateStatistics {
  Current : float64; rs_Min : float64; rs_Max : float64; Mean : float64; StdDev : float64; Samples : Z }.
Definition sum_rates (l : list float64) : float64 := foldl f64_add f64_zero l.
Definition GetRateStatistics (s : AdaptiveSampler) : RateStatistics :=
  match historicalRates s with
  | [] => mkRateStatistics (currentRate s) (currentRate s) (currentRate s) (currentRate s) f64_zero 0
  | r :: _ =>
      let rates := historicalRates s in
      let n := len rates in
      let mean := f64_div (sum_rates rates) n in
      let variance := sum_rates ((λ r, f64_mul (f64_sub r mean) (f64_sub r mean)) <$> rates) in
      mkRateStatistics (currentRate s) (foldl (λ m r, if f64_lt r m then r else m) r rates)
        (foldl (λ m r, if f64_gt r m then r else m) r rates) mean (math_Sqrt (f64_div variance n))
        (Z.of_nat (length rates))
  end.
Definition adaptive_GetStats (s : AdaptiveSampler) : SamplerStats :=
  mkSamplerStats (as_totalSpans s) (as_sampledSpans s) (as_droppedSpans s) 0 (currentRate s).

(** ** The chain *)

Record Config := mkConfig {
  Enabled : bool; DefaultSampleRate : float64; c_Head : HeadSamplerConfig; c_Tail : TailSamplerConfig;
  c_Adaptive : AdaptiveSamplerConfig }.
Record Manager := mkManager {
  m_config : Config; headSampler : option HeadSampler; tailSampler : option TailSampler;
  adaptiveSampler : option AdaptiveSampler; totalProcessed : Z; totalKept : Z; totalDropped : Z; started : bool }.

Definition NewManager (c : Config) : Manager := mkManager c None None None 0 0 0 false.

(** [DefaultConfig]. *)
Definition no_condition (has_error : option bool) : RuleCondition := mkRuleCondition "" "" f64_zero has_error "" ∅.
Definition default_errors : Rule :=
  mkRule "default-errors" "Keep all errors" "" true 100 (no_condition (Some true)) DecisionKeep f64_one zero_time zero_time.
Definition DefaultConfig : Config :=
  mkConfig true (f64_of_decimal 1 1)
    (mkHeadConfig true [default_errors] (5 * 60 * Second) 100000)
    (mkTailConfig false (30 * Second) 10000 1000 f64_one (f64_of_Z 1000) f64_one [] (f64_of_decimal 1 1))
    (mkAdaptiveConfig true (f64_of_Z 100) (f64_of_decimal 1 2) f64_one (10 * Second) (f64_of_decimal 3 1) true).

(** The sampler of traces is used only without the sampler by rules. A ticker of the adapting
    sampler cannot be made without an interval. *)
Definition Start (now : Time) (m : Manager) : result () * Manager :=
  if started m then (Err "sampling manager already started", m)
  else
    let c := m_config m in
    let m := mkManager c
      (if h_Enabled (c_Head c) then Some (NewHeadSampler (c_Head c)) else headSampler m)
      (if t_Enabled (c_Tail c) && negb (h_Enabled (c_Head c)) then Some (NewTailSampler (c_Tail c)) else tailSampler m)
      (adaptiveSampler m) (totalProcessed m) (totalKept m) (totalDropped m) false in
    if a_Enabled (c_Adaptive c) && (AdjustmentInterval (c_Adaptive c) <=? 0)
    then (Panic "non-positive interval for NewTicker", m)
    else (Ok (), mkManager c (headSampler m) (tailSampler m)
            (if a_Enabled (c_Adaptive c) then Some (NewAdaptiveSampler now (c_Adaptive c)) else adaptiveSampler m)
            (totalProcessed m) (totalKept m) (totalDropped m) true).

(** Stopping flushes the sampler of traces. *)
Definition Stop (m : Manager) : list Verdict * Manager :=
  if negb (started m) then ([], m)
  else
    (match tailSampler m with Some ts => (ForceFlush ts).1 | None => [] end,
     mkManager (m_config m) None None None (totalProcessed m) (totalKept m) (totalDropped m) false).

Definition put_head (hs : HeadSampler) (m : Manager) : Manager :=
  mkManager (m_config m) (Some hs) (tailSampler m) (adaptiveSampler m) (totalProcessed m) (totalKept m)
    (totalDropped m) (started m).
Definition put_tail (ts : TailSampler) (m : Manager) : Manager :=
  mkManager (m_config m) (headSampler m) (Some ts) (adaptiveSampler m) (totalProcessed m) (totalKept m)
    (totalDropped m) (started m).
Definition put_adaptive (s : AdaptiveSampler) (m : Manager) : Manager :=
  mkManager (m_config m) (headSampler m) (tailSampler m) (Some s) (totalProcessed m) (totalKept m)
    (totalDropped m) (started m).

Definition ask_adaptive (now : Time) (sp : Span) (m : Manager) : Decision * list Verdict * Manager :=
  match adaptiveSampler m with
  | Some s => let '(d, s) := adaptive_ShouldSample now sp s in (d, [], put_adaptive s m)
  | None => (DecisionKeep, [], m)
  end.
Definition getSamplingDecision (now : Time) (sp : Span) (m : Manager) : Decision * list Verdict * Manager :=
  match tailSampler m with
  | Some ts => let '(d, verdicts, ts) := tail_ShouldSample now sp ts in (d, verdicts, put_tail ts m)
  | None =>
      match headSampler m with
      | Some hs =>
          let '(d, hs) := head_ShouldSample now sp hs in
          let m := put_head hs m in
          if bool_decide (d = DecisionDrop) then (DecisionDrop, [], m) else ask_adaptive now sp m
      | None => ask_adaptive now sp m
      end
  end.

Definition count_processed (m : Manager) : Manager :=
  mkManager (m_config m) (headSampler m) (tailSampler m) (adaptiveSampler m) (wrap64 (totalProcessed m + 1))
    (totalKept m) (totalDropped m) (started m).
Definition count_manager (d : Decision) (m : Manager) : Manager :=
  match d with
  | DecisionKeep => mkManager (m_config m) (headSampler m) (tailSampler m) (adaptiveSampler m) (totalProcessed m)
                      (wrap64 (totalKept m + 1)) (totalDropped m) (started m)
  | DecisionDrop => mkManager (m_config m) (headSampler m) (tailSampler m) (adaptiveSampler m) (totalProcessed m)
                      (totalKept m) (wrap64 (totalDropped m + 1)) (started m)
  | DecisionDefer => m
  end.
Definition ProcessSpan (now : Time) (sp : Span) (m : Manager) : Decision * list Verdict * Manager :=
  if negb (Enabled (m_config m)) then (DecisionKeep, [], m)
  else
    let '(d, verdicts, m) := getSamplingDecision now sp (count_processed m) in
    (d, verdicts, count_manager d m).

(** Replacing the configuration saves it ([saved] tells whether the database took it) and starts
    the samplers anew. *)
Definition with_config (c : Config) (m : Manager) : Manager :=
  mkManager c (headSampler m) (tailSampler m) (adaptiveSampler m) (totalProcessed m) (totalKept m) (totalDropped m)
    (started m).
Definition manager_UpdateConfig (now : Time) (saved : result ()) (c : Config) (m : Manager) :
    result () * list Verdict * Manager :=
  let m := with_config c m in
  match saved with
  | Ok _ =>
      if started m then
        let '(verdicts, stopped) := Stop m in
        let '(r, m) := Start now stopped in (r, verdicts, m)
      else (Ok (), [], m)
  | e => (e, [], m)
  end.

Definition with_target (tps : float64) (c : AdaptiveSamplerConfig) : AdaptiveSamplerConfig :=
  mkAdaptiveConfig (a_Enabled c) tps (MinSampleRate c) (MaxSampleRate c) (AdjustmentInterval c) (SmoothingFactor c)
    (PerServiceRates c).
Definition SetAdaptiveTargetTPS (tps : float64) (m : Manager) : Manager :=
  let m := match adaptiveSampler m with
           | Some s => put_adaptive (adaptive_UpdateConfig (with_target tps (as_config s)) s) m
           | None => m
           end in
  let c := m_config m in
  with_config (mkConfig (Enabled c) (DefaultSampleRate c) (c_Head c) (c_Tail c) (with_target tps (c_Adaptive c))) m.
Definition SetServiceSampleRate (now : Time) (service : string) (rate : float64) (m : Manager) : Manager :=
  match adaptiveSampler m with Some s => put_adaptive (SetServiceRate now service rate s) m | None => m end.
Definition AddTailPriorityService (service : string) (m : Manager) : Manager :=
  let m := match tailSampler m with Some ts => put_tail (AddPriorityService service ts) m | None => m end in
  let c := m_config m in
  with_config (mkConfig (Enabled c) (DefaultSampleRate c) (c_Head c)
    (with_services (PriorityServices (c_Tail c) ++ [service]) (c_Tail c)) (c_Adaptive c)) m.
Definition GetAdaptiveRateStats (m : Manager) : option RateStatistics := GetRateStatistics <$> adaptiveSampler m.

Record ManagerStats := mkManagerStats {
  TotalProcessed : Z; TotalKept : Z; TotalDropped : Z; HeadStats : SamplerStats; TailStats : SamplerStats;
  AdaptiveStats : SamplerStats; BufferedTraces : Z; ms_CurrentRate : float64; ServiceRates : gmap string float64 }.
Definition no_stats : SamplerStats := mkSamplerStats 0 0 0 0 f64_zero.
Definition manager_GetStats (m : Manager) : ManagerStats :=
  mkManagerStats (totalProcessed m) (totalKept m) (totalDropped m)
    (from_option head_GetStats no_stats (headSampler m)) (from_option tail_GetStats no_stats (tailSampler m))
    (from_option adaptive_GetStats no_stats (adaptiveSampler m))
    (from_option bufferedTraces 0 (tailSampler m)) (from_option currentRate f64_zero (adaptiveSampler m))
    (from_option GetServiceRates ∅ (adaptiveSampler m)).

(** ** The receiver *)

(** Whether a span is stored at once. *)
Definition adapter_ShouldSample (now : Time) (sp : Span) (m : option Manager) : bool * list Verdict * option Manager :=
  match m with
  | None => (true, [], None)
  | Some m =>
      let '(d, verdicts, m) := ProcessSpan now sp m in
      (bool_decide (d = DecisionKeep) || bool_decide (d = DecisionDefer), verdicts, Some m)
  end.

(** The spans that the store of traces takes: from the sampler of traces when it keeps one
    ([SetOnKeep] in Start, which does not look at the store's error), and from the receiver,
    which stops at the first span that the store refuses. [RecordSpan] tells which it takes; the
    spans of a request come converted, in order. *)
Definition recorded_by (RecordSpan : Span → bool) (v : Verdict) : list Span :=
  match v with Kept _ spans _ => List.filter RecordSpan spans | Dropped _ _ _ => [] end.
Fixpoint processTraces (RecordSpan : Span → bool) (now : Time) (spans : list Span) (m : option Manager) :
    bool * list Span * option Manager :=
  match spans with
  | [] => (true, [], m)
  | sp :: spans =>
      let '(kept, verdicts, m) := adapter_ShouldSample now sp m in
      let before := verdicts ≫= recorded_by RecordSpan in
      if kept && negb (RecordSpan sp) then (false, before, m)
      else
        let '(ok, stored, m) := processTraces RecordSpan now spans m in
        (ok, before ++ (if kept : bool then [sp] else []) ++ stored, m)
  end.
End adaptive.
