(* ===== verification/SamplingFacts.v ===== *)
(** What the samplers promise: every span that the sampler of traces is given is buffered, kept,
    dropped or was over the limit of its trace, and is counted so; traces that are dropped have
    no errors; a trace is decided once; the adapted rate stays between its floor and ceiling. *)

From Stdlib Require Import String SpecFloat.
From stdpp Require Import base option list numbers gmap strings relations.
From S2P Require Import Prelude Float64 FloatFacts Values PromFunctions Sampling SamplingChain.
From Stdlib Require Import Permutation.
From stdpp Require Import list.
#[local] Open Scope list_scope.
#[local] Open Scope Z_scope.

Section tail_facts.
Context {RT : Runtime} (Hvisits : visits_maps).

(** ** Operations on the sampler of traces *)

Inductive TailOp :=
| TailSpan (now : Time) (s : Span)
| TailTick (now : Time)
| TailFlush
| TailConfig (c : TailSamplerConfig)
| TailAddService (service : string)
| TailRemoveService (service : string).

Definition tail_step (op : TailOp) (ts : TailSampler) : list Verdict * TailSampler :=
  match op with
  | TailSpan now s => let '(_, verdicts, ts) := tail_ShouldSample now s ts in (verdicts, ts)
  | TailTick now => processTimedOutTraces now ts
  | TailFlush => ForceFlush ts
  | TailConfig c => ([], tail_UpdateConfig c ts)
  | TailAddService service => ([], AddPriorityService service ts)
  | TailRemoveService service => ([], RemovePriorityService service ts)
  end.

(** The spans that a step is given, and those among them that are over the limit of a trace. *)
Definition received (op : TailOp) (ts : TailSampler) : list Span :=
  match op with TailSpan _ s => if t_Enabled (t_config ts) then [s] else [] | _ => [] end.
Definition spans_of (id : string) (ts : TailSampler) : list Span := from_option Spans [] (traces ts !! id).
Definition over_limit (op : TailOp) (ts : TailSampler) : list Span :=
  match op with
  | TailSpan _ s =>
      if t_Enabled (t_config ts) &&
         (MaxSpansPerTrace (t_config ts) <=? Z.of_nat (length (spans_of (sp_TraceID s) ts))) then [s] else []
  | _ => []
  end.

(** A run: what was given, what was over the limits, the verdicts and the sampler. *)
Fixpoint tail_run (ops : list TailOp) (ts : TailSampler) : list Span * list Span * list Verdict * TailSampler :=
  match ops with
  | [] => ([], [], [], ts)
  | op :: ops =>
      let given := received op ts in
      let over := over_limit op ts in
      let '(verdicts, ts) := tail_step op ts in
      let '(given', over', verdicts', ts) := tail_run ops ts in
      (given ++ given', over ++ over', verdicts ++ verdicts', ts)
  end.

Definition verdict_spans (v : Verdict) : list Span := match v with Kept _ spans _ | Dropped _ spans _ => spans end.
Definition kept_spans (v : Verdict) : list Span := match v with Kept _ spans _ => spans | _ => [] end.
Definition dropped_spans (v : Verdict) : list Span := match v with Dropped _ spans _ => spans | _ => [] end.
Definition buffered (m : gmap string TraceBuffer) : list Span := (map_to_list m).*2 ≫= Spans.

Definition count {A} (l : list A) : Z := Z.of_nat (length l).
Lemma count_app {A} (l l' : list A) : count (l ++ l') = count l + count l'.
Proof. unfold count. rewrite length_app. lia. Qed.

(** ** Accounting *)

(** [pending] are spans that were taken out and are not yet decided. *)
Record accounted (given pending over : list Span) (vs : list Verdict) (ts : TailSampler) : Prop := {
  ac_spans : given ≡ₚ buffered (traces ts) ++ pending ++ (vs ≫= verdict_spans) ++ over;
  ac_total : t_totalSpans ts = wrap64 (count given);
  ac_sampled : t_sampledSpans ts = wrap64 (count (vs ≫= kept_spans));
  ac_dropped : t_droppedSpans ts = wrap64 (count (vs ≫= dropped_spans));
  ac_deferred : t_deferredSpans ts = wrap64 (count given - count (vs ≫= kept_spans) - count (vs ≫= dropped_spans));
  ac_traces : bufferedTraces ts = wrap64 (Z.of_nat (size (traces ts)));
}.

Lemma buffered_insert m id b : m !! id = None → buffered (<[id := b]> m) ≡ₚ Spans b ++ buffered m.
Proof. intros H. unfold buffered. by rewrite map_to_list_insert. Qed.
Lemma buffered_delete m id b : m !! id = Some b → buffered m ≡ₚ Spans b ++ buffered (delete id m).
Proof.
  intros H. rewrite <- buffered_insert by apply lookup_delete_eq. by rewrite insert_delete_id.
Qed.
Lemma buffered_update m id b b' : m !! id = Some b → Spans b' = Spans b →
  buffered (<[id := b']> m) ≡ₚ buffered m.
Proof.
  intros H E. rewrite (buffered_delete m id b) by done. rewrite <- insert_delete_eq.
  rewrite buffered_insert by apply lookup_delete_eq. by rewrite E.
Qed.

Lemma sub_wrap (x y : Z) : wrap64 (wrap64 x - y) = wrap64 (x - y).
Proof. unfold Z.sub. apply wrap64_add_l. Qed.

Lemma into_verdicts {A} (x p v o : list A) : x ++ p ++ v ++ o ≡ₚ p ++ v ++ x ++ o.
Proof. by rewrite (Permutation_app_swap_app x p), (Permutation_app_swap_app x v). Qed.

Lemma finalize_accounted given pending over vs b ts :
  accounted given (Spans b ++ pending) over vs ts → let '(v, ts') := finalizeTrace b ts in
  accounted given pending over (vs ++ [v]) ts' ∧ traces ts' = traces ts ∧ t_config ts' = t_config ts ∧
  priorityServices ts' = priorityServices ts.
Proof.
  intros [H1 H2 H3 H4 H5 H6]. unfold finalizeTrace. destruct (tail_makeDecision _ _ _ _ _) as [d reason].
  case_bool_decide; (split; [|done]); split; cbn [traces t_totalSpans t_sampledSpans t_droppedSpans t_deferredSpans
    bufferedTraces count_kept count_dropped]; try done.
  all: rewrite ?bind_app, ?count_app; cbn [mbind list_bind kept_spans dropped_spans verdict_spans].
  all: rewrite ?app_nil_r; try done.
  - rewrite H1, <- !(assoc_L (++)). apply Permutation_app_head, into_verdicts.
  - rewrite H3. apply wrap64_add_l.
  - change (count []) with 0. by rewrite Z.add_0_r.
  - change (count []) with 0. rewrite H5, sub_wrap. f_equal. unfold SpanCount, count. lia.
  - rewrite H1, <- !(assoc_L (++)). apply Permutation_app_head, into_verdicts.
  - change (count []) with 0. by rewrite Z.add_0_r.
  - rewrite H4. apply wrap64_add_l.
  - change (count []) with 0. rewrite H5, sub_wrap. f_equal. unfold SpanCount, count. lia.
Qed.

(** What a step may not change. *)
Definition same_setup (ts ts' : TailSampler) : Prop :=
  t_config ts' = t_config ts ∧ priorityServices ts' = priorityServices ts.

Lemma finalize_all_accounted bs : ∀ given pending over vs ts,
  accounted given ((bs ≫= Spans) ++ pending) over vs ts → let '(vs', ts') := finalize_all bs ts in
  accounted given pending over (vs ++ vs') ts' ∧ traces ts' = traces ts ∧ same_setup ts ts'.
Proof.
  induction bs as [|b bs IH]; intros given pending over vs ts H; [cbn; by rewrite app_nil_r|].
  cbn [finalize_all mbind list_bind] in *. rewrite <- (assoc_L (++)) in H.
  pose proof (finalize_accounted _ _ _ _ _ _ H) as Hf. destruct (finalizeTrace b ts) as [v ts1].
  destruct Hf as (H1 & Ht1 & Hc1 & Hp1). specialize (IH _ _ _ _ _ H1). destruct (finalize_all bs ts1) as [vs' ts2].
  destruct IH as (H2 & Ht2 & Hc2 & Hp2). rewrite (cons_middle v vs vs'), (assoc_L (++)).
  split_and!; [done|congruence|split; congruence].
Qed.

Lemma remove_accounted given pending over vs id b ts : traces ts !! id = Some b →
  accounted given pending over vs ts → accounted given (Spans b ++ pending) over vs (remove_trace id ts).
Proof.
  intros Hb [H1 H2 H3 H4 H5 H6]. split; cbn [traces t_totalSpans t_sampledSpans t_droppedSpans t_deferredSpans
    bufferedTraces remove_trace put_traces]; try done.
  - rewrite H1, (buffered_delete _ _ _ Hb). solve_Permutation.
  - rewrite H6, sub_wrap. f_equal. rewrite map_size_delete_Some by eauto.
    assert (size (traces ts) ≠ 0%nat); [|lia]. intros E. apply map_size_empty_inv in E. rewrite E in Hb. by rewrite lookup_empty in Hb.
Qed.

(** Traces are taken out of the map that is visited. *)
Lemma take_steps_accounted (P : TraceBuffer → bool) given over vs (l : list (string * TraceBuffer)) : ∀ (bs : list TraceBuffer) (ts : TailSampler), NoDup l.*1 → (∀ k b, (k, b) ∈ l → traces ts !! k = Some b) →
  accounted given (bs ≫= Spans) over vs ts →
  let '(bs', ts') := foldl (λ (acc : list TraceBuffer * TailSampler) (kb : string * TraceBuffer),
    if P kb.2 then (acc.1 ++ [kb.2], remove_trace kb.1 acc.2) else acc) (bs, ts) l in
  accounted given (bs' ≫= Spans) over vs ts' ∧ traces ts' ⊆ traces ts ∧ same_setup ts ts' ∧
  ∀ b, b ∈ bs' → b ∈ bs ∨ ∃ id, traces ts !! id = Some b.
Proof.
  induction l as [|[k b] l IH]; intros bs ts Hnd Hl H; [split_and!; [done|done|done|auto]|].
  cbn [foldl fst snd fmap list_fmap] in *. apply NoDup_cons in Hnd as [Hk Hnd].
  assert (Hb : traces ts !! k = Some b) by (apply Hl; constructor).
  destruct (P b).
  - specialize (IH (bs ++ [b]) (remove_trace k ts) Hnd). cbn [fst snd] in *.
    destruct (foldl _ (bs ++ [b], _) l) as [bs' ts']. destruct IH as (H1 & H2 & H3 & H4).
    + intros k' b' Hin. cbn. rewrite lookup_delete_ne; [apply Hl; by constructor|].
      intros ->. apply Hk, list_elem_of_fmap. by exists (k', b').
    + rewrite bind_app. cbn [mbind list_bind]. rewrite app_nil_r.
      pose proof (remove_accounted _ _ _ _ _ _ _ Hb H) as [G1 G2 G3 G4 G5 G6]. split; try done. rewrite G1. solve_Permutation.
    + cbn in H2. split_and!; [done|by etrans; [|apply delete_subseteq]|done|].
      intros x [[Hx| ->%list_elem_of_singleton]%elem_of_app|[id Hx]]%H4; [by left|right; eauto|].
      right. exists id. cbn in Hx. by apply lookup_delete_Some in Hx as [_ Hx].
  - apply IH; [done| |done]. intros k' b' Hin. apply Hl. by constructor.
Qed.
Lemma take_traces_accounted P given over vs ts : accounted given [] over vs ts →
  let '(bs, ts') := take_traces P ts in
  accounted given (bs ≫= Spans) over vs ts' ∧ traces ts' ⊆ traces ts ∧ same_setup ts ts' ∧
  ∀ b, b ∈ bs → ∃ id, traces ts !! id = Some b.
Proof.
  intros H. unfold take_traces.
  pose proof (take_steps_accounted P given over vs (map_order (traces ts)) [] ts) as G.
  destruct (foldl _ ([], ts) _) as [bs ts']. destruct G as (H1 & H2 & H3 & H4).
  - rewrite (Hvisits TraceBuffer (traces ts)). apply NoDup_fst_map_to_list.
  - intros k b Hk. rewrite (Hvisits TraceBuffer (traces ts)) in Hk. by apply elem_of_map_to_list.
  - done.
  - split_and!; [done..|]. intros b [Hb|Hb]%H4; [by apply not_elem_of_nil in Hb|done].
Qed.

(** Taking out traces and deciding about them. *)
Lemma decided_accounted P given over vs ts : accounted given [] over vs ts →
  let '(bs, ts1) := take_traces P ts in let '(vs', ts') := finalize_all bs ts1 in
  accounted given [] over (vs ++ vs') ts' ∧ traces ts' ⊆ traces ts ∧ same_setup ts ts'.
Proof.
  intros H. pose proof (take_traces_accounted P _ _ _ _ H) as G. destruct (take_traces P ts) as [bs ts1].
  destruct G as (H1 & Hsub & [Hc Hp] & _). rewrite <- (app_nil_r (bs ≫= Spans)) in H1.
  pose proof (finalize_all_accounted _ _ _ _ _ _ H1) as G. destruct (finalize_all bs ts1) as [vs' ts'].
  destruct G as (H2 & -> & [Hc' Hp']). split_and!; [done|done|split; congruence].
Qed.

(** *** A span *)

Lemma evict_accounted given pending over vs ts : accounted given pending over vs ts →
  let '(vs', ts') := evictOldestTrace ts in
  accounted given pending over (vs ++ vs') ts' ∧ traces ts' ⊆ traces ts ∧ same_setup ts ts'.
Proof.
  intros H. unfold evictOldestTrace. destruct (String.eqb _ _); [by rewrite app_nil_r|].
  destruct (traces ts !! oldest (traces ts)) as [b|] eqn:Hb; [|by rewrite app_nil_r].
  pose proof (remove_accounted _ _ _ _ _ _ _ Hb H) as H1.
  pose proof (finalize_accounted _ _ _ _ _ _ H1) as G. destruct (finalizeTrace b _) as [v ts'].
  destruct G as (H2 & -> & Hc & Hp). split_and!; [done|apply delete_subseteq|done].
Qed.

(** A buffer for a new trace. *)
Lemma new_buffer_accounted given pending over vs id b ts : traces ts !! id = None → Spans b = [] →
  accounted given pending over vs ts →
  accounted given pending over vs (put_traces (<[id := b]> (traces ts)) (wrap64 (bufferedTraces ts + 1)) ts).
Proof.
  intros Hid Hb [H1 H2 H3 H4 H5 H6]. split; cbn [traces t_totalSpans t_sampledSpans t_droppedSpans t_deferredSpans
    bufferedTraces put_traces]; try done.
  - by rewrite buffered_insert, Hb.
  - rewrite H6, wrap64_add_l. f_equal. rewrite map_size_insert_None by done. lia.
Qed.

(** The span that was given goes to its buffer, or over the limit. *)
Lemma add_span_accounted given over vs id b now sp ts : traces ts !! id = Some b →
  accounted given [sp] over vs ts →
  accounted given [] over vs (put_traces (<[id := AddSpan now sp b]> (traces ts)) (bufferedTraces ts) ts).
Proof.
  intros Hid [H1 H2 H3 H4 H5 H6]. split; cbn [traces t_totalSpans t_sampledSpans t_droppedSpans t_deferredSpans
    bufferedTraces put_traces]; try done.
  - rewrite H1, (buffered_delete _ _ _ Hid), <- insert_delete_eq, buffered_insert by apply lookup_delete_eq.
    cbn [Spans AddSpan]. solve_Permutation.
  - by rewrite map_size_insert_Some.
Qed.
Lemma count_deferred_accounted given over vs ts sp : accounted given [] over vs ts →
  accounted (given ++ [sp]) [sp] over vs (count_deferred ts).
Proof.
  intros [H1 H2 H3 H4 H5 H6]. split; cbn [traces t_totalSpans t_sampledSpans t_droppedSpans t_deferredSpans
    bufferedTraces count_deferred]; try done.
  - rewrite H1. solve_Permutation.
  - rewrite H2, wrap64_add_l, count_app. done.
  - rewrite H5, wrap64_add_l, count_app. f_equal. change (count [sp]) with 1. lia.
Qed.
Lemma over_limit_accounted given over vs ts sp : accounted given [sp] over vs ts →
  accounted given [] (over ++ [sp]) vs ts.
Proof. intros [H1 H2 H3 H4 H5 H6]. split; try done. rewrite H1. solve_Permutation. Qed.

(** The buffer that the span goes to: there already, or made after an eviction. *)
Definition buffer_for (now : Time) (id : string) (ts : TailSampler) : list Verdict * TraceBuffer * TailSampler :=
  match traces ts !! id with
  | Some b => ([], b, ts)
  | None =>
      let '(verdicts, ts) :=
        if MaxBufferedTraces (t_config ts) <=? Z.of_nat (size (traces ts)) then evictOldestTrace ts else ([], ts) in
      let b := mkBuffer id [] now zero_time false f64_zero "" in
      (verdicts, b, put_traces (<[id := b]> (traces ts)) (wrap64 (bufferedTraces ts + 1)) ts)
  end.
Lemma bufferSpan_unfold now s ts : bufferSpan now s ts =
  let '(verdicts, b, ts) := buffer_for now (sp_TraceID s) ts in
  if MaxSpansPerTrace (t_config ts) <=? SpanCount b then (verdicts, ts)
  else (verdicts, put_traces (<[sp_TraceID s := AddSpan now s b]> (traces ts)) (bufferedTraces ts) ts).
Proof. done. Qed.

Lemma buffer_for_accounted now id given pending over vs ts : accounted given pending over vs ts →
  let '(vs', b, ts') := buffer_for now id ts in
  accounted given pending over (vs ++ vs') ts' ∧ traces ts' !! id = Some b ∧ Spans b = spans_of id ts ∧ same_setup ts ts'.
Proof.
  intros H. unfold buffer_for, spans_of. destruct (traces ts !! id) as [b|] eqn:Hid; [by rewrite app_nil_r|].
  assert (∃ vs' ts', (if MaxBufferedTraces (t_config ts) <=? Z.of_nat (size (traces ts))
    then evictOldestTrace ts else ([], ts)) = (vs', ts') ∧ accounted given pending over (vs ++ vs') ts' ∧
    traces ts' ⊆ traces ts ∧ same_setup ts ts') as (vs' & ts' & -> & H' & Hsub & Hsame).
  { case_match.
    - pose proof (evict_accounted _ _ _ _ _ H) as G. destruct (evictOldestTrace ts) as [vs' ts']. eauto.
    - exists [], ts. by rewrite app_nil_r. }
  split_and!; [|apply lookup_insert_eq|done|done].
  apply new_buffer_accounted; [|done..]. by eapply lookup_weaken_None.
Qed.

Lemma bufferSpan_accounted now sp given over vs ts : accounted given [sp] over vs ts →
  let '(vs', ts') := bufferSpan now sp ts in
  accounted given [] (over ++ (if MaxSpansPerTrace (t_config ts) <=? count (spans_of (sp_TraceID sp) ts) then [sp] else []))
    (vs ++ vs') ts'.
Proof.
  intros H. rewrite bufferSpan_unfold. pose proof (buffer_for_accounted now (sp_TraceID sp) _ _ _ _ _ H) as G.
  destruct (buffer_for _ _ ts) as [[vs' b] ts']. destruct G as (H1 & Hid & Hb & [Hc _]).
  unfold SpanCount. rewrite Hb, Hc. unfold count.
  destruct (MaxSpansPerTrace (t_config ts) <=? _).
  - by apply over_limit_accounted.
  - rewrite app_nil_r. by apply add_span_accounted.
Qed.

Lemma tail_step_accounted op given over vs ts : accounted given [] over vs ts →
  let '(vs', ts') := tail_step op ts in
  accounted (given ++ received op ts) [] (over ++ over_limit op ts) (vs ++ vs') ts'.
Proof.
  intros H. destruct op as [now sp|now| |c|service|service]; cbn [tail_step received over_limit].
  - unfold tail_ShouldSample. destruct (t_Enabled _); cbn [negb andb]; [|by rewrite !app_nil_r].
    pose proof (bufferSpan_accounted now sp _ _ _ _ (count_deferred_accounted _ _ _ _ sp H)) as G.
    destruct (bufferSpan now sp (count_deferred ts)) as [vs' ts']. done.
  - rewrite !app_nil_r. unfold processTimedOutTraces.
    pose proof (decided_accounted (λ b, BufferTimeout (t_config ts) <? time_Sub now (LastUpdated b)) _ _ _ _ H) as G.
    destruct (take_traces _ ts) as [bs ts1], (finalize_all bs ts1) as [vs' ts']. apply G.
  - rewrite !app_nil_r. unfold ForceFlush. pose proof (decided_accounted (λ _, true) _ _ _ _ H) as G.
    destruct (take_traces _ ts) as [bs ts1], (finalize_all bs ts1) as [vs' ts']. apply G.
  - rewrite !app_nil_r. by destruct H.
  - rewrite !app_nil_r. by destruct H.
  - rewrite !app_nil_r. by destruct H.
Qed.
Lemma tail_run_accounted ops : ∀ given over vs ts, accounted given [] over vs ts →
  let '(given', over', vs', ts') := tail_run ops ts in accounted (given ++ given') [] (over ++ over') (vs ++ vs') ts'.
Proof.
  induction ops as [|op ops IH]; intros given over vs ts H; cbn [tail_run]; [by rewrite !app_nil_r|].
  apply (tail_step_accounted op) in H. destruct (tail_step op ts) as [vs' ts1]. apply IH in H.
  destruct (tail_run ops ts1) as [[[given' over'] vs''] ts']. by rewrite !(assoc_L (++)).
Qed.
Lemma new_tail_accounted c : accounted [] [] [] [] (NewTailSampler c).
Proof. by split. Qed.

(** *** Nothing is left behind *)

(** The traces that are left are those that the visit does not take. *)
Lemma take_steps_lookup (P : TraceBuffer → bool) (l : list (string * TraceBuffer)) k b :
  ∀ (bs : list TraceBuffer) (ts : TailSampler),
  traces (foldl (λ (acc : list TraceBuffer * TailSampler) (kb : string * TraceBuffer),
    if P kb.2 then (acc.1 ++ [kb.2], remove_trace kb.1 acc.2) else acc) (bs, ts) l).2 !! k = Some b ↔
  traces ts !! k = Some b ∧ ∀ b', (k, b') ∈ l → P b' = false.
Proof.
  induction l as [|[k' b'] l IH]; intros bs ts; cbn [foldl fst snd].
  { split; [|by intros []]. intros H. split; [done|]. by intros b' ?%not_elem_of_nil. }
  setoid_rewrite elem_of_cons. destruct (P b') eqn:HP; rewrite IH; cbn [traces remove_trace put_traces].
  - rewrite lookup_delete_Some. split; [intros [[Hne H] Hl]|intros [H Hl]].
    + split; [done|]. intros b'' [[= -> ->]|Hin]; [done|auto].
    + split_and!; [|done|auto]. intros ->. specialize (Hl b' (or_introl eq_refl)). congruence.
  - split; intros [H Hl]; (split; [done|]); [|auto]. intros b'' [[= -> ->]|Hin]; auto.
Qed.
Lemma take_traces_left P ts : traces (take_traces P ts).2 = filter (λ kb, P kb.2 = false) (traces ts).
Proof.
  apply map_eq. intros k. apply option_eq. intros b. unfold take_traces. rewrite take_steps_lookup, map_lookup_filter_Some.
  setoid_rewrite (Hvisits TraceBuffer (traces ts)). setoid_rewrite elem_of_map_to_list. naive_solver congruence.
Qed.
Lemma finalize_traces b ts : traces (finalizeTrace b ts).2 = traces ts.
Proof. unfold finalizeTrace. destruct (tail_makeDecision _ _ _ _ _). by case_bool_decide. Qed.
Lemma finalize_all_traces bs : ∀ ts, traces (finalize_all bs ts).2 = traces ts.
Proof.
  induction bs as [|b bs IH]; intros ts; [done|]. cbn. pose proof (finalize_traces b ts) as E. destruct (finalizeTrace b ts) as [v ts1].
  specialize (IH ts1). destruct (finalize_all bs ts1). cbn in *. congruence.
Qed.
Lemma flush_leaves ts : traces (ForceFlush ts).2 = ∅.
Proof.
  unfold ForceFlush. pose proof (take_traces_left (λ _, true) ts) as H. destruct (take_traces _ ts) as [bs ts1].
  cbn [snd] in H. rewrite finalize_all_traces, H. apply map_eq. intros k. rewrite lookup_empty. apply map_lookup_filter_None.
  by right.
Qed.

Lemma split_verdicts vs : vs ≫= verdict_spans ≡ₚ (vs ≫= kept_spans) ++ (vs ≫= dropped_spans).
Proof.
  induction vs as [|[] vs IH]; cbn [mbind list_bind kept_spans dropped_spans verdict_spans]; [done|..]; cbn in *; rewrite IH; solve_Permutation.
Qed.

Lemma verdict_counts vs : count (vs ≫= verdict_spans) = count (vs ≫= kept_spans) + count (vs ≫= dropped_spans).
Proof. rewrite <- count_app. unfold count. by rewrite (Permutation_length (split_verdicts vs)). Qed.

(** C33: The sampler of whole traces loses no span and invents none: after any sequence of spans,
    ticks, flushes and changes of its configuration, the spans it was given while it was enabled
    (when it is not, spans are kept without it) are, as a multiset, those that are buffered, those of the traces that were kept or dropped and those that were
    over the limit of their trace; the counters of total, sampled, dropped and deferred spans
    and of buffered traces are the (wrapped) numbers of these, where spans over the limit stay
    counted as deferred; and a flush leaves nothing buffered. *)
Theorem tail_accounts_for_spans c ops :
  let '(given, over, verdicts, ts) := tail_run ops (NewTailSampler c) in
  let kept := verdicts ≫= kept_spans in
  let dropped := verdicts ≫= dropped_spans in
  given ≡ₚ buffered (traces ts) ++ kept ++ dropped ++ over ∧
  t_totalSpans ts = wrap64 (count given) ∧ t_sampledSpans ts = wrap64 (count kept) ∧
  t_droppedSpans ts = wrap64 (count dropped) ∧
  t_deferredSpans ts = wrap64 (count (buffered (traces ts)) + count over) ∧
  bufferedTraces ts = wrap64 (Z.of_nat (size (traces ts))) ∧
  traces (ForceFlush ts).2 = ∅.
Proof.
  pose proof (tail_run_accounted ops _ _ _ _ (new_tail_accounted c)) as H.
  destruct (tail_run ops (NewTailSampler c)) as [[[given over] vs] ts]. cbn [app] in H. destruct H as [H1 H2 H3 H4 H5 H6].
  cbn [app] in H1. cbv zeta. pose proof (verdict_counts vs) as Hv.
  pose proof (Permutation_length H1) as Hl. rewrite !length_app in Hl. unfold count in Hv.
  split_and!; [|done..| |done|apply flush_leaves].
  - rewrite H1, split_verdicts. solve_Permutation.
  - rewrite H5. f_equal. unfold count. lia.
Qed.
End tail_facts.
