(* ===== verification/SamplingSpec.v ===== *)
(** What the decisions of the samplers promise: the traces that are dropped had no error and were
    fast enough, those that are kept have a reason; the spans of a trace get one decision; more
    is kept at a higher rate. *)

From Stdlib Require Import String SpecFloat.
From stdpp Require Import base option list numbers gmap strings.
From S2P Require Import Prelude Float64 FloatFacts FloatOrder Values PromFunctions Sampling SamplingChain SamplingFacts.
From Stdlib Require Import Permutation.
From stdpp Require Import list.
#[local] Open Scope list_scope.
#[local] Open Scope Z_scope.

(** ** What is known of a trace *)

Definition longer (m : float64) (s : Span) : float64 := if f64_gt (sp_DurationMs s) m then sp_DurationMs s else m.
Definition max_latency (spans : list Span) : float64 := foldl longer f64_zero spans.
(** The first service with a name among the spans without a parent. *)
Definition root_of (r : string) (s : Span) : string :=
  if String.eqb (sp_ParentSpanID s) "" && String.eqb r "" then sp_ServiceName s else r.
Definition root_service (spans : list Span) : string := foldl root_of "" spans.

Record buffer_ok (id : string) (b : TraceBuffer) : Prop := {
  bo_id : tb_TraceID b = id;
  bo_error : tb_HasError b = existsb has_error (Spans b);
  bo_latency : MaxLatency b = max_latency (Spans b);
  bo_root : RootService b = root_service (Spans b);
  bo_spans : Forall (λ s, sp_TraceID s = id) (Spans b);
}.
Definition tail_ok (ts : TailSampler) : Prop := map_Forall buffer_ok (traces ts).

Lemma new_buffer_ok id now now' : buffer_ok id (mkBuffer id [] now now' false f64_zero "").
Proof. by split; try constructor. Qed.
Lemma add_span_ok now s b : buffer_ok (sp_TraceID s) b → buffer_ok (sp_TraceID s) (AddSpan now s b).
Proof.
  intros [H1 H2 H3 H4 H5]. split; cbn [tb_TraceID Spans tb_HasError MaxLatency RootService AddSpan]; [done|..].
  - rewrite existsb_app, H2. cbn. destruct (has_error s), (existsb _ _); done.
  - rewrite H3. unfold max_latency. by rewrite foldl_app.
  - rewrite H4. unfold root_service. by rewrite foldl_app.
  - apply Forall_app; auto.
Qed.

(** The latency of a trace is that of one of its spans, and of the longest. *)
Lemma longer_number m s : is_nan m = false → is_nan (longer m s) = false.
Proof.
  intros Hm. unfold longer. destruct (f64_gt _ _) eqn:E; [|done]. rewrite f64_gt_lt in E. by apply f64_lt_key in E as (_ & ? & _).
Qed.
Lemma longer_le m s : is_nan m = false → f64_le m (longer m s) = true.
Proof. intros Hm. unfold longer. destruct (f64_gt _ _) eqn:E; [by apply f64_lt_le|by apply f64_le_refl]. Qed.
Lemma longest_le spans : ∀ m, is_nan m = false → f64_le m (foldl longer m spans) = true.
Proof.
  induction spans as [|s spans IH]; intros m Hm; cbn; [by apply f64_le_refl|].
  eapply f64_le_trans; [by apply longer_le|]. by apply IH, longer_number.
Qed.
Lemma longest_spec x spans s : ∀ m, is_nan m = false → s ∈ spans → f64_ge (sp_DurationMs s) x = true →
  f64_ge (foldl longer m spans) x = true.
Proof.
  induction spans as [|s' spans IH]; intros m Hm Hin Hx; [by apply not_elem_of_nil in Hin|].
  apply elem_of_cons in Hin as [->|Hin]; cbn.
  - rewrite !f64_ge_le in *. eapply f64_le_trans; [|apply longest_le, longer_number, Hm].
    unfold longer. destruct (f64_gt _ _) eqn:E; [done|]. eapply f64_le_trans; [exact Hx|].
    apply f64_not_lt; [done|by destruct (f64_le_number _ _ Hx)|done].
  - apply IH; [by apply longer_number|done..].
Qed.
Lemma longest_is spans : ∀ m, foldl longer m spans = m ∨ ∃ s, s ∈ spans ∧ foldl longer m spans = sp_DurationMs s.
Proof.
  induction spans as [|s spans IH]; intros m; cbn; [by left|]. unfold longer at 2 4.
  destruct (IH (if f64_gt (sp_DurationMs s) m then sp_DurationMs s else m)) as [->|(s' & Hin & ->)].
  - destruct (f64_gt _ _); [right; exists s; split; [constructor|done]|by left].
  - right. exists s'. split; [by constructor|done].
Qed.

(** ** Verdicts *)

(** Why a trace is kept. *)
Inductive keeps (ts : TailSampler) (id : string) (spans : list Span) : string → Prop :=
| keeps_error s : s ∈ spans → sp_Status s = "ERROR"%string → keeps ts id spans "has_error"
| keeps_slow s : s ∈ spans → f64_ge (sp_DurationMs s) (LatencyThresholdMs (t_config ts)) = true →
    keeps ts id spans "high_latency"
| keeps_any : f64_ge f64_zero (LatencyThresholdMs (t_config ts)) = true → keeps ts id spans "high_latency"
| keeps_service : root_service spans ∈ priorityServices ts → keeps ts id spans "priority_service"
| keeps_sampled : shouldSampleByRate id (t_DefaultSampleRate (t_config ts)) = true → keeps ts id spans "default_sample".

(** What a dropped trace cannot have. *)
Record drops (ts : TailSampler) (id : string) (spans : list Span) : Prop := {
  dr_error : f64_ge (ErrorSampleRate (t_config ts)) f64_one = true → ∀ s, s ∈ spans → sp_Status s ≠ "ERROR"%string;
  dr_slow : f64_ge (LatencySampleRate (t_config ts)) f64_one = true →
    ∀ s, s ∈ spans → f64_ge (sp_DurationMs s) (LatencyThresholdMs (t_config ts)) = false;
  dr_service : root_service spans ∉ priorityServices ts;
  dr_sampled : shouldSampleByRate id (t_DefaultSampleRate (t_config ts)) = false;
}.
Definition verdict_ok (ts : TailSampler) (v : Verdict) : Prop :=
  match v with
  | Kept id spans reason => Forall (λ s, sp_TraceID s = id) spans ∧ keeps ts id spans reason
  | Dropped id spans _ => Forall (λ s, sp_TraceID s = id) spans ∧ drops ts id spans
  end.

Lemma one_sampled key rate : f64_ge rate f64_one = true → f64_gt rate f64_zero = true ∧ shouldSampleByRate key rate = true.
Proof.
  intros H. split; [|unfold shouldSampleByRate; by rewrite H]. rewrite f64_gt_lt, f64_ge_le in *.
  eapply f64_lt_le_trans; [|exact H]. vm_compute. reflexivity.
Qed.
Lemma has_error_spec s : has_error s = true ↔ sp_Status s = "ERROR"%string.
Proof. apply String.eqb_eq. Qed.

Lemma finalize_verdict ts b id : buffer_ok id b → verdict_ok ts (finalizeTrace b ts).1.
Proof.
  intros [H1 H2 H3 H4 H5]. unfold finalizeTrace, tail_makeDecision. rewrite H1, H2, H3, H4. clear H1 H2 H3 H4.
  destruct (existsb has_error (Spans b) && _ && _) eqn:E1.
  { apply andb_prop in E1 as [[(s & Hin & He)%existsb_exists _]%andb_prop _]. split; [done|].
    eapply keeps_error; [by apply list_elem_of_In|by apply has_error_spec]. }
  destruct (f64_ge (max_latency _) _ && _ && _) eqn:E2.
  { apply andb_prop in E2 as [[Hl _]%andb_prop _]. split; [done|].
    unfold max_latency in Hl. destruct (longest_is (Spans b) f64_zero) as [E|(s & Hin & E)]; rewrite E in Hl.
    - by apply keeps_any.
    - by eapply keeps_slow. }
  case_bool_decide as Hs; [by split; [|apply keeps_service]|].
  destruct (shouldSampleByRate id _) eqn:E3; [by split; [|apply keeps_sampled]|].
  split; [done|]. split; [| |done|done].
  - intros Hr s Hin He. destruct (one_sampled (id +:+ "error") _ Hr) as [Hp Hk]. rewrite Hp, Hk, !andb_true_r in E1.
    apply Bool.not_true_iff_false in E1. apply E1, existsb_exists. exists s. split; [by apply list_elem_of_In|by apply has_error_spec].
  - intros Hr s Hin. destruct (one_sampled (id +:+ "latency") _ Hr) as [Hp Hk]. rewrite Hp, Hk, !andb_true_r in E2.
    apply Bool.not_true_iff_false. intros Hd. pose proof (longest_spec _ _ _ f64_zero eq_refl Hin Hd) as Hl.
    fold (max_latency (Spans b)) in Hl. by rewrite Hl in E2.
Qed.

(** ** Runs *)

Lemma same_setup_verdict ts ts' v : same_setup ts ts' → verdict_ok ts' v → verdict_ok ts v.
Proof.
  intros [Hc Hp]. destruct v as [id spans reason|id spans reason]; cbn; intros [H1 H2]; (split; [done|]).
  - destruct H2; rewrite ?Hc, ?Hp in *; by econstructor.
  - destruct H2; rewrite ?Hc, ?Hp in *; by constructor.
Qed.
Lemma same_setup_refl ts : same_setup ts ts.
Proof. done. Qed.
Lemma same_setup_trans ts1 ts2 ts3 : same_setup ts1 ts2 → same_setup ts2 ts3 → same_setup ts1 ts3.
Proof. intros [] []. split; congruence. Qed.
Lemma finalize_setup b ts : same_setup ts (finalizeTrace b ts).2.
Proof. unfold finalizeTrace. destruct (tail_makeDecision _ _ _ _ _). by case_bool_decide. Qed.
Lemma finalize_all_setup bs : ∀ ts, same_setup ts (finalize_all bs ts).2.
Proof.
  induction bs as [|b bs IH]; intros ts; [done|]. cbn. pose proof (finalize_setup b ts) as Hs.
  destruct (finalizeTrace b ts) as [v ts1]. specialize (IH ts1). destruct (finalize_all bs ts1). by eapply same_setup_trans.
Qed.
Lemma finalize_all_verdicts bs : ∀ ts, (∀ b, b ∈ bs → ∃ id, buffer_ok id b) → Forall (verdict_ok ts) (finalize_all bs ts).1.
Proof.
  induction bs as [|b bs IH]; intros ts Hbs; [constructor|]. cbn.
  destruct (Hbs b) as [id Hb]; [constructor|]. pose proof (finalize_verdict ts b id Hb) as Hv.
  pose proof (finalize_setup b ts) as Hs. destruct (finalizeTrace b ts) as [v ts1]. specialize (IH ts1).
  destruct (finalize_all bs ts1) as [vs ts2]. cbn in *. constructor; [done|]. eapply Forall_impl; [apply IH|].
  - intros b' Hb'. apply Hbs. by constructor.
  - intros v'. by apply same_setup_verdict.
Qed.

Lemma take_steps_from (P : TraceBuffer → bool) (l : list (string * TraceBuffer)) b : ∀ (bs : list TraceBuffer) (ts : TailSampler),
  b ∈ (foldl (λ (acc : list TraceBuffer * TailSampler) (kb : string * TraceBuffer),
    if P kb.2 then (acc.1 ++ [kb.2], remove_trace kb.1 acc.2) else acc) (bs, ts) l).1 → b ∈ bs ∨ ∃ k, (k, b) ∈ l.
Proof.
  induction l as [|[k' b'] l IH]; intros bs ts H; [by left|]. setoid_rewrite elem_of_cons. cbn [foldl fst snd] in H.
  destruct (P b'); apply IH in H as [H|[k H]]; [|eauto| |eauto]; [|by left].
  apply elem_of_app in H as [H| ->%list_elem_of_singleton]; [by left|]. right. exists k'. by left.
Qed.
Lemma take_steps_setup (P : TraceBuffer → bool) (l : list (string * TraceBuffer)) : ∀ (bs : list TraceBuffer) (ts : TailSampler),
  same_setup ts (foldl (λ (acc : list TraceBuffer * TailSampler) (kb : string * TraceBuffer),
    if P kb.2 then (acc.1 ++ [kb.2], remove_trace kb.1 acc.2) else acc) (bs, ts) l).2.
Proof.
  induction l as [|[k b] l IH]; intros bs ts; [done|]. cbn [foldl fst snd].
  destruct (P b); [eapply same_setup_trans; [|apply IH]; done|apply IH].
Qed.

Section runs.
Context {RT : Runtime} (Hvisits : visits_maps).

Lemma decided_ok P ts : tail_ok ts → let '(bs, ts1) := take_traces P ts in
  Forall (verdict_ok ts) (finalize_all bs ts1).1 ∧ tail_ok (finalize_all bs ts1).2.
Proof.
  intros H. pose proof (take_traces_left Hvisits P ts) as Hleft. pose proof (take_steps_setup P (map_order (traces ts)) [] ts) as Hs.
  pose proof (λ b, take_steps_from P (map_order (traces ts)) b [] ts) as Hfrom.
  fold (take_traces P ts) in Hs, Hfrom. destruct (take_traces P ts) as [bs ts1]. cbn [fst snd] in *. split.
  - eapply Forall_impl; [apply finalize_all_verdicts|intros v; by apply same_setup_verdict].
    intros b Hb. destruct (Hfrom b Hb) as [Hb'|[k Hk]]; [by apply not_elem_of_nil in Hb'|].
    rewrite (Hvisits TraceBuffer (traces ts)) in Hk. apply elem_of_map_to_list in Hk. exists k. by apply H.
  - unfold tail_ok. rewrite finalize_all_traces, Hleft. intros k b [Hk _]%map_lookup_filter_Some. by apply H.
Qed.
Lemma decided_sub P ts : let '(bs, ts1) := take_traces P ts in
  same_setup ts (finalize_all bs ts1).2 ∧ traces (finalize_all bs ts1).2 ⊆ traces ts.
Proof.
  pose proof (take_traces_left Hvisits P ts) as Hl. pose proof (take_steps_setup P (map_order (traces ts)) [] ts) as Hs.
  fold (take_traces P ts) in Hs. destruct (take_traces P ts) as [bs ts1]. cbn [snd] in *.
  split; [eapply same_setup_trans; [exact Hs|apply finalize_all_setup]|].
  rewrite finalize_all_traces, Hl. apply map_filter_subseteq.
Qed.
Lemma evict_ok ts : tail_ok ts → Forall (verdict_ok ts) (evictOldestTrace ts).1 ∧ tail_ok (evictOldestTrace ts).2 ∧
  same_setup ts (evictOldestTrace ts).2.
Proof.
  intros H. unfold evictOldestTrace. destruct (String.eqb _ _); [by split_and!|].
  destruct (traces ts !! oldest (traces ts)) as [b|] eqn:Hb; [|by split_and!].
  pose proof (finalize_verdict (remove_trace (oldest (traces ts)) ts) b _ (H _ _ Hb)) as Hv.
  pose proof (finalize_setup b (remove_trace (oldest (traces ts)) ts)) as Hs.
  pose proof (finalize_traces b (remove_trace (oldest (traces ts)) ts)) as Ht.
  destruct (finalizeTrace b _) as [v ts']. cbn [fst snd] in *. split_and!; [|unfold tail_ok; rewrite Ht; by apply map_Forall_delete|done].
  constructor; [by refine (same_setup_verdict _ _ v _ Hv)|constructor].
Qed.
Lemma tail_step_ok op ts : tail_ok ts → Forall (verdict_ok ts) (tail_step op ts).1 ∧ tail_ok (tail_step op ts).2.
Proof.
  intros H. destruct op as [now sp|now| |c|service|service]; cbn [tail_step]; try (by split).
  - unfold tail_ShouldSample. destruct (t_Enabled _); [|by split]. cbn [negb]. rewrite bufferSpan_unfold. unfold buffer_for.
    change (traces (count_deferred ts)) with (traces ts). change (t_config (count_deferred ts)) with (t_config ts).
    destruct (traces ts !! sp_TraceID sp) as [b|] eqn:Hb.
    { cbn [snd]. destruct (_ <=? _); [by split|]. split; [by constructor|]. apply map_Forall_insert_2; [|done].
      apply add_span_ok, H, Hb. }
    pose proof (evict_ok (count_deferred ts) H) as Hev. destruct (_ <=? _).
    + destruct (evictOldestTrace _) as [vs ts']. cbn [fst snd] in Hev. destruct Hev as (Hv & Hok & _).
      destruct (_ <=? _); (split; [by eapply Forall_impl; [exact Hv|intros v; by apply same_setup_verdict]|]).
      * by apply map_Forall_insert_2; [apply new_buffer_ok|].
      * apply map_Forall_insert_2; [apply add_span_ok, new_buffer_ok|]. by apply map_Forall_insert_2; [apply new_buffer_ok|].
    + destruct (_ <=? _); (split; [by constructor|]).
      * by apply map_Forall_insert_2; [apply new_buffer_ok|].
      * apply map_Forall_insert_2; [apply add_span_ok, new_buffer_ok|]. by apply map_Forall_insert_2; [apply new_buffer_ok|].
  - unfold processTimedOutTraces. pose proof (decided_ok (λ b, BufferTimeout (t_config ts) <? time_Sub now (LastUpdated b)) ts H) as Hd.
    by destruct (take_traces _ ts).
  - unfold ForceFlush. pose proof (decided_ok (λ _, true) ts H) as Hd. by destruct (take_traces _ ts).
Qed.
Lemma tail_run_cons op ops ts : (tail_run (op :: ops) ts).2 = (tail_run ops (tail_step op ts).2).2.
Proof. cbn. destruct (tail_step op ts) as [vs ts1]. cbn. by destruct (tail_run ops ts1) as [[[? ?] ?] ?]. Qed.
Lemma tail_run_ok ops : ∀ ts, tail_ok ts → tail_ok (tail_run ops ts).2.
Proof. induction ops as [|op ops IH]; intros ts H; [done|]. rewrite tail_run_cons. by apply IH, tail_step_ok. Qed.

(** C34: The verdict about a trace follows from its spans that are buffered. These are not all of its
    spans: one that comes when MaxSpansPerTrace of the trace are buffered already is not looked at,
    and an error among those does not keep the trace (error_over_the_limit_is_lost); nor is one that
    comes after a verdict about its trace, which begins a new buffer. Whatever spans, ticks, flushes
    and changes of configuration came before, the buffered spans of a trace that a step decides
    about have its identifier; if it is dropped, then none of them has an error when the rate of
    errors is one, none is as slow as the threshold when the rate of slow traces is one, its root
    service (of the buffered root span) is not a priority service and its identifier is not sampled
    by the default rate; if it is kept, then for the reason that is given. *)
Theorem tail_verdicts c ops op :
  let ts := (tail_run ops (NewTailSampler c)).2 in Forall (verdict_ok ts) (tail_step op ts).1.
Proof.
  cbv zeta. apply tail_step_ok, tail_run_ok. apply map_Forall_empty.
Qed.

(** ** Bounds on what is buffered *)

Definition unnamed (op : TailOp) : bool := match op with TailSpan _ s => String.eqb (sp_TraceID s) "" | _ => false end.
Definition reconfigures (op : TailOp) : bool := match op with TailConfig _ => true | _ => false end.

Lemma older_key (l : list (string * TraceBuffer)) : ∀ best, (∀ k b, (k, b) ∈ l → k ≠ ""%string) → best.1 ≠ ""%string →
  (foldl older best l).1 = best.1 ∨ (foldl older best l).1 ∈ l.*1.
Proof.
  induction l as [|[k b] l IH]; intros best Hl Hb; [by left|]. cbn [foldl fmap list_fmap fst].
  assert (Hk : k ≠ ""%string) by (eapply Hl; constructor).
  destruct (IH (older best (k, b))) as [E|E]; [by intros ???; eapply Hl; constructor| | |by right; constructor].
  - unfold older. by destruct (_ || _).
  - rewrite E. unfold older. destruct (_ || _); [right; constructor|by left].
Qed.
Lemma oldest_in (m : gmap string TraceBuffer) : m ≠ ∅ → m !! ""%string = None → oldest m ≠ ""%string ∧ is_Some (m !! oldest m).
Proof.
  intros Hne H0. unfold oldest. pose proof (Hvisits TraceBuffer m) as Hp.
  assert (Hin : ∀ k b, (k, b) ∈ map_order m → m !! k = Some b) by (intros k b; rewrite Hp; apply elem_of_map_to_list).
  assert (Hl : ∀ k b, (k, b) ∈ map_order m → k ≠ ""%string) by (intros k b Hk%Hin ->; congruence).
  destruct (map_order m) as [|[k b] l] eqn:El.
  { symmetry in Hp. apply Permutation_nil_r in Hp. by apply map_to_list_empty_iff in Hp. }
  change (foldl older (""%string, zero_time) ((k, b) :: l)) with (foldl older (k, FirstSeen b) l).
  destruct (older_key l (k, FirstSeen b)) as [Ho|Ho]; [by intros ???; eapply Hl; constructor|by eapply Hl; constructor|..].
  - rewrite Ho. split; [by eapply Hl; constructor|]. exists b. apply Hin. constructor.
  - apply list_elem_of_fmap in Ho as ([k' b'] & -> & Hk'). cbn. split; [by eapply Hl; constructor|].
    exists b'. apply Hin. by constructor.
Qed.

Record bounded (c : TailSamplerConfig) (ts : TailSampler) : Prop := {
  bd_traces : MaxBufferedTraces (t_config ts) = MaxBufferedTraces c;
  bd_spans : MaxSpansPerTrace (t_config ts) = MaxSpansPerTrace c;
  bd_named : traces ts !! ""%string = None;
  bd_size : Z.of_nat (size (traces ts)) ≤ Z.max 1 (MaxBufferedTraces c);
  bd_buffers : map_Forall (λ _ b, SpanCount b ≤ Z.max 0 (MaxSpansPerTrace c)) (traces ts);
}.

Lemma evict_traces ts : traces ts !! ""%string = None →
  traces (evictOldestTrace ts).2 = delete (oldest (traces ts)) (traces ts).
Proof.
  intros H0. unfold evictOldestTrace. destruct (decide (traces ts = ∅)) as [E|Hne].
  - rewrite E, delete_empty. destruct (String.eqb _ _); [done|]. by rewrite lookup_empty.
  - destruct (oldest_in _ Hne H0) as [Hn [b Hb]]. apply String.eqb_neq in Hn. rewrite Hn, Hb.
    pose proof (finalize_traces b (remove_trace (oldest (traces ts)) ts)) as Ht. by destruct (finalizeTrace b _).
Qed.
Lemma evict_room ts : traces ts !! ""%string = None →
  Z.of_nat (size (traces (evictOldestTrace ts).2)) ≤ Z.max 0 (Z.of_nat (size (traces ts)) - 1).
Proof.
  intros H0. rewrite evict_traces by done. destruct (decide (traces ts = ∅)) as [E|Hne]; [by rewrite E, delete_empty|].
  destruct (oldest_in _ Hne H0) as [_ [b Hb]]. rewrite map_size_delete_Some by eauto. lia.
Qed.

(** A step that leaves a part of the traces. *)
Lemma bounded_sub c ts ts' : bounded c ts → same_setup ts ts' → traces ts' ⊆ traces ts → bounded c ts'.
Proof.
  intros [H1 H2 H3 H4 H5] [Hc _] Hsub. split; [congruence|congruence|by eapply lookup_weaken_None|..].
  - pose proof (map_subseteq_size _ _ Hsub). lia.
  - intros k b Hk. apply (H5 k). by eapply lookup_weaken.
Qed.

(** The buffer of the trace, and the room that there is. *)
Lemma buffer_for_bounded c now id ts : id ≠ ""%string → bounded c ts → let '(_, b, ts') := buffer_for now id ts in
  bounded c ts' ∧ traces ts' !! id = Some b.
Proof.
  intros Hid H. unfold buffer_for. destruct (traces ts !! id) as [b|] eqn:Hb; [done|].
  assert (∃ vs ts', (if MaxBufferedTraces (t_config ts) <=? Z.of_nat (size (traces ts)) then evictOldestTrace ts
    else ([], ts)) = (vs, ts') ∧ bounded c ts' ∧ traces ts' !! id = None ∧
    Z.of_nat (size (traces ts')) + 1 ≤ Z.max 1 (MaxBufferedTraces c)) as (vs & ts' & -> & [H1 H2 H3 H4 H5] & Hb' & Hroom).
  { pose proof H as [H1 H2 H3 H4 H5]. rewrite H1. destruct (Z.leb_spec (MaxBufferedTraces c) (Z.of_nat (size (traces ts)))).
    - pose proof (evict_room ts H3) as Hr. pose proof (evict_traces ts H3) as Ht.
      assert (Hs : same_setup ts (evictOldestTrace ts).2).
      { unfold evictOldestTrace. destruct (String.eqb _ _); [done|]. destruct (traces ts !! oldest _) as [b|]; [|done].
        pose proof (finalize_setup b (remove_trace (oldest (traces ts)) ts)) as Hs. by destruct (finalizeTrace b _). }
      destruct (evictOldestTrace ts) as [vs ts']. cbn [snd] in *. exists vs, ts'. split_and!; [done|..|lia].
      + eapply bounded_sub; [done..|]. rewrite Ht. apply delete_subseteq.
      + rewrite Ht. by apply lookup_delete_None; right.
    - exists [], ts. split_and!; [done..|lia]. }
  split; [|by apply lookup_insert_eq]. split; cbn [traces put_traces t_config]; [done|done|..].
  - by rewrite lookup_insert_ne.
  - rewrite map_size_insert_None by done. lia.
  - apply map_Forall_insert_2; [|done]. unfold SpanCount. cbn. lia.
Qed.

Lemma tail_step_bounded c op ts : unnamed op = false → reconfigures op = false → bounded c ts → bounded c (tail_step op ts).2.
Proof.
  intros Hn Hc H. destruct op as [now sp|now| |c'|service|service]; cbn [tail_step]; try done.
  - unfold tail_ShouldSample. destruct (t_Enabled _); [|done]. cbn [negb unnamed] in *. apply String.eqb_neq in Hn.
    rewrite bufferSpan_unfold. assert (Hd : bounded c (count_deferred ts)) by (by destruct H).
    pose proof (buffer_for_bounded c now _ _ Hn Hd) as Hb. destruct (buffer_for _ _ _) as [[vs b] ts'].
    destruct Hb as [Hb Hin]. pose proof Hb as [H1 H2 H3 H4 H5]. rewrite H2.
    destruct (Z.leb_spec (MaxSpansPerTrace c) (SpanCount b)); [done|].
    split; cbn [snd traces put_traces t_config]; [done|done|..].
    + by rewrite lookup_insert_ne.
    + by rewrite map_size_insert_Some.
    + apply map_Forall_insert_2; [|done]. unfold SpanCount in *. cbn [Spans AddSpan]. rewrite length_app. cbn. lia.
  - unfold processTimedOutTraces. pose proof (decided_sub (λ b, BufferTimeout (t_config ts) <? time_Sub now (LastUpdated b)) ts) as Hs.
    destruct (take_traces _ ts), Hs; by eapply bounded_sub.
  - unfold ForceFlush. pose proof (decided_sub (λ _, true) ts) as Hs. destruct (take_traces _ ts), Hs; by eapply bounded_sub.
  - by destruct H.
  - by destruct H.
Qed.

(** The memory of the sampler of traces is bounded: as long as its configuration is not
    replaced and every span has a trace identifier, at most [MaxBufferedTraces] traces (and one
    when that is less than one) are buffered, with at most [MaxSpansPerTrace] spans each. *)
Theorem tail_memory_bounded c ops : forallb (λ op, negb (unnamed op)) ops = true → forallb (λ op, negb (reconfigures op)) ops = true →
  let ts := (tail_run ops (NewTailSampler c)).2 in
  Z.of_nat (size (traces ts)) ≤ Z.max 1 (MaxBufferedTraces c) ∧
  ∀ id b, traces ts !! id = Some b → SpanCount b ≤ Z.max 0 (MaxSpansPerTrace c).
Proof.
  intros Hn Hc. cbv zeta. assert (H : bounded c (tail_run ops (NewTailSampler c)).2); [|by destruct H].
  assert (H0 : bounded c (NewTailSampler c)).
  { split; [done..|cbn; rewrite map_size_empty; lia|apply map_Forall_empty]. }
  revert Hn Hc H0. generalize (NewTailSampler c). induction ops as [|op ops IH]; intros ts Hn Hc H0; [done|].
  cbn [forallb] in *. apply andb_prop in Hn as [Hn Hns], Hc as [Hc Hcs]. rewrite tail_run_cons.
  apply IH; [done..|]. apply tail_step_bounded; [by apply negb_true_iff|by apply negb_true_iff|done].
Qed.
End runs.
