(* ===== verification/SamplingRates.v ===== *)
(** What the sampler by rules and the adapting sampler promise, and the chain of samplers behind
    the receiver: a trace is decided once, more is kept at a higher rate, rates stay between
    their floor and ceiling, the receiver stores what is kept and counts it. *)

From Stdlib Require Import String SpecFloat.
From stdpp Require Import base option list numbers gmap strings.
From S2P Require Import Prelude Float64 FloatFacts FloatOrder Values PromFunctions Sampling SamplingChain.
From stdpp Require Import list.
#[local] Open Scope list_scope.
#[local] Open Scope Z_scope.

(** ** Sampling by rate *)

(** Sampling by the hash of a trace is consistent between rates: what is sampled at one rate
    is sampled at every higher rate, so raising a rate never loses a trace. *)
Theorem sampling_monotone key rate rate' : f64_le rate rate' = true →
  shouldSampleByRate key rate = true → shouldSampleByRate key rate' = true.
Proof.
  unfold shouldSampleByRate. intros Hle. destruct (f64_ge rate' f64_one) eqn:E1'; [done|].
  destruct (f64_ge rate f64_one) eqn:E1.
  { rewrite f64_ge_le in *. by rewrite (f64_le_trans _ _ _ E1 Hle) in E1'. }
  destruct (f64_le rate f64_zero) eqn:E0; [done|]. intros Hk.
  destruct (f64_le rate' f64_zero) eqn:E0'; [by rewrite (f64_le_trans _ _ _ Hle E0') in E0|].
  by eapply f64_lt_le_trans.
Qed.

(** ** The sampler by rules *)

Section head_facts.
Context {RT : Runtime}.

(** A sampler that is enabled, and the spans that were looked up in vain: each with its decision
    once it is made, until it is cached. *)
Definition HeadState : Type := HeadSampler * list (Span * option SamplingResult).

(** One step of one of the calls that are under way, with the time it reads and the decision it
    gives: any number of calls of [ShouldSample] interleave, and with them the ticks of the clean-up
    and changes of the rules. *)
Inductive head_step : HeadState → option Time → option (string * Sampling.Decision) → HeadState → Prop :=
| head_hit s d hs hs' fl :
    lookup_decision s hs = (Some d, hs') → head_step (hs, fl) None (Some (sp_TraceID s, d)) (hs', fl)
| head_miss s hs hs' fl :
    lookup_decision s hs = (None, hs') → head_step (hs, fl) None None (hs', (s, None) :: fl)
| head_decide now s hs fl1 fl2 :
    head_step (hs, fl1 ++ (s, None) :: fl2) (Some now) None
      (hs, fl1 ++ (s, Some (head_makeDecision now s hs)) :: fl2)
| head_store now s r hs fl1 fl2 :
    head_step (hs, fl1 ++ (s, Some r) :: fl2) (Some now) (Some (sp_TraceID s, r_Decision r))
      (head_cache now (sp_TraceID s) r hs, fl1 ++ fl2)
| head_tick now hs fl : head_step (hs, fl) (Some now) None (head_cleanup now hs, fl)
| head_rules rules hs fl : head_step (hs, fl) None None (put_rules rules hs, fl).

(** The spans of a trace that were looked up and whose decision is not cached yet. *)
Definition undecided (id : string) (fl : list (Span * option SamplingResult)) : list (Span * option SamplingResult) :=
  filter (λ p, sp_TraceID p.1 = id) fl.

(** A run between two times in which the spans of one trace do not race: never two of them are
    looked up and not yet cached. It gives decisions with the identifiers of their traces. *)
Inductive head_run (id : string) (from until : Time) : HeadState → list (string * Sampling.Decision) → HeadState → Prop :=
| head_run_nil st : head_run id from until st [] st
| head_run_step st t o st1 ds st2 :
    head_step st t o st1 → (∀ now, t = Some now → from ≤ now ≤ until) →
    (length (undecided id st1.2) ≤ 1)%nat →
    head_run id from until st1 ds st2 → head_run id from until st (option_list o ++ ds) st2.

(** A schedule: which call takes its next step, the calls that wait being numbered. *)
Inductive HeadAct :=
| ActLookup (s : Span) | ActDecide (i : nat) (now : Time) | ActStore (i : nat) (now : Time)
| ActTick (now : Time) | ActRules (rules : list Rule).
Definition act_time (a : HeadAct) : option Time :=
  match a with ActDecide _ now | ActStore _ now | ActTick now => Some now | _ => None end.
Definition head_act (a : HeadAct) (st : HeadState) : option (option (string * Sampling.Decision) * HeadState) :=
  let '(hs, fl) := st in
  match a with
  | ActLookup s =>
      match lookup_decision s hs with
      | (Some d, hs) => Some (Some (sp_TraceID s, d), (hs, fl))
      | (None, hs) => Some (None, (hs, (s, None) :: fl))
      end
  | ActDecide i now =>
      match fl !! i with
      | Some (s, None) => Some (None, (hs, take i fl ++ (s, Some (head_makeDecision now s hs)) :: drop (S i) fl))
      | _ => None
      end
  | ActStore i now =>
      match fl !! i with
      | Some (s, Some r) =>
          Some (Some (sp_TraceID s, r_Decision r), (head_cache now (sp_TraceID s) r hs, take i fl ++ drop (S i) fl))
      | _ => None
      end
  | ActTick now => Some (None, (head_cleanup now hs, fl))
  | ActRules rules => Some (None, (put_rules rules hs, fl))
  end.
Fixpoint head_acts (id : string) (from until : Time) (acts : list HeadAct) (st : HeadState) :
    option (list (string * Sampling.Decision) * HeadState) :=
  match acts with
  | [] => Some ([], st)
  | a :: acts =>
      match head_act a st with
      | Some (o, st1) =>
          if match act_time a with Some now => (from <=? now) && (now <=? until) | None => true end &&
             (length (undecided id st1.2) <=? 1)%nat
          then match head_acts id from until acts st1 with
               | Some (ds, st2) => Some (option_list o ++ ds, st2)
               | None => None
               end
          else None
      | None => None
      end
  end.
Lemma head_act_step a st o st1 : head_act a st = Some (o, st1) → head_step st (act_time a) o st1.
Proof.
  destruct st as [hs fl]. destruct a as [s|i now|i now|now|rules]; cbn [head_act act_time].
  - destruct (lookup_decision s hs) as [[d|] hs'] eqn:E; intros [= <- <-]; by constructor.
  - destruct (fl !! i) as [[s [r|]]|] eqn:E; [done| |done]. intros [= <- <-].
    rewrite <- (take_drop_middle fl i (s, None) E) at 1. constructor.
  - destruct (fl !! i) as [[s [r|]]|] eqn:E; [|done..]. intros [= <- <-].
    rewrite <- (take_drop_middle fl i (s, Some r) E) at 1. constructor.
  - intros [= <- <-]. constructor.
  - intros [= <- <-]. constructor.
Qed.
Lemma head_acts_run id from until acts : ∀ st ds st', head_acts id from until acts st = Some (ds, st') →
  head_run id from until st ds st'.
Proof.
  induction acts as [|a acts IH]; intros st ds st'; cbn [head_acts]; [intros [= <- <-]; constructor|].
  destruct (head_act a st) as [[o st1]|] eqn:Ea; [|done]. case_match eqn:Ec; [|done].
  destruct (head_acts id from until acts st1) as [[ds' st2]|] eqn:Er; [|done]. intros [= <- <-].
  apply andb_true_iff in Ec as [Et El%Nat.leb_le]. eapply head_run_step; [by apply head_act_step| |done|by apply IH].
  intros now E. rewrite E in Et. lia.
Qed.

(** A decision that is kept in mind while it lasts. *)
Record decided (id : string) (d : Sampling.Decision) (t : Time) (ttl : Duration) (hs : HeadSampler) : Prop := {
  dc_enabled : h_Enabled (h_config hs) = true;
  dc_ttl : DecisionTTL (h_config hs) = ttl;
  dc_cached : ∃ c, decisions hs !! id = Some c ∧ c_decision c = d ∧ c_timestamp c = t;
}.
Lemma evict_keeps now config m id c : m !! id = Some c → time_Sub now (c_timestamp c) ≤ DecisionTTL config →
  evictOldDecisions now config m !! id = Some c.
Proof. intros H Ht. by apply map_lookup_filter_Some. Qed.
Lemma count_head_decision_same d hs : decisions (count_head_decision d hs) = decisions hs ∧ h_config (count_head_decision d hs) = h_config hs.
Proof. unfold count_head_decision. by case_bool_decide. Qed.

Lemma decided_lookup id d t ttl s hs o hs' : decided id d t ttl hs → lookup_decision s hs = (o, hs') →
  decided id d t ttl hs' ∧ (sp_TraceID s = id → o = Some d).
Proof.
  intros [H1 H2 (c & Hc & Hd & Ht)]. unfold lookup_decision.
  change (decisions (count_span hs)) with (decisions hs). destruct (decisions hs !! sp_TraceID s) as [c'|] eqn:E; intros [= <- <-].
  - destruct (count_head_decision_same (c_decision c') (count_span hs)) as [Ed Ec]. split; [|intros <-; congruence].
    split; rewrite ?Ed, ?Ec; [done..|]. by exists c.
  - split; [|intros <-; congruence]. split; [done..|]. by exists c.
Qed.
Lemma decided_cache id d t ttl now id' r hs : decided id d t ttl hs → time_Sub now t ≤ ttl → id' ≠ id →
  decided id d t ttl (head_cache now id' r hs).
Proof.
  intros [H1 H2 (c & Hc & Hd & Ht)] Hnow Hne. unfold head_cache. set (hs' := cacheDecision _ _ _ _).
  destruct (count_head_decision_same (r_Decision r) hs') as [Ed Ec].
  split; rewrite ?Ed, ?Ec; [done..|]. exists c. split; [|done]. cbn. rewrite lookup_insert_ne by congruence.
  destruct (_ <=? _); [|done]. apply evict_keeps; [done|]. rewrite Ht, H2. done.
Qed.
Lemma decided_tick id d t ttl now hs : decided id d t ttl hs → time_Sub now t ≤ ttl → decided id d t ttl (head_cleanup now hs).
Proof.
  intros [H1 H2 (c & Hc & Hd & Ht)] Hnow. split; [done..|]. exists c. split; [|done].
  apply evict_keeps; [done|]. by rewrite Ht, H2.
Qed.

Lemma undecided_app id fl1 p fl2 :
  undecided id (fl1 ++ p :: fl2) = undecided id fl1 ++ (if decide (sp_TraceID p.1 = id) then [p] else []) ++ undecided id fl2.
Proof. unfold undecided. rewrite filter_app, filter_cons. by case_decide. Qed.

(** Once the decision is cached, it is the one given. *)
Lemma decided_run id from until d t ttl st ds st' :
  head_run id from until st ds st' → time_Sub until t ≤ ttl → decided id d t ttl st.1 → undecided id st.2 = [] →
  ∀ d', (id, d') ∈ ds → d' = d.
Proof.
  intros Hrun Httl. induction Hrun as [|st ti o st1 ds st2 Hstep Hnow _ _ IH]; intros Hd Hu d' Hin; [by apply not_elem_of_nil in Hin|].
  assert (Hle : ∀ now, ti = Some now → time_Sub now t ≤ ttl).
  { intros now E. specialize (Hnow now E). unfold time_Sub in *. lia. }
  destruct Hstep as [s d0 hs hs' fl Hl|s hs hs' fl Hl|now s hs fl1 fl2|now s r hs fl1 fl2|now hs fl|rules hs fl];
    cbn [fst snd option_list app] in *.
  - destruct (decided_lookup _ _ _ _ _ _ _ _ Hd Hl) as [Hd' Hs]. apply elem_of_cons in Hin as [[= -> ->]|Hin]; [|by apply IH].
    by specialize (Hs eq_refl) as [= ->].
  - destruct (decided_lookup _ _ _ _ _ _ _ _ Hd Hl) as [Hd' Hs]. apply IH; [done| |done].
    unfold undecided in *. rewrite filter_cons. case_decide as E; [by specialize (Hs E)|done].
  - apply IH; [done| |done]. rewrite undecided_app in *. cbn [fst] in *. by case_decide; apply app_nil in Hu as [-> Hu].
  - rewrite undecided_app in Hu. cbn [fst] in Hu. apply app_nil in Hu as [Hu1 [Hu2 Hu3]%app_nil]. case_decide as E; [done|].
    apply elem_of_cons in Hin as [[= E1 _]|Hin]; [congruence|]. apply IH; [by apply decided_cache; auto| |done].
    unfold undecided in *. by rewrite filter_app, Hu1, Hu3.
  - apply IH; [by apply decided_tick; auto|done..].
  - apply IH; [by destruct Hd|done..].
Qed.

(** Before it is cached, at most one span of the trace waits, with a decision of the run. *)
Record waiting (id : string) (from : Time) (ttl : Duration) (st : HeadState) : Prop := {
  wt_enabled : h_Enabled (h_config st.1) = true;
  wt_ttl : DecisionTTL (h_config st.1) = ttl;
  wt_none : decisions st.1 !! id = None;
  wt_one : (length (undecided id st.2) ≤ 1)%nat;
  wt_times : Forall (λ p, ∀ r, p.2 = Some r → from ≤ r_Timestamp r) (undecided id st.2);
}.
Lemma lookup_keeps s hs o hs' : lookup_decision s hs = (o, hs') → decisions hs' = decisions hs ∧ h_config hs' = h_config hs.
Proof.
  unfold lookup_decision. destruct (decisions (count_span hs) !! _) as [c|]; intros [= <- <-]; [|done].
  apply (count_head_decision_same (c_decision c) (count_span hs)).
Qed.
Lemma waiting_run id from until ttl st ds st' :
  head_run id from until st ds st' → time_Sub until from ≤ ttl → waiting id from ttl st →
  ∀ d1 d2, (id, d1) ∈ ds → (id, d2) ∈ ds → d1 = d2.
Proof.
  intros Hrun Httl. induction Hrun as [|st ti o st1 ds st2 Hstep Hnow Hone Hrun IH]; intros [He Ht Hn Ho Hw] d1 d2 H1 H2;
    [by apply not_elem_of_nil in H1|].
  destruct Hstep as [s d0 hs hs' fl Hl|s hs hs' fl Hl|now s hs fl1 fl2|now s r hs fl1 fl2|now hs fl|rules hs fl];
    cbn [fst snd option_list app] in *.
  - destruct (lookup_keeps _ _ _ _ Hl) as [Ed Ec].
    assert (Hs : sp_TraceID s ≠ id).
    { intros E. unfold lookup_decision in Hl. change (decisions (count_span hs)) with (decisions hs) in Hl. by rewrite E, Hn in Hl. }
    apply elem_of_cons in H1 as [[= E1 _]|H1]; [congruence|]. apply elem_of_cons in H2 as [[= E1 _]|H2]; [congruence|].
    apply IH; [|done..]. by split; cbn; rewrite ?Ed, ?Ec.
  - destruct (lookup_keeps _ _ _ _ Hl) as [Ed Ec]. apply IH; [|done..]. split; cbn [fst snd]; rewrite ?Ed, ?Ec; [done..|].
    unfold undecided in *. rewrite filter_cons. by case_decide; [constructor|].
  - apply IH; [|done..]. split; cbn [fst snd]; [done..|]. rewrite undecided_app in *. cbn [fst] in *.
    apply Forall_app in Hw as [Hw1 [_ Hw3]%Forall_app]. apply Forall_app. split; [done|]. apply Forall_app. split; [|done].
    case_decide; [|constructor]. constructor; [|constructor]. cbn. intros r [= <-]. specialize (Hnow now eq_refl).
    unfold head_makeDecision. by destruct (find _ _); cbn; lia.
  - destruct (decide (sp_TraceID s = id)) as [E|E].
    + rewrite undecided_app in Ho, Hw. cbn [fst] in Ho, Hw. rewrite decide_True in Ho, Hw by done.
      assert (Hu : undecided id (fl1 ++ fl2) = []).
      { unfold undecided in *. rewrite filter_app. rewrite !length_app in Ho. cbn in Ho.
        apply length_zero_iff_nil. rewrite length_app. lia. }
      apply Forall_app in Hw as [_ [Hr _]%Forall_app]. apply Forall_cons in Hr as [Hr _]. cbn in Hr. specialize (Hr r eq_refl).
      assert (Hall : ∀ d', (id, d') ∈ ds → d' = r_Decision r).
      { apply (decided_run _ _ _ _ (r_Timestamp r) ttl _ _ _ Hrun); [unfold time_Sub in *; lia| |done]. cbn [fst].
        unfold head_cache. set (hs' := cacheDecision _ _ _ _).
        destruct (count_head_decision_same (r_Decision r) hs') as [Ed Ec]. split; rewrite ?Ed, ?Ec; [done..|].
        eexists. split; [cbn; rewrite E; apply lookup_insert_eq|done]. }
      apply elem_of_cons in H1 as [[= -> ->]|H1%Hall]; apply elem_of_cons in H2 as [[= ->]|H2%Hall]; congruence.
    + apply elem_of_cons in H1 as [[= E1 _]|H1]; [congruence|]. apply elem_of_cons in H2 as [[= E1 _]|H2]; [congruence|].
      rewrite undecided_app in Hw. cbn [fst] in Hw. rewrite decide_False in Hw by done.
      apply IH; [|done..]. unfold head_cache. set (hs' := cacheDecision _ _ _ _).
      destruct (count_head_decision_same (r_Decision r) hs') as [Ed Ec].
      split; cbn [fst snd]; rewrite ?Ed, ?Ec; [done..| |done|by unfold undecided in *; rewrite filter_app].
      cbn. rewrite lookup_insert_ne by done. destruct (_ <=? _); [|done]. unfold evictOldDecisions. by rewrite map_lookup_filter, Hn.
  - apply IH; [|done..]. split; cbn [fst snd]; [done..| |done|done]. cbn. unfold evictOldDecisions. by rewrite map_lookup_filter, Hn.
  - by apply IH.
Qed.

(** C35: The sampler by rules never splits a trace while its decision lasts, as long as its spans do
    not race. From a state of an enabled sampler in which the trace has no decision and none of its
    spans is under way, all the decisions about its spans are the same, in every run that lasts no
    longer than [DecisionTTL]: the calls of [ShouldSample] for any spans, each a look-up, a decision
    and its caching, interleave with one another, with clean-ups, evictions from a full cache and
    changes of the rules; but never are two spans of this trace both looked up and not yet cached
    (the lock is released in between, and such spans may be decided differently:
    racing_spans_split_a_trace). *)
Theorem head_decides_once id from until hs fl ds st : h_Enabled (h_config hs) = true →
  decisions hs !! id = None → undecided id fl = [] → time_Sub until from ≤ DecisionTTL (h_config hs) →
  head_run id from until (hs, fl) ds st → ∀ d1 d2, (id, d1) ∈ ds → (id, d2) ∈ ds → d1 = d2.
Proof.
  intros He Hn Hu Httl Hrun. apply (waiting_run _ _ _ _ _ _ _ Hrun Httl).
  split; cbn [fst snd]; rewrite ?Hu; [done..|cbn; lia|constructor].
Qed.
End head_facts.

(** ** The sampler that adapts *)

Definition in_range (c : AdaptiveSamplerConfig) (rate : float64) : Prop :=
  f64_le (MinSampleRate c) rate = true ∧ f64_le rate (MaxSampleRate c) = true.
(** A configuration that makes sense: finite, a floor below the ceiling, some smoothing. *)
Record config_ok (c : AdaptiveSamplerConfig) : Prop := {
  ok_min : is_finite (MinSampleRate c) = true;
  ok_max : is_finite (MaxSampleRate c) = true;
  ok_order : f64_le (MinSampleRate c) (MaxSampleRate c) = true;
  ok_target : is_finite (TargetTracesPerSecond c) = true;
  ok_smoothing : is_finite (SmoothingFactor c) = true;
  ok_smooths : f64_lt f64_zero (SmoothingFactor c) = true;
}.

Lemma math_Min_spec x y : is_nan x = false → is_nan y = false →
  f64_le (math_Min x y) x = true ∧ (f64_le (math_Min x y) y = true) ∧
  ∀ z, f64_le z x = true → f64_le z y = true → f64_le z (math_Min x y) = true.
Proof.
  intros Hx Hy. assert (H : math_Min x y = x ∧ f64_le x y = true ∨ math_Min x y = y ∧ f64_le y x = true ∨
    (∃ s s' s'', x = S754_zero s ∧ y = S754_zero s' ∧ math_Min x y = S754_zero s'')).
  { pose proof (f64_not_lt x y Hx Hy) as Hn. pose proof (f64_lt_le x y) as Hl.
    destruct x as [sx|[]| |sx mx ex], y as [sy|[]| |sy my ey]; try done; cbn [math_Min]; try (by auto); eauto 10.
    all: destruct (f64_lt _ _) eqn:E; auto. }
  destruct H as [[-> H]|[[-> H]|(s & s' & s'' & -> & -> & ->)]].
  - split_and!; [by apply f64_le_refl|done|auto].
  - split_and!; [done|by apply f64_le_refl|auto].
  - split_and!; [done|done|]. by intros [|[]| |[]].
Qed.
Lemma math_Max_spec x y : is_nan x = false → is_nan y = false →
  f64_le x (math_Max x y) = true ∧ f64_le y (math_Max x y) = true ∧
  ∀ z, f64_le x z = true → f64_le y z = true → f64_le (math_Max x y) z = true.
Proof.
  intros Hx Hy. assert (H : math_Max x y = x ∧ f64_le y x = true ∨ math_Max x y = y ∧ f64_le x y = true ∨
    (∃ s s' s'', x = S754_zero s ∧ y = S754_zero s' ∧ math_Max x y = S754_zero s'')).
  { pose proof (f64_not_lt y x Hy Hx) as Hn. pose proof (f64_lt_le y x) as Hl.
    destruct x as [sx|[]| |sx mx ex], y as [sy|[]| |sy my ey]; try done; cbn [math_Max]; try (by auto); eauto 10.
    all: rewrite f64_gt_lt in *; destruct (f64_lt _ _) eqn:E; auto. }
  destruct H as [[-> H]|[[-> H]|(s & s' & s'' & -> & -> & ->)]].
  - split_and!; [by apply f64_le_refl|done|auto].
  - split_and!; [done|by apply f64_le_refl|auto].
  - split_and!; [done|done|]. by intros [|[]| |[]].
Qed.
Lemma clamp_in_range c rate : f64_le (MinSampleRate c) (MaxSampleRate c) = true → is_nan rate = false → in_range c (clamp c rate).
Proof.
  intros Ho Hr. destruct (f64_le_number _ _ Ho) as [Hmin Hmax]. unfold in_range, clamp.
  destruct (math_Min_spec (MaxSampleRate c) rate Hmax Hr) as (H1 & H2 & _).
  destruct (f64_le_number _ _ H1) as [Hm _].
  destruct (math_Max_spec (MinSampleRate c) _ Hmin Hm) as (G1 & _ & G3). split; [done|]. by apply G3.
Qed.
Lemma in_range_finite c rate : config_ok c → in_range c rate → is_finite rate = true.
Proof. intros [] []. by apply (f64_between_finite (MinSampleRate c) (MaxSampleRate c)). Qed.
Lemma finite_number x : is_finite x = true → is_nan x = false.
Proof. by destruct x. Qed.

Lemma smoothed_in_range c old desired : config_ok c → in_range c old → in_range c desired → in_range c (smoothed c old desired).
Proof.
  intros Hc Ho Hd. apply clamp_in_range; [apply Hc|]. apply f64_add_number; [by eapply in_range_finite|].
  apply f64_mul_number; [|apply Hc|apply f64_lt_signed, Hc]. apply f64_sub_number; by eapply in_range_finite.
Qed.
Lemma desired_in_range c spans window : config_ok c → in_range c (desired_rate c spans window).
Proof.
  intros Hc. apply clamp_in_range; [apply Hc|]. destruct (f64_gt _ _) eqn:E; [|by apply finite_number, Hc].
  apply f64_div_number; [apply Hc|]. by apply f64_lt_signed.
Qed.

Section adaptive_facts.
Context {RT : Runtime}.

Inductive AdaptiveOp :=
| AdaptiveSpan (now : Time) (s : Span)
| AdaptiveTick (now : Time)
| AdaptiveSetRate (rate : float64)
| AdaptiveSetServiceRate (now : Time) (service : string) (rate : float64)
| AdaptiveConfig (c : AdaptiveSamplerConfig).
Definition adaptive_step (op : AdaptiveOp) (s : AdaptiveSampler) : AdaptiveSampler :=
  match op with
  | AdaptiveSpan now sp => (adaptive_ShouldSample now sp s).2
  | AdaptiveTick now => adjustRates now s
  | AdaptiveSetRate rate => SetRate rate s
  | AdaptiveSetServiceRate now service rate => SetServiceRate now service rate s
  | AdaptiveConfig c => adaptive_UpdateConfig c s
  end.
Definition adaptive_run (ops : list AdaptiveOp) (s : AdaptiveSampler) : AdaptiveSampler :=
  foldl (λ s op, adaptive_step op s) s ops.
Definition op_ok (op : AdaptiveOp) : Prop :=
  match op with
  | AdaptiveSetRate rate => is_nan rate = false
  | AdaptiveConfig c => config_ok c
  | _ => True
  end.

Record rate_ok (s : AdaptiveSampler) : Prop := {
  ro_config : config_ok (as_config s);
  ro_rate : in_range (as_config s) (currentRate s);
  ro_history : Nat.le (length (historicalRates s)) 60;
}.
Lemma same_rate_ok s s' : as_config s' = as_config s → currentRate s' = currentRate s → historicalRates s' = historicalRates s →
  rate_ok s → rate_ok s'.
Proof. intros E1 E2 E3 []. split; by rewrite ?E1, ?E2, ?E3. Qed.
Lemma record_same now service kept s : let s' := recordServiceSample now service kept s in
  as_config s' = as_config s ∧ currentRate s' = currentRate s ∧ historicalRates s' = historicalRates s.
Proof. unfold recordServiceSample. by destruct (PerServiceRates _). Qed.
Lemma adjust_same now w s : let s' := adjustServiceRates now w s in
  as_config s' = as_config s ∧ currentRate s' = currentRate s ∧ historicalRates s' = historicalRates s.
Proof. unfold adjustServiceRates. by destruct (_ =? 0). Qed.

Lemma adaptive_step_ok op s : op_ok op → rate_ok s → rate_ok (adaptive_step op s).
Proof.
  intros Hop H. pose proof H as [H1 H2 H3]. destruct op as [now sp|now|rate|now service rate|c]; cbn [adaptive_step].
  - unfold adaptive_ShouldSample. destruct (a_Enabled _); [|done]. cbn [negb snd].
    edestruct record_same as (E1 & E2 & E3). eapply same_rate_ok; [exact E1|exact E2|exact E3|].
    unfold count_adaptive. by destruct (shouldSampleByRate _ _).
  - unfold adjustRates. set (c := as_config s). set (w := window_seconds now s). set (new := smoothed _ _ _).
    set (s1 := if PerServiceRates c then _ else _).
    assert (E : as_config s1 = c ∧ currentRate s1 = new ∧ historicalRates s1 = historicalRates s).
    { unfold s1. destruct (PerServiceRates c); [|done]. apply (adjust_same now w (put_rate new s)). }
    destruct E as (E1 & E2 & E3). split; cbn [as_config currentRate historicalRates]; [done|rewrite E2|].
    + apply smoothed_in_range; [done..|]. by apply desired_in_range.
    + unfold add_history. rewrite E3. destruct (Nat.ltb_spec 60 (length (historicalRates s ++ [new]))) as [Hl|Hl]; [|lia].
      rewrite length_drop, length_app in *. cbn in *. lia.
  - split; [done| |done]. apply clamp_in_range; [apply H1|done].
  - done.
  - split; [done| |done]. apply clamp_in_range; [apply Hop|]. by apply finite_number, (in_range_finite (as_config s)).
Qed.

(** The adapted rate stays between the floor and the ceiling of the configuration that is in
    force: after any sequence of spans, adjustments (any traffic, any time between them), rates
    set by hand to a number, service rates set by hand and configurations replaced, as long as
    the configurations are finite with a floor below the ceiling and some smoothing; and the
    history has at most sixty rates. *)
Theorem adapted_rate_in_range now c ops : config_ok c → Forall op_ok ops →
  let s := adaptive_run ops (NewAdaptiveSampler now c) in
  in_range (as_config s) (currentRate s) ∧ Nat.le (length (historicalRates s)) 60.
Proof.
  intros Hc Hops. cbv zeta. assert (H : rate_ok (adaptive_run ops (NewAdaptiveSampler now c))); [|by destruct H].
  assert (H0 : rate_ok (NewAdaptiveSampler now c)).
  { split; [done| |cbn; lia]. split; [apply Hc|apply f64_le_refl, finite_number, Hc]. }
  revert H0. generalize (NewAdaptiveSampler now c). induction Hops as [|op ops Hop Hops IH]; intros s Hs; [done|].
  cbn. by apply IH, adaptive_step_ok.
Qed.
End adaptive_facts.

(** ** The chain behind the receiver *)

Section chain_facts.
Context {RT : Runtime}.

(** Batches that arrive one after the other: the spans that the store has taken. *)
Fixpoint receive (RecordSpan : Span → bool) (batches : list (Time * list Span)) (m : option Manager) : list Span * option Manager :=
  match batches with
  | [] => ([], m)
  | (now, spans) :: batches =>
      let '(_, stored, m) := processTraces RecordSpan now spans m in
      let '(stored', m) := receive RecordSpan batches m in (stored ++ stored', m)
  end.
Definition given (batches : list (Time * list Span)) : list Span := batches ≫= snd.

(** A manager without the sampler of traces, with its counters. *)
Record counted (p k d : Z) (m : Manager) : Prop := {
  ct_enabled : Enabled (m_config m) = true;
  ct_tail : tailSampler m = None;
  ct_processed : totalProcessed m = wrap64 p;
  ct_kept : totalKept m = wrap64 k;
  ct_dropped : totalDropped m = wrap64 d;
}.
Lemma counted_eq p k d p' k' d' m : p = p' → k = k' → d = d' → counted p k d m → counted p' k' d' m.
Proof. by intros -> -> ->. Qed.
Lemma ask_adaptive_counted now sp p k d m : counted p k d m →
  let '(dec, vs, m') := ask_adaptive now sp m in dec ≠ DecisionDefer ∧ vs = [] ∧ counted p k d m'.
Proof.
  intros H. unfold ask_adaptive. destruct (adaptiveSampler m) as [s|]; [|done].
  unfold adaptive_ShouldSample. destruct (a_Enabled _); cbn [negb]; [|split_and!; [done..|by destruct H]].
  split_and!; [by destruct (shouldSampleByRate _ _)|done|by destruct H].
Qed.
Lemma ProcessSpan_counted now sp p k d m : counted p k d m →
  let '(dec, vs, m') := ProcessSpan now sp m in vs = [] ∧
  (dec = DecisionKeep ∧ counted (p + 1) (k + 1) d m' ∨ dec = DecisionDrop ∧ counted (p + 1) k (d + 1) m').
Proof.
  intros H. unfold ProcessSpan. rewrite (ct_enabled _ _ _ _ H). cbn [negb].
  assert (H1 : counted (p + 1) k d (count_processed m)).
  { destruct H as [H1 H2 H3 H4 H5]. split; cbn; [done..| |done|done]. by rewrite H3, wrap64_add_l. }
  revert H1. generalize (count_processed m). clear m H. intros m H. unfold getSamplingDecision. rewrite (ct_tail _ _ _ _ H).
  assert (Hk : ∀ m', counted (p + 1) k d m' → counted (p + 1) (k + 1) d (count_manager DecisionKeep m')).
  { intros m' [H1 H2 H3 H4 H5]. split; cbn; [done..| |done]. by rewrite H4, wrap64_add_l. }
  assert (Hd : ∀ m', counted (p + 1) k d m' → counted (p + 1) k (d + 1) (count_manager DecisionDrop m')).
  { intros m' [H1 H2 H3 H4 H5]. split; cbn; [done..|]. by rewrite H5, wrap64_add_l. }
  assert (Ha : ∀ m', counted (p + 1) k d m' → let '(dec, vs, m2) := ask_adaptive now sp m' in vs = [] ∧
    (dec = DecisionKeep ∧ counted (p + 1) (k + 1) d (count_manager dec m2) ∨
     dec = DecisionDrop ∧ counted (p + 1) k (d + 1) (count_manager dec m2))).
  { intros m' Hm'. pose proof (ask_adaptive_counted now sp _ _ _ _ Hm') as Hq.
    destruct (ask_adaptive now sp m') as [[dec vs] m2]. destruct Hq as (Hne & -> & Hq). split; [done|]. destruct dec; [left|right|done]; auto. }
  destruct (headSampler m) as [hs|]; [|by specialize (Ha m H); destruct (ask_adaptive now sp m) as [[??]?]].
  destruct (head_ShouldSample now sp hs) as [dec hs']. assert (Hh : counted (p + 1) k d (put_head hs' m)) by (by destruct H).
  case_bool_decide; [|by specialize (Ha _ Hh); destruct (ask_adaptive now sp _) as [[??]?]]. split; [done|]. right. auto.
Qed.

Lemma stored_when_kept : bool_decide (DecisionKeep = DecisionKeep) || bool_decide (DecisionKeep = DecisionDefer) = true.
Proof. done. Qed.
Lemma not_stored_when_dropped : bool_decide (DecisionDrop = DecisionKeep) || bool_decide (DecisionDrop = DecisionDefer) = false.
Proof. done. Qed.
Lemma processTraces_counted RecordSpan (Htakes : ∀ sp, RecordSpan sp = true) now spans : ∀ p k d m, counted p k d m →
  let '(_, stored, m') := processTraces RecordSpan now spans (Some m) in ∃ m1, m' = Some m1 ∧ stored `sublist_of` spans ∧
  let n := Z.of_nat (length spans) in let s := Z.of_nat (length stored) in counted (p + n) (k + s) (d + (n - s)) m1.
Proof.
  induction spans as [|sp spans IH]; intros p k d m H; cbn [processTraces].
  { exists m. split_and!; [done|constructor|]. cbn. by rewrite Z.sub_diag, !Z.add_0_r. }
  unfold adapter_ShouldSample. pose proof (ProcessSpan_counted now sp p k d m H) as Hp.
  destruct (ProcessSpan now sp m) as [[dec vs] m']. destruct Hp as (-> & [[-> Hm]|[-> Hm]]); specialize (IH _ _ _ _ Hm);
    rewrite ?stored_when_kept, ?not_stored_when_dropped; rewrite ?Htakes; cbn [mbind list_bind app andb negb].
  all: destruct (processTraces RecordSpan now spans (Some m')) as [[ok stored] m2]; destruct IH as (m1 & -> & Hs & Hc); exists m1;
    (split; [done|]).
  all: split; [first [by apply sublist_skip|by apply sublist_cons]|]; eapply counted_eq; [..|exact Hc]; cbn [length]; lia.
Qed.

(** C36: Behind the receiver of an enabled manager, without the sampler of traces and with a store
    that takes every span (a disabled manager keeps everything and counts nothing): whatever batches arrive, the spans that are stored are a subsequence of those received, none of them twice and none
    out of order, and the manager's counters of processed, kept and dropped spans are the
    (wrapped) numbers of spans received, stored, and not stored. *)
Theorem receiver_stores_what_is_kept RecordSpan t c m batches : (∀ sp, RecordSpan sp = true) → Enabled c = true → t_Enabled (c_Tail c) && negb (h_Enabled (c_Head c)) = false →
  Start t (NewManager c) = (Ok (), m) → let '(stored, m') := receive RecordSpan batches (Some m) in
  stored `sublist_of` given batches ∧ ∃ m1, m' = Some m1 ∧
  totalProcessed m1 = wrap64 (Z.of_nat (length (given batches))) ∧ totalKept m1 = wrap64 (Z.of_nat (length stored)) ∧
  totalDropped m1 = wrap64 (Z.of_nat (length (given batches)) - Z.of_nat (length stored)).
Proof.
  intros Htakes He Ht Hm. assert (H : counted 0 0 0 m).
  { revert Hm. unfold Start. cbn [started NewManager]. destruct (a_Enabled _ && _); [done|]. intros [= <-].
    split; cbn; [done|by rewrite Ht|done..]. }
  clear Hm.
  assert (Hr : ∀ p k d m, counted p k d m → let '(stored, m') := receive RecordSpan batches (Some m) in
    stored `sublist_of` given batches ∧ ∃ m1, m' = Some m1 ∧
    let n := Z.of_nat (length (given batches)) in let s := Z.of_nat (length stored) in counted (p + n) (k + s) (d + (n - s)) m1).
  { clear - Htakes. induction batches as [|[now spans] batches IH]; intros p k d m H; cbn [receive].
    { split; [constructor|]. exists m. split; [done|]. cbn. by rewrite Z.sub_diag, !Z.add_0_r. }
    pose proof (processTraces_counted RecordSpan Htakes now spans p k d m H) as Hp.
    destruct (processTraces RecordSpan now spans (Some m)) as [[ok stored] m'].
    destruct Hp as (m1 & -> & Hs & Hc). specialize (IH _ _ _ _ Hc). destruct (receive RecordSpan batches (Some m1)) as [stored' m2].
    destruct IH as (Hs' & m3 & -> & Hc'). cbn. split; [by apply sublist_app|]. exists m3. split; [done|].
    fold (given batches). rewrite !length_app, !Nat2Z.inj_add. eapply counted_eq; [..|exact Hc']; lia. }
  specialize (Hr 0 0 0 m H). destruct (receive RecordSpan batches (Some m)) as [stored m']. destruct Hr as (Hs & m1 & -> & [_ _ H1 H2 H3]).
  split; [done|]. exists m1. rewrite H1, H2, H3. done.
Qed.
End chain_facts.
