(* ===== verification/SamplingExamples.v ===== *)
(** The samplers on small traces: the theorems of SamplingFacts.v, SamplingSpec.v and
    SamplingRates.v applied to them, and the places where the code does not do what it means
    to. *)

From Stdlib Require Import String SpecFloat.
From stdpp Require Import base option numbers gmap strings.
From S2P Require Import Prelude Float64 Values Demo PromFunctions Sampling SamplingChain SamplingFacts SamplingSpec SamplingRates.
From stdpp Require Import list.
#[local] Open Scope list_scope.
#[local] Open Scope Z_scope.
#[local] Existing Instance demo_runtime.

Definition span (trace id parent service status : string) (ms : Z) : Span :=
  mkSpan trace id parent "op" service "SERVER" 0 0 (f64_of_Z ms) status "" ∅ 1 "host" "".
Definition ok (trace id : string) : Span := span trace id "" "web" "OK" 10.
Definition bad (trace id : string) : Span := span trace id "" "web" "ERROR" 10.

(** Two traces of two spans at most; errors and slow traces are kept, nothing else. *)
Definition small : TailSamplerConfig :=
  mkTailConfig true (30 * Second) 2 2 f64_one (f64_of_Z 1000) f64_one ["pay"%string] f64_zero.
Definition tail_ops : list TailOp :=
  [TailSpan 1 (ok "t1" "a"); TailSpan 2 (bad "t1" "b"); TailSpan 3 (ok "t1" "c"); TailSpan 4 (ok "t2" "d");
   TailSpan 5 (ok "t3" "e"); TailTick (100 * Second); TailSpan 101 (span "t4" "f" "" "pay" "OK" 1); TailFlush].
Definition verdict_name (v : Verdict) : string * list string * string :=
  match v with
  | Kept id spans reason => ("kept:" +:+ id, sp_SpanID <$> spans, reason)
  | Dropped id spans reason => ("dropped:" +:+ id, sp_SpanID <$> spans, reason)
  end.

(** The first trace is evicted by the third; its third span was over the limit. *)
Example tail_runs : let '(_, over, verdicts, ts) := tail_run tail_ops (NewTailSampler small) in
  (sp_SpanID <$> over, verdict_name <$> verdicts, tail_GetStats ts) =
  (["c"%string],
   [("kept:t1", ["a"; "b"], "has_error"); ("dropped:t3", ["e"], "not_sampled"); ("dropped:t2", ["d"], "not_sampled");
    ("kept:t4", ["f"], "priority_service")]%string,
   mkSamplerStats 6 3 2 1 (f64_div (f64_of_Z 3) (f64_of_Z 6))).
Proof. vm_compute. reflexivity. Qed.

Lemma tail_accounts_for_spans_witness : let '(given, over, verdicts, ts) := tail_run tail_ops (NewTailSampler small) in
  let kept := verdicts ≫= kept_spans in
  let dropped := verdicts ≫= dropped_spans in
  given ≡ₚ buffered (traces ts) ++ kept ++ dropped ++ over ∧
  t_totalSpans ts = wrap64 (count given) ∧ t_sampledSpans ts = wrap64 (count kept) ∧
  t_droppedSpans ts = wrap64 (count dropped) ∧
  t_deferredSpans ts = wrap64 (count (buffered (traces ts)) + count over) ∧
  bufferedTraces ts = wrap64 (Z.of_nat (size (traces ts))) ∧
  traces (ForceFlush ts).2 = ∅.
Proof. exact (tail_accounts_for_spans demo_visits small tail_ops). Defined.

Lemma tail_verdicts_witness : let ts := (tail_run (take 4 tail_ops) (NewTailSampler small)).2 in
  Forall (verdict_ok ts) (tail_step (TailSpan 5 (ok "t3" "e")) ts).1.
Proof. exact (tail_verdicts demo_visits small (take 4 tail_ops) (TailSpan 5 (ok "t3" "e"))). Defined.

Lemma tail_memory_bounded_witness : let ts := (tail_run (take 5 tail_ops) (NewTailSampler small)).2 in
  Z.of_nat (size (traces ts)) ≤ Z.max 1 (MaxBufferedTraces small) ∧
  ∀ id b, traces ts !! id = Some b → SpanCount b ≤ Z.max 0 (MaxSpansPerTrace small).
Proof. exact (tail_memory_bounded demo_visits small (take 5 tail_ops) eq_refl eq_refl). Defined.

Definition tenth : float64 := f64_of_decimal 1 1.
Definition even_chance : float64 := f64_of_decimal 5 1.
Lemma sampling_monotone_witness : shouldSampleByRate "t7" even_chance = true → shouldSampleByRate "t7" f64_one = true.
Proof. intros H. exact (sampling_monotone "t7" even_chance f64_one eq_refl H). Defined.

(** ** The sampler by rules *)

Definition keep_errors : HeadSampler := NewHeadSampler (c_Head DefaultConfig).
Definition drop_all : Rule := mkRule "all" "drop" "" true 200 (no_condition None) DecisionDrop f64_one 0 0.
Definition first_span : Span := ok "t1" "a".
(** Two traces at once, then the rule that drops everything, a clean-up and later spans of both. *)
Definition head_schedule : list HeadAct :=
  [ActLookup first_span; ActLookup (ok "abc" "b"); ActDecide 1 1; ActRules [drop_all]; ActDecide 0 2; ActStore 1 3;
   ActStore 0 3; ActLookup (bad "t1" "c"); ActTick 4; ActLookup (ok "t2" "d"); ActDecide 0 5; ActLookup (ok "t1" "e");
   ActStore 0 6].

(** The first trace is sampled by default, and stays so under the rule that drops everything. *)
Definition head_outcome : list (string * Sampling.Decision) :=
  [("t1", DecisionKeep); ("abc", DecisionDrop); ("t1", DecisionKeep); ("t1", DecisionKeep); ("t2", DecisionDrop)]%string.
Lemma head_runs : fst <$> head_acts "t1" 0 10 head_schedule (keep_errors, []) = Some head_outcome.
Proof. vm_compute. reflexivity. Qed.

Lemma head_decides_once_witness :
  fst <$> head_acts "t1" 0 10 head_schedule (keep_errors, []) = Some head_outcome ∧
  ∀ d1 d2, ("t1"%string, d1) ∈ head_outcome → ("t1"%string, d2) ∈ head_outcome → d1 = d2.
Proof.
  split; [exact head_runs|]. pose proof head_runs as H. destruct (head_acts "t1" 0 10 head_schedule (keep_errors, [])) as [[ds st]|] eqn:E; [|discriminate H].
  injection H as H. rewrite <- H.
  apply (head_decides_once "t1" 0 10 keep_errors [] ds st).
  - reflexivity.
  - reflexivity.
  - reflexivity.
  - apply (bool_decide_unpack _). vm_compute. exact I.
  - exact (head_acts_run "t1" 0 10 head_schedule (keep_errors, []) ds st E).
Defined.

(** Two spans of a trace that are looked up before the decision about either is cached: one is kept
    as an error, the other dropped by default, and the second decision replaces the first. *)
Lemma racing_spans_split_a_trace :
  let '(o1, hs) := lookup_decision (bad "abc" "a") keep_errors in
  let '(o2, hs) := lookup_decision (ok "abc" "b") hs in
  let r1 := head_makeDecision 1 (bad "abc" "a") hs in
  let r2 := head_makeDecision 1 (ok "abc" "b") hs in
  let hs := head_cache 2 "abc" r2 (head_cache 2 "abc" r1 hs) in
  o1 = None ∧ o2 = None ∧ r_Decision r1 = DecisionKeep ∧ r_Decision r2 = DecisionDrop ∧
  (lookup_decision (bad "abc" "c") hs).1 = Some DecisionDrop.
Proof. vm_compute. repeat split. Qed.

(** ** The sampler that adapts *)

Lemma default_config_ok : config_ok (c_Adaptive DefaultConfig).
Proof. split; vm_compute; reflexivity. Qed.
Definition busy (n : nat) : list AdaptiveOp := repeat (AdaptiveSpan 1 first_span) n.
Lemma busy_ok n : Forall op_ok (busy n).
Proof. induction n; by constructor. Qed.
Definition adaptive_ops : list AdaptiveOp :=
  busy 300 ++ [AdaptiveTick Second; AdaptiveSetRate (f64_of_Z 5); AdaptiveSetServiceRate 3 "web" f64_zero] ++
  busy 400 ++ [AdaptiveTick (2 * Second); AdaptiveConfig (with_target f64_one (c_Adaptive DefaultConfig));
               AdaptiveTick (3 * Second)].
Lemma adapted_rate_in_range_witness : let s := adaptive_run adaptive_ops (NewAdaptiveSampler 0 (c_Adaptive DefaultConfig)) in
  in_range (as_config s) (currentRate s) ∧ Nat.le (length (historicalRates s)) 60.
Proof.
  apply (adapted_rate_in_range 0 (c_Adaptive DefaultConfig) adaptive_ops default_config_ok).
  apply Forall_app_2; [apply busy_ok|]. apply Forall_app_2; [by repeat constructor|].
  apply Forall_app_2; [apply busy_ok|]. repeat constructor.
Defined.

(** ** The chain *)

Definition started_manager (c : Config) : Manager := (Start 0 (NewManager c)).2.
Definition demo_batches : list (Time * list Span) :=
  [(1, [ok "t1" "a"; ok "abc" "b"]); (2, [bad "abc" "c"; ok "t1" "d"]); (3, [bad "4bf92f3577b34da6a3ce929d0e0e4736" "e"])].
Definition takes_all (_ : Span) : bool := true.
Lemma receiver_stores_what_is_kept_witness : let '(stored, m') := receive takes_all demo_batches (Some (started_manager DefaultConfig)) in
  stored `sublist_of` given demo_batches ∧ ∃ m1, m' = Some m1 ∧
  totalProcessed m1 = wrap64 (Z.of_nat (length (given demo_batches))) ∧
  totalKept m1 = wrap64 (Z.of_nat (length stored)) ∧
  totalDropped m1 = wrap64 (Z.of_nat (length (given demo_batches)) - Z.of_nat (length stored)).
Proof.
  refine (receiver_stores_what_is_kept takes_all 0 DefaultConfig (started_manager DefaultConfig) demo_batches (λ _, eq_refl) eq_refl eq_refl _).
  unfold started_manager. cbn. reflexivity.
Defined.
(** The first two spans of "abc" share its first decision, errors or not. *)
Example receiver_runs : sp_SpanID <$> (receive takes_all demo_batches (Some (started_manager DefaultConfig))).1 = ["a"; "d"; "e"]%string.
Proof. vm_compute. reflexivity. Qed.

(** ** What the code does not do as it means to *)

(** The adapter takes a span that is deferred for one to keep: it is stored at once, and those
    of the traces that are kept are stored again. *)
Definition tail_only : Config :=
  mkConfig true f64_zero (mkHeadConfig false [] 0 0) small (mkAdaptiveConfig false f64_zero f64_zero f64_zero 1 f64_zero false).
Lemma deferred_is_stored now sp m ts : Enabled (m_config m) = true → tailSampler m = Some ts → t_Enabled (t_config ts) = true →
  (adapter_ShouldSample now sp (Some m)).1.1 = true.
Proof.
  intros He Ht Hc. unfold adapter_ShouldSample, ProcessSpan. rewrite He. cbn [negb]. unfold getSamplingDecision.
  cbn [tailSampler count_processed]. rewrite Ht. unfold tail_ShouldSample. rewrite Hc. cbn [negb].
  by destruct (bufferSpan _ _ _).
Qed.
Example dropped_is_stored_kept_is_stored_twice :
  let '(stored, m) := receive takes_all [(1, [ok "t1" "a"]); (2, [bad "t2" "b"]); (3, [ok "t3" "c"]); (4, [ok "t4" "d"])]
                        (Some (started_manager tail_only)) in
  sp_SpanID <$> stored = ["a"; "b"; "c"; "b"; "d"]%string ∧
  from_option (λ m, verdict_name <$> (Stop m).1) [] m = [("dropped:t3", ["c"], "not_sampled"); ("dropped:t4", ["d"], "not_sampled")]%string.
Proof. vm_compute. split; reflexivity. Qed.

(** An error beyond the limit of spans of its trace is not seen: the trace is dropped. *)
Example error_over_the_limit_is_lost :
  verdict_name <$> (tail_run [TailSpan 1 (ok "t" "a"); TailSpan 2 (ok "t" "b"); TailSpan 3 (bad "t" "c"); TailFlush]
                     (NewTailSampler small)).1.2 = [("dropped:t", ["a"; "b"], "not_sampled")]%string.
Proof. vm_compute. reflexivity. Qed.

(** A trace without an identifier is not evicted when it is the oldest, and nothing else is: the
    sampler has three traces where one is the limit. *)
Example unnamed_trace_is_not_evicted :
  let ts := (tail_run [TailSpan 1 (ok "" "a"); TailSpan 2 (ok "t1" "b"); TailSpan 3 (ok "t2" "c")]
              (NewTailSampler (mkTailConfig true 1 1 10 f64_one f64_one f64_one [] f64_zero))).2 in
  GetBufferedTraces ts = {[""%string := 1; "t1"%string := 1; "t2"%string := 1]}.
Proof. vm_compute. reflexivity. Qed.

(** The rule that keeps all errors does not: the adapting sampler is asked after it. *)
Example kept_error_is_dropped :
  let m := SetServiceSampleRate 1 "web" f64_zero (started_manager DefaultConfig) in
  let '(d, _, m') := ProcessSpan 2 (bad "abc" "a") m in
  d = DecisionDrop ∧ (fst ∘ head_ShouldSample 2 (bad "abc" "a")) <$> headSampler m = Some DecisionKeep.
Proof. vm_compute. split; reflexivity. Qed.

(** A rule's rate is used when its action is to keep, and not when it is to drop. *)
Lemma drop_rule_has_no_rate now s hs cr : find (matchesRule s) (compiledRules hs) = Some cr → Action (cr_rule cr) = DecisionDrop →
  r_Decision (head_makeDecision now s hs) = DecisionDrop.
Proof. intros H Ha. unfold head_makeDecision. rewrite H. cbn. by rewrite Ha. Qed.

(** A configuration without an interval is saved and stops the sampler, and no start with it
    succeeds from then on. *)
Lemma interval_breaks_restart now later c m : started m = true → a_Enabled (c_Adaptive c) = true → AdjustmentInterval (c_Adaptive c) ≤ 0 →
  (∃ verdicts m', manager_UpdateConfig now (Ok ()) c m = (Panic "non-positive interval for NewTicker", verdicts, m') ∧
     adaptiveSampler m' = None ∧ started m' = false) ∧
  ∃ m', Start later (NewManager c) = (Panic "non-positive interval for NewTicker", m').
Proof.
  intros Hs Ha Hi. apply Z.leb_le in Hi. split.
  - unfold manager_UpdateConfig, Stop. cbn [started with_config]. rewrite Hs. cbn [negb].
    unfold Start. cbn [started m_config with_config]. rewrite Ha, Hi. cbn. eauto.
  - unfold Start. cbn [started m_config NewManager]. rewrite Ha, Hi. cbn. eauto.
Qed.

(** A service's rate stays above the ceiling of a new configuration. *)
Definition capped : AdaptiveSamplerConfig := mkAdaptiveConfig true f64_one f64_zero tenth 1 f64_one true.
Example service_rate_above_the_ceiling :
  let s := adaptive_run [AdaptiveSpan 1 first_span; AdaptiveConfig capped] (NewAdaptiveSampler 0 (c_Adaptive DefaultConfig)) in
  (currentRate s, getEffectiveRate "web" s) = (tenth, f64_one).
Proof. vm_compute. reflexivity. Qed.

(** The share of a service in the traffic cancels out: a busy and a quiet service get one rate. *)
Example shares_cancel :
  let c := mkAdaptiveConfig true (f64_of_Z 25) f64_zero f64_one 1 f64_one true in
  let s := adaptive_run (repeat (AdaptiveSpan 1 (span "t" "a" "" "busy" "OK" 1)) 75 ++
                         repeat (AdaptiveSpan 1 (span "t" "a" "" "quiet" "OK" 1)) 25 ++ [AdaptiveTick Second])
             (NewAdaptiveSampler 0 c) in
  (getEffectiveRate "busy" s, getEffectiveRate "quiet" s) = (f64_of_decimal 25 2, f64_of_decimal 25 2).
Proof. vm_compute. reflexivity. Qed.
