(* ===== verification/Rbac.v ===== *)
(** Access control: roles and permissions (internal/rbac/models.go), and the tables of
    organizations, users, teams, sessions, API keys and invitations (internal/rbac/store.go).

    A table is the list of its rows in the order they were inserted; a statement that fails on a
    key that is there already leaves its table as it is. Times are kept in whole seconds. Lists
    and maps are kept as they are: their JSON is read back as it was written. *)

From Stdlib Require Import String.
From stdpp Require Import base option list numbers gmap strings.
From S2P Require Import Prelude.

(** ** Roles *)

Abbreviation Role := string (only parsing).
Definition RoleOwner : Role := "owner".
Definition RoleAdmin : Role := "admin".
Definition RoleEditor : Role := "editor".
Definition RoleViewer : Role := "viewer".

Record Permission := mkPermission { Resource : string; Action : string }.
#[export] Instance Permission_eq_dec : EqDecision Permission.
Proof. solve_decision. Defined.

Definition ResourceDashboards : string := "dashboards".
Definition ResourceAlerts : string := "alerts".
Definition ResourceIncidents : string := "incidents".
Definition ResourceUsers : string := "users".
Definition ResourceTeams : string := "teams".
Definition ResourceSettings : string := "settings".
Definition ResourceAPIKeys : string := "apikeys".
Definition ResourceLogs : string := "logs".
Definition ResourceTraces : string := "traces".
Definition ResourceMetrics : string := "metrics".
Definition ResourceSynthetics : string := "synthetics".
Definition ResourceSLOs : string := "slos".
Definition ResourceOnCall : string := "oncall".
Definition ResourceIntegrations : string := "integrations".
Definition ResourceAll : string := "*".
Definition ActionCreate : string := "create".
Definition ActionRead : string := "read".
Definition ActionUpdate : string := "update".
Definition ActionDelete : string := "delete".
Definition ActionExecute : string := "execute".
Definition ActionAll : string := "*".

Definition owner_permissions : list Permission := [mkPermission ResourceAll ActionAll].
Definition admin_permissions : list Permission :=
  [mkPermission ResourceDashboards ActionAll; mkPermission ResourceAlerts ActionAll;
   mkPermission ResourceIncidents ActionAll; mkPermission ResourceUsers ActionAll;
   mkPermission ResourceTeams ActionAll; mkPermission ResourceSettings ActionRead;
   mkPermission ResourceSettings ActionUpdate; mkPermission ResourceAPIKeys ActionAll;
   mkPermission ResourceLogs ActionAll; mkPermission ResourceTraces ActionAll;
   mkPermission ResourceMetrics ActionAll; mkPermission ResourceSynthetics ActionAll;
   mkPermission ResourceSLOs ActionAll; mkPermission ResourceOnCall ActionAll;
   mkPermission ResourceIntegrations ActionAll].
Definition editor_permissions : list Permission :=
  [mkPermission ResourceDashboards ActionCreate; mkPermission ResourceDashboards ActionRead;
   mkPermission ResourceDashboards ActionUpdate; mkPermission ResourceAlerts ActionAll;
   mkPermission ResourceIncidents ActionAll; mkPermission ResourceUsers ActionRead;
   mkPermission ResourceTeams ActionRead; mkPermission ResourceLogs ActionRead;
   mkPermission ResourceLogs ActionExecute; mkPermission ResourceTraces ActionRead;
   mkPermission ResourceMetrics ActionRead; mkPermission ResourceMetrics ActionCreate;
   mkPermission ResourceSynthetics ActionAll; mkPermission ResourceSLOs ActionAll;
   mkPermission ResourceOnCall ActionRead; mkPermission ResourceOnCall ActionUpdate].
Definition viewer_permissions : list Permission :=
  [mkPermission ResourceDashboards ActionRead; mkPermission ResourceAlerts ActionRead;
   mkPermission ResourceIncidents ActionRead; mkPermission ResourceUsers ActionRead;
   mkPermission ResourceTeams ActionRead; mkPermission ResourceLogs ActionRead;
   mkPermission ResourceTraces ActionRead; mkPermission ResourceMetrics ActionRead;
   mkPermission ResourceSynthetics ActionRead; mkPermission ResourceSLOs ActionRead;
   mkPermission ResourceOnCall ActionRead].
Definition RolePermissions (role : Role) : option (list Permission) :=
  if String.eqb role RoleOwner then Some owner_permissions
  else if String.eqb role RoleAdmin then Some admin_permissions
  else if String.eqb role RoleEditor then Some editor_permissions
  else if String.eqb role RoleViewer then Some viewer_permissions
  else None.

(** The four tests of the loop over permissions. *)
Definition grants (resource action : string) (p : Permission) : bool :=
  (String.eqb (Resource p) ResourceAll && String.eqb (Action p) ActionAll)
  || (String.eqb (Resource p) ResourceAll && String.eqb (Action p) action)
  || (String.eqb (Resource p) resource && String.eqb (Action p) ActionAll)
  || (String.eqb (Resource p) resource && String.eqb (Action p) action).
Definition HasPermission (role : Role) (resource action : string) : bool :=
  match RolePermissions role with Some ps => existsb (grants resource action) ps | None => false end.

(** A role that is not in the map is at 0. *)
Definition hierarchy (role : Role) : Z :=
  if String.eqb role RoleViewer then 1
  else if String.eqb role RoleEditor then 2
  else if String.eqb role RoleAdmin then 3
  else if String.eqb role RoleOwner then 4
  else 0.
Definition CanManageRole (managerRole targetRole : Role) : bool := hierarchy targetRole <? hierarchy managerRole.

(** ** Rows *)

Record Organization := mkOrganization {
  org_ID : string; org_Name : string; Slug : string; Plan : string; Settings : option (gmap string string);
  org_CreatedAt : Time; org_UpdatedAt : Time }.
Record Team := mkTeam {
  team_ID : string; team_OrgID : string; team_Name : string; team_Description : string; MemberIDs : list string;
  team_CreatedAt : Time; team_UpdatedAt : Time }.
Record User := mkUser {
  user_ID : string; user_OrgID : string; Email : string; PasswordHash : string; user_Name : string; user_Role : Role;
  TeamIDs : list string; AvatarURL : string; Timezone : string; IsActive : bool; LastLoginAt : option Time;
  user_CreatedAt : Time; user_UpdatedAt : Time }.
(** Sessions, keys and invitations with the hash of their token, in place of the token. *)
Record Session := mkSession {
  sess_ID : string; sess_UserID : string; sess_OrgID : string; token_hash : string; UserAgent : string;
  IPAddress : string; sess_ExpiresAt : Time; sess_CreatedAt : Time }.
Record APIKey := mkAPIKey {
  key_ID : string; key_OrgID : string; key_UserID : string; key_Name : string; KeyPrefix : string; key_hash : string;
  Permissions : list Permission; LastUsedAt : option Time; key_ExpiresAt : option Time; key_IsActive : bool;
  key_CreatedAt : Time }.
Record Invite := mkInvite {
  inv_ID : string; inv_OrgID : string; inv_Email : string; inv_Role : Role; inv_hash : string; InvitedBy : string;
  inv_ExpiresAt : Time; inv_CreatedAt : Time }.

Record DB := mkDB {
  organizations : list Organization; users : list User; teams : list Team; sessions : list Session;
  api_keys : list APIKey; invites : list Invite }.
Definition put_organizations (l : list Organization) (db : DB) : DB :=
  mkDB l (users db) (teams db) (sessions db) (api_keys db) (invites db).
Definition put_users (l : list User) (db : DB) : DB :=
  mkDB (organizations db) l (teams db) (sessions db) (api_keys db) (invites db).
Definition put_teams (l : list Team) (db : DB) : DB :=
  mkDB (organizations db) (users db) l (sessions db) (api_keys db) (invites db).
Definition put_sessions (l : list Session) (db : DB) : DB :=
  mkDB (organizations db) (users db) (teams db) l (api_keys db) (invites db).
Definition put_api_keys (l : list APIKey) (db : DB) : DB :=
  mkDB (organizations db) (users db) (teams db) (sessions db) l (invites db).
Definition put_invites (l : list Invite) (db : DB) : DB :=
  mkDB (organizations db) (users db) (teams db) (sessions db) (api_keys db) l.

(** The first row with a value in a column, and the row with a primary key. *)
Definition row_by {A} (column : A → string) (value : string) (rows : list A) : option A :=
  find (λ row, String.eqb (column row) value) rows.
Definition has_key {A} (column : A → string) (value : string) (rows : list A) : bool :=
  existsb (λ row, String.eqb (column row) value) rows.
Definition without {A} (column : A → string) (value : string) (rows : list A) : list A :=
  List.filter (λ row, negb (String.eqb (column row) value)) rows.
Definition where_ {A} (column : A → string) (value : string) (rows : list A) : list A :=
  List.filter (λ row, String.eqb (column row) value) rows.
Definition update {A} (column : A → string) (value : string) (f : A → A) (rows : list A) : list A :=
  (λ row, if String.eqb (column row) value then f row else row) <$> rows.

(** What [time.Unix(t.Unix(), 0)] keeps of a time. *)
Definition in_seconds (t : Time) : Time := from_Unix (time_Unix t).

Definition unique_failed : string := "UNIQUE constraint failed".
Definition insert_row {A} (column : A → string) (row : A) (rows : list A) : result (list A) :=
  if has_key column (column row) rows then Err unique_failed else Ok (rows ++ [row]).
Definition on_table {A} (put : list A → DB → DB) (r : result (list A)) (db : DB) : result DB :=
  match r with Ok rows => Ok (put rows db) | Err e => Err e | Panic e => Panic e end.

(** What the statements and the cryptography are asked for: ORDER BY, bcrypt (with its salt),
    the hash of tokens, and lower case; and whether the connection that a statement gets checks
    references: the switch is set on one connection of the pool (internal/storage/dbutil.go). *)
Class RbacEnv := {
  order_rows : ∀ {A}, (A → A → bool) → list A → list A;
  bcrypt_hash : string → string → result string;
  bcrypt_matches : string → string → bool;
  HashToken : string → string;
  to_lower : string → string;
  foreign_keys : Time → bool;
}.

Section store.
Context {RE : RbacEnv}.
Definition reference_failed : string := "FOREIGN KEY constraint failed".
(** A row that is inserted refers to rows that are there, if that is checked. *)
Definition referring (now : Time) (there : bool) (r : result DB) : result DB :=
  match r with Ok _ => if foreign_keys now && negb there then Err reference_failed else r | _ => r end.

(** ** Organizations *)

Definition stored_org (now : Time) (o : Organization) : Organization :=
  mkOrganization (org_ID o) (org_Name o) (Slug o) (Plan o) (Settings o) (in_seconds now) (in_seconds now).
Definition CreateOrganization (now : Time) (o : Organization) (db : DB) : result DB :=
  if has_key Slug (Slug o) (organizations db) then Err unique_failed
  else on_table put_organizations (insert_row org_ID (stored_org now o) (organizations db)) db.
(** The caller's organization, with the time of the update. *)
Definition touched_org (now : Time) (o : Organization) : Organization :=
  mkOrganization (org_ID o) (org_Name o) (Slug o) (Plan o) (Settings o) (org_CreatedAt o) now.
Definition GetOrganization (id : string) (db : DB) : option Organization := row_by org_ID id (organizations db).
Definition GetOrganizationBySlug (slug : string) (db : DB) : option Organization := row_by Slug slug (organizations db).
Definition UpdateOrganization (now : Time) (o : Organization) (db : DB) : result DB :=
  if existsb (λ row, negb (String.eqb (org_ID row) (org_ID o)) && String.eqb (Slug row) (Slug o)) (organizations db)
     && has_key org_ID (org_ID o) (organizations db)
  then Err unique_failed
  else Ok (put_organizations
    (update org_ID (org_ID o)
       (λ row, mkOrganization (org_ID row) (org_Name o) (Slug o) (Plan o) (Settings o) (org_CreatedAt row)
                 (in_seconds now)) (organizations db)) db).

(** ** Users *)

(** [UNIQUE(org_id, email)]. *)
Definition same_email (org email : string) (row : User) : bool :=
  String.eqb (user_OrgID row) org && String.eqb (Email row) email.
Definition stored_user (now : Time) (u : User) : User :=
  mkUser (user_ID u) (user_OrgID u) (Email u) (PasswordHash u) (user_Name u) (user_Role u) (TeamIDs u) (AvatarURL u)
    (Timezone u) (IsActive u) None (in_seconds now) (in_seconds now).
Definition store_CreateUser (now : Time) (u : User) (db : DB) : result DB :=
  if existsb (same_email (user_OrgID u) (Email u)) (users db) then Err unique_failed
  else referring now (has_key org_ID (user_OrgID u) (organizations db))
      (on_table put_users (insert_row user_ID (stored_user now u) (users db)) db).

Definition GetUser (id : string) (db : DB) : option User := row_by user_ID id (users db).
(** The identifier of the first row, and its user. *)
Definition GetUserByEmail (org email : string) (db : DB) : option User :=
  match find (same_email org email) (users db) with Some row => GetUser (user_ID row) db | None => None end.
Definition GetUserByEmailAnyOrg (email : string) (db : DB) : option User :=
  match row_by Email email (users db) with Some row => GetUser (user_ID row) db | None => None end.

Definition updated_user (now : Time) (u row : User) : User :=
  mkUser (user_ID row) (user_OrgID row) (Email u) (PasswordHash row) (user_Name u) (user_Role u) (TeamIDs u)
    (AvatarURL u) (Timezone u) (IsActive u) (in_seconds <$> LastLoginAt u) (user_CreatedAt row) (in_seconds now).
Definition touched_user (now : Time) (u : User) : User :=
  mkUser (user_ID u) (user_OrgID u) (Email u) (PasswordHash u) (user_Name u) (user_Role u) (TeamIDs u) (AvatarURL u)
    (Timezone u) (IsActive u) (LastLoginAt u) (user_CreatedAt u) now.
(** Another user of the organization of the row has the new address. *)
Definition email_taken (u : User) (rows : list User) : bool :=
  match row_by user_ID (user_ID u) rows with
  | Some row => existsb (λ other, negb (String.eqb (user_ID other) (user_ID u)) &&
                                 same_email (user_OrgID row) (Email u) other) rows
  | None => false
  end.
Definition UpdateUser (now : Time) (u : User) (db : DB) : result DB :=
  if email_taken u (users db) then Err unique_failed
  else Ok (put_users (update user_ID (user_ID u) (updated_user now u) (users db)) db).

Definition with_password (now : Time) (hash : string) (row : User) : User :=
  mkUser (user_ID row) (user_OrgID row) (Email row) hash (user_Name row) (user_Role row) (TeamIDs row) (AvatarURL row)
    (Timezone row) (IsActive row) (LastLoginAt row) (user_CreatedAt row) (in_seconds now).
Definition UpdateUserPassword (now : Time) (id hash : string) (db : DB) : DB :=
  put_users (update user_ID id (with_password now hash) (users db)) db.

Definition DeleteUserSessions (id : string) (db : DB) : DB := put_sessions (without sess_UserID id (sessions db)) db.
Definition store_DeleteUser (id : string) (db : DB) : DB :=
  let db := DeleteUserSessions id db in
  let db := put_api_keys (without key_UserID id (api_keys db)) db in
  put_users (without user_ID id (users db)) db.

(** ** Sessions *)

Definition CreateSession (now : Time) (s : Session) (db : DB) : result DB :=
  referring now (has_key user_ID (sess_UserID s) (users db))
      (on_table put_sessions
    (insert_row sess_ID
       (mkSession (sess_ID s) (sess_UserID s) (sess_OrgID s) (token_hash s) (UserAgent s) (IPAddress s)
          (in_seconds (sess_ExpiresAt s)) (in_seconds now)) (sessions db)) db).
Definition GetSessionByToken (hash : string) (db : DB) : option Session := row_by token_hash hash (sessions db).
Definition DeleteSession (id : string) (db : DB) : DB := put_sessions (without sess_ID id (sessions db)) db.
Definition CleanupExpiredSessions (now : Time) (db : DB) : DB :=
  put_sessions (List.filter (λ s, negb (time_Unix (sess_ExpiresAt s) <? time_Unix now)) (sessions db)) db.

(** ** API keys *)

Definition store_CreateAPIKey (now : Time) (k : APIKey) (db : DB) : result DB :=
  referring now (has_key org_ID (key_OrgID k) (organizations db) && has_key user_ID (key_UserID k) (users db))
      (on_table put_api_keys
    (insert_row key_ID
       (mkAPIKey (key_ID k) (key_OrgID k) (key_UserID k) (key_Name k) (KeyPrefix k) (key_hash k) (Permissions k) None
          (in_seconds <$> key_ExpiresAt k) (key_IsActive k) (in_seconds now)) (api_keys db)) db).
Definition GetAPIKeyByHash (hash : string) (db : DB) : option APIKey := row_by key_hash hash (api_keys db).
Definition used_at (now : Time) (k : APIKey) : APIKey :=
  mkAPIKey (key_ID k) (key_OrgID k) (key_UserID k) (key_Name k) (KeyPrefix k) (key_hash k) (Permissions k)
    (Some (in_seconds now)) (key_ExpiresAt k) (key_IsActive k) (key_CreatedAt k).
Definition UpdateAPIKeyLastUsed (now : Time) (id : string) (db : DB) : DB :=
  put_api_keys (update key_ID id (used_at now) (api_keys db)) db.
Definition DeleteAPIKey (id : string) (db : DB) : DB := put_api_keys (without key_ID id (api_keys db)) db.

(** A time that is at or before 1970 is not set. *)
Definition positive_time (t : option Time) : option Time :=
  match t with Some t => if 0 <? time_Unix t then Some t else None | None => None end.
(** A column without a value does not go into an [int64]: the row is an error. *)
Definition GetAPIKey (id : string) (db : DB) : option APIKey :=
  match row_by key_ID id (api_keys db) with
  | Some k =>
      match key_ExpiresAt k, LastUsedAt k with
      | Some _, Some _ =>
          Some (mkAPIKey (key_ID k) (key_OrgID k) (key_UserID k) (key_Name k) (KeyPrefix k) "" (Permissions k)
                  (positive_time (LastUsedAt k)) (positive_time (key_ExpiresAt k)) (key_IsActive k) (key_CreatedAt k))
      | _, _ => None
      end
  | None => None
  end.

(** ** Teams *)

Definition CreateTeam (now : Time) (t : Team) (db : DB) : result DB :=
  referring now (has_key org_ID (team_OrgID t) (organizations db))
      (on_table put_teams
    (insert_row team_ID
       (mkTeam (team_ID t) (team_OrgID t) (team_Name t) (team_Description t) (MemberIDs t) (in_seconds now)
          (in_seconds now)) (teams db)) db).
Definition created_team (now : Time) (t : Team) : Team :=
  mkTeam (team_ID t) (team_OrgID t) (team_Name t) (team_Description t) (MemberIDs t) now now.
Definition touched_team (now : Time) (t : Team) : Team :=
  mkTeam (team_ID t) (team_OrgID t) (team_Name t) (team_Description t) (MemberIDs t) (team_CreatedAt t) now.
Definition GetTeam (id : string) (db : DB) : option Team := row_by team_ID id (teams db).
Definition UpdateTeam (now : Time) (t : Team) (db : DB) : DB :=
  put_teams
    (update team_ID (team_ID t)
       (λ row, mkTeam (team_ID row) (team_OrgID row) (team_Name t) (team_Description t) (MemberIDs t)
                 (team_CreatedAt row) (in_seconds now)) (teams db)) db.
Definition DeleteTeam (id : string) (db : DB) : DB := put_teams (without team_ID id (teams db)) db.

(** ** Invitations *)

Definition store_CreateInvite (now : Time) (i : Invite) (db : DB) : result DB :=
  referring now (has_key org_ID (inv_OrgID i) (organizations db))
      (on_table put_invites
    (insert_row inv_ID
       (mkInvite (inv_ID i) (inv_OrgID i) (inv_Email i) (inv_Role i) (inv_hash i) (InvitedBy i)
          (in_seconds (inv_ExpiresAt i)) (in_seconds now)) (invites db)) db).
Definition GetInviteByToken (hash : string) (db : DB) : option Invite := row_by inv_hash hash (invites db).
Definition GetInvite (id : string) (db : DB) : option Invite := row_by inv_ID id (invites db).
Definition DeleteInvite (id : string) (db : DB) : DB := put_invites (without inv_ID id (invites db)) db.

(** ** Lists of an organization *)

Definition by_name {A} (name : A → string) (x y : A) : bool := String.leb (name x) (name y).
Definition newest {A} (created : A → Time) (x y : A) : bool := created y <=? created x.
Definition ListUsers (org : string) (db : DB) : list User :=
  order_rows (by_name user_Name) (where_ user_OrgID org (users db)).
Definition ListTeams (org : string) (db : DB) : list Team :=
  order_rows (by_name team_Name) (where_ team_OrgID org (teams db)).
Definition ListAPIKeys (org : string) (db : DB) : list APIKey :=
  order_rows (newest key_CreatedAt) (where_ key_OrgID org (api_keys db)).
Definition ListInvites (org : string) (db : DB) : list Invite :=
  order_rows (newest inv_CreatedAt) (where_ inv_OrgID org (invites db)).
Definition ListPendingInvites (now : Time) (org : string) (db : DB) : list Invite :=
  order_rows (newest inv_CreatedAt)
    (List.filter (λ i, time_Unix now <? time_Unix (inv_ExpiresAt i)) (where_ inv_OrgID org (invites db))).
Definition ListUserSessions (now : Time) (id : string) (db : DB) : list Session :=
  order_rows (newest sess_CreatedAt)
    (List.filter (λ s, time_Unix now <? time_Unix (sess_ExpiresAt s)) (where_ sess_UserID id (sessions db))).

(** Users, teams, keys that are active and sessions that have not expired. *)
Definition GetOrgStats (now : Time) (org : string) (db : DB) : Z * Z * Z * Z :=
  (Z.of_nat (length (where_ user_OrgID org (users db))), Z.of_nat (length (where_ team_OrgID org (teams db))),
   Z.of_nat (length (List.filter key_IsActive (where_ key_OrgID org (api_keys db)))),
   Z.of_nat (length (List.filter (λ s, time_Unix now <? time_Unix (sess_ExpiresAt s))
                       (where_ sess_OrgID org (sessions db))))).
End store.
