(* ===== verification/RbacAuth.v ===== *)
(** Authentication (internal/rbac/auth.go), the middleware that asks it (middleware.go) and the
    limiter of requests beside it.

    A call draws its random text and reads the clock once. *)

From Stdlib Require Import String Ascii.
From stdpp Require Import base option list numbers gmap strings pretty.
From S2P Require Import Prelude Bytes Format Chars Strconv Rbac.
#[local] Open Scope Z_scope.
#[local] Open Scope list_scope.

Definition ErrInvalidCredentials : string := "invalid email or password".
Definition ErrUserNotActive : string := "user account is not active".
Definition ErrSessionExpired : string := "session has expired".
Definition ErrInvalidToken : string := "invalid token".
Definition ErrAPIKeyExpired : string := "API key has expired".
Definition ErrAPIKeyInactive : string := "API key is not active".
Definition ErrInvalidInvite : string := "invalid or expired invitation".

Definition Day : Duration := 24 * Hour.
Definition defaultSessionExpiry : Duration := 7 * Day.

(** [parseDuration]: [Sscanf] with [%d] reads blanks, a sign and digits, and ignores the rest. *)
Fixpoint leading_digits (s : string) : string :=
  match s with
  | String c s => if digit_value c then String c (leading_digits s) else ""
  | EmptyString => ""
  end.
Fixpoint skip_blanks (s : string) : string :=
  match s with
  | String c s' => if Ascii.eqb c " " || Ascii.eqb c "009" || Ascii.eqb c "013" then skip_blanks s' else s
  | EmptyString => ""
  end.
Definition Sscanf_d (s : string) : option Z :=
  let s := skip_blanks s in
  let token :=
    match s with
    | String c s' => if Ascii.eqb c "+" || Ascii.eqb c "-" then String c (leading_digits s') else leading_digits s
    | EmptyString => ""
    end in
  match Atoi token with (n, None) => Some n | _ => None end.
Definition unit_length (u : string) : option Duration :=
  if String.eqb u "s" then Some Second
  else if String.eqb u "m" then Some Minute
  else if String.eqb u "h" then Some Hour
  else if String.eqb u "d" then Some Day
  else if String.eqb u "w" then Some (7 * Day)
  else if String.eqb u "y" then Some (365 * Day)
  else None.
Definition parseDuration (s : string) : result Duration :=
  let n := String.length s in
  if Nat.ltb n 2 then Err "invalid duration"
  else
    match Sscanf_d (String.substring 0 (n - 1) s) with
    | None => Err "expected integer"
    | Some k =>
        match unit_length (String.substring (n - 1) 1 s) with
        | Some d => Ok (wrap64 (k * d))
        | None => Err "unknown duration unit"
        end
    end.

Section auth.
Context {RE : RbacEnv} (sessionExpiry : Duration).

(** ** Sessions *)

Record LoginResponse := mkLogin { lr_Token : string; lr_ExpiresAt : Time; lr_User : User }.

(** What both logins do with the user that they found: the session is made for a user that is
    active and has the password, and the user is written back with the time. *)
Definition with_login (now : Time) (u : User) : User :=
  mkUser (user_ID u) (user_OrgID u) (Email u) (PasswordHash u) (user_Name u) (user_Role u) (TeamIDs u) (AvatarURL u)
    (Timezone u) (IsActive u) (Some now) (user_CreatedAt u) now.
Definition new_session (now : Time) (token agent ip : string) (u : User) : Session :=
  mkSession ("sess_" +:+ pretty now) (user_ID u) (user_OrgID u) (HashToken token) agent ip (now + sessionExpiry) now.
Definition login_write (now : Time) (token : string) (u : User) (db : DB) : result LoginResponse * DB :=
  let u := with_login now u in
  let db := match UpdateUser now u db with Ok db => db | _ => db end in
  (Ok (mkLogin token (now + sessionExpiry) u), db).
Definition login_as (now : Time) (token agent ip password : string) (found : option User) (db : DB) :
    result LoginResponse * DB :=
  match found with
  | None => (Err ErrInvalidCredentials, db)
  | Some u =>
      if negb (bcrypt_matches password (PasswordHash u)) then (Err ErrInvalidCredentials, db)
      else if negb (IsActive u) then (Err ErrUserNotActive, db)
      else match CreateSession now (new_session now token agent ip u) db with
           | Ok db => login_write now token u db
           | Err e => (Err e, db)
           | Panic e => (Panic e, db)
           end
  end.
Definition Login (now : Time) (token org email password agent ip : string) (db : DB) : result LoginResponse * DB :=
  login_as now token agent ip password (GetUserByEmail org email db) db.
Definition LoginAnyOrg (now : Time) (token email password agent ip : string) (db : DB) : result LoginResponse * DB :=
  login_as now token agent ip password (GetUserByEmailAnyOrg email db) db.

Definition ValidateSession (now : Time) (token : string) (db : DB) : result (User * Session) * DB :=
  match GetSessionByToken (HashToken token) db with
  | None => (Err ErrInvalidToken, db)
  | Some s =>
      if After now (sess_ExpiresAt s) then (Err ErrSessionExpired, DeleteSession (sess_ID s) db)
      else match GetUser (sess_UserID s) db with
           | None => (Err ErrInvalidToken, db)
           | Some u => if negb (IsActive u) then (Err ErrUserNotActive, db) else (Ok (u, s), db)
           end
  end.

Definition Logout (token : string) (db : DB) : DB :=
  match GetSessionByToken (HashToken token) db with Some s => DeleteSession (sess_ID s) db | None => db end.
Definition LogoutAll (id : string) (db : DB) : DB := DeleteUserSessions id db.

(** ** API keys *)

Definition key_expired (now : Time) (k : APIKey) : bool :=
  match key_ExpiresAt k with Some t => After now t | None => false end.
Definition ValidateAPIKey (now : Time) (key : string) (db : DB) : result (APIKey * User) * DB :=
  match GetAPIKeyByHash (HashToken key) db with
  | None => (Err ErrInvalidToken, db)
  | Some k =>
      if negb (key_IsActive k) then (Err ErrAPIKeyInactive, db)
      else if key_expired now k then (Err ErrAPIKeyExpired, db)
      else match GetUser (key_UserID k) db with
           | None => (Err ErrInvalidToken, db)
           | Some u => (Ok (k, u), UpdateAPIKeyLastUsed now (key_ID k) db)
           end
  end.

(** A time that is not understood is no time. *)
Definition key_expiry (now : Time) (expiresIn : string) : option Time :=
  if String.eqb expiresIn "" || String.eqb expiresIn "never" then None
  else match parseDuration expiresIn with Ok d => Some (now + d) | _ => None end.
Definition new_key (now : Time) (key org user name : string) (permissions : list Permission) (expiresIn : string) : APIKey :=
  mkAPIKey ("key_" +:+ pretty now) org user name (String.substring 0 11 key) (HashToken key) permissions None
    (key_expiry now expiresIn) true now.
(** [random] is what the 32 random bytes are in base64. *)
Definition CreateAPIKey (now : Time) (random org user name : string) (permissions : list Permission) (expiresIn : string)
    (db : DB) : result (APIKey * string) * DB :=
  let key := "dw_" +:+ random in
  let k := new_key now key org user name permissions expiresIn in
  match store_CreateAPIKey now k db with
  | Ok db => (Ok (k, key), db)
  | Err e => (Err e, db)
  | Panic e => (Panic e, db)
  end.
Definition CheckAPIKeyPermission (k : APIKey) (resource action : string) : bool :=
  existsb (grants resource action) (Permissions k).
Definition CheckPermission (u : User) (resource action : string) : bool := HasPermission (user_Role u) resource action.

(** ** Users *)

Record UserCreate := mkUserCreate { uc_Email : string; uc_Password : string; uc_Name : string; uc_Role : Role }.
Definition new_user (now : Time) (org hash : string) (req : UserCreate) : User :=
  mkUser ("user_" +:+ pretty now) org (to_lower (TrimSpace (uc_Email req))) hash (uc_Name req) (uc_Role req) [] "" ""
    true None now now.
(** [salt] is what bcrypt draws. *)
Definition CreateUser (now : Time) (salt org : string) (req : UserCreate) (db : DB) : result User * DB :=
  match bcrypt_hash salt (uc_Password req) with
  | Ok hash =>
      let u := new_user now org hash req in
      match store_CreateUser now u db with Ok db => (Ok u, db) | Err e => (Err e, db) | Panic e => (Panic e, db) end
  | Err e => (Err e, db)
  | Panic e => (Panic e, db)
  end.
Definition ChangePassword (now : Time) (salt id oldPassword newPassword : string) (db : DB) : result () * DB :=
  match GetUser id db with
  | None => (Err "sql: no rows in result set", db)
  | Some u =>
      if negb (bcrypt_matches oldPassword (PasswordHash u)) then (Err ErrInvalidCredentials, db)
      else match bcrypt_hash salt newPassword with
           | Ok hash => (Ok (), UpdateUserPassword now id hash db)
           | Err e => (Err e, db)
           | Panic e => (Panic e, db)
           end
  end.
Definition ResetPassword (now : Time) (salt id newPassword : string) (db : DB) : result () * DB :=
  match bcrypt_hash salt newPassword with
  | Ok hash => (Ok (), UpdateUserPassword now id hash (DeleteUserSessions id db))
  | Err e => (Err e, db)
  | Panic e => (Panic e, db)
  end.
Definition EnsureDefaultAdmin (now : Time) (salt org email password : string) (db : DB) : result User * DB :=
  match ListUsers org db with
  | u :: _ => (Ok u, db)
  | [] => CreateUser now salt org (mkUserCreate email password "Admin" RoleOwner) db
  end.

(** ** Invitations *)

Definition new_invite (now : Time) (token org email : string) (role : Role) (by_ : string) : Invite :=
  mkInvite ("inv_" +:+ pretty now) org (to_lower (TrimSpace email)) role (HashToken token) by_ (now + 7 * Day) now.
Definition CreateInvite (now : Time) (token org email : string) (role : Role) (by_ : string) (db : DB) :
    result (Invite * string) * DB :=
  let i := new_invite now token org email role by_ in
  match store_CreateInvite now i db with
  | Ok db => (Ok (i, token), db)
  | Err e => (Err e, db)
  | Panic e => (Panic e, db)
  end.
Definition AcceptInvite (now : Time) (salt token password name : string) (db : DB) : result User * DB :=
  match GetInviteByToken (HashToken token) db with
  | None => (Err ErrInvalidInvite, db)
  | Some i =>
      if After now (inv_ExpiresAt i) then (Err ErrInvalidInvite, DeleteInvite (inv_ID i) db)
      else if GetUserByEmail (inv_OrgID i) (inv_Email i) db then (Err "user already exists", DeleteInvite (inv_ID i) db)
      else match CreateUser now salt (inv_OrgID i) (mkUserCreate (inv_Email i) password name (inv_Role i)) db with
           | (Ok u, db) => (Ok u, DeleteInvite (inv_ID i) db)
           | (r, db) => (r, db)
           end
  end.
End auth.

(** ** The middleware *)

(** What a request carries: the headers Authorization and X-API-Key ([""] when they are not
    there), and the cookie of the session. *)
Record Credentials := mkCredentials { Authorization : string; X_API_Key : string; session_cookie : option string }.
Record AuthInfo := mkAuthInfo { ai_user : User; ai_session : option Session; ai_key : option APIKey }.

(** [SplitN(s, " ", 2)], when there are two parts. *)
Definition split_scheme (s : string) : option (string * string) :=
  match String.index 0 " " s with
  | Some i => Some (String.substring 0 i s, String.substring (i + 1) (String.length s - (i + 1)) s)
  | None => None
  end.

Section middleware.
Context {RE : RbacEnv}.

Definition by_session (now : Time) (token : string) (db : DB) : result AuthInfo * DB :=
  match ValidateSession now token db with
  | (Ok (u, s), db) => (Ok (mkAuthInfo u (Some s) None), db)
  | (Err e, db) => (Err e, db)
  | (Panic e, db) => (Panic e, db)
  end.
Definition by_key (now : Time) (key : string) (db : DB) : result AuthInfo * DB :=
  match ValidateAPIKey now key db with
  | (Ok (k, u), db) => (Ok (mkAuthInfo u None (Some k)), db)
  | (Err e, db) => (Err e, db)
  | (Panic e, db) => (Panic e, db)
  end.
Definition validateAuthHeader (now : Time) (header : string) (db : DB) : result AuthInfo * DB :=
  match split_scheme header with
  | None => (Err ErrInvalidToken, db)
  | Some (scheme, token) =>
      let scheme := to_lower scheme in
      if String.eqb scheme "bearer" then by_session now token db
      else if String.eqb scheme "apikey" then by_key now token db
      else if HasPrefix token "dw_" then by_key now token db
      else (Err ErrInvalidToken, db)
  end.
Definition extractAuth (now : Time) (c : Credentials) (db : DB) : result AuthInfo * DB :=
  if negb (String.eqb (Authorization c) "") then validateAuthHeader now (Authorization c) db
  else if negb (String.eqb (X_API_Key c) "") then by_key now (X_API_Key c) db
  else match session_cookie c with
       | Some token => if String.eqb token "" then (Err ErrInvalidToken, db) else by_session now token db
       | None => (Err ErrInvalidToken, db)
       end.

(** A handler is given who asks, if it is known; these are what stands before it: whom it goes on
    to, or the status of the refusal. *)
Definition Authenticate (now : Time) (c : Credentials) (db : DB) : (Z + option AuthInfo) * DB :=
  match extractAuth now c db with (Ok a, db) => (inr (Some a), db) | (_, db) => (inl 401, db) end.
Definition AuthenticateOptional (now : Time) (c : Credentials) (db : DB) : (Z + option AuthInfo) * DB :=
  match extractAuth now c db with (Ok a, db) => (inr (Some a), db) | (_, db) => (inr None, db) end.
Definition RequirePermission (resource action : string) (who : option AuthInfo) : Z + option AuthInfo :=
  match who with
  | None => inl 401
  | Some a =>
      let ok := match ai_key a with
                | Some k => CheckAPIKeyPermission k resource action
                | None => CheckPermission (ai_user a) resource action
                end in
      if ok then inr who else inl 403
  end.
Definition RequireRole (minRole : Role) (who : option AuthInfo) : Z + option AuthInfo :=
  match who with
  | None => inl 401
  | Some a => if hierarchy (user_Role (ai_user a)) <? hierarchy minRole then inl 403 else inr who
  end.
End middleware.

(** ** The limiter *)

Section limiter.
Record RateLimiter := mkLimiter { requests : gmap string (list Z); limit : Z; window : Z; maxEntries : Z }.
Definition NewRateLimiter (limit windowSeconds : Z) : RateLimiter := mkLimiter ∅ limit windowSeconds 10000.
Definition put_requests (m : gmap string (list Z)) (rl : RateLimiter) : RateLimiter :=
  mkLimiter m (limit rl) (window rl) (maxEntries rl).

(** Times are in seconds. *)
Definition recent (cutoff : Z) (l : list Z) : list Z := List.filter (λ t, cutoff <? t) l.
Definition cleanup (now : Z) (rl : RateLimiter) : RateLimiter :=
  let cutoff := now - window rl in
  put_requests (omap (λ l, match recent cutoff l with [] => None | l => Some l end) (requests rl)) rl.
Definition Limit (now : Z) (key : string) (rl : RateLimiter) : bool * RateLimiter :=
  let cutoff := now - window rl in
  let known := requests rl !! key in
  if bool_decide (known = None) && (maxEntries rl <=? Z.of_nat (size (requests rl))) then (false, rl)
  else
    let l := recent cutoff (default [] known) in
    if limit rl <=? Z.of_nat (length l) then (false, rl)
    else (true, put_requests (<[key := l ++ [now]]> (requests rl)) rl).
End limiter.
