(* ===== verification/RbacWeb.v ===== *)
(** The requests that manage access (internal/web/rbac_handlers.go) behind the middleware that
    authenticates them (internal/web/authmiddleware.go). A request names its route with the
    identifier in its path and its body as JSON decodes it ([None] when it does not). *)

From Stdlib Require Import String Ascii.
From stdpp Require Import base option list numbers gmap strings pretty.
From S2P Require Import Prelude Bytes Format Rbac RbacAuth.
#[local] Open Scope Z_scope.
#[local] Open Scope list_scope.

(** ** Which routes are public *)

Definition publicPrefixes : list string :=
  ["/health"; "/ready"; "/healthz"; "/readyz"; "/livez"; "/app/"; "/login"; "/assets/"; "/favicon."]%string.
Definition publicExact : list string :=
  ["/"; "/api/health"; "/api/ready"; "/api/auth/login"; "/api/auth/logout"; "/api/auth/invite/accept"]%string.
Definition ingestPaths : list string :=
  ["/v1/traces"; "/v1/trace"; "/v1/metrics"; "/api/v1/write"; "/api/logs/ingest"]%string.
Definition ssoPrefixes : list string :=
  ["/api/auth/sso/"; "/api/auth/saml/"; "/api/auth/oauth/"; "/api/auth/providers"]%string.

Inductive Gate := GatePass | GateOptional | GateAuthenticate.
Definition gate_of (path : string) : Gate :=
  if existsb (String.eqb path) publicExact then GatePass
  else if existsb (HasPrefix path) publicPrefixes then GatePass
  else if existsb (String.eqb path) ingestPaths then GateOptional
  else if String.eqb path "/api/ws" then GateOptional
  else if existsb (HasPrefix path) ssoPrefixes then GatePass
  else if HasPrefix path "/api/" then GateAuthenticate
  else GatePass.

(** ** Requests and responses *)

Record UserUpdate := mkUserUpdate {
  uu_Email : string; uu_Name : string; uu_Role : Role; uu_TeamIDs : option (list string); uu_IsActive : option bool;
  uu_Timezone : string }.
Record LoginRequest := mkLoginRequest { lq_Email : string; lq_Password : string }.
Record APIKeyCreate := mkAPIKeyCreate { ak_Name : string; ak_Permissions : list Permission; ak_ExpiresIn : string }.
Record InviteRequest := mkInviteRequest { iq_Email : string; iq_Role : Role }.
Record AcceptRequest := mkAccept { aq_Token : string; aq_Password : string; aq_Name : string }.
Record PasswordRequest := mkPasswordRequest { OldPassword : string; NewPassword : string }.
(** The fields of the body that an update of a team or an organization looks at. *)
Record TeamUpdate := mkTeamUpdate { tu_Name : string; tu_Description : string; tu_MemberIDs : option (list string) }.
Record OrgUpdate := mkOrgUpdate { ou_Name : string; ou_Settings : option (gmap string string) }.

Inductive Call :=
| PostLogin (body : option LoginRequest)
| PostLogout
| GetMe
| GetUsers
| PostUsers (body : option UserCreate)
| GetUserByID (id : string)
| PutUser (id : string) (body : option UserUpdate)
| DeleteUser (id : string)
| GetTeams
| PostTeams (body : option Team)
| GetTeamByID (id : string)
| PutTeam (id : string) (body : option TeamUpdate)
| DeleteTeamByID (id : string)
| GetAPIKeys
| PostAPIKeys (body : option APIKeyCreate)
| GetAPIKeyByID (id : string)
| DeleteAPIKeyByID (id : string)
| GetInvites
| PostInvites (body : option InviteRequest)
| DeleteInviteByID (id : string)
| PostAccept (body : option AcceptRequest)
| GetOrg
| PutOrg (body : option OrgUpdate)
| GetSessions
| DeleteSessions
| PostPassword (body : option PasswordRequest).

(** A path as it is registered; identifiers have no slash. *)
Definition call_path (c : Call) : string :=
  match c with
  | PostLogin _ => "/api/auth/login"
  | PostLogout => "/api/auth/logout"
  | GetMe => "/api/auth/me"
  | GetUsers | PostUsers _ => "/api/users"
  | GetUserByID id | PutUser id _ | DeleteUser id => "/api/users/" +:+ id
  | GetTeams | PostTeams _ => "/api/teams"
  | GetTeamByID id | PutTeam id _ | DeleteTeamByID id => "/api/teams/" +:+ id
  | GetAPIKeys | PostAPIKeys _ => "/api/apikeys"
  | GetAPIKeyByID id | DeleteAPIKeyByID id => "/api/apikeys/" +:+ id
  | GetInvites | PostInvites _ => "/api/auth/invites"
  | DeleteInviteByID id => "/api/auth/invites/" +:+ id
  | PostAccept _ => "/api/auth/invite/accept"
  | GetOrg | PutOrg _ => "/api/org"
  | GetSessions | DeleteSessions => "/api/sessions"
  | PostPassword _ => "/api/auth/password"
  end.

(** When it comes, from where, what it carries, and what is drawn for it: a token, 32 random
    bytes or a salt. *)
Record Request := mkRequest {
  rq_now : Time; rq_agent : string; rq_ip : string; rq_creds : Credentials; rq_random : string; rq_call : Call }.

Inductive Body :=
| NoBody
| ErrorBody (error : string)
| StatusBody (status : string)
| LoginBody (r : LoginResponse)
| MeBody (u : User) (o : option Organization)
| UserBody (u : User)
| UsersBody (l : list User)
| TeamBody (t : Team)
| TeamsBody (l : list Team)
| KeyBody (k : APIKey)
| KeysBody (l : list APIKey)
| NewKeyBody (k : APIKey) (key : string)
| InvitesBody (l : list Invite)
| NewInviteBody (i : Invite) (token : string)
| OrgBody (o : Organization)
| SessionsBody (l : list Session).
Record Response := mkResponse { code : Z; body : Body }.
Definition refuse (code : Z) (error : string) : Response := mkResponse code (ErrorBody error).
Definition denied : Response := refuse 403 "permission denied".
Definition bad_body : Response := refuse 400 "invalid request body".

Section handlers.
Context {RE : RbacEnv} (sessionExpiry : Duration).

(** ** Who asks *)

(** The user of a session or a key, if it is good. *)
Definition session_user (now : Time) (token : string) (db : DB) : option User * DB :=
  match ValidateSession now token db with (Ok (u, _), db) => (Some u, db) | (_, db) => (None, db) end.
Definition key_user (now : Time) (key : string) (db : DB) : option User * DB :=
  match ValidateAPIKey now key db with (Ok (_, u), db) => (Some u, db) | (_, db) => (None, db) end.
Definition or_else (r : option User * DB) (next : DB → option User * DB) : option User * DB :=
  match r with (Some u, db) => (Some u, db) | (None, db) => next db end.

Definition cookie_user (now : Time) (c : Credentials) (db : DB) : option User * DB :=
  match session_cookie c with
  | Some token => if String.eqb token "" then (None, db) else session_user now token db
  | None => (None, db)
  end.
Definition header_user (now : Time) (c : Credentials) (db : DB) : option User * DB :=
  match split_scheme (Authorization c) with
  | Some (scheme, token) =>
      let scheme := to_lower scheme in
      if String.eqb scheme "bearer" then session_user now token db
      else if String.eqb scheme "apikey" then key_user now token db
      else (None, db)
  | None => (None, db)
  end.
Definition api_key_user (now : Time) (c : Credentials) (db : DB) : option User * DB :=
  if String.eqb (X_API_Key c) "" then (None, db) else key_user now (X_API_Key c) db.
Definition getUserFromRequest (now : Time) (who : option AuthInfo) (c : Credentials) (db : DB) : option User * DB :=
  match who with
  | Some a => (Some (ai_user a), db)
  | None => or_else (cookie_user now c db) (λ db, or_else (header_user now c db) (api_key_user now c))
  end.

(** ** Sessions of the one who asks *)

Definition handleLogin (r : Request) (body : option LoginRequest) (db : DB) : Response * DB :=
  match body with
  | None => (bad_body, db)
  | Some b =>
      match LoginAnyOrg sessionExpiry (rq_now r) (rq_random r) (lq_Email b) (lq_Password b) (rq_agent r) (rq_ip r) db with
      | (Ok resp, db) => (mkResponse 200 (LoginBody resp), db)
      | (_, db) => (refuse 401 "invalid credentials", db)
      end
  end.
(** The token of the cookie, [""] too, or else of the header. *)
Definition bearer_token (c : Credentials) : string :=
  match session_cookie c with
  | Some token => token
  | None =>
      match split_scheme (Authorization c) with
      | Some (scheme, token) => if String.eqb (to_lower scheme) "bearer" then token else ""
      | None => ""
      end
  end.
Definition handleLogout (r : Request) (db : DB) : Response * DB :=
  let token := bearer_token (rq_creds r) in
  (mkResponse 200 (StatusBody "logged out"), if String.eqb token "" then db else Logout token db).
Definition handleMe (r : Request) (who : option AuthInfo) (db : DB) : Response * DB :=
  let answer u db := (mkResponse 200 (MeBody u (GetOrganization (user_OrgID u) db)), db) in
  match who with
  | Some a => answer (ai_user a) db
  | None =>
      let token := bearer_token (rq_creds r) in
      if String.eqb token "" then (refuse 401 "not authenticated", db)
      else match session_user (rq_now r) token db with
           | (Some u, db) => answer u db
           | (None, db) => (refuse 401 "invalid session", db)
           end
  end.

(** A handler that needs a user. *)
Definition with_user (r : Request) (who : option AuthInfo) (f : User → DB → Response * DB) (db : DB) : Response * DB :=
  match getUserFromRequest (rq_now r) who (rq_creds r) db with
  | (Some u, db) => f u db
  | (None, db) => (refuse 401 "unauthorized", db)
  end.
(** A handler that needs a permission of the role. *)
Definition permitted (u : User) (resource action : string) (k : Response * DB) (db : DB) : Response * DB :=
  if HasPermission (user_Role u) resource action then k else (denied, db).

(** ** Users *)

Definition list_users (u : User) (db : DB) : Response * DB :=
  permitted u ResourceUsers ActionRead (mkResponse 200 (UsersBody (ListUsers (user_OrgID u) db)), db) db.
Definition post_user (r : Request) (body : option UserCreate) (u : User) (db : DB) : Response * DB :=
  permitted u ResourceUsers ActionCreate
    match body with
    | None => (bad_body, db)
    | Some req =>
        if negb (CanManageRole (user_Role u) (uc_Role req)) then (refuse 403 "cannot assign this role", db)
        else match CreateUser (rq_now r) (rq_random r) (user_OrgID u) req db with
             | (Ok new, db) => (mkResponse 201 (UserBody new), db)
             | (_, db) => (refuse 500 "failed to create user", db)
             end
    end db.
(** The user with the identifier, in the organization of the one who asks. *)
Definition own_user (u : User) (id : string) (db : DB) : option User :=
  match GetUser id db with
  | Some t => if String.eqb (user_OrgID t) (user_OrgID u) then Some t else None
  | None => None
  end.
Definition permitted_or_self (u : User) (action id : string) : bool :=
  HasPermission (user_Role u) ResourceUsers action || String.eqb (user_ID u) id.
Definition get_user (id : string) (u : User) (db : DB) : Response * DB :=
  if negb (permitted_or_self u ActionRead id) then (denied, db)
  else match own_user u id db with
       | Some t => (mkResponse 200 (UserBody t), db)
       | None => (refuse 404 "user not found", db)
       end.
Definition role_objection (u target : User) (role : Role) : option string :=
  if String.eqb role "" || String.eqb role (user_Role target) then None
  else if negb (HasPermission (user_Role u) ResourceUsers ActionUpdate) then Some "cannot change role"%string
  else if negb (CanManageRole (user_Role u) role) then Some "cannot assign this role"%string
  else None.
Definition or_old (new old : string) : string := if String.eqb new "" then old else new.
Definition apply_update (req : UserUpdate) (t : User) : User :=
  mkUser (user_ID t) (user_OrgID t) (if String.eqb (uu_Email req) "" then Email t else to_lower (TrimSpace (uu_Email req)))
    (PasswordHash t) (or_old (uu_Name req) (user_Name t)) (or_old (uu_Role req) (user_Role t))
    (default (TeamIDs t) (uu_TeamIDs req)) (AvatarURL t) (or_old (uu_Timezone req) (Timezone t))
    (default (IsActive t) (uu_IsActive req)) (LastLoginAt t) (user_CreatedAt t) (user_UpdatedAt t).
Definition put_user (r : Request) (id : string) (body : option UserUpdate) (u : User) (db : DB) : Response * DB :=
  if negb (permitted_or_self u ActionUpdate id) then (denied, db)
  else match own_user u id db with
       | None => (refuse 404 "user not found", db)
       | Some t =>
           match body with
           | None => (bad_body, db)
           | Some req =>
               match role_objection u t (uu_Role req) with
               | Some e => (refuse 403 e, db)
               | None =>
                   let t := apply_update req t in
                   match UpdateUser (rq_now r) t db with
                   | Ok db => (mkResponse 200 (UserBody (touched_user (rq_now r) t)), db)
                   | _ => (refuse 500 "failed to update user", db)
                   end
               end
           end
       end.
Definition delete_user (id : string) (u : User) (db : DB) : Response * DB :=
  permitted u ResourceUsers ActionDelete
    (if String.eqb id (user_ID u) then (refuse 400 "cannot delete yourself", db)
     else match own_user u id db with
          | None => (refuse 404 "user not found", db)
          | Some t =>
              if negb (CanManageRole (user_Role u) (user_Role t)) then (refuse 403 "cannot delete this user", db)
              else (mkResponse 204 NoBody, store_DeleteUser id (DeleteUserSessions id db))
          end) db.

(** ** Teams *)

Definition list_teams (u : User) (db : DB) : Response * DB :=
  permitted u ResourceTeams ActionRead (mkResponse 200 (TeamsBody (ListTeams (user_OrgID u) db)), db) db.
Definition in_org (org : string) (t : Team) : Team :=
  mkTeam (team_ID t) org (team_Name t) (team_Description t) (MemberIDs t) (team_CreatedAt t) (team_UpdatedAt t).
Definition post_team (r : Request) (body : option Team) (u : User) (db : DB) : Response * DB :=
  permitted u ResourceTeams ActionCreate
    match body with
    | None => (bad_body, db)
    | Some t =>
        let t := in_org (user_OrgID u) t in
        match CreateTeam (rq_now r) t db with
        | Ok db => (mkResponse 201 (TeamBody (created_team (rq_now r) t)), db)
        | _ => (refuse 500 "failed to create team", db)
        end
    end db.
Definition own_team (u : User) (id : string) (db : DB) : option Team :=
  match GetTeam id db with
  | Some t => if String.eqb (team_OrgID t) (user_OrgID u) then Some t else None
  | None => None
  end.
(** A handler about a team that is there. *)
Definition about_team (u : User) (id action : string) (f : Team → Response * DB) (db : DB) : Response * DB :=
  permitted u ResourceTeams action
    match own_team u id db with Some t => f t | None => (refuse 404 "team not found", db) end db.
Definition get_team (id : string) (u : User) (db : DB) : Response * DB :=
  about_team u id ActionRead (λ t, (mkResponse 200 (TeamBody t), db)) db.
Definition update_team (req : TeamUpdate) (t : Team) : Team :=
  mkTeam (team_ID t) (team_OrgID t) (or_old (tu_Name req) (team_Name t))
    (or_old (tu_Description req) (team_Description t)) (default (MemberIDs t) (tu_MemberIDs req)) (team_CreatedAt t)
    (team_UpdatedAt t).
Definition put_team (r : Request) (id : string) (body : option TeamUpdate) (u : User) (db : DB) : Response * DB :=
  about_team u id ActionUpdate
    (λ t, match body with
          | None => (bad_body, db)
          | Some req =>
              let t := update_team req t in
              (mkResponse 200 (TeamBody (touched_team (rq_now r) t)), UpdateTeam (rq_now r) t db)
          end) db.
Definition delete_team (id : string) (u : User) (db : DB) : Response * DB :=
  about_team u id ActionDelete (λ _, (mkResponse 204 NoBody, DeleteTeam id db)) db.

(** ** API keys *)

Definition list_api_keys (u : User) (db : DB) : Response * DB :=
  permitted u ResourceAPIKeys ActionRead (mkResponse 200 (KeysBody (ListAPIKeys (user_OrgID u) db)), db) db.
Definition post_api_key (r : Request) (body : option APIKeyCreate) (u : User) (db : DB) : Response * DB :=
  permitted u ResourceAPIKeys ActionCreate
    match body with
    | None => (bad_body, db)
    | Some req =>
        match CreateAPIKey (rq_now r) (rq_random r) (user_OrgID u) (user_ID u) (ak_Name req) (ak_Permissions req)
                (ak_ExpiresIn req) db with
        | (Ok (k, key), db) => (mkResponse 201 (NewKeyBody k key), db)
        | (_, db) => (refuse 500 "failed to create api key", db)
        end
    end db.
Definition own_key (u : User) (id : string) (db : DB) : option APIKey :=
  match GetAPIKey id db with
  | Some k => if String.eqb (key_OrgID k) (user_OrgID u) then Some k else None
  | None => None
  end.
Definition about_key (u : User) (id action : string) (f : APIKey → Response * DB) (db : DB) : Response * DB :=
  permitted u ResourceAPIKeys action
    match own_key u id db with Some k => f k | None => (refuse 404 "api key not found", db) end db.
Definition get_api_key (id : string) (u : User) (db : DB) : Response * DB :=
  about_key u id ActionRead (λ k, (mkResponse 200 (KeyBody k), db)) db.
Definition delete_api_key (id : string) (u : User) (db : DB) : Response * DB :=
  about_key u id ActionDelete (λ _, (mkResponse 204 NoBody, DeleteAPIKey id db)) db.

(** ** Invitations *)

Definition list_invites (u : User) (db : DB) : Response * DB :=
  permitted u ResourceUsers ActionRead (mkResponse 200 (InvitesBody (ListInvites (user_OrgID u) db)), db) db.
Definition post_invite (r : Request) (body : option InviteRequest) (u : User) (db : DB) : Response * DB :=
  permitted u ResourceUsers ActionCreate
    match body with
    | None => (bad_body, db)
    | Some req =>
        if negb (CanManageRole (user_Role u) (iq_Role req)) then (refuse 403 "cannot invite this role", db)
        else match CreateInvite (rq_now r) (rq_random r) (user_OrgID u) (iq_Email req) (iq_Role req) (user_ID u) db with
             | (Ok (i, token), db) => (mkResponse 201 (NewInviteBody i token), db)
             | (_, db) => (refuse 500 "failed to create invite", db)
             end
    end db.
Definition delete_invite (id : string) (u : User) (db : DB) : Response * DB :=
  permitted u ResourceUsers ActionDelete
    match GetInvite id db with
    | Some i =>
        if String.eqb (inv_OrgID i) (user_OrgID u) then (mkResponse 204 NoBody, DeleteInvite id db)
        else (refuse 404 "invite not found", db)
    | None => (refuse 404 "invite not found", db)
    end db.
Definition handleAcceptInvite (r : Request) (body : option AcceptRequest) (db : DB) : Response * DB :=
  match body with
  | None => (bad_body, db)
  | Some b =>
      match AcceptInvite (rq_now r) (rq_random r) (aq_Token b) (aq_Password b) (aq_Name b) db with
      | (Ok u, db) => (mkResponse 201 (UserBody u), db)
      | (_, db) => (refuse 400 "invalid or expired invite", db)
      end
  end.

(** ** The organization, sessions and the password *)

Definition get_org (u : User) (db : DB) : Response * DB :=
  match GetOrganization (user_OrgID u) db with
  | Some o => (mkResponse 200 (OrgBody o), db)
  | None => (refuse 404 "organization not found", db)
  end.
(** Writing to settings that are not there panics; the server answers nothing then ([500]). *)
Definition update_org (req : OrgUpdate) (o : Organization) : option Organization :=
  let named := mkOrganization (org_ID o) (or_old (ou_Name req) (org_Name o)) (Slug o) (Plan o) in
  match ou_Settings req with
  | None => Some (named (Settings o) (org_CreatedAt o) (org_UpdatedAt o))
  | Some new =>
      match Settings o with
      | Some old => Some (named (Some (new ∪ old)) (org_CreatedAt o) (org_UpdatedAt o))
      | None => if bool_decide (new = ∅) then Some (named None (org_CreatedAt o) (org_UpdatedAt o)) else None
      end
  end.
Definition put_org (r : Request) (body : option OrgUpdate) (u : User) (db : DB) : Response * DB :=
  permitted u ResourceSettings ActionUpdate
    match GetOrganization (user_OrgID u) db with
    | None => (refuse 404 "organization not found", db)
    | Some o =>
        match body with
        | None => (bad_body, db)
        | Some req =>
            match update_org req o with
            | None => (mkResponse 500 NoBody, db)
            | Some o =>
                match UpdateOrganization (rq_now r) o db with
                | Ok db => (mkResponse 200 (OrgBody (touched_org (rq_now r) o)), db)
                | _ => (refuse 500 "failed to update organization", db)
                end
            end
        end
    end db.
Definition get_sessions (r : Request) (u : User) (db : DB) : Response * DB :=
  (mkResponse 200 (SessionsBody (ListUserSessions (rq_now r) (user_ID u) db)), db).
Definition delete_sessions (u : User) (db : DB) : Response * DB :=
  (mkResponse 200 (StatusBody "all sessions logged out"), LogoutAll (user_ID u) db).
Definition change_password (r : Request) (body : option PasswordRequest) (u : User) (db : DB) : Response * DB :=
  match body with
  | None => (bad_body, db)
  | Some b =>
      match ChangePassword (rq_now r) (rq_random r) (user_ID u) (OldPassword b) (NewPassword b) db with
      | (Ok _, db) => (mkResponse 200 (StatusBody "password changed"), db)
      | (_, db) => (refuse 400 "failed to change password", db)
      end
  end.

(** ** Requests *)

(** What the route of a call does for a user; [None] for the routes without one. *)
Definition user_call (r : Request) : option (User → DB → Response * DB) :=
  match rq_call r with
  | PostLogin _ | PostLogout | GetMe | PostAccept _ => None
  | GetUsers => Some list_users
  | PostUsers body => Some (post_user r body)
  | GetUserByID id => Some (get_user id)
  | PutUser id body => Some (put_user r id body)
  | DeleteUser id => Some (delete_user id)
  | GetTeams => Some list_teams
  | PostTeams body => Some (post_team r body)
  | GetTeamByID id => Some (get_team id)
  | PutTeam id body => Some (put_team r id body)
  | DeleteTeamByID id => Some (delete_team id)
  | GetAPIKeys => Some list_api_keys
  | PostAPIKeys body => Some (post_api_key r body)
  | GetAPIKeyByID id => Some (get_api_key id)
  | DeleteAPIKeyByID id => Some (delete_api_key id)
  | GetInvites => Some list_invites
  | PostInvites body => Some (post_invite r body)
  | DeleteInviteByID id => Some (delete_invite id)
  | GetOrg => Some get_org
  | PutOrg body => Some (put_org r body)
  | GetSessions => Some (get_sessions r)
  | DeleteSessions => Some delete_sessions
  | PostPassword body => Some (change_password r body)
  end.
Definition dispatch (r : Request) (who : option AuthInfo) (db : DB) : Response * DB :=
  match user_call r with
  | Some f => with_user r who f db
  | None =>
      match rq_call r with
      | PostLogin body => handleLogin r body db
      | PostLogout => handleLogout r db
      | PostAccept body => handleAcceptInvite r body db
      | _ => handleMe r who db
      end
  end.

(** The middleware, then the route. *)
Definition AuthMiddleware (r : Request) (db : DB) : (Z + option AuthInfo) * DB :=
  match gate_of (call_path (rq_call r)) with
  | GatePass => (inr None, db)
  | GateOptional => AuthenticateOptional (rq_now r) (rq_creds r) db
  | GateAuthenticate => Authenticate (rq_now r) (rq_creds r) db
  end.
Definition serve (r : Request) (db : DB) : Response * DB :=
  match AuthMiddleware r db with
  | (inl status, db) => (refuse status "unauthorized", db)
  | (inr who, db) => dispatch r who db
  end.
Fixpoint serve_all (rs : list Request) (db : DB) : DB :=
  match rs with [] => db | r :: rs => serve_all rs (serve r db).2 end.
End handlers.
