(* ===== verification/RbacFacts.v ===== *)
(** What requests change: every request makes one of a few changes to the tables, each under its
    conditions. Roles are granted from above, organizations are isolated from each other, and
    sessions come from logins, by cases on these changes. *)

From Stdlib Require Import String.
From stdpp Require Import base option list numbers gmap strings pretty.
From S2P Require Import Prelude Rbac RbacAuth RbacWeb.
From Stdlib Require Import Permutation.
From stdpp Require Import list.
#[local] Open Scope list_scope.
#[local] Open Scope Z_scope.

(** ** Tables *)

Section tables.
Context {A : Type} (column : A → string).
Lemma row_by_some v rows (row : A) : row_by column v rows = Some row → row ∈ rows ∧ column row = v.
Proof. intros [H1 H2]%find_some. split; [by apply list_elem_of_In|by apply String.eqb_eq]. Qed.
Lemma row_by_none v rows : row_by column v rows = None → ∀ row, row ∈ rows → column row ≠ v.
Proof.
  intros H row Hin Hc. pose proof (find_none _ _ H row (proj1 (list_elem_of_In _ _) Hin)) as Hf. cbn in Hf.
  by rewrite Hc, String.eqb_refl in Hf.
Qed.
Lemma elem_of_without v rows (row : A) : row ∈ without column v rows ↔ row ∈ rows ∧ column row ≠ v.
Proof. unfold without. by rewrite list_elem_of_In, filter_In, <- list_elem_of_In, negb_true_iff, String.eqb_neq. Qed.
Lemma elem_of_where v rows (row : A) : row ∈ where_ column v rows ↔ row ∈ rows ∧ column row = v.
Proof. unfold where_. by rewrite list_elem_of_In, filter_In, <- list_elem_of_In, String.eqb_eq. Qed.
Lemma elem_of_update v f rows (row : A) : row ∈ update column v f rows →
  (row ∈ rows ∧ column row ≠ v) ∨ ∃ old, old ∈ rows ∧ column old = v ∧ row = f old.
Proof.
  intros (old & E & Hin)%list_elem_of_fmap. destruct (String.eqb_spec (column old) v); [right; eauto|left; by subst].
Qed.
Lemma insert_row_ok row (rows rows' : list A) : insert_row column row rows = Ok rows' →
  rows' = rows ++ [row] ∧ column row ∉ (column <$> rows).
Proof.
  unfold insert_row. destruct (has_key _ _ _) eqn:E; [done|]. intros [= <-]. split; [done|].
  intros (old & Hc & Hin)%list_elem_of_fmap. apply Bool.not_true_iff_false in E. apply E, existsb_exists.
  exists old. split; [by apply list_elem_of_In|by apply String.eqb_eq].
Qed.
End tables.

Section changes.
Context {RE : RbacEnv} (sessionExpiry : Duration).

(** ** Changes *)

(** What finding out who asks may change: a session that has expired goes, a key is marked used. *)
Inductive Asked (now : Time) : option User → DB → DB → Prop :=
| asked_nothing who db : Asked now who db db
| asked_expired db s : s ∈ sessions db → After now (sess_ExpiresAt s) = true → Asked now None db (DeleteSession (sess_ID s) db)
| asked_key db k u : k ∈ api_keys db → GetUser (key_UserID k) db = Some u →
    Asked now (Some u) db (UpdateAPIKeyLastUsed now (key_ID k) db).

(** What a request of a user, or of nobody, changes. *)
Inductive Change (r : Request) : option User → DB → DB → Prop :=
| ch_nothing who db : Change r who db db
| ch_login b u db db1 : rq_call r = PostLogin (Some b) → GetUserByEmailAnyOrg (lq_Email b) db = Some u →
    bcrypt_matches (lq_Password b) (PasswordHash u) = true → IsActive u = true →
    CreateSession (rq_now r) (new_session sessionExpiry (rq_now r) (rq_random r) (rq_agent r) (rq_ip r) u) db = Ok db1 →
    Change r None db (login_write sessionExpiry (rq_now r) (rq_random r) u db1).2
| ch_logout db s : s ∈ sessions db → Change r None db (DeleteSession (sess_ID s) db)
| ch_new_user u req new db db' : CanManageRole (user_Role u) (uc_Role req) = true →
    CreateUser (rq_now r) (rq_random r) (user_OrgID u) req db = (Ok new, db') → Change r (Some u) db db'
| ch_put_user u id t req db db' : own_user u id db = Some t → role_objection u t (uu_Role req) = None →
    UpdateUser (rq_now r) (apply_update req t) db = Ok db' → Change r (Some u) db db'
| ch_delete_user u id t db : own_user u id db = Some t → CanManageRole (user_Role u) (user_Role t) = true →
    Change r (Some u) db (store_DeleteUser id (DeleteUserSessions id db))
| ch_new_team u t db db' : CreateTeam (rq_now r) (in_org (user_OrgID u) t) db = Ok db' → Change r (Some u) db db'
| ch_put_team u id t req db : own_team u id db = Some t →
    Change r (Some u) db (UpdateTeam (rq_now r) (update_team req t) db)
| ch_delete_team u id t db : own_team u id db = Some t → Change r (Some u) db (DeleteTeam id db)
| ch_new_key u req k key db db' : CreateAPIKey (rq_now r) (rq_random r) (user_OrgID u) (user_ID u) (ak_Name req)
      (ak_Permissions req) (ak_ExpiresIn req) db = (Ok (k, key), db') → Change r (Some u) db db'
| ch_delete_key u id k db : own_key u id db = Some k → Change r (Some u) db (DeleteAPIKey id db)
| ch_new_invite u req i token db db' : CanManageRole (user_Role u) (iq_Role req) = true →
    CreateInvite (rq_now r) (rq_random r) (user_OrgID u) (iq_Email req) (iq_Role req) (user_ID u) db = (Ok (i, token), db') →
    Change r (Some u) db db'
| ch_delete_invite u id i db : GetInvite id db = Some i → inv_OrgID i = user_OrgID u → Change r (Some u) db (DeleteInvite id db)
| ch_spent_invite i db : i ∈ invites db → Change r None db (DeleteInvite (inv_ID i) db)
| ch_accept b i new db db' : rq_call r = PostAccept (Some b) → GetInviteByToken (HashToken (aq_Token b)) db = Some i →
    CreateUser (rq_now r) (rq_random r) (inv_OrgID i)
      (mkUserCreate (inv_Email i) (aq_Password b) (aq_Name b) (inv_Role i)) db = (Ok new, db') →
    Change r None db (DeleteInvite (inv_ID i) db')
| ch_put_org u o o' req db db' : GetOrganization (user_OrgID u) db = Some o → update_org req o = Some o' →
    UpdateOrganization (rq_now r) o' db = Ok db' → Change r (Some u) db db'
| ch_logout_all u db : Change r (Some u) db (LogoutAll (user_ID u) db)
| ch_password u hash db : Change r (Some u) db (UpdateUserPassword (rq_now r) (user_ID u) hash db).

(** A failed creation leaves the tables. *)
Lemma CreateUser_err now salt org req db r db' : CreateUser now salt org req db = (r, db') → is_ok r = false → db' = db.
Proof.
  unfold CreateUser. destruct (bcrypt_hash _ _); [destruct (store_CreateUser _ _ _)|..]; intros [= <- <-]; by intros.
Qed.

Lemma session_user_asked now token db : let '(u, db') := session_user now token db in
  Asked now u db db' ∧ (∀ u', u = Some u' → db' = db ∧ GetUser (user_ID u') db = Some u').
Proof.
  unfold session_user, ValidateSession. destruct (GetSessionByToken _ _) as [s|] eqn:Hs; [|split; [constructor|done]].
  apply row_by_some in Hs as [Hin _]. destruct (After now _) eqn:Ha; [split; [by constructor|done]|].
  destruct (GetUser _ db) as [u|] eqn:Hu; [|split; [constructor|done]].
  destruct (IsActive u); cbn [negb]; (split; [constructor|]); [|done]. intros u' [= <-]. split; [done|].
  apply row_by_some in Hu as H2. destruct H2 as [_ E]. by rewrite E.
Qed.
Lemma key_user_asked now key db : let '(u, db') := key_user now key db in
  Asked now u db db' ∧ (∀ u', u = Some u' → GetUser (user_ID u') db = Some u' ∧ users db' = users db).
Proof.
  unfold key_user, ValidateAPIKey. destruct (GetAPIKeyByHash _ _) as [k|] eqn:Hk; [|split; [constructor|done]].
  apply row_by_some in Hk as [Hin _]. destruct (key_IsActive k); cbn [negb]; [|split; [constructor|done]].
  destruct (key_expired _ _); [split; [constructor|done]|].
  destruct (GetUser _ db) as [u|] eqn:Hu; [|split; [constructor|done]]. split; [by eapply asked_key|].
  intros u' [= <-]. split; [|done]. apply row_by_some in Hu as H2. destruct H2 as [_ E]. by rewrite E.
Qed.

(** Who asks is a user that is there, before and after it is found out. *)
Definition present (u : User) (db : DB) : Prop := GetUser (user_ID u) db = Some u.
Lemma by_session_asked now token db : match by_session now token db with
  | (Ok a, db') => Asked now (Some (ai_user a)) db db' ∧ present (ai_user a) db ∧ present (ai_user a) db'
  | (_, db') => Asked now None db db'
  end.
Proof.
  pose proof (session_user_asked now token db) as H. unfold session_user, by_session in *.
  destruct (ValidateSession now token db) as [[[u s]|e|e] db']; [|by apply H..].
  destruct H as [H1 H2]. destruct (H2 u eq_refl) as [-> H3]. done.
Qed.
Lemma by_key_asked now key db : match by_key now key db with
  | (Ok a, db') => Asked now (Some (ai_user a)) db db' ∧ present (ai_user a) db ∧ present (ai_user a) db'
  | (_, db') => Asked now None db db'
  end.
Proof.
  pose proof (key_user_asked now key db) as H. unfold key_user, by_key in *.
  destruct (ValidateAPIKey now key db) as [[[k u]|e|e] db']; [|by apply H..].
  destruct H as [H1 H2]. destruct (H2 u eq_refl) as [H3 H4]. split_and!; [done|done|].
  unfold present, GetUser in *. cbn. by rewrite H4.
Qed.
Lemma authenticate_asked now c db : match Authenticate now c db with
  | (inr (Some a), db') => Asked now (Some (ai_user a)) db db' ∧ present (ai_user a) db ∧ present (ai_user a) db'
  | (inr None, _) => False
  | (inl _, db') => Asked now None db db'
  end.
Proof.
  assert (H : match extractAuth now c db with
    | (Ok a, db') => Asked now (Some (ai_user a)) db db' ∧ present (ai_user a) db ∧ present (ai_user a) db'
    | (_, db') => Asked now None db db' end).
  { unfold extractAuth, validateAuthHeader. destruct (negb _).
    - destruct (split_scheme _) as [[scheme token]|]; [|constructor].
      destruct (String.eqb _ _); [apply by_session_asked|]. destruct (String.eqb _ _); [apply by_key_asked|].
      destruct (Bytes.HasPrefix _ _); [apply by_key_asked|constructor].
    - destruct (negb _); [apply by_key_asked|]. destruct (session_cookie c) as [token|]; [|constructor].
      destruct (String.eqb _ _); [constructor|apply by_session_asked]. }
  unfold Authenticate. by destruct (extractAuth now c db) as [[a|e|e] db'].
Qed.

(** ** Requests make changes *)

Lemma handler_changes r f u db : user_call r = Some f → Change r (Some u) db (f u db).2.
Proof.
  unfold user_call. destruct (rq_call r); intros [= <-]; try apply ch_nothing.
  - unfold list_users, permitted. destruct (HasPermission _ _ _); apply ch_nothing.
  - unfold post_user, permitted. destruct (HasPermission _ _ _); [|apply ch_nothing]. destruct body as [req|]; [|apply ch_nothing].
    destruct (CanManageRole _ _) eqn:Hm; [|apply ch_nothing]. cbn [negb].
    destruct (CreateUser _ _ _ _ _) as [[new|e|e] db'] eqn:E; [by eapply ch_new_user|..].
    all: by apply CreateUser_err in E as ->; [apply ch_nothing|].
  - unfold get_user. destruct (negb _); [apply ch_nothing|]. destruct (own_user _ _ _); apply ch_nothing.
  - unfold put_user. destruct (negb _); [apply ch_nothing|]. destruct (own_user _ _ _) as [t|] eqn:Ht; [|apply ch_nothing].
    destruct body as [req|]; [|apply ch_nothing]. destruct (role_objection _ _ _) eqn:Ho; [apply ch_nothing|].
    destruct (UpdateUser _ _ _) eqn:E; [by eapply ch_put_user|apply ch_nothing..].
  - unfold delete_user, permitted. destruct (HasPermission _ _ _); [|apply ch_nothing].
    destruct (String.eqb _ _); [apply ch_nothing|]. destruct (own_user _ _ _) as [t|] eqn:Ht; [|apply ch_nothing].
    destruct (CanManageRole _ _) eqn:Hm; [|apply ch_nothing]. by eapply ch_delete_user.
  - unfold list_teams, permitted. destruct (HasPermission _ _ _); apply ch_nothing.
  - unfold post_team, permitted. destruct (HasPermission _ _ _); [|apply ch_nothing]. destruct body as [t|]; [|apply ch_nothing].
    destruct (CreateTeam _ _ _) eqn:E; [by eapply ch_new_team|apply ch_nothing..].
  - unfold get_team, about_team, permitted. destruct (HasPermission _ _ _); [|apply ch_nothing]. destruct (own_team _ _ _); apply ch_nothing.
  - unfold put_team, about_team, permitted. destruct (HasPermission _ _ _); [|apply ch_nothing].
    destruct (own_team _ _ _) eqn:Ht; [|apply ch_nothing]. destruct body; [by eapply ch_put_team|apply ch_nothing].
  - unfold delete_team, about_team, permitted. destruct (HasPermission _ _ _); [|apply ch_nothing].
    destruct (own_team _ _ _) eqn:Ht; [by eapply ch_delete_team|apply ch_nothing].
  - unfold list_api_keys, permitted. destruct (HasPermission _ _ _); apply ch_nothing.
  - unfold post_api_key, permitted. destruct (HasPermission _ _ _); [|apply ch_nothing]. destruct body as [req|]; [|apply ch_nothing].
    destruct (CreateAPIKey _ _ _ _ _ _ _ _) as [[[k key]|e|e] db'] eqn:E; [by eapply ch_new_key|..].
    all: revert E; unfold CreateAPIKey; destruct (store_CreateAPIKey _ _ _); intros [= -> ->]; apply ch_nothing.
  - unfold get_api_key, about_key, permitted. destruct (HasPermission _ _ _); [|apply ch_nothing]. destruct (own_key _ _ _); apply ch_nothing.
  - unfold delete_api_key, about_key, permitted. destruct (HasPermission _ _ _); [|apply ch_nothing].
    destruct (own_key _ _ _) eqn:Hk; [by eapply ch_delete_key|apply ch_nothing].
  - unfold list_invites, permitted. destruct (HasPermission _ _ _); apply ch_nothing.
  - unfold post_invite, permitted. destruct (HasPermission _ _ _); [|apply ch_nothing]. destruct body as [req|]; [|apply ch_nothing].
    destruct (CanManageRole _ _) eqn:Hm; [|apply ch_nothing]. cbn [negb].
    destruct (CreateInvite _ _ _ _ _ _ _) as [[[i token]|e|e] db'] eqn:E; [by eapply ch_new_invite|..].
    all: revert E; unfold CreateInvite; destruct (store_CreateInvite _ _ _); intros [= -> ->]; apply ch_nothing.
  - unfold delete_invite, permitted. destruct (HasPermission _ _ _); [|apply ch_nothing].
    destruct (GetInvite _ _) as [i|] eqn:Hi; [|apply ch_nothing]. destruct (String.eqb_spec (inv_OrgID i) (user_OrgID u)); [|apply ch_nothing].
    by eapply ch_delete_invite.
  - unfold get_org. destruct (GetOrganization _ _); apply ch_nothing.
  - unfold put_org, permitted. destruct (HasPermission _ _ _); [|apply ch_nothing].
    destruct (GetOrganization _ _) as [o|] eqn:Ho; [|apply ch_nothing]. destruct body as [req|]; [|apply ch_nothing].
    destruct (update_org _ _) as [o'|] eqn:Hu; [|apply ch_nothing].
    destruct (UpdateOrganization _ _ _) eqn:E; [by eapply ch_put_org|apply ch_nothing..].
  - apply ch_logout_all.
  - unfold change_password. destruct body as [b|]; [|apply ch_nothing]. unfold ChangePassword.
    destruct (GetUser _ _); [|apply ch_nothing]. destruct (negb _); [apply ch_nothing|].
    destruct (bcrypt_hash _ _); [apply ch_password|apply ch_nothing..].
Qed.

Lemma gate_authenticates c : (∀ b, c ≠ PostLogin b) → c ≠ PostLogout → (∀ b, c ≠ PostAccept b) →
  gate_of (call_path c) = GateAuthenticate.
Proof. intros H1 H2 H3. destruct c; try reflexivity; exfalso; first [by apply H2|by eapply H1|by eapply H3]. Qed.

Lemma login_changes r b db : rq_call r = PostLogin b → Change r None db (handleLogin sessionExpiry r b db).2.
Proof.
  intros Hc. unfold handleLogin, LoginAnyOrg, login_as. destruct b as [b|]; [|apply ch_nothing].
  destruct (GetUserByEmailAnyOrg _ _) as [u|] eqn:Hu; [|apply ch_nothing].
  destruct (bcrypt_matches _ _) eqn:Hm; [|apply ch_nothing]. destruct (IsActive u) eqn:Ha; [|apply ch_nothing]. cbn [negb].
  destruct (CreateSession _ _ _) as [db1|e|e] eqn:E; [|apply ch_nothing..].
  by apply (ch_login r b u db db1).
Qed.
Lemma logout_changes r db : Change r None db (handleLogout r db).2.
Proof.
  unfold handleLogout, Logout. cbn [snd]. destruct (String.eqb _ _); [apply ch_nothing|].
  destruct (GetSessionByToken _ _) as [s|] eqn:Hs; [|apply ch_nothing]. apply row_by_some in Hs as [Hs _]. by apply ch_logout.
Qed.
Lemma accept_changes r b db : rq_call r = PostAccept b → Change r None db (handleAcceptInvite r b db).2.
Proof.
  intros Hc. unfold handleAcceptInvite, AcceptInvite. destruct b as [b|]; [|apply ch_nothing].
  destruct (GetInviteByToken _ _) as [i|] eqn:Hi; [|apply ch_nothing]. pose proof Hi as [Hin _]%row_by_some.
  destruct (After _ _); [by apply ch_spent_invite|]. destruct (GetUserByEmail _ _ _); [by apply ch_spent_invite|].
  destruct (CreateUser _ _ _ _ _) as [[new|e|e] db'] eqn:E; [by eapply ch_accept|..].
  all: by apply CreateUser_err in E as ->; [apply ch_nothing|].
Qed.

(** A request finds out who asks, and then makes a change of that user, or of nobody. *)
Lemma serve_changes r db : ∃ who db1, Asked (rq_now r) who db db1 ∧ Change r who db1 (serve sessionExpiry r db).2 ∧
  ∀ u, who = Some u → present u db ∧ present u db1.
Proof.
  unfold serve, AuthMiddleware. destruct (rq_call r) eqn:Hc.
  1: { exists None, db. split_and!; [constructor| |done]. cbn. unfold dispatch, user_call. rewrite Hc. by apply login_changes. }
  1: { exists None, db. split_and!; [constructor| |done]. cbn. unfold dispatch, user_call. rewrite Hc. apply logout_changes. }
  19: { exists None, db. split_and!; [constructor| |done]. cbn. unfold dispatch, user_call. rewrite Hc. by apply accept_changes. }
  all: rewrite gate_authenticates by done; pose proof (authenticate_asked (rq_now r) (rq_creds r) db) as Ha.
  all: destruct (Authenticate _ _ db) as [[code|[a|]] db1]; [|destruct Ha as [H1 [H2 H3]]|done].
  all: try (exists None, db1; split_and!; [exact Ha|apply ch_nothing|done]).
  all: exists (Some (ai_user a)), db1; split_and!; [exact H1| |by intros u [= <-]].
  all: unfold dispatch, with_user; destruct (user_call r) as [f|] eqn:Hf; [cbn; by apply handler_changes|].
  all: revert Hf; unfold user_call; rewrite Hc; try done. intros _. apply ch_nothing.
Qed.
End changes.
