(* ===== verification/RbacSpec.v ===== *)
(** What access control promises: nobody is lifted to the highest level there is, organizations
    neither see nor change each other, sessions come from logins, and the limiter limits. *)

From Stdlib Require Import String.
From stdpp Require Import base option list numbers gmap strings pretty.
From S2P Require Import Prelude Rbac RbacAuth RbacWeb RbacFacts.
From Stdlib Require Import Permutation.
From stdpp Require Import list.
#[local] Open Scope list_scope.
#[local] Open Scope Z_scope.

(** ** Roles are granted from above *)

Definition level (u : User) : Z := hierarchy (user_Role u).

Section levels.
Context {RE : RbacEnv} (sessionExpiry : Duration) (top : Z) (db0 : DB).

(** Below the top, or there at the start. *)
Definition known_level (u : User) : Prop :=
  level u < top ∨ level u = top ∧ ∃ u0, u0 ∈ users db0 ∧ user_ID u0 = user_ID u ∧ level u0 = top.
Record levels_ok (db : DB) : Prop := {
  lv_users : Forall known_level (users db);
  lv_invites : Forall (λ i, hierarchy (inv_Role i) < top) (invites db);
}.

Lemma known_same u u' : user_ID u' = user_ID u → user_Role u' = user_Role u → known_level u → known_level u'.
Proof. unfold known_level, level. by intros -> ->. Qed.
Lemma known_le u : known_level u → level u ≤ top.
Proof. intros [H|[H _]]; lia. Qed.
Lemma known_present u db : levels_ok db → present u db → known_level u.
Proof. intros [H _] [Hin _]%row_by_some. by eapply Forall_forall in H. Qed.
Lemma managed_below u db role : levels_ok db → present u db → CanManageRole (user_Role u) role = true → hierarchy role < top.
Proof. intros H Hu Hm%Z.ltb_lt. pose proof (known_le u (known_present u db H Hu)). unfold level in *. lia. Qed.

Lemma levels_with_users l db : levels_ok db → Forall known_level l → levels_ok (put_users l db).
Proof. by intros []. Qed.
Lemma levels_update_users v f db : levels_ok db → (∀ u, u ∈ users db → user_ID u = v → known_level (f u)) →
  levels_ok (put_users (update user_ID v f (users db)) db).
Proof.
  intros H Hf. apply levels_with_users; [done|]. apply Forall_forall. intros u [[Hin _]|(old & Hin & E & ->)]%elem_of_update.
  - destruct H as [H _]. by eapply Forall_forall in H.
  - by apply Hf.
Qed.
Lemma levels_UpdateUser now u db db' : UpdateUser now u db = Ok db' → known_level u → levels_ok db → levels_ok db'.
Proof.
  unfold UpdateUser. destruct (email_taken _ _); [done|]. intros [= <-] Hu H. apply levels_update_users; [done|].
  intros row _ E. by apply (known_same u).
Qed.
Lemma levels_CreateUser now salt org req db new db' : CreateUser now salt org req db = (Ok new, db') →
  hierarchy (uc_Role req) < top → levels_ok db → levels_ok db'.
Proof.
  unfold CreateUser, store_CreateUser, on_table, referring. destruct (bcrypt_hash _ _); [|done..]. destruct (existsb _ _); [done|].
  destruct (insert_row _ _ _) as [rows|e|e] eqn:E; [|done..]. destruct (foreign_keys _ && _); [done|]. intros [= _ <-] Hr H. apply insert_row_ok in E as [-> _].
  apply levels_with_users; [done|]. apply Forall_app. split; [apply H|]. constructor; [|constructor]. by left.
Qed.
(** Fewer users and invitations. *)
Lemma levels_fewer db db' : (∀ u, u ∈ users db' → u ∈ users db) → (∀ i, i ∈ invites db' → i ∈ invites db) →
  levels_ok db → levels_ok db'.
Proof.
  intros Hu Hi [H1 H2]. split; apply Forall_forall; intros x Hx; [by eapply Forall_forall, Hu|].
  apply (proj1 (Forall_forall _ _) H2). by apply Hi.
Qed.

Lemma asked_levels now who db db' : Asked now who db db' → levels_ok db → levels_ok db'.
Proof. by intros [] []. Qed.
Lemma change_levels r who db db' : Change sessionExpiry r who db db' → (∀ u, who = Some u → present u db) →
  levels_ok db → levels_ok db'.
Proof.
  intros Hc Hp H. destruct Hc as [|b u db db1 Hc Hu Hm Ha Hs| |u req new db db' Hm Hn|u id t req db db' Ht Ho Hu|u id t db Ht Hm
    |u t db db' Ht| | |u req k key db db' Hk| |u req i token db db' Hm Hi| |i db Hi|b i new db db' Hc Hi Hn|u o o' req db db' Ho Hu Hs| |];
    try specialize (Hp _ eq_refl); try done; try by destruct H.
  - assert (H1 : levels_ok db1).
    { revert Hs. unfold CreateSession, on_table, referring. destruct (insert_row _ _ _); [|done..]. destruct (foreign_keys _ && _); [done|]. intros [= <-]. by destruct H. }
    assert (Hk : known_level u).
    { unfold GetUserByEmailAnyOrg in Hu. destruct (row_by Email _ _); [|done]. apply row_by_some in Hu as [Hin _].
      destruct H as [H _]. by eapply Forall_forall in H. }
    unfold login_write. cbn [snd]. destruct (UpdateUser _ _ _) eqn:E; [|done..]. by eapply levels_UpdateUser.
  - eapply levels_CreateUser; [done| |done]. by eapply managed_below.
  - eapply levels_UpdateUser; [done| |done]. unfold own_user, GetUser in Ht.
    destruct (row_by _ _ _) as [t'|] eqn:E; [|done]. apply row_by_some in E as [Hin _]. destruct (String.eqb _ _); [|done].
    injection Ht as ->. assert (Hk : known_level t) by (destruct H as [H _]; by eapply Forall_forall in H).
    revert Ho. unfold role_objection. destruct (String.eqb_spec (uu_Role req) "") as [E|Hne].
    { intros _. apply (known_same t); [done| |done]. cbn. unfold or_old. by rewrite E. }
    destruct (String.eqb_spec (uu_Role req) (user_Role t)) as [E|Hne'].
    { intros _. apply (known_same t); [done| |done]. cbn. unfold or_old. rewrite E. by destruct (String.eqb_spec (user_Role t) ""). }
    cbn [orb]. destruct (negb _); [done|]. destruct (CanManageRole _ _) eqn:Hm; [|done]. intros _. left. unfold level. cbn.
    unfold or_old. destruct (String.eqb_spec (uu_Role req) ""); [done|]. by eapply managed_below.
  - eapply levels_fewer; [| |exact H]; [|done]. intros u'. cbn. by intros [? _]%elem_of_without.
  - revert Ht. unfold CreateTeam, on_table, referring. destruct (insert_row _ _ _); [|done..]. destruct (foreign_keys _ && _); [done|]. intros [= <-]. by destruct H.
  - revert Hk. unfold CreateAPIKey, store_CreateAPIKey, on_table, referring. destruct (insert_row _ _ _); [|done..]. destruct (foreign_keys _ && _); [done|]. intros [= _ _ <-]. by destruct H.
  - revert Hi. unfold CreateInvite, store_CreateInvite, on_table, referring. destruct (insert_row _ _ _) eqn:E; [|done..]. destruct (foreign_keys _ && _); [done|]. intros [= _ _ <-].
    apply insert_row_ok in E as [-> _]. destruct H as [H1 H2]. split; [done|]. cbn. apply Forall_app. split; [done|].
    constructor; [|constructor]. cbn. eapply managed_below; [split; [exact H1|exact H2]|exact Hp|exact Hm].
  - eapply levels_fewer; [| |exact H]; [done|]. intros i'. cbn. by intros [? _]%elem_of_without.
  - eapply levels_fewer; [| |exact H]; [done|]. intros i'. cbn. by intros [? _]%elem_of_without.
  - assert (H1 : levels_ok db').
    { eapply levels_CreateUser; [done| |done]. cbn. apply row_by_some in Hi as [Hin _]. destruct H as [_ H].
      by eapply Forall_forall in H. }
    eapply levels_fewer; [| |exact H1]; [done|]. intros i'. cbn. by intros [? _]%elem_of_without.
  - revert Hs. unfold UpdateOrganization. destruct (_ && _); [done|]. intros [= <-]. by destruct H.
  - apply levels_update_users; [done|]. intros u' Hin _. apply (known_same u'); [done..|].
    destruct H as [H _]. by eapply Forall_forall in H.
Qed.
Lemma serve_levels r db : levels_ok db → levels_ok (serve sessionExpiry r db).2.
Proof.
  intros H. destruct (serve_changes sessionExpiry r db) as (who & db1 & Ha & Hc & Hp).
  eapply change_levels; [exact Hc|by intros u Hu; apply (Hp u Hu)|]. by eapply asked_levels.
Qed.
Lemma serve_all_levels rs : ∀ db, levels_ok db → levels_ok (serve_all sessionExpiry rs db).
Proof. induction rs as [|r rs IH]; intros db H; [done|]. cbn. by apply IH, serve_levels. Qed.
End levels.

(** C38: Roles are granted from above only. Take a level (four is that of owners, three of
    administrators) that no user is above, and that every pending invitation is below. Whatever
    requests are served, with whatever credentials, in whatever order, every user that ends at that
    level had it at the start, none ends above it, and every pending invitation is below it. So while
    no invitation to be an owner is pending nobody is made an owner; and where there is no owner, and
    no invitation to be an owner or an administrator pending, nobody is made an administrator. (An
    invitation above the level is honoured even when nobody is left who could make it:
    invitation_outlives_its_level.) These are the requests of the access-control routes. *)
Theorem roles_are_granted_from_above {RE : RbacEnv} sessionExpiry rs top db :
  (∀ u, u ∈ users db → level u ≤ top) → (∀ i, i ∈ invites db → hierarchy (inv_Role i) < top) →
  let db' := serve_all sessionExpiry rs db in
  (∀ u, u ∈ users db' → level u ≤ top ∧ (level u = top → ∃ u0, u0 ∈ users db ∧ user_ID u0 = user_ID u ∧ level u0 = top)) ∧
  ∀ i, i ∈ invites db' → hierarchy (inv_Role i) < top.
Proof.
  intros Hu Hi. cbv zeta. assert (H : levels_ok top db (serve_all sessionExpiry rs db)).
  { apply serve_all_levels. split; apply Forall_forall; [|done]. intros u Hin. destruct (decide (level u = top)) as [E|E].
    - right. split; [done|]. by exists u.
    - left. specialize (Hu u Hin). lia. }
  destruct H as [H1 H2]. split; [|by apply Forall_forall]. intros u Hin. pose proof (proj1 (Forall_forall _ _) H1 u Hin) as Hk.
  split; [by apply (known_le top db)|]. intros E. destruct Hk as [?|[_ ?]]; [lia|done].
Qed.
