(* ===== verification/RbacTenants.v ===== *)
(** Organizations are isolated: what an authenticated request changes and answers stays in the
    organization of the user who asks. The rows that name a user are of the organization of that
    user, which every request preserves. *)

From Stdlib Require Import String.
From stdpp Require Import base option list numbers gmap strings pretty.
From S2P Require Import Prelude Rbac RbacAuth RbacWeb RbacFacts.
From Stdlib Require Import Permutation.
From stdpp Require Import list.
#[local] Open Scope list_scope.
#[local] Open Scope Z_scope.

(** ** Tables, with keys and organizations *)

Section tables.
Context {A : Type} (key org : A → string) (o : string).
Lemma unique_row rows (x y : A) : NoDup (key <$> rows) → x ∈ rows → y ∈ rows → key x = key y → x = y.
Proof.
  induction rows as [|z rows IH]; [intros _ []%elem_of_nil|]. rewrite fmap_cons. intros [Hz Hn]%NoDup_cons Hx Hy E.
  apply elem_of_cons in Hx as [->|Hx], Hy as [->|Hy]; [done| | |by apply IH].
  - destruct Hz. rewrite E. by apply list_elem_of_fmap_2.
  - destruct Hz. rewrite <- E. by apply list_elem_of_fmap_2.
Qed.
Lemma update_keys v f rows : (∀ x, key (f x) = key x) → key <$> update key v f rows = key <$> rows.
Proof. intros Hf. unfold update. rewrite <- list_fmap_compose. apply list_fmap_ext. intros i x _. cbn. by destruct (String.eqb _ _). Qed.
Lemma without_sub {B} (column : A → B) (p : A → bool) rows : NoDup (column <$> rows) → NoDup (column <$> List.filter p rows).
Proof.
  induction rows as [|x rows IH]; [done|]. rewrite fmap_cons. intros [Hx Hn]%NoDup_cons. cbn. destruct (p x); [|by apply IH].
  rewrite fmap_cons. apply NoDup_cons. split; [|by apply IH]. intros (y & E & Hy)%list_elem_of_fmap. destruct Hx.
  rewrite E. apply list_elem_of_fmap_2. apply list_elem_of_In, filter_In in Hy as [Hy _]. by apply list_elem_of_In.
Qed.
Lemma insert_row_keys row rows rows' : insert_row key row rows = Ok rows' → NoDup (key <$> rows) → NoDup (key <$> rows').
Proof.
  intros [-> Hn]%insert_row_ok H. rewrite fmap_app. apply NoDup_app. split_and!; [done| |by apply NoDup_singleton].
  intros x Hx ->%list_elem_of_singleton. done.
Qed.

(** What a statement does to the rows of the others. *)
Lemma without_cons column v (x : A) rows :
  without column v (x :: rows) = if String.eqb (column x) v then without column v rows else x :: without column v rows.
Proof. unfold without. cbn. by destruct (String.eqb _ _). Qed.
Lemma elsewhere_update v f rows : (∀ x, x ∈ rows → key x = v → org x = o ∧ org (f x) = o) →
  without org o (update key v f rows) = without org o rows.
Proof.
  induction rows as [|x rows IH]; intros H; [done|]. unfold update. rewrite fmap_cons, !without_cons.
  fold (update key v f rows). rewrite IH by (intros y Hy; apply H; by right).
  destruct (String.eqb_spec (key x) v) as [E|E]; [|done]. destruct (H x (list_elem_of_here _ _) E) as [-> ->].
  by rewrite !String.eqb_refl.
Qed.
Lemma elsewhere_without (column : A → string) v rows : (∀ x, x ∈ rows → column x = v → org x = o) →
  without org o (without column v rows) = without org o rows.
Proof.
  induction rows as [|x rows IH]; intros H; [done|]. rewrite !without_cons, <- IH by (intros y Hy; apply H; by right).
  destruct (String.eqb_spec (column x) v) as [E|E]; [|by rewrite without_cons]. by rewrite (H x (list_elem_of_here _ _) E), String.eqb_refl.
Qed.
Lemma elsewhere_insert row rows rows' : insert_row key row rows = Ok rows' → org row = o →
  without org o rows' = without org o rows.
Proof. intros [-> _]%insert_row_ok E. unfold without. rewrite List.filter_app. cbn. by rewrite E, String.eqb_refl, app_nil_r. Qed.
Lemma where_org rows : Forall (λ x, org x = o) (where_ org o rows).
Proof. apply Forall_forall. by intros x [_ ?]%elem_of_where. Qed.
End tables.

(** ** The others *)

(** The rows that are not of an organization. *)
Definition elsewhere (o : string) (db : DB) : DB :=
  mkDB (without org_ID o (organizations db)) (without user_OrgID o (users db)) (without team_OrgID o (teams db))
    (without sess_OrgID o (sessions db)) (without key_OrgID o (api_keys db)) (without inv_OrgID o (invites db)).
(** An answer is about an organization. *)
Definition body_within (o : string) (b : Body) : Prop :=
  match b with
  | NoBody | ErrorBody _ | StatusBody _ => True
  | LoginBody r => user_OrgID (lr_User r) = o
  | MeBody u org => user_OrgID u = o ∧ ∀ x, org = Some x → org_ID x = o
  | UserBody u => user_OrgID u = o
  | UsersBody l => Forall (λ u, user_OrgID u = o) l
  | TeamBody t => team_OrgID t = o
  | TeamsBody l => Forall (λ t, team_OrgID t = o) l
  | KeyBody k | NewKeyBody k _ => key_OrgID k = o
  | KeysBody l => Forall (λ k, key_OrgID k = o) l
  | InvitesBody l => Forall (λ i, inv_OrgID i = o) l
  | NewInviteBody i _ => inv_OrgID i = o
  | OrgBody x => org_ID x = o
  | SessionsBody l => Forall (λ s, sess_OrgID s = o) l
  end.

(** Keys are unique, and sessions and keys are of users that are there. *)
Definition has_user (l : list User) (id org : string) : Prop := ∃ u, u ∈ l ∧ user_ID u = id ∧ user_OrgID u = org.
Record db_ok (db : DB) : Prop := {
  ok_organizations : NoDup (org_ID <$> organizations db);
  ok_users : NoDup (user_ID <$> users db);
  ok_teams : NoDup (team_ID <$> teams db);
  ok_api_keys : NoDup (key_ID <$> api_keys db);
  ok_invites : NoDup (inv_ID <$> invites db);
  ok_session_users : Forall (λ s, has_user (users db) (sess_UserID s) (sess_OrgID s)) (sessions db);
  ok_key_users : Forall (λ k, has_user (users db) (key_UserID k) (key_OrgID k)) (api_keys db);
}.

Section tenants.
Context {RE : RbacEnv} (sessionExpiry : Duration).

Lemma has_user_grow l l' id org : (∀ u, u ∈ l → has_user l' (user_ID u) (user_OrgID u)) → has_user l id org → has_user l' id org.
Proof. intros H (u & Hu & <- & <-). by apply H. Qed.
Lemma update_has_user v f l : (∀ x, user_ID (f x) = user_ID x ∧ user_OrgID (f x) = user_OrgID x) →
  ∀ u, u ∈ l → has_user (update user_ID v f l) (user_ID u) (user_OrgID u).
Proof.
  intros Hf u Hu. exists (if String.eqb (user_ID u) v then f u else u).
  split; [by apply (list_elem_of_fmap_2 (λ row, if String.eqb (user_ID row) v then f row else row))|].
  destruct (String.eqb _ _); [apply Hf|done].
Qed.
(** The one user with an identifier. *)
Lemma has_user_org db u id org : db_ok db → u ∈ users db → user_ID u = id → has_user (users db) id org → org = user_OrgID u.
Proof. intros H Hu E (u' & Hu' & E' & <-). f_equal. apply (unique_row user_ID (users db)); [apply H|done..|congruence]. Qed.

(** *** What keeps the tables in order *)

Lemma ok_update_users v f db : (∀ x, user_ID (f x) = user_ID x ∧ user_OrgID (f x) = user_OrgID x) → db_ok db →
  db_ok (put_users (update user_ID v f (users db)) db).
Proof.
  intros Hf []. split; cbn; [done| |done..| |].
  - rewrite update_keys; [done|]. intros x. apply Hf.
  - eapply Forall_impl; [done|]. intros s. by apply has_user_grow, update_has_user.
  - eapply Forall_impl; [done|]. intros k. by apply has_user_grow, update_has_user.
Qed.
Lemma ok_UpdateUser now u db db' : UpdateUser now u db = Ok db' → db_ok db → db_ok db'.
Proof. unfold UpdateUser. destruct (email_taken _ _); [done|]. intros [= <-]. by apply ok_update_users. Qed.
Lemma CreateUser_ok now salt org req db new db' : CreateUser now salt org req db = (Ok new, db') →
  user_OrgID new = org ∧ ∃ rows, insert_row user_ID (stored_user now new) (users db) = Ok rows ∧ db' = put_users rows db.
Proof.
  unfold CreateUser, store_CreateUser, on_table, referring. destruct (bcrypt_hash _ _); [|done..]. destruct (existsb _ _); [done|].
  destruct (insert_row _ _ _) as [rows|e|e] eqn:E; [|done..]. destruct (foreign_keys _ && _); [done|]. intros [= <- <-]. split; [done|]. by exists rows.
Qed.
Lemma ok_CreateUser now salt org req db new db' : CreateUser now salt org req db = (Ok new, db') → db_ok db → db_ok db'.
Proof.
  intros (_ & rows & Hr & ->)%CreateUser_ok []. split; cbn; try done.
  - by eapply insert_row_keys.
  - apply insert_row_ok in Hr as [-> _]. eapply Forall_impl; [done|]. intros s. apply has_user_grow.
    intros u Hu. exists u. split; [|done]. apply elem_of_app. by left.
  - apply insert_row_ok in Hr as [-> _]. eapply Forall_impl; [done|]. intros k. apply has_user_grow.
    intros u Hu. exists u. split; [|done]. apply elem_of_app. by left.
Qed.
Lemma Forall_without {A} (P : A → Prop) column v l : Forall P l → Forall P (without column v l).
Proof. intros H. apply Forall_forall. intros x [Hx _]%elem_of_without. by eapply Forall_forall in H. Qed.
Lemma ok_fewer_sessions column v db : db_ok db → db_ok (put_sessions (without column v (sessions db)) db).
Proof. intros []. split; try done. by apply Forall_without. Qed.
Lemma ok_fewer_invites v db : db_ok db → db_ok (DeleteInvite v db).
Proof. intros []. split; try done. by apply without_sub. Qed.
Lemma ok_DeleteUser id db : db_ok db → db_ok (store_DeleteUser id db).
Proof.
  intros []. split; cbn; try done; [by apply without_sub..| |].
  - apply Forall_forall. intros s [Hs Hne]%elem_of_without. eapply Forall_forall in ok_session_users0 as (u & Hu & E & Ho); [|done].
    exists u. split_and!; [|done..]. apply elem_of_without. split; [done|]. congruence.
  - apply Forall_forall. intros s [Hs Hne]%elem_of_without. eapply Forall_forall in ok_key_users0 as (u & Hu & E & Ho); [|done].
    exists u. split_and!; [|done..]. apply elem_of_without. split; [done|]. congruence.
Qed.
Lemma present_in u db : present u db → u ∈ users db.
Proof. by intros [Hin _]%row_by_some. Qed.
Lemma asked_ok now who db db' : Asked now who db db' → db_ok db → db_ok db'.
Proof.
  intros [who0 db0|db0 s Hs Ha|db0 k u Hk Hu] Hok; [done|by apply ok_fewer_sessions|]. destruct Hok. split; cbn; try done.
  - by rewrite update_keys.
  - apply Forall_forall. intros k' [[Hin _]|(old & Hin & _ & ->)]%elem_of_update.
    all: exact (proj1 (Forall_forall _ _) ok_key_users0 _ Hin).
Qed.

(** *** What a request does *)

Lemma own_user_some u id db t : own_user u id db = Some t → t ∈ users db ∧ user_ID t = id ∧ user_OrgID t = user_OrgID u.
Proof.
  unfold own_user, GetUser. destruct (row_by _ _ _) as [t'|] eqn:E; [|done]. destruct (String.eqb_spec (user_OrgID t') (user_OrgID u)); [|done].
  intros [= <-]. by apply row_by_some in E as [? ?].
Qed.
Lemma own_team_some u id db t : own_team u id db = Some t → t ∈ teams db ∧ team_ID t = id ∧ team_OrgID t = user_OrgID u.
Proof.
  unfold own_team, GetTeam. destruct (row_by _ _ _) as [t'|] eqn:E; [|done]. destruct (String.eqb_spec (team_OrgID t') (user_OrgID u)); [|done].
  intros [= <-]. by apply row_by_some in E as [? ?].
Qed.
Lemma own_key_some u id db k : own_key u id db = Some k → key_OrgID k = user_OrgID u ∧
  ∃ row, row ∈ api_keys db ∧ key_ID row = id ∧ key_OrgID row = user_OrgID u.
Proof.
  unfold own_key, GetAPIKey. destruct (row_by _ _ _) as [row|] eqn:E; [|done]. apply row_by_some in E as [? ?].
  destruct (key_ExpiresAt row), (LastUsedAt row); try done. cbn. destruct (String.eqb_spec (key_OrgID row) (user_OrgID u)); [|done].
  intros [= <-]. eauto.
Qed.
(** A failed address check or a user in the organization: the users elsewhere stay. *)
Lemma elsewhere_update_user v f o db : (∀ x, user_OrgID (f x) = user_OrgID x) →
  (∀ x, x ∈ users db → user_ID x = v → user_OrgID x = o) →
  elsewhere o (put_users (update user_ID v f (users db)) db) = elsewhere o db.
Proof.
  intros Hf H. unfold elsewhere. cbn. f_equal. apply elsewhere_update. intros x Hx E. split; [by apply H|].
  rewrite Hf. by apply H.
Qed.
Lemma asked_elsewhere now u db db' : Asked now (Some u) db db' → db_ok db → elsewhere (user_OrgID u) db' = elsewhere (user_OrgID u) db.
Proof.
  intros Ha Hok. inversion Ha as [who0 db0|db0 s Hs Hexp|db0 k u0 Hk Hu]; subst; [done|].
  unfold elsewhere. cbn. f_equal. apply elsewhere_update. intros x Hx E.
  assert (x = k) as -> by (apply (unique_row key_ID (api_keys db)); [apply Hok|done..]).
  apply row_by_some in Hu as [Hin E2]. cbn. split; [|]; (eapply has_user_org; [done..|]).
  all: pose proof (proj1 (Forall_forall _ _) (ok_key_users db Hok) k Hk) as Hh; exact Hh.
Qed.

Lemma change_keeps_ok r who db db' : Change sessionExpiry r who db db' → (∀ u, who = Some u → present u db) → db_ok db → db_ok db'.
Proof.
  intros Hc Hp H. destruct Hc as [|b u db db1 Hc Hu Hm Ha Hs| |u req new db db' Hm Hn|u id t req db db' Ht Ho Hu|u id t db Ht Hm
    |u t db db' Ht|u id t req db Ht| |u req k key db db' Hk| |u req i token db db' Hm Hi| | |b i new db db' Hc Hi Hn
    |u o o' req db db' Ho Hu Hs| |]; try specialize (Hp _ eq_refl); try done.
  - assert (H1 : db_ok db1).
    { revert Hs. unfold CreateSession, on_table, referring. destruct (insert_row _ _ _) eqn:E; [|done..]. destruct (foreign_keys _ && _); [done|]. intros [= <-].
      apply insert_row_ok in E as [-> _]. destruct H. split; try done. cbn. apply Forall_app. split; [done|].
      constructor; [|constructor]. exists u. split; [|done]. unfold GetUserByEmailAnyOrg in Hu.
      destruct (row_by Email _ _); [|done]. by apply row_by_some in Hu as [? _]. }
    unfold login_write. cbn [snd]. destruct (UpdateUser _ _ _) eqn:E; [|done..]. by eapply ok_UpdateUser.
  - by apply ok_fewer_sessions.
  - by eapply ok_CreateUser.
  - by eapply ok_UpdateUser.
  - by apply ok_DeleteUser, ok_fewer_sessions.
  - revert Ht. unfold CreateTeam, on_table, referring. destruct (insert_row _ _ _) eqn:E; [|done..]. destruct (foreign_keys _ && _); [done|]. intros [= <-]. destruct H. split; try done.
    by eapply insert_row_keys.
  - destruct H. split; try done. cbn. by rewrite update_keys.
  - destruct H. split; try done. by apply without_sub.
  - revert Hk. unfold CreateAPIKey, store_CreateAPIKey, on_table, referring. destruct (insert_row _ _ _) eqn:E; [|done..]. destruct (foreign_keys _ && _); [done|]. intros [= _ _ <-].
    destruct H. split; try done; [by eapply insert_row_keys|]. apply insert_row_ok in E as [-> _]. apply Forall_app. split; [done|].
    constructor; [|constructor]. exists u. split; [by apply present_in|done].
  - destruct H. split; try done; [by apply without_sub|by apply Forall_without].
  - revert Hi. unfold CreateInvite, store_CreateInvite, on_table, referring. destruct (insert_row _ _ _) eqn:E; [|done..]. destruct (foreign_keys _ && _); [done|]. intros [= _ _ <-].
    destruct H. split; try done. by eapply insert_row_keys.
  - by apply ok_fewer_invites.
  - by apply ok_fewer_invites.
  - apply ok_fewer_invites. by eapply ok_CreateUser.
  - revert Hs. unfold UpdateOrganization. destruct (_ && _); [done|]. intros [= <-]. destruct H. split; try done. cbn.
    by rewrite update_keys.
  - by apply ok_fewer_sessions.
  - by apply ok_update_users.
Qed.
Lemma serve_ok r db : db_ok db → db_ok (serve sessionExpiry r db).2.
Proof.
  intros H. destruct (serve_changes sessionExpiry r db) as (who & db1 & Ha & Hc & Hp).
  eapply change_keeps_ok; [exact Hc|by intros u Hu; apply (Hp u Hu)|]. by eapply asked_ok.
Qed.
Lemma serve_all_ok rs : ∀ db, db_ok db → db_ok (serve_all sessionExpiry rs db).
Proof. induction rs as [|r rs IH]; intros db H; [done|]. cbn. by apply IH, serve_ok. Qed.

Lemma change_elsewhere r u db db' : Change sessionExpiry r (Some u) db db' → present u db → db_ok db →
  elsewhere (user_OrgID u) db' = elsewhere (user_OrgID u) db.
Proof.
  intros Hc Hp H. pose proof (present_in u db Hp) as Hin.
  inversion Hc as [|b u0 db0 db1 Hc' Hu Hm Ha Hs| |u0 req new db0 db0' Hm Hn|u0 id t req db0 db0' Ht Ho Hu|u0 id t db0 Ht Hm
    |u0 t db0 db0' Ht|u0 id t req db0 Ht|u0 id t db0 Ht|u0 req k key db0 db0' Hk|u0 id k db0 Hk|u0 req i token db0 db0' Hm Hi
    |u0 id i db0 Hi Hio| |b i new db0 db0' Hc' Hi Hn|u0 o o' req db0 db0' Ho Hu Hs|u0 db0|u0 hash db0]; subst; try done.
  - apply CreateUser_ok in Hn as (Ho & rows & Hr & ->). unfold elsewhere. cbn. f_equal. by eapply elsewhere_insert.
  - apply own_user_some in Ht as (Ht & E & Ho'). revert Hu. unfold UpdateUser. destruct (email_taken _ _); [done|]. intros [= <-].
    apply elsewhere_update_user; [done|]. intros x Hx E'. rewrite <- Ho'. f_equal.
    apply (unique_row user_ID (users db)); [apply H|done..].
  - apply own_user_some in Ht as (Ht & E & Ho'). pose proof (ok_session_users db H) as Hs. pose proof (ok_key_users db H) as Hk.
    unfold elsewhere. cbn. f_equal.
    + apply elsewhere_without. intros x Hx E'. rewrite <- Ho'. f_equal. apply (unique_row user_ID (users db)); [apply H|done..|congruence].
    + etrans; apply elsewhere_without.
      all: intros s Hx E'; try apply (elem_of_without sess_UserID) in Hx as [Hx _].
      all: rewrite <- Ho'; apply (has_user_org db t (sess_UserID s)); [done..|congruence|].
      all: by apply (proj1 (Forall_forall _ _) Hs).
    + apply elsewhere_without. intros k Hx E'. rewrite <- Ho'; apply (has_user_org db t (key_UserID k)); [done..|congruence|].
      by apply (proj1 (Forall_forall _ _) Hk).
  - revert Ht. unfold CreateTeam, on_table, referring. destruct (insert_row _ _ _) eqn:E; [|done..]. destruct (foreign_keys _ && _); [done|]. intros [= <-].
    unfold elsewhere. cbn. f_equal. by eapply elsewhere_insert.
  - apply own_team_some in Ht as (Ht & E & Ho). unfold elsewhere. cbn. f_equal. apply elsewhere_update.
    intros x Hx E'. cbn. assert (x = t) as -> by (apply (unique_row team_ID (teams db)); [apply H|done..]). done.
  - apply own_team_some in Ht as (Ht & E & Ho). unfold elsewhere. cbn. f_equal. apply elsewhere_without.
    intros x Hx E'. assert (x = t) as -> by (apply (unique_row team_ID (teams db)); [apply H|done|done|congruence]). done.
  - revert Hk. unfold CreateAPIKey, store_CreateAPIKey, on_table, referring. destruct (insert_row _ _ _) eqn:E; [|done..]. destruct (foreign_keys _ && _); [done|]. intros [= _ _ <-].
    unfold elsewhere. cbn. f_equal. by eapply elsewhere_insert.
  - apply own_key_some in Hk as (_ & row & Hr & E & Ho). unfold elsewhere. cbn. f_equal. apply elsewhere_without.
    intros x Hx E'. assert (x = row) as -> by (apply (unique_row key_ID (api_keys db)); [apply H|done|done|congruence]). done.
  - revert Hi. unfold CreateInvite, store_CreateInvite, on_table, referring. destruct (insert_row _ _ _) eqn:E; [|done..]. destruct (foreign_keys _ && _); [done|]. intros [= _ _ <-].
    unfold elsewhere. cbn. f_equal. by eapply elsewhere_insert.
  - apply row_by_some in Hi as [Hi E]. unfold elsewhere. cbn. f_equal. apply elsewhere_without. intros x Hx E'.
    assert (x = i) as -> by (apply (unique_row inv_ID (invites db)); [apply H|done|done|congruence]). done.
  - apply row_by_some in Ho as [Ho E]. revert Hs. unfold UpdateOrganization. destruct (_ && _); [done|]. intros [= <-].
    assert (E2 : org_ID o' = org_ID o).
    { revert Hu. unfold update_org. destruct (ou_Settings req); [destruct (Settings o); [|case_bool_decide]|]; by intros [= <-]. }
    unfold elsewhere. cbn. f_equal. apply elsewhere_update. intros x Hx E'. cbn. split; congruence.
  - unfold elsewhere. cbn. f_equal. apply elsewhere_without. intros s Hs E. apply (has_user_org db u (sess_UserID s)); [done..|].
    by apply (proj1 (Forall_forall _ _) (ok_session_users db H)).
  - apply elsewhere_update_user; [done|]. intros x Hx E. f_equal. apply (unique_row user_ID (users db)); [apply H|done..].
Qed.

(** *** What a request answers *)

Hypothesis order_rows_rows : ∀ A (le : A → A → bool) l, order_rows le l ≡ₚ l.
Lemma ordered {A} (P : A → Prop) le l : Forall P l → Forall P (order_rows le l).
Proof. by rewrite order_rows_rows. Qed.

Lemma handler_answers r f u db : user_call r = Some f → present u db → db_ok db → body_within (user_OrgID u) (body (f u db).1).
Proof.
  intros Hf Hp H. revert Hf. unfold user_call. destruct (rq_call r); intros [= <-].
  - unfold list_users, permitted. destruct (HasPermission _ _ _); [|done]. apply ordered, where_org.
  - unfold post_user, permitted. destruct (HasPermission _ _ _); [|done]. destruct body as [req|]; [|done].
    destruct (CanManageRole _ _) eqn:Hm; [|done]. cbn [negb].
    destruct (CreateUser _ _ _ _ _) as [[new|e|e] db'] eqn:E; [|done..]. by apply CreateUser_ok in E as [? _].
  - unfold get_user. destruct (negb _); [done|]. destruct (own_user _ _ _) as [t|] eqn:E; [|done]. by apply own_user_some in E as (_ & _ & ?).
  - unfold put_user. destruct (negb _); [done|]. destruct (own_user _ _ _) as [t|] eqn:E; [|done]. apply own_user_some in E as (_ & _ & ?).
    destruct body as [req|]; [|done]. destruct (role_objection _ _ _); [done|]. by destruct (UpdateUser _ _ _).
  - unfold delete_user, permitted. destruct (HasPermission _ _ _); [|done]. destruct (String.eqb _ _); [done|].
    destruct (own_user _ _ _); [|done]. by destruct (negb _).
  - unfold list_teams, permitted. destruct (HasPermission _ _ _); [|done]. apply ordered, where_org.
  - unfold post_team, permitted. destruct (HasPermission _ _ _); [|done]. destruct body as [t|]; [|done]. by destruct (CreateTeam _ _ _).
  - unfold get_team, about_team, permitted. destruct (HasPermission _ _ _); [|done]. destruct (own_team _ _ _) eqn:E; [|done].
    by apply own_team_some in E as (_ & _ & ?).
  - unfold put_team, about_team, permitted. destruct (HasPermission _ _ _); [|done]. destruct (own_team _ _ _) eqn:E; [|done].
    apply own_team_some in E as (_ & _ & ?). by destruct body.
  - unfold delete_team, about_team, permitted. destruct (HasPermission _ _ _); [|done]. by destruct (own_team _ _ _).
  - unfold list_api_keys, permitted. destruct (HasPermission _ _ _); [|done]. apply ordered, where_org.
  - unfold post_api_key, permitted. destruct (HasPermission _ _ _); [|done]. destruct body as [req|]; [|done].
    unfold CreateAPIKey. by destruct (store_CreateAPIKey _ _ _).
  - unfold get_api_key, about_key, permitted. destruct (HasPermission _ _ _); [|done]. destruct (own_key _ _ _) eqn:E; [|done].
    by apply own_key_some in E as [? _].
  - unfold delete_api_key, about_key, permitted. destruct (HasPermission _ _ _); [|done]. by destruct (own_key _ _ _).
  - unfold list_invites, permitted. destruct (HasPermission _ _ _); [|done]. apply ordered, where_org.
  - unfold post_invite, permitted. destruct (HasPermission _ _ _); [|done]. destruct body as [req|]; [|done].
    destruct (negb _); [done|]. unfold CreateInvite. by destruct (store_CreateInvite _ _ _).
  - unfold delete_invite, permitted. destruct (HasPermission _ _ _); [|done]. destruct (GetInvite _ _); [|done]. by destruct (String.eqb _ _).
  - unfold get_org. destruct (GetOrganization _ _) eqn:E; [|done]. by apply row_by_some in E as [_ ?].
  - unfold put_org, permitted. destruct (HasPermission _ _ _); [|done]. destruct (GetOrganization _ _) as [o|] eqn:E; [|done].
    apply row_by_some in E as [_ E]. destruct body as [req|]; [|done]. destruct (update_org _ _) as [o'|] eqn:Hu; [|done].
    destruct (UpdateOrganization _ _ _); [|done..]. cbn. rewrite <- E. revert Hu. unfold update_org.
    destruct (ou_Settings req); [destruct (Settings o); [|case_bool_decide]|]; by intros [= <-].
  - unfold get_sessions. apply ordered, Forall_forall. intros s Hs%list_elem_of_In. apply filter_In in Hs as [Hs _].
    apply list_elem_of_In, elem_of_where in Hs as [Hs E]. apply (has_user_org db u (sess_UserID s)); [done| |done|].
    + by apply present_in.
    + by apply (proj1 (Forall_forall _ _) (ok_session_users db H)).
  - done.
  - unfold change_password. destruct body as [b|]; [|done]. by destruct (ChangePassword _ _ _ _ _ _) as [[?|?|?] ?].
Qed.

(** A request of a user that is known: who asks is found out, and the route answers. *)
Lemma dispatch_within r a db : (∀ b, rq_call r ≠ PostLogin b) → rq_call r ≠ PostLogout → (∀ b, rq_call r ≠ PostAccept b) →
  present (ai_user a) db → db_ok db → let o := user_OrgID (ai_user a) in
  elsewhere o (dispatch sessionExpiry r (Some a) db).2 = elsewhere o db ∧ body_within o (body (dispatch sessionExpiry r (Some a) db).1).
Proof.
  intros Hl Hg Hv Hp H o. unfold dispatch, with_user. cbn [getUserFromRequest]. destruct (user_call r) as [f|] eqn:Hf.
  - split; [|by apply (handler_answers r)]. eapply change_elsewhere; [|done..]. by apply handler_changes.
  - revert Hf. unfold user_call. destruct (rq_call r) eqn:Hc; try done; try by edestruct Hl. 2: by edestruct Hv.
    intros _. cbn. split_and!; [done..|]. intros x [_ E]%row_by_some. done.
Qed.
End tenants.

(** C37: Organizations are isolated. Let the sessions and API keys at the start belong to users of
    their organizations, under unique identifiers. After any requests, whoever made them: a
    request that the middleware lets through as that of a user leaves every row that is not of
    the organization of the user as it is (organizations, users, teams, sessions, keys and
    invitations), and what it answers is about that organization alone. Lists of rows come in any
    order. *)
Theorem tenants_are_isolated {RE : RbacEnv} sessionExpiry rs r db0 a db1 :
  (∀ A (le : A → A → bool) l, order_rows le l ≡ₚ l) → db_ok db0 →
  let db := serve_all sessionExpiry rs db0 in
  AuthMiddleware r db = (inr (Some a), db1) →
  let o := user_OrgID (ai_user a) in
  elsewhere o (serve sessionExpiry r db).2 = elsewhere o db ∧ body_within o (body (serve sessionExpiry r db).1).
Proof.
  intros Horder H0 db Hm o. pose proof (serve_all_ok sessionExpiry rs db0 H0 : db_ok db) as H.
  unfold serve. rewrite Hm. revert Hm. unfold AuthMiddleware.
  destruct (gate_of (call_path (rq_call r))) eqn:Hg; [done|by destruct (rq_call r)|]. intros Hm.
  pose proof (authenticate_asked (rq_now r) (rq_creds r) db) as Ha. rewrite Hm in Ha. destruct Ha as (Ha & Hp & Hp').
  pose proof (asked_ok _ _ _ _ Ha H) as H1. pose proof (asked_elsewhere _ _ _ _ Ha H : elsewhere o db1 = elsewhere o db) as <-.
  apply dispatch_within; [done| | | |done|done].
  - intros b E. by rewrite E in Hg.
  - intros E. by rewrite E in Hg.
  - intros b E. by rewrite E in Hg.
Qed.
