(* ===== verification/RbacSessions.v ===== *)
(** Sessions come from logins: whoever is let through by a session has logged in with the
    password, not too long ago. And the limiter of requests lets no key through more often than
    its limit in any window. *)

From Stdlib Require Import String.
From stdpp Require Import base option list numbers gmap strings pretty.
From S2P Require Import Prelude Rbac RbacAuth RbacWeb RbacFacts.
From Stdlib Require Import Permutation Sorted.
From stdpp Require Import list.
#[local] Open Scope list_scope.
#[local] Open Scope Z_scope.

(** ** Sessions *)

Section sessions.
Context {RE : RbacEnv} (sessionExpiry : Duration).

(** A login that made a session: a user who was active, with the password. *)
Record made_by (r : Request) (db : DB) (s : Session) (u : User) : Prop := {
  mb_login : ∃ b, rq_call r = PostLogin (Some b) ∧ GetUserByEmailAnyOrg (lq_Email b) db = Some u ∧
    bcrypt_matches (lq_Password b) (PasswordHash u) = true;
  mb_active : IsActive u = true;
  mb_user : sess_UserID s = user_ID u;
  mb_token : token_hash s = HashToken (rq_random r);
  mb_expiry : sess_ExpiresAt s = in_seconds (rq_now r + sessionExpiry);
}.
(** The session was made by one of the requests. *)
Definition logged_in (rs : list Request) (db0 : DB) (s : Session) : Prop :=
  ∃ before r after u, rs = before ++ r :: after ∧ made_by r (serve_all sessionExpiry before db0) s u.

Lemma asked_sessions now who db db' : Asked now who db db' → users db' = users db ∧ ∀ s, s ∈ sessions db' → s ∈ sessions db.
Proof. intros [who0 db0|db0 s Hs Ha|db0 k u Hk Hu]; (split; [done|]); intros s'; [done| |done]. cbn. by intros [? _]%elem_of_without. Qed.
Lemma UpdateUser_sessions now u db db' : UpdateUser now u db = Ok db' → sessions db' = sessions db.
Proof. unfold UpdateUser. destruct (email_taken _ _); [done|]. by intros [= <-]. Qed.
Lemma CreateUser_sessions now salt org req db new db' : CreateUser now salt org req db = (Ok new, db') → sessions db' = sessions db.
Proof.
  unfold CreateUser, store_CreateUser, on_table, referring. destruct (bcrypt_hash _ _); [|done..]. destruct (existsb _ _); [done|].
  destruct (insert_row _ _ _); [|done..]. destruct (foreign_keys _ && _); [done|]. by intros [= _ <-].
Qed.
Lemma change_sessions r who db db' s : Change sessionExpiry r who db db' → s ∈ sessions db' →
  s ∈ sessions db ∨ ∃ u, made_by r db s u.
Proof.
  intros Hc. destruct Hc as [|b u db db1 Hc Hu Hm Ha Hs|db s0|u req new db db' Hm Hn|u id t req db db' Ht Ho Hu|u id t db Ht Hm
    |u t db db' Ht| | |u req k key db db' Hk| |u req i token db db' Hm Hi| | |b i new db db' Hc Hi Hn|u o o' req db db' Ho Hu Hs|u db|];
    try (by left).
  - assert (E : sessions (login_write sessionExpiry (rq_now r) (rq_random r) u db1).2 = sessions db1).
    { unfold login_write. cbn [snd]. destruct (UpdateUser _ _ _) eqn:E; [by eapply UpdateUser_sessions|done..]. }
    rewrite E. revert Hs. unfold CreateSession, on_table, referring. destruct (insert_row _ _ _) eqn:Ei; [|done..]. destruct (foreign_keys _ && _); [done|]. intros [= <-].
    apply insert_row_ok in Ei as [-> _]. cbn [put_sessions sessions]. intros [Hin| ->%list_elem_of_singleton]%elem_of_app; [by left|].
    right. exists u. split; [by exists b|done..].
  - cbn. intros [? _]%elem_of_without. by left.
  - rewrite (CreateUser_sessions _ _ _ _ _ _ _ Hn). by left.
  - rewrite (UpdateUser_sessions _ _ _ _ Hu). by left.
  - cbn. intros [[? _]%(elem_of_without sess_UserID) _]%elem_of_without. by left.
  - revert Ht. unfold CreateTeam, on_table, referring. destruct (insert_row _ _ _); [|done..]. destruct (foreign_keys _ && _); [done|]. intros [= <-]. by left.
  - revert Hk. unfold CreateAPIKey, store_CreateAPIKey, on_table, referring. destruct (insert_row _ _ _); [|done..]. destruct (foreign_keys _ && _); [done|]. intros [= _ _ <-]. by left.
  - revert Hi. unfold CreateInvite, store_CreateInvite, on_table, referring. destruct (insert_row _ _ _); [|done..]. destruct (foreign_keys _ && _); [done|]. intros [= _ _ <-]. by left.
  - cbn. rewrite (CreateUser_sessions _ _ _ _ _ _ _ Hn). by left.
  - revert Hs. unfold UpdateOrganization. destruct (_ && _); [done|]. intros [= <-]. by left.
  - cbn. intros [? _]%elem_of_without. by left.
Qed.
Lemma made_by_users r db db' s u : users db' = users db → made_by r db s u → made_by r db' s u.
Proof.
  intros E [(b & H1 & H2 & H3) ????]. split; try done. exists b. split_and!; [done| |done].
  revert H2. unfold GetUserByEmailAnyOrg, GetUser. by rewrite E.
Qed.
Lemma serve_sessions r db s : s ∈ sessions (serve sessionExpiry r db).2 → s ∈ sessions db ∨ ∃ u, made_by r db s u.
Proof.
  destruct (serve_changes sessionExpiry r db) as (who & db1 & Ha & Hc & _). intros Hs.
  apply asked_sessions in Ha as [E Hsub]. apply (change_sessions _ _ _ _ _ Hc) in Hs as [Hs|[u Hu]]; [left; by apply Hsub|].
  right. exists u. by apply (made_by_users r db1).
Qed.
Lemma serve_all_sessions rs s : ∀ db, s ∈ sessions (serve_all sessionExpiry rs db) → s ∈ sessions db ∨ logged_in rs db s.
Proof.
  induction rs as [|r rs IH]; intros db Hs; [by left|]. apply IH in Hs as [Hs|(before & r' & after & u & -> & Hm)].
  - apply serve_sessions in Hs as [Hs|[u Hu]]; [by left|]. right. by exists [], r, rs, u.
  - right. by exists (r :: before), r', after, u.
Qed.

(** The token that a request carries for a session. *)
Definition carries (c : Credentials) (token : string) : Prop :=
  session_cookie c = Some token ∨ ∃ scheme, split_scheme (Authorization c) = Some (scheme, token) ∧ to_lower scheme = "bearer"%string.
Lemma by_session_found now token db a s db' : by_session now token db = (Ok a, db') → ai_session a = Some s →
  s ∈ sessions db ∧ token_hash s = HashToken token ∧ now ≤ sess_ExpiresAt s ∧
  GetUser (sess_UserID s) db = Some (ai_user a) ∧ IsActive (ai_user a) = true.
Proof.
  unfold by_session, ValidateSession. destruct (GetSessionByToken _ _) as [s'|] eqn:Hs; [|done].
  apply row_by_some in Hs as [Hin E]. destruct (After _ _) eqn:Ha; [done|]. destruct (GetUser _ _) as [u|] eqn:Hu; [|done].
  destruct (IsActive u) eqn:Hact; [|done]. intros [= <- <-] [= <-]. split_and!; [done..| |done|done]. unfold After in Ha. lia.
Qed.
Lemma by_key_found now key db a s db' : by_key now key db = (Ok a, db') → ai_session a ≠ Some s.
Proof. unfold by_key. destruct (ValidateAPIKey _ _ _) as [[[k u]|e|e] db1]; [|done..]. by intros [= <- <-]. Qed.
Lemma extractAuth_found now c db a s db' : extractAuth now c db = (Ok a, db') → ai_session a = Some s →
  ∃ token, carries c token ∧ by_session now token db = (Ok a, db').
Proof.
  intros H Hs. revert H. unfold extractAuth, validateAuthHeader. destruct (negb _).
  - destruct (split_scheme _) as [[scheme token]|] eqn:E; [|done].
    destruct (String.eqb_spec (to_lower scheme) "bearer"); [intros Hx; exists token; split; [right; by exists scheme|done]|].
    destruct (String.eqb _ _); [by intros Hx%(by_key_found _ _ _ _ s)|]. destruct (Bytes.HasPrefix _ _); [by intros Hx%(by_key_found _ _ _ _ s)|done].
  - destruct (negb _); [by intros Hx%(by_key_found _ _ _ _ s)|]. destruct (session_cookie c) as [token|] eqn:E; [|done].
    destruct (String.eqb _ _); [done|]. intros H. exists token. split; [by left|done].
Qed.
End sessions.

(** C39: Sessions come from logins. From tables without sessions, after any requests: when a
    request is let through for a session, then its user is in the tables and active, the session
    was made by a login that came before, of a user with that identifier who was active and whose
    password the login had; the token that the request carries has the hash of the one that was
    drawn for the login; and the time that sessions are good for has not passed since. *)
Theorem sessions_come_from_logins {RE : RbacEnv} sessionExpiry rs db0 r a s db1 :
  sessions db0 = [] → let db := serve_all sessionExpiry rs db0 in
  AuthMiddleware r db = (inr (Some a), db1) → ai_session a = Some s →
  present (ai_user a) db ∧ IsActive (ai_user a) = true ∧
  ∃ before login after u token, rs = before ++ login :: after ∧
    made_by sessionExpiry login (serve_all sessionExpiry before db0) s u ∧ user_ID u = user_ID (ai_user a) ∧
    carries (rq_creds r) token ∧ HashToken token = HashToken (rq_random login) ∧
    rq_now r ≤ in_seconds (rq_now login + sessionExpiry).
Proof.
  intros H0 db Hm Hs. revert Hm. unfold AuthMiddleware. destruct (gate_of _) eqn:Hg; [done|by destruct (rq_call r)|].
  unfold Authenticate. destruct (extractAuth _ _ db) as [[a'|e|e] db'] eqn:He; [|done..]. intros [= -> ->].
  apply (extractAuth_found _ _ _ _ s) in He as (token & Hc & Hb); [|done].
  apply (by_session_found _ _ _ _ s) in Hb as (Hin & Ht & Hexp & Hu & Hact); [|done].
  pose proof Hu as [_ E]%row_by_some. split_and!; [unfold present; by rewrite E|done|].
  apply serve_all_sessions in Hin as [Hin|(before & login & after & u & Er & Hmb)]; [rewrite H0 in Hin; by apply elem_of_nil in Hin|].
  exists before, login, after, u, token. destruct Hmb as [Hl Ha' Hu' Htk Hex] eqn:Emb. split_and!; try done; congruence.
Qed.

(** ** The limiter *)

Section limiter.
(** A request for a key, and the sweep that runs now and then. *)
Inductive Op := Ask (key : string) | Sweep.
Definition op_step (now : Z) (op : Op) (st : list (Z * string) * RateLimiter) : list (Z * string) * RateLimiter :=
  match op with
  | Ask key => let '(ok, rl) := Limit now key st.2 in (if ok then st.1 ++ [(now, key)] else st.1, rl)
  | Sweep => (st.1, cleanup now st.2)
  end.
(** The times and keys that were let through, and the limiter after. *)
Fixpoint op_run (ops : list (Z * Op)) (st : list (Z * string) * RateLimiter) : list (Z * string) * RateLimiter :=
  match ops with [] => st | (now, op) :: ops => op_run ops (op_step now op st) end.
(** How often a key was let through after a time and up to another. *)
Definition of_key (key : string) (h : list (Z * string)) : list Z := fst <$> List.filter (λ e, String.eqb e.2 key) h.
Definition passed (key : string) (from to : Z) (h : list (Z * string)) : Z :=
  Z.of_nat (length (List.filter (λ t, (from <? t) && (t <=? to)) (of_key key h))).
Definition stored (key : string) (rl : RateLimiter) : list Z := default [] (requests rl !! key).

Lemma length_filter_le {A} (p q : A → bool) l : (∀ x, x ∈ l → p x = true → q x = true) →
  (length (List.filter p l) ≤ length (List.filter q l))%nat.
Proof.
  induction l as [|x l IH]; intros H; [done|]. cbn. specialize (IH (λ y Hy, H y (list_elem_of_further _ _ _ Hy))).
  pose proof (H x (list_elem_of_here _ _)) as Hx. destruct (p x); [rewrite Hx by done; cbn; lia|]. destruct (q x); cbn; lia.
Qed.
Lemma recent_app c l1 l2 : recent c (l1 ++ l2) = recent c l1 ++ recent c l2.
Proof. apply List.filter_app. Qed.
Lemma recent_recent c c' l : c' ≤ c → recent c (recent c' l) = recent c l.
Proof.
  intros H. unfold recent. induction l as [|x l IH]; [done|]. cbn [List.filter].
  destruct (Z.ltb_spec c' x); cbn [List.filter]; [by rewrite IH|]. destruct (Z.ltb_spec c x); [lia|done].
Qed.
Lemma of_key_app key h1 h2 : of_key key (h1 ++ h2) = of_key key h1 ++ of_key key h2.
Proof. unfold of_key. by rewrite List.filter_app, fmap_app. Qed.
Lemma of_key_one key now key' : of_key key [(now, key')] = if String.eqb key' key then [now] else [].
Proof. unfold of_key. cbn. by destruct (String.eqb key' key). Qed.

Context (lim win : Z).
(** The limiter at a time: what it keeps of a key is what was let through, as far as it counts. *)
Record limiter_ok (now : Z) (st : list (Z * string) * RateLimiter) : Prop := {
  lo_limit : limit st.2 = lim;
  lo_window : window st.2 = win;
  lo_past : ∀ e, e ∈ st.1 → e.1 ≤ now;
  lo_stored : ∀ key c, now - win ≤ c → recent c (stored key st.2) = recent c (of_key key st.1);
  lo_passed : ∀ key to, passed key (to - win) to st.1 ≤ Z.max 0 lim;
  lo_max : maxEntries st.2 = 10000;
  lo_size : Z.of_nat (size (requests st.2)) ≤ 10000;
}.
Lemma lo_later now now' st : now ≤ now' → limiter_ok now st → limiter_ok now' st.
Proof. intros H []. split; try done; [intros e He; specialize (lo_past0 e He); lia|intros; apply lo_stored0; lia]. Qed.

Lemma stored_cleanup key now rl : stored key (cleanup now rl) = recent (now - window rl) (stored key rl).
Proof.
  unfold stored, cleanup. cbn [requests put_requests]. rewrite lookup_omap. destruct (requests rl !! key) as [l|]; [|done].
  cbn -[recent]. by destruct (recent _ l).
Qed.
Lemma sweep_ok now st : limiter_ok now st → limiter_ok now (op_step now Sweep st).
Proof.
  intros []. split; cbn [op_step fst snd]; try done.
  - intros key c Hc. rewrite stored_cleanup, recent_recent by lia. by apply lo_stored0.
  - etrans; [|exact lo_size0]. unfold cleanup. cbn. apply Nat2Z.inj_le. rewrite <- !size_dom.
    apply subseteq_size. intros k [l Hl]%elem_of_dom. apply elem_of_dom. rewrite lookup_omap in Hl.
    destruct (requests st.2 !! k); [by eexists|done].
Qed.
(** What is in a window up to a time. *)
Lemma passed_recent key from to h : (∀ e, e ∈ h → e.1 ≤ to) → passed key from to h = Z.of_nat (length (recent from (of_key key h))).
Proof.
  intros H. unfold passed, recent. do 2 f_equal. apply List.filter_ext_in. intros t (e & -> & He)%list_elem_of_In%list_elem_of_fmap.
  apply list_elem_of_In, filter_In in He as [He _]. apply list_elem_of_In, H in He. destruct (Z.leb_spec e.1 to); [|lia].
  by rewrite andb_true_r.
Qed.
Lemma passed_app key from to h1 h2 : passed key from to (h1 ++ h2) = passed key from to h1 + passed key from to h2.
Proof. unfold passed. rewrite of_key_app, List.filter_app, length_app. lia. Qed.
Lemma passed_one key from to now key' :
  passed key from to [(now, key')] = if String.eqb key' key && ((from <? now) && (now <=? to)) then 1 else 0.
Proof. unfold passed. rewrite of_key_one. destruct (String.eqb _ _); [|done]. cbn [List.filter andb]. by destruct (_ && _). Qed.

(** The decision, by what was let through. *)
Lemma Limit_decision now key st : limiter_ok now st →
  (Limit now key st.2).1 = negb (bool_decide (requests st.2 !! key = None) && (maxEntries st.2 <=? Z.of_nat (size (requests st.2))))
                           && (passed key (now - win) now st.1 <? lim).
Proof.
  intros []. rewrite passed_recent by done. rewrite <- lo_stored0 by lia. unfold Limit. rewrite lo_window0, lo_limit0.
  destruct (_ && _); [done|]. cbn [negb andb]. fold (stored key st.2).
  destruct (Z.leb_spec lim (Z.of_nat (length (recent (now - win) (stored key st.2))))); cbn [fst]; symmetry; lia.
Qed.
Lemma Limit_state now key rl : Limit now key rl = if (Limit now key rl).1
  then (true, put_requests (<[key := recent (now - window rl) (stored key rl) ++ [now]]> (requests rl)) rl) else (false, rl).
Proof. unfold Limit, stored. destruct (_ && _); [done|]. by destruct (_ <=? _). Qed.
Lemma ask_ok now key st : limiter_ok now st → limiter_ok now (op_step now (Ask key) st).
Proof.
  intros H. unfold op_step. rewrite Limit_state. destruct (Limit now key st.2).1 eqn:E; [|by destruct st, H].
  rewrite (Limit_decision now key st H) in E. apply andb_true_iff in E as [Hfull Hl]. destruct H.
  split; cbn [fst snd put_requests limit window requests]; try done.
  - intros e [He| ->%list_elem_of_singleton]%elem_of_app; [by apply lo_past0|done].
  - intros key' c Hc. rewrite of_key_app, of_key_one, recent_app, <- lo_stored0 by done. unfold stored at 1. cbn [requests put_requests].
    destruct (String.eqb_spec key key') as [->|Hne].
    + rewrite lookup_insert_eq. cbn [from_option]. unfold id. rewrite lo_window0. rewrite recent_app, recent_recent by lia. done.
    + rewrite lookup_insert_ne by done. by rewrite app_nil_r.
  - intros key' to. rewrite passed_app. assert (Hone : passed key' (to - win) to [(now, key)] ≤ 1).
    { rewrite passed_one. destruct (String.eqb _ _ && _); lia. }
    destruct (decide (key = key')) as [<-|Hne].
    2: { rewrite passed_one. apply String.eqb_neq in Hne as ->. cbn [andb]. specialize (lo_passed0 key' to). lia. }
    destruct (decide (to < now)) as [Hto|Hto].
    + assert (passed key (to - win) to [(now, key)] = 0) as ->.
      { rewrite passed_one. destruct (Z.leb_spec now to); [lia|]. by rewrite !andb_false_r. }
      specialize (lo_passed0 key to). lia.
    + assert (passed key (to - win) to st.1 ≤ passed key (now - win) now st.1); [|lia].
      rewrite !passed_recent by (intros e He; specialize (lo_past0 e He); lia).
      apply Nat2Z.inj_le, length_filter_le. intros x _. lia.
  - destruct (requests st.2 !! key) as [l|] eqn:Ek.
    + by rewrite map_size_insert_Some.
    + rewrite map_size_insert_None by done. rewrite bool_decide_true, lo_max0 in Hfull by done. cbn in Hfull. lia.
Qed.
Lemma op_run_ok ops : ∀ now st, limiter_ok now st → Sorted Z.le (now :: (fst <$> ops)) →
  ∀ now', last (now :: (fst <$> ops)) = Some now' → limiter_ok now' (op_run ops st).
Proof.
  induction ops as [|[t op] ops IH]; intros now st H Hs now' Hl; [by injection Hl as <-|]. cbn [op_run].
  rewrite fmap_cons in Hs, Hl. apply Sorted_inv in Hs as [Hs Hle]. inversion Hle; subst.
  apply (IH t); [|done|by rewrite last_cons_cons in Hl]. apply (lo_later now t) in H; [|done].
  destruct op; [by apply ask_ok|by apply sweep_ok].
Qed.
End limiter.

(** C40: The limiter limits. Requests for any keys and sweeps come one after the other, at times
    that do not go back. No key is let through more often than the limit within any window (the
    seconds after [to - win] and up to [to]), the limiter never holds more than 10000 keys, and
    the next request of a key is refused if and only if its key was let through that often in
    the window that ends with it, or it is a key that the limiter does not hold and it is full. *)
Theorem limiter_limits lim win t0 ops :
  Sorted Z.le (t0 :: (fst <$> ops)) →
  let '(h, rl) := op_run ops ([], NewRateLimiter lim win) in
  (∀ key to, passed key (to - win) to h ≤ Z.max 0 lim) ∧ Z.of_nat (size (requests rl)) ≤ 10000 ∧
  ∀ now key, (∀ t, t ∈ t0 :: (fst <$> ops) → t ≤ now) →
    ((Limit now key rl).1 = false ↔
     lim ≤ passed key (now - win) now h ∨ requests rl !! key = None ∧ Z.of_nat (size (requests rl)) = 10000).
Proof.
  intros Hs. destruct (last (t0 :: (fst <$> ops))) as [tl|] eqn:El; [|by apply last_None in El].
  assert (H0 : limiter_ok lim win t0 ([], NewRateLimiter lim win)).
  { split; try done; [by intros e He%elem_of_nil|]. intros key to. unfold passed. cbn. lia. }
  pose proof (op_run_ok lim win ops t0 _ H0 Hs tl El) as H.
  destruct (op_run ops _) as [h rl] eqn:E.
  split_and!; [apply H|apply H|]. intros now key Hnow.
  assert (Hl : limiter_ok lim win now (h, rl)).
  { eapply lo_later; [|exact H]. apply Hnow, last_Some_elem_of. done. }
  pose proof (lo_size _ _ _ _ Hl) as Hsz. pose proof (lo_max _ _ _ _ Hl) as Hm. cbn in Hsz, Hm.
  pose proof (Limit_decision lim win now key (h, rl) Hl) as Hd. cbn [fst snd] in Hd. rewrite Hd, Hm.
  rewrite andb_false_iff, negb_false_iff, andb_true_iff, bool_decide_eq_true, Z.leb_le, Z.ltb_ge. split; intros [?|?]; naive_solver lia.
Qed.
