(* ===== verification/RbacExamples.v ===== *)
(** Access control at work on two small organizations: witnesses for its theorems, and the cases
    in which it does something else than it says. *)

From Stdlib Require Import String.
From stdpp Require Import base option list numbers gmap strings pretty.
From S2P Require Import Prelude Bytes Demo Rbac RbacAuth RbacWeb RbacFacts RbacSpec RbacTenants RbacSessions.
From Stdlib Require Import Permutation Sorted.
From stdpp Require Import list.
#[local] Open Scope list_scope.
#[local] Open Scope Z_scope.

Definition demo_rbac : RbacEnv := {|
  order_rows := λ A le l, insertion_sort le l;
  bcrypt_hash := λ _ password, Ok ("$" +:+ password);
  bcrypt_matches := λ password hash, String.eqb hash ("$" +:+ password);
  HashToken := λ token, "#" +:+ token;
  to_lower := ToLower;
  foreign_keys := λ _, true |}.
#[local] Existing Instance demo_rbac.

Definition demo_user (id org email : string) (role : Role) : User :=
  mkUser id org email ("$" +:+ id) id role [] "" "" true None 0 0.
Definition demo_org (id : string) : Organization := mkOrganization id id id "free" None 0 0.
Definition the_owner : User := demo_user "olga" "acme" "olga@acme.com" RoleOwner.
Definition the_admin : User := demo_user "adam" "acme" "adam@acme.com" RoleAdmin.
Definition the_viewer : User := demo_user "vera" "acme" "vera@acme.com" RoleViewer.
Definition the_other : User := demo_user "oona" "other" "adam@acme.com" RoleAdmin.
Definition demo_tables : DB :=
  mkDB [demo_org "acme"; demo_org "other"] [the_owner; the_admin; the_viewer; the_other]
    [mkTeam "t1" "other" "ops" "" [] 0 0] [] [] [].

Definition nothing_carried : Credentials := mkCredentials "" "" None.
Definition with_token (token : string) : Credentials := mkCredentials ("Bearer " +:+ token) "" None.
Definition with_key (key : string) : Credentials := mkCredentials "" key None.
Definition at_second (n : Z) (c : Credentials) (random : string) (call : Call) : Request :=
  mkRequest (from_Unix n) "" "" c random call.
Definition log_in (n : Z) (id email : string) : Request :=
  at_second n nothing_carried ("token-" +:+ id) (PostLogin (Some (mkLoginRequest email id))).
Definition new_role (role : Role) : UserUpdate := mkUserUpdate "" "" role None None "".
Definition week : Duration := defaultSessionExpiry.

(** The administrator logs in, makes the viewer an editor, and fails to make them an owner. *)
Definition demo_requests : list Request :=
  [log_in 1000 "adam" "adam@acme.com";
   at_second 1001 (with_token "token-adam") "" (PutUser "vera" (Some (new_role RoleEditor)));
   at_second 1002 (with_token "token-adam") "" (PutUser "vera" (Some (new_role RoleOwner)))].
Definition invite_an_editor : Request :=
  at_second 1003 (with_token "token-adam") "welcome" (PostInvites (Some (mkInviteRequest "new@acme.com" RoleEditor))).

Example demo_roles : user_Role <$> users (serve_all week demo_requests demo_tables) = [RoleOwner; RoleAdmin; RoleEditor; RoleAdmin].
Proof. vm_compute. reflexivity. Qed.

Lemma roles_are_granted_from_above_witness :
  let db' := serve_all week demo_requests demo_tables in
  (∀ u, u ∈ users db' → level u ≤ 4 ∧
     (level u = 4 → ∃ u0, u0 ∈ users demo_tables ∧ user_ID u0 = user_ID u ∧ level u0 = 4)) ∧
  ∀ i, i ∈ invites db' → hierarchy (inv_Role i) < 4.
Proof.
  apply (roles_are_granted_from_above week demo_requests 4 demo_tables).
  - apply (proj1 (Forall_forall (λ u, level u ≤ 4) _)), (bool_decide_unpack _). vm_compute. exact I.
  - intros i []%elem_of_nil.
Defined.

Lemma demo_tables_ok : db_ok demo_tables.
Proof. split; try apply Forall_nil_2; apply (bool_decide_unpack _); vm_compute; exact I. Qed.

Lemma tenants_are_isolated_witness : ∃ a db1, let db := serve_all week demo_requests demo_tables in
  AuthMiddleware invite_an_editor db = (inr (Some a), db1) ∧ user_OrgID (ai_user a) = "acme"%string ∧
  elsewhere (user_OrgID (ai_user a)) (serve week invite_an_editor db).2 = elsewhere (user_OrgID (ai_user a)) db ∧
  body_within (user_OrgID (ai_user a)) (body (serve week invite_an_editor db).1).
Proof.
  do 2 eexists. cbv zeta. split; [vm_compute; reflexivity|]. split; [reflexivity|].
  eapply (tenants_are_isolated week demo_requests invite_an_editor demo_tables).
  - intros A le l. apply insertion_sort_perm.
  - apply demo_tables_ok.
  - vm_compute. reflexivity.
Defined.

Lemma sessions_come_from_logins_witness : ∃ a s db1, let db := serve_all week demo_requests demo_tables in
  AuthMiddleware invite_an_editor db = (inr (Some a), db1) ∧ ai_session a = Some s ∧
  (present (ai_user a) db ∧ IsActive (ai_user a) = true ∧
   ∃ before login after u token, demo_requests = before ++ login :: after ∧
     made_by week login (serve_all week before demo_tables) s u ∧ user_ID u = user_ID (ai_user a) ∧
     carries (rq_creds invite_an_editor) token ∧ HashToken token = HashToken (rq_random login) ∧
     rq_now invite_an_editor ≤ in_seconds (rq_now login + week)).
Proof.
  do 3 eexists. cbv zeta. split; [vm_compute; reflexivity|]. split; [reflexivity|].
  eapply (sessions_come_from_logins week demo_requests demo_tables invite_an_editor); [reflexivity|vm_compute; reflexivity|reflexivity].
Defined.

(** Two a minute; the third is refused until the first is out of the window. *)
Definition demo_ops : list (Z * Op) := [(100, Ask "k"); (110, Ask "k"); (120, Ask "k"); (125, Sweep); (165, Ask "k")].
Example demo_let_through : (op_run demo_ops ([], NewRateLimiter 2 60)).1 = [(100, "k"); (110, "k"); (165, "k")]%string.
Proof. vm_compute. reflexivity. Qed.
Lemma limiter_limits_witness :
  let '(h, rl) := op_run demo_ops ([], NewRateLimiter 2 60) in
  (∀ key to, passed key (to - 60) to h ≤ Z.max 0 2) ∧ Z.of_nat (size (requests rl)) ≤ 10000 ∧
  ∀ now key, (∀ t, t ∈ 0 :: (fst <$> demo_ops) → t ≤ now) →
    ((Limit now key rl).1 = false ↔
     2 ≤ passed key (now - 60) now h ∨ requests rl !! key = None ∧ Z.of_nat (size (requests rl)) = 10000).
Proof. apply (limiter_limits 2 60 0 demo_ops). change (Sorted Z.le [0; 100; 110; 120; 125; 165]). repeat constructor; lia. Defined.

(** ** What a key may do *)

(** The permissions of a key are not looked at: one with none makes users like its owner does. *)
Definition no_permissions : APIKey := mkAPIKey "key_1" "acme" "adam" "ci" "dw_1" "#dw_1" [] None None true 0.
Definition with_demo_key : DB := put_api_keys [no_permissions] demo_tables.
Example key_permissions_do_not_matter :
  CheckAPIKeyPermission no_permissions ResourceUsers ActionCreate = false ∧
  code (serve week (at_second 1000 (with_key "dw_1") "" (PostUsers (Some (mkUserCreate "x@acme.com" "pw" "X" RoleEditor)))) with_demo_key).1 = 201.
Proof. split; vm_compute; reflexivity. Qed.
(** A key goes on working when its user is deactivated. *)
Definition deactivated (u : User) : User := apply_update (mkUserUpdate "" "" "" None (Some false) "") u.
Example keys_of_inactive_users_work :
  let db := put_users [deactivated the_admin] with_demo_key in
  code (serve week (at_second 1000 (with_key "dw_1") "" GetUsers) db).1 = 200 ∧
  code (serve week (log_in 1000 "adam" "adam@acme.com") db).1 = 401.
Proof. split; vm_compute; reflexivity. Qed.
(** A key that has no time of expiry, or was not used, cannot be shown or deleted. *)
Lemma key_without_times_is_not_found u id db : (∀ k, k ∈ api_keys db → key_ID k = id → key_ExpiresAt k = None ∨ LastUsedAt k = None) →
  own_key u id db = None.
Proof.
  intros H. unfold own_key, GetAPIKey. destruct (row_by _ _ _) as [k|] eqn:E; [|done]. apply row_by_some in E as [Hk Ek].
  destruct (H k Hk Ek) as [->| ->]; [done|by destruct (key_ExpiresAt k)].
Qed.
Example new_key_is_not_deleted :
  let r1 := at_second 1000 (with_token "token-adam") "secret" (PostAPIKeys (Some (mkAPIKeyCreate "ci" [] "30d"))) in
  let db := serve_all week [log_in 999 "adam" "adam@acme.com"; r1] demo_tables in
  (key_ID <$> api_keys db) = ["key_1000000000000"%string] ∧
  code (serve week (at_second 1001 (with_token "token-adam") "" (DeleteAPIKeyByID "key_1000000000000")) db).1 = 404.
Proof. split; vm_compute; reflexivity. Qed.
(** A time of expiry that is not understood is none, and a thousand years are over at once. *)
Example key_expiries :
  key_expiry 0 "1M" = None ∧ key_expiry 0 "soon" = None ∧ key_expiry 0 "30 days" = Some (30 * Second) ∧
  match key_expiry 0 "1000y" with Some t => t <? 0 | None => false end = true.
Proof. split_and!; vm_compute; reflexivity. Qed.

(** ** Users *)

(** An administrator does not delete the owner, and takes the role away, or the account. *)
Example admin_demotes_the_owner :
  let db := serve_all week [log_in 999 "adam" "adam@acme.com"] demo_tables in
  let ask call := at_second 1000 (with_token "token-adam") "" call in
  code (serve week (ask (DeleteUser "olga")) db).1 = 403 ∧
  user_Role <$> users (serve week (ask (PutUser "olga" (Some (new_role RoleViewer)))) db).2 = [RoleViewer; RoleAdmin; RoleViewer; RoleAdmin].
Proof. split; vm_compute; reflexivity. Qed.
(** The owner invites an administrator and becomes a viewer; the invitation still makes an
    administrator, of an organization where nobody is above a viewer. *)
Example invitation_outlives_its_level :
  let small := mkDB [demo_org "acme"] [the_owner] [] [] [] [] in
  let ask n random call := at_second n (with_token "token-olga") random call in
  let db := serve_all week [log_in 1000 "olga" "olga@acme.com";
    ask 1001 "welcome" (PostInvites (Some (mkInviteRequest "new@acme.com" RoleAdmin)));
    ask 1002 "" (PutUser "olga" (Some (new_role RoleViewer)))] small in
  user_Role <$> users db = [RoleViewer] ∧
  user_Role <$> users (serve week (at_second 1003 nothing_carried "nina" (PostAccept (Some (mkAccept "welcome" "nina" "Nina")))) db).2
    = [RoleViewer; RoleAdmin].
Proof. split; vm_compute; reflexivity. Qed.
(** A user who is made with capitals in the address logs in without them only. *)
Example capitals_do_not_log_in :
  let r1 := at_second 1000 (with_token "token-adam") "" (PostUsers (Some (mkUserCreate "Eve@acme.com" "eve" "Eve" RoleEditor))) in
  let db := serve_all week [log_in 999 "adam" "adam@acme.com"; r1] demo_tables in
  code (serve week (log_in 1001 "eve" "Eve@acme.com") db).1 = 401 ∧ code (serve week (log_in 1001 "eve" "eve@acme.com") db).1 = 200.
Proof. split; vm_compute; reflexivity. Qed.
(** Who has the address of a user that is before them does not log in. *)
Example same_address_elsewhere :
  Email the_other = Email the_admin ∧ code (serve week (log_in 1000 "oona" "adam@acme.com") demo_tables).1 = 401.
Proof. split; vm_compute; reflexivity. Qed.
(** Sessions outlive the password they were made with. *)
Lemma password_change_keeps_sessions r b u db : sessions (change_password r b u db).2 = sessions db.
Proof.
  unfold change_password, ChangePassword. destruct b as [b|]; [|done]. destruct (GetUser _ _); [|done].
  destruct (negb _); [done|]. done.
Qed.
(** A login writes back all of the user that it read before: a deactivation in between is undone. *)
Example login_undoes_a_deactivation :
  let db := put_users [deactivated the_viewer] demo_tables in
  IsActive <$> users db = [false] ∧ IsActive <$> users (login_write week 0 "t" the_viewer db).2 = [true].
Proof. split; vm_compute; reflexivity. Qed.
(** Settings of an organization that has none panic. *)
Example settings_of_an_organization_without :
  let r1 := at_second 1000 (with_token "token-adam") "" (PutOrg (Some (mkOrgUpdate "" (Some {["theme"%string := "dark"%string]})))) in
  code (serve week r1 (serve_all week [log_in 999 "adam" "adam@acme.com"] demo_tables)).1 = 500.
Proof. vm_compute. reflexivity. Qed.
(** The callback of a login elsewhere wants a user; its start does not. *)
Example callback_is_not_public :
  gate_of "/api/auth/callback/google" = GateAuthenticate ∧ gate_of "/api/auth/oauth/google" = GatePass.
Proof. split; vm_compute; reflexivity. Qed.
